(* ===== verification/_CoqProject ===== *)
-Q . S2P
Prelude.v
Lmb.v
Mem.v
Ctype.v
Cstring.v
Qsort.v
Hashtable.v
HashtableSearch.v
HashtableText.v
EnvFlags.v
Crc.v
EnvStore.v
Vendor.v
Div64.v
Strtoul.v
Vsprintf.v
RkParam.v
Bytes.v
Rsa.v
HashStream.v
Sha256.v
Sha1.v
Fdt.v
FdtTree.v
FdtWip.v
FdtEdit.v
FdtRw.v
FdtSw.v
FdtImage.v
FdtUpdate.v
FdtNodes.v
FdtBuild.v
RsaVerify.v
ImageSig.v
RkLoader.v
Sparse.v
RkImage.v
Rc4.v
IdBlock.v
IdbUpdate.v
Tftp.v
TftpNet.v
TftpPut.v
Image.v
ImageFdt.v
Uuid.v
PartEfi.v
PartEfiTable.v
PartEfiRead.v
PartDos.v
Part.v
CmdGpt.v
