(* ===== verification/Prelude.v ===== *)
(** * A verification library for the U-Boot tree of the EAIDK-610 board

    The sources are U-Boot with the code that Rockchip added for its loader.
    Between reset and the kernel the loader reads its parameter block and its
    partition table, restores the environment, reads the vendor items (serial
    number, MAC addresses), checks images, and places kernel, ramdisk and device
    tree in memory.  The development models the code that makes these
    decisions; what it decides about is memory, strings, tables and hashes, so
    the library code below is modelled with it.

    ** Parts and files

    - [Prelude]: machine words ([u8] to [u64], [s32], [s64]: a value is a [Z]
      and every step that can leave its range is followed by a wrap), checked
      array accesses ([aget], [aset]: [None] is an access out of bounds),
      tactics and hints.
    - [Lmb] ([lib/lmb.c]): the allocator of physical memory.  [rep] relates a
      table to a sorted list of disjoint blocks; reservations and releases are
      union and difference of address sets, allocations are aligned, inside one
      bank and disjoint from what is reserved.
    - [Mem], [Ctype], [Cstring] ([lib/string.c], [lib/linux_string.c],
      [lib/ctype.c]): byte-addressed memory and the string routines on it, with
      the word-wise variants of [memcpy], [memset] and [memchr_inv].
    - [Qsort] ([lib/qsort.c]): Shell sort; it terminates, rearranges and sorts.
    - [Hashtable], [HashtableSearch], [HashtableText] ([lib/hashtable.c]): the
      table of environment variables, its refinement to a finite map (the probe
      sequence visits every slot since the size is prime), export and import as
      text and their round trip.  The class [EnvHooks] is what the table calls
      back: [strdup], the flags and callbacks of a variable, and [change_ok].
    - [EnvFlags] ([common/env_attr.c], [common/env_flags.c],
      [common/env_callback.c]): attribute lists, types and access rights; it
      gives an instance of the hooks, and shows what the rights guarantee for
      any sequence of insertions and deletions.
    - [Crc] ([lib/crc32.c], [lib/crc32_rk.c], [lib/crc16.c], [lib/crc7.c],
      [lib/crc8.c], [platform/crc.c]): table-driven checksums against bit-serial
      division.
    - [EnvStore] ([common/env_rk.c]): saving and restoring the environment,
      over [HashtableText] and [Crc].
    - [Vendor] ([storage/storage.c]): the vendor items, their copies, and what a
      power failure leaves.
    - [Div64] ([lib/div64.c]), [Strtoul], [Vsprintf] ([lib/vsprintf.c]): 64-bit
      division, numbers from text, and all of [vsnprintf].
    - [RkParam] ([rkloader/parameter.c]): the parameter block, its lines, and
      the partition table of the command line.
    - [HashStream], [Sha256], [Sha1] ([lib/sha256.c], [lib/sha1.c]): hashing in
      pieces for any compression function, and the two functions of FIPS 180.
    - [Rsa] ([lib/rsa/rsa-verify.c]): Montgomery arithmetic, the RSA public
      operation and the comparison with padding and hash.
    - [Bytes]: big-endian words and their bytes.
    - [Fdt] ([lib/libfdt/fdt.c], [lib/libfdt/fdt_ro.c]): reading flattened
      device trees.  [FdtTree] relates a blob to the tokens of its structure
      block and these to a tree ([blob], [items], [node_at]), and proves the
      reading functions against the tree; it also shows what holds of bytes
      that nobody checked.
    - [FdtWip] ([lib/libfdt/fdt_wip.c]): changes in place, and the regions of a
      tree that a signature covers.  [FdtEdit]: the changes, as changes of the
      tree.
    - [FdtRw] ([lib/libfdt/fdt_rw.c]): insertions and deletions that move the
      blocks.  [FdtImage] describes a blob in a buffer with room ([frame],
      [image]) and what splicing does to it; [FdtUpdate] and [FdtNodes] prove
      setting, adding and removing properties and nodes against the tree.
    - [FdtSw] ([lib/libfdt/fdt_sw.c], [fdt_empty_tree.c], [fdt_addresses.c]):
      building a blob call by call.  [FdtBuild]: what is built is what is read.
    - [RsaVerify] ([lib/rsa/rsa-verify.c]): keys read from the control tree and
      the search for one that accepts a signature, over [Rsa] and [Fdt].
    - [ImageSig] ([common/image-sig.c]): signatures of FIT images and
      configurations, over [RsaVerify], [FdtWip] and the hashes.
    - [RkLoader] ([rkloader/rkloader.c], [rkloader/rkimage.c],
      [storage/storage.c]): copies between memory and the boot medium in
      pieces, and loading of kernel images.  The class [MemFun] is the medium,
      [MemFunLaws] what a medium without errors does.
    - [Sparse] ([rkloader/rkimage.c], [common/cmd_fastboot.c]): the data phase
      of a fastboot download.  A sparse image that is written while it arrives,
      in whatever pieces, is compared with one that is expanded from memory.
    - [RkImage] ([rkloader/rkimage.c]): flashing by name; the parameter block
      that is built and flashed is the one that [RkParam] reads.
    - [Rc4] ([platform/rc4_enc.c]); [IdBlock], [IdbUpdate]
      ([rkloader/idblock.c]): the blocks that the boot ROM starts from, their
      search, their update with a new loader, and what survives when it is
      interrupted.
    - [Tftp] ([net/tftp.c]): the TFTP client, reads and uploads.  [TftpNet] puts
      it into a network with an RFC 1350 server (the class [Server]) as a
      labelled transition system: a successful read has the file in memory, and
      a read with at most ten losses succeeds.  [TftpPut]: uploads.
    - [Image] ([common/image.c], [include/image.h]): legacy images in memory,
      their checksums and components, the ramdisk for the kernel; what one
      changed byte does, and where the ramdisk is moved to, over [Lmb].
      [ImageFdt] ([common/image-fdt.c]): the device tree for the kernel, its
      reservations and its move, over [FdtRw] and [Lmb].  The tree is read with
      [blob_at], the memory from its address to the next one that is not mapped.
    - [Uuid] ([lib/uuid.c]): UUID and GUID strings.  [PartEfi]
      ([disk/part_efi.c]): GUID partition tables, read, checked, written and
      verified; the class [BlockDev] is the block device, [BlockDevLaws] one
      whose writes may stop after any block.  [PartEfiTable]: what a write that
      stops leaves, and where the partitions are.  [PartEfiRead]: a table that was
      written is read back and verified.
    - [PartDos] ([disk/part_dos.c]): MS-DOS partition tables; the numbers of the
      partitions in a chain of extended tables.  [Part] ([disk/part.c]): devices
      and partitions by name; the class [PartTable] is what a table promises to
      the search for a bootable partition.
    - [CmdGpt] ([common/cmd_gpt.c]): the [gpt] command.  A list of partitions as a
      text is written as a table, read back and verified.

    ** How the code is translated

    A function of the source is a function of the same name; a loop in it is a
    [Fixpoint] beside it.  Loops that are not structural have fuel, and every
    theorem about them shows that the fuel given by the caller is enough (the
    number of slots for a probe sequence, the length of the text for a parser,
    the number of blocks below an address for the allocator), so that [None]
    only stands for an access out of bounds.  Structures are records, arrays
    are lists of the fixed length, pointers are indices or what is left of a
    list, and error codes are the integers of the source.  Code that is not
    part of the modelled files (drivers of the medium, callbacks, allocation)
    is an argument with its laws as a class or as hypotheses, and every
    theorem with hypotheses has a witness where they hold.

    Target: a 64-bit little-endian ARM with 64-bit [unsigned long], unsigned
    [char], no watchdog, [CONFIG_SYS_VSNPRINTF] set.

    ** Groups of theorems

    - Safety: protected variables are never changed, allocations never overlap
      reserved memory, output never leaves its buffer, a torn update never loses
      the old contents, an image that is accepted was signed by a known key, an
      update of the loader always leaves a copy to start from, a TFTP read that
      succeeds has the file.
    - Liveness: a TFTP read over a network with few losses ends in success.
    - Refinement and equivalence: the hash table is a finite map, the region
      tables are sets of addresses, table-driven checksums are polynomial
      division, optimised hashes are the standards' functions, the word-wise
      string routines are the byte-wise ones, Montgomery arithmetic computes
      [m ^ e mod n], a blob is read and changed as the tree it encodes.
    - Round trips: export and import, save and restore, print and read, the
      partition table, building a device tree and reading it, flashing a kernel
      or a parameter block and loading it.
    - Errors: where the code does not do what it means to, the theorem states
      what it does (for instance [lmb_free_last_reserve_lost],
      [hsearch_enter_overwrites_other], [vendor_write_overlaps],
      [GetParam_no_backup], [rsa_verify_required_key_bypassed],
      [fdt_next_node_hangs], [sparse_download_past_end], [tftpput_wraps]).

    ** Not modelled

    Drivers, DMA, interrupts and start-up code (no logic that is independent of
    the devices), file systems and decompressors (imported from other projects),
    the network stack apart from TFTP, the contents of FIT images apart from
    signatures, the fix-ups of the kernel's device tree, the shell and the commands that print, the
    commands of fastboot and the USB endpoints, other architectures and boards, host tools.  Output to the console
    is left out everywhere. *)

From stdpp Require Export base tactics list gmap strings numbers propset sorting.
From Stdlib Require Export ZArith Lia.
Open Scope Z_scope.

(** ** Notations for the bit operators of C *)

Declare Scope cword_scope.
Notation "a .& b" := (Z.land a b) (at level 40, left associativity) : cword_scope.
Notation "a .| b" := (Z.lor a b) (at level 50, left associativity) : cword_scope.
Notation "a .^ b" := (Z.lxor a b) (at level 45, left associativity) : cword_scope.
Open Scope cword_scope.

(** ** Machine words

    A [w]-bit unsigned value is a [Z] in [0, 2^w); every arithmetic step of the
    source that can leave the range is followed by one of the wraps below. *)

Definition wrap (w z : Z) : Z := z mod 2 ^ w.
Definition u8 (z : Z) : Z := wrap 8 z.
Definition u16 (z : Z) : Z := wrap 16 z.
Definition u32 (z : Z) : Z := wrap 32 z.
Definition u64 (z : Z) : Z := wrap 64 z.

(** The two's complement reading of a [w]-bit pattern. *)
Definition swrap (w z : Z) : Z := (z + 2 ^ (w - 1)) mod 2 ^ w - 2 ^ (w - 1).
Definition s32 (z : Z) : Z := swrap 32 z.
Definition s64 (z : Z) : Z := swrap 64 z.

Definition in_word (w z : Z) : Prop := 0 <= z < 2 ^ w.

#[export] Instance in_word_dec w z : Decision (in_word w z).
Proof. unfold in_word. apply _. Defined.

Lemma wrap_small w z : in_word w z -> wrap w z = z.
Proof. intros H. by apply Z.mod_small. Qed.

Lemma wrap_range w z : 0 <= w -> in_word w (wrap w z).
Proof. intros H. apply Z.mod_pos_bound. lia. Qed.

Lemma wrap_wrap w z : 0 <= w -> wrap w (wrap w z) = wrap w z.
Proof. intros H. by apply wrap_small, wrap_range. Qed.

Lemma u8_range z : 0 <= u8 z < 256.
Proof. apply (wrap_range 8). lia. Qed.
Lemma u16_range z : 0 <= u16 z < 65536.
Proof. apply (wrap_range 16). lia. Qed.
Lemma u32_range z : 0 <= u32 z < 4294967296.
Proof. apply (wrap_range 32). lia. Qed.
Lemma u64_range z : 0 <= u64 z < 18446744073709551616.
Proof. apply (wrap_range 64). lia. Qed.

Lemma u8_small z : 0 <= z < 256 -> u8 z = z.
Proof. apply (wrap_small 8). Qed.
Lemma u16_small z : 0 <= z < 65536 -> u16 z = z.
Proof. apply (wrap_small 16). Qed.
Lemma u32_small z : 0 <= z < 4294967296 -> u32 z = z.
Proof. apply (wrap_small 32). Qed.
Lemma u64_small z : 0 <= z < 18446744073709551616 -> u64 z = z.
Proof. apply (wrap_small 64). Qed.

Lemma s32_small z : -2147483648 <= z < 2147483648 -> s32 z = z.
Proof.
  intros H. unfold s32, swrap. change (2 ^ (32 - 1)) with 2147483648. change (2 ^ 32) with 4294967296.
  rewrite Z.mod_small; lia.
Qed.

Lemma wrap_testbit w z i : 0 <= w -> Z.testbit (wrap w z) i = (i <? w) && Z.testbit z i.
Proof.
  intros Hw. unfold wrap. destruct (Z.ltb_spec i w).
  - by rewrite Z.mod_pow2_bits_low.
  - destruct (decide (0 <= i)); [by rewrite Z.mod_pow2_bits_high by lia|]. by rewrite !Z.testbit_neg_r by lia.
Qed.

Lemma lxor_in_word w a b : 0 <= w -> in_word w a -> in_word w b -> in_word w (a .^ b).
Proof.
  intros Hw Ha Hb. rewrite <-(wrap_small w a Ha), <-(wrap_small w b Hb).
  replace (wrap w a .^ wrap w b) with (wrap w (a .^ b)); [by apply wrap_range|].
  apply Z.bits_inj. intros i. rewrite Z.lxor_spec, !wrap_testbit, Z.lxor_spec by done.
  by destruct (i <? w), (Z.testbit a i), (Z.testbit b i).
Qed.

Lemma lor_in_word w a b : 0 <= w -> in_word w a -> in_word w b -> in_word w (a .| b).
Proof.
  intros Hw Ha Hb. rewrite <-(wrap_small w a Ha), <-(wrap_small w b Hb).
  replace (wrap w a .| wrap w b) with (wrap w (a .| b)); [by apply wrap_range|].
  apply Z.bits_inj. intros i. rewrite Z.lor_spec, !wrap_testbit, Z.lor_spec by done.
  by destruct (i <? w), (Z.testbit a i), (Z.testbit b i).
Qed.

Create Rewrite HintDb cword.
#[export] Hint Rewrite u8_small u16_small u32_small u64_small using lia : cword.

(** ** Checked array accesses

    Arrays of the source are lists of a fixed length; reading or writing
    outside of them is undefined behaviour and is modelled by [None]. *)

Section arrays.
Context {A : Type}.
Implicit Types (l : list A) (i : Z) (x : A).

Definition aget l i : option A :=
  if decide (0 <= i) then l !! Z.to_nat i else None.

Definition aset l i x : option (list A) :=
  if decide (0 <= i < Z.of_nat (length l)) then Some (<[Z.to_nat i := x]> l)
  else None.

Lemma aget_nat l (n : nat) : aget l (Z.of_nat n) = l !! n.
Proof. unfold aget. rewrite decide_True by lia. by rewrite Nat2Z.id. Qed.

Lemma aset_nat l (n : nat) x :
  (n < length l)%nat -> aset l (Z.of_nat n) x = Some (<[n := x]> l).
Proof. intros H. unfold aset. rewrite decide_True by lia. by rewrite Nat2Z.id. Qed.

Lemma aget_Some l i x : aget l i = Some x -> 0 <= i /\ l !! Z.to_nat i = Some x.
Proof. unfold aget. by case_decide. Qed.

Lemma aget_is_Some l i : 0 <= i < Z.of_nat (length l) -> is_Some (aget l i).
Proof.
  intros H. unfold aget. rewrite decide_True by lia.
  apply lookup_lt_is_Some_2. lia.
Qed.

Lemma aset_length l i x l' : aset l i x = Some l' -> length l' = length l.
Proof. unfold aset. case_decide; intros; simplify_eq. apply length_insert. Qed.

Lemma aset_Some l i x :
  0 <= i < Z.of_nat (length l) -> aset l i x = Some (<[Z.to_nat i := x]> l).
Proof. intros H. unfold aset. by rewrite decide_True. Qed.

Lemma aget_insert l i j x :
  0 <= i < Z.of_nat (length l) ->
  aget (<[Z.to_nat i := x]> l) j = if decide (j = i) then Some x else aget l j.
Proof.
  intros H. unfold aget. destruct (decide (j = i)) as [->|Hne].
  - rewrite decide_True by lia. apply list_lookup_insert_eq. lia.
  - case_decide; [|done]. apply list_lookup_insert_ne. lia.
Qed.
End arrays.

Lemma aget_0 {A : Type} (x : A) l : aget (x :: l) 0 = Some x.
Proof. done. Qed.

Lemma aset_0 {A : Type} (x y : A) l : aset (x :: l) 0 y = Some (y :: l).
Proof. unfold aset. rewrite decide_True by (cbn; lia). done. Qed.

Lemma app_cons_assoc {A : Type} (l1 : list A) x l2 : l1 ++ x :: l2 = (l1 ++ [x]) ++ l2.
Proof. by rewrite <-app_assoc. Qed.

(** The accesses at the border of a split array. *)

Lemma aget_mid {A : Type} (l1 : list A) p l2 : aget (l1 ++ p :: l2) (Z.of_nat (length l1)) = Some p.
Proof. rewrite aget_nat. by apply list_lookup_middle. Qed.

Lemma aset_mid {A : Type} (l1 : list A) p p' l2 :
  aset (l1 ++ p :: l2) (Z.of_nat (length l1)) p' = Some (l1 ++ p' :: l2).
Proof.
  rewrite aset_nat by (rewrite length_app; cbn; lia).
  by rewrite insert_app_r_alt, Nat.sub_diag by lia.
Qed.

Lemma aget_mid1 {A : Type} (l1 : list A) p q l2 :
  aget (l1 ++ p :: q :: l2) (Z.of_nat (length l1) + 1) = Some q.
Proof.
  rewrite app_cons_assoc.
  replace (Z.of_nat (length l1) + 1) with (Z.of_nat (length (l1 ++ [p]))); [apply aget_mid|].
  rewrite length_app. cbn. lia.
Qed.

(** ** Automation *)

(** Turns the boolean tests of the hypotheses and of the goal into their
    propositions, one case per outcome, and closes the absurd cases. *)
Ltac case_test :=
  match goal with
  | |- context [if ?b then _ else _] =>
      lazymatch b with
      | context [if _ then _ else _] => fail
      | _ => let E := fresh "E" in destruct b eqn:E
      end
  end.

Ltac case_test_in H :=
  match type of H with
  | context [if ?b then _ else _] =>
      lazymatch b with
      | context [if _ then _ else _] => fail
      | _ => let E := fresh "E" in destruct b eqn:E
      end
  end.

(** Linear arithmetic on the lengths of lists. *)
Ltac length_lia :=
  repeat progress (rewrite ?length_app, ?length_insert, ?length_replicate in *;
                   cbn [length app] in *);
  lia.

(** Replaces [x ≫= k] in a hypothesis [x ≫= k = Some y] by its two steps. *)
Ltac bind_inv H :=
  match type of H with
  | mbind _ ?x = Some _ =>
      let E := fresh "Hb" in
      destruct x eqn:E; [cbn [mbind option_bind] in H | discriminate H]
  end.

Create HintDb uboot discriminated.
