(* ===== verification/Lmb.v ===== *)
(** * Logical memory blocks ([lib/lmb.c], [include/lmb.h])

    The allocator that [bootm] and [bootrk] use to place the kernel, the ramdisk
    and the device tree.  A [struct lmb_region] is an array of
    [MAX_LMB_REGIONS + 1] blocks whose first [cnt] are live; array accesses are
    checked ([None] is an access outside the array) and [phys_addr_t],
    [phys_size_t] and [unsigned long] are 64 bits wide, as on the RK3399.

    The specification of a region table is the set of addresses it covers
    ([cover]); the theorems say what each operation does to that set, that the
    table stays sorted and disjoint, and what the allocator guarantees about
    the block it returns. *)

From S2P Require Import Prelude.

Definition MAX_LMB_REGIONS : Z := 8.
Definition LMB_ALLOC_ANYWHERE : Z := 0.

Record lmb_property := Prop_ { base : Z; size : Z }.

Record lmb_region := Rgn { cnt : Z; rgn_size : Z; region : list lmb_property }.

Record lmb := Lmb { memory : lmb_region; reserved : lmb_region }.

#[export] Instance lmb_property_eq_dec : EqDecision lmb_property.
Proof. solve_decision. Defined.

Definition set_region (rgn : lmb_region) (l : list lmb_property) : lmb_region :=
  Rgn (cnt rgn) (rgn_size rgn) l.

(** ** The operations *)

Definition lmb_addrs_overlap (base1 size1 base2 size2 : Z) : bool :=
  (base1 <? u64 (base2 + size2)) && (base2 <? u64 (base1 + size1)).

Definition lmb_addrs_adjacent (base1 size1 base2 size2 : Z) : Z :=
  if base2 =? u64 (base1 + size1) then 1
  else if base1 =? u64 (base2 + size2) then -1
  else 0.

Definition lmb_regions_adjacent (rgn : lmb_region) (r1 r2 : Z) : option Z :=
  p1 ← aget (region rgn) r1;
  p2 ← aget (region rgn) r2;
  Some (lmb_addrs_adjacent (base p1) (size p1) (base p2) (size p2)).

(** [for (i = r; i < rgn->cnt - 1; i++) rgn->region[i] = rgn->region[i + 1];]
    An iteration outside the array stops the model, so that
    [length (region rgn) + 1] iterations are always enough. *)
Fixpoint remove_loop (fuel : nat) (l : list lmb_property) (i lim : Z)
    : option (list lmb_property) :=
  match fuel with
  | O => None
  | S fuel =>
      if i <? lim then
        p ← aget l (i + 1);
        l' ← aset l i p;
        remove_loop fuel l' (i + 1) lim
      else Some l
  end.

Definition lmb_remove_region (rgn : lmb_region) (r : Z) : option lmb_region :=
  l ← remove_loop (S (length (region rgn))) (region rgn) r (u64 (cnt rgn - 1));
  Some (Rgn (u64 (cnt rgn - 1)) (rgn_size rgn) l).

Definition lmb_coalesce_regions (rgn : lmb_region) (r1 r2 : Z) : option lmb_region :=
  p1 ← aget (region rgn) r1;
  p2 ← aget (region rgn) r2;
  l ← aset (region rgn) r1 (Prop_ (base p1) (u64 (size p1 + size p2)));
  lmb_remove_region (set_region rgn l) r2.

(** [lmb_init] writes the first block of both tables and leaves the others. *)
Definition init_region (rgn : lmb_region) : option lmb_region :=
  l ← aset (region rgn) 0 (Prop_ 0 0);
  Some (Rgn 1 0 l).

Definition lmb_init (l : lmb) : option lmb :=
  m ← init_region (memory l);
  r ← init_region (reserved l);
  Some (Lmb m r).

(** The first loop of [lmb_add_region]: how it was left. *)
Inductive coalesce_result :=
| AlreadyThere                                       (* return 0 *)
| Coalesced (l : list lmb_property) (i : Z)          (* break *)
| Exhausted (i : Z).                                 (* i == rgn->cnt *)

Fixpoint coalesce_loop (fuel : nat) (l : list lmb_property) (cnt i b sz : Z)
    : option coalesce_result :=
  match fuel with
  | O => None
  | S fuel =>
      if i <? cnt then
        p ← aget l i;
        if (base p =? b) && (size p =? sz) then Some AlreadyThere
        else
          let adjacent := lmb_addrs_adjacent b sz (base p) (size p) in
          if 0 <? adjacent then
            l' ← aset l i (Prop_ (u64 (base p - sz)) (u64 (size p + sz)));
            Some (Coalesced l' i)
          else if adjacent <? 0 then
            l' ← aset l i (Prop_ (base p) (u64 (size p + sz)));
            Some (Coalesced l' i)
          else coalesce_loop fuel l cnt (i + 1) b sz
      else Some (Exhausted i)
  end.

(** [if ((i < rgn->cnt-1) && lmb_regions_adjacent(rgn, i, i+1))]: the block [i]
    may now touch its successor. *)
Definition coalesce_next (rgn : lmb_region) (i coalesced : Z) : option (lmb_region * Z) :=
  adj ← (if i <? u64 (cnt rgn - 1) then lmb_regions_adjacent rgn i (i + 1) else Some 0);
  if adj =? 0 then Some (rgn, coalesced)
  else
    rgn ← lmb_coalesce_regions rgn i (i + 1);
    Some (rgn, coalesced + 1).

(** [for (i = rgn->cnt-1; i >= 0; i--)]: the shift towards the end of the
    array, [n] being [i + 1]. *)
Fixpoint insert_loop (n : nat) (l : list lmb_property) (b sz : Z)
    : option (list lmb_property) :=
  match n with
  | O => Some l
  | S i =>
      p ← aget l (Z.of_nat i);
      if b <? base p then
        l' ← aset l (Z.of_nat (S i)) p;
        insert_loop i l' b sz
      else aset l (Z.of_nat (S i)) (Prop_ b sz)
  end.

Definition lmb_add_region (rgn : lmb_region) (b sz : Z) : option (Z * lmb_region) :=
  p0 ← aget (region rgn) 0;
  if (cnt rgn =? 1) && (size p0 =? 0) then
    l ← aset (region rgn) 0 (Prop_ b sz);
    Some (0, set_region rgn l)
  else
    r ← coalesce_loop (S (length (region rgn))) (region rgn) (cnt rgn) 0 b sz;
    match r with
    | AlreadyThere => Some (0, rgn)
    | Coalesced _ i | Exhausted i =>
        let '(rgn, coalesced) :=
          match r with
          | Coalesced l _ => (set_region rgn l, 1)
          | _ => (rgn, 0)
          end in
        '(rgn, coalesced) ← coalesce_next rgn i coalesced;
        if negb (coalesced =? 0) then Some (coalesced, rgn)
        else if MAX_LMB_REGIONS <=? cnt rgn then Some (-1, rgn)
        else
          l ← insert_loop (Z.to_nat (cnt rgn)) (region rgn) b sz;
          p ← aget l 0;
          l ← (if b <? base p then aset l 0 (Prop_ b sz) else Some l);
          Some (0, Rgn (u64 (cnt rgn + 1)) (rgn_size rgn) l)
    end.

Definition lmb_add (l : lmb) (b sz : Z) : option (Z * lmb) :=
  '(r, m) ← lmb_add_region (memory l) b sz;
  Some (r, Lmb m (reserved l)).

Definition lmb_reserve (l : lmb) (b sz : Z) : option (Z * lmb) :=
  '(r, m) ← lmb_add_region (reserved l) b sz;
  Some (r, Lmb (memory l) m).

(** The search loop of [lmb_free]: the index of the block that contains the
    range, with its bounds, or [None] when [i] reached [rgn->cnt]. *)
Fixpoint free_loop (fuel : nat) (l : list lmb_property) (cnt i b e : Z)
    : option (option (Z * Z * Z)) :=
  match fuel with
  | O => None
  | S fuel =>
      if i <? cnt then
        p ← aget l i;
        let rgnbegin := base p in
        let rgnend := u64 (rgnbegin + size p) in
        if (rgnbegin <=? b) && (e <=? rgnend) then Some (Some (i, rgnbegin, rgnend))
        else free_loop fuel l cnt (i + 1) b e
      else Some None
  end.

Definition free_region (rgn : lmb_region) (b sz : Z) : option (Z * lmb_region) :=
  let e := u64 (b + sz) in
  r ← free_loop (S (length (region rgn))) (region rgn) (cnt rgn) 0 b e;
  match r with
  | None => Some (-1, rgn)
  | Some (i, rgnbegin, rgnend) =>
      p ← aget (region rgn) i;
      if (rgnbegin =? b) && (rgnend =? e) then
        rgn ← lmb_remove_region rgn i;
        Some (0, rgn)
      else if rgnbegin =? b then
        l ← aset (region rgn) i (Prop_ e (u64 (size p - sz)));
        Some (0, set_region rgn l)
      else if rgnend =? e then
        l ← aset (region rgn) i (Prop_ (base p) (u64 (size p - sz)));
        Some (0, set_region rgn l)
      else
        l ← aset (region rgn) i (Prop_ (base p) (u64 (b - base p)));
        lmb_add_region (set_region rgn l) e (u64 (rgnend - e))
  end.

Definition lmb_free (l : lmb) (b sz : Z) : option (Z * lmb) :=
  '(r, m) ← free_region (reserved l) b sz;
  Some (r, Lmb (memory l) m).

Fixpoint overlaps_loop (fuel : nat) (l : list lmb_property) (cnt i b sz : Z) : option Z :=
  match fuel with
  | O => None
  | S fuel =>
      if i <? cnt then
        p ← aget l i;
        if lmb_addrs_overlap b sz (base p) (size p) then Some i
        else overlaps_loop fuel l cnt (i + 1) b sz
      else Some (-1)
  end.

Definition lmb_overlaps_region (rgn : lmb_region) (b sz : Z) : option Z :=
  overlaps_loop (S (length (region rgn))) (region rgn) (cnt rgn) 0 b sz.

Definition lmb_align_down (addr sz : Z) : Z := addr .& u64 (Z.lnot (u64 (sz - 1))).

Definition lmb_align_up (addr sz : Z) : Z :=
  u64 (addr + u64 (sz - 1)) .& u64 (Z.lnot (u64 (sz - 1))).

(** The [while (base && lmbbase <= base)] loop.  [Some (Some r)] is a
    [return] out of the function, [Some None] leaves the loop. *)
Fixpoint alloc_loop (fuel : nat) (res : lmb_region) (lmbbase b sz align : Z)
    : option (option (Z * lmb_region)) :=
  match fuel with
  | O => None
  | S fuel =>
      if negb (b =? 0) && (lmbbase <=? b) then
        j ← lmb_overlaps_region res b sz;
        if j <? 0 then
          '(r, res') ← lmb_add_region res b (lmb_align_up sz align);
          if r <? 0 then Some (Some (0, res')) else Some (Some (b, res'))
        else
          p ← aget (region res) j;
          let res_base := base p in
          if res_base <? sz then Some None
          else alloc_loop fuel res lmbbase
                 (lmb_align_down (u64 (res_base - sz)) align) sz align
      else Some None
  end.

(** [for (i = lmb->memory.cnt-1; i >= 0; i--)], [n] being [i + 1]. *)
Fixpoint alloc_banks (n : nat) (l : lmb) (sz align max_addr : Z)
    : option (Z * lmb) :=
  match n with
  | O => Some (0, l)
  | S i =>
      p ← aget (region (memory l)) (Z.of_nat i);
      let lmbbase := base p in
      let lmbsize := size p in
      if lmbsize <? sz then alloc_banks i l sz align max_addr
      else
        let start :=
          if max_addr =? LMB_ALLOC_ANYWHERE then
            Some (lmb_align_down (u64 (u64 (lmbbase + lmbsize) - sz)) align)
          else if lmbbase <? max_addr then
            let b := u64 (lmbbase + lmbsize) in
            let b := if b <? lmbbase then u64 (-1) else b in
            let b := Z.min b max_addr in
            Some (lmb_align_down (u64 (b - sz)) align)
          else None in
        match start with
        | None => alloc_banks i l sz align max_addr
        | Some b =>
            r ← alloc_loop (S (S (length (region (reserved l))))) (reserved l)
                  lmbbase b sz align;
            match r with
            | Some (a, res) => Some (a, Lmb (memory l) res)
            | None => alloc_banks i l sz align max_addr
            end
        end
  end.

Definition lmb_alloc_base (l : lmb) (sz align max_addr : Z) : option (Z * lmb) :=
  alloc_banks (Z.to_nat (cnt (memory l))) l sz align max_addr.

Definition lmb_alloc (l : lmb) (sz align : Z) : option (Z * lmb) :=
  lmb_alloc_base l sz align LMB_ALLOC_ANYWHERE.

Fixpoint is_reserved_loop (fuel : nat) (l : list lmb_property) (cnt i addr : Z)
    : option Z :=
  match fuel with
  | O => None
  | S fuel =>
      if i <? cnt then
        p ← aget l i;
        let upper := u64 (u64 (base p + size p) - 1) in
        if (base p <=? addr) && (addr <=? upper) then Some 1
        else is_reserved_loop fuel l cnt (i + 1) addr
      else Some 0
  end.

Definition lmb_is_reserved (l : lmb) (addr : Z) : option Z :=
  is_reserved_loop (S (length (region (reserved l)))) (region (reserved l))
    (cnt (reserved l)) 0 addr.

Definition lmb_size_bytes (rgn : lmb_region) (region_nr : Z) : option Z :=
  p ← aget (region rgn) region_nr; Some (size p).

(** ** The abstract table: a sorted list of disjoint blocks *)

Definition prop_end (p : lmb_property) : Z := base p + size p.

Definition prop_ok (p : lmb_property) : Prop :=
  0 <= base p /\ 0 < size p /\ prop_end p < 2 ^ 64.

Definition before (p q : lmb_property) : Prop := prop_end p <= base q.

Definition disjoint_blocks (p q : lmb_property) : Prop := before p q \/ before q p.

Definition blocks_ok (l : list lmb_property) : Prop :=
  Forall prop_ok l /\ StronglySorted before l.

(** The addresses of one block, and those of a table. *)
Definition brange (p : lmb_property) : propset Z := {[ a | base p <= a < prop_end p ]}.

Definition cover (l : list lmb_property) : propset Z :=
  {[ a | ∃ p, p ∈ l /\ a ∈ brange p ]}.

(** [rep rgn l]: the array [rgn] represents the table [l].  An empty table is
    the one block of size zero that [lmb_init] leaves. *)
Inductive rep (rgn : lmb_region) : list lmb_property -> Prop :=
| rep_empty d :
    region rgn = Prop_ 0 0 :: d -> length d = 8%nat -> cnt rgn = 1 -> rep rgn []
| rep_live l d :
    region rgn = l ++ d -> length (l ++ d) = 9%nat ->
    l <> [] -> (length l <= 8)%nat -> cnt rgn = Z.of_nat (length l) ->
    blocks_ok l -> rep rgn l.

#[export] Instance prop_ok_dec p : Decision (prop_ok p).
Proof. unfold prop_ok. apply _. Defined.
#[export] Instance before_dec p q : Decision (before p q).
Proof. unfold before. apply _. Defined.
#[export] Instance blocks_ok_dec l : Decision (blocks_ok l).
Proof. unfold blocks_ok. apply _. Defined.

#[export] Instance brange_dec a p : Decision (a ∈ brange p).
Proof. change (Decision (base p <= a < prop_end p)). apply _. Defined.

(** *** Facts about tables *)

Lemma elem_of_brange a p : a ∈ brange p <-> base p <= a < prop_end p.
Proof. done. Qed.

Lemma cover_nil : cover [] ≡ ∅.
Proof. intros a. split; [intros (p & Hp & _); by apply elem_of_nil in Hp | done]. Qed.

Lemma cover_cons p l : cover (p :: l) ≡ brange p ∪ cover l.
Proof.
  intros a. unfold cover. rewrite elem_of_union, !elem_of_PropSet.
  setoid_rewrite elem_of_cons. naive_solver.
Qed.

Lemma cover_app l1 l2 : cover (l1 ++ l2) ≡ cover l1 ∪ cover l2.
Proof.
  intros a. unfold cover. rewrite elem_of_union, !elem_of_PropSet.
  setoid_rewrite elem_of_app. naive_solver.
Qed.

(** Membership in the cover of a concatenation, as a proposition. *)
Ltac cover_simpl :=
  repeat (rewrite ?cover_app, ?cover_cons, ?cover_nil);
  intros ?; rewrite ?elem_of_union, ?elem_of_difference, ?elem_of_brange;
  unfold prop_end in *; cbn [base size] in *.

Lemma blocks_ok_nil : blocks_ok [].
Proof. split; constructor. Qed.

Lemma blocks_ok_cons p l :
  blocks_ok (p :: l) <-> prop_ok p /\ blocks_ok l /\ ∀ q, q ∈ l -> before p q.
Proof.
  unfold blocks_ok. rewrite Forall_cons, StronglySorted_cons, (Forall_forall (before p)).
  naive_solver.
Qed.

Lemma blocks_ok_app l1 l2 :
  blocks_ok (l1 ++ l2) <->
  blocks_ok l1 /\ blocks_ok l2 /\ ∀ p q, p ∈ l1 -> q ∈ l2 -> before p q.
Proof. unfold blocks_ok. rewrite Forall_app, StronglySorted_app. naive_solver. Qed.

Lemma blocks_ok_elem l p : blocks_ok l -> p ∈ l -> prop_ok p.
Proof. intros [H _]. rewrite Forall_forall in H. apply H. Qed.

(** Replacing one block by another that fits in the same gap. *)
Lemma blocks_ok_replace l1 p p' l2 :
  blocks_ok (l1 ++ p :: l2) -> prop_ok p' ->
  (∀ q, q ∈ l1 -> before q p') -> (∀ q, q ∈ l2 -> before p' q) ->
  blocks_ok (l1 ++ p' :: l2).
Proof.
  rewrite !blocks_ok_app, !blocks_ok_cons. intros (H1 & (Hp & H2 & _) & H3) Hok Hl Hr.
  split_and!; try done.
  intros q r Hq Hin. apply elem_of_cons in Hin as [->|Hin]; [by auto|].
  apply H3; [done|]. by apply elem_of_cons; right.
Qed.

(** Inserting a block between the two halves of a table. *)
Lemma blocks_ok_insert l1 p l2 :
  blocks_ok (l1 ++ l2) -> prop_ok p ->
  (∀ q, q ∈ l1 -> before q p) -> (∀ q, q ∈ l2 -> before p q) ->
  blocks_ok (l1 ++ p :: l2).
Proof.
  rewrite !blocks_ok_app, !blocks_ok_cons. intros (H1 & H2 & H3) Hok Hl Hr.
  split_and!; try done.
  intros q r Hq Hin. apply elem_of_cons in Hin as [->|Hin]; auto.
Qed.

Lemma blocks_ok_delete l1 p l2 : blocks_ok (l1 ++ p :: l2) -> blocks_ok (l1 ++ l2).
Proof. rewrite !blocks_ok_app, blocks_ok_cons. set_solver. Qed.

(** The neighbours of a block of a sorted table. *)
Lemma blocks_ok_mid l1 p l2 :
  blocks_ok (l1 ++ p :: l2) ->
  prop_ok p /\ (∀ q, q ∈ l1 -> prop_ok q /\ before q p)
  /\ (∀ q, q ∈ l2 -> prop_ok q /\ before p q).
Proof.
  intros H. pose proof (blocks_ok_elem _ p H) as Hp.
  assert (∀ q, q ∈ l1 ++ p :: l2 -> prop_ok q) as Hall by (intros; by eapply blocks_ok_elem).
  rewrite blocks_ok_app, blocks_ok_cons in H. set_solver.
Qed.


(** *** What the loops do to a split array *)

Lemma remove_loop_spec l1 x l2 d fuel :
  (length l2 < fuel)%nat ->
  ∃ y, remove_loop fuel (l1 ++ x :: l2 ++ d) (Z.of_nat (length l1))
         (Z.of_nat (length l1 + length l2))
       = Some (l1 ++ l2 ++ y :: d).
Proof.
  revert l1 x fuel. induction l2 as [|q l2 IH]; intros l1 x [|fuel] Hf; cbn in Hf; try lia.
  - exists x. cbn. destruct (Z.ltb_spec (Z.of_nat (length l1)) (Z.of_nat (length l1 + 0))); [lia|done].
  - cbn [remove_loop app length].
    destruct (Z.ltb_spec (Z.of_nat (length l1)) (Z.of_nat (length l1 + S (length l2)))); [|lia].
    rewrite aget_mid1. cbn [mbind option_bind]. rewrite aset_mid. cbn [mbind option_bind].
    destruct (IH (l1 ++ [q]) q fuel) as [y Hy]; [lia|]. exists y.
    rewrite <-!app_assoc in Hy. cbn in Hy. rewrite <-Hy. f_equal; rewrite length_app; cbn; lia.
Qed.

Lemma lmb_remove_region_spec rgn l1 x l2 d :
  region rgn = l1 ++ x :: l2 ++ d ->
  cnt rgn = Z.of_nat (length l1 + S (length l2)) ->
  (length l1 + S (length l2) <= 8)%nat ->
  ∃ y, lmb_remove_region rgn (Z.of_nat (length l1)) =
       Some (Rgn (Z.of_nat (length l1 + length l2)) (rgn_size rgn) (l1 ++ l2 ++ y :: d)).
Proof.
  intros Hr Hc Hle. unfold lmb_remove_region.
  rewrite (u64_small (cnt rgn - 1)) by lia.
  replace (cnt rgn - 1) with (Z.of_nat (length l1 + length l2)) by lia. rewrite Hr.
  destruct (remove_loop_spec l1 x l2 d (S (length (l1 ++ x :: l2 ++ d)))) as [y Hy].
  { rewrite !length_app. cbn. rewrite length_app. lia. }
  exists y. by rewrite Hy.
Qed.

(** The block [n] touches [p] from below, from above, or not at all. *)
Definition touches_below (n p : lmb_property) : Prop := prop_end n = base p.
Definition touches_above (n p : lmb_property) : Prop := prop_end p = base n.

Lemma lmb_addrs_adjacent_spec n p :
  prop_ok n -> prop_ok p -> disjoint_blocks n p ->
  let a := lmb_addrs_adjacent (base n) (size n) (base p) (size p) in
  (a = 1 /\ touches_below n p) \/
  (a = -1 /\ touches_above n p /\ ~ touches_below n p) \/
  (a = 0 /\ ~ touches_below n p /\ ~ touches_above n p).
Proof.
  unfold prop_ok, prop_end, disjoint_blocks, before, lmb_addrs_adjacent,
    touches_below, touches_above, prop_end.
  intros Hn Hp Hd. autorewrite with cword.
  destruct (Z.eqb_spec (base p) (base n + size n)); [lia|].
  destruct (Z.eqb_spec (base n) (base p + size p)); lia.
Qed.

(** Linear arithmetic on the bounds of blocks. *)
Ltac block_lia :=
  unfold touches_below, touches_above, disjoint_blocks, before, prop_ok, prop_end in *;
  cbn [base size] in *; lia.

(** How the first loop of [lmb_add_region] is left on a table [l1 ++ l2] whose
    part [l1] has been passed. *)
Inductive coalesce_spec (n : lmb_property) (l d : list lmb_property)
    : coalesce_result -> Prop :=
| cs_below l1 p l2 :
    l = l1 ++ p :: l2 -> touches_below n p ->
    (∀ q, q ∈ l1 -> ~ touches_above n q) ->
    coalesce_spec n l d
      (Coalesced (l1 ++ Prop_ (base n) (size p + size n) :: l2 ++ d) (Z.of_nat (length l1)))
| cs_above l1 p l2 :
    l = l1 ++ p :: l2 -> touches_above n p ->
    coalesce_spec n l d
      (Coalesced (l1 ++ Prop_ (base p) (size p + size n) :: l2 ++ d) (Z.of_nat (length l1)))
| cs_none :
    (∀ q, q ∈ l -> ~ touches_below n q /\ ~ touches_above n q) ->
    coalesce_spec n l d (Exhausted (Z.of_nat (length l))).

Lemma coalesce_loop_spec n l1 l2 d fuel :
  prop_ok n -> Forall prop_ok (l1 ++ l2) ->
  (∀ q, q ∈ l1 ++ l2 -> disjoint_blocks n q) ->
  (∀ q, q ∈ l1 -> ~ touches_below n q /\ ~ touches_above n q) ->
  (length l2 < fuel)%nat ->
  ∃ r, coalesce_loop fuel (l1 ++ l2 ++ d) (Z.of_nat (length (l1 ++ l2)))
         (Z.of_nat (length l1)) (base n) (size n) = Some r
       /\ coalesce_spec n (l1 ++ l2) d r.
Proof.
  intros Hn. revert l1 fuel.
  induction l2 as [|p l2 IH]; intros l1 [|fuel] Hok Hdis Hno Hf; cbn in Hf; try lia.
  - cbn [coalesce_loop]. rewrite app_nil_r in *.
    destruct (Z.ltb_spec (Z.of_nat (length l1)) (Z.of_nat (length l1))); [lia|].
    eexists. split; [done|]. by constructor.
  - assert (prop_ok p /\ disjoint_blocks n p) as [Hp Hd].
    { rewrite Forall_app, Forall_cons in Hok. split; [tauto|]. apply Hdis. set_solver. }
    cbn [coalesce_loop app]. rewrite aget_mid. cbn [mbind option_bind].
    destruct (Z.ltb_spec (Z.of_nat (length l1)) (Z.of_nat (length (l1 ++ p :: l2))));
      [|rewrite length_app in *; cbn in *; lia].
    assert ((base p =? base n) && (size p =? size n) = false) as ->.
    { block_lia. }
    destruct (lmb_addrs_adjacent_spec n p Hn Hp Hd) as [[-> Ht]|[(-> & Ht & Ht')|(-> & Ht & Ht')]];
      cbn [Z.ltb Z.compare]; rewrite ?aset_mid; cbn [mbind option_bind].
    + eexists. split; [done|].
      unfold prop_ok, touches_below, prop_end in *. autorewrite with cword.
      replace (base p - size n) with (base n) by lia. econstructor; [done|done|]. naive_solver.
    + eexists. split; [done|].
      unfold prop_ok, touches_above, disjoint_blocks, before, prop_end in *.
      autorewrite with cword. by econstructor.
    + destruct (IH (l1 ++ [p]) fuel) as (r & Hr & Hs); rewrite <-?app_assoc; try done.
      { intros q [Hq|Hq]%elem_of_app; [by auto|]. by apply list_elem_of_singleton in Hq as ->. }
      { lia. }
      exists r. rewrite <-!app_assoc in Hr, Hs. cbn [app] in Hr, Hs. split; [|done].
      rewrite <-Hr. f_equal; rewrite !length_app; cbn; lia.
Qed.

(** The insertion loop keeps the blocks below [n] and shifts those above. *)
Lemma insert_loop_spec n la lb x r :
  (∀ q, q ∈ la -> ~ base n < base q) -> (∀ q, q ∈ lb -> base n < base q) ->
  ∃ y, insert_loop (length (la ++ lb)) ((la ++ lb) ++ x :: r) (base n) (size n)
       = Some (match la with [] => y :: lb ++ r | _ => la ++ n :: lb ++ r end)
       /\ (lb <> [] -> ∃ lb', lb = y :: lb').
Proof.
  intros Ha. revert x r.
  induction lb as [|p lb IH] using rev_ind; intros x r Hb.
  - rewrite app_nil_r. destruct la as [|a la _] using rev_ind; [by exists x|].
    exists x. rewrite length_app, Nat.add_comm. cbn [length Nat.add insert_loop].
    rewrite <-app_assoc. cbn [app]. rewrite aget_mid. cbn [mbind option_bind].
    destruct (Z.ltb_spec (base n) (base a)); [exfalso; eapply (Ha a); [set_solver|done]|].
    rewrite (app_cons_assoc la a).
    replace (Z.of_nat (S (length la))) with (Z.of_nat (length (la ++ [a])))
      by (rewrite length_app; cbn; lia).
    rewrite aset_mid. destruct n as [nb ns]. cbn. split; [|done].
    by destruct (la ++ [a]) eqn:E; [by destruct la|].
  - assert (base n < base p) as Hp by (apply Hb; set_solver).
    rewrite (app_assoc la lb [p]), length_app, Nat.add_comm.
    cbn [length Nat.add insert_loop]. rewrite <-(app_assoc (la ++ lb) [p]). cbn [app].
    rewrite aget_mid. cbn [mbind option_bind].
    destruct (Z.ltb_spec (base n) (base p)); [|lia].
    rewrite (app_cons_assoc (la ++ lb) p).
    replace (Z.of_nat (S (length (la ++ lb)))) with (Z.of_nat (length ((la ++ lb) ++ [p])))
      by (rewrite length_app; cbn; lia).
    rewrite aset_mid. cbn [mbind option_bind]. rewrite <-(app_assoc (la ++ lb) [p]). cbn [app].
    destruct (IH p (p :: r)) as (y & Hy & Hy').
    { intros q Hq. apply Hb. set_solver. }
    destruct lb as [|b lb].
    + exists p. split; [|by eexists].
      cbn [app] in *. rewrite Hy. destruct la; [|done].
      cbn in Hy. by simplify_eq.
    + exists y. split; [|intros _; destruct Hy' as [lb' ->]; [done|]; by eexists].
      rewrite Hy. destruct la; by rewrite <-app_assoc.
Qed.

Lemma coalesce_next_spec rgn l1 p l2 d c :
  region rgn = l1 ++ p :: l2 ++ d -> length (region rgn) = 9%nat ->
  cnt rgn = Z.of_nat (length (l1 ++ p :: l2)) -> (length (l1 ++ p :: l2) <= 8)%nat ->
  blocks_ok (l1 ++ p :: l2) ->
  ∃ rgn' l' c', coalesce_next rgn (Z.of_nat (length l1)) c = Some (rgn', c')
    /\ c <= c' /\ rep rgn' l' /\ cover l' ≡ cover (l1 ++ p :: l2).
Proof.
  intros Hr Hlen Hc Hle Hok. unfold coalesce_next.
  assert (rep rgn (l1 ++ p :: l2)) as Hrep.
  { apply (rep_live _ _ d); rewrite <-?app_assoc; try done; [by rewrite <-Hlen, Hr|by destruct l1]. }
  rewrite length_app in Hc, Hle. cbn [length] in Hc, Hle. rewrite (u64_small (cnt rgn - 1)) by lia.
  destruct (Z.ltb_spec (Z.of_nat (length l1)) (cnt rgn - 1)) as [Hlt|Hge].
  2:{ exists rgn, (l1 ++ p :: l2), c. split; [done|]. split_and!; [lia|done|done]. }
  destruct l2 as [|q l2]; [cbn in *; lia|].
  unfold lmb_regions_adjacent. rewrite Hr. cbn [app]. rewrite aget_mid, aget_mid1.
  cbn [mbind option_bind].
  destruct (blocks_ok_mid _ _ _ Hok) as (Hp & Hl & Hq). destruct (Hq q) as [Hqok Hpq]; [set_solver|].
  destruct (lmb_addrs_adjacent_spec p q Hp Hqok (or_introl Hpq))
    as [[-> Ht]|[(-> & Ht & _)|(-> & _ & _)]]; cbn [Z.eqb].
  3:{ exists rgn, (l1 ++ p :: q :: l2), c. split; [done|]. split_and!; [lia|done|done]. }
  2:{ block_lia. }
  unfold lmb_coalesce_regions. rewrite Hr. cbn [app]. rewrite aget_mid, aget_mid1.
  cbn [mbind option_bind]. rewrite aset_mid. cbn [mbind option_bind].
  set (p' := Prop_ (base p) (u64 (size p + size q))).
  assert (size p' = size p + size q) as Hp'.
  { unfold p', touches_below, prop_ok, prop_end in *. cbn. by autorewrite with cword. }
  assert (base p' = base p) as Hb' by done. clearbody p'.
  destruct (lmb_remove_region_spec (set_region rgn (l1 ++ p' :: q :: l2 ++ d)) (l1 ++ [p']) q l2 d)
    as [y Hy].
  { cbn. by rewrite <-app_assoc. }
  { cbn. rewrite length_app. cbn in *. lia. }
  { rewrite length_app. cbn in *. lia. }
  replace (Z.of_nat (length l1) + 1) with (Z.of_nat (length (l1 ++ [p'])))
    by (rewrite length_app; cbn; lia).
  rewrite Hy. cbn [mbind option_bind]. rewrite <-app_assoc. cbn [app].
  eexists _, (l1 ++ p' :: l2), _. split; [done|]. split_and!; [lia| |].
  - apply (rep_live _ _ (y :: d)); cbn [region cnt]; rewrite <-?app_assoc; cbn [app];
      rewrite ?length_app in *; cbn in *; rewrite ?length_app in *; cbn in *.
    + done.
    + rewrite Hr, length_app in Hlen. cbn in Hlen. rewrite length_app in Hlen. cbn. lia.
    + by destruct l1.
    + lia.
    + lia.
    + apply (blocks_ok_replace _ p); [|block_lia|..].
      * rewrite (app_cons_assoc l1 p) in Hok.
        apply blocks_ok_delete in Hok. by rewrite <-app_assoc in Hok.
      * intros r Hin. unfold before. rewrite Hb'. by apply Hl.
      * intros r Hin. rewrite (app_cons_assoc l1 p) in Hok.
        apply blocks_ok_mid in Hok as (_ & _ & Hok). specialize (Hok r Hin).
        block_lia.
  - assert (brange p' ≡ brange p ∪ brange q) as Hb.
    { unfold touches_below, prop_ok, prop_end in *. intros a.
      rewrite elem_of_union, !elem_of_brange. unfold prop_end. rewrite Hp', Hb'. lia. }
    rewrite !cover_app, !cover_cons, Hb. set_solver.
Qed.

(** The block [p] has been widened to [p'], which is [p] and [n] together. *)
Lemma coalesced_spec rgn l1 p l2 d n p' :
  region rgn = (l1 ++ p :: l2) ++ d -> length ((l1 ++ p :: l2) ++ d) = 9%nat ->
  cnt rgn = Z.of_nat (length (l1 ++ p :: l2)) -> (length (l1 ++ p :: l2) <= 8)%nat ->
  blocks_ok (l1 ++ p' :: l2) -> (∀ a, a ∈ brange p' <-> a ∈ brange p \/ a ∈ brange n) ->
  ∃ rgn' l' c,
    coalesce_next (set_region rgn (l1 ++ p' :: l2 ++ d)) (Z.of_nat (length l1)) 1 = Some (rgn', c)
    /\ 1 <= c /\ rep rgn' l' /\ cover l' ≡ cover (l1 ++ p :: l2) ∪ brange n.
Proof.
  intros Hr Hlen Hc Hle Hok Hb.
  destruct (coalesce_next_spec (set_region rgn (l1 ++ p' :: l2 ++ d)) l1 p' l2 d 1)
    as (rgn' & l' & c & Hnext & Hcle & Hrep' & Hcov); cbn [region cnt set_region]; try done.
  { length_lia. }
  { length_lia. }
  { length_lia. }
  exists rgn', l', c. split_and!; try done. rewrite Hcov, !cover_app, !cover_cons.
  intros a. rewrite !elem_of_union, Hb. tauto.
Qed.

(** The block [n] separates a sorted table it is disjoint from. *)
Lemma split_around l n :
  blocks_ok l -> prop_ok n -> (∀ q, q ∈ l -> disjoint_blocks n q) ->
  ∃ la lb, l = la ++ lb /\ (∀ q, q ∈ la -> before q n) /\ (∀ q, q ∈ lb -> before n q).
Proof.
  intros Hok Hn Hd. induction l as [|p l IH]; [by exists [], []; split_and!; [done|..]; intros ? []%elem_of_nil|].
  apply blocks_ok_cons in Hok as (Hp & Hok & Hlt).
  destruct (Hd p) as [Hnp|Hpn]; [set_solver| |].
  - exists [], (p :: l). split; [done|]. split; [by intros ? []%elem_of_nil|].
    intros q [->|Hq]%elem_of_cons; [done|]. specialize (Hlt q Hq).
    block_lia.
  - destruct IH as (la & lb & -> & Ha & Hb); [done|set_solver|].
    exists (p :: la), lb. split; [done|]. set_solver.
Qed.

Lemma insert_region_spec rgn l d n :
  region rgn = l ++ d -> length (l ++ d) = 9%nat -> l <> [] -> (length l < 8)%nat ->
  blocks_ok l -> prop_ok n -> (∀ q, q ∈ l -> disjoint_blocks n q) ->
  cnt rgn = Z.of_nat (length l) ->
  ∃ la lb, l = la ++ lb /\
    (l' ← insert_loop (Z.to_nat (cnt rgn)) (region rgn) (base n) (size n);
     p ← aget l' 0;
     l'' ← (if base n <? base p then aset l' 0 (Prop_ (base n) (size n)) else Some l');
     Some (0, Rgn (u64 (cnt rgn + 1)) (rgn_size rgn) l''))
    = Some (0, Rgn (Z.of_nat (length (la ++ n :: lb))) (rgn_size rgn) (la ++ n :: lb ++ tail d))
    /\ blocks_ok (la ++ n :: lb).
Proof.
  intros Hr Hlen Hne Hlt Hok Hn Hd Hc.
  destruct (split_around l n Hok Hn Hd) as (la & lb & Hl & Ha & Hb).
  assert (blocks_ok (la ++ n :: lb)) as Hok' by (apply blocks_ok_insert; by rewrite <-?Hl).
  exists la, lb. split; [done|]. split; [|done].
  destruct d as [|x d]; [rewrite length_app in Hlen; cbn in Hlen; lia|]. cbn [tail].
  rewrite Hc, Nat2Z.id, Hr, Hl.
  destruct (insert_loop_spec n la lb x d) as (y & Hy & Hy').
  { intros q Hq. pose proof (Ha q Hq). destruct (blocks_ok_mid _ _ _ Hok') as (_ & Hall & _).
    specialize (Hall q Hq). block_lia. }
  { intros q Hq. pose proof (Hb q Hq). block_lia. }
  rewrite Hy. cbn [mbind option_bind].
  assert (u64 (Z.of_nat (length (la ++ lb)) + 1) = Z.of_nat (length (la ++ n :: lb))) as ->.
  { rewrite u64_small; rewrite <-?Hl, ?Hl, ?length_app in *; cbn; rewrite ?length_app in *; lia. }
  destruct la as [|a la]; cbn [app] in *.
  - destruct Hy' as [lb' Hlb]; [by rewrite <-Hl|].
    rewrite aget_0. cbn [mbind option_bind].
    destruct (Z.ltb_spec (base n) (base y)) as [_|H].
    + destruct n. done.
    + specialize (Hb y). rewrite Hlb in Hb. unfold before, prop_ok, prop_end in *.
      specialize (Hb ltac:(set_solver)). lia.
  - rewrite aget_0. cbn [mbind option_bind].
    destruct (Z.ltb_spec (base n) (base a)) as [H|_]; [|done].
    specialize (Ha a ltac:(set_solver)). destruct (blocks_ok_mid [] a (la ++ n :: lb) Hok') as (Hp & _ & _).
    block_lia.
Qed.

(** Adding a block that is disjoint from the table: the table now covers the
    block too, or it is full and unchanged. *)
Lemma lmb_add_region_spec rgn l n :
  rep rgn l -> prop_ok n -> (∀ q, q ∈ l -> disjoint_blocks n q) ->
  ∃ r rgn' l', lmb_add_region rgn (base n) (size n) = Some (r, rgn') /\ rep rgn' l' /\
    ((0 <= r /\ cover l' ≡ cover l ∪ brange n) \/
     (r = -1 /\ rgn' = rgn /\ l' = l /\ length l = 8%nat)).
Proof.
  intros Hrep Hn Hd. unfold lmb_add_region.
  destruct Hrep as [d Hr Hlen Hc|l d Hr Hlen Hne Hle Hc Hok].
  { rewrite Hr, Hc, aget_0. cbn [mbind option_bind size]. rewrite aset_0. cbn.
    eexists 0, _, [n]. split; [done|]. split.
    - apply (rep_live _ _ d); cbn; [by destruct n|lia|done|lia|done|].
      apply blocks_ok_cons. split; [done|]. split; [apply blocks_ok_nil|by intros ? []%elem_of_nil].
    - left. split; [lia|]. rewrite cover_cons, cover_nil. set_solver. }
  assert (∃ p0, aget (region rgn) 0 = Some p0 /\ 0 < size p0) as (p0 & -> & Hp0).
  { destruct l as [|p0 l]; [done|]. exists p0. rewrite Hr. split; [done|].
    apply blocks_ok_cons in Hok as ((_ & ? & _) & _). done. }
  cbn [mbind option_bind].
  assert ((cnt rgn =? 1) && (size p0 =? 0) = false) as -> by lia.
  destruct (coalesce_loop_spec n [] l d (S (length (region rgn)))) as (r & Hloop & Hcs).
  { done. } { by destruct Hok. } { done. } { by intros ? []%elem_of_nil. }
  { rewrite Hr, length_app. cbn. lia. }
  cbn [app length] in Hloop, Hcs. rewrite Hr, Hc.
  change (Z.of_nat 0) with 0 in Hloop. rewrite Hr in Hloop. rewrite Hloop. cbn [mbind option_bind].
  destruct Hcs as [l1 p l2 -> Ht Hno|l1 p l2 -> Ht|Hno].
  - destruct (blocks_ok_mid _ _ _ Hok) as (Hp & Hl1 & Hl2).
    destruct (coalesced_spec rgn l1 p l2 d n (Prop_ (base n) (size p + size n)))
      as (rgn' & l' & c & Hnext & Hc1 & Hrep' & Hcov); try done.
    { apply (blocks_ok_replace _ p); [done|..].
      - block_lia.
      - intros q Hq. destruct (Hl1 q Hq) as [Hqok Hqp]. destruct (Hd q) as [H|H]; [set_solver| |done].
        block_lia.
      - intros q Hq. destruct (Hl2 q Hq) as [_ Hqp].
        block_lia. }
    { intros a. rewrite !elem_of_brange. block_lia. }
    rewrite Hnext. cbn [mbind option_bind]. destruct (Z.eqb_spec c 0); [lia|].
    exists c, rgn', l'. split; [done|]. split; [done|]. left. split; [lia|done].
  - destruct (blocks_ok_mid _ _ _ Hok) as (Hp & Hl1 & Hl2).
    destruct (coalesced_spec rgn l1 p l2 d n (Prop_ (base p) (size p + size n)))
      as (rgn' & l' & c & Hnext & Hc1 & Hrep' & Hcov); try done.
    { apply (blocks_ok_replace _ p); [done|..].
      - block_lia.
      - intros q Hq. by destruct (Hl1 q Hq) as [_ Hqp].
      - intros q Hq. destruct (Hl2 q Hq) as [Hqok Hqp]. destruct (Hd q) as [H|H]; [set_solver| |];
          block_lia. }
    { intros a. rewrite !elem_of_brange. block_lia. }
    rewrite Hnext. cbn [mbind option_bind]. destruct (Z.eqb_spec c 0); [lia|].
    exists c, rgn', l'. split; [done|]. split; [done|]. left. split; [lia|done].
  - unfold coalesce_next. rewrite Hc, u64_small by (destruct l; cbn in *; [done|lia]).
    destruct (Z.ltb_spec (Z.of_nat (length l)) (Z.of_nat (length l) - 1)); [lia|].
    cbn. destruct (Z.leb_spec MAX_LMB_REGIONS (cnt rgn)) as [Hfull|Hroom]; unfold MAX_LMB_REGIONS in *.
    + exists (-1), rgn, l. split; [done|]. split; [by apply (rep_live _ _ d)|].
      right. split_and!; [done..|]. lia.
    + destruct (insert_region_spec rgn l d n) as (la & lb & -> & Hins & Hok'); try done; [lia|].
      exists 0, (Rgn (Z.of_nat (length (la ++ n :: lb))) (rgn_size rgn) (la ++ n :: lb ++ tail d)),
        (la ++ n :: lb).
      rewrite <-Hins. split; [done|]. split.
      * apply (rep_live _ _ (tail d)); cbn [region cnt].
        -- by rewrite <-app_assoc.
        -- destruct d; rewrite !length_app in *; cbn in *; lia.
        -- by destruct la.
        -- rewrite !length_app in *. cbn. lia.
        -- done.
        -- done.
      * left. split; [lia|]. rewrite !cover_app, cover_cons. set_solver.
Qed.

(** *** Freeing *)

Definition contains (p n : lmb_property) : Prop :=
  base p <= base n /\ prop_end n <= prop_end p.

Lemma free_loop_hit l1 p l2 d n fuel :
  blocks_ok (l1 ++ p :: l2) -> prop_ok n -> contains p n -> (length l1 < fuel)%nat ->
  ∀ lp ls, l1 = lp ++ ls ->
  free_loop (fuel - length lp) (l1 ++ p :: l2 ++ d) (Z.of_nat (length (l1 ++ p :: l2)))
    (Z.of_nat (length lp)) (base n) (prop_end n)
  = Some (Some (Z.of_nat (length l1), base p, prop_end p)).
Proof.
  intros Hok Hn Hc Hf lp ls. destruct (blocks_ok_mid _ _ _ Hok) as (Hp & Hl & _).
  revert lp. induction ls as [|q ls IH]; intros lp Hl1.
  - rewrite app_nil_r in Hl1. subst lp.
    destruct (fuel - length l1)%nat as [|f] eqn:Ef; [lia|]. cbn [free_loop].
    destruct (Z.ltb_spec (Z.of_nat (length l1)) (Z.of_nat (length (l1 ++ p :: l2)))); [|length_lia].
    rewrite aget_mid. cbn [mbind option_bind].
    assert (u64 (base p + size p) = prop_end p) as ->.
    { apply u64_small. unfold prop_ok, prop_end in *. lia. }
    unfold contains in Hc.
    destruct (Z.leb_spec (base p) (base n)), (Z.leb_spec (prop_end n) (prop_end p)); try lia. done.
  - assert (prop_ok q /\ before q p) as [Hq Hqp] by (apply Hl; subst; set_solver).
    assert (length lp < length l1)%nat by (subst; length_lia).
    destruct (fuel - length lp)%nat as [|f] eqn:Ef; [lia|]. cbn [free_loop].
    destruct (Z.ltb_spec (Z.of_nat (length lp)) (Z.of_nat (length (l1 ++ p :: l2)))); [|length_lia].
    rewrite Hl1 at 1. rewrite <-app_assoc. cbn [app]. rewrite aget_mid. cbn [mbind option_bind].
    assert (u64 (base q + size q) = prop_end q) as ->.
    { apply u64_small. unfold prop_ok, prop_end in *. lia. }
    assert ((base q <=? base n) && (prop_end n <=? prop_end q) = false) as ->.
    { unfold contains in Hc. block_lia. }
    replace f with (fuel - length (lp ++ [q]))%nat by length_lia.
    replace (Z.of_nat (length lp) + 1) with (Z.of_nat (length (lp ++ [q]))) by length_lia.
    apply IH. by rewrite <-app_assoc.
Qed.

(** A table from which a block has been removed; it must not be the last one. *)
Lemma rep_removed rgn l1 p l2 d :
  region rgn = l1 ++ p :: l2 ++ d -> length (region rgn) = 9%nat ->
  cnt rgn = Z.of_nat (length (l1 ++ p :: l2)) -> (length (l1 ++ p :: l2) <= 8)%nat ->
  blocks_ok (l1 ++ p :: l2) -> l1 ++ l2 <> [] ->
  ∃ rgn', lmb_remove_region rgn (Z.of_nat (length l1)) = Some rgn' /\ rep rgn' (l1 ++ l2).
Proof.
  intros Hr Hlen Hc Hle Hok Hne.
  destruct (lmb_remove_region_spec rgn l1 p l2 d) as [y Hy]; [done|length_lia|length_lia|].
  eexists. split; [done|]. rewrite Hr in Hlen.
  apply (rep_live _ _ (y :: d)); cbn [region cnt].
  - by rewrite app_assoc.
  - length_lia.
  - done.
  - length_lia.
  - length_lia.
  - by eapply blocks_ok_delete.
Qed.

(** A table in which one block has been replaced by a part of it. *)
Lemma rep_replaced rgn l1 p p' l2 d :
  region rgn = (l1 ++ p :: l2) ++ d -> length ((l1 ++ p :: l2) ++ d) = 9%nat ->
  cnt rgn = Z.of_nat (length (l1 ++ p :: l2)) -> (length (l1 ++ p :: l2) <= 8)%nat ->
  blocks_ok (l1 ++ p :: l2) -> prop_ok p' -> contains p p' ->
  rep (set_region rgn (l1 ++ p' :: l2 ++ d)) (l1 ++ p' :: l2).
Proof.
  intros Hr Hlen Hc Hle Hok Hp' Hsub. destruct (blocks_ok_mid _ _ _ Hok) as (Hp & Hl1 & Hl2).
  unfold contains in Hsub. apply (rep_live _ _ d); cbn [region cnt set_region].
  - by rewrite <-app_assoc.
  - length_lia.
  - by destruct l1.
  - length_lia.
  - length_lia.
  - apply (blocks_ok_replace _ p); [done|done|..]; intros q Hq.
    + destruct (Hl1 q Hq). block_lia.
    + destruct (Hl2 q Hq). block_lia.
Qed.

(** Outside the block that contains [n], nothing of the table meets [n]. *)
Lemma cover_minus l1 p l2 n X :
  blocks_ok (l1 ++ p :: l2) -> contains p n ->
  (∀ a, a ∈ X <-> a ∈ brange p /\ a ∉ brange n) ->
  cover l1 ∪ (X ∪ cover l2) ≡ cover (l1 ++ p :: l2) ∖ brange n.
Proof.
  intros Hok Hc HX. destruct (blocks_ok_mid _ _ _ Hok) as (Hp & Hl1 & Hl2).
  rewrite cover_app, cover_cons. intros a.
  rewrite elem_of_difference, !elem_of_union, HX.
  assert (a ∈ cover l1 -> a ∉ brange n).
  { intros (q & Hq & Ha) Hn. rewrite elem_of_brange in *. destruct (Hl1 q Hq).
    unfold contains in Hc. block_lia. }
  assert (a ∈ cover l2 -> a ∉ brange n).
  { intros (q & Hq & Ha) Hn. rewrite elem_of_brange in *. destruct (Hl2 q Hq).
    unfold contains in Hc. block_lia. }
  tauto.
Qed.

Lemma free_region_spec rgn l1 p l2 n :
  rep rgn (l1 ++ p :: l2) -> prop_ok n -> contains p n ->
  (l1 ++ l2 <> [] \/ p <> n) -> (length (l1 ++ p :: l2) < 8)%nat ->
  ∃ r rgn' l', free_region rgn (base n) (size n) = Some (r, rgn') /\ 0 <= r /\
    rep rgn' l' /\ cover l' ≡ cover (l1 ++ p :: l2) ∖ brange n.
Proof.
  intros Hrep Hn Hc Hlast Hlt. inversion Hrep as [|l d Hr Hlen Hne Hle Hcnt Hok]; [by destruct l1|].
  subst l. destruct (blocks_ok_mid _ _ _ Hok) as (Hp & Hl1 & Hl2).
  unfold free_region.
  assert (u64 (base n + size n) = prop_end n) as ->
    by (apply u64_small; unfold prop_ok, prop_end in *; lia).
  assert (region rgn = l1 ++ p :: l2 ++ d) as Hr' by (by rewrite Hr, <-app_assoc).
  pose proof (free_loop_hit l1 p l2 d n (S (length (region rgn))) Hok Hn Hc
                ltac:(rewrite Hr; length_lia) [] l1 eq_refl) as Hloop.
  cbn [length Nat.sub] in Hloop. change (Z.of_nat 0) with 0 in Hloop.
  rewrite <-Hr', <-Hcnt in Hloop. rewrite Hloop.
  cbn [mbind option_bind]. rewrite Hr', aget_mid. cbn [mbind option_bind].
  destruct (Z.eqb_spec (base p) (base n)) as [Hb|Hb]; cbn [andb];
    [destruct (Z.eqb_spec (prop_end p) (prop_end n)) as [He|He]; cbn [andb]|].
  - (* the whole block *)
    assert (p = n) as -> by (destruct p, n; unfold prop_end in He; cbn in *; f_equal; lia).
    destruct (rep_removed rgn l1 n l2 d) as (rgn' & -> & Hrep').
    { done. } { by rewrite Hr. } { done. } { lia. } { done. }
    { by destruct Hlast. }
    cbn [mbind option_bind]. eexists 0, rgn', _. split; [done|]. split; [lia|]. split; [done|].
    rewrite <-(cover_minus l1 n l2 n ∅); [|done|done|set_solver].
    rewrite cover_app. set_solver.
  - (* its beginning *)
    rewrite aset_mid. cbn [mbind option_bind].
    eexists 0, _, _. split; [done|]. split; [lia|].
    rewrite u64_small by (unfold contains in Hc; block_lia). split.
    + apply (rep_replaced _ _ p); try done; unfold contains in *; block_lia.
    + rewrite <-(cover_minus l1 p l2 n (brange (Prop_ (prop_end n) (size p - size n)))); try done.
      { by rewrite cover_app, cover_cons. }
      intros a. rewrite !elem_of_brange. unfold contains in *. block_lia.
  - destruct (Z.eqb_spec (prop_end p) (prop_end n)) as [He|He].
    + (* its end *)
      rewrite aset_mid. cbn [mbind option_bind].
      eexists 0, _, _. split; [done|]. split; [lia|].
      rewrite u64_small by (unfold contains in Hc; block_lia). split.
      * apply (rep_replaced _ _ p); try done; unfold contains in *; block_lia.
      * rewrite <-(cover_minus l1 p l2 n (brange (Prop_ (base p) (size p - size n)))); try done.
        { by rewrite cover_app, cover_cons. }
        intros a. rewrite !elem_of_brange. unfold contains in *. block_lia.
    + (* a hole in the middle *)
      rewrite aset_mid. cbn [mbind option_bind].
      rewrite !u64_small by (unfold contains in Hc; block_lia).
      set (lo := Prop_ (base p) (base n - base p)).
      set (hi := Prop_ (prop_end n) (prop_end p - prop_end n)).
      assert (rep (set_region rgn (l1 ++ lo :: l2 ++ d)) (l1 ++ lo :: l2)) as Hlo.
      { apply (rep_replaced _ _ p); try done; unfold contains, lo in *; block_lia. }
      destruct (lmb_add_region_spec _ _ hi Hlo) as (r & rgn' & l' & Hadd & Hrep' & Hres).
      { unfold contains, hi in *. block_lia. }
      { intros q. rewrite elem_of_app, elem_of_cons. intros [Hq|[->|Hq]].
        - destruct (Hl1 q Hq). unfold contains, hi in *. block_lia.
        - unfold contains, hi, lo in *. block_lia.
        - destruct (Hl2 q Hq). unfold contains, hi in *. block_lia. }
      exists r, rgn', l'. split; [done|].
      destruct Hres as [[Hr0 Hcov]|(_ & _ & _ & Hfull)]; [|length_lia].
      split; [done|]. split; [done|].
      rewrite Hcov, <-(cover_minus l1 p l2 n (brange lo ∪ brange hi)); try done.
      { rewrite cover_app, cover_cons. set_solver. }
      intros a. rewrite elem_of_union, !elem_of_brange. unfold contains, lo, hi in *. block_lia.
Qed.

(** *** Overlap tests *)

Lemma lmb_addrs_overlap_spec n p :
  prop_ok n -> prop_ok p ->
  lmb_addrs_overlap (base n) (size n) (base p) (size p) = true <-> ~ disjoint_blocks n p.
Proof.
  intros Hn Hp. unfold lmb_addrs_overlap, prop_ok, disjoint_blocks, before, prop_end in *.
  autorewrite with cword. lia.
Qed.

Inductive overlaps_spec (n : lmb_property) (l : list lmb_property) : Z -> Prop :=
| ov_none : (∀ q, q ∈ l -> disjoint_blocks n q) -> overlaps_spec n l (-1)
| ov_hit l1 p l2 :
    l = l1 ++ p :: l2 -> ~ disjoint_blocks n p -> overlaps_spec n l (Z.of_nat (length l1)).

Lemma overlaps_loop_spec n l1 l2 d fuel :
  prop_ok n -> Forall prop_ok (l1 ++ l2) -> (∀ q, q ∈ l1 -> disjoint_blocks n q) ->
  (length l2 < fuel)%nat ->
  ∃ j, overlaps_loop fuel (l1 ++ l2 ++ d) (Z.of_nat (length (l1 ++ l2)))
         (Z.of_nat (length l1)) (base n) (size n) = Some j
       /\ overlaps_spec n (l1 ++ l2) j.
Proof.
  intros Hn. revert l1 fuel. induction l2 as [|p l2 IH]; intros l1 [|fuel] Hok Hd Hf; cbn in Hf; try lia.
  - cbn [overlaps_loop]. rewrite app_nil_r in *.
    destruct (Z.ltb_spec (Z.of_nat (length l1)) (Z.of_nat (length l1))); [lia|].
    eexists. split; [done|]. by constructor.
  - assert (prop_ok p) as Hp by (rewrite Forall_app, Forall_cons in Hok; tauto).
    cbn [overlaps_loop app]. rewrite aget_mid. cbn [mbind option_bind].
    destruct (Z.ltb_spec (Z.of_nat (length l1)) (Z.of_nat (length (l1 ++ p :: l2)))); [|length_lia].
    destruct (lmb_addrs_overlap _ _ _ _) eqn:Ho.
    + apply lmb_addrs_overlap_spec in Ho; [|done..].
      eexists. split; [done|]. by econstructor.
    + assert (disjoint_blocks n p) as Hdp.
      { destruct (decide (before n p)); [by left|]. destruct (decide (before p n)); [by right|].
        assert (~ disjoint_blocks n p) as Hnd by (unfold disjoint_blocks; tauto).
        apply lmb_addrs_overlap_spec in Hnd; [congruence|done..]. }
      destruct (IH (l1 ++ [p]) fuel) as (j & Hj & Hs).
      { by rewrite <-app_assoc. } { set_solver. } { lia. }
      rewrite <-!app_assoc in *. cbn [app] in *. exists j. split; [|done].
      rewrite <-Hj. f_equal; length_lia.
Qed.

Lemma lmb_overlaps_region_spec rgn l n :
  rep rgn l -> prop_ok n ->
  ∃ j, lmb_overlaps_region rgn (base n) (size n) = Some j /\ overlaps_spec n l j.
Proof.
  intros Hrep Hn. unfold lmb_overlaps_region.
  destruct Hrep as [d Hr Hlen Hc|l d Hr Hlen Hne Hle Hc Hok].
  - exists (-1). split; [|by constructor; intros ? []%elem_of_nil].
    rewrite Hr, Hc. cbn [length overlaps_loop]. rewrite aget_0. cbn [mbind option_bind base size].
    unfold lmb_addrs_overlap. change (u64 (0 + 0)) with 0.
    unfold prop_ok in Hn. destruct (Z.ltb_spec (base n) 0); [lia|]. done.
  - rewrite Hr, Hc. apply (overlaps_loop_spec n [] l d); [done|by destruct Hok| |length_lia].
    by intros ? []%elem_of_nil.
Qed.

(** *** Alignment *)

Lemma u64_lnot_ones k a :
  0 <= k < 64 -> in_word 64 a -> a .& u64 (Z.lnot (2 ^ k - 1)) = a / 2 ^ k * 2 ^ k.
Proof.
  intros Hk Ha.
  replace (2 ^ k - 1) with (Z.ones k) by (rewrite Z.ones_equiv; lia).
  unfold u64, wrap. rewrite <-(Z.land_ones _ 64), (Z.land_comm (Z.lnot _)), Z.land_assoc by lia.
  rewrite (Z.land_ones a 64), (Z.mod_small a) by (lia || done).
  rewrite <-Z.ldiff_land, Z.ldiff_ones_r, Z.shiftr_div_pow2, Z.shiftl_mul_pow2 by lia. done.
Qed.

Lemma lmb_align_down_spec a k :
  0 <= k < 64 -> in_word 64 a -> lmb_align_down a (2 ^ k) = a / 2 ^ k * 2 ^ k.
Proof.
  intros Hk Ha. unfold lmb_align_down. rewrite (u64_small (2 ^ k - 1)).
  - by apply u64_lnot_ones.
  - pose proof (Z.pow_lt_mono_r 2 k 64). lia.
Qed.

Lemma align_down_bounds a k :
  0 <= k -> a / 2 ^ k * 2 ^ k <= a < a / 2 ^ k * 2 ^ k + 2 ^ k.
Proof. intros Hk. pose proof (Z.div_mod a (2 ^ k)). pose proof (Z.mod_pos_bound a (2 ^ k)). lia. Qed.

Lemma lmb_align_up_exact sz k :
  0 <= k < 64 -> 0 <= sz -> sz + (2 ^ k - 1) < 2 ^ 64 -> (2 ^ k | sz) ->
  lmb_align_up sz (2 ^ k) = sz.
Proof.
  intros Hk Hsz Hlt [m Hm]. unfold lmb_align_up.
  assert (0 < 2 ^ k) by lia. rewrite (u64_small (2 ^ k - 1)), u64_small by lia.
  rewrite u64_lnot_ones by (unfold in_word; lia). subst sz.
  rewrite (Z.add_comm (m * _)), Z.div_add by lia. rewrite (Z.div_small (2 ^ k - 1)) by lia. lia.
Qed.

(** *** Every array access of [lmb_add_region] is inside the array

    This needs no hypothesis on the contents of the table. *)

Definition table_ok (rgn : lmb_region) : Prop :=
  length (region rgn) = 9%nat /\ 1 <= cnt rgn <= 8.

Lemma rep_table_ok rgn l : rep rgn l -> table_ok rgn.
Proof.
  intros [d Hr Hlen Hc|l' d Hr Hlen Hne Hle Hc Hok]; unfold table_ok; rewrite Hr, Hc.
  - cbn. lia.
  - destruct l'; [done|]. cbn in *. lia.
Qed.

Lemma aget_total {A} (l : list A) i :
  0 <= i < Z.of_nat (length l) -> ∃ x, aget l i = Some x.
Proof. intros H. by apply aget_is_Some in H as [x ?]; eauto. Qed.

Lemma aset_total {A} (l : list A) i x :
  0 <= i < Z.of_nat (length l) -> ∃ l', aset l i x = Some l' /\ length l' = length l.
Proof.
  intros H. unfold aset. rewrite decide_True by done. eexists. split; [done|]. apply length_insert.
Qed.

(** Steps over one array access that is in bounds. *)
Ltac step_access :=
  match goal with
  | |- context [aget ?l ?i] =>
      let x := fresh "x" in let E := fresh "E" in
      destruct (aget_total l i) as [x E]; [lia|rewrite E; cbn [mbind option_bind]]
  | |- context [aset ?l ?i ?v] =>
      let x := fresh "l'" in let E := fresh "E" in let H := fresh "Hlen" in
      destruct (aset_total l i v) as (x & E & H); [lia|rewrite E; cbn [mbind option_bind]]
  end.

Lemma remove_loop_total l i lim fuel :
  0 <= i <= lim -> lim < Z.of_nat (length l) -> (Z.to_nat (lim - i) < fuel)%nat ->
  ∃ l', remove_loop fuel l i lim = Some l' /\ length l' = length l.
Proof.
  revert l i. induction fuel as [|fuel IH]; intros l i Hi Hlim Hf; [lia|]. cbn [remove_loop].
  destruct (Z.ltb_spec i lim); [|by eauto]. do 2 step_access.
  destruct (IH l' (i + 1)) as (l'' & -> & H1); [lia..|]. exists l''. split; [done|lia].
Qed.

Lemma coalesce_loop_total l c i b sz fuel :
  0 <= i <= c -> c <= Z.of_nat (length l) -> (Z.to_nat (c - i) < fuel)%nat ->
  ∃ r, coalesce_loop fuel l c i b sz = Some r /\
    match r with
    | AlreadyThere => True
    | Coalesced l' j => length l' = length l /\ 0 <= j < c
    | Exhausted j => j = c
    end.
Proof.
  revert i. induction fuel as [|fuel IH]; intros i Hi Hc Hf; [lia|]. cbn [coalesce_loop].
  destruct (Z.ltb_spec i c); [|eexists; split; [done|cbn; lia]]. step_access.
  destruct (_ && _); [by eexists|].
  destruct (0 <? _); [step_access; eexists; split; [done|]; cbn; lia|].
  destruct (_ <? 0); [step_access; eexists; split; [done|]; cbn; lia|].
  apply IH; lia.
Qed.

Lemma insert_loop_total n l b sz :
  Z.of_nat n < Z.of_nat (length l) ->
  ∃ l', insert_loop n l b sz = Some l' /\ length l' = length l.
Proof.
  revert l. induction n as [|n IH]; intros l Hn; cbn [insert_loop]; [by eauto|].
  step_access. destruct (_ <? _); step_access; [|by eauto].
  destruct (IH l') as (l'' & -> & ?); [lia|]. eexists. split; [done|lia].
Qed.

Lemma coalesce_next_total rgn i c :
  table_ok rgn -> 0 <= i < cnt rgn ->
  ∃ rgn' c', coalesce_next rgn i c = Some (rgn', c') /\ table_ok rgn' /\ cnt rgn' <= cnt rgn /\ c <= c'.
Proof.
  intros (Hlen & Hc) Hi. unfold coalesce_next. rewrite u64_small by lia.
  destruct (Z.ltb_spec i (cnt rgn - 1)); [|cbn; eexists _, _; split; [done|]; split; [done|lia]].
  unfold lmb_regions_adjacent. do 2 step_access.
  destruct (_ =? 0); [eexists _, _; split; [done|]; split; [done|lia]|].
  unfold lmb_coalesce_regions. rewrite E, E0. cbn [mbind option_bind]. step_access. unfold lmb_remove_region. cbn [set_region cnt region rgn_size].
  rewrite u64_small by lia.
  destruct (remove_loop_total l' (i + 1) (cnt rgn - 1) (S (length l'))) as (l'' & -> & Hl); [lia..|].
  cbn [mbind option_bind]. eexists _, _. split; [done|]. unfold table_ok. cbn. split; lia.
Qed.

Lemma lmb_add_region_total rgn b sz :
  table_ok rgn -> ∃ r rgn', lmb_add_region rgn b sz = Some (r, rgn') /\ table_ok rgn' /\ cnt rgn' <= cnt rgn + 1.
Proof.
  intros Ht. pose proof Ht as (Hlen & Hc). unfold lmb_add_region. step_access.
  destruct (_ && _).
  { step_access. eexists _, _. split; [done|]. unfold table_ok. cbn. lia. }
  destruct (coalesce_loop_total (region rgn) (cnt rgn) 0 b sz (S (length (region rgn))))
    as (r & -> & Hr); [lia..|]. cbn [mbind option_bind].
  destruct r as [|l' j|j]; [eexists _, _; split_and!; [done..|lia]| |].
  - destruct (coalesce_next_total (set_region rgn l') j 1) as (rgn' & c' & -> & Ht' & Hcnt & Hc').
    { unfold table_ok. cbn. lia. } { cbn. lia. }
    cbn [mbind option_bind]. destruct (Z.eqb_spec c' 0); [lia|]. cbn [negb set_region cnt] in *. eexists _, _. split_and!; [done..|lia].
  - subst j. unfold coalesce_next. rewrite u64_small by lia.
    destruct (Z.ltb_spec (cnt rgn) (cnt rgn - 1)); [lia|]. cbn [mbind option_bind Z.eqb negb].
    destruct (Z.leb_spec MAX_LMB_REGIONS (cnt rgn)) as [|Hroom]; [eexists _, _; split_and!; [done..|lia]|].
    unfold MAX_LMB_REGIONS in Hroom.
    destruct (insert_loop_total (Z.to_nat (cnt rgn)) (region rgn) b sz) as (l' & -> & Hl'); [lia|].
    cbn [mbind option_bind]. step_access.
    destruct (b <? base x0); [step_access|]; eexists _, _; (split; [done|]); unfold table_ok; cbn;
      rewrite u64_small by lia; lia.
Qed.

(** *** The allocator *)

(** The blocks of a table that begin below an address: the measure of the
    [while] loop of [__lmb_alloc_base]. *)
Definition below (a : Z) (l : list lmb_property) : nat :=
  length (filter (λ p, base p < a) l).

Lemma below_le a l : (below a l <= length l)%nat.
Proof. apply length_filter. Qed.

Lemma below_mono a a' l : a' <= a -> (below a' l <= below a l)%nat.
Proof.
  intros Ha. unfold below. induction l as [|p l IH]; [done|].
  rewrite !filter_cons. repeat case_decide; cbn; lia.
Qed.

Lemma below_decreases a a' l1 p l2 :
  a' <= base p -> base p < a -> (below a' (l1 ++ p :: l2) < below a (l1 ++ p :: l2))%nat.
Proof.
  intros H1 H2. unfold below. rewrite !filter_app, !filter_cons.
  rewrite (decide_False (P := base p < a')) by lia. rewrite (decide_True (P := base p < a)) by lia.
  pose proof (below_mono a a' l1). pose proof (below_mono a a' l2). unfold below in *. length_lia.
Qed.

(** What the loop gives back when it takes a block [a] of [sz] bytes. *)
Record taken (res : lmb_region) (l : list lmb_property) (lmbbase b0 sz k a : Z)
    (res' : lmb_region) : Prop := Taken {
  tk_low : lmbbase <= a;
  tk_high : 0 < a <= b0;
  tk_align : (2 ^ k | a);
  tk_free : ∀ q, q ∈ l -> disjoint_blocks (Prop_ a sz) q;
  tk_table : table_ok res';
  tk_reserve : ∃ r, lmb_add_region res a (lmb_align_up sz (2 ^ k)) = Some (r, res') /\ 0 <= r
}.

Lemma alloc_loop_spec res l lmbbase b sz k fuel :
  rep res l -> 0 <= k < 64 -> 0 < sz -> 0 <= b -> b + sz < 2 ^ 64 -> (2 ^ k | b) ->
  (below (b + sz) l < fuel)%nat ->
  ∃ r, alloc_loop fuel res lmbbase b sz (2 ^ k) = Some r /\
    match r with
    | None => True
    | Some (a, res') => (a = 0 /\ table_ok res') \/ taken res l lmbbase b sz k a res'
    end.
Proof.
  intros Hrep Hk Hsz. revert b. induction fuel as [|fuel IH]; intros b Hb Hlt Hal Hf; [lia|].
  cbn [alloc_loop].
  destruct (Z.eqb_spec b 0); cbn [negb andb]; [by eexists|].
  destruct (Z.leb_spec lmbbase b) as [Hlow|]; [|by eexists].
  destruct (lmb_overlaps_region_spec res l (Prop_ b sz) Hrep) as (j & Hj & Hov).
  { unfold prop_ok, prop_end. cbn. lia. }
  cbn [base size] in Hj. rewrite Hj. cbn [mbind option_bind].
  destruct Hov as [Hdis|l1 p l2 -> Hnd].
  - cbn [Z.ltb Z.compare].
    destruct (lmb_add_region_total res b (lmb_align_up sz (2 ^ k)) (rep_table_ok _ _ Hrep))
      as (r & res' & Hadd & Ht & _).
    rewrite Hadd. cbn [mbind option_bind]. destruct (Z.ltb_spec r 0).
    + eexists. split; [done|]. by left.
    + eexists. split; [done|]. right. constructor; try done; [lia|]. by eexists.
  - destruct (Z.ltb_spec (Z.of_nat (length l1)) 0); [lia|].
    assert (aget (region res) (Z.of_nat (length l1)) = Some p) as ->.
    { inversion Hrep as [|l d Hr]; [by destruct l1|]. rewrite Hr, <-app_assoc. apply aget_mid. }
    cbn [mbind option_bind]. destruct (Z.ltb_spec (base p) sz); [by eexists|].
    assert (prop_ok p) as Hp.
    { inversion Hrep as [|l d Hr ? ? ? ? Hok]; [by destruct l1|]. by apply blocks_ok_mid in Hok as [? _]. }
    assert (base p < b + sz) as Hov by block_lia.
    rewrite u64_small by block_lia. rewrite lmb_align_down_spec by (done || (unfold in_word; block_lia)).
    set (b' := (base p - sz) / 2 ^ k * 2 ^ k).
    pose proof (align_down_bounds (base p - sz) k ltac:(lia)) as Hbd. fold b' in Hbd.
    assert (0 <= b') as Hb' by (unfold b'; apply Z.mul_nonneg_nonneg; [apply Z.div_pos; lia|lia]).
    destruct (IH b') as (r & Hr & Hres).
    { done. } { block_lia. } { unfold b'. apply Z.divide_factor_r. }
    { pose proof (below_decreases (b + sz) (b' + sz) l1 p l2). lia. }
    exists r. split; [done|]. destruct r as [[a res']|]; [|done].
    destruct Hres as [|[]]; [by left|]. right. constructor; try done. lia.
Qed.

(** What [__lmb_alloc_base] promises about an address [a] it returns. *)
Record granted (lm lr : list lmb_property) (res res' : lmb_region) (sz k max_addr a : Z)
    : Prop := Granted {
  gr_bank : ∃ p, p ∈ lm /\ base p <= a /\ a + sz <= prop_end p;
  gr_max : max_addr <> LMB_ALLOC_ANYWHERE -> a + sz <= max_addr;
  gr_align : (2 ^ k | a);
  gr_free : ∀ q, q ∈ lr -> disjoint_blocks (Prop_ a sz) q;
  gr_reserve : ∃ r, lmb_add_region res a (lmb_align_up sz (2 ^ k)) = Some (r, res') /\ 0 <= r
}.

Lemma alloc_bank_step lm lr res lmbbase p sz k max_addr b :
  rep res lr -> p ∈ lm -> prop_ok p -> lmbbase = base p ->
  0 <= k < 64 -> 0 < sz -> sz <= b -> b <= prop_end p ->
  (max_addr <> LMB_ALLOC_ANYWHERE -> b <= max_addr) ->
  ∃ r, alloc_loop (S (S (length (region res)))) res lmbbase
         (lmb_align_down (u64 (b - sz)) (2 ^ k)) sz (2 ^ k) = Some r /\
    match r with
    | None => True
    | Some (a, res') => table_ok res' /\ (a <> 0 -> granted lm lr res res' sz k max_addr a)
    end.
Proof.
  intros Hrep Hp Hok -> Hk Hsz Hb1 Hb2 Hmax.
  rewrite u64_small by block_lia. rewrite lmb_align_down_spec by (done || (unfold in_word; block_lia)).
  set (b' := (b - sz) / 2 ^ k * 2 ^ k).
  pose proof (align_down_bounds (b - sz) k ltac:(lia)) as Hbd. fold b' in Hbd.
  destruct (alloc_loop_spec res lr (base p) b' sz k (S (S (length (region res)))) Hrep)
    as (r & Hr & Hres).
  { done. } { done. } { unfold b'. apply Z.mul_nonneg_nonneg; [apply Z.div_pos; lia|lia]. }
  { block_lia. } { unfold b'. apply Z.divide_factor_r. }
  { pose proof (below_le (b' + sz) lr). inversion Hrep as [|l d Hrr]; cbn; [lia|].
    subst. rewrite Hrr. length_lia. }
  exists r. split; [done|]. destruct r as [[a res']|]; [|done].
  destruct Hres as [[-> ?]|[]]; [done|]. split; [done|]. intros _.
  constructor; try done.
  - exists p. split; [done|]. block_lia.
  - intros Hm. specialize (Hmax Hm). lia.
Qed.

Lemma alloc_banks_spec l lm lr sz k max_addr n :
  rep (memory l) lm -> rep (reserved l) lr -> 0 <= k < 64 -> 0 < sz ->
  (max_addr = LMB_ALLOC_ANYWHERE \/ sz <= max_addr) ->
  Z.of_nat n <= cnt (memory l) ->
  ∃ a l', alloc_banks n l sz (2 ^ k) max_addr = Some (a, l') /\ memory l' = memory l /\
    table_ok (reserved l') /\
    (a <> 0 -> granted lm lr (reserved l) (reserved l') sz k max_addr a).
Proof.
  intros Hm Hr Hk Hsz Hmax. induction n as [|n IH]; intros Hn; cbn [alloc_banks].
  { exists 0, l. split_and!; try done. by eapply rep_table_ok. }
  specialize (IH ltac:(lia)).
  destruct Hm as [d Hreg Hlen Hc|lm d Hreg Hlen Hne Hle Hc Hok].
  { assert (n = 0)%nat as -> by lia. rewrite Hreg. change (Z.of_nat 0) with 0. rewrite aget_0.
    cbn [mbind option_bind size]. by destruct (Z.ltb_spec 0 sz); [|lia]. }
  assert (n < length lm)%nat as Hlt by lia.
  destruct (lookup_lt_is_Some_2 lm n Hlt) as [p Hp].
  rewrite aget_nat, Hreg, lookup_app_l, Hp by done. cbn [mbind option_bind].
  assert (p ∈ lm) as Hin by (by eapply list_elem_of_lookup_2).
  pose proof (blocks_ok_elem _ _ Hok Hin) as Hpok.
  destruct (Z.ltb_spec (size p) sz); [done|].
  destruct (Z.eqb_spec max_addr LMB_ALLOC_ANYWHERE) as [->|Hne'].
  - destruct (alloc_bank_step lm lr (reserved l) (base p) p sz k LMB_ALLOC_ANYWHERE (prop_end p))
      as (r & Hstep & Hres); try done; [block_lia|].
    rewrite (u64_small (base p + size p)) by block_lia. unfold prop_end in Hstep. rewrite Hstep.
    cbn [mbind option_bind]. destruct r as [[a res']|]; [|done].
    eexists _, _. split; [done|]. destruct Hres. by split_and!.
  - destruct Hmax as [|Hmax]; [done|].
    destruct (Z.ltb_spec (base p) max_addr); [|done].
    rewrite (u64_small (base p + size p)) by block_lia.
    destruct (Z.ltb_spec (base p + size p) (base p)); [block_lia|].
    destruct (alloc_bank_step lm lr (reserved l) (base p) p sz k max_addr
                (Z.min (base p + size p) max_addr)) as (r & -> & Hres); try done;
      [block_lia|block_lia|block_lia|].
    cbn [mbind option_bind]. destruct r as [[a res']|]; [|done].
    eexists _, _. split; [done|]. destruct Hres. by split_and!.
Qed.

Lemma is_reserved_loop_spec l1 l2 d addr fuel :
  Forall prop_ok (l1 ++ l2) -> 0 <= addr -> (length l2 < fuel)%nat ->
  ∃ b, is_reserved_loop fuel (l1 ++ l2 ++ d) (Z.of_nat (length (l1 ++ l2)))
         (Z.of_nat (length l1)) addr = Some b
       /\ (b = 1 /\ addr ∈ cover l2 \/ b = 0 /\ addr ∉ cover l2).
Proof.
  revert l1 fuel. induction l2 as [|p l2 IH]; intros l1 [|fuel] Hok Ha Hf; cbn in Hf; try lia.
  - cbn [is_reserved_loop]. rewrite app_nil_r.
    destruct (Z.ltb_spec (Z.of_nat (length l1)) (Z.of_nat (length l1))); [lia|].
    exists 0. split; [done|]. right. split; [done|]. rewrite cover_nil. set_solver.
  - assert (prop_ok p) as Hp by (rewrite Forall_app, Forall_cons in Hok; tauto).
    cbn [is_reserved_loop app]. rewrite aget_mid. cbn [mbind option_bind].
    destruct (Z.ltb_spec (Z.of_nat (length l1)) (Z.of_nat (length (l1 ++ p :: l2)))); [|length_lia].
    rewrite (u64_small (base p + size p)), u64_small by block_lia.
    assert ((base p <=? addr) && (addr <=? base p + size p - 1) = bool_decide (addr ∈ brange p)) as ->.
    { apply eq_true_iff_eq. rewrite bool_decide_eq_true, elem_of_brange. unfold prop_end. lia. }
    case_bool_decide as Hin.
    + exists 1. split; [done|]. left. rewrite cover_cons. set_solver.
    + destruct (IH (l1 ++ [p]) fuel) as (b & Hb & Hres).
      { by rewrite <-app_assoc. } { done. } { lia. }
      rewrite <-!app_assoc in Hb. cbn [app] in Hb. exists b. split.
      { rewrite <-Hb. f_equal; length_lia. }
      rewrite cover_cons. set_solver.
Qed.

(** ** Theorems *)

(** [lmb_reserve] of a block that is disjoint from everything reserved so
    far: the table stays a sorted list of disjoint blocks, and it covers
    exactly the old addresses and the new block; or it has all its
    [MAX_LMB_REGIONS] blocks in use, the result is -1 and nothing changed. *)
Theorem lmb_reserve_covers (l : lmb) (lr : list lmb_property) (n : lmb_property) :
  rep (reserved l) lr -> prop_ok n -> (∀ q, q ∈ lr -> disjoint_blocks n q) ->
  ∃ r l' lr', lmb_reserve l (base n) (size n) = Some (r, l') /\
    memory l' = memory l /\ rep (reserved l') lr' /\
    ((0 <= r /\ cover lr' ≡ cover lr ∪ brange n) \/
     (r = -1 /\ lr' = lr /\ length lr = Z.to_nat MAX_LMB_REGIONS)).
Proof.
  intros Hrep Hn Hd.
  destruct (lmb_add_region_spec _ _ _ Hrep Hn Hd) as (r & rgn' & l' & Hadd & Hrep' & Hres).
  exists r, (Lmb (memory l) rgn'), l'. unfold lmb_reserve. rewrite Hadd.
  split; [done|]. split; [done|]. split; [done|]. naive_solver.
Qed.

(** [lmb_free] of a range inside a reserved block: exactly the addresses of
    the range are no longer covered.  The block must not be the only one and
    freed as a whole (see [lmb_free_last_reserve_lost]), and the table must
    have room for the split. *)
Theorem lmb_free_uncovers (l : lmb) (l1 : list lmb_property) (p : lmb_property)
    (l2 : list lmb_property) (n : lmb_property) :
  rep (reserved l) (l1 ++ p :: l2) -> prop_ok n -> contains p n ->
  (l1 ++ l2 <> [] \/ p <> n) -> (length (l1 ++ p :: l2) < 8)%nat ->
  ∃ r l' lr', lmb_free l (base n) (size n) = Some (r, l') /\ 0 <= r /\
    memory l' = memory l /\ rep (reserved l') lr' /\
    cover lr' ≡ cover (l1 ++ p :: l2) ∖ brange n.
Proof.
  intros Hrep Hn Hc Hlast Hlt.
  destruct (free_region_spec _ _ _ _ _ Hrep Hn Hc Hlast Hlt) as (r & rgn' & l' & Hf & Hr & Hrep' & Hcov).
  exists r, (Lmb (memory l) rgn'), l'. unfold lmb_free. rewrite Hf. by split_and!.
Qed.

Lemma lmb_alloc_base_spec (l : lmb) (lm lr : list lmb_property) (sz k max_addr : Z) :
  rep (memory l) lm -> rep (reserved l) lr -> 0 <= k < 64 -> 0 < sz ->
  (max_addr = LMB_ALLOC_ANYWHERE \/ sz <= max_addr) ->
  ∃ a l', lmb_alloc_base l sz (2 ^ k) max_addr = Some (a, l') /\ memory l' = memory l /\
    (a <> 0 -> granted lm lr (reserved l) (reserved l') sz k max_addr a).
Proof.
  intros Hm Hr Hk Hsz Hmax. unfold lmb_alloc_base. pose proof (rep_table_ok _ _ Hm) as [_ Hc].
  destruct (alloc_banks_spec l lm lr sz k max_addr (Z.to_nat (cnt (memory l))) Hm Hr Hk Hsz Hmax)
    as (a & l' & Ha & Hm' & _ & Hg); [lia|].
  exists a, l'. by split_and!.
Qed.

(** Blocks that cover exactly what others cover are apart from the same blocks. *)
Lemma disjoint_cover n l :
  prop_ok n -> (∀ q, q ∈ l -> prop_ok q) ->
  (∀ q, q ∈ l -> disjoint_blocks n q) <-> (∀ a, a ∈ brange n -> a ∉ cover l).
Proof.
  intros Hn Hl. split; intros H.
  - intros a Ha (q & Hq & Haq). apply elem_of_brange in Ha, Haq. destruct (H q Hq) as [Hb|Hb]; unfold before in Hb; lia.
  - intros q Hq. destruct (decide (disjoint_blocks n q)) as [|Hd]; [done|]. exfalso.
    pose proof (Hl q Hq) as (Hq1 & Hq2 & _). destruct Hn as (Hn1 & Hn2 & _). unfold disjoint_blocks, before, prop_end in Hd.
    apply (H (Z.max (base n) (base q))); [apply elem_of_brange; unfold prop_end; lia|].
    exists q. split; [done|]. apply elem_of_brange. unfold prop_end. lia.
Qed.

Lemma rep_prop_ok rgn l q : rep rgn l -> q ∈ l -> prop_ok q.
Proof. intros [|? ? ? ? ? ? ? Hok] Hq; [by apply elem_of_nil in Hq|]. by eapply blocks_ok_elem. Qed.

Lemma rep_cnt rgn l : rep rgn l -> Z.of_nat (length l) <= cnt rgn.
Proof. intros [? ? ? Hc|? ? ? ? ? ? Hc]; rewrite Hc; cbn; lia. Qed.

(** [lmb_alloc_base] always terminates, and an address it returns is
    aligned, lies with all its bytes in one bank of memory and below
    [max_addr], and is disjoint from everything reserved before. *)
Theorem lmb_alloc_base_safe (l : lmb) (lm lr : list lmb_property) (sz k max_addr : Z) :
  rep (memory l) lm -> rep (reserved l) lr -> 0 <= k < 64 -> 0 < sz ->
  (max_addr = LMB_ALLOC_ANYWHERE \/ sz <= max_addr) ->
  ∃ a l', lmb_alloc_base l sz (2 ^ k) max_addr = Some (a, l') /\ memory l' = memory l /\
    (a <> 0 -> granted lm lr (reserved l) (reserved l') sz k max_addr a).
Proof. apply lmb_alloc_base_spec. Qed.

(** When the size is a multiple of the alignment, the allocated block has
    become reserved: a later allocation cannot return an overlapping block. *)
Theorem lmb_alloc_base_reserves (l : lmb) (lm lr : list lmb_property) (sz k max_addr a : Z) (l' : lmb) :
  rep (memory l) lm -> rep (reserved l) lr -> 0 <= k < 64 -> 0 < sz ->
  (max_addr = LMB_ALLOC_ANYWHERE \/ sz <= max_addr) -> (2 ^ k | sz) -> sz + 2 ^ k < 2 ^ 64 ->
  lmb_alloc_base l sz (2 ^ k) max_addr = Some (a, l') -> a <> 0 ->
  ∃ lr', rep (reserved l') lr' /\ cover lr' ≡ cover lr ∪ brange (Prop_ a sz).
Proof.
  intros Hm Hr Hk Hsz Hmax Hdiv Hlt Ha Hne. unfold lmb_alloc_base in Ha.
  pose proof (rep_table_ok _ _ Hm) as [_ Hc].
  destruct (alloc_banks_spec l lm lr sz k max_addr (Z.to_nat (cnt (memory l))) Hm Hr Hk Hsz Hmax)
    as (a' & l'' & Ha' & _ & _ & Hg); [lia|]. rewrite Ha in Ha'. simplify_eq.
  destruct (Hg Hne) as [(p & Hp & Hlo & Hhi) _ _ Hfree (r & Hadd & Hr0)].
  rewrite lmb_align_up_exact in Hadd by (done || lia).
  assert (prop_ok p) as Hpok.
  { by apply (rep_prop_ok _ _ _ Hm). }
  destruct (lmb_add_region_spec (reserved l) lr (Prop_ a' sz) Hr) as (r' & res' & lr' & Hadd' & Hrep' & Hres).
  { block_lia. } { done. }
  cbn [base size] in Hadd'. rewrite Hadd in Hadd'. simplify_eq.
  exists lr'. split; [done|]. destruct Hres as [[_ ?]|(-> & _)]; [done|lia].
Qed.

(** Whatever the table holds, as long as it has between one and
    [MAX_LMB_REGIONS] live blocks, [lmb_add_region] stays inside its array and
    keeps the number of live blocks within these bounds. *)
Theorem lmb_add_region_in_bounds (rgn : lmb_region) (b sz : Z) :
  table_ok rgn -> ∃ r rgn', lmb_add_region rgn b sz = Some (r, rgn') /\ table_ok rgn'.
Proof. intros H. destruct (lmb_add_region_total rgn b sz H) as (r & rgn' & ? & ? & _). by exists r, rgn'. Qed.

(** With at least one block reserved, [lmb_is_reserved] decides whether an
    address is covered. *)
Theorem lmb_is_reserved_spec (l : lmb) (lr : list lmb_property) (addr : Z) :
  rep (reserved l) lr -> lr <> [] -> 0 <= addr ->
  ∃ b, lmb_is_reserved l addr = Some b /\
    (b = 1 /\ addr ∈ cover lr \/ b = 0 /\ addr ∉ cover lr).
Proof.
  intros Hrep Hne Ha. unfold lmb_is_reserved.
  destruct Hrep as [|lr d Hr Hlen _ Hle Hc Hok]; [done|]. rewrite Hr, Hc.
  apply (is_reserved_loop_spec [] lr d addr); [by destruct Hok|done|length_lia].
Qed.

(** After [lmb_init] nothing is reserved, yet [lmb_is_reserved] answers yes
    for every address: the end of the empty block wraps around. *)
Theorem lmb_init_reports_all_reserved (l l' : lmb) (addr : Z) :
  lmb_init l = Some l' -> in_word 64 addr -> lmb_is_reserved l' addr = Some 1.
Proof.
  unfold lmb_init, init_region. intros Hi Ha.
  destruct (region (memory l)) as [|m0 m], (region (reserved l)) as [|r0 r]; try done.
  rewrite !aset_0 in Hi. cbn in Hi. simplify_eq.
  unfold lmb_is_reserved. cbn [reserved region cnt length is_reserved_loop]. rewrite aget_0.
  cbn [mbind option_bind base size]. change (u64 (u64 (0 + 0) - 1)) with 18446744073709551615.
  unfold in_word in Ha.
  destruct (Z.leb_spec 0 addr), (Z.leb_spec addr 18446744073709551615); try lia. done.
Qed.

(** Freeing the only reserved block leaves [cnt == 0]; the next
    [lmb_reserve] at a higher address then reports success but the table holds
    the block that was freed, not the new one.  ([region[1]] is the zeroed
    block of a fresh table.) *)
Theorem lmb_free_last_reserve_lost (l : lmb) (p n : lmb_property) (d : list lmb_property) :
  reserved l = Rgn 1 0 (p :: Prop_ 0 0 :: d) -> prop_ok p -> prop_ok n -> 0 < base p ->
  base p <= base n ->
  ∃ l' l'', lmb_free l (base p) (size p) = Some (0, l') /\
    lmb_reserve l' (base n) (size n) = Some (0, l'') /\
    reserved l'' = Rgn 1 0 (p :: Prop_ 0 0 :: d).
Proof.
  intros Hr Hp Hn Hb Hle. eexists (Lmb (memory l) (Rgn 0 0 (p :: Prop_ 0 0 :: d))), _.
  split; [|split].
  - unfold lmb_free, free_region. rewrite Hr. cbn [region cnt length free_loop].
    change (0 <? 1) with true. cbv iota. rewrite aget_0.
    cbn [mbind option_bind]. rewrite (u64_small (base p + size p)) by block_lia.
    destruct (Z.leb_spec (base p) (base p)), (Z.leb_spec (base p + size p) (base p + size p)); try lia.
    cbn [andb mbind option_bind]. rewrite aget_0. cbn [mbind option_bind].
    rewrite !Z.eqb_refl. done.
  - unfold lmb_reserve. cbn [reserved].
    unfold lmb_add_region. cbn [region cnt]. rewrite aget_0. cbn [mbind option_bind Z.eqb andb].
    cbn [length coalesce_loop Z.ltb Z.compare mbind option_bind].
    unfold coalesce_next. cbn [cnt]. change (0 <? u64 (0 - 1)) with true.
    unfold lmb_regions_adjacent. cbn [region]. rewrite aget_0. cbn [mbind option_bind].
    change (aget (p :: Prop_ 0 0 :: d) (0 + 1)) with (Some (Prop_ 0 0)). cbn [mbind option_bind base size].
    assert (lmb_addrs_adjacent (base p) (size p) 0 0 = 0) as ->.
    { unfold lmb_addrs_adjacent. change (u64 (0 + 0)) with 0. rewrite u64_small by block_lia.
      destruct (Z.eqb_spec 0 (base p + size p)); [block_lia|].
      destruct (Z.eqb_spec (base p) 0); [lia|done]. }
    cbn [Z.eqb mbind option_bind negb cnt region Z.to_nat insert_loop].
    change (MAX_LMB_REGIONS <=? 0) with false. change (Z.to_nat 0) with 0%nat.
    cbn [insert_loop mbind option_bind]. rewrite aget_0. cbn [mbind option_bind].
    destruct (Z.ltb_spec (base n) (base p)); [lia|]. cbn. done.
  - done.
Qed.

(** A limit [max_addr] below the requested size makes the subtraction
    [base - size] wrap: the allocator then returns an address beyond all of
    the memory it was given. *)
Theorem lmb_alloc_base_max_addr_wraps (sz : Z) :
  4096 < sz <= 2 ^ 32 ->
  ∃ a l', lmb_alloc_base
      (Lmb (Rgn 1 0 [Prop_ 0 (2 ^ 32)])
           (Rgn 1 0 (replicate 9 (Prop_ 0 0)))) sz 1 4096 = Some (a, l') /\ 2 ^ 32 < a.
Proof.
  intros Hsz. unfold lmb_alloc_base. cbn [memory cnt].
  change (Z.to_nat 1) with 1%nat. cbn [alloc_banks memory region]. change (Z.of_nat 0) with 0.
  rewrite aget_0. cbn [mbind option_bind base size].
  destruct (Z.ltb_spec (2 ^ 32) sz); [lia|]. cbn [Z.eqb LMB_ALLOC_ANYWHERE].
  change (0 <? 4096) with true. change (u64 (0 + 2 ^ 32)) with (2 ^ 32).
  change (2 ^ 32 <? 0) with false. cbv iota zeta. change (Z.min (2 ^ 32) 4096) with 4096.
  assert (u64 (4096 - sz) = 2 ^ 64 + 4096 - sz) as Hw.
  { unfold u64, wrap. symmetry. apply (Z.mod_unique _ _ (-1)); lia. }
  rewrite Hw. change (lmb_align_down ?x 1) with (lmb_align_down x (2 ^ 0)). rewrite lmb_align_down_spec by (unfold in_word; lia).
  rewrite Z.div_1_r, Z.mul_1_r. cbn [reserved region length alloc_loop].
  destruct (Z.eqb_spec (2 ^ 64 + 4096 - sz) 0); [lia|]. destruct (Z.leb_spec 0 (2 ^ 64 + 4096 - sz)); [|lia].
  cbn [negb andb]. unfold lmb_overlaps_region. cbn [region replicate length overlaps_loop cnt].
  rewrite aget_0. cbn [mbind option_bind base size]. unfold lmb_addrs_overlap.
  change (u64 (0 + 0)) with 0. destruct (Z.ltb_spec (2 ^ 64 + 4096 - sz) 0); [lia|].
  cbn. eexists _, _. split; [done|]. lia.
Qed.

(** ** Witnesses: the theorems on a board with one bank and two reservations *)

Definition ex_mem : list lmb_property := [Prop_ 4096 1048576].
Definition ex_res : list lmb_property := [Prop_ 8192 4096; Prop_ 65536 4096].
Definition ex_lmb : lmb :=
  Lmb (Rgn 1 0 (ex_mem ++ replicate 8 (Prop_ 0 0)))
      (Rgn 2 0 (ex_res ++ replicate 7 (Prop_ 0 0))).

Lemma ex_mem_rep : rep (memory ex_lmb) ex_mem.
Proof.
  apply (rep_live _ _ (replicate 8 (Prop_ 0 0))); [done|done|done|cbn; lia|done|].
  by apply (bool_decide_unpack _).
Defined.

Lemma ex_res_rep : rep (reserved ex_lmb) ex_res.
Proof.
  apply (rep_live _ _ (replicate 7 (Prop_ 0 0))); [done|done|done|cbn; lia|done|].
  by apply (bool_decide_unpack _).
Defined.

Ltac ex_block := unfold prop_ok, contains, before, prop_end; cbn; lia.

Lemma lmb_reserve_covers_witness :
  ∃ r l' lr', lmb_reserve ex_lmb 12288 4096 = Some (r, l') /\
    memory l' = memory ex_lmb /\ rep (reserved l') lr' /\
    ((0 <= r /\ cover lr' ≡ cover ex_res ∪ brange (Prop_ 12288 4096)) \/
     (r = -1 /\ lr' = ex_res /\ length ex_res = Z.to_nat MAX_LMB_REGIONS)).
Proof.
  apply (lmb_reserve_covers ex_lmb ex_res (Prop_ 12288 4096)).
  - exact ex_res_rep.
  - ex_block.
  - intros q [->|[->|[]%elem_of_nil]%elem_of_cons]%elem_of_cons; [right|left]; ex_block.
Defined.

Lemma lmb_free_uncovers_witness :
  ∃ r l' lr', lmb_free ex_lmb 9216 1024 = Some (r, l') /\ 0 <= r /\
    memory l' = memory ex_lmb /\ rep (reserved l') lr' /\
    cover lr' ≡ cover ex_res ∖ brange (Prop_ 9216 1024).
Proof.
  apply (lmb_free_uncovers ex_lmb [] (Prop_ 8192 4096) [Prop_ 65536 4096] (Prop_ 9216 1024)).
  - exact ex_res_rep.
  - ex_block.
  - ex_block.
  - by left.
  - cbn. lia.
Defined.

Lemma lmb_alloc_base_safe_witness :
  ∃ a l', lmb_alloc_base ex_lmb 8192 (2 ^ 12) 69632 = Some (a, l') /\ memory l' = memory ex_lmb /\
    (a <> 0 -> granted ex_mem ex_res (reserved ex_lmb) (reserved l') 8192 12 69632 a).
Proof.
  apply (lmb_alloc_base_safe ex_lmb ex_mem ex_res 8192 12 69632);
    [exact ex_mem_rep|exact ex_res_rep|lia|lia|right; lia].
Defined.

(** The call of the previous witness, evaluated: the block just below the
    second reservation. *)
Example lmb_alloc_base_ex :
  fst <$> lmb_alloc_base ex_lmb 8192 (2 ^ 12) 69632 = Some 57344.
Proof. vm_compute. reflexivity. Qed.

Lemma lmb_alloc_base_reserves_witness :
  ∃ l' lr', rep (reserved l') lr' /\ cover lr' ≡ cover ex_res ∪ brange (Prop_ 57344 8192).
Proof.
  destruct (lmb_alloc_base ex_lmb 8192 (2 ^ 12) 69632) as [[a l']|] eqn:E; [|vm_compute in E; discriminate].
  exists l'. assert (a = 57344) as -> by (vm_compute in E; congruence).
  apply (lmb_alloc_base_reserves ex_lmb ex_mem ex_res 8192 12 69632 57344 l');
    [exact ex_mem_rep|exact ex_res_rep|lia|lia|right; lia|exists 2; lia|lia|exact E|lia].
Defined.

Lemma lmb_add_region_in_bounds_witness :
  ∃ r rgn', lmb_add_region (reserved ex_lmb) 8000 100000 = Some (r, rgn') /\ table_ok rgn'.
Proof. apply (lmb_add_region_in_bounds (reserved ex_lmb) 8000 100000). split; cbn; lia. Defined.

Lemma lmb_is_reserved_spec_witness :
  ∃ b, lmb_is_reserved ex_lmb 9000 = Some b /\
    (b = 1 /\ 9000 ∈ cover ex_res \/ b = 0 /\ 9000 ∉ cover ex_res).
Proof. apply (lmb_is_reserved_spec ex_lmb ex_res 9000); [exact ex_res_rep|done|lia]. Defined.

Lemma lmb_init_reports_all_reserved_witness :
  ∃ l', lmb_init ex_lmb = Some l' /\ lmb_is_reserved l' 2147483648 = Some 1.
Proof.
  destruct (lmb_init ex_lmb) as [l'|] eqn:E; [|vm_compute in E; discriminate].
  exists l'. split; [done|]. apply (lmb_init_reports_all_reserved ex_lmb l'); [done|].
  unfold in_word. lia.
Defined.

Lemma lmb_free_last_reserve_lost_witness :
  ∃ l' l'', lmb_free (Lmb (memory ex_lmb) (Rgn 1 0 (Prop_ 8192 4096 :: replicate 8 (Prop_ 0 0))))
      8192 4096 = Some (0, l') /\
    lmb_reserve l' 65536 4096 = Some (0, l'') /\
    reserved l'' = Rgn 1 0 (Prop_ 8192 4096 :: replicate 8 (Prop_ 0 0)).
Proof.
  apply (lmb_free_last_reserve_lost
    (Lmb (memory ex_lmb) (Rgn 1 0 (Prop_ 8192 4096 :: replicate 8 (Prop_ 0 0))))
    (Prop_ 8192 4096) (Prop_ 65536 4096) (replicate 7 (Prop_ 0 0)));
    [reflexivity|ex_block|ex_block|cbn; lia|cbn; lia].
Defined.

Lemma lmb_alloc_base_max_addr_wraps_witness :
  ∃ a l', lmb_alloc_base
      (Lmb (Rgn 1 0 [Prop_ 0 (2 ^ 32)])
           (Rgn 1 0 (replicate 9 (Prop_ 0 0)))) 8192 1 4096 = Some (a, l') /\ 2 ^ 32 < a.
Proof. apply (lmb_alloc_base_max_addr_wraps 8192). lia. Defined.
