(* ===== verification/Mem.v ===== *)
(** * Byte-addressed memory

    The memory the pointer routines of [lib/string.c] and their clients work
    on: a finite map from addresses to bytes.  Reading or writing an address
    that is not mapped is undefined behaviour ([None]).  Addresses are [Z], so
    pointer arithmetic does not wrap. *)

From S2P Require Import Prelude.

Abbreviation mem := (gmap Z Z).

Definition store (m : mem) (a v : Z) : option mem :=
  match m !! a with
  | Some _ => Some (<[a := v]> m)
  | None => None
  end.

(** [n] bytes from [a] on, as one access of the machine. *)
Fixpoint load_n (n : nat) (m : mem) (a : Z) : option (list Z) :=
  match n with
  | O => Some []
  | S n => c ← m !! a; l ← load_n n m (a + 1); Some (c :: l)
  end.

Fixpoint store_n (m : mem) (a : Z) (l : list Z) : option mem :=
  match l with
  | [] => Some m
  | c :: l => m ← store m a c; store_n m (a + 1) l
  end.

(** ** Assertions *)

(** The bytes [l] are in memory from address [a] on. *)
Definition bytes_at (m : mem) (a : Z) (l : list Z) : Prop :=
  ∀ i, (i < length l)%nat -> m !! (a + Z.of_nat i) = l !! i.

(** The bytes of [s] followed by a NUL, and no NUL in [s]. *)
Definition cstr_at (m : mem) (a : Z) (s : list Z) : Prop :=
  bytes_at m a (s ++ [0]) /\ Forall (λ c, 0 < c < 256) s.

(** [m'] differs from [m] only in the [n] bytes from [a] on. *)
Definition same_outside (m m' : mem) (a n : Z) : Prop :=
  ∀ b, ~ (a <= b < a + n) -> m' !! b = m !! b.

(** The [n] bytes from [a] on are mapped. *)
Definition mapped (m : mem) (a n : Z) : Prop :=
  ∀ b, a <= b < a + n -> is_Some (m !! b).

Lemma bytes_at_nil m a : bytes_at m a [].
Proof. intros i Hi. cbn in Hi. lia. Qed.

Lemma bytes_at_cons m a c l :
  bytes_at m a (c :: l) <-> m !! a = Some c /\ bytes_at m (a + 1) l.
Proof.
  split.
  - intros H. split.
    + specialize (H 0%nat ltac:(cbn; lia)). by rewrite Z.add_0_r in H.
    + intros i Hi. specialize (H (S i) ltac:(cbn; lia)).
      replace (a + 1 + Z.of_nat i) with (a + Z.of_nat (S i)) by lia. done.
  - intros [Hc H] [|i] Hi; cbn in *; [by rewrite Z.add_0_r|].
    rewrite <-H by lia. f_equal. lia.
Qed.

Lemma bytes_at_app m a l1 l2 :
  bytes_at m a (l1 ++ l2) <-> bytes_at m a l1 /\ bytes_at m (a + Z.of_nat (length l1)) l2.
Proof.
  revert a. induction l1 as [|c l1 IH]; intros a; cbn [app length].
  - rewrite Z.add_0_r. split; [split; [apply bytes_at_nil|done]|by intros [_ ?]].
  - rewrite !bytes_at_cons, IH. replace (a + Z.of_nat (S (length l1))) with (a + 1 + Z.of_nat (length l1)) by lia.
    tauto.
Qed.

Lemma bytes_at_mapped m a l : bytes_at m a l -> mapped m a (Z.of_nat (length l)).
Proof.
  intros H b Hb. specialize (H (Z.to_nat (b - a)) ltac:(lia)).
  replace (a + Z.of_nat (Z.to_nat (b - a))) with b in H by lia. rewrite H.
  apply lookup_lt_is_Some_2. lia.
Qed.

Lemma bytes_at_outside m m' a n b l :
  same_outside m m' a n -> (b + Z.of_nat (length l) <= a \/ a + n <= b) ->
  bytes_at m b l -> bytes_at m' b l.
Proof. intros Hs Hd H i Hi. rewrite Hs by lia. by apply H. Qed.

(** Strings are shorter than the memory they are in, so the size of the memory
    bounds the iterations of every loop that stops at the NUL. *)
Lemma bytes_at_length m a l : bytes_at m a l -> (length l <= size m)%nat.
Proof.
  revert m a. induction l as [|c l IH]; intros m a H; [cbn; lia|].
  apply bytes_at_cons in H as [Hc H].
  assert (bytes_at (delete a m) (a + 1) l) as H'.
  { intros i Hi. rewrite lookup_delete_ne by lia. by apply H. }
  apply IH in H'. rewrite map_size_delete, Hc in H'. cbn in *.
  assert (size m <> 0%nat) by (apply (map_size_ne_0_lookup_2 m a); eauto). lia.
Qed.

Lemma cstr_at_length m a s : cstr_at m a s -> (length s < size m)%nat.
Proof. intros [H _]. apply bytes_at_length in H. length_lia. Qed.

Lemma cstr_at_cons m a c s :
  cstr_at m a (c :: s) <-> m !! a = Some c /\ 0 < c < 256 /\ cstr_at m (a + 1) s.
Proof. unfold cstr_at. cbn [app]. rewrite bytes_at_cons, Forall_cons. tauto. Qed.

Lemma cstr_at_nil m a : cstr_at m a [] <-> m !! a = Some 0.
Proof.
  unfold cstr_at. cbn [app]. rewrite bytes_at_cons.
  split; [tauto|]. intros H. split; [split; [done|apply bytes_at_nil]|constructor].
Qed.

Lemma cstr_at_suffix m a s1 s2 :
  cstr_at m a (s1 ++ s2) -> cstr_at m (a + Z.of_nat (length s1)) s2.
Proof.
  intros [H1 H2]. rewrite <-app_assoc in H1. apply bytes_at_app in H1 as [_ H1].
  apply Forall_app in H2 as [_ H2]. done.
Qed.

Lemma store_spec m a v :
  is_Some (m !! a) ->
  ∃ m', store m a v = Some m' /\ m' !! a = Some v /\ (∀ b, b <> a -> m' !! b = m !! b).
Proof.
  intros [x Hx]. unfold store. rewrite Hx. eexists. split; [done|]. split.
  - apply lookup_insert_eq.
  - intros b Hb. by apply lookup_insert_ne.
Qed.

Lemma load_n_spec m a l : bytes_at m a l -> load_n (length l) m a = Some l.
Proof.
  revert a. induction l as [|c l IH]; intros a H; [done|]. apply bytes_at_cons in H as [Hc H].
  cbn. rewrite Hc. cbn. by rewrite IH.
Qed.

Lemma store_n_spec m a l :
  mapped m a (Z.of_nat (length l)) ->
  ∃ m', store_n m a l = Some m' /\ bytes_at m' a l /\ same_outside m m' a (Z.of_nat (length l)).
Proof.
  revert m a. induction l as [|c l IH]; intros m a Hm; cbn [store_n].
  { exists m. split; [done|]. split; [apply bytes_at_nil|done]. }
  destruct (store_spec m a c) as (m1 & -> & Ha & Ho); [apply Hm; cbn; lia|]. cbn [mbind option_bind].
  destruct (IH m1 (a + 1)) as (m' & -> & Hb & Hs).
  { intros b Hb. rewrite Ho by lia. apply Hm. cbn. lia. }
  exists m'. split; [done|]. split.
  - apply bytes_at_cons. split; [|done]. rewrite Hs by lia. done.
  - intros b Hn. cbn [length] in Hn. rewrite Hs by lia. apply Ho. lia.
Qed.

(** Mapped memory holds some bytes. *)
Lemma mapped_bytes m a n :
  mapped m a (Z.of_nat n) -> ∃ l, length l = n /\ bytes_at m a l.
Proof.
  revert a. induction n as [|n IH]; intros a Hm.
  { exists []. split; [done|apply bytes_at_nil]. }
  destruct (Hm a) as [c Hc]; [lia|]. destruct (IH (a + 1)) as (l & Hl & Hb).
  { intros b Hb. apply Hm. lia. }
  exists (c :: l). split; [cbn; lia|]. by apply bytes_at_cons.
Qed.

Lemma same_outside_trans m1 m2 m3 a n :
  same_outside m1 m2 a n -> same_outside m2 m3 a n -> same_outside m1 m3 a n.
Proof. intros H1 H2 b Hb. by rewrite H2, H1. Qed.

Lemma same_outside_mapped m m' a n b k :
  same_outside m m' a n -> mapped m' a n -> mapped m b k -> mapped m' b k.
Proof.
  intros Hs Hm Hb c Hc. destruct (decide (a <= c < a + n)); [by apply Hm|].
  rewrite Hs by done. by apply Hb.
Qed.

#[export] Hint Resolve bytes_at_nil bytes_at_mapped : uboot.

(** ** Concrete memories *)

Fixpoint mem_of (a : Z) (l : list Z) : mem :=
  match l with
  | [] => ∅
  | c :: l => <[a := c]> (mem_of (a + 1) l)
  end.

(** [bytes_at] and [cstr_at] of a concrete memory, by evaluation. *)
Lemma load_n_bytes_at m a l : load_n (length l) m a = Some l -> bytes_at m a l.
Proof.
  revert a. induction l as [|c l IH]; intros a H; [apply bytes_at_nil|]. cbn [length load_n] in H.
  destruct (m !! a) as [x|] eqn:E; [|done]. cbn [mbind option_bind] in H.
  destruct (load_n (length l) m (a + 1)) as [l'|] eqn:El; [|done]. cbn [mbind option_bind] in H.
  simplify_eq. apply bytes_at_cons. split; [done|]. by apply IH.
Qed.

Lemma load_n_cstr_at m a s :
  load_n (length (s ++ [0])) m a = Some (s ++ [0]) -> forallb (λ c, (0 <? c) && (c <? 256)) s = true ->
  cstr_at m a s.
Proof.
  intros H1 H2. split; [by apply load_n_bytes_at|]. apply Forall_forall. intros c Hc.
  rewrite forallb_forall in H2. apply list_elem_of_In, H2 in Hc. lia.
Qed.

Lemma load_n_mapped m a n l : load_n n m a = Some l -> mapped m a (Z.of_nat n).
Proof.
  intros H. assert (length l = n) as <-.
  { revert a l H. induction n as [|n IH]; intros a l H; cbn [load_n] in H; [by simplify_eq|].
    destruct (m !! a); [|done]. cbn [mbind option_bind] in H.
    destruct (load_n n m (a + 1)) eqn:E; [|done]. cbn [mbind option_bind] in H. simplify_eq. cbn.
    f_equal. by eapply IH. }
  by apply bytes_at_mapped, load_n_bytes_at.
Qed.

(** ** Filled areas *)

(** [n] bytes [v] at [a] *)
Fixpoint area (n : nat) (v a : Z) : mem :=
  match n with
  | O => ∅
  | S n => <[a + Z.of_nat n := v]> (area n v a)
  end.

Lemma area_lookup n v a b : area n v a !! b = if decide (a <= b < a + Z.of_nat n) then Some v else None.
Proof.
  induction n as [|n IH]; cbn [area]; [by rewrite decide_False by lia|].
  destruct (decide (b = a + Z.of_nat n)) as [-> |Hne].
  - rewrite lookup_insert_eq, decide_True by lia. done.
  - rewrite lookup_insert_ne, IH by done. repeat case_decide; done || lia.
Qed.

Lemma area_bytes n v a : bytes_at (area n v a) a (replicate n v).
Proof.
  intros i Hi. rewrite length_replicate in Hi. rewrite area_lookup, decide_True, lookup_replicate_2 by lia. done.
Qed.

Lemma area_bytes_at n v a b k : a <= b -> b + Z.of_nat k <= a + Z.of_nat n -> bytes_at (area n v a) b (replicate k v).
Proof.
  intros Ha Hb i Hi. rewrite length_replicate in Hi. rewrite area_lookup, decide_True, lookup_replicate_2 by lia. done.
Qed.

Lemma area_mapped n v a b k : a <= b -> b + k <= a + Z.of_nat n -> mapped (area n v a) b k.
Proof. intros Ha Hb c Hc. rewrite area_lookup, decide_True by lia. by eexists. Qed.

Lemma mem_of_bytes a l : bytes_at (mem_of a l) a l.
Proof.
  revert a. induction l as [|c l IH]; intros a; [apply bytes_at_nil|]. apply bytes_at_cons. cbn [mem_of].
  split; [apply lookup_insert_eq|]. intros i Hi. rewrite lookup_insert_ne by lia. by apply IH.
Qed.
