(* ===== verification/Ctype.v ===== *)
(** * Character classes ([lib/ctype.c], [include/linux/ctype.h]) *)

From S2P Require Import Prelude.

Definition _U : Z := 0x01.
Definition _L : Z := 0x02.
Definition _D : Z := 0x04.
Definition _C : Z := 0x08.
Definition _P : Z := 0x10.
Definition _S : Z := 0x20.
Definition _X : Z := 0x40.
Definition _SP : Z := 0x80.

(** The table, row by row as in the source. *)
Definition _ctype : list Z :=
  [_C;_C;_C;_C;_C;_C;_C;_C;
   _C;_C .| _S;_C .| _S;_C .| _S;_C .| _S;_C .| _S;_C;_C;
   _C;_C;_C;_C;_C;_C;_C;_C;
   _C;_C;_C;_C;_C;_C;_C;_C;
   _S .| _SP;_P;_P;_P;_P;_P;_P;_P;
   _P;_P;_P;_P;_P;_P;_P;_P;
   _D;_D;_D;_D;_D;_D;_D;_D;
   _D;_D;_P;_P;_P;_P;_P;_P;
   _P;_U .| _X;_U .| _X;_U .| _X;_U .| _X;_U .| _X;_U .| _X;_U;
   _U;_U;_U;_U;_U;_U;_U;_U;
   _U;_U;_U;_U;_U;_U;_U;_U;
   _U;_U;_U;_P;_P;_P;_P;_P;
   _P;_L .| _X;_L .| _X;_L .| _X;_L .| _X;_L .| _X;_L .| _X;_L;
   _L;_L;_L;_L;_L;_L;_L;_L;
   _L;_L;_L;_L;_L;_L;_L;_L;
   _L;_L;_L;_P;_P;_P;_P;_C;
   0;0;0;0;0;0;0;0;0;0;0;0;0;0;0;0;
   0;0;0;0;0;0;0;0;0;0;0;0;0;0;0;0;
   _S .| _SP;_P;_P;_P;_P;_P;_P;_P;_P;_P;_P;_P;_P;_P;_P;_P;
   _P;_P;_P;_P;_P;_P;_P;_P;_P;_P;_P;_P;_P;_P;_P;_P;
   _U;_U;_U;_U;_U;_U;_U;_U;_U;_U;_U;_U;_U;_U;_U;_U;
   _U;_U;_U;_U;_U;_U;_U;_P;_U;_U;_U;_U;_U;_U;_U;_L;
   _L;_L;_L;_L;_L;_L;_L;_L;_L;_L;_L;_L;_L;_L;_L;_L;
   _L;_L;_L;_L;_L;_L;_L;_P;_L;_L;_L;_L;_L;_L;_L;_L].

(** [_ctype[(int)(unsigned char)(x)]]: the index is always in the table. *)
Definition __ismask (c : Z) : Z := _ctype !!! Z.to_nat (u8 c).

Definition has_class (c mask : Z) : bool := negb (__ismask c .& mask =? 0).

Definition isdigit (c : Z) : bool := has_class c _D.
Definition islower (c : Z) : bool := has_class c _L.
Definition isupper (c : Z) : bool := has_class c _U.
Definition isspace (c : Z) : bool := has_class c _S.
Definition isalnum (c : Z) : bool := has_class c (_U .| _L .| _D).
Definition isxdigit (c : Z) : bool := has_class c (_D .| _X).

Definition isblank (c : Z) : bool := (c =? 32) || (c =? 9).

(** [c -= 'A'-'a'] and [c -= 'a'-'A'] on an [unsigned char]. *)
Definition tolower (c : Z) : Z := if isupper c then u8 (c - (65 - 97)) else c.
Definition toupper (c : Z) : Z := if islower c then u8 (c - (97 - 65)) else c.

(** ** What the classes are, on all 256 characters *)

(** A boolean fact about every byte, by evaluation. *)
Lemma forall_byte (P : Z -> bool) :
  forallb P (Z.of_nat <$> seq 0 256) = true -> ∀ c, 0 <= c < 256 -> P c = true.
Proof.
  intros H c Hc. rewrite forallb_forall in H. apply H.
  apply list_elem_of_In, list_elem_of_fmap. exists (Z.to_nat c).
  split; [lia|]. apply elem_of_seq. lia.
Qed.

Lemma forall_byte_dec (P : Z -> Prop) `{!∀ c, Decision (P c)} :
  forallb (λ c, bool_decide (P c)) (Z.of_nat <$> seq 0 256) = true ->
  ∀ c, 0 <= c < 256 -> P c.
Proof. intros Hf c Hc. pose proof (forall_byte _ Hf c Hc) as H'. by apply bool_decide_eq_true in H'. Qed.

Ltac by_all_bytes P :=
  intros; let H := fresh "Hall" in
  pose proof (forall_byte P ltac:(vm_compute; reflexivity)) as H;
  match goal with Hc : 0 <= ?c < 256 |- _ => specialize (H c Hc) end;
  cbn beta in H; apply eqb_prop in H; exact H.

Lemma isdigit_spec c :
  0 <= c < 256 -> isdigit c = (48 <=? c) && (c <=? 57).
Proof. by_all_bytes (λ c, eqb (isdigit c) ((48 <=? c) && (c <=? 57))). Qed.

Lemma isxdigit_spec c :
  0 <= c < 256 ->
  isxdigit c = ((48 <=? c) && (c <=? 57)) || ((65 <=? c) && (c <=? 70))
               || ((97 <=? c) && (c <=? 102)).
Proof.
  by_all_bytes (λ c, eqb (isxdigit c) (((48 <=? c) && (c <=? 57)) ||
    ((65 <=? c) && (c <=? 70)) || ((97 <=? c) && (c <=? 102)))).
Qed.

Lemma isspace_spec c :
  0 <= c < 256 -> isspace c = ((9 <=? c) && (c <=? 13)) || (c =? 32) || (c =? 160).
Proof. by_all_bytes (λ c, eqb (isspace c) (((9 <=? c) && (c <=? 13)) || (c =? 32) || (c =? 160))). Qed.
