(* ===== verification/Cstring.v ===== *)
(** * String and memory routines ([lib/string.c], [lib/linux_string.c])

    Every routine works on the memory of [Mem.v] through addresses, as the
    pointers of the source do; [char] is unsigned, as on the ARM targets.
    Loops that stop at the NUL take [size m] iterations at most, because a
    string occupies distinct mapped bytes.  The theorems relate the pointer
    routines to functions on lists of characters. *)

From S2P Require Import Prelude Mem Ctype.

Definition NULL : Z := 0.

(** ** Lengths *)

Fixpoint strlen_loop (fuel : nat) (m : mem) (sc s : Z) : option Z :=
  match fuel with
  | O => None
  | S fuel =>
      c ← m !! sc;
      if c =? 0 then Some (sc - s) else strlen_loop fuel m (sc + 1) s
  end.

Definition strlen (m : mem) (s : Z) : option Z := strlen_loop (size m) m s s.

(** [for (sc = s; count-- && *sc != '\0'; ++sc)]: [count] itself bounds the loop. *)
Fixpoint strnlen_loop (count : nat) (m : mem) (sc s : Z) : option Z :=
  match count with
  | O => Some (sc - s)
  | S count =>
      c ← m !! sc;
      if c =? 0 then Some (sc - s) else strnlen_loop count m (sc + 1) s
  end.

Definition strnlen (m : mem) (s : Z) (count : nat) : option Z := strnlen_loop count m s s.

(** ** Copies of strings *)

(** [while (( *dest++ = *src++) != '\0')] *)
Fixpoint strcpy_loop (fuel : nat) (m : mem) (dest src : Z) : option mem :=
  match fuel with
  | O => None
  | S fuel =>
      c ← m !! src;
      m ← store m dest c;
      if c =? 0 then Some m else strcpy_loop fuel m (dest + 1) (src + 1)
  end.

Definition strcpy (m : mem) (dest src : Z) : option (mem * Z) :=
  m' ← strcpy_loop (size m) m dest src; Some (m', dest).

Fixpoint strncpy_loop (count : nat) (m : mem) (dest src : Z) : option mem :=
  match count with
  | O => Some m
  | S count =>
      c ← m !! src;
      m ← store m dest c;
      if c =? 0 then Some m else strncpy_loop count m (dest + 1) (src + 1)
  end.

Definition strncpy (m : mem) (dest src : Z) (count : nat) : option (mem * Z) :=
  m' ← strncpy_loop count m dest src; Some (m', dest).

(** [while ( *dest) dest++;] *)
Fixpoint skip_to_nul (fuel : nat) (m : mem) (p : Z) : option Z :=
  match fuel with
  | O => None
  | S fuel => c ← m !! p; if c =? 0 then Some p else skip_to_nul fuel m (p + 1)
  end.

Definition strcat (m : mem) (dest src : Z) : option (mem * Z) :=
  p ← skip_to_nul (size m) m dest;
  m' ← strcpy_loop (size m) m p src;
  Some (m', dest).

(** [while (( *dest++ = *src++)) if (--count == 0) { *dest = '\0'; break; }] *)
Fixpoint strncat_loop (count : nat) (m : mem) (dest src : Z) : option mem :=
  match count with
  | O => None
  | S count =>
      c ← m !! src;
      m ← store m dest c;
      if c =? 0 then Some m
      else match count with
           | O => store m (dest + 1) 0
           | S _ => strncat_loop count m (dest + 1) (src + 1)
           end
  end.

Definition strncat (m : mem) (dest src : Z) (count : nat) : option (mem * Z) :=
  match count with
  | O => Some (m, dest)
  | S _ =>
      p ← skip_to_nul (size m) m dest;
      m' ← strncat_loop count m p src;
      Some (m', dest)
  end.

(** ** Comparisons *)

(** [__res] is a [signed char]: the difference is truncated to eight bits. *)
Fixpoint strcmp_loop (fuel : nat) (m : mem) (cs ct : Z) : option Z :=
  match fuel with
  | O => None
  | S fuel =>
      a ← m !! cs; b ← m !! ct;
      let __res := swrap 8 (a - b) in
      if negb (__res =? 0) || (a =? 0) then Some __res
      else strcmp_loop fuel m (cs + 1) (ct + 1)
  end.

Definition strcmp (m : mem) (cs ct : Z) : option Z := strcmp_loop (size m) m cs ct.

Fixpoint strncmp_loop (count : nat) (m : mem) (cs ct __res : Z) : option Z :=
  match count with
  | O => Some __res
  | S count =>
      a ← m !! cs; b ← m !! ct;
      let __res := swrap 8 (a - b) in
      if negb (__res =? 0) || (a =? 0) then Some __res
      else strncmp_loop count m (cs + 1) (ct + 1) __res
  end.

Definition strncmp (m : mem) (cs ct : Z) (count : nat) : option Z :=
  strncmp_loop count m cs ct 0.

(** The [do ... while (--len)] of [strncasecmp], entered with [len > 0]. *)
Fixpoint strncasecmp_loop (len : nat) (m : mem) (s1 s2 : Z) : option Z :=
  match len with
  | O => None
  | S len =>
      c1 ← m !! s1; c2 ← m !! s2;
      if (c1 =? 0) || (c2 =? 0) then Some (c1 - c2)
      else
        let '(c1, c2) := if c1 =? c2 then (c1, c2) else (tolower c1, tolower c2) in
        if negb (c1 =? c2) then Some (c1 - c2)
        else match len with
             | O => Some (c1 - c2)
             | S _ => strncasecmp_loop len m (s1 + 1) (s2 + 1)
             end
  end.

Definition strncasecmp (m : mem) (s1 s2 : Z) (len : nat) : option Z :=
  match len with
  | O => Some 0
  | S _ => strncasecmp_loop len m s1 s2
  end.

(** ** Searches *)

Fixpoint strchr_loop (fuel : nat) (m : mem) (s c : Z) : option Z :=
  match fuel with
  | O => None
  | S fuel =>
      x ← m !! s;
      if negb (x =? u8 c) then
        if x =? 0 then Some NULL else strchr_loop fuel m (s + 1) c
      else Some s
  end.

Definition strchr (m : mem) (s c : Z) : option Z := strchr_loop (size m) m s c.

(** [do { if ( *p == (char)c) return p; } while (--p >= s);], [n] being [p - s]. *)
Fixpoint strrchr_loop (n : nat) (m : mem) (s c : Z) : option Z :=
  x ← m !! (s + Z.of_nat n);
  if x =? u8 c then Some (s + Z.of_nat n)
  else match n with
       | O => Some NULL
       | S n => strrchr_loop n m s c
       end.

Definition strrchr (m : mem) (s c : Z) : option Z :=
  n ← strlen m s; strrchr_loop (Z.to_nat n) m s c.

(** The inner loop of [strspn] and [strpbrk]: is [c] one of the characters of
    the string at [a]? *)
Fixpoint char_in (fuel : nat) (m : mem) (c a : Z) : option bool :=
  match fuel with
  | O => None
  | S fuel =>
      x ← m !! a;
      if x =? 0 then Some false
      else if c =? x then Some true
      else char_in fuel m c (a + 1)
  end.

Fixpoint strspn_loop (fuel : nat) (m : mem) (p accept count : Z) : option Z :=
  match fuel with
  | O => None
  | S fuel =>
      c ← m !! p;
      if c =? 0 then Some count
      else
        b ← char_in (size m) m c accept;
        if negb b then Some count else strspn_loop fuel m (p + 1) accept (count + 1)
  end.

Definition strspn (m : mem) (s accept : Z) : option Z := strspn_loop (size m) m s accept 0.

Fixpoint strpbrk_loop (fuel : nat) (m : mem) (sc1 ct : Z) : option Z :=
  match fuel with
  | O => None
  | S fuel =>
      c ← m !! sc1;
      if c =? 0 then Some NULL
      else
        b ← char_in (size m) m c ct;
        if b : bool then Some sc1 else strpbrk_loop fuel m (sc1 + 1) ct
  end.

Definition strpbrk (m : mem) (cs ct : Z) : option Z := strpbrk_loop (size m) m cs ct.

(** [strsep(&s, ct)]: the new memory, the token and the new value of [s]. *)
Definition strsep (m : mem) (s ct : Z) : option (mem * Z * Z) :=
  if s =? NULL then Some (m, NULL, s)
  else
    e ← strpbrk m s ct;
    if e =? NULL then Some (m, s, NULL)
    else m ← store m e 0; Some (m, s, e + 1).

(** [strtok(s, ct)] with the static [___strtok] passed in and out. *)
Definition strtok (m : mem) (s ct ___strtok : Z) : option (mem * Z * Z) :=
  let sbegin := if negb (s =? NULL) then s else ___strtok in
  if sbegin =? NULL then Some (m, NULL, ___strtok)
  else
    n ← strspn m sbegin ct;
    let sbegin := sbegin + n in
    c ← m !! sbegin;
    if c =? 0 then Some (m, NULL, NULL)
    else
      send ← strpbrk m sbegin ct;
      if send =? NULL then Some (m, sbegin, send)
      else
        c ← m !! send;
        if c =? 0 then Some (m, sbegin, send)
        else m ← store m send 0; Some (m, sbegin, send + 1).

(** ** Areas of memory *)

(** The byte loops; the count is the number of iterations. *)
Fixpoint fill_bytes (count : nat) (m : mem) (s8 c : Z) : option mem :=
  match count with
  | O => Some m
  | S count => m ← store m s8 (u8 c); fill_bytes count m (s8 + 1) c
  end.

(** [cl]: eight times [cl <<= 8; cl |= c & 0xff]. *)
Fixpoint fill_word (n : nat) (cl c : Z) : Z :=
  match n with
  | O => cl
  | S n => fill_word n (u64 (cl ≪ 8) .| (c .& 255)) c
  end.

(** The bytes of a word in memory order (little endian). *)
Fixpoint le_bytes (n : nat) (w : Z) : list Z :=
  match n with
  | O => []
  | S n => u8 w :: le_bytes n (w ≫ 8)
  end.

Fixpoint fill_words (words : nat) (m : mem) (sl cl : Z) : option mem :=
  match words with
  | O => Some m
  | S words => m ← store_n m sl (le_bytes 8 cl); fill_words words m (sl + 8) cl
  end.

Definition memset (m : mem) (s c : Z) (count : nat) : option (mem * Z) :=
  if s .& 7 =? 0 then
    let words := (count / 8)%nat in
    m ← fill_words words m s (fill_word 8 0 c);
    m ← fill_bytes (count - 8 * words) m (s + 8 * Z.of_nat words) c;
    Some (m, s)
  else m ← fill_bytes count m s c; Some (m, s).

Fixpoint copy_up (count : nat) (m : mem) (d8 s8 : Z) : option mem :=
  match count with
  | O => Some m
  | S count => c ← m !! s8; m ← store m d8 c; copy_up count m (d8 + 1) (s8 + 1)
  end.

(** [*dl++ = *sl++]: one access of eight bytes. *)
Fixpoint copy_words (words : nat) (m : mem) (dl sl : Z) : option mem :=
  match words with
  | O => Some m
  | S words => w ← load_n 8 m sl; m ← store_n m dl w; copy_words words m (dl + 8) (sl + 8)
  end.

Definition memcpy (m : mem) (dest src : Z) (count : nat) : option (mem * Z) :=
  if src =? dest then Some (m, dest)
  else if (dest .| src) .& 7 =? 0 then
    let words := (count / 8)%nat in
    m ← copy_words words m dest src;
    m ← copy_up (count - 8 * words) m (dest + 8 * Z.of_nat words) (src + 8 * Z.of_nat words);
    Some (m, dest)
  else m ← copy_up count m dest src; Some (m, dest).

Definition bcopy (m : mem) (src dest : Z) (count : nat) : option (mem * Z) :=
  m ← copy_up count m dest src; Some (m, dest).

(** [while (count--) *--tmp = *--s;], [tmp] and [s] being [count] above the
    two areas. *)
Fixpoint copy_down (count : nat) (m : mem) (dest src : Z) : option mem :=
  match count with
  | O => Some m
  | S count =>
      c ← m !! (src + Z.of_nat count);
      m ← store m (dest + Z.of_nat count) c;
      copy_down count m dest src
  end.

Definition memmove (m : mem) (dest src : Z) (count : nat) : option (mem * Z) :=
  if src =? dest then Some (m, dest)
  else if dest <=? src then m ← copy_up count m dest src; Some (m, dest)
  else m ← copy_down count m dest src; Some (m, dest).

Fixpoint memcmp (count : nat) (m : mem) (su1 su2 res : Z) : option Z :=
  match count with
  | O => Some res
  | S count =>
      a ← m !! su1; b ← m !! su2;
      let res := a - b in
      if negb (res =? 0) then Some res else memcmp count m (su1 + 1) (su2 + 1) res
  end.

Fixpoint memscan (size : nat) (m : mem) (p c : Z) : option Z :=
  match size with
  | O => Some p
  | S size => x ← m !! p; if x =? c then Some p else memscan size m (p + 1) c
  end.

Fixpoint memchr (n : nat) (m : mem) (p c : Z) : option Z :=
  match n with
  | O => Some NULL
  | S n => x ← m !! p; if u8 c =? x then Some p else memchr n m (p + 1) c
  end.

(** [while (l1 >= l2)]: [n] iterations are left, [n] being [l1 - l2 + 1]. *)
Fixpoint strstr_loop (n : nat) (m : mem) (s1 s2 : Z) (l2 : nat) : option Z :=
  match n with
  | O => Some NULL
  | S n =>
      r ← memcmp l2 m s1 s2 0;
      if r =? 0 then Some s1 else strstr_loop n m (s1 + 1) s2 l2
  end.

Definition strstr (m : mem) (s1 s2 : Z) : option Z :=
  l2 ← strlen m s2;
  if l2 =? 0 then Some s1
  else
    l1 ← strlen m s1;
    strstr_loop (Z.to_nat (l1 - l2 + 1)) m s1 s2 (Z.to_nat l2).

Fixpoint check_bytes8 (bytes : nat) (m : mem) (start value : Z) : option Z :=
  match bytes with
  | O => Some NULL
  | S bytes =>
      x ← m !! start;
      if negb (x =? value) then Some start else check_bytes8 bytes m (start + 1) value
  end.

(** [value64] after the three doublings. *)
Definition value64 (value : Z) : Z :=
  let v := value in
  let v := v .| u64 (v ≪ 8) in
  let v := v .| u64 (v ≪ 16) in
  v .| u64 (v ≪ 32).

(** [while (words)]: returns where the loop stopped and whether it met a word
    that differs. *)
Fixpoint check_words (words : nat) (m : mem) (start v64 : Z) : option (Z * bool) :=
  match words with
  | O => Some (start, false)
  | S words =>
      w ← load_n 8 m start;
      if bool_decide (w = le_bytes 8 v64) then check_words words m (start + 8) v64
      else Some (start, true)
  end.

Definition memchr_inv (m : mem) (start c : Z) (bytes : nat) : option Z :=
  let value := u8 c in
  if (bytes <=? 16)%nat then check_bytes8 bytes m start value
  else
    let v64 := value64 value in
    let prefix := Z.to_nat (start mod 8) in
    let prefix := match prefix with O => O | S _ => (8 - prefix)%nat end in
    r ← check_bytes8 prefix m start value;
    if negb (r =? NULL) then Some r
    else
      let start := start + Z.of_nat prefix in
      let bytes := (bytes - prefix)%nat in
      '(start, differs) ← check_words (bytes / 8) m start v64;
      if differs : bool then check_bytes8 8 m start value
      else check_bytes8 (bytes mod 8) m start value.

(** [strlcpy]: the copy is a [memcpy] of [len] bytes. *)
Definition strlcpy (m : mem) (dest src : Z) (size : nat) : option (mem * Z) :=
  ret ← strlen m src;
  match size with
  | O => Some (m, ret)
  | S size' =>
      let len := if Z.of_nat size <=? ret then size' else Z.to_nat ret in
      '(m, _) ← memcpy m dest src len;
      m ← store m (dest + Z.of_nat len) 0;
      Some (m, ret)
  end.

(** ** White space ([lib/linux_string.c]) *)

Fixpoint skip_spaces_loop (fuel : nat) (m : mem) (str : Z) : option Z :=
  match fuel with
  | O => None
  | S fuel =>
      c ← m !! str;
      if isspace c then skip_spaces_loop fuel m (str + 1) else Some str
  end.

Definition skip_spaces (m : mem) (str : Z) : option Z := skip_spaces_loop (size m) m str.

(** [while (end >= s && isspace( *end)) end--;], [n] being [end - s + 1]. *)
Fixpoint strim_loop (n : nat) (m : mem) (s : Z) : option Z :=
  match n with
  | O => Some (s - 1)
  | S n' =>
      c ← m !! (s + Z.of_nat n');
      if isspace c then strim_loop n' m s else Some (s + Z.of_nat n')
  end.

Definition strim (m : mem) (s : Z) : option (mem * Z) :=
  s ← skip_spaces m s;
  size ← strlen m s;
  if size =? 0 then Some (m, s)
  else
    e ← strim_loop (Z.to_nat size) m s;
    m ← store m (e + 1) 0;
    Some (m, s).

(** [strswab]: exchanges neighbours until one of them is the NUL. *)
Fixpoint strswab_loop (fuel : nat) (m : mem) (p : Z) : option mem :=
  match fuel with
  | O => None
  | S fuel =>
      x ← m !! p;
      if x =? 0 then Some m
      else
        y ← m !! (p + 1);
        if y =? 0 then Some m
        else
          m ← store m p y;
          m ← store m (p + 1) x;
          strswab_loop fuel m (p + 2)
  end.

Definition strswab (m : mem) (s : Z) : option (mem * Z) :=
  if s =? NULL then Some (m, NULL)
  else
    c ← m !! s;
    if c =? 0 then Some (m, NULL)
    else m ← strswab_loop (size m) m s; Some (m, s).

(** ** Strings as lists of characters *)

Lemma strlen_loop_spec m s s0 p fuel :
  cstr_at m p s -> (length s < fuel)%nat ->
  strlen_loop fuel m p s0 = Some (p + Z.of_nat (length s) - s0).
Proof.
  revert p fuel. induction s as [|c s IH]; intros p [|fuel] H Hf; cbn in Hf; try lia.
  - apply cstr_at_nil in H. cbn. rewrite H. cbn. f_equal. lia.
  - apply cstr_at_cons in H as (Hc & Hr & H). cbn [strlen_loop]. rewrite Hc. cbn [mbind option_bind].
    destruct (Z.eqb_spec c 0); [lia|]. rewrite (IH (p + 1)) by (done || lia). f_equal. cbn. lia.
Qed.

Lemma strlen_spec m p s : cstr_at m p s -> strlen m p = Some (Z.of_nat (length s)).
Proof.
  intros H. unfold strlen. rewrite (strlen_loop_spec m s p p) by (done || by apply (cstr_at_length m p)).
  f_equal. lia.
Qed.

(** [strcmp] on lists of characters. *)
Fixpoint strcmp_list (s t : list Z) : Z :=
  match s, t with
  | [], [] => 0
  | [], b :: _ => swrap 8 (0 - b)
  | a :: _, [] => swrap 8 (a - 0)
  | a :: s, b :: t => if a =? b then strcmp_list s t else swrap 8 (a - b)
  end.

Lemma swrap8_zero a b : 0 <= a < 256 -> 0 <= b < 256 -> swrap 8 (a - b) = 0 <-> a = b.
Proof.
  intros Ha Hb. unfold swrap. change (2 ^ (8 - 1)) with 128. change (2 ^ 8) with 256.
  pose proof (Z.div_mod (a - b + 128) 256 ltac:(lia)).
  pose proof (Z.mod_pos_bound (a - b + 128) 256 ltac:(lia)). lia.
Qed.

Lemma swrap8_small z : -128 <= z < 128 -> swrap 8 z = z.
Proof.
  intros H. unfold swrap. change (2 ^ (8 - 1)) with 128. change (2 ^ 8) with 256.
  rewrite Z.mod_small; lia.
Qed.

Lemma strcmp_loop_spec m s t p q fuel :
  cstr_at m p s -> cstr_at m q t -> (length s < fuel)%nat ->
  strcmp_loop fuel m p q = Some (strcmp_list s t).
Proof.
  revert t p q fuel. induction s as [|a s IH]; intros t p q [|fuel] Hs Ht Hf; cbn in Hf; try lia.
  - apply cstr_at_nil in Hs. cbn [strcmp_loop]. rewrite Hs. cbn [mbind option_bind].
    destruct t as [|b t].
    + apply cstr_at_nil in Ht. by rewrite Ht.
    + apply cstr_at_cons in Ht as (Hb & _ & _). rewrite Hb. cbn [mbind option_bind].
      by rewrite orb_true_r.
  - apply cstr_at_cons in Hs as (Ha & Har & Hs). cbn [strcmp_loop]. rewrite Ha. cbn [mbind option_bind].
    destruct t as [|b t].
    + apply cstr_at_nil in Ht. rewrite Ht. cbn [mbind option_bind strcmp_list].
      destruct (Z.eqb_spec (swrap 8 (a - 0)) 0) as [E|]; [|done].
      apply (swrap8_zero a 0) in E; lia.
    + apply cstr_at_cons in Ht as (Hb & Hbr & Ht). rewrite Hb. cbn [mbind option_bind strcmp_list].
      destruct (Z.eqb_spec a 0); [lia|]. rewrite orb_false_r.
      destruct (Z.eqb_spec (swrap 8 (a - b)) 0) as [E|E]; cbn [negb].
      * apply (swrap8_zero a b) in E; [|lia..]. subst. rewrite Z.eqb_refl. apply IH; try done. lia.
      * destruct (Z.eqb_spec a b); [|done]. subst. rewrite Z.sub_diag in E. done.
Qed.

Definition char_ok (c : Z) : Prop := 0 < c < 256.

Lemma strcmp_list_zero s t :
  Forall char_ok s -> Forall char_ok t -> strcmp_list s t = 0 <-> s = t.
Proof.
  unfold char_ok. revert t. induction s as [|a s IH]; intros [|b t] Hs Ht; cbn [strcmp_list].
  - done.
  - apply Forall_cons in Ht as [Hb _]. rewrite swrap8_zero by lia. split; [lia|done].
  - apply Forall_cons in Hs as [Ha _]. rewrite swrap8_zero by lia. split; [lia|done].
  - apply Forall_cons in Hs as [Ha Hs]. apply Forall_cons in Ht as [Hb Ht].
    destruct (Z.eqb_spec a b) as [->|Hne].
    + rewrite IH by done. split; [by intros ->|congruence].
    + rewrite swrap8_zero by lia. split; [done|congruence].
Qed.

(** Lexicographic order of strings by character code. *)
Fixpoint lex_compare (s t : list Z) : comparison :=
  match s, t with
  | [], [] => Eq
  | [], _ :: _ => Lt
  | _ :: _, [] => Gt
  | a :: s, b :: t => match Z.compare a b with Eq => lex_compare s t | c => c end
  end.

Lemma strcmp_list_ascii s t :
  Forall (λ c, 0 < c < 128) s -> Forall (λ c, 0 < c < 128) t ->
  Z.compare (strcmp_list s t) 0 = lex_compare s t.
Proof.
  revert t. induction s as [|a s IH]; intros [|b t] Hs Ht; cbn [strcmp_list lex_compare]; try done.
  - apply Forall_cons in Ht as [Hb _]. rewrite swrap8_small by lia. apply Z.compare_lt_iff. lia.
  - apply Forall_cons in Hs as [Ha _]. rewrite swrap8_small by lia. apply Z.compare_gt_iff. lia.
  - apply Forall_cons in Hs as [Ha Hs]. apply Forall_cons in Ht as [Hb Ht].
    destruct (Z.eqb_spec a b) as [->|Hne].
    + rewrite Z.compare_refl. by apply IH.
    + rewrite swrap8_small by lia.
      destruct (Z.compare_spec a b); [done|apply Z.compare_lt_iff; lia|apply Z.compare_gt_iff; lia].
Qed.

(** ** Copies *)

Lemma copy_up_spec m d s l :
  bytes_at m s l -> mapped m d (Z.of_nat (length l)) ->
  (d <= s \/ s + Z.of_nat (length l) <= d) ->
  ∃ m', copy_up (length l) m d s = Some m' /\ bytes_at m' d l /\
    same_outside m m' d (Z.of_nat (length l)).
Proof.
  revert m d s. induction l as [|c l IH]; intros m d s Hs Hd Hov; cbn [length copy_up].
  { exists m. split; [done|]. split; [apply bytes_at_nil|done]. }
  apply bytes_at_cons in Hs as [Hc Hs]. rewrite Hc. cbn [mbind option_bind].
  destruct (store_spec m d c) as (m1 & -> & Hd1 & Ho); [apply Hd; cbn; lia|]. cbn [mbind option_bind].
  destruct (IH m1 (d + 1) (s + 1)) as (m' & -> & Hb & Hso).
  - intros i Hi. cbn [length] in Hov. rewrite Ho by lia. by apply Hs.
  - intros b Hb. cbn [length] in *. rewrite Ho by lia. apply Hd. cbn. lia.
  - cbn [length] in Hov. lia.
  - exists m'. split; [done|]. split.
    + apply bytes_at_cons. split; [|done]. by rewrite Hso by lia.
    + intros b Hn. rewrite Hso by lia. apply Ho. lia.
Qed.

Lemma copy_down_spec m d s l :
  bytes_at m s l -> mapped m d (Z.of_nat (length l)) -> s <= d ->
  ∃ m', copy_down (length l) m d s = Some m' /\ bytes_at m' d l /\
    same_outside m m' d (Z.of_nat (length l)).
Proof.
  revert m. induction l as [|c l IH] using rev_ind; intros m Hs Hd Hov.
  { exists m. split; [done|]. split; [apply bytes_at_nil|done]. }
  rewrite length_app, Nat.add_comm in *. cbn [length Nat.add copy_down] in *.
  apply bytes_at_app in Hs as [Hs Hc]. apply bytes_at_cons in Hc as [Hc _].
  rewrite Hc. cbn [mbind option_bind].
  destruct (store_spec m (d + Z.of_nat (length l)) c) as (m1 & -> & Hd1 & Ho); [apply Hd; lia|].
  cbn [mbind option_bind]. destruct (IH m1) as (m' & -> & Hb & Hso).
  - intros i Hi. rewrite Ho by lia. by apply Hs.
  - intros b Hb. rewrite Ho by lia. apply Hd. lia.
  - lia.
  - exists m'. split; [done|]. split.
    + apply bytes_at_app. split; [done|]. apply bytes_at_cons. split; [|apply bytes_at_nil].
      by rewrite Hso by lia.
    + intros b Hn. rewrite Hso by lia. apply Ho. lia.
Qed.

Lemma copy_words_spec words m d s l :
  length l = (8 * words)%nat -> bytes_at m s l -> mapped m d (Z.of_nat (length l)) ->
  (d <= s \/ s + Z.of_nat (length l) <= d) ->
  ∃ m', copy_words words m d s = Some m' /\ bytes_at m' d l /\
    same_outside m m' d (Z.of_nat (length l)).
Proof.
  revert m d s l. induction words as [|words IH]; intros m d s l Hlen Hs Hd Hov; cbn [copy_words].
  { destruct l; [|done]. exists m. split; [done|]. split; [apply bytes_at_nil|done]. }
  rewrite <-(take_drop 8 l) in Hs. apply bytes_at_app in Hs as [Hw Hs].
  assert (length (take 8 l) = 8%nat) as Hl8 by (rewrite length_take; lia).
  assert (length (drop 8 l) = (8 * words)%nat) as Hlr by (rewrite length_drop; lia).
  rewrite Hl8 in Hs. pose proof (load_n_spec m s (take 8 l) Hw) as Hload. rewrite Hl8 in Hload.
  rewrite Hload. cbn [mbind option_bind].
  destruct (store_n_spec m d (take 8 l)) as (m1 & -> & Hb1 & Ho).
  { intros b Hb. apply Hd. lia. }
  rewrite Hl8 in Ho. cbn [mbind option_bind].
  destruct (IH m1 (d + 8) (s + 8) (drop 8 l)) as (m' & -> & Hb & Hso).
  - done.
  - intros i Hi. rewrite Ho by lia. by apply Hs.
  - intros b Hb. rewrite Ho by lia. apply Hd. lia.
  - lia.
  - exists m'. split; [done|]. split.
    + rewrite <-(take_drop 8 l). apply bytes_at_app. rewrite Hl8. split; [|done].
      eapply bytes_at_outside; [exact Hso| |exact Hb1]. lia.
    + intros b Hn. rewrite Hso by lia. apply Ho. lia.
Qed.

Lemma copy_all_spec m d s l words :
  (8 * words <= length l)%nat -> bytes_at m s l -> mapped m d (Z.of_nat (length l)) ->
  (d <= s \/ s + Z.of_nat (length l) <= d) ->
  ∃ m1 m', copy_words words m d s = Some m1 /\
    copy_up (length l - 8 * words) m1 (d + 8 * Z.of_nat words) (s + 8 * Z.of_nat words) = Some m' /\
    bytes_at m' d l /\ same_outside m m' d (Z.of_nat (length l)).
Proof.
  intros Hw Hs Hd Hov. set (k := (8 * words)%nat) in *.
  rewrite <-(take_drop k l) in Hs. apply bytes_at_app in Hs as [H1 H2].
  assert (length (take k l) = k) as Hk by (rewrite length_take; lia).
  assert (length (drop k l) = (length l - k)%nat) as Hr by apply length_drop.
  destruct (copy_words_spec words m d s (take k l)) as (m1 & Hc1 & Hb1 & Ho1);
    [done|done|intros b Hb; apply Hd; lia|lia|].
  rewrite Hk in *.
  destruct (copy_up_spec m1 (d + Z.of_nat k) (s + Z.of_nat k) (drop k l)) as (m' & Hc2 & Hb2 & Ho2).
  { intros i Hi. rewrite Ho1 by lia. by apply H2. }
  { intros b Hb. rewrite Ho1 by lia. apply Hd. lia. }
  { lia. }
  rewrite Hr in *. exists m1, m'. split; [done|].
  replace (8 * Z.of_nat words) with (Z.of_nat k) by lia. split; [done|]. split.
  - rewrite <-(take_drop k l). apply bytes_at_app. rewrite Hk. split; [|done].
    eapply bytes_at_outside; [exact Ho2| |exact Hb1]. lia.
  - intros b Hn. rewrite Ho2 by lia. apply Ho1. lia.
Qed.

Lemma strcpy_loop_spec m d s src fuel :
  cstr_at m src s -> mapped m d (Z.of_nat (length s) + 1) ->
  (d <= src \/ src + Z.of_nat (length s) < d) -> (length s < fuel)%nat ->
  ∃ m', strcpy_loop fuel m d src = Some m' /\ cstr_at m' d s /\
    same_outside m m' d (Z.of_nat (length s) + 1).
Proof.
  revert m d src fuel. induction s as [|c s IH]; intros m d src [|fuel] Hs Hd Hov Hf; cbn in Hf; try lia.
  - apply cstr_at_nil in Hs. cbn [strcpy_loop]. rewrite Hs. cbn [mbind option_bind].
    destruct (store_spec m d 0) as (m1 & -> & Hd1 & Ho); [apply Hd; cbn; lia|].
    exists m1. split; [done|]. split; [by apply cstr_at_nil|]. intros b Hb. apply Ho. cbn in Hb. lia.
  - apply cstr_at_cons in Hs as (Hc & Hcr & Hs). cbn [strcpy_loop length] in *. rewrite Hc.
    cbn [mbind option_bind].
    destruct (store_spec m d c) as (m1 & -> & Hd1 & Ho); [apply Hd; lia|]. cbn [mbind option_bind].
    destruct (Z.eqb_spec c 0); [lia|].
    destruct (IH m1 (d + 1) (src + 1) fuel) as (m' & -> & Hb & Hso).
    + split; [|by destruct Hs]. intros i Hi. rewrite Ho by length_lia. by apply Hs.
    + intros b Hb. rewrite Ho by lia. apply Hd. lia.
    + lia.
    + lia.
    + exists m'. split; [done|]. split.
      * apply cstr_at_cons. split; [by rewrite Hso by lia|done].
      * intros b Hn. rewrite Hso by lia. apply Ho. lia.
Qed.

(** What [strncpy] copies: [count] characters without a NUL, or fewer and the
    NUL. *)
Inductive ncopied : nat -> list Z -> Prop :=
| nc_full : ncopied 0 []
| nc_nul count : ncopied (S count) [0]
| nc_char count c l : c <> 0 -> ncopied count l -> ncopied (S count) (c :: l).

Lemma ncopied_take count s :
  Forall char_ok s -> ncopied count (take count (s ++ [0])).
Proof.
  revert s. induction count as [|count IH]; intros s Hs; [constructor|].
  destruct s as [|c s]; cbn [app take].
  - rewrite take_nil. constructor.
  - apply Forall_cons in Hs as [Hc Hs]. unfold char_ok in Hc. constructor; [lia|by apply IH].
Qed.

Lemma strncpy_loop_spec count l m d src :
  ncopied count l -> bytes_at m src l -> mapped m d (Z.of_nat (length l)) ->
  (d <= src \/ src + Z.of_nat (length l) <= d) ->
  ∃ m', strncpy_loop count m d src = Some m' /\ bytes_at m' d l /\
    same_outside m m' d (Z.of_nat (length l)).
Proof.
  intros Hn. revert m d src.
  induction Hn as [|count|count c l Hc Hn IH]; intros m d src Hs Hd Hov; cbn [strncpy_loop length] in *.
  - exists m. split; [done|]. split; [apply bytes_at_nil|done].
  - apply bytes_at_cons in Hs as [Hs _]. rewrite Hs. cbn [mbind option_bind].
    destruct (store_spec m d 0) as (m1 & -> & Hd1 & Ho); [apply Hd; lia|].
    exists m1. split; [done|]. split; [apply bytes_at_cons; split; [done|apply bytes_at_nil]|].
    intros b Hb. apply Ho. lia.
  - apply bytes_at_cons in Hs as [Hs1 Hs]. rewrite Hs1. cbn [mbind option_bind].
    destruct (store_spec m d c) as (m1 & -> & Hd1 & Ho); [apply Hd; lia|]. cbn [mbind option_bind].
    destruct (Z.eqb_spec c 0); [lia|].
    destruct (IH m1 (d + 1) (src + 1)) as (m' & -> & Hb & Hso).
    + intros i Hi. rewrite Ho by lia. by apply Hs.
    + intros b Hb. rewrite Ho by lia. apply Hd. lia.
    + lia.
    + exists m'. split; [done|]. split.
      * apply bytes_at_cons. split; [by rewrite Hso by lia|done].
      * intros b Hn'. rewrite Hso by lia. apply Ho. lia.
Qed.

(** ** Searches *)

(** [memcmp] decides equality of two areas. *)
Lemma memcmp_spec m a b l1 l2 :
  length l1 = length l2 -> bytes_at m a l1 -> bytes_at m b l2 ->
  ∃ r, memcmp (length l1) m a b 0 = Some r /\ (r = 0 <-> l1 = l2).
Proof.
  revert a b l2. induction l1 as [|x l1 IH]; intros a b [|y l2] Hlen Ha Hb; try done.
  { exists 0. done. }
  apply bytes_at_cons in Ha as [Hx Ha]. apply bytes_at_cons in Hb as [Hy Hb].
  cbn [memcmp length]. rewrite Hx, Hy. cbn [mbind option_bind].
  destruct (Z.eqb_spec (x - y) 0) as [E|E]; cbn [negb].
  - replace (x - y) with 0 by lia. assert (x = y) as -> by lia.
    destruct (IH (a + 1) (b + 1) l2) as (r & -> & Hr); [by injection Hlen|done..|].
    exists r. split; [done|]. rewrite Hr. split; congruence.
  - exists (x - y). split; [done|]. split; [done|]. intros [= -> _]. lia.
Qed.

(** The string [t] occurs in [s] at index [i]. *)
Definition occurs_at (t s : list Z) (i : nat) : Prop :=
  (i + length t <= length s)%nat /\ take (length t) (drop i s) = t.

(** The first occurrence, and the address a search returns for it. *)
Definition found_at (p r : Z) (t s : list Z) : Prop :=
  (r = NULL /\ ∀ i, ~ occurs_at t s i) \/
  (∃ i, r = p + Z.of_nat i /\ occurs_at t s i /\ ∀ j, (j < i)%nat -> ~ occurs_at t s j).

Lemma strstr_loop_spec m q s t p n i :
  bytes_at m p s -> bytes_at m q t ->
  (i + n + length t = S (length s))%nat ->
  (∀ j, (j < i)%nat -> ~ occurs_at t s j) ->
  ∃ r, strstr_loop n m (p + Z.of_nat i) q (length t) = Some r /\ found_at p r t s.
Proof.
  intros Hs Ht. revert i. induction n as [|n IH]; intros i Hn Hno; cbn [strstr_loop].
  - exists NULL. split; [done|]. left. split; [done|]. intros j Hj.
    destruct (decide (j < i)%nat); [by apply (Hno j)|]. destruct Hj. lia.
  - assert (length (take (length t) (drop i s)) = length t) as Hlen.
    { rewrite length_take, length_drop. lia. }
    destruct (memcmp_spec m (p + Z.of_nat i) q (take (length t) (drop i s)) t) as (r & Hr & Hiff);
      [done| |done|].
    { intros k Hk. rewrite lookup_take_lt, lookup_drop by lia. rewrite <-Hs by lia. f_equal. lia. }
    rewrite Hlen in Hr. rewrite Hr. cbn [mbind option_bind].
    destruct (Z.eqb_spec r 0) as [E|E].
    + eexists. split; [done|]. right. exists i. split; [done|]. split; [|done].
      split; [lia|by apply Hiff].
    + replace (p + Z.of_nat i + 1) with (p + Z.of_nat (S i)) by lia. apply IH; [lia|].
      intros j Hj [Ho Hj']. destruct (decide (j = i)) as [->|]; [by apply E, Hiff|].
      by apply (Hno j ltac:(lia)).
Qed.

Lemma char_in_spec m ct a c fuel :
  cstr_at m a ct -> (length ct < fuel)%nat ->
  char_in fuel m c a = Some (bool_decide (c ∈ ct)).
Proof.
  revert a fuel. induction ct as [|x ct IH]; intros a [|fuel] H Hf; cbn in Hf; try lia; cbn [char_in].
  - apply cstr_at_nil in H. rewrite H. done.
  - apply cstr_at_cons in H as (Hx & Hr & H). rewrite Hx. cbn [mbind option_bind].
    destruct (Z.eqb_spec x 0); [lia|]. destruct (Z.eqb_spec c x) as [->|Hne].
    + rewrite bool_decide_eq_true_2; [done|]. by left.
    + rewrite (IH (a + 1)) by (done || lia). f_equal. apply bool_decide_ext.
      rewrite elem_of_cons. naive_solver.
Qed.

(** The prefix of [s] free of the characters [ct], as [strpbrk] finds it. *)
Lemma strpbrk_loop_spec m ct a s p fuel :
  cstr_at m a ct -> cstr_at m p s -> (length s < fuel)%nat ->
  (strpbrk_loop fuel m p a = Some NULL /\ Forall (λ c, c ∉ ct) s) \/
  (∃ s1 d s2, s = s1 ++ d :: s2 /\ Forall (λ c, c ∉ ct) s1 /\ d ∈ ct /\
     strpbrk_loop fuel m p a = Some (p + Z.of_nat (length s1))).
Proof.
  intros Hct. revert p fuel.
  induction s as [|c s IH]; intros p [|fuel] Hs Hf; cbn in Hf; try lia; cbn [strpbrk_loop].
  - apply cstr_at_nil in Hs. rewrite Hs. cbn. by left.
  - apply cstr_at_cons in Hs as (Hc & Hr & Hs). rewrite Hc. cbn [mbind option_bind].
    destruct (Z.eqb_spec c 0); [lia|].
    rewrite (char_in_spec m ct) by (done || by apply (cstr_at_length m a)). cbn [mbind option_bind].
    case_bool_decide as Hin.
    + right. exists [], c, s. split; [done|]. split; [constructor|]. split; [done|].
      cbn. by rewrite Z.add_0_r.
    + destruct (IH (p + 1) fuel Hs ltac:(lia)) as [[-> Hno]|(s1 & d & s2 & -> & Hno & Hd & ->)].
      * left. split; [done|]. by constructor.
      * right. exists (c :: s1), d, s2. split; [done|]. split; [by constructor|]. split; [done|].
        f_equal. cbn. lia.
Qed.

(** ** Fills and scans a word at a time *)

Lemma fill_word_byte n cl c : fill_word n cl c = fill_word n cl (u8 c).
Proof.
  revert cl. induction n as [|n IH]; intros cl; [done|]. cbn [fill_word]. rewrite IH. do 2 f_equal.
  unfold u8, wrap. change 255 with (Z.ones 8). rewrite !Z.land_ones by lia.
  by rewrite Z.mod_mod by lia.
Qed.

Lemma fill_word_bytes c : le_bytes 8 (fill_word 8 0 c) = replicate 8 (u8 c).
Proof.
  rewrite fill_word_byte.
  apply (forall_byte_dec (λ b, le_bytes 8 (fill_word 8 0 b) = replicate 8 b));
    [vm_compute; reflexivity|apply u8_range].
Qed.

Lemma value64_bytes v : 0 <= v < 256 -> le_bytes 8 (value64 v) = replicate 8 v.
Proof.
  apply (forall_byte_dec (λ b, le_bytes 8 (value64 b) = replicate 8 b)). vm_compute. reflexivity.
Qed.

Lemma fill_bytes_spec count m s c :
  mapped m s (Z.of_nat count) ->
  ∃ m', fill_bytes count m s c = Some m' /\ bytes_at m' s (replicate count (u8 c)) /\
    same_outside m m' s (Z.of_nat count).
Proof.
  revert m s. induction count as [|count IH]; intros m s Hm; cbn [fill_bytes replicate].
  { exists m. split; [done|]. split; [apply bytes_at_nil|done]. }
  destruct (store_spec m s (u8 c)) as (m1 & -> & H1 & Ho); [apply Hm; lia|]. cbn [mbind option_bind].
  destruct (IH m1 (s + 1)) as (m' & -> & Hb & Hso).
  { intros b Hb. rewrite Ho by lia. apply Hm. lia. }
  exists m'. split; [done|]. split.
  - apply bytes_at_cons. split; [by rewrite Hso by lia|done].
  - intros b Hn. rewrite Hso by lia. apply Ho. lia.
Qed.

Lemma fill_words_spec words m s c :
  mapped m s (8 * Z.of_nat words) ->
  ∃ m', fill_words words m s (fill_word 8 0 c) = Some m' /\
    bytes_at m' s (replicate (8 * words) (u8 c)) /\ same_outside m m' s (8 * Z.of_nat words).
Proof.
  revert m s. induction words as [|words IH]; intros m s Hm; cbn [fill_words].
  { exists m. split; [done|]. split; [apply bytes_at_nil|done]. }
  rewrite fill_word_bytes.
  destruct (store_n_spec m s (replicate 8 (u8 c))) as (m1 & -> & H1 & Ho).
  { rewrite length_replicate. intros b Hb. apply Hm. lia. }
  rewrite length_replicate in Ho. cbn [mbind option_bind].
  destruct (IH m1 (s + 8)) as (m' & -> & Hb & Hso).
  { intros b Hb. rewrite Ho by lia. apply Hm. lia. }
  exists m'. split; [done|]. split.
  - replace (8 * S words)%nat with (8 + 8 * words)%nat by lia. rewrite replicate_add, bytes_at_app.
    rewrite length_replicate. split; [|done].
    eapply bytes_at_outside; [exact Hso| |exact H1]. rewrite length_replicate. lia.
  - intros b Hn. rewrite Hso by lia. apply Ho. lia.
Qed.

(** Scanning in two parts. *)
Lemma check_bytes8_app a b m p v :
  0 < p ->
  check_bytes8 (a + b) m p v =
  (r ← check_bytes8 a m p v;
   if negb (r =? NULL) then Some r else check_bytes8 b m (p + Z.of_nat a) v).
Proof.
  revert p. induction a as [|a IH]; intros p Hp; cbn [Nat.add check_bytes8].
  - cbn [mbind option_bind]. change (NULL =? NULL) with true. by rewrite Z.add_0_r.
  - destruct (m !! p) as [x|]; [|done]. cbn [mbind option_bind].
    destruct (Z.eqb_spec x v); cbn [negb].
    + rewrite IH by lia. destruct (check_bytes8 a m (p + 1) v); [|done]. cbn [mbind option_bind].
      destruct (negb _); [done|]. f_equal. lia.
    + cbn [mbind option_bind]. unfold NULL. destruct (Z.eqb_spec p 0); [lia|done].
Qed.

Lemma check_bytes8_same n m p v :
  bytes_at m p (replicate n v) -> check_bytes8 n m p v = Some NULL.
Proof.
  revert p. induction n as [|n IH]; intros p H; [done|]. cbn [check_bytes8 replicate] in *.
  apply bytes_at_cons in H as [Hv H]. rewrite Hv. cbn [mbind option_bind]. rewrite Z.eqb_refl. cbn [negb].
  by apply IH.
Qed.

Lemma check_bytes8_diff m p v l :
  bytes_at m p l -> l <> replicate (length l) v ->
  ∃ i, (i < length l)%nat /\ check_bytes8 (length l) m p v = Some (p + Z.of_nat i).
Proof.
  revert p. induction l as [|x l IH]; intros p H Hne; [done|]. cbn [check_bytes8 length replicate] in *.
  apply bytes_at_cons in H as [Hx H]. rewrite Hx. cbn [mbind option_bind].
  destruct (Z.eqb_spec x v) as [->|]; cbn [negb].
  - destruct (IH (p + 1) H) as (i & Hi & ->); [congruence|]. exists (S i). split; [lia|]. f_equal. lia.
  - exists 0%nat. split; [lia|]. f_equal. lia.
Qed.

Lemma check_words_spec words m p v rest :
  0 < p -> 0 <= v < 256 -> mapped m p (8 * Z.of_nat words) ->
  ∃ q d, check_words words m p (value64 v) = Some (q, d) /\
    check_bytes8 (8 * words + rest) m p v =
    (if d : bool then check_bytes8 8 m q v else check_bytes8 rest m q v).
Proof.
  intros Hp Hv. revert p Hp. induction words as [|words IH]; intros p Hp Hm; cbn [check_words].
  { eexists _, _. split; [done|]. done. }
  assert (∃ l, length l = 8%nat /\ bytes_at m p l) as (l & Hl & Hb).
  { destruct (mapped_bytes m p 8) as (l & Hl & Hb); [intros b Hb; apply Hm; lia|]. by exists l. }
  pose proof (load_n_spec m p l Hb) as Hload. rewrite Hl in Hload. rewrite Hload. cbn [mbind option_bind].
  rewrite value64_bytes by done.
  replace (8 * S words + rest)%nat with (8 + (8 * words + rest))%nat by lia.
  rewrite check_bytes8_app by done. case_bool_decide as Heq.
  - subst l. rewrite (check_bytes8_same 8) by done. cbn [mbind option_bind]. change (NULL =? NULL) with true.
    cbn [negb]. apply IH; [lia|]. intros b Hb'. apply Hm. lia.
  - eexists _, _. split; [done|].
    destruct (check_bytes8_diff m p v l Hb) as (i & Hi & Hc); [by rewrite Hl|]. rewrite Hl in Hc.
    rewrite Hc. cbn [mbind option_bind]. unfold NULL. destruct (Z.eqb_spec (p + Z.of_nat i) 0); [lia|done].
Qed.

(** ** White space *)

Fixpoint drop_spaces (s : list Z) : list Z :=
  match s with
  | c :: s' => if isspace c then drop_spaces s' else s
  | [] => []
  end.

(** [strim] on lists of characters. *)
Definition strim_list (s : list Z) : list Z := reverse (drop_spaces (reverse (drop_spaces s))).

Lemma drop_spaces_suffix s : ∃ s0, s = s0 ++ drop_spaces s.
Proof.
  induction s as [|c s [s0 IH]]; [by exists []|]. cbn [drop_spaces].
  destruct (isspace c); [|by exists []]. exists (c :: s0). cbn. by f_equal.
Qed.

Lemma skip_spaces_loop_spec m s p fuel :
  cstr_at m p s -> (length s < fuel)%nat ->
  skip_spaces_loop fuel m p = Some (p + Z.of_nat (length s - length (drop_spaces s))).
Proof.
  revert p fuel. induction s as [|c s IH]; intros p [|fuel] H Hf; cbn in Hf; try lia;
    cbn [skip_spaces_loop].
  - apply cstr_at_nil in H. rewrite H. cbn. f_equal. lia.
  - apply cstr_at_cons in H as (Hc & Hr & H). rewrite Hc. cbn [mbind option_bind drop_spaces].
    destruct (isspace c).
    + rewrite (IH (p + 1)) by (done || lia). destruct (drop_spaces_suffix s) as [s0 Hs0].
      assert (length (drop_spaces s) <= length s)%nat by (rewrite Hs0 at 2; length_lia).
      f_equal. cbn [length]. lia.
    + f_equal. cbn [length]. lia.
Qed.

Lemma strim_loop_spec m s l :
  bytes_at m s l ->
  strim_loop (length l) m s = Some (s + Z.of_nat (length (drop_spaces (reverse l))) - 1).
Proof.
  induction l as [|c l IH] using rev_ind; intros H; [cbn; f_equal; lia|].
  apply bytes_at_app in H as [H Hc]. apply bytes_at_cons in Hc as [Hc _].
  rewrite length_app, Nat.add_comm, reverse_app. cbn [length Nat.add strim_loop reverse app drop_spaces].
  rewrite Hc. cbn [mbind option_bind]. change (reverse [c]) with [c]. cbn [app drop_spaces].
  destruct (isspace c); [by apply IH|]. f_equal. cbn [length]. rewrite length_reverse. lia.
Qed.

Lemma drop_spaces_reverse_prefix s : ∃ s0, s = reverse (drop_spaces (reverse s)) ++ s0.
Proof.
  destruct (drop_spaces_suffix (reverse s)) as [s0 H]. exists (reverse s0).
  rewrite <-reverse_app, <-H. by rewrite reverse_involutive.
Qed.

Lemma strcmp_value m p q s t :
  cstr_at m p s -> cstr_at m q t -> strcmp m p q = Some (strcmp_list s t).
Proof. intros Hs Ht. apply strcmp_loop_spec; [done|done|]. by apply (cstr_at_length m p). Qed.

(** ** Theorems *)

(** [memmove] copies the area, overlapping or not, and changes nothing
    else. *)
Theorem memmove_correct (m : mem) (dest src : Z) (l : list Z) :
  bytes_at m src l -> mapped m dest (Z.of_nat (length l)) ->
  ∃ m', memmove m dest src (length l) = Some (m', dest) /\ bytes_at m' dest l /\
    same_outside m m' dest (Z.of_nat (length l)).
Proof.
  intros Hs Hd. unfold memmove. destruct (Z.eqb_spec src dest) as [->|Hne].
  { exists m. split; [done|]. by split. }
  destruct (Z.leb_spec dest src).
  - destruct (copy_up_spec m dest src l Hs Hd) as (m' & -> & ? & ?); [lia|]. by exists m'.
  - destruct (copy_down_spec m dest src l Hs Hd) as (m' & -> & ? & ?); [lia|]. by exists m'.
Qed.

(** [memcpy], one word at a time when both areas are aligned, copies areas that
    do not overlap (or that overlap with the destination below). *)
Theorem memcpy_correct (m : mem) (dest src : Z) (l : list Z) :
  bytes_at m src l -> mapped m dest (Z.of_nat (length l)) ->
  (dest <= src \/ src + Z.of_nat (length l) <= dest) ->
  ∃ m', memcpy m dest src (length l) = Some (m', dest) /\ bytes_at m' dest l /\
    same_outside m m' dest (Z.of_nat (length l)).
Proof.
  intros Hs Hd Hov. unfold memcpy. destruct (Z.eqb_spec src dest) as [->|Hne].
  { exists m. split; [done|]. by split. }
  destruct (_ =? 0).
  - destruct (copy_all_spec m dest src l (length l / 8)) as (m1 & m' & -> & Hc & ? & ?); try done.
    { pose proof (Nat.Div0.mul_div_le (length l) 8). lia. }
    cbn [mbind option_bind]. rewrite Hc. cbn [mbind option_bind]. by exists m'.
  - destruct (copy_up_spec m dest src l Hs Hd Hov) as (m' & -> & ? & ?). by exists m'.
Qed.

(** [memset] fills the area with the low byte of [c], whether it works with
    words or with bytes. *)
Theorem memset_correct (m : mem) (s c : Z) (count : nat) :
  mapped m s (Z.of_nat count) ->
  ∃ m', memset m s c count = Some (m', s) /\ bytes_at m' s (replicate count (u8 c)) /\
    same_outside m m' s (Z.of_nat count).
Proof.
  intros Hm. unfold memset. destruct (_ =? 0).
  - pose proof (Nat.Div0.mul_div_le count 8) as Hle. set (w := (count / 8)%nat) in *.
    destruct (fill_words_spec w m s c) as (m1 & -> & Hb1 & Ho1); [intros b Hb; apply Hm; lia|].
    cbn [mbind option_bind].
    destruct (fill_bytes_spec (count - 8 * w) m1 (s + 8 * Z.of_nat w) c) as (m' & -> & Hb2 & Ho2).
    { intros b Hb. rewrite Ho1 by lia. apply Hm. lia. }
    cbn [mbind option_bind]. exists m'. split; [done|]. split.
    + replace (replicate count (u8 c)) with (replicate (8 * w) (u8 c) ++ replicate (count - 8 * w) (u8 c))
        by (rewrite <-replicate_add; f_equal; lia).
      apply bytes_at_app. rewrite length_replicate.
      replace (s + Z.of_nat (8 * w)) with (s + 8 * Z.of_nat w) by lia. split; [|done].
      eapply bytes_at_outside; [exact Ho2| |exact Hb1]. rewrite length_replicate. lia.
    + intros b Hn. rewrite Ho2 by lia. apply Ho1. lia.
  - destruct (fill_bytes_spec count m s c Hm) as (m' & -> & ? & ?). by exists m'.
Qed.

(** The word-wise [memchr_inv] finds the same byte as the byte-wise scan
    [check_bytes8] of the whole area. *)
Theorem memchr_inv_equiv (m : mem) (start c : Z) (bytes : nat) :
  0 < start -> mapped m start (Z.of_nat bytes) ->
  memchr_inv m start c bytes = check_bytes8 bytes m start (u8 c).
Proof.
  intros Hp Hm. unfold memchr_inv. destruct (Nat.leb_spec bytes 16) as [|Hbig]; [done|].
  set (prefix := match Z.to_nat (start mod 8) with O => O | S _ => (8 - Z.to_nat (start mod 8))%nat end).
  assert (prefix <= 8)%nat as Hpre by (unfold prefix; destruct (Z.to_nat (start mod 8)); lia).
  clearbody prefix.
  transitivity (check_bytes8 (prefix + (bytes - prefix)) m start (u8 c)); [|f_equal; lia].
  rewrite check_bytes8_app by done.
  destruct (check_bytes8 prefix m start (u8 c)) as [r|] eqn:Er; [|done]. cbn [mbind option_bind].
  destruct (negb (r =? NULL)); [done|].
  set (rest := (bytes - prefix)%nat).
  assert (rest = 8 * (rest / 8) + rest mod 8)%nat as Hrest by (apply Nat.div_mod_eq).
  destruct (check_words_spec (rest / 8) m (start + Z.of_nat prefix) (u8 c) (rest mod 8))
    as (q & d & -> & Heq); [lia|apply u8_range| |].
  { intros b Hb. apply Hm. unfold rest in *. pose proof (Nat.Div0.mul_div_le (bytes - prefix) 8). lia. }
  rewrite <-Hrest in Heq. rewrite Heq. by cbn [mbind option_bind].
Qed.

(** [strcmp] of two strings in memory is zero exactly when they are equal,
    and its value depends on the characters only. *)
Theorem strcmp_correct (m : mem) (p q : Z) (s t : list Z) :
  cstr_at m p s -> cstr_at m q t ->
  strcmp m p q = Some (strcmp_list s t) /\ (strcmp_list s t = 0 <-> s = t).
Proof.
  intros Hs Ht. split.
  - by apply strcmp_value.
  - apply strcmp_list_zero; [by destruct Hs|by destruct Ht].
Qed.

(** The sign of [strcmp] is the lexicographic order for ASCII strings. *)
Theorem strcmp_ascii_order (m : mem) (p q : Z) (s t : list Z) :
  cstr_at m p s -> cstr_at m q t ->
  Forall (λ c, 0 < c < 128) s -> Forall (λ c, 0 < c < 128) t ->
  ∃ r, strcmp m p q = Some r /\ Z.compare r 0 = lex_compare s t.
Proof.
  intros Hs Ht Has Hat. exists (strcmp_list s t). split.
  - by apply strcmp_value.
  - by apply strcmp_list_ascii.
Qed.

(** Outside ASCII the sign can be wrong: two characters that differ by 128
    or more compare the wrong way round, because the difference is kept in a
    [signed char]. *)
Theorem strcmp_high_byte_inverted (m : mem) (p q a b : Z) (s t : list Z) :
  cstr_at m p (a :: s) -> cstr_at m q (b :: t) -> 128 < b - a ->
  ∃ r, strcmp m p q = Some r /\ 0 < r /\ lex_compare (a :: s) (b :: t) = Lt.
Proof.
  intros Hs Ht Hab. exists (strcmp_list (a :: s) (b :: t)).
  pose proof Hs as (_ & Ha & _)%cstr_at_cons. pose proof Ht as (_ & Hb & _)%cstr_at_cons.
  split; [by apply strcmp_value|]. cbn [strcmp_list lex_compare].
  destruct (Z.eqb_spec a b); [lia|]. split.
  - unfold swrap. change (2 ^ (8 - 1)) with 128. change (2 ^ 8) with 256.
    rewrite <-(Z.mod_add (a - b + 128) 1 256) by lia. rewrite Z.mod_small; lia.
  - destruct (Z.compare_spec a b); [lia|done|lia].
Qed.

(** [strstr] returns the address of the first occurrence, and NULL when
    there is none. *)
Theorem strstr_correct (m : mem) (p q : Z) (s t : list Z) :
  cstr_at m p s -> cstr_at m q t ->
  ∃ r, strstr m p q = Some r /\ found_at p r t s.
Proof.
  intros Hs Ht. unfold strstr. rewrite (strlen_spec m q t Ht). cbn [mbind option_bind].
  destruct (Z.eqb_spec (Z.of_nat (length t)) 0) as [E|E].
  { destruct t; [|cbn in E; lia]. exists p. split; [done|]. right. exists 0%nat.
    split; [lia|]. split; [|lia]. split; [cbn; lia|done]. }
  rewrite (strlen_spec m p s Hs). cbn [mbind option_bind]. rewrite Nat2Z.id.
  destruct Hs as [Hs _]. apply bytes_at_app in Hs as [Hs _].
  destruct Ht as [Ht _]. apply bytes_at_app in Ht as [Ht _].
  destruct (decide (length t <= length s)%nat) as [Hle|Hgt].
  - destruct (strstr_loop_spec m q s t p (Z.to_nat (Z.of_nat (length s) - Z.of_nat (length t) + 1)) 0)
      as (r & Hr & Hf); [done|done|lia|lia|]. rewrite Z.add_0_r in Hr. by exists r.
  - replace (Z.to_nat _) with 0%nat by lia. exists NULL. split; [done|]. left. split; [done|].
    intros i [Hi _]. lia.
Qed.

(** [strsep] cuts the string at its first delimiter: the token and the rest
    are then strings of their own, and together with the delimiter they are
    the old string. *)
Theorem strsep_correct (m : mem) (p a : Z) (s ct : list Z) :
  0 < p -> cstr_at m p s -> cstr_at m a ct ->
  (a + Z.of_nat (length ct) < p \/ p + Z.of_nat (length s) < a) ->
  (strsep m p a = Some (m, p, NULL) /\ Forall (λ c, c ∉ ct) s) \/
  (∃ tok d rest m', s = tok ++ d :: rest /\ d ∈ ct /\ Forall (λ c, c ∉ ct) tok /\
     strsep m p a = Some (m', p, p + Z.of_nat (length tok) + 1) /\
     cstr_at m' p tok /\ cstr_at m' (p + Z.of_nat (length tok) + 1) rest /\ cstr_at m' a ct).
Proof.
  intros Hp Hs Hct Hov. unfold strsep, strpbrk, NULL. destruct (Z.eqb_spec p 0); [lia|].
  destruct (strpbrk_loop_spec m ct a s p (size m) Hct Hs (cstr_at_length _ _ _ Hs))
    as [[-> Hno]|(tok & d & rest & -> & Hno & Hd & ->)].
  { left. by cbn. }
  right. cbn [mbind option_bind]. destruct (Z.eqb_spec (p + Z.of_nat (length tok)) 0); [lia|].
  pose proof Hs as [Hb Hok]. rewrite <-app_assoc in Hb. cbn [app] in Hb.
  apply bytes_at_app in Hb as [Hb1 Hb2]. apply bytes_at_cons in Hb2 as [Hbd Hb2].
  apply Forall_app in Hok as [Hok1 [_ Hok2]%Forall_cons].
  destruct (store_spec m (p + Z.of_nat (length tok)) 0) as (m' & -> & Hz & Ho); [by eexists|].
  cbn [mbind option_bind]. exists tok, d, rest, m'. split_and!; try done.
  - split; [|done]. apply bytes_at_app. split.
    + intros i Hi. rewrite Ho by lia. by apply Hb1.
    + apply bytes_at_cons. split; [done|apply bytes_at_nil].
  - split; [|done]. intros i Hi. rewrite Ho by lia. by apply Hb2.
  - destruct Hct as [Hct Hok]. split; [|done]. intros i Hi. rewrite Ho by length_lia. by apply Hct.
Qed.

(** [strim] leaves the string without its leading and trailing white space. *)
Theorem strim_correct (m : mem) (p : Z) (s : list Z) :
  cstr_at m p s ->
  ∃ m' q, strim m p = Some (m', q) /\ cstr_at m' q (strim_list s).
Proof.
  intros Hs. unfold strim, skip_spaces.
  rewrite (skip_spaces_loop_spec m s p) by (done || by apply (cstr_at_length m p)).
  cbn [mbind option_bind]. destruct (drop_spaces_suffix s) as [s0 Hs0].
  assert (length s - length (drop_spaces s) = length s0)%nat as Hl0 by (rewrite Hs0 at 1; length_lia).
  rewrite Hl0. set (q := p + Z.of_nat (length s0)). unfold strim_list.
  assert (cstr_at m q (drop_spaces s)) as Hq by (apply cstr_at_suffix; by rewrite <-Hs0).
  generalize dependent (drop_spaces s). intros t Ht Hl0 Hq. rewrite (strlen_spec m q t Hq).
  cbn [mbind option_bind]. destruct (Z.eqb_spec (Z.of_nat (length t)) 0) as [E|E].
  { destruct t; [|cbn in E; lia]. by exists m, q. }
  rewrite Nat2Z.id. pose proof Hq as [Hb Hok]. apply bytes_at_app in Hb as [Hb Hz].
  rewrite (strim_loop_spec m q t Hb). cbn [mbind option_bind].
  destruct (drop_spaces_reverse_prefix t) as [s1 Hs1].
  set (u := reverse (drop_spaces (reverse t))) in *.
  assert (length (drop_spaces (reverse t)) = length u) as Hlu by (unfold u; by rewrite length_reverse).
  rewrite Hlu. replace (q + Z.of_nat (length u) - 1 + 1) with (q + Z.of_nat (length u)) by lia.
  destruct (store_spec m (q + Z.of_nat (length u)) 0) as (m' & -> & Hz' & Ho).
  { destruct Hq as [Hq _]. apply (bytes_at_mapped _ _ _ Hq). rewrite length_app. cbn.
    assert (length t = length u + length s1)%nat by (rewrite Hs1 at 1; length_lia). lia. }
  cbn [mbind option_bind]. exists m', q. split; [done|]. split.
  - apply bytes_at_app. split.
    + intros i Hi. rewrite Ho by lia. rewrite Hs1 in Hb. apply bytes_at_app in Hb as [Hb _]. by apply Hb.
    + apply bytes_at_cons. split; [done|apply bytes_at_nil].
  - rewrite Hs1 in Hok. by apply Forall_app in Hok as [Hok _].
Qed.

Theorem strcpy_correct (m : mem) (dest src : Z) (s : list Z) :
  cstr_at m src s -> mapped m dest (Z.of_nat (length s) + 1) ->
  (dest <= src \/ src + Z.of_nat (length s) < dest) ->
  ∃ m', strcpy m dest src = Some (m', dest) /\ cstr_at m' dest s /\
    same_outside m m' dest (Z.of_nat (length s) + 1).
Proof.
  intros Hs Hd Hov. unfold strcpy.
  destruct (strcpy_loop_spec m dest s src (size m) Hs Hd Hov) as (m' & -> & ? & ?);
    [by apply (cstr_at_length m src)|]. by exists m'.
Qed.

(** [strncpy] copies [count] characters at most, with the NUL when it is among
    the first [count], and never pads. *)
Theorem strncpy_correct (m : mem) (dest src : Z) (s : list Z) (count : nat) :
  let copied := take count (s ++ [0]) in
  cstr_at m src s -> mapped m dest (Z.of_nat (length copied)) ->
  (dest <= src \/ src + Z.of_nat (length copied) <= dest) ->
  ∃ m', strncpy m dest src count = Some (m', dest) /\ bytes_at m' dest copied /\
    same_outside m m' dest (Z.of_nat (length copied)).
Proof.
  intros copied Hs Hd Hov. unfold strncpy. destruct Hs as [Hb Hok].
  destruct (strncpy_loop_spec count copied m dest src) as (m' & -> & ? & ?); try done.
  { by apply ncopied_take. }
  { unfold copied. rewrite <-(take_drop count (s ++ [0])) in Hb. by apply bytes_at_app in Hb as [? _]. }
  by exists m'.
Qed.

(** ** Witnesses *)

(** "banana", ",;" and "nan" at 16, 32 and 40, and a byte 200 with its NUL at
    48, in a zeroed memory. *)
Definition ex_bytes : mem :=
  mem_of 16 ([98; 97; 110; 97; 110; 97; 0] ++ replicate 9 7 ++ [44; 59; 0] ++ replicate 5 0
             ++ [110; 97; 110; 0] ++ replicate 4 0 ++ [200; 0] ++ replicate 14 0).

Lemma memmove_correct_witness :
  ∃ m', memmove ex_bytes 18 16 6 = Some (m', 18) /\ bytes_at m' 18 [98; 97; 110; 97; 110; 97] /\
    same_outside ex_bytes m' 18 6.
Proof.
  apply (memmove_correct ex_bytes 18 16 [98; 97; 110; 97; 110; 97]).
  - apply load_n_bytes_at. vm_compute. reflexivity.
  - eapply load_n_mapped. vm_compute. reflexivity.
Defined.

Lemma memchr_inv_equiv_witness :
  memchr_inv ex_bytes 23 7 20 = check_bytes8 20 ex_bytes 23 (u8 7) /\ memchr_inv ex_bytes 23 7 20 = Some 32.
Proof.
  split; [|vm_compute; reflexivity]. apply (memchr_inv_equiv ex_bytes 23 7 20).
  - lia.
  - eapply load_n_mapped. vm_compute. reflexivity.
Defined.

Lemma strcmp_correct_witness :
  strcmp ex_bytes 16 40 = Some (strcmp_list [98; 97; 110; 97; 110; 97] [110; 97; 110]) /\
  (strcmp_list [98; 97; 110; 97; 110; 97] [110; 97; 110] = 0 <->
   [98; 97; 110; 97; 110; 97] = [110; 97; 110]).
Proof.
  apply (strcmp_correct ex_bytes 16 40); apply load_n_cstr_at; vm_compute; reflexivity.
Defined.

Lemma strcmp_high_byte_inverted_witness :
  ∃ r, strcmp ex_bytes 32 48 = Some r /\ 0 < r /\ lex_compare [44; 59] [200] = Lt.
Proof.
  apply (strcmp_high_byte_inverted ex_bytes 32 48 44 200 [59] []);
    [apply load_n_cstr_at; vm_compute; reflexivity..|lia].
Defined.

Lemma strstr_correct_witness :
  ∃ r, strstr ex_bytes 16 40 = Some r /\ found_at 16 r [110; 97; 110] [98; 97; 110; 97; 110; 97].
Proof.
  apply (strstr_correct ex_bytes 16 40); apply load_n_cstr_at; vm_compute; reflexivity.
Defined.

Example strstr_ex : strstr ex_bytes 16 40 = Some 18.
Proof. vm_compute. reflexivity. Qed.

(** "nan" is cut at its first 'a' or 'b' when the delimiters are "a". *)
Lemma strsep_correct_witness :
  let m := mem_of 16 [98; 97; 110; 0; 97; 0] in
  (strsep m 16 20 = Some (m, 16, NULL) /\ Forall (λ c, c ∉ [97]) [98; 97; 110]) \/
  (∃ tok d rest m', [98; 97; 110] = tok ++ d :: rest /\ d ∈ [97] /\ Forall (λ c, c ∉ [97]) tok /\
     strsep m 16 20 = Some (m', 16, 16 + Z.of_nat (length tok) + 1) /\
     cstr_at m' 16 tok /\ cstr_at m' (16 + Z.of_nat (length tok) + 1) rest /\ cstr_at m' 20 [97]).
Proof.
  apply (strsep_correct (mem_of 16 [98; 97; 110; 0; 97; 0]) 16 20 [98; 97; 110] [97]);
    [lia|apply load_n_cstr_at; vm_compute; reflexivity..|cbn; lia].
Defined.
