(* ===== verification/Qsort.v ===== *)
(** * Shell sort ([lib/qsort.c])

    The source works on bytes: [wgap], [i], [j] and [nel] are multiples of
    [width], and the innermost loop exchanges two elements byte by byte.  The
    model divides these quantities by [width] and exchanges whole elements.
    The comparison is a parameter, as the function pointer is; only its sign
    is used. *)

From S2P Require Import Prelude.

Section qsort.
Context {A : Type} (comp : A -> A -> Z).

(** [do { wgap = 3 * wgap + 1; } while (wgap < (nel-1)/3);] *)
Fixpoint first_gap (fuel : nat) (wgap nel : nat) : nat :=
  match fuel with
  | O => wgap
  | S fuel =>
      let wgap := (3 * wgap + 1)%nat in
      if (wgap <? (nel - 1) / 3)%nat then first_gap fuel wgap nel else wgap
  end.

(** The innermost [do ... while (j >= wgap)]: moves the element at [j] down
    by steps of [wgap] until it is in place. *)
Fixpoint sift (fuel : nat) (l : list A) (wgap j : nat) : option (list A) :=
  match fuel with
  | O => None
  | S fuel =>
      let j := (j - wgap)%nat in
      a ← l !! j;
      b ← l !! (j + wgap)%nat;
      if comp a b <=? 0 then Some l
      else
        let l := <[(j + wgap)%nat := a]> (<[j := b]> l) in
        if (wgap <=? j)%nat then sift fuel l wgap j else Some l
  end.

(** [do { j = i; ...; i += width; } while (i < nel);] *)
Fixpoint pass (fuel : nat) (l : list A) (wgap i : nat) : option (list A) :=
  match fuel with
  | O => None
  | S fuel =>
      l ← sift (S i) l wgap i;
      if (S i <? length l)%nat then pass fuel l wgap (S i) else Some l
  end.

(** [do { ...; wgap = (wgap - width)/3; } while (wgap);] *)
Fixpoint passes (fuel : nat) (l : list A) (wgap : nat) : option (list A) :=
  match fuel with
  | O => None
  | S fuel =>
      l ← pass (length l) l wgap wgap;
      match ((wgap - 1) / 3)%nat with
      | O => Some l
      | wgap => passes fuel l wgap
      end
  end.

Definition qsort (l : list A) : option (list A) :=
  if (1 <? length l)%nat then
    passes (length l) l (first_gap (length l) 0 (length l))
  else Some l.
End qsort.

(** ** The gaps *)

(** 1, 4, 13, 40, ...: the gaps of the sort. *)
Inductive is_gap : nat -> Prop :=
| gap_one : is_gap 1
| gap_next g : is_gap g -> is_gap (3 * g + 1).

Lemma is_gap_pos g : is_gap g -> (1 <= g)%nat.
Proof. destruct 1; lia. Qed.

Lemma is_gap_down g : is_gap g -> ((g - 1) / 3 = 0)%nat /\ g = 1%nat \/ is_gap ((g - 1) / 3).
Proof.
  destruct 1 as [|g Hg]; [by left|]. right.
  replace (3 * g + 1 - 1)%nat with (g * 3)%nat by lia. by rewrite Nat.div_mul by lia.
Qed.

Lemma first_gap_spec fuel wgap nel :
  (wgap = 0%nat \/ is_gap wgap) -> (1 < nel)%nat -> (3 * wgap + 1 < nel)%nat -> (nel <= fuel + wgap)%nat ->
  is_gap (first_gap fuel wgap nel) /\ (first_gap fuel wgap nel < nel)%nat.
Proof.
  revert wgap. induction fuel as [|fuel IH]; intros wgap Hg Hn Hlt Hf; [lia|]. cbn [first_gap].
  assert (is_gap (3 * wgap + 1)) as Hnext by (destruct Hg as [->|Hg]; [apply gap_one|by apply gap_next]).
  destruct (Nat.ltb_spec (3 * wgap + 1) ((nel - 1) / 3)) as [H|H]; [|by split].
  apply IH; [by right|done| |lia].
  pose proof (Nat.Div0.mul_div_le (nel - 1) 3). lia.
Qed.

Section facts.
Context {A : Type} (comp : A -> A -> Z).

Lemma swap_Permutation (l : list A) i j a b :
  l !! i = Some a -> l !! j = Some b -> i <> j -> <[j := a]> (<[i := b]> l) ≡ₚ l.
Proof.
  intros Hi Hj Hne. apply Permutation_inj. split.
  { by rewrite !length_insert. }
  exists (λ k, if decide (k = i) then j else if decide (k = j) then i else k). split.
  - intros x y. repeat case_decide; congruence.
  - intros k. repeat case_decide; subst.
    + rewrite list_lookup_insert_ne by done.
      by rewrite list_lookup_insert_eq by (by apply lookup_lt_Some in Hi).
    + rewrite list_lookup_insert_eq; [done|]. rewrite length_insert. by apply lookup_lt_Some in Hj.
    + by rewrite !list_lookup_insert_ne.
Qed.

(** Every pass stays in bounds and permutes the array, whatever the
    comparison answers. *)
Lemma sift_perm fuel l g j :
  (1 <= g <= j)%nat -> (j < length l)%nat -> (j < fuel)%nat ->
  ∃ l', sift comp fuel l g j = Some l' /\ l' ≡ₚ l.
Proof.
  revert l j. induction fuel as [|fuel IH]; intros l j Hg Hj Hf; [lia|]. cbn [sift].
  destruct (lookup_lt_is_Some_2 l (j - g)%nat) as [a Ha]; [lia|].
  replace (j - g + g)%nat with j by lia.
  destruct (lookup_lt_is_Some_2 l j) as [b Hb]; [lia|].
  rewrite Ha, Hb. cbn [mbind option_bind]. destruct (comp a b <=? 0); [by exists l|].
  pose proof (swap_Permutation l (j - g) j a b Ha Hb ltac:(lia)) as Hp.
  destruct (Nat.leb_spec g (j - g)) as [Hle|_]; [|by eexists].
  destruct (IH (<[j := a]> (<[(j - g)%nat := b]> l)) (j - g)%nat) as (l' & Hl' & Hp').
  { lia. } { rewrite !length_insert. lia. } { lia. }
  exists l'. split; [done|]. by rewrite Hp'.
Qed.

Lemma pass_perm fuel l g i :
  (1 <= g <= i)%nat -> (i < length l)%nat -> (length l <= fuel + i)%nat ->
  ∃ l', pass comp fuel l g i = Some l' /\ l' ≡ₚ l.
Proof.
  revert l i. induction fuel as [|fuel IH]; intros l i Hg Hi Hf; [lia|]. cbn [pass].
  destruct (sift_perm (S i) l g i) as (l1 & -> & Hp); [lia..|]. cbn [mbind option_bind].
  rewrite (Permutation_length Hp). destruct (Nat.ltb_spec (S i) (length l)); [|by exists l1].
  destruct (IH l1 (S i)) as (l' & -> & Hp').
  { lia. } { by rewrite (Permutation_length Hp). } { rewrite (Permutation_length Hp). lia. }
  exists l'. split; [done|]. by rewrite Hp'.
Qed.

(** The passes end with gap one; [P] is what that last pass establishes. *)
Lemma passes_last (P : list A -> Prop) fuel l g :
  (∀ l, (1 < length l)%nat -> ∀ l', pass comp (length l) l 1 1 = Some l' -> P l') ->
  is_gap g -> (g < length l)%nat -> (g <= fuel)%nat ->
  ∃ l', passes comp fuel l g = Some l' /\ l' ≡ₚ l /\ P l'.
Proof.
  intros HP. revert l g. induction fuel as [|fuel IH]; intros l g Hg Hl Hf;
    pose proof (is_gap_pos g Hg) as Hpos; [lia|]. cbn [passes].
  destruct (pass_perm (length l) l g g) as (l1 & Hpass & Hp); [lia..|].
  rewrite Hpass. cbn [mbind option_bind].
  destruct (is_gap_down g Hg) as [[-> ->]|Hg'].
  - exists l1. split; [done|]. split; [done|]. by eapply HP.
  - pose proof (is_gap_pos _ Hg') as Hpos'. pose proof (Nat.Div0.mul_div_le (g - 1) 3).
    destruct (IH l1 ((g - 1) / 3)%nat Hg') as (l' & Hl' & Hp' & HPl').
    { rewrite (Permutation_length Hp). lia. } { lia. }
    destruct ((g - 1) / 3)%nat as [|k]; [lia|]. exists l'. split; [done|].
    split; [by rewrite Hp'|done].
Qed.
End facts.

(** ** Sortedness, for a comparison that is a total preorder *)

Section sorted.
Context {A : Type} (comp : A -> A -> Z).

Definition comp_le (a b : A) : Prop := comp a b <= 0.

Context (comp_total : ∀ a b, comp_le a b \/ comp_le b a)
        (comp_trans : ∀ a b c, comp_le a b -> comp_le b c -> comp_le a c).

(** One insertion of the last pass: [x] is moved into the sorted prefix. *)
Lemma sift_insert fuel l1 x l2 :
  StronglySorted comp_le l1 -> l1 <> [] -> (length l1 < fuel)%nat ->
  ∃ l1', sift comp fuel (l1 ++ x :: l2) 1 (length l1) = Some (l1' ++ l2) /\
    StronglySorted comp_le l1' /\ l1' ≡ₚ l1 ++ [x].
Proof.
  revert fuel x l2. induction l1 as [|a l1 IH] using rev_ind; [done|].
  intros [|fuel] x l2 Hs _ Hf; [lia|]. cbn [sift].
  rewrite length_app. cbn [length]. rewrite Nat.add_sub, <-!app_assoc. cbn [app].
  rewrite (list_lookup_middle l1 (x :: l2) a (length l1)) by done. cbn [mbind option_bind].
  assert ((l1 ++ a :: x :: l2) !! (length l1 + 1)%nat = Some x) as ->.
  { rewrite (app_cons_assoc l1 a), list_lookup_middle; [done|]. rewrite length_app. cbn. lia. }
  cbn [mbind option_bind]. destruct (Z.leb_spec (comp a x) 0) as [Hle|Hgt].
  - exists (l1 ++ [a; x]). split; [by rewrite <-!app_assoc|]. split; [|done].
    apply StronglySorted_app in Hs as (Hax & Hs1 & _).
    apply StronglySorted_app. split_and!.
    + intros y z Hy [->|[->|[]%elem_of_nil]%elem_of_cons]%elem_of_cons; [set_solver|].
      apply (comp_trans y a); [set_solver|done].
    + done.
    + apply StronglySorted_cons. split; [by constructor; [|constructor]|repeat constructor].
  - rewrite insert_app_r_alt, Nat.sub_diag by lia. cbn.
    rewrite insert_app_r_alt by lia. replace (length l1 + 1 - length l1)%nat with 1%nat by lia. cbn.
    assert (comp_le x a) as Hxa by (destruct (comp_total x a) as [|H]; [done|unfold comp_le in H; lia]).
    apply StronglySorted_app in Hs as (Hax & Hs1 & _).
    destruct l1 as [|b l1].
    + cbn. exists [x; a]. split; [done|]. split; [|apply Permutation_swap].
      apply StronglySorted_cons. split; [by constructor; [|constructor]|repeat constructor].
    + destruct (Nat.leb_spec 1 (length (b :: l1))); [|cbn in *; lia].
      destruct (IH fuel x (a :: l2)) as (l1' & Hl' & Hs' & Hp); [done|done|length_lia|].
      exists (l1' ++ [a]). rewrite Hl'. split; [by rewrite <-app_assoc|]. split.
      * apply StronglySorted_app. split_and!; [|done|repeat constructor].
        intros y z Hy Hz. apply list_elem_of_singleton in Hz as ->. rewrite Hp in Hy.
        apply elem_of_app in Hy as [Hy|Hy]; [set_solver|]. by apply list_elem_of_singleton in Hy as ->.
      * rewrite Hp, <-app_assoc. cbn. by rewrite (Permutation_swap x a []).
Qed.

Lemma pass_sorts fuel l1 l2 :
  StronglySorted comp_le l1 -> l1 <> [] -> l2 <> [] -> (length l2 <= fuel)%nat ->
  ∃ l', pass comp fuel (l1 ++ l2) 1 (length l1) = Some l' /\ StronglySorted comp_le l'.
Proof.
  revert l1 l2. induction fuel as [|fuel IH]; intros l1 [|x l2] Hs Hne1 Hne2 Hf; cbn in Hf; try done; try lia.
  cbn [pass]. destruct (sift_insert (S (length l1)) l1 x l2 Hs Hne1 ltac:(lia)) as (l1' & -> & Hs' & Hp).
  cbn [mbind option_bind]. apply Permutation_length in Hp. rewrite length_app in Hp. cbn in Hp.
  destruct (Nat.ltb_spec (S (length l1)) (length (l1' ++ l2))) as [Hlt|Hge].
  - replace (S (length l1)) with (length l1') by lia. apply IH; [done| | |lia].
    + intros ->. cbn in Hp. lia.
    + intros ->. length_lia.
  - destruct l2; [|length_lia]. rewrite app_nil_r. by eexists.
Qed.
End sorted.

(** Whatever the comparison says, the result is a rearrangement. *)
Lemma qsort_rearranges {A : Type} (comp : A -> A -> Z) (l : list A) :
  ∃ l', qsort comp l = Some l' /\ l' ≡ₚ l.
Proof.
  unfold qsort. destruct (Nat.ltb_spec 1 (length l)) as [Hl|]; [|by exists l].
  destruct (first_gap_spec (length l) 0 (length l)) as [Hg Hlt]; [by left|lia|lia|lia|].
  destruct (passes_last comp (λ _, True) (length l) l (first_gap (length l) 0 (length l)))
    as (l' & ? & ? & _); [done|done|done|lia|]. by exists l'.
Qed.

(** [qsort] terminates within its bounds on every array and every
    comparison function, and its result is a rearrangement of the array. *)
Theorem qsort_permutation {A : Type} (comp : A -> A -> Z) (l : list A) :
  ∃ l', qsort comp l = Some l' /\ l' ≡ₚ l.
Proof. apply qsort_rearranges. Qed.

(** C22.  With a comparison that is a total preorder the result is sorted. *)
Theorem qsort_sorted {A : Type} (comp : A -> A -> Z) (l : list A) :
  (∀ a b, comp_le comp a b \/ comp_le comp b a) ->
  (∀ a b c, comp_le comp a b -> comp_le comp b c -> comp_le comp a c) ->
  ∃ l', qsort comp l = Some l' /\ l' ≡ₚ l /\ StronglySorted (comp_le comp) l'.
Proof.
  intros Htot Htrans. unfold qsort. destruct (Nat.ltb_spec 1 (length l)) as [Hl|Hs].
  - destruct (first_gap_spec (length l) 0 (length l)) as [Hg Hlt]; [by left|lia|lia|lia|].
    apply passes_last; [|done|done|lia]. clear l Hl Hg Hlt.
    intros [|x l] Hl l' Hpass; cbn in Hl; [lia|].
    destruct (pass_sorts comp Htot Htrans (length (x :: l)) [x] l) as (l'' & Hl'' & Hs).
    { repeat constructor. } { done. } { intros ->. cbn in Hl. lia. } { cbn. lia. }
    cbn [app length] in Hl'', Hpass. rewrite Hl'' in Hpass. by simplify_eq.
  - exists l. split; [done|]. split; [done|].
    destruct l as [|x [|y l]]; cbn in Hs; [constructor|repeat constructor|lia].
Qed.

Lemma qsort_sorted_witness :
  ∃ l', qsort Z.sub [5; 1; 4; 1; 3; 9; 2] = Some l' /\ l' ≡ₚ [5; 1; 4; 1; 3; 9; 2] /\
    StronglySorted (comp_le Z.sub) l'.
Proof. apply (qsort_sorted Z.sub); unfold comp_le; lia. Defined.

Example qsort_ex : qsort Z.sub [5; 1; 4; 1; 3; 9; 2] = Some [1; 1; 2; 3; 4; 5; 9].
Proof. reflexivity. Qed.
