(* ===== verification/Hashtable.v ===== *)
(** * The environment hash table ([lib/hashtable.c], [include/search.h])

    Open addressing with double hashing, deletion by tombstones, and the
    import and export of the whole table as text.  Strings are lists of
    non-NUL characters; [char] is unsigned.  A NULL pointer is [None], and
    so is the pointer of a freed string, which must not be read again: reading
    either is undefined behaviour, as is an access outside the table (the
    outer [None] of the operations).

    What the table calls but does not define is the class [EnvHooks]:
    the allocator behind [strdup], and the initialisation of a new entry from
    the callback and flag lists ([common/env_callback.c],
    [common/env_flags.c]). *)

From S2P Require Import Prelude Cstring Qsort.

Abbreviation cstr := (list Z).

Inductive env_op := env_op_create | env_op_delete | env_op_overwrite.
Inductive ACTION := FIND | ENTER.

(** A callback gets the name, the new value, the operation and the flags; it
    rejects the change with a result other than zero. *)
Definition callback_t : Type := cstr -> option cstr -> env_op -> Z -> Z.

Record ENTRY := Entry {
  key : option cstr;
  data : option cstr;
  callback : option callback_t;
  flags : Z
}.

Record _ENTRY := Slot { used : Z; entry : ENTRY }.

Record hsearch_data := Htab {
  table : option (list _ENTRY);
  size : Z;
  filled : Z;
  change_ok : option (ENTRY -> option cstr -> env_op -> Z -> Z)
}.

Definition ENTRY0 : ENTRY := Entry None None None 0.

(** What [calloc] leaves in a slot. *)
Definition SLOT0 : _ENTRY := Slot 0 ENTRY0.

Definition ESRCH : Z := 3.
Definition ENOMEM : Z := 12.
Definition EINVAL : Z := 22.
Definition EPERM : Z := 1.

Definition H_NOCLEAR : Z := 1.
Definition H_FORCE : Z := 2.
Definition H_HIDE_DOT : Z := 8.
Definition H_MATCH_KEY : Z := 16.
Definition H_MATCH_DATA : Z := 32.
Definition H_MATCH_IDENT : Z := 64.
Definition H_MATCH_SUBSTR : Z := 128.
Definition H_MATCH_REGEX : Z := 256.
Definition H_MATCH_METHOD : Z := H_MATCH_IDENT .| H_MATCH_SUBSTR .| H_MATCH_REGEX.

Class EnvHooks := {
  (** [strdup] of a string: NULL when the allocator has no room for it. *)
  strdup : cstr -> option cstr;
  env_callback_init : ENTRY -> ENTRY;
  env_flags_init : ENTRY -> ENTRY
}.

(** What a call returns: its result, the entry it points [*retval] to (as an
    index of the table) and the value it gives to [errno], if any. *)
Record hresult := Hres { ret : Z; retval : option Z; errno : option Z }.

(** ** Creation *)

(** [while (div * div < number && number % div != 0) div += 2;] *)
Fixpoint isprime_loop (fuel : nat) (number div : Z) : Z :=
  match fuel with
  | O => div
  | S fuel =>
      if (u32 (div * div) <? number) && negb (number mod div =? 0)
      then isprime_loop fuel number (u32 (div + 2))
      else div
  end.

(** The loop stops at the square root of [number] at the latest. *)
Definition isprime (number : Z) : bool :=
  let div := isprime_loop (Z.to_nat (Z.sqrt number)) number 3 in
  negb (number mod div =? 0).

(** [while (!isprime(nel)) nel += 2;] *)
Fixpoint next_prime (fuel : nat) (nel : Z) : option Z :=
  match fuel with
  | O => None
  | S fuel => if isprime nel then Some nel else next_prime fuel (nel + 2)
  end.

(** [hcreate_r]: [None] for the search that found no prime within twice the
    number (there is always one), [calloc] is taken to succeed. *)
Definition hcreate_r (nel : Z) (htab : hsearch_data) : option (Z * hsearch_data) :=
  match table htab with
  | Some _ => Some (0, htab)
  | None =>
      let nel := nel .| 1 in
      sz ← next_prime (S (Z.to_nat nel)) nel;
      Some (1, Htab (Some (replicate (S (Z.to_nat sz)) SLOT0)) sz 0 (change_ok htab))
  end.

(** The strings are given back to the allocator, and the table pointer cleared. *)
Definition hdestroy_r (htab : hsearch_data) : hsearch_data :=
  Htab None (size htab) (filled htab) (change_ok htab).

(** ** Search, insertion and deletion *)

Definition set_slot (htab : hsearch_data) (idx : Z) (s : _ENTRY) : option hsearch_data :=
  t ← table htab;
  t ← aset t idx s;
  Some (Htab (Some t) (size htab) (filled htab) (change_ok htab)).

Definition get_slot (htab : hsearch_data) (idx : Z) : option _ENTRY :=
  t ← table htab; aget t idx.

Definition set_filled (htab : hsearch_data) (n : Z) : hsearch_data :=
  Htab (table htab) (size htab) n (change_ok htab).

Definition set_data (e : ENTRY) (d : option cstr) : ENTRY :=
  Entry (key e) d (callback e) (flags e).

(** [while (count-- > 0) { hval <<= 4; hval += item.key[count]; }]: the
    characters from the last to the first. *)
Definition hash_string (k : cstr) : Z :=
  foldl (λ hval c, u32 (u32 (hval ≪ 4) + c)) (u32 (Z.of_nat (length k))) (reverse k).

(** The first hash function: never zero. *)
Definition first_hash (sz : Z) (k : cstr) : Z :=
  let hval := hash_string k mod sz in
  if hval =? 0 then hval + 1 else hval.

(** [change_ok != NULL && change_ok(...)], and the same for the callback. *)
Definition change_rejected (htab : hsearch_data) (e : ENTRY) (d : option cstr) (op : env_op)
    (flag : Z) : bool :=
  match change_ok htab with
  | Some f => negb (f e d op flag =? 0)
  | None => false
  end.

Definition callback_rejected (e : ENTRY) (k : cstr) (d : option cstr) (op : env_op)
    (flag : Z) : bool :=
  match callback e with
  | Some f => negb (f k d op flag =? 0)
  | None => false
  end.

(** [htab->table[idx].used == hval && strcmp(item.key, ...key) == 0] *)
Definition slot_matches (s : _ENTRY) (hval : Z) (k : cstr) : option bool :=
  if used s =? hval then k' ← key (entry s); Some (strcmp_list k k' =? 0)
  else Some false.

Section hash.
Context `{!EnvHooks}.

(** [strdup] of a pointer. *)
Definition strdup_ptr (s : option cstr) : option cstr := s ≫= strdup.

(** The result [None] in the pair is the [-1] of the source: keep searching. *)
Definition _compare_and_overwrite_entry (k : cstr) (d : option cstr) (action : ACTION)
    (htab : hsearch_data) (flag hval idx : Z) : option (option hresult * hsearch_data) :=
  s ← get_slot htab idx;
  eq ← slot_matches s hval k;
  if negb eq then Some (None, htab)
  else
    match action, d with
    | ENTER, Some d' =>
        if change_rejected htab (entry s) d env_op_overwrite flag
        then Some (Some (Hres 0 None (Some EPERM)), htab)
        else if callback_rejected (entry s) k d env_op_overwrite flag
        then Some (Some (Hres 0 None (Some EINVAL)), htab)
        else
          let copy := strdup d' in
          htab ← set_slot htab idx (Slot (used s) (set_data (entry s) copy));
          match copy with
          | None => Some (Some (Hres 0 None (Some ENOMEM)), htab)
          | Some _ => Some (Some (Hres idx (Some idx) None), htab)
          end
    | _, _ => Some (Some (Hres idx (Some idx) None), htab)
    end.

(** How the probing ends: with a result, or at the slot [idx]. *)
Inductive probe_result := Returned (r : hresult) | Stopped (idx : Z).

(** [if (idx <= hval2) idx = htab->size + idx - hval2; else idx -= hval2;] *)
Definition next_idx (sz idx hval2 : Z) : Z :=
  if idx <=? hval2 then u32 (u32 (sz + idx) - hval2) else idx - hval2.

(** The [do ... while (htab->table[idx].used)] loop. *)
Fixpoint probe (fuel : nat) (k : cstr) (d : option cstr) (action : ACTION)
    (htab : hsearch_data) (flag hval hval2 idx : Z) : option (probe_result * hsearch_data) :=
  match fuel with
  | O => None
  | S fuel =>
      let idx := next_idx (size htab) idx hval2 in
      if idx =? hval then Some (Stopped idx, htab)
      else
        '(r, htab) ← _compare_and_overwrite_entry k d action htab flag hval idx;
        match r with
        | Some r => Some (Returned r, htab)
        | None =>
            s ← get_slot htab idx;
            if negb (used s =? 0) then probe fuel k d action htab flag hval hval2 idx
            else Some (Stopped idx, htab)
        end
  end.

Definition _hdelete (htab : hsearch_data) (idx : Z) : option hsearch_data :=
  htab ← set_slot htab idx (Slot (-1) (Entry None None None 0));
  Some (set_filled htab (u32 (filled htab - 1))).

(** The tail of [hsearch_r]: a bucket for the new entry has been found. *)
Definition enter_new (k : cstr) (d : option cstr) (htab : hsearch_data)
    (flag hval idx first_deleted : Z) : option (hresult * hsearch_data) :=
  if filled htab =? size htab then Some (Hres 0 None (Some ENOMEM), htab)
  else
    let idx := if negb (first_deleted =? 0) then first_deleted else idx in
    s ← get_slot htab idx;
    let e := Entry (strdup k) (strdup_ptr d) (callback (entry s)) (flags (entry s)) in
    match key e, data e with
    | Some _, Some _ =>
        let e := env_flags_init (env_callback_init e) in
        htab ← set_slot htab idx (Slot hval e);
        let htab := set_filled htab (u32 (filled htab + 1)) in
        if change_rejected htab e d env_op_create flag then
          htab ← _hdelete htab idx;
          Some (Hres 0 None (Some EPERM), htab)
        else if callback_rejected e k d env_op_create flag then
          htab ← _hdelete htab idx;
          Some (Hres 0 None (Some EINVAL), htab)
        else Some (Hres 1 (Some idx) None, htab)
    | _, _ =>
        htab ← set_slot htab idx (Slot hval e);
        Some (Hres 0 None (Some ENOMEM), htab)
    end.

Definition hsearch_r (k : cstr) (d : option cstr) (action : ACTION) (htab : hsearch_data)
    (flag : Z) : option (hresult * hsearch_data) :=
  let hval := first_hash (size htab) k in
  let idx := hval in
  s ← get_slot htab idx;
  '(r, htab, first_deleted) ←
    (if negb (used s =? 0) then
       let first_deleted := if used s =? -1 then idx else 0 in
       '(r, htab) ← _compare_and_overwrite_entry k d action htab flag hval idx;
       match r with
       | Some r => Some (Returned r, htab, first_deleted)
       | None =>
           let hval2 := 1 + hval mod (u32 (size htab - 2)) in
           '(r, htab) ← probe (Z.to_nat (size htab)) k d action htab flag hval hval2 idx;
           Some (r, htab, first_deleted)
       end
     else Some (Stopped idx, htab, 0));
  match r with
  | Returned r => Some (r, htab)
  | Stopped idx =>
      match action with
      | ENTER => enter_new k d htab flag hval idx first_deleted
      | FIND => Some (Hres 0 None (Some ESRCH), htab)
      end
  end.

Definition hdelete_r (k : cstr) (htab : hsearch_data) (flag : Z) : option (Z * hsearch_data) :=
  '(r, htab) ← hsearch_r k None FIND htab 0;
  if ret r =? 0 then Some (0, htab)
  else
    let idx := ret r in
    s ← get_slot htab idx;
    if change_rejected htab (entry s) None env_op_delete flag then Some (0, htab)
    else if callback_rejected (entry s) k None env_op_delete flag then Some (0, htab)
    else htab ← _hdelete htab idx; Some (1, htab).
End hash.

(** [for (idx = last_idx + 1; idx < htab->size; ++idx)] *)
Fixpoint hmatch_loop (fuel : nat) (m : cstr) (htab : hsearch_data) (idx : Z) : option hresult :=
  match fuel with
  | O => None
  | S fuel =>
      if idx <? size htab then
        s ← get_slot htab idx;
        if used s <=? 0 then hmatch_loop fuel m htab (idx + 1)
        else
          k ← key (entry s);
          if bool_decide (take (length m) k = m) then Some (Hres idx (Some idx) None)
          else hmatch_loop fuel m htab (idx + 1)
      else Some (Hres 0 None (Some ESRCH))
  end.

Definition hmatch_r (m : cstr) (last_idx : Z) (htab : hsearch_data) : option hresult :=
  hmatch_loop (S (Z.to_nat (size htab))) m htab (last_idx + 1).

(** [hwalk_r]: the callback may change the entry it is given. *)
Fixpoint hwalk_loop (n : nat) (cb : ENTRY -> Z * ENTRY) (htab : hsearch_data) (i : Z)
    : option (Z * hsearch_data) :=
  match n with
  | O => Some (0, htab)
  | S n =>
      s ← get_slot htab i;
      if 0 <? used s then
        let '(retval, e) := cb (entry s) in
        htab ← set_slot htab i (Slot (used s) e);
        if negb (retval =? 0) then Some (retval, htab) else hwalk_loop n cb htab (i + 1)
      else hwalk_loop n cb htab (i + 1)
  end.

Definition hwalk_r (htab : hsearch_data) (cb : ENTRY -> Z * ENTRY) : option (Z * hsearch_data) :=
  hwalk_loop (Z.to_nat (size htab)) cb htab 1.
