(* ===== verification/HashtableSearch.v ===== *)
(** * The hash table implements a finite map

    The refinement of the operations of [Hashtable.v] to a map from variable
    names to entries: the size of the table is a prime, the probe sequence of
    a key visits every slot, and an invariant that search, insertion and
    deletion preserve says where the entry of a key is found. *)

From Stdlib Require Import Znumtheory.
From S2P Require Import Prelude Cstring Hashtable.

(** ** The size of the table is a prime *)

Lemma isprime_loop_spec fuel number div :
  3 <= div -> div < 65536 -> number < 2 ^ 32 -> 0 <= number ->
  65534 * 65534 >= number ->
  Z.sqrt number < div + 2 * Z.of_nat fuel ->
  Z.odd div = true ->
  (forall d, 3 <= d < div -> Z.odd d = true -> ~ (d | number)) ->
  let r := isprime_loop fuel number div in
  3 <= r /\ (forall d, 3 <= d < r -> Z.odd d = true -> ~ (d | number))
  /\ (number <= r * r \/ (r | number)).
Proof.
  revert div. induction fuel as [|fuel IH]; intros div H3 Hdiv Hn Hn0 Hb Hf Ho Hd; cbn.
  - split_and!; [done|done|]. left.
    pose proof (Z.sqrt_spec number Hn0) as [_ Hs]. change (Z.of_nat 0) with 0 in Hf.
    pose proof (Z.sqrt_nonneg number). assert (Z.succ (Z.sqrt number) <= div) by lia. nia.
  - rewrite (u32_small (div * div)) by (split; [|apply (Z.square_lt_mono_nonneg div 65536)]; lia). case_test.
    + apply andb_true_iff in E as [E1 E2]. apply Z.ltb_lt in E1.
      apply negb_true_iff, Z.eqb_neq in E2.
      assert (div < 65534) by (apply Z.square_lt_simpl_nonneg; lia). rewrite u32_small by lia.
      apply IH; [lia|lia|done|done|done|lia| |].
      * rewrite Z.odd_add, Ho. done.
      * intros d Hd1 Hd2. destruct (decide (d < div)); [apply Hd; [lia|done]|].
        assert (d = div \/ d = div + 1) as [-> | ->] by lia.
        -- intros Hdv. apply E2. apply Z.mod_divide; [lia|done].
        -- rewrite Z.odd_add, Ho in Hd2. done.
    + apply andb_false_iff in E as [E1|E1]; (split_and!; [done|done|]).
      * apply Z.ltb_ge in E1. left. lia.
      * apply negb_false_iff, Z.eqb_eq in E1. right. apply Z.mod_divide; [lia|done].
Qed.

Lemma odd_divisor a n : Z.odd n = true -> (a | n) -> Z.odd a = true.
Proof.
  intros Ho [b ->]. rewrite Z.odd_mul in Ho. by apply andb_true_iff in Ho as [_ ?].
Qed.

Lemma isprime_prime n :
  5 <= n <= 65534 * 65534 -> Z.odd n = true -> isprime n = true -> prime n.
Proof.
  intros Hn Ho Hp. unfold isprime in Hp. apply negb_true_iff, Z.eqb_neq in Hp.
  destruct (isprime_loop_spec (Z.to_nat (Z.sqrt n)) n 3) as (Hr & Hd & Hs); try done; try lia.
  set (r := isprime_loop _ n 3) in *.
  assert (Hnr : ~ (r | n)). { intros Hdv. apply Hp. apply Z.mod_divide; [lia|done]. }
  destruct Hs as [Hs|]; [|done].
  (* no divisor up to the square root *)
  assert (Hsmall : forall a, 1 < a -> a * a <= n -> ~ (a | n)).
  { intros a Ha Haa Hdv. pose proof (odd_divisor a n Ho Hdv) as Hoa.
    assert (a <> 2) by (intros ->; done).
    destruct (decide (a = r)) as [->|]; [done|].
    apply (Hd a); [nia|done|done]. }
  apply prime_alt. split; [lia|]. intros a Ha [b Hb].
  destruct (decide (a * a <= n)).
  - apply (Hsmall a); [lia|done|]. exists b. lia.
  - apply (Hsmall b); [nia|nia|]. exists a. lia.
Qed.

Lemma next_prime_spec fuel nel sz :
  5 <= nel -> Z.odd nel = true -> nel + 2 * Z.of_nat fuel <= 65534 * 65534 ->
  next_prime fuel nel = Some sz -> nel <= sz <= nel + 2 * Z.of_nat fuel /\ prime sz.
Proof.
  revert nel. induction fuel as [|fuel IH]; intros nel H5 Ho Hb; cbn; [done|].
  case_test; intros H; simplify_eq.
  - split; [lia|]. apply isprime_prime; [lia|done|done].
  - apply IH in H; [split; [lia|tauto]|lia| |lia]. by rewrite Z.odd_add, Ho.
Qed.

(** ** The probe sequence

    The slots that are looked at for a key with the first hash value [h]: the
    [j]-th is [pos sz h j].  As the size is a prime and the step between 1 and
    [sz - 2], the first [sz] of them are all the slots of the table. *)

Definition step2 (sz h : Z) : Z := 1 + h mod (u32 (sz - 2)).
Definition pos (sz h j : Z) : Z := 1 + (h - 1 - j * step2 sz h) mod sz.

Definition good_size (sz : Z) : Prop := prime sz /\ 5 <= sz < 2 ^ 31.

Section probing.
Context (sz h : Z).
Hypothesis Hsz : good_size sz.
Hypothesis Hh : 1 <= h <= sz.

Lemma step2_range : 1 <= step2 sz h <= sz - 2.
Proof.
  destruct Hsz as [_ ?]. unfold step2. rewrite u32_small by lia.
  pose proof (Z.mod_pos_bound h (sz - 2)). lia.
Qed.

Lemma pos_range j : 1 <= pos sz h j <= sz.
Proof. destruct Hsz as [_ ?]. unfold pos. pose proof (Z.mod_pos_bound (h - 1 - j * step2 sz h) sz). lia. Qed.

Lemma pos_0 : pos sz h 0 = h.
Proof. unfold pos. rewrite Z.mod_small; lia. Qed.

Lemma next_idx_pos j : next_idx sz (pos sz h j) (step2 sz h) = pos sz h (j + 1).
Proof.
  destruct Hsz as [_ Hb]. pose proof step2_range as Hs. pose proof (pos_range j) as Hp.
  unfold next_idx. rewrite (u32_small (sz + _)) by lia.
  unfold pos in *. set (x := h - 1 - j * step2 sz h) in *.
  replace (h - 1 - (j + 1) * step2 sz h) with (x - step2 sz h) by (unfold x; lia).
  rewrite <-(Zminus_mod_idemp_l x).
  case_test; [apply Z.leb_le in E|apply Z.leb_gt in E].
  - rewrite u32_small by lia.
    rewrite <-(Z_mod_plus_full (x mod sz - step2 sz h) 1), (Z.mod_small (_ + 1 * sz)); lia.
  - rewrite (Z.mod_small (x mod sz - step2 sz h)); lia.
Qed.

Lemma step2_rel_prime : rel_prime (step2 sz h) sz.
Proof.
  destruct Hsz as [Hp ?]. pose proof step2_range.
  apply rel_prime_sym, prime_rel_prime; [done|].
  intros Hd. apply Z.divide_pos_le in Hd; lia.
Qed.

Lemma pos_inj j j' : 0 <= j < sz -> 0 <= j' < sz -> pos sz h j = pos sz h j' -> j = j'.
Proof.
  intros Hj Hj' He. destruct Hsz as [Hp ?]. unfold pos in He.
  set (a := h - 1 - j * _) in He. set (b := h - 1 - j' * _) in He.
  assert (Hab : (sz | a - b)).
  { apply Z.mod_divide; [lia|]. rewrite Zminus_mod.
    replace (a mod sz) with (b mod sz) by lia. by rewrite Z.sub_diag. }
  replace (a - b) with (step2 sz h * (j' - j)) in Hab by (unfold a, b; lia).
  apply Gauss in Hab; [|apply rel_prime_sym, step2_rel_prime].
  destruct (decide (j = j')) as [|Hne]; [done|exfalso].
  apply Z.divide_abs_r in Hab. apply Z.divide_pos_le in Hab; lia.
Qed.

Lemma pos_sz : pos sz h sz = h.
Proof.
  unfold pos. replace (h - 1 - sz * step2 sz h) with (h - 1 + (- step2 sz h) * sz) by lia.
  rewrite Z_mod_plus_full, Z.mod_small; lia.
Qed.

Lemma pos_surj i : 1 <= i <= sz -> exists j, 0 <= j < sz /\ pos sz h j = i.
Proof.
  intros Hi. destruct Hsz as [Hp ?].
  destruct (rel_prime_bezout _ _ step2_rel_prime) as [u v Huv].
  exists ((u * (h - i)) mod sz). split; [apply Z.mod_pos_bound; lia|].
  unfold pos. rewrite <-Zminus_mod_idemp_r, Zmult_mod_idemp_l, Zminus_mod_idemp_r.
  replace (h - 1 - u * (h - i) * step2 sz h) with (i - 1 + (v * (h - i)) * sz) by nia.
  rewrite Z_mod_plus_full, Z.mod_small; lia.
Qed.
End probing.

Lemma first_hash_range sz k : good_size sz -> 1 <= first_hash sz k <= sz.
Proof.
  intros [_ ?]. unfold first_hash. pose proof (Z.mod_pos_bound (hash_string k) sz).
  case_test; lia.
Qed.

(** ** The invariant *)

(** The slot holds the variable [k]. *)
Definition live (s : _ENTRY) (k : cstr) : Prop := 0 < used s /\ key (entry s) = Some k.

(** Never used, deleted, or live. *)
Definition slot_ok (sz : Z) (s : _ENTRY) : Prop :=
  ((used s = 0 \/ used s = -1) /\ callback (entry s) = None /\ flags (entry s) = 0)
  \/ exists k d, key (entry s) = Some k /\ data (entry s) = Some d
       /\ used s = first_hash sz k /\ Forall char_ok k.

Definition nonzero (t : list _ENTRY) (i : Z) : Prop :=
  forall s, aget t i = Some s -> used s <> 0.

(** The slot [i] is on the probe sequence of [k] and no slot before it is free. *)
Definition reachable (t : list _ENTRY) (sz : Z) (k : cstr) (i : Z) : Prop :=
  exists j, 0 <= j < sz /\ i = pos sz (first_hash sz k) j
    /\ forall j', 0 <= j' < j -> nonzero t (pos sz (first_hash sz k) j').

(** The table [t] of [htab] holds the variables of the map [M]. *)
Record htab_rep (htab : hsearch_data) (t : list _ENTRY) (M : gmap cstr ENTRY) : Prop := {
  rep_table : table htab = Some t;
  rep_size : good_size (size htab);
  rep_length : Z.of_nat (length t) = size htab + 1;
  rep_slots i s : 1 <= i <= size htab -> aget t i = Some s -> slot_ok (size htab) s;
  rep_lookup k e : M !! k = Some e <->
    exists i s, 1 <= i <= size htab /\ aget t i = Some s /\ live s k /\ entry s = e;
  rep_unique k i i' s s' : 1 <= i <= size htab -> 1 <= i' <= size htab ->
    aget t i = Some s -> aget t i' = Some s' -> live s k -> live s' k -> i = i';
  rep_reach k i s : 1 <= i <= size htab -> aget t i = Some s -> live s k ->
    reachable t (size htab) k i;
  rep_filled : filled htab = Z.of_nat (base.size M);
  rep_filled_le : filled htab <= size htab
}.

Definition absent (t : list _ENTRY) (sz : Z) (k : cstr) : Prop :=
  forall i s, 1 <= i <= sz -> aget t i = Some s -> ~ live s k.

Lemma rep_present htab t M k e :
  htab_rep htab t M -> M !! k = Some e ->
  exists i s, 1 <= i <= size htab /\ aget t i = Some s /\ live s k /\ entry s = e.
Proof. intros HR He. by apply (rep_lookup _ _ _ HR). Qed.

Lemma rep_absent htab t M k :
  htab_rep htab t M -> M !! k = None -> absent t (size htab) k.
Proof.
  intros HR Hk i s Hi Hs Hl.
  enough (M !! k = Some (entry s)) by congruence.
  apply (rep_lookup _ _ _ HR). eauto 10.
Qed.

Lemma rep_get htab t M i :
  htab_rep htab t M -> 1 <= i <= size htab ->
  exists s, aget t i = Some s /\ get_slot htab i = Some s /\ slot_ok (size htab) s.
Proof.
  intros HR Hi. pose proof (rep_length _ _ _ HR).
  destruct (aget_is_Some t i) as [s Hs]; [lia|].
  exists s. split_and!; [done| |by eapply rep_slots].
  unfold get_slot. by rewrite (rep_table _ _ _ HR).
Qed.

(** ** Searching *)

Lemma slot_matches_live sz s k :
  good_size sz -> slot_ok sz s -> live s k -> slot_matches s (first_hash sz k) k = Some true.
Proof.
  intros Hsz Hok [Hu Hk]. destruct Hok as [([?|?] & _)|(k' & d & Hk' & _ & Hu' & Hc)]; [lia|lia|].
  assert (k' = k) as -> by congruence. unfold slot_matches. rewrite Hu', Z.eqb_refl, Hk. cbn.
  rewrite (proj2 (strcmp_list_zero k k Hc Hc)); done.
Qed.

Lemma slot_matches_other sz s k :
  good_size sz -> Forall char_ok k -> slot_ok sz s -> ~ live s k ->
  slot_matches s (first_hash sz k) k = Some false.
Proof.
  intros Hsz Hck Hok Hl. pose proof (first_hash_range sz k Hsz). unfold slot_matches.
  destruct Hok as [(Hu & _)|(k' & d & Hk' & _ & Hu' & Hc)].
  { destruct (Z.eqb_spec (used s) (first_hash sz k)); [lia|done]. }
  case_test; [|done]. rewrite Hk'. cbn. f_equal. apply Z.eqb_neq.
  rewrite strcmp_list_zero by done. intros <-. apply Hl. split; [|done].
  pose proof (first_hash_range sz k Hsz). lia.
Qed.

Section search.
Context `{!EnvHooks} (htab : hsearch_data) (t : list _ENTRY) (M : gmap cstr ENTRY).
Context (k : cstr) (d : option cstr) (action : ACTION) (flag : Z).
Hypothesis HR : htab_rep htab t M.
Hypothesis Hk : Forall char_ok k.

Local Abbreviation sz := (size htab).
Local Abbreviation h := (first_hash (size htab) k).
Local Abbreviation compare := (_compare_and_overwrite_entry k d action htab flag).

Let Hsz : good_size sz := rep_size _ _ _ HR.
Let Hh : 1 <= h <= sz := first_hash_range sz k Hsz.

Lemma compare_other i s :
  1 <= i <= sz -> aget t i = Some s -> ~ live s k -> compare h i = Some (None, htab).
Proof.
  intros Hi Hs Hl. destruct (rep_get _ _ _ i HR Hi) as (s' & Hs' & Hg & Hok). simplify_eq.
  unfold _compare_and_overwrite_entry. rewrite Hg. cbn.
  rewrite (slot_matches_other sz) by done. done.
Qed.

Lemma probe_found fuel j j0 r htab' :
  0 <= j < j0 -> j0 < sz -> (Z.to_nat (j0 - j) <= fuel)%nat ->
  (forall j', j < j' < j0 -> nonzero t (pos sz h j')) ->
  (forall j' s, j < j' < j0 -> aget t (pos sz h j') = Some s -> ~ live s k) ->
  compare h (pos sz h j0) = Some (Some r, htab') ->
  probe fuel k d action htab flag h (step2 sz h) (pos sz h j) = Some (Returned r, htab').
Proof.
  revert j. induction fuel as [|fuel IH]; intros j Hj Hj0 Hf Hnz Hnl Hc; [lia|].
  cbn [probe]. rewrite next_idx_pos by done.
  destruct (Z.eqb_spec (pos sz h (j + 1)) h) as [Heq|Hne].
  { rewrite <-(pos_0 sz h) in Heq at 2 by done. apply pos_inj in Heq; try done; lia. }
  destruct (decide (j + 1 = j0)) as [<-|Hn]; [by rewrite Hc|].
  destruct (rep_get _ _ _ (pos sz h (j + 1)) HR) as (s & Hs & Hg & Hok);
    [by apply pos_range|].
  rewrite (compare_other _ s); [|by apply pos_range|done|apply (Hnl (j + 1)); [lia|done]].
  cbn [mbind option_bind]. rewrite Hg. cbn [mbind option_bind].
  destruct (Z.eqb_spec (used s) 0) as [H0|_]; [by destruct (Hnz (j + 1)  ltac:(lia) s)|].
  cbn. apply IH; try done; [lia|lia| |].
  - intros j' ?. apply Hnz. lia.
  - intros j' s' ?. apply Hnl. lia.
Qed.

Lemma probe_missing fuel j :
  absent t sz k -> 0 <= j < sz -> (Z.to_nat (sz - j) <= fuel)%nat ->
  exists j1, j < j1 <= sz
    /\ probe fuel k d action htab flag h (step2 sz h) (pos sz h j)
       = Some (Stopped (pos sz h j1), htab)
    /\ (forall j', j < j' < j1 -> nonzero t (pos sz h j'))
    /\ (j1 = sz \/ exists s, aget t (pos sz h j1) = Some s /\ used s = 0).
Proof.
  intros Ha. revert j. induction fuel as [|fuel IH]; intros j Hj Hf; [lia|].
  cbn [probe]. rewrite next_idx_pos by done.
  destruct (Z.eqb_spec (pos sz h (j + 1)) h) as [Heq|Hne].
  { exists (j + 1). rewrite Heq. split_and!; [lia|lia|done|intros; lia|].
    destruct (decide (j + 1 = sz)); [by left|].
    rewrite <-(pos_0 sz h) in Heq at 2 by done. apply pos_inj in Heq; try done; lia. }
  assert (Hjs : j + 1 <> sz). { intros He. apply Hne. rewrite He. by apply pos_sz. }
  destruct (rep_get _ _ _ (pos sz h (j + 1)) HR) as (s & Hs & Hg & Hok);
    [by apply pos_range|].
  rewrite (compare_other _ s); [|by apply pos_range|done|eapply Ha; [by apply pos_range|done]].
  cbn [mbind option_bind]. rewrite Hg. cbn [mbind option_bind].
  destruct (Z.eqb_spec (used s) 0) as [H0|H0]; cbn.
  - exists (j + 1). split_and!; [lia|lia|done|intros; lia|]. right. eauto.
  - destruct (IH (j + 1)) as (j1 & Hj1 & -> & Hnz & Hend); [lia|lia|].
    exists j1. split_and!; [lia|lia|done| |done].
    intros j' Hj'. destruct (decide (j' = j + 1)) as [->|]; [|apply Hnz; lia].
    intros s' Hs'. by simplify_eq.
Qed.

(** A key that is present is found at its slot. *)
Lemma hsearch_found i s r htab' :
  1 <= i <= sz -> aget t i = Some s -> live s k ->
  compare h i = Some (Some r, htab') ->
  hsearch_r k d action htab flag = Some (r, htab').
Proof.
  intros Hi Hs Hl Hc. unfold hsearch_r.
  destruct (rep_reach _ _ _ HR k i s Hi Hs Hl) as (j & Hj & -> & Hnz).
  destruct (rep_get _ _ _ h HR Hh) as (s0 & Hs0 & Hg0 & _).
  rewrite Hg0. cbn [mbind option_bind].
  destruct (decide (j = 0)) as [->|Hj0].
  - rewrite pos_0 in * by done. assert (s0 = s) as -> by congruence. destruct Hl as [Hu _].
    destruct (Z.eqb_spec (used s) 0); [lia|]. cbn [negb]. rewrite Hc. done.
  - assert (Hn0 : used s0 <> 0).
    { apply (Hnz 0); [lia|]. by rewrite pos_0. }
    destruct (Z.eqb_spec (used s0) 0); [done|]. cbn [negb].
    assert (Hnl : forall j' s', 0 <= j' < j -> aget t (pos sz h j') = Some s' -> ~ live s' k).
    { intros j' s' Hj' Hs' Hl'.
      assert (pos sz h j' = pos sz h j) as Heq.
      { eapply (rep_unique _ _ _ HR k); [by apply pos_range| |exact Hs'|exact Hs|..]; done. }
      apply pos_inj in Heq; try done; lia. }
    rewrite (compare_other h s0); [|done|done|apply (Hnl 0); [lia|by rewrite pos_0]].
    cbn [mbind option_bind]. fold (step2 sz h).
    rewrite <-(pos_0 sz h) at 3 by done.
    rewrite (probe_found _ 0 j r htab'); [done|lia|lia|lia| |intros j' s' ?; apply Hnl; lia|done].
    intros j' ?. apply Hnz. lia.
Qed.
End search.

(** A key that is absent: the search ends at a slot that the key may use, or
    there is no free slot in the whole table. *)
Lemma hsearch_missing `{!EnvHooks} htab t M k d action flag :
  htab_rep htab t M -> Forall char_ok k -> M !! k = None ->
  exists idx first_deleted,
    hsearch_r k d action htab flag
    = match action with
      | ENTER => enter_new k d htab flag (first_hash (size htab) k) idx first_deleted
      | FIND => Some (Hres 0 None (Some ESRCH), htab)
      end
    /\ let target := if negb (first_deleted =? 0) then first_deleted else idx in
       1 <= target <= size htab
       /\ ((forall i, 1 <= i <= size htab -> nonzero t i)
           \/ (exists s, aget t target = Some s /\ (used s = 0 \/ used s = -1))
              /\ reachable t (size htab) k target).
Proof.
  intros HR Hk HM. pose proof (rep_absent _ _ _ _ HR HM) as Ha.
  pose proof (rep_size _ _ _ HR) as Hsz. pose proof (first_hash_range _ k Hsz) as Hh.
  unfold hsearch_r. set (h := first_hash (size htab) k) in *.
  destruct (rep_get _ _ _ h HR Hh) as (s0 & Hs0 & Hg0 & Hok0).
  rewrite Hg0. cbn [mbind option_bind].
  assert (Hhome : reachable t (size htab) k h).
  { exists 0. fold h. rewrite pos_0 by done. split_and!; [lia|destruct Hsz; lia|done|intros; lia]. }
  destruct (Z.eqb_spec (used s0) 0) as [H0|H0]; cbn [negb].
  { exists h, 0. cbn. split; [by destruct action|]. split; [done|]. right. eauto. }
  rewrite (compare_other htab t M k d action flag HR Hk h s0) by (try done; by eapply Ha).
  cbn [mbind option_bind]. fold (step2 (size htab) h).
  destruct (probe_missing htab t M k d action flag HR Hk (Z.to_nat (size htab)) 0)
    as (j1 & Hj1 & Hp & Hnz & Hend); [done|destruct Hsz; lia|lia|].
  fold h in Hp, Hnz, Hend. rewrite pos_0 in Hp by done. rewrite Hp. cbn [mbind option_bind].
  destruct (Z.eqb_spec (used s0) (-1)) as [Hm|Hm].
  - eexists _, h. split; [by destruct action|]. cbn zeta.
    destruct (Z.eqb_spec h 0); [lia|]. split; [done|]. right. eauto.
  - eexists (pos (size htab) h j1), 0. split; [by destruct action|]. cbn zeta. cbn [Z.eqb negb].
    split; [by apply pos_range|].
    assert (Hall : forall j', 0 <= j' < j1 -> nonzero t (pos (size htab) h j')).
    { intros j' Hj'. destruct (decide (j' = 0)) as [->|]; [|apply Hnz; lia].
      rewrite pos_0 by done. intros s Hs. by simplify_eq. }
    destruct Hend as [->|(s & Hs & Hs0')].
    + left. intros i Hi. destruct (pos_surj (size htab) h Hsz Hh i Hi) as (j & Hj & <-). by apply Hall.
    + right. split; [by eauto|]. exists j1. fold h. split_and!; [lia| |done|done].
      destruct (decide (j1 = size htab)) as [->|]; [|lia].
      rewrite pos_sz in Hs by done. congruence.
Qed.

(** ** Updating a slot *)

Definition with_table (htab : hsearch_data) (t : list _ENTRY) (n : Z) : hsearch_data :=
  Htab (Some t) (size htab) n (change_ok htab).

Lemma reachable_insert t sz k i i0 x :
  0 <= i0 < Z.of_nat (length t) -> used x <> 0 ->
  reachable t sz k i -> reachable (<[Z.to_nat i0 := x]> t) sz k i.
Proof.
  intros Hi0 Hx (j & Hj & -> & Hnz). exists j. split_and!; [lia|lia|done|].
  intros j' Hj' s. rewrite aget_insert by done. case_decide; [congruence|]. by apply Hnz.
Qed.

(** No slot of a deleted variable. *)
Definition no_tombstones (t : list _ENTRY) (sz : Z) : Prop :=
  forall i s, 1 <= i <= sz -> aget t i = Some s -> used s <> -1.

Lemma no_tombstones_insert t sz i x :
  0 <= i < Z.of_nat (length t) -> used x <> -1 -> no_tombstones t sz ->
  no_tombstones (<[Z.to_nat i := x]> t) sz.
Proof.
  intros Hi Hx Hno i' s Hi'. rewrite aget_insert by done. case_decide; [congruence|by apply Hno].
Qed.

Lemma set_slot_rep htab t M i x :
  htab_rep htab t M -> 1 <= i <= size htab ->
  set_slot htab i x = Some (with_table htab (<[Z.to_nat i := x]> t) (filled htab)).
Proof.
  intros HR Hi. unfold set_slot. rewrite (rep_table _ _ _ HR). cbn [mbind option_bind].
  pose proof (rep_length _ _ _ HR). by rewrite aset_Some by lia.
Qed.

Lemma live_entry_map sz s k : slot_ok sz s -> live s k ->
  exists d, data (entry s) = Some d /\ used s = first_hash sz k /\ Forall char_ok k.
Proof.
  intros [([?|?] & _)|(k' & d & Hk' & Hd & Hu & Hc)] [Hl Hk]; [lia|lia|].
  assert (k' = k) as -> by congruence. eauto.
Qed.

(** A new variable. *)
Lemma rep_insert htab t M i s0 k d e :
  htab_rep htab t M -> 1 <= i <= size htab -> aget t i = Some s0 ->
  used s0 = 0 \/ used s0 = -1 -> M !! k = None -> reachable t (size htab) k i ->
  key e = Some k -> data e = Some d -> Forall char_ok k -> filled htab <> size htab ->
  let t' := <[Z.to_nat i := Slot (first_hash (size htab) k) e]> t in
  htab_rep (with_table htab t' (filled htab + 1)) t' (<[k := e]> M).
Proof.
  intros HR Hi Hs0 Hu HM Hre Hke Hde Hc Hfull. cbn zeta.
  pose proof (rep_size _ _ _ HR) as Hsz. pose proof (first_hash_range _ k Hsz) as Hh.
  pose proof (rep_length _ _ _ HR) as Hlen. pose proof (rep_absent _ _ _ _ HR HM) as Ha.
  assert (Hb : 0 <= i < Z.of_nat (length t)) by lia.
  assert (Hdead : forall k', ~ live s0 k') by (intros k' [? _]; lia).
  split; cbn [with_table table size filled change_ok].
  - done.
  - done.
  - by rewrite length_insert.
  - intros i' s Hi'. rewrite aget_insert by done. case_decide as Hd; [intros [= <-]|by apply (rep_slots _ _ _ HR)].
    right. exists k, d. cbn. done.
  - intros k' e'. destruct (decide (k' = k)) as [->|Hne].
    + rewrite lookup_insert_eq. split.
      * intros [= <-]. exists i, (Slot (first_hash (size htab) k) e). rewrite aget_insert by done.
        rewrite decide_True by done. unfold live. cbn. split_and!; try done; lia.
      * intros (i' & s & Hi' & Hs & Hl & <-). rewrite aget_insert in Hs by done.
        case_decide; [by simplify_eq|]. by destruct (Ha i' s).
    + rewrite lookup_insert_ne by done. rewrite (rep_lookup _ _ _ HR). split.
      * intros (i' & s & Hi' & Hs & Hl & He). exists i', s. rewrite aget_insert by done.
        rewrite decide_False; [done|]. intros ->. simplify_eq. by destruct (Hdead k').
      * intros (i' & s & Hi' & Hs & Hl & He). rewrite aget_insert in Hs by done.
        case_decide; [|by eauto 10]. simplify_eq. destruct Hl as [_ Hl]. cbn in Hl. congruence.
  - intros k' i1 i2 s1 s2 Hi1 Hi2. rewrite !aget_insert by done.
    destruct (decide (i1 = i)) as [->|], (decide (i2 = i)) as [->|]; intros Hs1 Hs2 [Hl1 Hk1] [Hl2 Hk2].
    + done.
    + injection Hs1 as <-. cbn in Hk1. simplify_eq. by destruct (Ha i2 s2).
    + injection Hs2 as <-. cbn in Hk2. simplify_eq. by destruct (Ha i1 s1).
    + by eapply (rep_unique _ _ _ HR k').
  - intros k' i' s Hi'. rewrite aget_insert by done. intros Hs Hl.
    apply reachable_insert; [done|cbn; lia|].
    case_decide; [|by eapply (rep_reach _ _ _ HR)]. simplify_eq.
    destruct Hl as [_ Hl]. cbn in Hl. by simplify_eq.
  - rewrite (rep_filled _ _ _ HR), map_size_insert_None by done. lia.
  - pose proof (rep_filled_le _ _ _ HR). lia.
Qed.

(** Another entry for the same variable. *)
Lemma rep_replace htab t M i s k d e :
  htab_rep htab t M -> 1 <= i <= size htab -> aget t i = Some s -> live s k ->
  key e = Some k -> data e = Some d ->
  let t' := <[Z.to_nat i := Slot (used s) e]> t in
  htab_rep (with_table htab t' (filled htab)) t' (<[k := e]> M).
Proof.
  intros HR Hi Hs Hl Hke Hde t'. pose proof (rep_length _ _ _ HR) as Hlen.
  assert (Hb : 0 <= i < Z.of_nat (length t)) by lia.
  destruct (live_entry_map _ _ _ (rep_slots _ _ _ HR i s Hi Hs) Hl) as (d0 & Hd0 & Hu & Hc).
  assert (Hl' : live (Slot (used s) e) k) by (by split; [apply Hl|]).
  assert (Hlk : M !! k = Some (entry s)) by (apply (rep_lookup _ _ _ HR); eauto 10).
  (* the same keys live at the same slots *)
  assert (Hsame : forall i' s' k', 1 <= i' <= size htab -> aget t' i' = Some s' -> live s' k' ->
            exists s'', aget t i' = Some s'' /\ live s'' k').
  { intros i' s' k' Hi'. unfold t'. rewrite aget_insert by done. case_decide as Hd; [|by eauto].
    intros [= <-] [Hu' Hk']. exists s. rewrite Hd. split; [done|]. split; [done|].
    destruct Hl. cbn in *. congruence. }
  split; cbn [with_table table size filled change_ok].
  - done.
  - apply (rep_size _ _ _ HR).
  - unfold t'. by rewrite length_insert.
  - intros i' s' Hi'. unfold t'. rewrite aget_insert by done.
    case_decide; [intros [= <-]|by apply (rep_slots _ _ _ HR)].
    right. destruct Hl as [_ Hk]. exists k, d. done.
  - intros k' e'. destruct (decide (k' = k)) as [->|Hne].
    + rewrite lookup_insert_eq. split.
      * intros [= <-]. exists i, (Slot (used s) e). unfold t'. rewrite aget_insert by done.
        by rewrite decide_True.
      * intros (i' & s' & Hi' & Hs' & Hl'' & <-).
        destruct (Hsame _ _ _ Hi' Hs' Hl'') as (s'' & Hs'' & Hl3).
        assert (i' = i) as -> by (by eapply (rep_unique _ _ _ HR k)).
        unfold t' in Hs'. rewrite aget_insert, decide_True in Hs' by done. by simplify_eq.
    + rewrite lookup_insert_ne by done. rewrite (rep_lookup _ _ _ HR). unfold t'. split.
      * intros (i' & s' & Hi' & Hs' & Hl'' & He). exists i', s'. rewrite aget_insert by done.
        rewrite decide_False; [done|]. intros ->. destruct Hl, Hl''. congruence.
      * intros (i' & s' & Hi' & Hs' & Hl'' & He). rewrite aget_insert in Hs' by done.
        case_decide; [|by eauto 10]. injection Hs' as <-. destruct Hl', Hl''. congruence.
  - intros k' i1 i2 s1 s2 Hi1 Hi2 Hs1 Hs2 Hl1 Hl2.
    destruct (Hsame _ _ _ Hi1 Hs1 Hl1) as (? & ? & ?), (Hsame _ _ _ Hi2 Hs2 Hl2) as (? & ? & ?).
    by eapply (rep_unique _ _ _ HR k').
  - intros k' i' s' Hi' Hs' Hl''. destruct (Hsame _ _ _ Hi' Hs' Hl'') as (? & ? & ?).
    destruct Hl as [? _]. apply reachable_insert; [done|cbn; lia|]. by eapply (rep_reach _ _ _ HR).
  - rewrite (rep_filled _ _ _ HR), map_size_insert, Hlk. done.
  - apply (rep_filled_le _ _ _ HR).
Qed.

(** A new value for a variable. *)
Lemma rep_overwrite htab t M i s k d :
  htab_rep htab t M -> 1 <= i <= size htab -> aget t i = Some s -> live s k ->
  let e := set_data (entry s) (Some d) in
  let t' := <[Z.to_nat i := Slot (used s) e]> t in
  htab_rep (with_table htab t' (filled htab)) t' (<[k := e]> M).
Proof. intros HR Hi Hs Hl. by eapply rep_replace; [..|apply Hl|]. Qed.

(** A deleted variable leaves a tombstone. *)
Lemma rep_delete htab t M i s k e :
  htab_rep htab t M -> 1 <= i <= size htab -> aget t i = Some s -> live s k ->
  callback e = None -> flags e = 0 ->
  let t' := <[Z.to_nat i := Slot (-1) e]> t in
  htab_rep (with_table htab t' (filled htab - 1)) t' (delete k M).
Proof.
  intros HR Hi Hs Hl He1 He2 t'. pose proof (rep_length _ _ _ HR) as Hlen.
  assert (Hb : 0 <= i < Z.of_nat (length t)) by lia.
  assert (Hlk : M !! k = Some (entry s)) by (apply (rep_lookup _ _ _ HR); eauto 10).
  assert (Hsame : forall i' s' k', aget t' i' = Some s' -> live s' k' ->
            i' <> i /\ aget t i' = Some s').
  { intros i' s' k'. unfold t'. rewrite aget_insert by done. case_decide; [|done].
    intros [= <-] [Hu _]. cbn in Hu. lia. }
  split; cbn [with_table table size filled change_ok].
  - done.
  - apply (rep_size _ _ _ HR).
  - unfold t'. by rewrite length_insert.
  - intros i' s' Hi'. unfold t'. rewrite aget_insert by done.
    case_decide; [intros [= <-]|by apply (rep_slots _ _ _ HR)]. left. cbn. auto.
  - intros k' e'. destruct (decide (k' = k)) as [->|Hne].
    + rewrite lookup_delete_eq. split; [done|].
      intros (i' & s' & Hi' & Hs' & Hl'' & _).
      destruct (Hsame _ _ _ Hs' Hl'') as [Hn Hs'']. destruct Hn.
      by eapply (rep_unique _ _ _ HR k).
    + rewrite lookup_delete_ne by done. rewrite (rep_lookup _ _ _ HR). split.
      * intros (i' & s' & Hi' & Hs' & Hl'' & He'). exists i', s'. unfold t'.
        rewrite aget_insert by done. rewrite decide_False; [done|].
        intros ->. destruct Hl, Hl''. congruence.
      * intros (i' & s' & Hi' & Hs' & Hl'' & He').
        destruct (Hsame _ _ _ Hs' Hl''). eauto 10.
  - intros k' i1 i2 s1 s2 Hi1 Hi2 Hs1 Hs2 Hl1 Hl2.
    destruct (Hsame _ _ _ Hs1 Hl1), (Hsame _ _ _ Hs2 Hl2).
    by eapply (rep_unique _ _ _ HR k').
  - intros k' i' s' Hi' Hs' Hl''. destruct (Hsame _ _ _ Hs' Hl'').
    apply reachable_insert; [done|cbn; lia|]. by eapply (rep_reach _ _ _ HR).
  - rewrite (rep_filled _ _ _ HR), map_size_delete, Hlk.
    assert (base.size M <> 0%nat). { intros H0. apply map_size_empty_inv in H0. by subst M. } lia.
  - pose proof (rep_filled_le _ _ _ HR). lia.
Qed.

(** ** The contract of the table *)

(** What the table relies on: [strdup] copies (the allocator has room), and the
    hooks set the callback and the flags of an entry and nothing else. *)
Class EnvHooksOk `{!EnvHooks} : Prop := {
  strdup_copies s : strdup s = Some s;
  env_callback_init_key e : key (env_callback_init e) = key e;
  env_callback_init_data e : data (env_callback_init e) = data e;
  env_flags_init_key e : key (env_flags_init e) = key e;
  env_flags_init_data e : data (env_flags_init e) = data e
}.

Section contract.
Context `{!EnvHooks}.

(** The entry of a new variable. *)
Definition new_entry (k d : cstr) : ENTRY :=
  env_flags_init (env_callback_init (Entry (Some k) (Some d) None 0)).

(** The error of an insertion (zero for none) and the variables after it. *)
Definition enter_spec (htab : hsearch_data) (M : gmap cstr ENTRY) (k d : cstr) (flag : Z)
    : Z * gmap cstr ENTRY :=
  match M !! k with
  | Some e =>
      if change_rejected htab e (Some d) env_op_overwrite flag then (EPERM, M)
      else if callback_rejected e k (Some d) env_op_overwrite flag then (EINVAL, M)
      else (0, <[k := set_data e (Some d)]> M)
  | None =>
      if filled htab =? size htab then (ENOMEM, M)
      else
        let e := new_entry k d in
        if change_rejected htab e (Some d) env_op_create flag then (EPERM, M)
        else if callback_rejected e k (Some d) env_op_create flag then (EINVAL, M)
        else (0, <[k := e]> M)
  end.

Definition delete_spec (htab : hsearch_data) (M : gmap cstr ENTRY) (k : cstr) (flag : Z)
    : Z * gmap cstr ENTRY :=
  match M !! k with
  | None => (0, M)
  | Some e =>
      if change_rejected htab e None env_op_delete flag then (0, M)
      else if callback_rejected e k None env_op_delete flag then (0, M)
      else (1, delete k M)
  end.

(** A successful call points [*retval] to the slot of the variable. *)
Definition points_to (r : hresult) (t : list _ENTRY) (k : cstr) (e : ENTRY) : Prop :=
  exists i s, retval r = Some i /\ ret r <> 0 /\ 1 <= i /\ aget t i = Some s /\ live s k /\ entry s = e.

Definition has_free (t : list _ENTRY) (sz : Z) : Prop :=
  exists i s, 1 <= i <= sz /\ aget t i = Some s /\ used s = 0.

Lemma compare_find htab t M k d flag i s :
  htab_rep htab t M -> 1 <= i <= size htab -> aget t i = Some s -> live s k ->
  _compare_and_overwrite_entry k d FIND htab flag (first_hash (size htab) k) i
  = Some (Some (Hres i (Some i) None), htab).
Proof.
  intros HR Hi Hs Hl. destruct (rep_get _ _ _ i HR Hi) as (s' & Hs' & Hg & Hok).
  assert (s' = s) as -> by congruence. unfold _compare_and_overwrite_entry.
  rewrite Hg. cbn [mbind option_bind].
  by rewrite (slot_matches_live (size htab)) by (done || by eapply rep_size).
Qed.

Lemma compare_enter `{!EnvHooksOk} htab t M k d flag i s :
  htab_rep htab t M -> 1 <= i <= size htab -> aget t i = Some s -> live s k ->
  _compare_and_overwrite_entry k (Some d) ENTER htab flag (first_hash (size htab) k) i
  = if change_rejected htab (entry s) (Some d) env_op_overwrite flag
    then Some (Some (Hres 0 None (Some EPERM)), htab)
    else if callback_rejected (entry s) k (Some d) env_op_overwrite flag
    then Some (Some (Hres 0 None (Some EINVAL)), htab)
    else Some (Some (Hres i (Some i) None),
               with_table htab (<[Z.to_nat i := Slot (used s) (set_data (entry s) (Some d))]> t)
                 (filled htab)).
Proof.
  intros HR Hi Hs Hl. destruct (rep_get _ _ _ i HR Hi) as (s' & Hs' & Hg & Hok).
  assert (s' = s) as -> by congruence. unfold _compare_and_overwrite_entry.
  rewrite Hg. cbn [mbind option_bind].
  rewrite (slot_matches_live (size htab)) by (done || by eapply rep_size). cbn [mbind option_bind negb].
  do 2 (case_test; [done|]). rewrite strdup_copies, (set_slot_rep _ _ _ _ _ HR Hi). done.
Qed.

Lemma find_present htab t M k d flag e :
  htab_rep htab t M -> Forall char_ok k -> M !! k = Some e ->
  exists i s, 1 <= i <= size htab /\ aget t i = Some s /\ live s k /\ entry s = e
    /\ hsearch_r k d FIND htab flag = Some (Hres i (Some i) None, htab).
Proof.
  intros HR Hk HM. destruct (rep_present _ _ _ _ _ HR HM) as (i & s & Hi & Hs & Hl & He).
  exists i, s. split_and!; try done; try lia.
  apply (hsearch_found htab t M k d FIND flag HR Hk i s); try done. by apply (compare_find htab t M k d flag i s).
Qed.

Lemma find_absent htab t M k d flag :
  htab_rep htab t M -> Forall char_ok k -> M !! k = None ->
  hsearch_r k d FIND htab flag = Some (Hres 0 None (Some ESRCH), htab).
Proof.
  intros HR Hk HM. by destruct (hsearch_missing htab t M k d FIND flag HR Hk HM) as (? & ? & -> & _).
Qed.

Lemma hdelete_absent htab t M k flag :
  htab_rep htab t M -> Forall char_ok k -> M !! k = None -> hdelete_r k htab flag = Some (0, htab).
Proof. intros HR Hk HM. unfold hdelete_r. by rewrite (find_absent htab t M k None 0 HR Hk HM). Qed.

Lemma new_entry_key `{!EnvHooksOk} k d : key (new_entry k d) = Some k.
Proof. unfold new_entry. by rewrite env_flags_init_key, env_callback_init_key. Qed.

Lemma new_entry_data `{!EnvHooksOk} k d : data (new_entry k d) = Some d.
Proof. unfold new_entry. by rewrite env_flags_init_data, env_callback_init_data. Qed.

(** Deleting the entry just written restores the variables. *)
Lemma rep_reject htab t M i s k e :
  htab_rep (with_table htab t (filled htab + 1)) t (<[k := e]> M) ->
  1 <= i <= size htab -> aget t i = Some s -> live s k -> M !! k = None ->
  let t' := <[Z.to_nat i := Slot (-1) (Entry None None None 0)]> t in
  htab_rep (with_table htab t' (filled htab)) t' M.
Proof.
  intros HR Hi Hs Hl HM t'.
  pose proof (rep_delete _ _ _ i s k (Entry None None None 0) HR Hi Hs Hl eq_refl eq_refl) as HRx.
  cbn zeta in HRx. unfold with_table in HRx. cbn [size filled change_ok] in HRx.
  replace (filled htab + 1 - 1) with (filled htab) in HRx by lia.
  by rewrite delete_insert_id in HRx by done.
Qed.

(** The tail of an insertion: the entry is written, and taken out again when it
    is rejected. *)
Lemma enter_new_spec `{!EnvHooksOk} htab t M k d flag idx fd s0 :
  htab_rep htab t M -> Forall char_ok k -> M !! k = None ->
  let i := if negb (fd =? 0) then fd else idx in
  1 <= i <= size htab -> aget t i = Some s0 -> used s0 = 0 \/ used s0 = -1 ->
  reachable t (size htab) k i ->
  let '(err, M') := enter_spec htab M k d flag in
  exists r htab' t',
    enter_new k (Some d) htab flag (first_hash (size htab) k) idx fd = Some (r, htab')
    /\ htab_rep htab' t' M' /\ size htab' = size htab /\ change_ok htab' = change_ok htab
    /\ (if err =? 0 then points_to r t' k (new_entry k d) else r = Hres 0 None (Some err))
    /\ (err = 0 -> no_tombstones t (size htab) -> no_tombstones t' (size htab)).
Proof.
  intros HR Hk HM i Hi Hs0 Hu Hre. unfold enter_spec, enter_new. rewrite HM.
  destruct (Z.eqb_spec (filled htab) (size htab)) as [Hf|Hf].
  { eexists _, htab, t. done. }
  fold i. destruct (rep_get _ _ _ i HR Hi) as (s' & Hs' & Hg & Hok).
  assert (s' = s0) as -> by congruence. rewrite Hg. cbn [mbind option_bind strdup_ptr].
  rewrite !strdup_copies. cbn [key data].
  assert (callback (entry s0) = None /\ flags (entry s0) = 0) as [-> ->].
  { destruct Hok as [?|(k' & d' & _ & _ & Hu' & _)]; [tauto|].
    pose proof (first_hash_range _ k' (rep_size _ _ _ HR)). lia. }
  fold (new_entry k d). rewrite (set_slot_rep _ _ _ _ _ HR Hi). cbn [mbind option_bind].
  unfold set_filled. cbn [with_table table size filled change_ok].
  pose proof (rep_insert htab t M i s0 k d (new_entry k d) HR Hi Hs0 Hu HM Hre
    (new_entry_key k d) (new_entry_data k d) Hk Hf) as HR'.
  cbn zeta in HR'. set (t' := <[Z.to_nat i := Slot (first_hash (size htab) k) (new_entry k d)]> t) in *.
  destruct (rep_size _ _ _ HR) as [_ Hsz]. pose proof (rep_filled_le _ _ _ HR).
  rewrite (u32_small (filled htab + 1)) by (rewrite (rep_filled _ _ _ HR) in *; lia).
  fold (with_table htab t' (filled htab + 1)).
  assert (Ht' : aget t' i = Some (Slot (first_hash (size htab) k) (new_entry k d))).
  { unfold t'. pose proof (rep_length _ _ _ HR). by rewrite aget_insert, decide_True by lia. }
  assert (Hl' : live (Slot (first_hash (size htab) k) (new_entry k d)) k).
  { pose proof (first_hash_range _ k (rep_size _ _ _ HR)). split; cbn; [lia|by apply new_entry_key]. }
  unfold _hdelete. rewrite (set_slot_rep _ _ _ i _ HR') by (cbn; lia). cbn [mbind option_bind].
  unfold set_filled. cbn [with_table table size filled change_ok].
  replace (filled htab + 1 - 1) with (filled htab) by lia.
  rewrite (u32_small (filled htab)) by (rewrite (rep_filled _ _ _ HR) in *; lia).
  pose proof (rep_reject htab t' M i _ k (new_entry k d) HR' Hi Ht' Hl' HM) as HRd.
  assert (Hco : forall e, change_rejected (with_table htab t' (filled htab + 1)) e (Some d) env_op_create flag
    = change_rejected htab e (Some d) env_op_create flag) by done.
  fold (with_table htab t' (filled htab + 1)). rewrite Hco.
  destruct (change_rejected htab (new_entry k d) _ _ _);
    [|destruct (callback_rejected (new_entry k d) _ _ _ _)]; cbn [Z.eqb EPERM EINVAL].
  - eexists _, _, _. split; [done|]. split; [exact HRd|]. done.
  - eexists _, _, _. split; [done|]. split; [exact HRd|]. done.
  - eexists _, _, _. split; [done|]. split; [exact HR'|]. split; [done|]. split; [done|].
    split; [eexists i, _; cbn; split_and!; [done|done|lia|exact Ht'|exact Hl'|done]|].
    intros _. pose proof (rep_length _ _ _ HR).
    pose proof (first_hash_range _ k (rep_size _ _ _ HR)). apply no_tombstones_insert; cbn; lia.
Qed.

(** The whole deletion. *)
Lemma hdelete_spec htab t M k flag :
  htab_rep htab t M -> Forall char_ok k ->
  let '(res, M') := delete_spec htab M k flag in
  exists htab' t', hdelete_r k htab flag = Some (res, htab') /\ htab_rep htab' t' M'
    /\ size htab' = size htab /\ change_ok htab' = change_ok htab
    /\ (res = 0 -> htab' = htab).
Proof.
  intros HR Hk. unfold delete_spec, hdelete_r. destruct (M !! k) as [e|] eqn:HM.
  - destruct (find_present htab t M k None 0 e HR Hk HM) as (i & s & Hi & Hs & Hl & <- & ->).
    cbn [mbind option_bind ret]. destruct (Z.eqb_spec i 0); [lia|].
    destruct (rep_get _ _ _ i HR Hi) as (s' & Hs' & Hg & _).
    assert (s' = s) as -> by congruence. rewrite Hg. cbn [mbind option_bind].
    case_test; [by exists htab, t|]. case_test; [by exists htab, t|].
    unfold _hdelete. rewrite (set_slot_rep _ _ _ _ _ HR Hi). cbn [mbind option_bind].
    unfold set_filled. cbn [with_table table size filled change_ok].
    pose proof (rep_delete _ _ _ i s k (Entry None None None 0) HR Hi Hs Hl eq_refl eq_refl) as HR'.
    cbn zeta in HR'. pose proof (rep_filled _ _ _ HR'). pose proof (rep_filled_le _ _ _ HR').
    destruct (rep_size _ _ _ HR) as [_ Hsz]. cbn [with_table size filled] in *.
    rewrite (u32_small (filled htab - 1)) by lia. eexists _, _. split; [done|].
    split; [exact HR'|done].
  - exists htab, t. split; [|done]. apply (hdelete_absent htab t M k flag HR Hk HM).
Qed.

(** The whole insertion. *)
Lemma hsearch_enter_spec `{!EnvHooksOk} htab t M k d flag :
  htab_rep htab t M -> Forall char_ok k ->
  (M !! k = None -> filled htab <> size htab -> has_free t (size htab)) ->
  let '(err, M') := enter_spec htab M k d flag in
  exists r htab' t',
    hsearch_r k (Some d) ENTER htab flag = Some (r, htab')
    /\ htab_rep htab' t' M' /\ size htab' = size htab /\ change_ok htab' = change_ok htab
    /\ (if err =? 0 then exists e, M' !! k = Some e /\ data e = Some d /\ points_to r t' k e
        else r = Hres 0 None (Some err))
    /\ (err = 0 -> no_tombstones t (size htab) -> no_tombstones t' (size htab)).
Proof.
  intros HR Hk Hfree. destruct (M !! k) as [e|] eqn:HM.
  - destruct (rep_present _ _ _ _ _ HR HM) as (i & s & Hi & Hs & Hl & <-).
    pose proof (compare_enter htab t M k d flag i s HR Hi Hs Hl) as Hc.
    pose proof (hsearch_found htab t M k (Some d) ENTER flag HR Hk i s) as Hf.
    unfold enter_spec. rewrite HM.
    destruct (change_rejected htab (entry s) _ _ _);
      [|destruct (callback_rejected (entry s) _ _ _ _)]; rewrite (Hf _ _ Hi Hs Hl Hc).
    + eexists _, htab, t. done.
    + eexists _, htab, t. done.
    + eexists _, _, _. split; [done|]. split; [by apply rep_overwrite|]. split; [done|]. split; [done|].
      pose proof (rep_length _ _ _ HR). split.
      * eexists. split; [apply lookup_insert_eq|]. split; [done|].
        eexists i, (Slot (used s) _). cbn.
        rewrite aget_insert, decide_True by lia. split_and!; (done || lia).
      * intros _. apply no_tombstones_insert; [lia|]. destruct Hl. cbn. lia.
  - destruct (hsearch_missing htab t M k (Some d) ENTER flag HR Hk HM) as (idx & fd & -> & Hi & Hend).
    destruct (decide (filled htab = size htab)) as [Hf|Hf].
    + unfold enter_spec, enter_new. rewrite HM, (proj2 (Z.eqb_eq _ _) Hf). by eexists _, htab, t.
    + destruct Hend as [Hall|[(s0 & Hs0 & Hu) Hre]].
      { destruct (Hfree eq_refl Hf) as (i & s & ? & Hs & ?). by destruct (Hall i ltac:(done) s). }
      pose proof (enter_new_spec htab t M k d flag idx fd s0 HR Hk HM Hi Hs0 Hu Hre) as Hn.
      destruct (enter_spec htab M k d flag) as [err M'] eqn:Hsp.
      destruct Hn as (r & htab' & t' & ? & HR' & ? & ? & Hend & Hno). exists r, htab', t'.
      split_and!; [done|done|done|done| |done]. case_test; [|done].
      exists (new_entry k d). split_and!; [|by apply new_entry_data|done].
      destruct Hend as (i' & s' & _ & _ & ? & Hs' & Hl' & He').
      apply (rep_lookup _ _ _ HR'). exists i', s'. split_and!; try done.
      pose proof (rep_length _ _ _ HR'). unfold aget in Hs'. case_decide; [|done].
      apply lookup_lt_Some in Hs'. lia.
Qed.


(** A search terminates, leaves the table as it is, and finds exactly the
    variables of the map, with their entries. *)
Theorem hsearch_find_refines htab t M k d flag :
  htab_rep htab t M -> Forall char_ok k ->
  exists r, hsearch_r k d FIND htab flag = Some (r, htab)
    /\ match M !! k with
       | Some e => points_to r t k e
       | None => r = Hres 0 None (Some ESRCH)
       end.
Proof.
  intros HR Hk. destruct (M !! k) as [e|] eqn:HM.
  - destruct (find_present htab t M k d flag e HR Hk HM) as (i & s & Hi & Hs & Hl & He & ->).
    eexists. split; [done|]. exists i, s. cbn. split_and!; (done || lia).
  - rewrite (find_absent htab t M k d flag HR Hk HM). eauto.
Qed.


(** C4.  A deletion removes exactly the variable, or leaves the table as it is
    when the variable is absent or the deletion is rejected. *)
Theorem hdelete_refines htab t M k flag :
  htab_rep htab t M -> Forall char_ok k ->
  let '(res, M') := delete_spec htab M k flag in
  exists htab' t', hdelete_r k htab flag = Some (res, htab') /\ htab_rep htab' t' M'
    /\ size htab' = size htab /\ change_ok htab' = change_ok htab
    /\ (res = 0 -> htab' = htab).
Proof. exact (hdelete_spec htab t M k flag). Qed.
End contract.

(** ** A fresh table *)

Definition next_prime_found (nel : Z) : bool :=
  match next_prime (S (Z.to_nat (nel .| 1))) (nel .| 1) with Some _ => true | None => false end.

Lemma next_prime_found_4096 : forallb next_prime_found (seqZ 2 4095) = true.
Proof. vm_compute. done. Qed.

Lemma next_prime_total nel :
  2 <= nel <= 4096 ->
  exists sz, next_prime (S (Z.to_nat (nel .| 1))) (nel .| 1) = Some sz.
Proof.
  intros Hn. assert (Hf : next_prime_found nel = true).
  { eapply forallb_forall; [apply next_prime_found_4096|]. apply list_elem_of_In, elem_of_seqZ. lia. }
  unfold next_prime_found in Hf. destruct (next_prime _ _); [eauto|done].
Qed.

Lemma lor_1 n : 0 <= n -> n <= n .| 1 <= n + 1 /\ Z.odd (n .| 1) = true.
Proof.
  intros Hn. split.
  - destruct (Z.odd n) eqn:Ho.
    + apply Z.odd_spec in Ho as [m ->].
      replace ((2 * m + 1) .| 1) with (2 * m + 1); [lia|].
      apply Z.bits_inj. intros i. rewrite Z.lor_spec.
      destruct (decide (i = 0)) as [->|]; [by rewrite Z.testbit_odd_0|].
      destruct (decide (i < 0)); [by rewrite !Z.testbit_neg_r by lia|].
      replace (Z.testbit 1 i) with false by (symmetry; apply (Z.bits_above_log2 1); cbn; lia).
      by rewrite orb_false_r.
    + assert (Ho' : Z.even n = true) by (rewrite <-Z.negb_odd, Ho; done).
      apply Z.even_spec in Ho' as [m ->].
      replace ((2 * m) .| 1) with (2 * m + 1); [lia|].
      apply Z.bits_inj. intros i. rewrite Z.lor_spec.
      destruct (decide (i = 0)) as [->|]; [by rewrite Z.testbit_odd_0, Z.testbit_even_0|].
      destruct (decide (i < 0)); [by rewrite !Z.testbit_neg_r by lia|].
      replace (Z.testbit 1 i) with false by (symmetry; apply (Z.bits_above_log2 1); cbn; lia).
      rewrite orb_false_r. replace i with (Z.succ (i - 1)) by lia.
      by rewrite Z.testbit_odd_succ, Z.testbit_even_succ by lia.
  - rewrite <-Z.bit0_odd, Z.lor_spec. by rewrite orb_true_r.
Qed.

Lemma hcreate_size nel sz :
  2 <= nel <= 4096 ->
  next_prime (S (Z.to_nat (nel .| 1))) (nel .| 1) = Some sz -> nel <= sz /\ good_size sz.
Proof.
  intros Hn Hp. destruct (lor_1 nel ltac:(lia)) as [Hb Ho]. set (m := nel .| 1) in *.
  destruct (decide (m = 3)) as [Hm|].
  - rewrite Hm in Hp. vm_compute in Hp. injection Hp as <-. split; [lia|].
    split; [|lia]. by apply isprime_prime; [lia|..].
  - assert (m <> 2 /\ m <> 4) by (split; intros He; rewrite He in Ho; done).
    destruct (next_prime_spec (S (Z.to_nat m)) m sz ltac:(lia) Ho ltac:(lia) Hp) as [??].
    split; [lia|]. split; [done|lia].
Qed.

Lemma rep_fresh sz co :
  good_size sz ->
  htab_rep (Htab (Some (replicate (S (Z.to_nat sz)) SLOT0)) sz 0 co)
    (replicate (S (Z.to_nat sz)) SLOT0) ∅.
Proof.
  intros Hsz. assert (Hget : forall i s, aget (replicate (S (Z.to_nat sz)) SLOT0) i = Some s -> s = SLOT0).
  { intros i s. unfold aget. case_decide; [|done]. intros H1. by apply lookup_replicate in H1 as [-> _]. }
  assert (Hdead : forall i s k, aget (replicate (S (Z.to_nat sz)) SLOT0) i = Some s -> ~ live s k).
  { intros i s k Hs [Hu _]. apply Hget in Hs as ->. cbn in Hu. lia. }
  destruct Hsz as [Hp Hb]. split; cbn [table size filled].
  - done.
  - done.
  - rewrite length_replicate. lia.
  - intros i s _ Hs. apply Hget in Hs as ->. left. cbn. auto.
  - intros k e. rewrite lookup_empty. split; [done|]. intros (i & s & _ & Hs & Hl & _).
    by destruct (Hdead i s k).
  - intros k i i' s s' _ _ Hs _ Hl _. by destruct (Hdead i s k).
  - intros k i s _ Hs Hl. by destruct (Hdead i s k).
  - by rewrite map_size_empty.
  - lia.
Qed.

(** A new table has a prime size of at least the requested one and holds
    no variable. *)
Theorem hcreate_fresh nel htab :
  table htab = None -> 2 <= nel <= 4096 ->
  exists htab' t, hcreate_r nel htab = Some (1, htab') /\ htab_rep htab' t ∅
    /\ nel <= size htab' /\ prime (size htab').
Proof.
  intros Ht Hn. unfold hcreate_r. rewrite Ht.
  destruct (next_prime_total nel Hn) as [sz Hs]. rewrite Hs. cbn [mbind option_bind].
  destruct (hcreate_size nel sz Hn Hs) as [Hle Hg].
  eexists _, _. split; [done|]. split; [by apply rep_fresh|]. cbn. by destruct Hg.
Qed.

(** ** A table without free slots *)

(** When every slot is in use or deleted, but the table is not full, the
    insertion of a new variable overwrites the live entry at its home slot:
    the variable stored there is gone, and the call reports success. *)
Theorem hsearch_enter_overwrites_other `{!EnvHooks, !EnvHooksOk} htab t M k d k' s :
  htab_rep htab t M -> Forall char_ok k -> M !! k = None ->
  (forall i, 1 <= i <= size htab -> nonzero t i) -> filled htab <> size htab ->
  let h := first_hash (size htab) k in
  aget t h = Some s -> live s k' -> change_ok htab = None ->
  callback (env_flags_init (env_callback_init
     (Entry (Some k) (Some d) (callback (entry s)) (flags (entry s))))) = None ->
  exists htab' r, hsearch_r k (Some d) ENTER htab 0 = Some (r, htab') /\ ret r = 1
    /\ is_Some (M !! k') /\ exists t', table htab' = Some t' /\ absent t' (size htab') k'.
Proof.
  intros HR Hk HM Hnz Hf h Hs Hl Hco Hcb.
  pose proof (rep_absent _ _ _ _ HR HM) as Ha.
  pose proof (rep_size _ _ _ HR) as Hsz. pose proof (first_hash_range _ k Hsz) as Hh. fold h in Hh.
  destruct (rep_get _ _ _ h HR Hh) as (s1 & Hs1 & Hg & Hok).
  assert (s1 = s) as -> by congruence. assert (Hu : 0 < used s) by apply Hl.
  destruct (probe_missing htab t M k (Some d) ENTER 0 HR Hk (Z.to_nat (size htab)) 0)
    as (j1 & Hj1 & Hp & _ & Hend); [done|destruct Hsz; lia|lia|].
  fold h in Hp, Hend. rewrite pos_0 in Hp by done.
  assert (j1 = size htab) as ->.
  { destruct Hend as [|(s' & Hs' & Hz)]; [done|]. by destruct (Hnz _ (pos_range _ h Hsz j1) s'). }
  rewrite pos_sz in Hp by done.
  unfold hsearch_r. fold h. rewrite Hg. cbn [mbind option_bind].
  rewrite (proj2 (Z.eqb_neq (used s) 0)) by lia. rewrite (proj2 (Z.eqb_neq (used s) (-1))) by lia.
  cbn [negb]. rewrite (compare_other htab t M k (Some d) ENTER 0 HR Hk h s) by (done || by apply (Ha h s)).
  cbn [mbind option_bind]. fold (step2 (size htab) h). rewrite Hp. cbn [mbind option_bind].
  unfold enter_new. rewrite (proj2 (Z.eqb_neq _ _) Hf). cbn [Z.eqb negb].
  rewrite Hg. cbn [mbind option_bind strdup_ptr]. rewrite !strdup_copies. cbn [key data].
  set (e := env_flags_init _) in *. rewrite (set_slot_rep _ _ _ _ _ HR Hh). cbn [mbind option_bind].
  unfold change_rejected, callback_rejected, set_filled. cbn [with_table change_ok]. rewrite Hco, Hcb.
  eexists _, _. split; [done|]. split; [done|].
  assert (Hlk : M !! k' = Some (entry s)) by (apply (rep_lookup _ _ _ HR); eauto 10).
  split; [by eexists|]. eexists. split; [done|]. cbn [size].
  intros i s' Hi Hs' Hl'. pose proof (rep_length _ _ _ HR). rewrite aget_insert in Hs' by lia.
  case_decide.
  - injection Hs' as <-. destruct Hl' as [_ Hk']. cbn in Hk'. subst e.
    rewrite env_flags_init_key, env_callback_init_key in Hk'. cbn in Hk'. congruence.
  - assert (i = h) by (by eapply (rep_unique _ _ _ HR k')). done.
Qed.

(** ** Witnesses: a table of five slots *)

#[local] Instance ex_hooks : EnvHooks := {|
  strdup := Some;
  env_callback_init e := e;
  env_flags_init e := e
|}.

#[local] Instance ex_hooks_ok : EnvHooksOk.
Proof. by split. Qed.

Definition ex_k1 : cstr := [97].
Definition ex_k2 : cstr := [98].
Definition ex_v : cstr := [120; 121].

Definition ex_empty : hsearch_data := Htab None 0 0 None.
Definition ex_fresh : hsearch_data := Htab (Some (replicate 6 SLOT0)) 5 0 None.

Lemma good_size_5 : good_size 5.
Proof. split; [|lia]. by apply isprime_prime. Qed.

Lemma ex_fresh_rep : htab_rep ex_fresh (replicate 6 SLOT0) ∅.
Proof. apply (rep_fresh 5 None good_size_5). Qed.

Lemma ex_key_ok : Forall char_ok ex_k1 /\ Forall char_ok ex_k2.
Proof. unfold char_ok. split; repeat constructor. Qed.

Lemma hcreate_fresh_witness :
  exists htab' t, hcreate_r 4 ex_empty = Some (1, htab') /\ htab_rep htab' t ∅
    /\ 4 <= size htab' /\ prime (size htab').
Proof. apply (hcreate_fresh 4 ex_empty); [reflexivity|lia]. Defined.

Lemma hsearch_find_refines_witness :
  exists r, hsearch_r ex_k1 None FIND ex_fresh 0 = Some (r, ex_fresh)
    /\ r = Hres 0 None (Some ESRCH).
Proof.
  exact (hsearch_find_refines ex_fresh _ ∅ ex_k1 None 0 ex_fresh_rep (proj1 ex_key_ok)).
Defined.


Lemma hdelete_refines_witness :
  exists htab' t', hdelete_r ex_k1 ex_fresh 0 = Some (0, htab') /\ htab_rep htab' t' ∅
    /\ size htab' = 5 /\ change_ok htab' = None /\ (0 = 0 -> htab' = ex_fresh).
Proof. exact (hdelete_refines ex_fresh _ ∅ ex_k1 0 ex_fresh_rep (proj1 ex_key_ok)). Defined.

(** Five variables fill the table, one of them is deleted. *)
Definition ex_entry (c : Z) : ENTRY := Entry (Some [c]) (Some ex_v) None 0.
Definition ex_slots : list _ENTRY :=
  [SLOT0; Slot 1 (ex_entry 99); Slot 2 (ex_entry 101); Slot 3 (ex_entry 97);
   Slot (-1) ENTRY0; Slot 1 (ex_entry 100)].
Definition ex_worn : hsearch_data := Htab (Some ex_slots) 5 4 None.

Definition enter_all (keys : list Z) (htab : hsearch_data) : option hsearch_data :=
  foldl (λ o c, h ← o; '(r, h) ← hsearch_r [c] (Some ex_v) ENTER h 0; Some h) (Some htab) keys.

(** The table is what the calls leave. *)
Lemma ex_worn_reached :
  (htab ← enter_all [99; 101; 97; 98; 100] ex_fresh; hdelete_r [98] htab 0) = Some (1, ex_worn).
Proof. vm_compute. done. Qed.

Lemma ex_enter_step htab t M c r htab' t' :
  htab_rep htab t M -> 1 <= c < 256 -> M !! [c] = None -> change_ok htab = None ->
  (exists i s, 1 <= i <= size htab /\ aget t i = Some s /\ used s = 0) ->
  (filled htab =? size htab) = false ->
  hsearch_r [c] (Some ex_v) ENTER htab 0 = Some (r, htab') -> table htab' = Some t' ->
  htab_rep htab' t' (<[[c] := ex_entry c]> M).
Proof.
  intros HR Hc HM Hco Hfree Hf Hs Ht.
  pose proof (hsearch_enter_spec htab t M [c] ex_v 0 HR) as Hspec.
  unfold enter_spec, change_rejected, callback_rejected in Hspec. rewrite HM, Hco, Hf in Hspec.
  destruct Hspec as (r' & htab2 & t2 & Hs2 & HR2 & _).
  { constructor; [unfold char_ok; lia|constructor]. }
  { intros _ _. exact Hfree. }
  rewrite Hs in Hs2. injection Hs2 as <- <-. assert (t2 = t') as -> by (pose proof (rep_table _ _ _ HR2); congruence).
  done.
Qed.

Lemma ex_worn_rep : exists M, htab_rep ex_worn ex_slots M /\ M !! [102] = None.
Proof.
  pose proof ex_fresh_rep as HR.
  eapply (ex_enter_step _ _ _ 99) in HR; [|lia|done|done|by exists 5, SLOT0|done|vm_compute; done|done].
  eapply (ex_enter_step _ _ _ 101) in HR; [|lia|done|done|by exists 5, SLOT0|done|vm_compute; done|done].
  eapply (ex_enter_step _ _ _ 97) in HR; [|lia|done|done|by exists 5, SLOT0|done|vm_compute; done|done].
  eapply (ex_enter_step _ _ _ 98) in HR; [|lia|done|done|by exists 5, SLOT0|done|vm_compute; done|done].
  eapply (ex_enter_step _ _ _ 100) in HR; [|lia|done|done|by exists 5, SLOT0|done|vm_compute; done|done].
  eapply (rep_delete _ _ _ 4 _ [98] ENTRY0) in HR; [|cbn; lia|done|done|done|done].
  eexists. split; [exact HR|]. done.
Qed.

Lemma hsearch_enter_overwrites_other_witness :
  exists htab' r, hsearch_r [102] (Some ex_v) ENTER ex_worn 0 = Some (r, htab') /\ ret r = 1
    /\ (exists M, htab_rep ex_worn ex_slots M /\ is_Some (M !! [97]))
    /\ exists t', table htab' = Some t' /\ absent t' (size htab') [97].
Proof.
  destruct ex_worn_rep as (M & HR & HM).
  destruct (hsearch_enter_overwrites_other ex_worn ex_slots M [102] ex_v [97] (Slot 3 (ex_entry 97)))
    as (htab' & r & Hs & Hr & HM' & Hend).
  - exact HR.
  - constructor; [unfold char_ok; lia|constructor].
  - exact HM.
  - intros i Hi s Hs. cbn in Hi. assert (i = 1 \/ i = 2 \/ i = 3 \/ i = 4 \/ i = 5) as Hc by lia.
    destruct_or! Hc; subst i; vm_compute in Hs; injection Hs as <-; done.
  - by cbn.
  - vm_compute. reflexivity.
  - split; [cbn; lia|reflexivity].
  - reflexivity.
  - reflexivity.
  - exists htab', r. eauto 10.
Defined.
