(* ===== verification/HashtableText.v ===== *)
(** * Export and import of the environment ([lib/hashtable.c])

    [hexport_r] writes the variables as text, sorted by name; [himport_r]
    parses such a text into a table.  The buffers are lists of bytes; a write
    outside of the result buffer, or a read past the end of the import buffer,
    is the outer [None].  The allocations of the source are taken to succeed. *)

From Stdlib Require Import Znumtheory.
From S2P Require Import Prelude Ctype Cstring Qsort Hashtable HashtableSearch.

(** ** Export *)

(** A variable as [hexport_r] reads it, through [ep->key] and [ep->data]. *)
Record var := Var { vname : cstr; vdata : cstr }.

Definition cmpkey (e1 e2 : var) : Z := strcmp_list (vname e1) (vname e2).

(** [strstr(str, pat) != NULL] *)
Fixpoint strstr_list (str pat : cstr) : bool :=
  bool_decide (take (length pat) str = pat) ||
  match str with [] => false | _ :: str => strstr_list str pat end.

(** [CONFIG_REGEX] is not set for the board. *)
Definition match_string (flag : Z) (str pat : cstr) : bool :=
  let method := flag .& H_MATCH_METHOD in
  if method =? H_MATCH_IDENT then strcmp_list str pat =? 0
  else if method =? H_MATCH_SUBSTR then strstr_list str pat
  else false.

Fixpoint match_entry (ep : var) (flag : Z) (argv : list cstr) : bool :=
  match argv with
  | [] => false
  | arg :: argv =>
      if negb (flag .& H_MATCH_KEY =? 0) && match_string flag (vname ep) arg then true
      else if negb (flag .& H_MATCH_DATA =? 0) && match_string flag (vdata ep) arg then true
      else match_entry ep flag argv
  end.

Definition backslash : Z := 92.
Definition equals : Z := 61.
Definition dot : Z := 46.
Definition hash : Z := 35.

(** The room that pass 1 counts for the value. *)
Fixpoint value_room (sep : Z) (s : cstr) : Z :=
  match s with
  | [] => 0
  | c :: s => 1 + (if (c =? sep) || (c =? backslash) then 1 else 0) + value_room sep s
  end.

Definition entry_room (sep : Z) (ep : var) : Z :=
  Z.of_nat (length (vname ep)) + 2
  + (if sep =? 0 then Z.of_nat (length (vdata ep)) else value_room sep (vdata ep)) + 2.

Definition hidden (flag : Z) (argv : list cstr) (ep : var) : bool :=
  (negb (bool_decide (argv = [])) && negb (match_entry ep flag argv))
  || (negb (flag .& H_HIDE_DOT =? 0) && (default 0 (head (vname ep)) =? dot)).

(** Pass 1, [for (i = 1, ...; i <= htab->size; ++i)]: the entries to export and
    [totlen]. *)
Fixpoint collect (n : nat) (htab : hsearch_data) (sep flag : Z) (argv : list cstr) (i : Z)
    (list : list var) (totlen : Z) : option (Datatypes.list var * Z) :=
  match n with
  | O => Some (list, totlen)
  | S n =>
      s ← get_slot htab i;
      if 0 <? used s then
        k ← key (entry s); d ← data (entry s);
        let ep := Var k d in
        if hidden flag argv ep then collect n htab sep flag argv (i + 1) list totlen
        else collect n htab sep flag argv (i + 1) (list ++ [ep]) (totlen + entry_room sep ep)
      else collect n htab sep flag argv (i + 1) list totlen
  end.

(** [if (( *s == sep) || ( *s == '\\')) *p++ = '\\'; *p++ = *s++;] *)
Fixpoint escape (sep : Z) (s : cstr) : list Z :=
  match s with
  | [] => []
  | c :: s => if (c =? sep) || (c =? backslash) then backslash :: c :: escape sep s
              else c :: escape sep s
  end.

Definition entry_text (sep : Z) (ep : var) : list Z :=
  vname ep ++ [equals] ++ escape sep (vdata ep) ++ [sep].

(** Pass 2 and the terminating NUL. *)
Definition export_text (sep : Z) (l : list var) : list Z := concat (entry_text sep <$> l) ++ [0].

(** Writing the text at the start of a cleared buffer of [size] bytes. *)
Definition fill_buffer (size : Z) (text : list Z) : option (list Z) :=
  if Z.of_nat (length text) <=? size
  then Some (text ++ replicate (Z.to_nat size - length text) 0) else None.

Inductive hexport_result := ExportFailed (errno : Z) | Exported (size : Z) (res : list Z).

Definition hexport_r (htab : hsearch_data) (sep flag size : Z) (argv : list cstr)
    : option hexport_result :=
  '(list, totlen) ← collect (Z.to_nat (Hashtable.size htab)) htab sep flag argv 1 [] 0;
  list ← qsort cmpkey list;
  if negb (size =? 0) && (size <? totlen + 1) then Some (ExportFailed ENOMEM)
  else
    let size := if size =? 0 then totlen + 1 else size in
    res ← fill_buffer size (export_text sep list);
    Some (Exported size res).

(** ** Import *)

(** The variables that are still to be processed: [localvars]. *)
Definition drop_var_from_set (name : cstr) (vars : list (option cstr)) : bool * list (option cstr) :=
  match vars with
  | [] => (true, [])
  | _ =>
      let hit v := match v with Some v => strcmp_list name v =? 0 | None => false end in
      (existsb hit vars, (λ v, if hit v then None else v) <$> vars)
  end.

Definition cr : Z := 13.
Definition lf : Z := 10.

(** The loop that removes the carriage returns: the characters kept, and how
    many were left out; it stops at the first NUL. *)
Fixpoint drop_cr (s : list Z) : list Z * Z :=
  match s with
  | [] => ([], 0)
  | c :: s' =>
      if (c =? cr) && (default 0 (head s') =? lf)
      then let '(k, n) := drop_cr s' in (k, n + 1)
      else let '(k, n) := drop_cr s' in (c :: k, n)
  end.

Fixpoint upto_nul (s : list Z) : list Z :=
  match s with
  | [] => []
  | c :: s => if c =? 0 then [] else c :: upto_nul s
  end.

(** The characters move down in place, what was behind them stays where it was;
    the second component is [ignored_crs]. *)
Definition crlf_to_lf (env : list Z) : list Z * Z :=
  let '(kept, ignored) := drop_cr (upto_nul env) in
  (kept ++ drop (length kept) env, ignored).

(** [while (isblank( *dp)) ++dp;] *)
Fixpoint skip_blanks (dp : list Z) : list Z :=
  match dp with
  | [] => []
  | c :: dp' => if isblank c then skip_blanks dp' else dp
  end.

(** [while ( *dp && ( *dp != sep)) ++dp; ++dp;] *)
Fixpoint skip_comment (sep : Z) (dp : list Z) : option (list Z) :=
  match dp with
  | [] => None
  | c :: dp => if (c =? 0) || (c =? sep) then Some dp else skip_comment sep dp
  end.

(** [for (name = dp; *dp != '=' && *dp && *dp != sep; ++dp)] *)
Fixpoint parse_name (sep : Z) (dp : list Z) : option (cstr * list Z) :=
  match dp with
  | [] => None
  | c :: dp' =>
      if (c =? equals) || (c =? 0) || (c =? sep) then Some ([], dp)
      else '(name, rest) ← parse_name sep dp'; Some (c :: name, rest)
  end.

(** The value with its escapes removed, and what follows the separator. *)
Fixpoint parse_value (sep : Z) (dp : list Z) : option (cstr * list Z) :=
  match dp with
  | [] => None
  | c :: dp =>
      if (c =? 0) || (c =? sep) then Some ([], dp)
      else if c =? backslash then
        match dp with
        | [] => None
        | c' :: dp' =>
            if negb (c' =? 0) then '(v, rest) ← parse_value sep dp'; Some (c' :: v, rest)
            else '(v, rest) ← parse_value sep dp; Some (c :: v, rest)
        end
      else '(v, rest) ← parse_value sep dp; Some (c :: v, rest)
  end.

(** What one turn of the loop finds at [dp]. *)
Inductive item := Comment | Delete (name : cstr) | Set_ (name value : cstr).

Definition parse_item (sep : Z) (dp : list Z) : option (item * list Z) :=
  let dp := skip_blanks dp in
  c ← head dp;
  if c =? hash then rest ← skip_comment sep dp; Some (Comment, rest)
  else
    '(name, dp) ← parse_name sep dp;
    c ← head dp;
    is_delete ← (if c =? 0 then Some true
                 else c1 ← head (tail dp);
                      Some ((c1 =? 0) || (c =? sep) || (c1 =? sep)));
    if (is_delete : bool) then
      let dp := if c =? equals then tail dp else dp in
      Some (Delete name, tail dp)
    else '(value, rest) ← parse_value sep (tail dp); Some (Set_ name value, rest).

Section import.
Context `{!EnvHooks}.

(** The parser's loop.  [stale] is the number of bytes of the buffer behind
    [data + size], the terminating NUL included: the [while] condition
    [dp < data + size] holds when more than that are left. *)
Fixpoint import_loop (fuel : nat) (htab : hsearch_data) (vars : list (option cstr))
    (sep flag : Z) (stale : nat) (dp : list Z)
    : option (bool * hsearch_data * list (option cstr)) :=
  match fuel with
  | O => None
  | S fuel =>
      let again (htab : hsearch_data) vars (dp : list Z) :=
        if (stale <? length dp)%nat && negb (default 0 (head dp) =? 0)
        then import_loop fuel htab vars sep flag stale dp
        else Some (true, htab, vars) in
      '(it, dp) ← parse_item sep dp;
      match it with
      | Comment => again htab vars dp
      | Delete name =>
          let '(wanted, vars) := drop_var_from_set name vars in
          if wanted then '(_, htab) ← hdelete_r name htab flag; again htab vars dp
          else again htab vars dp
      | Set_ name value =>
          if bool_decide (name = []) then Some (false, htab, vars)
          else
            let '(wanted, vars) := drop_var_from_set name vars in
            if wanted then
              '(_, htab) ← hsearch_r name (Some value) ENTER htab flag; again htab vars dp
            else again htab vars dp
      end
  end.

(** The variables that were asked for but not found in the text. *)
Fixpoint delete_remaining (vars : list (option cstr)) (htab : hsearch_data) (flag : Z)
    : option hsearch_data :=
  match vars with
  | [] => Some htab
  | None :: vars => delete_remaining vars htab flag
  | Some v :: vars => '(_, htab) ← hdelete_r v htab flag; delete_remaining vars htab flag
  end.

Definition CONFIG_ENV_MIN_ENTRIES : Z := 64.
Definition CONFIG_ENV_MAX_ENTRIES : Z := 512.

(** [env] are the [size] bytes to import. *)
Definition himport_r (htab : hsearch_data) (env : list Z) (sep flag : Z) (crlf_is_lf : bool)
    (vars : list cstr) : option (Z * hsearch_data) :=
  let size := Z.of_nat (length env) in
  let htab := if flag .& H_NOCLEAR =? 0
              then match table htab with Some _ => hdestroy_r htab | None => htab end
              else htab in
  '(res, htab) ←
    match table htab with
    | Some _ => Some (1, htab)
    | None => hcreate_r (Z.min CONFIG_ENV_MAX_ENTRIES (CONFIG_ENV_MIN_ENTRIES + size / 8)) htab
    end;
  if res =? 0 then Some (0, htab)
  else if size =? 0 then Some (1, htab)
  else
    let '(data, ignored_crs) := if crlf_is_lf then crlf_to_lf env else (env, 0) in
    '(ok, htab, vars) ← import_loop (S (length env)) htab (Some <$> vars) sep flag
                          (S (Z.to_nat ignored_crs)) (data ++ [0]);
    if negb ok then Some (0, htab)
    else htab ← delete_remaining vars htab flag; Some (1, htab).
End import.

(** ** Import undoes export *)

(** A name that the parser reads as one: it has no [=], does not start with a
    blank or a comment character, and is not empty. *)
Definition name_ok (sep : Z) (k : cstr) : Prop :=
  Forall (λ c, char_ok c /\ c <> equals /\ c <> sep) k
  /\ match k with [] => False | c :: _ => isblank c = false /\ c <> hash end.

Definition data_ok (d : cstr) : Prop := d <> [] /\ Forall char_ok d.

Definition var_ok (sep : Z) (v : var) : Prop := name_ok sep (vname v) /\ data_ok (vdata v).

Lemma escape_length sep s : Z.of_nat (length (escape sep s)) = value_room sep s.
Proof.
  induction s as [|c s IH]; [done|]. cbn [escape value_room].
  case_test; cbn [length]; lia.
Qed.

Lemma parse_name_app sep k rest :
  Forall (λ c, char_ok c /\ c <> equals /\ c <> sep) k ->
  parse_name sep (k ++ equals :: rest) = Some (k, equals :: rest).
Proof.
  induction 1 as [|c k (Hc & He & Hs) Hk IH]; [done|]. cbn [app parse_name].
  unfold char_ok in Hc. destruct (Z.eqb_spec c equals); [done|].
  destruct (Z.eqb_spec c 0); [lia|]. destruct (Z.eqb_spec c sep); [done|].
  cbn [orb]. by rewrite IH.
Qed.

Lemma parse_value_escape sep d rest :
  sep <> backslash -> Forall char_ok d ->
  parse_value sep (escape sep d ++ sep :: rest) = Some (d, rest).
Proof.
  intros Hb. induction 1 as [|c d Hc Hd IH]; cbn [escape app parse_value].
  - rewrite Z.eqb_refl, orb_true_r. done.
  - unfold char_ok in Hc. destruct (Z.eqb_spec c sep) as [->|Hs]; cbn [orb].
    + cbn [app parse_value]. rewrite (proj2 (Z.eqb_neq _ sep)) by congruence. cbn [Z.eqb orb backslash].
      rewrite (proj2 (Z.eqb_neq sep 0)) by lia. cbn. by rewrite IH.
    + destruct (Z.eqb_spec c backslash) as [->|Hn]; cbn [app parse_value].
      * rewrite (proj2 (Z.eqb_neq _ sep)) by congruence. cbn. by rewrite IH.
      * rewrite (proj2 (Z.eqb_neq c 0)) by lia. rewrite (proj2 (Z.eqb_neq c sep)) by done.
        rewrite (proj2 (Z.eqb_neq c backslash)) by done. cbn. by rewrite IH.
Qed.

Lemma head_escape sep d : d <> [] -> Forall char_ok d -> sep <> backslash ->
  exists c, head (escape sep d) = Some c /\ c <> 0 /\ c <> sep.
Proof.
  intros Hd Hok Hb. destruct Hok as [|c d Hc Hok]; [done|]. cbn [escape]. unfold char_ok in Hc.
  destruct (Z.eqb_spec c sep); cbn [orb head]; [by exists backslash|].
  destruct (Z.eqb_spec c backslash); cbn [head]; [by exists backslash|]. exists c. split; [done|]. lia.
Qed.

(** One variable of the text is parsed back. *)
Lemma parse_item_entry sep v rest :
  sep <> backslash -> sep <> equals -> var_ok sep v ->
  parse_item sep (entry_text sep v ++ rest) = Some (Set_ (vname v) (vdata v), rest).
Proof.
  intros Hb He [[Hn Hh] [Hd Hok]]. destruct v as [k d]. cbn [vname vdata] in *.
  unfold parse_item, entry_text. cbn [vname vdata]. rewrite <-!app_assoc. cbn [app].
  destruct k as [|c k]; [done|]. destruct Hh as [Hbl Hc]. cbn [app skip_blanks]. rewrite Hbl.
  cbn [head mbind option_bind]. rewrite (proj2 (Z.eqb_neq c hash)) by done.
  change (c :: k ++ equals :: ?r) with ((c :: k) ++ equals :: r).
  rewrite (parse_name_app sep (c :: k)) by done. cbn [mbind option_bind head tail].
  change (equals =? 0) with false. cbn iota.
  destruct (head_escape sep d Hd Hok Hb) as (c1 & Hc1 & H0 & H1).
  destruct (escape sep d) as [|c1' esc] eqn:Hesc; [done|]. cbn in Hc1. injection Hc1 as ->.
  cbn [app head mbind option_bind]. rewrite (proj2 (Z.eqb_neq c1 0)) by done.
  rewrite (proj2 (Z.eqb_neq equals sep)) by congruence. rewrite (proj2 (Z.eqb_neq c1 sep)) by done.
  cbn [orb]. change (c1 :: esc ++ sep :: rest) with ((c1 :: esc) ++ sep :: rest).
  rewrite <-Hesc, parse_value_escape by done. done.
Qed.

(** *** A table without tombstones has room while it is not full *)

Lemma all_live_full htab t M :
  htab_rep htab t M ->
  (forall i s, 1 <= i <= size htab -> aget t i = Some s -> exists k, live s k) ->
  size htab <= filled htab.
Proof.
  intros HR Hall. rewrite (rep_filled _ _ _ HR).
  assert (Hk : forall i, i ∈ seqZ 1 (size htab) -> exists k, is_Some (M !! k) /\
             exists s, aget t i = Some s /\ live s k).
  { intros i Hi%elem_of_seqZ. destruct (rep_get _ _ _ i HR) as (s & Hs & _); [lia|].
    destruct (Hall i s) as [k Hk]; [lia|done|]. exists k. split; [|by eauto].
    exists (entry s). apply (rep_lookup _ _ _ HR). exists i, s. split_and!; try done; lia. }
  assert (exists ks, length ks = length (seqZ 1 (size htab)) /\ NoDup ks
            /\ forall k, k ∈ ks -> is_Some (M !! k) /\
                 exists i s, i ∈ seqZ 1 (size htab) /\ aget t i = Some s /\ live s k)
    as (ks & Hlen & Hnd & Hks).
  { assert (Hsub : forall i, i ∈ seqZ 1 (size htab) -> 1 <= i <= size htab)
      by (intros i Hi%elem_of_seqZ; lia).
    pose proof (NoDup_seqZ 1 (size htab)) as Hnd. induction (seqZ 1 (size htab)) as [|i l IH].
    - exists []. split_and!; [done|constructor|]. intros k Hk'. by apply elem_of_nil in Hk'.
    - apply NoDup_cons in Hnd as [Hni Hnd].
      destruct IH as (ks & Hlen & Hnd' & Hks); [..|done|];
        [intros; apply Hk; by right|intros; apply Hsub; by right|].
      destruct (Hk i) as (k & HM & s & Hs & Hl); [by left|].
      exists (k :: ks). split_and!; [cbn; lia| |].
      + constructor; [|done]. intros Hin. destruct (Hks k Hin) as (_ & i' & s' & Hi' & Hs' & Hl').
        apply Hni. assert (i = i') as ->; [|done].
        eapply (rep_unique _ _ _ HR k); [apply Hsub; by left|apply Hsub; by right|done..].
      + intros k' [->|Hin]%elem_of_cons.
        * split; [done|]. exists i, s. split; [by left|done].
        * destruct (Hks k' Hin) as (? & i' & s' & Hi' & ?). split; [done|]. exists i', s'. split; [by right|done]. }
  rewrite length_seqZ in Hlen.
  assert (Hle : (length ks <= base.size M)%nat).
  { rewrite <-(size_dom (D := gset cstr)), <-(size_list_to_set (C := gset cstr) ks) by done.
    apply subseteq_size. intros k Hin%elem_of_list_to_set. apply elem_of_dom. by apply Hks. }
  lia.
Qed.

Lemma has_free_room htab t M :
  htab_rep htab t M -> no_tombstones t (size htab) -> filled htab < size htab ->
  has_free t (size htab).
Proof.
  intros HR Hno Hf.
  set (zero i := match aget t i with Some s => used s =? 0 | None => false end).
  destruct (existsb zero (seqZ 1 (size htab))) eqn:He.
  - apply existsb_exists in He as (i & Hi & Hz). apply list_elem_of_In, elem_of_seqZ in Hi.
    unfold zero in Hz. destruct (aget t i) as [s|] eqn:Hs; [|done].
    exists i, s. split_and!; [lia|lia|done|lia].
  - exfalso. assert (Hn : forall i s, 1 <= i <= size htab -> aget t i = Some s -> used s <> 0).
    { intros i s Hi Hs Hu. enough (existsb zero (seqZ 1 (size htab)) = true) by congruence.
      apply existsb_exists. exists i. split; [apply list_elem_of_In, elem_of_seqZ; lia|].
      unfold zero. rewrite Hs. lia. }
    assert (size htab <= filled htab); [|lia].
    apply (all_live_full htab t M HR). intros i s Hi Hs.
    destruct (rep_slots _ _ _ HR i s Hi Hs) as [([Hu|Hu] & _)|(k & d & Hk & _ & Hu & _)].
    + by destruct (Hn i s).
    + by destruct (Hno i s).
    + exists k. pose proof (first_hash_range _ k (rep_size _ _ _ HR)). split; [lia|done].
Qed.

(** *** What pass 1 collects *)

Definition rooms (sep : Z) (vs : list var) : Z := foldr (λ v n, entry_room sep v + n) 0 vs.

Lemma rooms_app sep vs ws : rooms sep (vs ++ ws) = rooms sep vs + rooms sep ws.
Proof. unfold rooms. induction vs as [|v vs IH]; cbn; [done|]. lia. Qed.

Lemma rooms_perm sep vs ws : vs ≡ₚ ws -> rooms sep vs = rooms sep ws.
Proof. unfold rooms. induction 1; cbn; lia. Qed.

(** The slot holds the variable with this value. *)
Definition holds (s : _ENTRY) (v : var) : Prop :=
  live s (vname v) /\ data (entry s) = Some (vdata v).

Lemma collect_spec htab t M sep n i acc tot :
  htab_rep htab t M -> 1 <= i -> i + Z.of_nat n <= size htab + 1 ->
  exists vs, collect n htab sep 0 [] i acc tot = Some (acc ++ vs, tot + rooms sep vs)
    /\ NoDup (vname <$> vs)
    /\ forall v, v ∈ vs <-> exists j s, i <= j < i + Z.of_nat n /\ aget t j = Some s /\ holds s v.
Proof.
  intros HR. revert i acc tot. induction n as [|n IH]; intros i acc tot Hi Hn; cbn [collect].
  { exists []. rewrite app_nil_r. cbn. split_and!; [repeat f_equal; lia|constructor|].
    intros v. rewrite elem_of_nil. split; [done|]. intros (j & s & ? & _). lia. }
  destruct (rep_get _ _ _ i HR) as (s & Hs & Hg & Hok); [lia|]. rewrite Hg. cbn [mbind option_bind].
  destruct Hok as [([Hu|Hu] & _)|(k & d & Hk & Hd & Hu & _)].
  1,2: rewrite Hu; cbn; destruct (IH (i + 1) acc tot) as (vs & -> & Hnd & Hvs); [lia|lia|];
    exists vs; split_and!; [done|done|]; intros v; rewrite Hvs; split;
    intros (j & s' & Hj & Hs' & Hh); exists j, s'; (split; [|done]);
    [lia|destruct (decide (j = i)) as [->|]; [destruct Hh as [[Hh _] _]; simplify_eq; lia|lia]].
  pose proof (first_hash_range _ k (rep_size _ _ _ HR)) as Hh.
  rewrite (proj2 (Z.ltb_lt 0 (used s))) by lia. rewrite Hk, Hd. cbn [mbind option_bind].
  change (hidden 0 [] (Var k d)) with false. cbn iota.
  assert (Hl : live s k) by (split; [lia|done]).
  destruct (IH (i + 1) (acc ++ [Var k d]) (tot + entry_room sep (Var k d))) as (vs & -> & Hnd & Hvs); [lia|lia|].
  exists (Var k d :: vs). split_and!.
  - rewrite <-app_assoc. cbn. by rewrite <-Z.add_assoc.
  - cbn. constructor; [|done]. rewrite list_elem_of_fmap. intros (v & -> & Hv).
    apply Hvs in Hv as (j & s' & Hj & Hs' & Hl' & _).
    assert (i = j); [|lia]. eapply (rep_unique _ _ _ HR (vname v)); [| |exact Hs|exact Hs'|done|done]; lia.
  - intros v. rewrite elem_of_cons, Hvs. split.
    + intros [->|(j & s' & Hj & Hs' & Hv)]; [exists i, s; split; [lia|]; done|].
      exists j, s'. split; [lia|done].
    + intros (j & s' & Hj & Hs' & Hv). destruct (decide (j = i)) as [->|].
      * left. assert (s' = s) as -> by congruence. destruct Hv as [[_ Hk'] Hd'].
        destruct v as [k' d']. cbn in *. congruence.
      * right. exists j, s'. split; [lia|done].
Qed.

(** The variables of the map, as pass 1 reads them. *)
Definition lists_map (vs : list var) (M : gmap cstr ENTRY) : Prop :=
  NoDup (vname <$> vs)
  /\ forall v, v ∈ vs <-> exists e, M !! vname v = Some e /\ data e = Some (vdata v).

Lemma collect_all htab t M sep :
  htab_rep htab t M ->
  exists vs, collect (Z.to_nat (size htab)) htab sep 0 [] 1 [] 0 = Some (vs, rooms sep vs)
    /\ lists_map vs M.
Proof.
  intros HR. destruct (rep_size _ _ _ HR) as [_ Hb].
  destruct (collect_spec htab t M sep (Z.to_nat (size htab)) 1 [] 0 HR) as (vs & -> & Hnd & Hvs); [lia|lia|].
  exists vs. split; [done|]. split; [done|]. intros v. rewrite Hvs. split.
  - intros (j & s & Hj & Hs & Hl & Hd). exists (entry s). split; [|done].
    apply (rep_lookup _ _ _ HR). exists j, s. split; [lia|done].
  - intros (e & HM & Hd). apply (rep_lookup _ _ _ HR) in HM as (j & s & Hj & Hs & Hl & <-).
    exists j, s. split; [lia|done].
Qed.

Lemma lists_map_perm vs ws M : vs ≡ₚ ws -> lists_map vs M -> lists_map ws M.
Proof.
  intros Hp [Hnd Hvs]. split; [by rewrite <-Hp|]. intros v. by rewrite <-Hp.
Qed.

(** With the separator NUL the room for the escapes is not counted; two of them
    fit in the slack of each entry. *)
Definition escapes_fit (sep : Z) (v : var) : Prop :=
  sep = 0 -> value_room 0 (vdata v) <= Z.of_nat (length (vdata v)) + 2.

Lemma export_text_length sep vs :
  Forall (escapes_fit sep) vs ->
  Z.of_nat (length (export_text sep vs)) <= rooms sep vs + 1.
Proof.
  intros Hfit. unfold export_text. rewrite length_app. cbn [length].
  enough (Z.of_nat (length (concat (entry_text sep <$> vs))) <= rooms sep vs) by lia.
  induction Hfit as [|v vs Hv Hvs IH]; [done|]. cbn [fmap list_fmap concat rooms foldr].
  fold (rooms sep vs). rewrite length_app. unfold entry_room.
  assert (Hlen : length (entry_text sep v) = (length (vname v) + length (escape sep (vdata v)) + 2)%nat).
  { unfold entry_text. rewrite !length_app. cbn. lia. }
  pose proof (escape_length sep (vdata v)). unfold escapes_fit in Hv.
  destruct (Z.eqb_spec sep 0) as [->|]; [specialize (Hv eq_refl)|]; lia.
Qed.

(** *** The parser's loop on an exported text *)

Section roundtrip.
Context `{!EnvHooks, !EnvHooksOk}.

(** The variable is overwritten or created. *)
Definition set_var (M : gmap cstr ENTRY) (v : var) : gmap cstr ENTRY :=
  <[vname v := match M !! vname v with
               | Some e => set_data e (Some (vdata v))
               | None => new_entry (vname v) (vdata v)
               end]> M.

(** Overwriting or creating the variable is not rejected. *)
Definition accepted (htab : hsearch_data) (M : gmap cstr ENTRY) (flag : Z) (v : var) : Prop :=
  let '(e, op) := match M !! vname v with
                  | Some e => (e, env_op_overwrite)
                  | None => (new_entry (vname v) (vdata v), env_op_create)
                  end in
  change_rejected htab e (Some (vdata v)) op flag = false
  /\ callback_rejected e (vname v) (Some (vdata v)) op flag = false.

Lemma name_ok_chars sep k : name_ok sep k -> Forall char_ok k.
Proof. intros [Hn _]. eapply Forall_impl; [exact Hn|]. by intros c (? & _). Qed.

(** One variable goes into a table without tombstones. *)
Lemma enter_var htab t M v flag :
  htab_rep htab t M -> no_tombstones t (size htab) -> Forall char_ok (vname v) ->
  filled htab < size htab -> accepted htab M flag v ->
  exists r htab' t', hsearch_r (vname v) (Some (vdata v)) ENTER htab flag = Some (r, htab')
    /\ htab_rep htab' t' (set_var M v) /\ no_tombstones t' (size htab)
    /\ size htab' = size htab /\ change_ok htab' = change_ok htab
    /\ filled htab' <= filled htab + 1.
Proof.
  intros HR Hno Hk Hf Hacc. unfold accepted in Hacc.
  pose proof (hsearch_enter_spec htab t M (vname v) (vdata v) flag HR Hk) as Hs.
  unfold enter_spec in Hs. rewrite (proj2 (Z.eqb_neq (filled htab) (size htab))) in Hs by lia.
  unfold set_var. destruct (M !! vname v) as [e|] eqn:HM; cbn zeta in Hs; destruct Hacc as [Hc1 Hc2];
    rewrite Hc1, Hc2 in Hs;
    (destruct Hs as (r & htab' & t' & Hr & HR' & Hsz & Hco & _ & Hno');
       [intros _ _; by eapply has_free_room|]);
    exists r, htab', t'; (split_and!; [done|done|by apply Hno'|done|done|]);
    rewrite (rep_filled _ _ _ HR'), (rep_filled _ _ _ HR), map_size_insert, HM; cbn; lia.
Qed.

Lemma entry_text_head sep v rest : var_ok sep v ->
  exists c l, entry_text sep v ++ rest = c :: l /\ c <> 0.
Proof.
  intros [[Hc Hh] _]. unfold entry_text. destruct (vname v) as [|c k]; [done|].
  exists c. eexists. split; [done|]. apply Forall_cons in Hc as [[Hc _] _]. unfold char_ok in Hc. lia.
Qed.

Lemma set_var_ne M v k : k <> vname v -> set_var M v !! k = M !! k.
Proof. intros Hne. unfold set_var. by rewrite lookup_insert_ne. Qed.

Lemma accepted_same htab htab' M M' flag v :
  change_ok htab' = change_ok htab -> M' !! vname v = M !! vname v ->
  accepted htab M flag v -> accepted htab' M' flag v.
Proof. intros Hco HM. unfold accepted, change_rejected. by rewrite Hco, HM. Qed.

Lemma import_vars vs : forall fuel htab t M sep flag rest v,
  htab_rep htab t M -> no_tombstones t (size htab) ->
  sep <> backslash -> sep <> equals -> Forall (var_ok sep) (v :: vs) ->
  Forall (accepted htab M flag) (v :: vs) -> NoDup (vname <$> v :: vs) ->
  filled htab + Z.of_nat (length (v :: vs)) <= size htab -> (length vs < fuel)%nat ->
  exists htab' t',
    import_loop fuel htab [] sep flag 1
      (concat (entry_text sep <$> v :: vs) ++ 0 :: rest) = Some (true, htab', [])
    /\ htab_rep htab' t' (foldl set_var M (v :: vs)) /\ no_tombstones t' (size htab')
    /\ size htab' = size htab /\ change_ok htab' = change_ok htab
    /\ filled htab' <= filled htab + Z.of_nat (length (v :: vs)).
Proof.
  induction vs as [|w vs IH]; intros fuel htab t M sep flag rest v HR Hno Hb He Hok Hacc Hnd Hsz Hf;
    (destruct fuel as [|fuel]; [lia|]);
    apply Forall_cons in Hok as [Hv Hok]; apply Forall_cons in Hacc as [Hav Hacc];
    destruct (enter_var htab t M v flag) as (r & htab' & t' & Hr & HR' & Hno' & Hs' & Hco & Hfl);
      try done; try (by eapply name_ok_chars, Hv); try (cbn in Hsz; lia);
    cbn [import_loop fmap list_fmap concat]; rewrite <-app_assoc, parse_item_entry by done;
    cbn [mbind option_bind drop_var_from_set];
    (rewrite bool_decide_eq_false_2; [|intros Hn; destruct Hv as [[_ Hh] _]; by rewrite Hn in Hh]);
    rewrite Hr; cbn [mbind option_bind].
  - cbn. rewrite andb_false_r. exists htab', t'. rewrite Hs'. split_and!; (done || lia).
  - pose proof (entry_text_head sep w (concat (entry_text sep <$> vs) ++ 0 :: rest)) as (c & l & Hcl & Hc0).
    { by apply Forall_cons in Hok as [? _]. }
    assert (Hsplit : (entry_text sep w ++ concat (entry_text sep <$> vs)) ++ 0 :: rest = c :: l)
      by (by rewrite <-app_assoc).
    assert (Hlen : (1 < length (c :: l))%nat).
    { rewrite <-Hcl, !length_app. cbn. assert (0 < length (entry_text sep w))%nat; [|lia].
      unfold entry_text. rewrite !length_app. cbn. lia. }
    rewrite Hsplit. change (default 0 (head (c :: l))) with c.
    rewrite (proj2 (Nat.ltb_lt 1 _)) by done. rewrite (proj2 (Z.eqb_neq c 0)) by done. cbn [andb negb].
    rewrite <-Hsplit. apply NoDup_cons in Hnd as [Hni Hnd].
    destruct (IH fuel htab' t' (set_var M v) sep flag rest w)
      as (h2 & t2 & Hi & HR2 & Hno2 & Hs2 & Hco2 & Hfl2); try done.
    + by rewrite Hs'.
    + apply Forall_forall. intros u Hu. rewrite Forall_forall in Hacc. eapply accepted_same; [done| |by apply Hacc].
      apply set_var_ne. intros Heq. apply Hni. rewrite <-Heq.
      change (vname u ∈ vname <$> w :: vs). by apply list_elem_of_fmap_2.
    + rewrite Hs'. cbn [length] in Hsz |- *. lia.
    + cbn in Hf. lia.
    + exists h2, t2. split_and!; [done|done|done|congruence|congruence|].
      cbn [length] in Hfl2 |- *. lia.
Qed.

Lemma foldl_set_var vs : forall M k,
  NoDup (vname <$> vs) ->
  foldl set_var M vs !! k
  = match list_find (λ v, vname v = k) vs with
    | Some (_, v) => Some (match M !! k with
                           | Some e => set_data e (Some (vdata v))
                           | None => new_entry k (vdata v)
                           end)
    | None => M !! k
    end.
Proof.
  induction vs as [|v vs IH]; intros M k Hnd; cbn [foldl list_find]; [done|].
  apply NoDup_cons in Hnd as [Hni Hnd]. rewrite (IH _ _ Hnd).
  destruct (decide (vname v = k)) as [<-|Hne].
  - destruct (list_find (λ w, vname w = vname v) vs) as [[i w]|] eqn:Hf; cbn.
    + apply list_find_Some in Hf as (Hw & Heq & _). destruct Hni.
      change (vname v ∈ vname <$> vs). rewrite <-Heq. apply list_elem_of_fmap_2. by eapply list_elem_of_lookup_2.
    + unfold set_var. by rewrite lookup_insert_eq.
  - rewrite set_var_ne by done. by destruct (list_find _ vs) as [[i w]|].
Qed.

(** The value after an import: the imported one, or the one it was before. *)
Lemma foldl_set_var_value vs M k :
  NoDup (vname <$> vs) ->
  (foldl set_var M vs !! k) ≫= data
  = match list_find (λ v, vname v = k) vs with
    | Some (_, v) => Some (vdata v)
    | None => (M !! k) ≫= data
    end.
Proof.
  intros Hnd. rewrite foldl_set_var by done.
  destruct (list_find (λ v, vname v = k) vs) as [[i v]|]; [|done]. cbn.
  destruct (M !! k); [done|]. by apply new_entry_data.
Qed.

(** The imported variables are the exported ones. *)
Lemma foldl_set_var_data vs M M0 k :
  lists_map vs M -> Forall (λ e, is_Some (data e.2)) (map_to_list M) ->
  (foldl set_var M0 vs !! k) ≫= data
  = match M !! k with Some e => data e | None => (M0 !! k) ≫= data end.
Proof.
  intros [Hnd Hvs] Hdata. rewrite foldl_set_var_value by done.
  destruct (list_find (λ v, vname v = k) vs) as [[i v]|] eqn:Hf.
  - apply list_find_Some in Hf as (Hv & <- & _). by apply list_elem_of_lookup_2, Hvs in Hv as (e & -> & ->).
  - destruct (M !! k) as [e|] eqn:HM; [|done].
    rewrite Forall_forall in Hdata. destruct (Hdata (k, e)) as [d Hd]; [by apply elem_of_map_to_list|].
    cbn in Hd. apply list_find_None in Hf. rewrite Forall_forall in Hf.
    destruct (Hf (Var k d)); [|done]. apply Hvs. by exists e.
Qed.

Lemma rep_data htab t M : htab_rep htab t M -> Forall (λ e, is_Some (data e.2)) (map_to_list M).
Proof.
  intros HR. apply Forall_forall. intros [k e] Hin%elem_of_map_to_list.
  apply (rep_lookup _ _ _ HR) in Hin as (i & s & Hi & Hs & Hl & <-).
  by destruct (live_entry_map _ _ _ (rep_slots _ _ _ HR i s Hi Hs) Hl) as (d & Hd & _); eauto.
Qed.

Lemma lists_map_elem vs M (P : var -> Prop) :
  lists_map vs M -> (forall k e d, M !! k = Some e -> data e = Some d -> P (Var k d)) -> Forall P vs.
Proof.
  intros [_ Hvs] HP. apply Forall_forall. intros v Hv. apply Hvs in Hv as (e & HM & Hd).
  destruct v as [k d]. by eapply HP.
Qed.

Lemma lists_map_length vs M : lists_map vs M -> (length vs <= base.size M)%nat.
Proof.
  intros [Hnd Hvs]. rewrite <-(length_fmap vname), <-(size_dom (D := gset cstr)).
  rewrite <-(size_list_to_set (C := gset cstr)) by done. apply subseteq_size.
  intros k Hin%elem_of_list_to_set. apply list_elem_of_fmap in Hin as (v & -> & Hv).
  apply Hvs in Hv as (e & HM & _). by apply elem_of_dom.
Qed.

(** The loop on an exported text, with its terminator and the padding. *)
Lemma import_loop_text htab t M vs sep flag n fuel :
  htab_rep htab t M -> no_tombstones t (size htab) ->
  sep <> backslash -> sep <> equals -> NoDup (vname <$> vs) -> M !! [] = None ->
  Forall (var_ok sep) vs -> Forall (accepted htab M flag) vs ->
  filled htab + Z.of_nat (length vs) <= size htab -> (length vs < fuel)%nat ->
  exists htab' t',
    import_loop fuel htab [] sep flag 1 ((export_text sep vs ++ replicate n 0) ++ [0]) = Some (true, htab', [])
    /\ htab_rep htab' t' (foldl set_var M vs) /\ no_tombstones t' (size htab')
    /\ size htab' = size htab /\ change_ok htab' = change_ok htab
    /\ filled htab' <= filled htab + Z.of_nat (length vs).
Proof.
  intros HR Hno Hb He Hnd Hnil Hok Hacc Hroom Hf. unfold export_text. rewrite <-!app_assoc. cbn [app].
  destruct vs as [|v vs]; [|eapply import_vars; try done; cbn in Hf; lia].
  destruct fuel as [|fuel]; [cbn in Hf; lia|]. cbn [fmap list_fmap concat app import_loop].
  pose proof (hdelete_absent htab t M [] flag HR (Forall_nil_2 _) Hnil) as Hd.
  change (parse_item sep (0 :: ?r)) with (Some (Delete [], r)).
  cbn [mbind option_bind drop_var_from_set]. rewrite Hd. cbn [mbind option_bind].
  exists htab, t. split; [by destruct n; cbn; rewrite ?andb_false_r|]. split_and!; try done. cbn. lia.
Qed.

Lemma export_text_long sep vs : (length vs < length (export_text sep vs))%nat.
Proof.
  unfold export_text. rewrite length_app. cbn [length].
  enough (length vs <= length (concat (entry_text sep <$> vs)))%nat by lia.
  induction vs as [|u l IH]; [done|].
  cbn [fmap list_fmap concat length]. rewrite length_app. unfold entry_text at 1.
  rewrite !length_app. cbn [length]. lia.
Qed.

(** Importing an exported text into a table that is cleared first. *)
Lemma import_text htab vs sep flag n :
  table htab = None \/ flag .& H_NOCLEAR = 0 ->
  sep <> backslash -> sep <> equals -> NoDup (vname <$> vs) ->
  Forall (var_ok sep) vs -> Forall (accepted htab ∅ flag) vs ->
  let env := export_text sep vs ++ replicate n 0 in
  Z.of_nat (length vs) <= Z.min CONFIG_ENV_MAX_ENTRIES
                            (CONFIG_ENV_MIN_ENTRIES + Z.of_nat (length env) / 8) ->
  exists htab' t', himport_r htab env sep flag false [] = Some (1, htab')
    /\ htab_rep htab' t' (foldl set_var ∅ vs) /\ no_tombstones t' (size htab')
    /\ change_ok htab' = change_ok htab /\ filled htab' <= Z.of_nat (length vs)
    /\ Z.min CONFIG_ENV_MAX_ENTRIES
         (CONFIG_ENV_MIN_ENTRIES + Z.of_nat (length env) / 8) <= size htab'.
Proof.
  intros Hcl Hb He Hvs Hok Hacc env Hroom. unfold himport_r.
  set (h0 := if flag .& H_NOCLEAR =? 0 then _ else htab).
  assert (Hh0 : table h0 = None /\ change_ok h0 = change_ok htab).
  { unfold h0. case_test; [by destruct (table htab) eqn:Ht|]. destruct Hcl; [done|lia]. }
  destruct Hh0 as [Ht0 Hc0]. rewrite Ht0.
  assert (Hlen : (0 < length env)%nat).
  { unfold env, export_text. rewrite !length_app. cbn. lia. }
  set (nent := Z.min _ _) in *.
  assert (Hnent : 64 <= nent <= 512).
  { unfold nent, CONFIG_ENV_MAX_ENTRIES, CONFIG_ENV_MIN_ENTRIES.
    pose proof (Z.div_pos (Z.of_nat (length env)) 8). lia. }
  unfold hcreate_r. rewrite Ht0. destruct (next_prime_total nent) as [sz Hsz]; [lia|].
  destruct (hcreate_size nent sz) as [Hle Hg]; [lia|done|].
  rewrite Hsz. cbn [mbind option_bind Z.eqb]. rewrite (proj2 (Z.eqb_neq _ 0)) by lia.
  pose proof (rep_fresh sz (change_ok h0) Hg) as HR. set (h1 := Htab _ _ _ _) in *.
  change (S (Z.to_nat 0)) with 1%nat. change (Some <$> []) with ([] : list (option cstr)).
  destruct (import_loop_text h1 _ ∅ vs sep flag n (S (length env)) HR)
    as (htab' & t' & Hi & HR' & Hno' & Hs' & Hco' & Hfl'); try done.
  - intros i s _ Hs. unfold aget in Hs. case_decide; [|done]. by apply lookup_replicate in Hs as [-> _].
  - eapply Forall_impl; [exact Hacc|]. intros u. by apply accepted_same.
  - unfold h1. cbn [filled size]. lia.
  - pose proof (export_text_long sep vs). unfold env. rewrite length_app. lia.
  - fold env in Hi. rewrite Hi. cbn [mbind option_bind negb delete_remaining].
    exists htab', t'. unfold h1 in Hs', Hfl', Hco'. cbn [size filled change_ok] in Hs', Hfl', Hco'.
    split_and!; [done|done|done|congruence|lia|lia].
Qed.

Lemma export_text_min sep vs :
  Forall (var_ok sep) vs -> 4 * Z.of_nat (length vs) <= Z.of_nat (length (export_text sep vs)).
Proof.
  intros Hok. unfold export_text. rewrite length_app. cbn [length].
  enough (4 * Z.of_nat (length vs) <= Z.of_nat (length (concat (entry_text sep <$> vs)))) by lia.
  induction Hok as [|v vs [[_ Hn] [Hd _]] Hvs IH]; [done|].
  assert (Hlen : length (entry_text sep v) = (length (vname v) + length (escape sep (vdata v)) + 2)%nat).
  { unfold entry_text. rewrite !length_app. cbn. lia. }
  assert (Z.of_nat (length (vdata v)) <= Z.of_nat (length (escape sep (vdata v)))).
  { clear. induction (vdata v) as [|c d IH]; [done|]. cbn [escape]. case_test; cbn [length]; lia. }
  cbn [fmap list_fmap concat length]. rewrite length_app.
  destruct (vname v), (vdata v); try done. cbn [length] in *. lia.
Qed.


(** With the separator NUL, which saves the environment to storage, pass 1
    does not count the escapes that pass 2 writes: when the buffer is large
    enough for the counted length but not for the escaped text, the export
    writes behind its end. *)
Theorem hexport_nul_overflows htab t M size vs :
  htab_rep htab t M -> lists_map vs M -> 0 < size ->
  rooms 0 vs < size < Z.of_nat (length (export_text 0 vs)) ->
  hexport_r htab 0 0 size [] = None.
Proof.
  intros HR Hl Hpos Hsize. unfold hexport_r.
  destruct (collect_all htab t M 0 HR) as (vs0 & -> & Hvs0). cbn [mbind option_bind].
  destruct (qsort_rearranges cmpkey vs0) as (vs' & -> & Hp). cbn [mbind option_bind].
  assert (Hpp : vs ≡ₚ vs').
  { rewrite Hp. destruct Hl as [Hnd Hl], Hvs0 as [Hnd0 Hl0].
    apply NoDup_Permutation; [by eapply NoDup_fmap_1|by eapply NoDup_fmap_1|].
    intros v. by rewrite Hl, Hl0. }
  rewrite <-(rooms_perm 0 vs vs0) by (by rewrite <-Hp).
  rewrite (proj2 (Z.eqb_neq size 0)), (proj2 (Z.ltb_ge size _)) by lia. cbn [negb andb].
  unfold fill_buffer.
  assert (Hlen : length (export_text 0 vs') = length (export_text 0 vs)).
  { unfold export_text. rewrite !length_app. f_equal. clear -Hpp.
    induction Hpp; cbn; rewrite ?length_app in *; lia. }
  rewrite Hlen, (proj2 (Z.leb_gt _ _)) by lia. done.
Qed.
End roundtrip.

(** ** Witnesses *)

#[local] Instance bs_hooks : EnvHooks := {|
  strdup := Some;
  env_callback_init e := e;
  env_flags_init e := e
|}.

#[local] Instance bs_hooks_ok : EnvHooksOk.
Proof. by split. Qed.

(** The single variable [a] with a value of eight backslashes. *)
Definition bs_value : cstr := replicate 8 backslash.
Definition bs_slot : _ENTRY := Slot 3 (Entry (Some [97]) (Some bs_value) None 0).
Definition bs_slots : list _ENTRY := [SLOT0; SLOT0; SLOT0; bs_slot; SLOT0; SLOT0].
Definition bs_htab : hsearch_data := Htab (Some bs_slots) 5 1 None.
Definition bs_map : gmap cstr ENTRY := {[ [97] := entry bs_slot ]}.

Lemma bs_htab_rep : htab_rep bs_htab bs_slots bs_map.
Proof.
  pose proof (rep_fresh 5 None good_size_5) as HR.
  eapply (rep_insert _ _ _ 3 SLOT0 [97] bs_value (entry bs_slot)) in HR.
  - exact HR.
  - cbn. lia.
  - done.
  - by left.
  - done.
  - exists 0. split; [cbn; lia|]. split; [vm_compute; done|]. intros; lia.
  - done.
  - done.
  - constructor; [unfold char_ok; lia|constructor].
  - done.
Qed.


Lemma hexport_nul_overflows_witness : hexport_r bs_htab 0 0 16 [] = None.
Proof.
  apply (hexport_nul_overflows bs_htab bs_slots bs_map 16 [Var [97] bs_value]).
  - exact bs_htab_rep.
  - split; [repeat constructor; set_solver|]. intros v. rewrite list_elem_of_singleton. split.
    + intros ->. by eexists.
    + intros (e & He & Hd). unfold bs_map in He. apply lookup_singleton_Some in He as [Hk <-].
      destruct v as [k d]. cbn in *. congruence.
  - lia.
  - vm_compute. done.
Defined.

(** Carriage returns are removed in place and the text is not terminated anew:
    without a line feed at its end, the last value gets the bytes left behind
    it.  Importing [a=1\r\nb=2] sets [b] to [22]. *)
Theorem himport_crlf_stale_tail :
  exists htab' r,
    himport_r (Htab None 0 0 None) [97; 61; 49; 13; 10; 98; 61; 50] lf 0 true [] = Some (1, htab')
    /\ hsearch_r [98] None FIND htab' 0 = Some (r, htab')
    /\ (i ← retval r; s ← get_slot htab' i; data (entry s)) = Some [50; 50].
Proof. eexists _, _. split; [vm_compute; reflexivity|]. split; vm_compute; reflexivity. Qed.
