(* ===== verification/EnvFlags.v ===== *)
(** * Types, access rights and callbacks of variables
    ([common/env_attr.c], [common/env_flags.c], [common/env_callback.c])

    The lists of attributes ([name:attributes,...]), the flags that they give
    to a variable, and the check [env_flags_validate] that the hash table calls
    before every change.  The configuration has [CONFIG_CMD_NET] set and
    [CONFIG_ENV_ACCESS_IGNORE_FORCE] not.  [ENV_FLAGS_LIST_STATIC],
    [ENV_CALLBACK_LIST_STATIC], the linker list of callbacks and the default
    environment come from the board's configuration and are parameters. *)

From S2P Require Import Prelude Ctype Cstring Hashtable HashtableSearch.

(** ** Attribute lists *)

Definition comma : Z := 44.
Definition colon : Z := 58.
Definition space : Z := 32.

(** What is before and after the first [c] of a string. *)
Fixpoint split_at (c : Z) (s : cstr) : option (cstr * cstr) :=
  match s with
  | [] => None
  | x :: s => if x =? c then Some ([], s)
              else '(a, b) ← split_at c s; Some (x :: a, b)
  end.

(** The turns of the [do ... while (entry_end != NULL)] loop. *)
Fixpoint split_on (c : Z) (s : cstr) : list cstr :=
  match s with
  | [] => [[]]
  | x :: s =>
      if x =? c then [] :: split_on c s
      else match split_on c s with [] => [[x]] | e :: es => (x :: e) :: es end
  end.

(** The name and the attributes of a copied entry; [strim] of both. *)
Definition parse_entry (entry_cpy : cstr) : cstr * option cstr :=
  match split_at colon entry_cpy with
  | Some (n, a) => (strim_list n, Some (strim_list a))
  | None => (strim_list entry_cpy, None)
  end.

Section walk.
Context {S : Type} (callback : S -> cstr -> option cstr -> option (Z * S)).

Fixpoint walk_entries (es : list cstr) (st : S) : option (Z * S) :=
  match es with
  | [] => Some (0, st)
  | e :: es =>
      if bool_decide (e = []) then walk_entries es st
      else
        let '(name, attributes) := parse_entry e in
        if bool_decide (name = []) then walk_entries es st
        else
          '(retval, st) ← callback st name attributes;
          if negb (retval =? 0) then Some (retval, st) else walk_entries es st
  end.

Definition env_attr_walk (attr_list : option cstr) (st : S) : option (Z * S) :=
  match attr_list with
  | None => Some (1, st)
  | Some l => walk_entries (split_on comma l) st
  end.
End walk.

(** The matches of [search_for] in ascending order, up to the first that ends
    behind [searched_start]; positions are offsets. *)
Fixpoint rstr_loop (s search_for : cstr) (pos : nat) (searched_start : option nat)
    (result : option nat) : option nat :=
  if bool_decide (take (length search_for) s = search_for) then
    if match searched_start with
       | Some l => (l <? pos + length search_for)%nat
       | None => false
       end
    then result
    else match s with
         | [] => Some pos
         | _ :: s => rstr_loop s search_for (S pos) searched_start (Some pos)
         end
  else match s with
       | [] => result
       | _ :: s => rstr_loop s search_for (S pos) searched_start result
       end.

Definition reverse_strstr (searched search_for : cstr) (searched_start : option nat) : option nat :=
  if bool_decide (search_for = []) then Some 0%nat
  else rstr_loop searched search_for 0 searched_start None.

Fixpoint skip_space (s : cstr) : cstr :=
  match s with
  | [] => []
  | c :: s' => if c =? space then skip_space s' else s
  end.

(** The test for an exact match.  [before] are the bytes in front of the list,
    the nearest first: [*prevch] is read there when the entry starts the
    list, or when only spaces precede it. *)
Definition exact_match (before attr_list name : cstr) (entry : nat) : option bool :=
  prevch ← head (skip_space (reverse (take entry attr_list) ++ before));
  let nextch := default 0 (head (skip_space (drop (entry + length name) attr_list))) in
  Some (((entry =? 0)%nat || (prevch =? comma))
        && ((nextch =? colon) || (nextch =? comma) || (nextch =? 0))).

Fixpoint lookup_loop (fuel : nat) (before attr_list name : cstr) (entry : option nat)
    : option (option nat) :=
  match fuel with
  | O => None
  | S fuel =>
      match entry with
      | None => Some None
      | Some e =>
          ok ← exact_match before attr_list name e;
          if (ok : bool) then Some (Some e)
          else lookup_loop fuel before attr_list name (reverse_strstr attr_list name (Some e))
      end
  end.

(** The characters up to a delimiter: [strpbrk(entry, delims)]. *)
Fixpoint until_delim (s : cstr) : cstr :=
  match s with
  | [] => []
  | c :: s => if (c =? comma) || (c =? space) then [] else c :: until_delim s
  end.

Definition attributes_at (attr_list name : cstr) (entry : nat) : cstr :=
  match skip_space (drop (entry + length name) attr_list) with
  | c :: rest => if c =? colon then until_delim (skip_space rest) else []
  | [] => []
  end.

(** [env_attr_lookup] into a buffer of [room] bytes: writing more than that is
    undefined.  The result is the return code and the buffer's string, which
    is left as it was when the name is not found. *)
Definition env_attr_lookup (before : cstr) (attr_list : option cstr) (name : cstr)
    (room : nat) (attributes : cstr) : option (Z * cstr) :=
  match attr_list with
  | None => Some (1, attributes)
  | Some l =>
      found ← lookup_loop (S (S (length l))) before l name (reverse_strstr l name None);
      match found with
      | Some e =>
          let a := attributes_at l name e in
          if (length a <? room)%nat then Some (0, a) else None
      | None => Some (2, attributes)
      end
  end.

(** ** Flags *)

Inductive env_flags_vartype :=
  env_flags_vartype_string | env_flags_vartype_decimal | env_flags_vartype_hex
| env_flags_vartype_bool | env_flags_vartype_ipaddr | env_flags_vartype_macaddr
| env_flags_vartype_end.

Inductive env_flags_varaccess :=
  env_flags_varaccess_any | env_flags_varaccess_readonly
| env_flags_varaccess_writeonce | env_flags_varaccess_changedefault
| env_flags_varaccess_end.

#[export] Instance vartype_eq_dec : EqDecision env_flags_vartype.
Proof. solve_decision. Defined.

Definition ENV_FLAGS_VARTYPE_BIN_MASK : Z := 7.
Definition ENV_FLAGS_VARACCESS_PREVENT_DELETE : Z := 8.
Definition ENV_FLAGS_VARACCESS_PREVENT_CREATE : Z := 16.
Definition ENV_FLAGS_VARACCESS_PREVENT_OVERWR : Z := 32.
Definition ENV_FLAGS_VARACCESS_PREVENT_NONDEF_OVERWR : Z := 64.
Definition ENV_FLAGS_VARACCESS_BIN_MASK : Z := 120.

(** The C enumeration: its constants and the cast from an integer; a value
    without a constant matches no case of the [switch]. *)
Definition vartype_num (t : env_flags_vartype) : Z :=
  match t with
  | env_flags_vartype_string => 0 | env_flags_vartype_decimal => 1
  | env_flags_vartype_hex => 2 | env_flags_vartype_bool => 3
  | env_flags_vartype_ipaddr => 4 | env_flags_vartype_macaddr => 5
  | env_flags_vartype_end => 6
  end.

Definition vartype_of (n : Z) : option env_flags_vartype :=
  nth_error [env_flags_vartype_string; env_flags_vartype_decimal; env_flags_vartype_hex;
             env_flags_vartype_bool; env_flags_vartype_ipaddr; env_flags_vartype_macaddr;
             env_flags_vartype_end] (Z.to_nat n).

(** ["sdxbim"] and ["aroc"] *)
Definition env_flags_vartype_rep : cstr := [115; 100; 120; 98; 105; 109].
Definition env_flags_varaccess_rep : cstr := [97; 114; 111; 99].

Definition env_flags_varaccess_mask : list Z :=
  [0;
   ENV_FLAGS_VARACCESS_PREVENT_DELETE .| ENV_FLAGS_VARACCESS_PREVENT_CREATE
     .| ENV_FLAGS_VARACCESS_PREVENT_OVERWR;
   ENV_FLAGS_VARACCESS_PREVENT_DELETE .| ENV_FLAGS_VARACCESS_PREVENT_OVERWR;
   ENV_FLAGS_VARACCESS_PREVENT_DELETE .| ENV_FLAGS_VARACCESS_PREVENT_NONDEF_OVERWR].

(** [strchr(rep, c) - &rep[0]] *)
Fixpoint rep_index (rep : cstr) (c : Z) : option Z :=
  match rep with
  | [] => None
  | r :: rep => if r =? c then Some 0 else (λ i, i + 1) <$> rep_index rep c
  end.

(** The number of the type; [0] (string) when there is none or it is unknown. *)
Definition env_flags_parse_vartype (flags : cstr) : Z :=
  match flags with
  | c :: _ => default 0 (rep_index env_flags_vartype_rep c)
  | [] => 0
  end.

Definition env_flags_parse_varaccess (flags : cstr) : Z :=
  match flags with
  | _ :: c :: _ => default 0 (rep_index env_flags_varaccess_rep c)
  | _ => 0
  end.

(** [for (i = 0; i < sizeof(env_flags_varaccess_mask); i++)]: the bound is the
    size in bytes, 16, and the array has four elements. *)
Fixpoint binflags_loop (n : nat) (binflags i : Z) : option Z :=
  match n with
  | O => Some 0
  | S n =>
      mask ← aget env_flags_varaccess_mask i;
      if mask =? binflags .& ENV_FLAGS_VARACCESS_BIN_MASK then Some i
      else binflags_loop n binflags (i + 1)
  end.

Definition env_flags_parse_varaccess_from_binflags (binflags : Z) : option Z :=
  binflags_loop 16 binflags 0.

Definition env_parse_flags_to_bin (flags : cstr) : option Z :=
  mask ← aget env_flags_varaccess_mask (env_flags_parse_varaccess flags);
  Some ((env_flags_parse_vartype flags .& ENV_FLAGS_VARTYPE_BIN_MASK) .| mask).

(** *** Validation of a value.  A position in the value is the list of the
    characters that are left; the NUL is its end. *)

Definition is_hex_prefix (value : cstr) : bool :=
  match value with
  | a :: c :: _ => (a =? 48) && ((c =? 120) || (c =? 88))
  | _ => false
  end.

(** The loop of [skip_num]; no [max_digits] is the [-1] of the source. *)
Fixpoint skip_digits (hex : bool) (value : cstr) (max_digits : option nat) : cstr :=
  match max_digits with
  | Some O => value
  | _ =>
      match value with
      | [] => []
      | c :: value' =>
          if (if hex then isxdigit c else isdigit c)
          then skip_digits hex value' (pred <$> max_digits) else value
      end
  end.

Definition skip_num (hex : bool) (value : cstr) (max_digits : option nat) : cstr :=
  skip_digits hex (if hex && is_hex_prefix value then drop 2 value else value) max_digits.

(** [for (i = 0; i < n; i++)] over the groups of an address; [n] are the groups
    left, the last one ends the string, the others end in [sep]. *)
Fixpoint check_groups (n : nat) (hex : bool) (digits : nat) (sep : Z) (cur : cstr) : bool :=
  match n with
  | O => true
  | S n =>
      let end_ := skip_num hex cur (Some digits) in
      if (length end_ =? length cur)%nat then false
      else if hex && (length end_ + 2 =? length cur)%nat && is_hex_prefix cur then false
      else match n with
           | O => bool_decide (end_ = [])
           | _ => match end_ with
                  | c :: rest => if c =? sep then check_groups n hex digits sep rest else false
                  | [] => false
                  end
           end
  end.

Definition bool_chars : cstr := [49; 121; 116; 89; 84; 48; 110; 102; 78; 70].

Definition _env_flags_validate_type (value : cstr) (type : option env_flags_vartype) : bool :=
  match type with
  | Some env_flags_vartype_string => true
  | Some env_flags_vartype_decimal => bool_decide (skip_num false value None = [])
  | Some env_flags_vartype_hex =>
      bool_decide (skip_num true value None = [])
      && negb (bool_decide (length value = 2%nat) && is_hex_prefix value)
  | Some env_flags_vartype_bool =>
      match value with
      | [c] => bool_decide (c ∈ bool_chars)
      | _ => false
      end
  | Some env_flags_vartype_ipaddr => check_groups 4 false 3 46 value
  | Some env_flags_vartype_macaddr => check_groups 6 true 2 58 value
  | Some env_flags_vartype_end => false
  | None => true
  end.

(** *** The check before a change *)

Section validate.
Context (getenv_default : cstr -> option cstr).

Definition env_flags_validate (item : ENTRY) (newval : option cstr) (op : env_op) (flag : Z) : Z :=
  let oldval := match op with env_op_create => None | _ => data item end in
  let newval := default [] newval in
  let type_ok :=
    match op with
    | env_op_delete => true
    | _ => _env_flags_validate_type newval (vartype_of (ENV_FLAGS_VARTYPE_BIN_MASK .& flags item))
    end in
  if negb type_ok then -1
  else if negb (flag .& H_FORCE =? 0) then 0
  else
    match op with
    | env_op_delete =>
        if negb (flags item .& ENV_FLAGS_VARACCESS_PREVENT_DELETE =? 0) then 1 else 0
    | env_op_overwrite =>
        if negb (flags item .& ENV_FLAGS_VARACCESS_PREVENT_OVERWR =? 0) then 1
        else if negb (flags item .& ENV_FLAGS_VARACCESS_PREVENT_NONDEF_OVERWR =? 0) then
          let defval := match key item with
                        | Some k => default [] (getenv_default k)
                        | None => []
                        end in
          if negb (strcmp_list (default [] oldval) defval =? 0) then 1 else 0
        else 0
    | env_op_create =>
        if negb (flags item .& ENV_FLAGS_VARACCESS_PREVENT_CREATE =? 0) then 1 else 0
    end.
End validate.

(** ** Applying the lists *)

Section lists.
Context (ENV_FLAGS_LIST_STATIC ENV_CALLBACK_LIST_STATIC before : cstr).
(** The linker list of callbacks: [find_env_callback]. *)
Context (env_clbk : list (cstr * callback_t)).

Definition find_env_callback (name : cstr) : option callback_t :=
  snd <$> List.find (λ c, strcmp_list name (fst c) =? 0) env_clbk.

Definition env_flags_lookup (flags_list : option cstr) (name : cstr) : option (Z * cstr) :=
  '(ret, flags) ← match flags_list with
                  | Some _ => env_attr_lookup before flags_list name 3 []
                  | None => Some (1, [])
                  end;
  if negb (ret =? 0) then env_attr_lookup before (Some ENV_FLAGS_LIST_STATIC) name 3 flags
  else Some (ret, flags).

Definition set_entry_flags (e : ENTRY) (f : Z) : ENTRY := Entry (key e) (data e) (callback e) f.
Definition set_entry_callback (e : ENTRY) (c : option callback_t) : ENTRY :=
  Entry (key e) (data e) c (flags e).

(** [flags_list] is the pointer kept since the first call. *)
Definition env_flags_init (flags_list : option cstr) (var_entry : ENTRY) : option ENTRY :=
  name ← key var_entry;
  '(ret, fl) ← env_flags_lookup flags_list name;
  if (ret =? 0) && negb (bool_decide (fl = [])) then
    f ← env_parse_flags_to_bin fl; Some (set_entry_flags var_entry f)
  else Some var_entry.

Definition env_callback_init (callback_list : option cstr) (var_entry : ENTRY) : option ENTRY :=
  name ← key var_entry;
  '(ret, cb) ← match callback_list with
               | Some _ => env_attr_lookup before callback_list name 256 []
               | None => Some (1, [])
               end;
  '(ret, cb) ← (if negb (ret =? 0)
                then env_attr_lookup before (Some ENV_CALLBACK_LIST_STATIC) name 256 cb
                else Some (ret, cb));
  if (ret =? 0) && negb (bool_decide (cb = [])) then
    match find_env_callback cb with
    | Some f => Some (set_entry_callback var_entry (Some f))
    | None => Some var_entry
    end
  else Some var_entry.

Definition clear_flags (e : ENTRY) : Z * ENTRY := (0, set_entry_flags e 0).
Definition clear_callback (e : ENTRY) : Z * ENTRY := (0, set_entry_callback e None).

Context `{!EnvHooks}.

(** The entry that a search finds is changed through the pointer it returns. *)
Definition update_found (htab : hsearch_data) (name : cstr) (f : ENTRY -> option ENTRY)
    : option (Z * hsearch_data) :=
  '(r, htab) ← hsearch_r name None FIND htab 0;
  match retval r with
  | None => Some (0, htab)
  | Some idx =>
      s ← get_slot htab idx;
      e ← f (entry s);
      htab ← set_slot htab idx (Slot (used s) e);
      Some (0, htab)
  end.

Definition set_flags (htab : hsearch_data) (name : cstr) (value : option cstr)
    : option (Z * hsearch_data) :=
  update_found htab name (λ e,
    match value with
    | None | Some [] => Some (set_entry_flags e 0)
    | Some v => f ← env_parse_flags_to_bin v; Some (set_entry_flags e f)
    end).

Definition set_callback (htab : hsearch_data) (name : cstr) (value : option cstr)
    : option (Z * hsearch_data) :=
  update_found htab name (λ e,
    match value with
    | None | Some [] => Some (set_entry_callback e None)
    | Some v => Some (match find_env_callback v with
                      | Some f => set_entry_callback e (Some f)
                      | None => e
                      end)
    end).

Definition on_flags (htab : hsearch_data) (value : option cstr) : option (Z * hsearch_data) :=
  '(_, htab) ← hwalk_r htab clear_flags;
  '(_, htab) ← env_attr_walk set_flags (Some ENV_FLAGS_LIST_STATIC) htab;
  '(_, htab) ← env_attr_walk set_flags value htab;
  Some (0, htab).

Definition on_callbacks (htab : hsearch_data) (value : option cstr) : option (Z * hsearch_data) :=
  '(_, htab) ← hwalk_r htab clear_callback;
  '(_, htab) ← env_attr_walk set_callback (Some ENV_CALLBACK_LIST_STATIC) htab;
  '(_, htab) ← env_attr_walk set_callback value htab;
  Some (0, htab).
End lists.

(** * Theorems *)

(** ** Changing all entries *)

Section walking.
Context (f : ENTRY -> ENTRY).
Hypothesis f_key : forall e, key (f e) = key e.
Hypothesis f_data : forall e, data (f e) = data e.

Lemma hwalk_loop_rep n : forall htab t M i,
  htab_rep htab t M -> 1 <= i -> i + Z.of_nat n = size htab + 1 ->
  exists htab' t' M', hwalk_loop n (λ e, (0, f e)) htab i = Some (0, htab')
    /\ htab_rep htab' t' M' /\ size htab' = size htab /\ change_ok htab' = change_ok htab
    /\ (forall k j s, 1 <= j <= size htab -> aget t j = Some s -> live s k ->
          M' !! k = Some (if decide (i <= j) then f (entry s) else entry s))
    /\ (forall k, M !! k = None -> M' !! k = None).
Proof.
  induction n as [|n IH]; intros htab t M i HR Hi Hn; cbn [hwalk_loop].
  { exists htab, t, M. split_and!; try done. intros k j s Hj Hs Hl.
    rewrite decide_False by lia. apply (rep_lookup _ _ _ HR). eauto 10. }
  destruct (rep_get _ _ _ i HR) as (s & Hs & Hg & Hok); [lia|]. rewrite Hg. cbn [mbind option_bind].
  destruct (decide (0 < used s)) as [Hu|Hu].
  - rewrite (proj2 (Z.ltb_lt _ _) Hu). cbn iota beta. rewrite (set_slot_rep _ _ _ _ _ HR) by lia.
    cbn [mbind option_bind Z.eqb negb].
    destruct Hok as [([?|?] & _)|(k & d & Hk & Hd & _)]; [lia|lia|].
    assert (Hl : live s k) by done.
    pose proof (rep_replace htab t M i s k d (f (entry s)) HR ltac:(lia) Hs Hl
                  ltac:(by rewrite f_key) ltac:(by rewrite f_data)) as HR1. cbn zeta in HR1.
    destruct (IH _ _ _ (i + 1) HR1) as (htab' & t' & M' & -> & HR' & Hsz & Hco & Hin & Hout);
      [lia|cbn; lia|].
    exists htab', t', M'. split_and!; try done.
    + intros k' j s' Hj Hs' Hl'. pose proof (rep_length _ _ _ HR).
      destruct (decide (j = i)) as [->|Hne].
      * assert (s' = s) as -> by congruence. assert (k' = k) as -> by (destruct Hl', Hl; congruence).
        rewrite decide_True by lia.
        rewrite (Hin k i (Slot (used s) (f (entry s)))); [by rewrite decide_False by lia|done| |].
        -- by rewrite aget_insert, decide_True by lia.
        -- split; [done|]. cbn. by rewrite f_key.
      * rewrite (Hin k' j s'); [|done|by rewrite aget_insert, decide_False by (done || lia)|done].
        destruct (decide (i <= j)); [rewrite decide_True by lia|rewrite decide_False by lia]; done.
    + intros k' Hk'. apply Hout. destruct (decide (k' = k)) as [->|]; [|by rewrite lookup_insert_ne].
      enough (M !! k = Some (entry s)) by congruence. apply (rep_lookup _ _ _ HR). eauto 10 with lia.
  - rewrite (proj2 (Z.ltb_ge 0 (used s))) by lia.
    destruct (IH htab t M (i + 1) HR) as (htab' & t' & M' & -> & HR' & Hsz & Hco & Hin & Hout); [lia|lia|].
    exists htab', t', M'. split_and!; try done. intros k j s' Hj Hs' Hl.
    rewrite (Hin k j s') by done. destruct (decide (j = i)) as [->|].
    + assert (s' = s) as -> by congruence. destruct Hl. lia.
    + destruct (decide (i <= j)); [rewrite decide_True by lia|rewrite decide_False by lia]; done.
Qed.

Lemma hwalk_rep htab t M :
  htab_rep htab t M ->
  exists htab' t', hwalk_r htab (λ e, (0, f e)) = Some (0, htab')
    /\ htab_rep htab' t' (f <$> M) /\ size htab' = size htab /\ change_ok htab' = change_ok htab.
Proof.
  intros HR. destruct (rep_size _ _ _ HR) as [_ Hb].
  destruct (hwalk_loop_rep (Z.to_nat (size htab)) htab t M 1 HR)
    as (htab' & t' & M' & Hw & HR' & Hsz & Hco & Hin & Hout); [lia|lia|].
  exists htab', t'. split_and!; try done.
  assert (M' = f <$> M) as <-; [|done]. apply map_eq. intros k. rewrite lookup_fmap.
  destruct (M !! k) as [e|] eqn:HM; [|by apply Hout].
  apply (rep_lookup _ _ _ HR) in HM as (j & s & Hj & Hs & Hl & <-).
  rewrite (Hin k j s) by done. by rewrite decide_True by lia.
Qed.
End walking.

(** ** Changing one entry through the pointer a search returned *)

Lemma update_found_rep `{!EnvHooks} htab t M name (g : ENTRY -> option ENTRY) (h : ENTRY -> ENTRY) :
  (forall e, g e = Some (h e)) -> (forall e, key (h e) = key e) -> (forall e, data (h e) = data e) ->
  htab_rep htab t M -> Forall char_ok name ->
  exists htab' t', update_found htab name g = Some (0, htab')
    /\ htab_rep htab' t' (alter h name M) /\ size htab' = size htab /\ change_ok htab' = change_ok htab.
Proof.
  intros Hg Hkey Hdata HR Hc. unfold update_found. destruct (M !! name) as [e|] eqn:HM.
  - destruct (find_present htab t M name None 0 e HR Hc HM) as (i & s & Hi & Hs & Hl & <- & ->).
    cbn [mbind option_bind retval]. destruct (rep_get _ _ _ i HR Hi) as (s' & Hs' & Hgs & Hok).
    assert (s' = s) as -> by congruence. rewrite Hgs. cbn [mbind option_bind]. rewrite Hg. cbn [mbind option_bind].
    rewrite (set_slot_rep _ _ _ _ _ HR Hi). cbn [mbind option_bind].
    destruct (live_entry_map _ _ _ Hok Hl) as (d & Hd & _).
    eexists _, _. split; [done|]. split; [|done].
    assert (alter h name M = <[name := h (entry s)]> M) as ->.
    { apply map_eq. intros k. destruct (decide (k = name)) as [->|].
      - by rewrite lookup_alter_eq, lookup_insert_eq, HM.
      - by rewrite lookup_alter_ne, lookup_insert_ne. }
    eapply rep_replace; try done; [by rewrite Hkey; apply Hl|by rewrite Hdata].
  - rewrite (find_absent htab t M name None 0 HR Hc HM). cbn. exists htab, t.
    split_and!; try done. rewrite alter_id; [done|]. intros e He. congruence.
Qed.

(** ** What the lists say *)

(** The entries of a list that have a name. *)
Definition list_entries (l : option cstr) : list (cstr * option cstr) :=
  match l with
  | None => []
  | Some l => filter (λ e, e.1 <> []) (parse_entry <$> filter (λ e, e <> []) (split_on comma l))
  end.

(** The flags that an entry of the list stands for. *)
Definition entry_flags (value : option cstr) : Z :=
  match value with
  | None | Some [] => 0
  | Some v => default 0 (env_parse_flags_to_bin v)
  end.

(** The flags of the last entry for [k]. *)
Definition last_flags (k : cstr) (es : list (cstr * option cstr)) : Z :=
  foldl (λ acc e, if decide (e.1 = k) then entry_flags e.2 else acc) 0 es.

Lemma rep_index_range rep c i :
  rep_index rep c = Some i -> 0 <= i < Z.of_nat (length rep).
Proof.
  revert i. induction rep as [|r rep IH]; intros i; cbn [rep_index]; [done|].
  case_test; [intros [= <-]; cbn; lia|].
  destruct (rep_index rep c) as [j|]; cbn; [|done]. intros [= <-]. specialize (IH j eq_refl). lia.
Qed.

Lemma env_parse_flags_total v : env_parse_flags_to_bin v = Some (default 0 (env_parse_flags_to_bin v)).
Proof.
  unfold env_parse_flags_to_bin.
  destruct (aget_is_Some env_flags_varaccess_mask (env_flags_parse_varaccess v)) as [m ->]; [|done].
  unfold env_flags_parse_varaccess. destruct v as [|? [|c ?]]; [cbn; lia|cbn; lia|].
  destruct (rep_index env_flags_varaccess_rep c) as [i|] eqn:Hi; cbn [default]; [|cbn; lia].
  by apply rep_index_range in Hi.
Qed.

Lemma Forall_drop_spaces (P : Z -> Prop) s : Forall P s -> Forall P (drop_spaces s).
Proof. induction 1; cbn; [constructor|]. case_test; [done|by constructor]. Qed.

Lemma Forall_strim (P : Z -> Prop) s : Forall P s -> Forall P (strim_list s).
Proof. intros Hs. by apply Forall_reverse, Forall_drop_spaces, Forall_reverse, Forall_drop_spaces. Qed.

Lemma Forall_split_at (P : Z -> Prop) c s a b :
  Forall P s -> split_at c s = Some (a, b) -> Forall P a /\ Forall P b.
Proof.
  revert a. induction s as [|x s IH]; intros a Hs; cbn [split_at]; [done|].
  apply Forall_cons in Hs as [Hx Hs]. case_test; [intros [= <- <-]; by split; [constructor|]|].
  destruct (split_at c s) as [[a' b']|]; cbn; [|done]. intros [= <- <-].
  destruct (IH a' Hs eq_refl). split; [by constructor|done].
Qed.

Lemma Forall_split_on (P : Z -> Prop) c s : Forall P s -> Forall (Forall P) (split_on c s).
Proof.
  induction 1 as [|x s Hx Hs IH]; cbn [split_on]; [by repeat constructor|].
  case_test; [by constructor; [constructor|]|].
  destruct (split_on c s) as [|e es]; [by repeat constructor|].
  apply Forall_cons in IH as [He Hes]. constructor; [by constructor|done].
Qed.

Lemma parse_entry_chars e : Forall char_ok e -> Forall char_ok (parse_entry e).1.
Proof.
  intros He. unfold parse_entry. destruct (split_at colon e) as [[n a]|] eqn:Hs; cbn.
  - apply (Forall_split_at _ _ _ _ _ He) in Hs as [? _]. by apply Forall_strim.
  - by apply Forall_strim.
Qed.

(** Applying the entries one after the other. *)
Definition apply_flags (M : gmap cstr ENTRY) (es : list (cstr * option cstr)) : gmap cstr ENTRY :=
  foldl (λ M e, alter (λ x, set_entry_flags x (entry_flags e.2)) e.1 M) M es.

Lemma apply_flags_lookup es : forall M k,
  apply_flags M es !! k
  = (λ x, set_entry_flags x (foldl (λ acc e, if decide (e.1 = k) then entry_flags e.2 else acc)
                               (flags x) es)) <$> M !! k.
Proof.
  induction es as [|[n a] es IH]; intros M k; cbn [apply_flags foldl].
  - destruct (M !! k) as [[]|]; done.
  - rewrite (IH _ k). cbn [fst snd]. destruct (decide (n = k)) as [->|].
    + rewrite lookup_alter_eq. by destruct (M !! k).
    + rewrite lookup_alter_ne by done. by destruct (M !! k).
Qed.

Section on_flags.
Context `{!EnvHooks} (ENV_FLAGS_LIST_STATIC : cstr).
Hypothesis static_ok : Forall char_ok ENV_FLAGS_LIST_STATIC.

Lemma set_flags_rep htab t M name value :
  htab_rep htab t M -> Forall char_ok name ->
  exists htab' t', set_flags htab name value = Some (0, htab')
    /\ htab_rep htab' t' (alter (λ x, set_entry_flags x (entry_flags value)) name M)
    /\ size htab' = size htab /\ change_ok htab' = change_ok htab.
Proof.
  intros HR Hn. unfold set_flags.
  apply (update_found_rep htab t M name _ (λ x, set_entry_flags x (entry_flags value))); try done.
  intros e. destruct value as [[|c v]|]; try done. cbn [entry_flags].
  rewrite (env_parse_flags_total (c :: v)). done.
Qed.

Lemma walk_flags_rep l : forall htab t M,
  htab_rep htab t M -> Forall (Forall char_ok) l ->
  exists htab' t', walk_entries set_flags l htab = Some (0, htab')
    /\ htab_rep htab' t' (apply_flags M (filter (λ e, e.1 <> []) (parse_entry <$> filter (λ e, e <> []) l)))
    /\ size htab' = size htab /\ change_ok htab' = change_ok htab.
Proof.
  induction l as [|e l IH]; intros htab t M HR Hl; cbn [walk_entries]; [by exists htab, t|].
  apply Forall_cons in Hl as [He Hl]. rewrite filter_cons.
  destruct (decide (e = [])) as [->|Hne].
  { rewrite bool_decide_true by done. rewrite decide_False by (intros Hx; by apply Hx). by apply (IH _ t). }
  rewrite bool_decide_false by done. rewrite decide_True by done. cbn [fmap list_fmap].
  pose proof (parse_entry_chars e He) as Hpe. rewrite filter_cons.
  destruct (parse_entry e) as [name attributes]. cbn [fst] in *.
  destruct (decide (name = [])) as [->|Hnn].
  { rewrite bool_decide_true by done. rewrite decide_False by (intros Hx; by apply Hx). by apply (IH _ t). }
  rewrite bool_decide_false by done. rewrite decide_True by done.
  destruct (set_flags_rep htab t M name attributes HR Hpe) as (h1 & t1 & -> & HR1 & Hs1 & Hc1).
  cbn [mbind option_bind Z.eqb negb].
  destruct (IH h1 t1 _ HR1 Hl) as (h2 & t2 & Hw & HR2 & Hs2 & Hc2). exists h2, t2.
  split_and!; [done|exact HR2|congruence|congruence].
Qed.

Lemma attr_walk_flags_rep htab t M l :
  htab_rep htab t M -> (forall v, l = Some v -> Forall char_ok v) ->
  exists r htab' t', env_attr_walk set_flags l htab = Some (r, htab')
    /\ htab_rep htab' t' (apply_flags M (list_entries l))
    /\ size htab' = size htab /\ change_ok htab' = change_ok htab.
Proof.
  intros HR Hl. unfold env_attr_walk, list_entries. destruct l as [l|]; [|by exists 1, htab, t].
  destruct (walk_flags_rep (split_on comma l) htab t M HR) as (h' & t' & -> & ? & ? & ?).
  { by apply Forall_split_on, Hl. }
  by exists 0, h', t'.
Qed.

(** After a change of [.flags] every variable has the flags of its last
    mention in the static list followed by the new value, and no flags when it
    is not mentioned; names, values and callbacks stay as they are. *)
Theorem on_flags_spec htab t M value :
  htab_rep htab t M -> (forall v, value = Some v -> Forall char_ok v) ->
  exists htab' t' M', on_flags ENV_FLAGS_LIST_STATIC htab value = Some (0, htab')
    /\ htab_rep htab' t' M'
    /\ forall k, M' !! k =
         (λ e, set_entry_flags e
            (last_flags k (list_entries (Some ENV_FLAGS_LIST_STATIC) ++ list_entries value)))
         <$> M !! k.
Proof.
  intros HR Hv. unfold on_flags.
  destruct (hwalk_rep (λ e, set_entry_flags e 0) ltac:(done) ltac:(done) htab t M HR)
    as (h1 & t1 & Hw & HR1 & _).
  change clear_flags with (λ e, (0, set_entry_flags e 0)). rewrite Hw. cbn [mbind option_bind].
  destruct (attr_walk_flags_rep h1 t1 _ (Some ENV_FLAGS_LIST_STATIC) HR1) as (r2 & h2 & t2 & -> & HR2 & _).
  { by intros v [= <-]. }
  cbn [mbind option_bind].
  destruct (attr_walk_flags_rep h2 t2 _ value HR2 Hv) as (r3 & h3 & t3 & -> & HR3 & _).
  cbn [mbind option_bind]. eexists _, _, _. split; [done|]. split; [exact HR3|].
  intros k. rewrite apply_flags_lookup, apply_flags_lookup, lookup_fmap. unfold last_flags.
  rewrite foldl_app. by destruct (M !! k).
Qed.
End on_flags.

(** ** Invariants of the environment

    The operations of the shell and of the importer on the table, as steps.
    Insertions happen while there is a slot that was never used. *)

Section steps.
Context `{!EnvHooks, !EnvHooksOk} (getenv_default : cstr -> option cstr).

Inductive env_step (P : Z -> Prop) : hsearch_data -> hsearch_data -> Prop :=
| step_enter htab t k d flag r htab' :
    P flag -> Forall char_ok k -> table htab = Some t -> has_free t (size htab) ->
    hsearch_r k (Some d) ENTER htab flag = Some (r, htab') -> env_step P htab htab'
| step_delete htab k flag res htab' :
    P flag -> Forall char_ok k -> hdelete_r k htab flag = Some (res, htab') ->
    env_step P htab htab'.

(** The table with its check, and a property of its variables. *)
Definition env_inv (I : gmap cstr ENTRY -> Prop) (htab : hsearch_data) : Prop :=
  exists t M, htab_rep htab t M /\ change_ok htab = Some (env_flags_validate getenv_default) /\ I M.

(** A property that the specifications of the operations preserve holds after
    any sequence of them. *)
Lemma env_inv_steps (P : Z -> Prop) (I : gmap cstr ENTRY -> Prop) :
  (forall htab M k d flag, change_ok htab = Some (env_flags_validate getenv_default) ->
     P flag -> I M -> I (enter_spec htab M k d flag).2) ->
  (forall htab M k flag, change_ok htab = Some (env_flags_validate getenv_default) ->
     P flag -> I M -> I (delete_spec htab M k flag).2) ->
  forall htab htab', env_inv I htab -> rtc (env_step P) htab htab' -> env_inv I htab'.
Proof.
  intros Hent Hdel htab htab' Hinv Hsteps. induction Hsteps as [|h1 h2 h3 Hstep _ IH]; [done|].
  apply IH. destruct Hinv as (t & M & HR & Hco & HI).
  destruct Hstep as [h1 t1 k d flag r h2 HP Hk Ht Hfree Hs|h1 k flag res h2 HP Hk Hd].
  - assert (t1 = t) as -> by (pose proof (rep_table _ _ _ HR); congruence).
    pose proof (hsearch_enter_spec h1 t M k d flag HR Hk (λ _ _, Hfree)) as Hspec.
    specialize (Hent h1 M k d flag Hco HP HI).
    destruct (enter_spec h1 M k d flag) as [err M'].
    destruct Hspec as (r' & h' & t' & Hs' & HR' & _ & Hco' & _).
    rewrite Hs in Hs'. injection Hs' as <- <-. exists t', M'. split_and!; [done|congruence|done].
  - pose proof (hdelete_spec h1 t M k flag HR Hk) as Hspec.
    specialize (Hdel h1 M k flag Hco HP HI).
    destruct (delete_spec h1 M k flag) as [res' M'].
    destruct Hspec as (h' & t' & Hd' & HR' & _ & Hco' & _).
    rewrite Hd in Hd'. injection Hd' as <- <-. exists t', M'. split_and!; [done|congruence|done].
Qed.

Definition not_forced (flag : Z) : Prop := flag .& H_FORCE = 0.

(** Read-only and write-once variables have both bits. *)
Definition protected (e : ENTRY) : Prop :=
  flags e .& ENV_FLAGS_VARACCESS_PREVENT_DELETE <> 0
  /\ flags e .& ENV_FLAGS_VARACCESS_PREVENT_OVERWR <> 0.


(** The value has the type that the flags of the entry ask for. *)
Definition well_typed (M : gmap cstr ENTRY) : Prop :=
  forall k e d, M !! k = Some e -> data e = Some d ->
    _env_flags_validate_type d (vartype_of (ENV_FLAGS_VARTYPE_BIN_MASK .& flags e)) = true.

Lemma validate_typed e d op flag :
  op <> env_op_delete -> negb (env_flags_validate getenv_default e (Some d) op flag =? 0) = false ->
  _env_flags_validate_type d (vartype_of (ENV_FLAGS_VARTYPE_BIN_MASK .& flags e)) = true.
Proof.
  intros Hop Hv. apply negb_false_iff, Z.eqb_eq in Hv. unfold env_flags_validate in Hv.
  change (default [] (Some d)) with d in Hv.
  destruct (_env_flags_validate_type d _) eqn:Ht; [done|]. by destruct op.
Qed.

Lemma well_typed_insert M k e d :
  well_typed M -> data e = Some d ->
  _env_flags_validate_type d (vartype_of (ENV_FLAGS_VARTYPE_BIN_MASK .& flags e)) = true ->
  well_typed (<[k := e]> M).
Proof.
  intros HM Hd Ht k' e' d'. destruct (decide (k' = k)) as [->|].
  - rewrite lookup_insert_eq. intros [= <-] Hd'. by simplify_eq.
  - rewrite lookup_insert_ne by done. apply HM.
Qed.

End steps.

(** ** The grammar of the types *)

Definition digits_only (g : cstr) : Prop := Forall (λ c, isdigit c = true) g.

(** A group of an address: one to [n] digits. *)
Definition is_group (n : nat) (g : cstr) : Prop := (1 <= length g <= n)%nat /\ digits_only g.

Fixpoint join (sep : Z) (gs : list cstr) : cstr :=
  match gs with
  | [] => []
  | [g] => g
  | g :: gs => g ++ sep :: join sep gs
  end.

Lemma skip_digits_split n cur :
  exists g, cur = g ++ skip_digits false cur (Some n) /\ digits_only g /\ (length g <= n)%nat.
Proof.
  revert cur. induction n as [|n IH]; intros cur;
    [exists []; split_and!; [by destruct cur|constructor|cbn; lia]|].
  destruct cur as [|c cur]; [exists []; split_and!; [done|constructor|cbn; lia]|].
  cbn [skip_digits fmap option_fmap option_map pred]. case_test.
  - destruct (IH cur) as (g & Hc & Hg & Hl). exists (c :: g).
    split_and!; [cbn; by f_equal|by constructor|cbn; lia].
  - exists []. split_and!; [done|constructor|cbn; lia].
Qed.

Lemma skip_digits_app n g rest :
  digits_only g -> (length g <= n)%nat ->
  match rest with [] => True | c :: _ => isdigit c = false end ->
  skip_digits false (g ++ rest) (Some n) = rest.
Proof.
  intros Hg. revert n. induction Hg as [|c g Hc Hg IH]; intros n Hn Hr; cbn [app].
  - destruct n, rest as [|c rest]; try done. cbn. by rewrite Hr.
  - cbn in Hn. destruct n as [|n]; [lia|]. cbn [skip_digits fmap option_fmap option_map pred].
    rewrite Hc. apply IH; [lia|done].
Qed.

Lemma check_groups_spec m n sep cur :
  isdigit sep = false ->
  check_groups (S n) false m sep cur = true
  <-> exists gs, length gs = S n /\ Forall (is_group m) gs /\ cur = join sep gs.
Proof.
  intros Hsep. revert cur. induction n as [|n IH]; intros cur.
  - cbn [check_groups]. unfold skip_num. cbn [andb].
    destruct (skip_digits_split m cur) as (g & Hcur & Hg & Hl).
    set (rest := skip_digits false cur (Some m)) in *. split.
    + destruct (Nat.eqb_spec (length rest) (length cur)) as [|Hne]; [done|].
      intros Hnil%bool_decide_eq_true. rewrite Hnil, app_nil_r in Hcur. subst g. exists [cur].
      rewrite Hnil in Hne. cbn in Hne. split_and!; [done| |done].
      constructor; [|constructor]. split; [lia|done].
    + intros (gs & Hlen & Hgs & ->). destruct gs as [|g1 [|]]; cbn in Hlen; try lia.
      apply Forall_cons in Hgs as [[Hg1 Hd1] _]. cbn [join] in *.
      assert (rest = []) as Hnil.
      { unfold rest. rewrite <-(app_nil_r g1) at 1. by apply skip_digits_app; [|lia|]. }
      rewrite Hnil. cbn. destruct g1; [cbn in Hg1; lia|done].
  - change (check_groups (S (S n)) false m sep cur) with
      (let end_ := skip_num false cur (Some m) in
       if (length end_ =? length cur)%nat then false
       else match end_ with
            | c :: rest => if c =? sep then check_groups (S n) false m sep rest else false
            | [] => false
            end).
    unfold skip_num. cbn [andb]. cbn zeta.
    destruct (skip_digits_split m cur) as (g & Hcur & Hg & Hl).
    set (rest := skip_digits false cur (Some m)) in *. split.
    + destruct (Nat.eqb_spec (length rest) (length cur)) as [|Hne]; [done|].
      destruct rest as [|c rest'] eqn:Hr; [done|]. destruct (Z.eqb_spec c sep) as [->|]; [|done].
      intros (gs & Hlen & Hgs & ->)%IH. exists (g :: gs). split_and!; [cbn; lia| |].
      * constructor; [|done]. split; [|done]. subst cur. rewrite length_app in Hne. lia.
      * rewrite Hcur. destruct gs; [done|]. done.
    + intros (gs & Hlen & Hgs & ->). destruct gs as [|g1 [|g2 gs]]; cbn in Hlen; try lia.
      apply Forall_cons in Hgs as [[Hg1 Hd1] Hgs].
      change (join sep (g1 :: g2 :: gs)) with (g1 ++ sep :: join sep (g2 :: gs)) in *.
      assert (rest = sep :: join sep (g2 :: gs)) as Hrest by (unfold rest; apply skip_digits_app; [done|lia|done]).
      rewrite Hrest. destruct (Nat.eqb_spec (length (sep :: join sep (g2 :: gs))) (length (g1 ++ sep :: join sep (g2 :: gs)))) as [He|_].
      { rewrite length_app in He. lia. }
      rewrite Z.eqb_refl. apply IH. exists (g2 :: gs). split_and!; [cbn; lia|done|done].
Qed.

Lemma skip_digits_none hex cur :
  skip_digits hex cur None = [] <-> Forall (λ c, (if hex then isxdigit c else isdigit c) = true) cur.
Proof.
  induction cur as [|c cur IH]; cbn [skip_digits fmap option_fmap option_map]; [by split; [constructor|]|].
  destruct (if hex then isxdigit c else isdigit c) eqn:Hc.
  - rewrite IH. split; [by constructor|by intros [_ ?]%Forall_cons].
  - split; [done|]. intros [Hc' _]%Forall_cons. congruence.
Qed.

Lemma is_hex_prefix_inv v :
  is_hex_prefix v = true -> exists x h, v = 48 :: x :: h /\ (x = 120 \/ x = 88).
Proof.
  destruct v as [|c [|x h]]; [done|done|]. cbn. intros Hp. exists x, h.
  split; [f_equal; lia|lia].
Qed.

(** The accepted values of the types: a decimal number is digits, an IP
    address four groups of one to three digits joined by dots, a hexadecimal
    number hexadecimal digits with or without the prefix, which must be
    followed by a digit; the empty string passes for a number. *)
Theorem validate_type_spec v :
  (_env_flags_validate_type v (Some env_flags_vartype_decimal) = true <-> digits_only v)
  /\ (_env_flags_validate_type v (Some env_flags_vartype_ipaddr) = true
      <-> exists g1 g2 g3 g4, Forall (is_group 3) [g1; g2; g3; g4]
            /\ v = g1 ++ 46 :: g2 ++ 46 :: g3 ++ 46 :: g4)
  /\ (_env_flags_validate_type v (Some env_flags_vartype_hex) = true
      <-> Forall (λ c, isxdigit c = true) v
          \/ exists x h, v = 48 :: x :: h /\ (x = 120 \/ x = 88) /\ h <> []
               /\ Forall (λ c, isxdigit c = true) h)
  /\ (_env_flags_validate_type v (Some env_flags_vartype_bool) = true
      <-> exists c, v = [c] /\ c ∈ bool_chars).
Proof.
  split_and!; cbn [_env_flags_validate_type].
  - rewrite bool_decide_eq_true. apply (skip_digits_none false).
  - rewrite check_groups_spec by done. split.
    + intros (gs & Hl & Hg & ->). destruct gs as [|g1 [|g2 [|g3 [|g4 [|]]]]]; cbn in Hl; try lia. by exists g1, g2, g3, g4.
    + intros (g1 & g2 & g3 & g4 & Hg & ->). by exists [g1; g2; g3; g4].
  - rewrite andb_true_iff, bool_decide_eq_true, negb_true_iff. unfold skip_num.
    rewrite skip_digits_none. cbn [andb]. destruct (is_hex_prefix v) eqn:Hp.
    + assert (exists x h, v = 48 :: x :: h /\ (x = 120 \/ x = 88)) as (x & h & -> & Hx).
      { by apply is_hex_prefix_inv. }
      cbn [drop length]. rewrite andb_true_r, bool_decide_eq_false. split.
      * intros [Hh Hl]. right. exists x, h. split_and!; try done. intros ->. done.
      * intros [Hall|(x' & h' & [= <- <-] & _ & Hne & Hh)].
        { exfalso. apply Forall_cons in Hall as [_ [Hx' _]%Forall_cons]. by destruct Hx as [-> | ->]. }
        split; [done|]. destruct h; [done|cbn; lia].
    + rewrite andb_false_r. split; [by intros [? _]; left|]. intros [?|(x & h & -> & Hx & _)]; [done|].
      exfalso. cbn in Hp. destruct Hx as [-> | ->]; done.
  - destruct v as [|c [|c' v]]; [split; [done|]; by intros (? & ? & _)| |split; [done|]; by intros (? & ? & _)].
    rewrite bool_decide_eq_true. split; [by exists c|]. by intros (c' & [= <-] & ?).
Qed.

(** ** The hooks of the hash table *)

Section hooks.
Context (ENV_FLAGS_LIST_STATIC ENV_CALLBACK_LIST_STATIC before : cstr).
Context (env_clbk : list (cstr * callback_t)) (flags_list callback_list : option cstr).

(** The implementation that the board links; the allocator always has room, and
    a list that would overrun a buffer changes nothing here. *)
#[local] Instance board_hooks : EnvHooks := {|
  strdup := Some;
  Hashtable.env_callback_init e :=
    default e (env_callback_init ENV_CALLBACK_LIST_STATIC before env_clbk callback_list e);
  Hashtable.env_flags_init e := default e (env_flags_init ENV_FLAGS_LIST_STATIC before flags_list e)
|}.

Lemma env_flags_init_same e e' :
  env_flags_init ENV_FLAGS_LIST_STATIC before flags_list e = Some e' -> key e' = key e /\ data e' = data e.
Proof.
  unfold env_flags_init. intros H. bind_inv H. bind_inv H. destruct p as [ret fl].
  case_test_in H; [bind_inv H|]; by simplify_eq.
Qed.

Lemma env_callback_init_same e e' :
  env_callback_init ENV_CALLBACK_LIST_STATIC before env_clbk callback_list e = Some e' ->
  key e' = key e /\ data e' = data e.
Proof.
  unfold env_callback_init. intros H. bind_inv H. bind_inv H. destruct p as [ret cb]. bind_inv H.
  destruct p as [ret' cb']. case_test_in H; [destruct (find_env_callback env_clbk cb')|]; by simplify_eq.
Qed.

#[local] Instance board_hooks_ok : EnvHooksOk.
Proof.
  split; cbn; [done|..]; intros e.
  1,2: destruct (env_callback_init _ _ _ _ e) eqn:He; [|done]; by apply env_callback_init_same in He as [? ?].
  1,2: destruct (env_flags_init _ _ _ e) eqn:He; [|done]; by apply env_flags_init_same in He as [? ?].
Qed.
End hooks.

(** ** Witnesses *)

(** The static list is ["a:so,"]: the variable [a] is a write-once string. *)
Definition wo_static : cstr := [97; 58; 115; 111; 44].
#[local] Instance wo_hooks : EnvHooks := board_hooks wo_static [] [0] [] None None.
#[local] Instance wo_hooks_ok : EnvHooksOk := board_hooks_ok wo_static [] [0] [] None None.

Definition wo_check : ENTRY -> option cstr -> env_op -> Z -> Z := env_flags_validate (λ _, None).
Definition wo_entry : ENTRY := Entry (Some [97]) (Some [49]) None 40.
Definition wo_slots : list _ENTRY := [SLOT0; SLOT0; SLOT0; Slot 3 wo_entry; SLOT0; SLOT0].
Definition wo_fresh : hsearch_data := Htab (Some (replicate 6 SLOT0)) 5 0 (Some wo_check).
Definition wo_htab : hsearch_data := Htab (Some wo_slots) 5 1 (Some wo_check).

(** Creating [a] gives it the flags of the list; deleting it is rejected. *)
Lemma wo_created_by co :
  co wo_entry (Some [49]) env_op_create 0 = 0 ->
  hsearch_r [97] (Some [49]) ENTER (Htab (Some (replicate 6 SLOT0)) 5 0 (Some co)) 0
  = Some (Hres 1 (Some 3) None, Htab (Some wo_slots) 5 1 (Some co)).
Proof. intros Hco. vm_compute. vm_compute in Hco. by rewrite Hco. Qed.

Lemma wo_created : hsearch_r [97] (Some [49]) ENTER wo_fresh 0 = Some (Hres 1 (Some 3) None, wo_htab).
Proof. apply wo_created_by. vm_compute. reflexivity. Qed.

Lemma wo_not_deleted co :
  co wo_entry None env_op_delete 0 = 1 ->
  hdelete_r [97] (Htab (Some wo_slots) 5 1 (Some co)) 0 = Some (0, Htab (Some wo_slots) 5 1 (Some co)).
Proof. intros Hco. vm_compute. vm_compute in Hco. by rewrite Hco. Qed.

Lemma wo_rep : htab_rep wo_htab wo_slots {[ [97] := wo_entry ]}.
Proof.
  pose proof (rep_fresh 5 (Some wo_check) good_size_5) as HR.
  eapply (rep_insert _ _ _ 3 SLOT0 [97] [49] wo_entry) in HR.
  - exact HR.
  - cbn. lia.
  - done.
  - by left.
  - done.
  - exists 0. split; [cbn; lia|]. split; [vm_compute; done|]. intros; lia.
  - done.
  - done.
  - constructor; [unfold char_ok; lia|constructor].
  - done.
Qed.

Lemma wo_delete_step : env_step not_forced wo_htab wo_htab.
Proof.
  apply (step_delete _ _ [97] 0 0); [done|constructor; [unfold char_ok; lia|constructor]|].
  apply wo_not_deleted. vm_compute. reflexivity.
Qed.

Lemma on_flags_spec_witness :
  exists htab' t' M', on_flags wo_static wo_htab (Some [97; 58; 100]) = Some (0, htab')
    /\ htab_rep htab' t' M'
    /\ forall k, M' !! k =
         (λ e, set_entry_flags e
            (last_flags k (list_entries (Some wo_static) ++ list_entries (Some [97; 58; 100]))))
         <$> ({[ [97] := wo_entry ]} : gmap cstr ENTRY) !! k.
Proof.
  apply (on_flags_spec wo_static) with (t := wo_slots).
  - repeat constructor; unfold char_ok; lia.
  - exact wo_rep.
  - intros v [= <-]. repeat constructor; unfold char_ok; lia.
Defined.



(** A name that is empty makes the search for it go round for ever: no number
    of turns is enough. *)
Theorem env_attr_lookup_empty_diverges fuel l :
  exact_match [0] l [] 0 = Some false -> lookup_loop fuel [0] l [] (reverse_strstr l [] None) = None.
Proof. intros Hm. induction fuel as [|fuel IH]; [done|]. cbn [lookup_loop]. cbn. by rewrite Hm. Qed.

(** Flags that no mask describes run the search over the end of the array. *)
Theorem binflags_out_of_bounds : env_flags_parse_varaccess_from_binflags 8 = None.
Proof. reflexivity. Qed.
