(* ===== verification/Crc.v ===== *)
(** * Cyclic redundancy checks
    ([lib/crc32_rk.c], [lib/crc32.c], [lib/crc16.c], [lib/crc7.c], [lib/crc8.c],
    [board/rockchip/common/platform/crc.c])

    The tables are the ones of the sources; bytes are numbers below 256 and
    buffers lists of bytes.  The processor is little-endian, so [cpu_to_le32]
    changes nothing. *)

From S2P Require Import Prelude.

(** [crc_table] of [lib/crc32_rk.c]. *)
Definition crc_table_rk : list Z :=
  [0; 79760823; 159521646; 222500569; 319043292; 398801771;
   445001138; 507977733; 638086584; 583622671; 797603542; 726367073;
   890002276; 835540691; 1015955466; 944721341; 1276173168; 1221711559;
   1167245342; 1096011177; 1595207084; 1540743195; 1452734146; 1381497717;
   1780004552; 1859763071; 1671081382; 1734058001; 2031910932; 2111671715;
   1889442682; 1952421581; 2552346336; 2631973719; 2443423118; 2506268729;
   2334490684; 2414120331; 2192022354; 2254870245; 3190414168; 3135821551;
   3081486390; 3010121089; 2905468292; 2850873395; 2762995434; 2691627869;
   3560009104; 3505414183; 3719526142; 3648158537; 3342162764; 3287570171;
   3468116002; 3396750741; 4063821864; 4143451551; 4223343430; 4286191345;
   3778885364; 3858512707; 3904843162; 3967688749; 880959607; 809725376;
   1023441689; 968980142; 663115435; 591878940; 772033989; 717570162;
   311037391; 374014072; 453514913; 533273366; 26098451; 89077412;
   135012477; 214773194; 2022882055; 2085861040; 1896915049; 1976675806;
   1805028827; 1868005484; 1645516469; 1725274882; 1587205823; 1515969288;
   1461243345; 1406779494; 1302257763; 1231023572; 1142749965; 1088288442;
   2896418455; 2825050912; 2770456057; 2715861070; 3215450187; 3144084988;
   3055942437; 3001349778; 2326510383; 2389358232; 2200543297; 2280173046;
   2578419187; 2641264708; 2418906781; 2498534186; 3769830887; 3832676432;
   3912308361; 3991935806; 4088871739; 4151719564; 4197785685; 4277415394;
   3334168671; 3262803432; 3476650801; 3422058118; 3586086531; 3514719028;
   3695005165; 3640410202; 1761919214; 1841679705; 1619450752; 1682429495;
   2046883378; 2126642053; 1937960284; 2000937195; 1326230870; 1271767265;
   1183757880; 1112521615; 1544067978; 1489606205; 1435140324; 1363905875;
   622074782; 567612969; 748028144; 676793671; 907029826; 852566261;
   1066546732; 995310491; 52196902; 131955601; 178154824; 241131775;
   270024954; 349785421; 429546388; 492525091; 4045764110; 4125391801;
   4171722080; 4234567895; 3793830098; 3873459557; 3953351612; 4016199179;
   3610057654; 3555464705; 3736010968; 3664645487; 3291032938; 3236438237;
   3450549764; 3379182515; 3174411646; 3119816905; 3031938576; 2960571303;
   2922486690; 2867893781; 2813558988; 2742193531; 2604515526; 2684145009;
   2462047144; 2524894751; 2285499930; 2365127597; 2176576884; 2239422659;
   1569104025; 1497869614; 1409596407; 1355134528; 1317180997; 1245944818;
   1191218475; 1136754844; 2072956193; 2135933078; 1913443919; 1993202680;
   1753938941; 1816917578; 1627971731; 1707732260; 295074793; 358053470;
   403988615; 483749168; 43142453; 106119298; 185620059; 265378796;
   933107281; 861871078; 1042025791; 987562120; 614080653; 542846266;
   756562915; 702101076; 3316061817; 3244694478; 3424980247; 3370385568;
   3601014949; 3529649426; 3743497163; 3688904316; 3819928513; 3882776182;
   3928842415; 4008471832; 4037758237; 4100604074; 4180235891; 4259863492;
   2310524169; 2373370046; 2151011943; 2230639568; 2595486677; 2658334306;
   2469519547; 2549148940; 2948571313; 2877205766; 2789063647; 2734470760;
   3166410349; 3095043034; 3040447747; 2985853108].

(** [crc_table] of [lib/crc32.c]. *)
Definition crc_table : list Z :=
  [0; 1996959894; 3993919788; 2567524794; 124634137; 1886057615;
   3915621685; 2657392035; 249268274; 2044508324; 3772115230; 2547177864;
   162941995; 2125561021; 3887607047; 2428444049; 498536548; 1789927666;
   4089016648; 2227061214; 450548861; 1843258603; 4107580753; 2211677639;
   325883990; 1684777152; 4251122042; 2321926636; 335633487; 1661365465;
   4195302755; 2366115317; 997073096; 1281953886; 3579855332; 2724688242;
   1006888145; 1258607687; 3524101629; 2768942443; 901097722; 1119000684;
   3686517206; 2898065728; 853044451; 1172266101; 3705015759; 2882616665;
   651767980; 1373503546; 3369554304; 3218104598; 565507253; 1454621731;
   3485111705; 3099436303; 671266974; 1594198024; 3322730930; 2970347812;
   795835527; 1483230225; 3244367275; 3060149565; 1994146192; 31158534;
   2563907772; 4023717930; 1907459465; 112637215; 2680153253; 3904427059;
   2013776290; 251722036; 2517215374; 3775830040; 2137656763; 141376813;
   2439277719; 3865271297; 1802195444; 476864866; 2238001368; 4066508878;
   1812370925; 453092731; 2181625025; 4111451223; 1706088902; 314042704;
   2344532202; 4240017532; 1658658271; 366619977; 2362670323; 4224994405;
   1303535960; 984961486; 2747007092; 3569037538; 1256170817; 1037604311;
   2765210733; 3554079995; 1131014506; 879679996; 2909243462; 3663771856;
   1141124467; 855842277; 2852801631; 3708648649; 1342533948; 654459306;
   3188396048; 3373015174; 1466479909; 544179635; 3110523913; 3462522015;
   1591671054; 702138776; 2966460450; 3352799412; 1504918807; 783551873;
   3082640443; 3233442989; 3988292384; 2596254646; 62317068; 1957810842;
   3939845945; 2647816111; 81470997; 1943803523; 3814918930; 2489596804;
   225274430; 2053790376; 3826175755; 2466906013; 167816743; 2097651377;
   4027552580; 2265490386; 503444072; 1762050814; 4150417245; 2154129355;
   426522225; 1852507879; 4275313526; 2312317920; 282753626; 1742555852;
   4189708143; 2394877945; 397917763; 1622183637; 3604390888; 2714866558;
   953729732; 1340076626; 3518719985; 2797360999; 1068828381; 1219638859;
   3624741850; 2936675148; 906185462; 1090812512; 3747672003; 2825379669;
   829329135; 1181335161; 3412177804; 3160834842; 628085408; 1382605366;
   3423369109; 3138078467; 570562233; 1426400815; 3317316542; 2998733608;
   733239954; 1555261956; 3268935591; 3050360625; 752459403; 1541320221;
   2607071920; 3965973030; 1969922972; 40735498; 2617837225; 3943577151;
   1913087877; 83908371; 2512341634; 3803740692; 2075208622; 213261112;
   2463272603; 3855990285; 2094854071; 198958881; 2262029012; 4057260610;
   1759359992; 534414190; 2176718541; 4139329115; 1873836001; 414664567;
   2282248934; 4279200368; 1711684554; 285281116; 2405801727; 4167216745;
   1634467795; 376229701; 2685067896; 3608007406; 1308918612; 956543938;
   2808555105; 3495958263; 1231636301; 1047427035; 2932959818; 3654703836;
   1088359270; 936918000; 2847714899; 3736837829; 1202900863; 817233897;
   3183342108; 3401237130; 1404277552; 615818150; 3134207493; 3453421203;
   1423857449; 601450431; 3009837614; 3294710456; 1567103746; 711928724;
   3020668471; 3272380065; 1510334235; 755167117].

Definition crc16_tab : list Z :=
  [0; 4129; 8258; 12387; 16516; 20645; 24774; 28903; 33032; 37161; 41290; 45419;
   49548; 53677; 57806; 61935; 4657; 528; 12915; 8786; 21173; 17044; 29431; 25302;
   37689; 33560; 45947; 41818; 54205; 50076; 62463; 58334; 9314; 13379; 1056; 5121;
   25830; 29895; 17572; 21637; 42346; 46411; 34088; 38153; 58862; 62927; 50604; 54669;
   13907; 9842; 5649; 1584; 30423; 26358; 22165; 18100; 46939; 42874; 38681; 34616;
   63455; 59390; 55197; 51132; 18628; 22757; 26758; 30887; 2112; 6241; 10242; 14371;
   51660; 55789; 59790; 63919; 35144; 39273; 43274; 47403; 23285; 19156; 31415; 27286;
   6769; 2640; 14899; 10770; 56317; 52188; 64447; 60318; 39801; 35672; 47931; 43802;
   27814; 31879; 19684; 23749; 11298; 15363; 3168; 7233; 60846; 64911; 52716; 56781;
   44330; 48395; 36200; 40265; 32407; 28342; 24277; 20212; 15891; 11826; 7761; 3696;
   65439; 61374; 57309; 53244; 48923; 44858; 40793; 36728; 37256; 33193; 45514; 41451;
   53516; 49453; 61774; 57711; 4224; 161; 12482; 8419; 20484; 16421; 28742; 24679;
   33721; 37784; 41979; 46042; 49981; 54044; 58239; 62302; 689; 4752; 8947; 13010;
   16949; 21012; 25207; 29270; 46570; 42443; 38312; 34185; 62830; 58703; 54572; 50445;
   13538; 9411; 5280; 1153; 29798; 25671; 21540; 17413; 42971; 47098; 34713; 38840;
   59231; 63358; 50973; 55100; 9939; 14066; 1681; 5808; 26199; 30326; 17941; 22068;
   55628; 51565; 63758; 59695; 39368; 35305; 47498; 43435; 22596; 18533; 30726; 26663;
   6336; 2273; 14466; 10403; 52093; 56156; 60223; 64286; 35833; 39896; 43963; 48026;
   19061; 23124; 27191; 31254; 2801; 6864; 10931; 14994; 64814; 60687; 56684; 52557;
   48554; 44427; 40424; 36297; 31782; 27655; 23652; 19525; 15522; 11395; 7392; 3265;
   61215; 65342; 53085; 57212; 44955; 49082; 36825; 40952; 28183; 32310; 20053; 24180;
   11923; 16050; 3793; 7920].

Definition crc7_syndrome_table : list Z :=
  [0; 9; 18; 27; 36; 45; 54; 63; 72; 65; 90; 83; 108; 101; 126; 119;
   25; 16; 11; 2; 61; 52; 47; 38; 81; 88; 67; 74; 117; 124; 103; 110;
   50; 59; 32; 41; 22; 31; 4; 13; 122; 115; 104; 97; 94; 87; 76; 69;
   43; 34; 57; 48; 15; 6; 29; 20; 99; 106; 113; 120; 71; 78; 85; 92;
   100; 109; 118; 127; 64; 73; 82; 91; 44; 37; 62; 55; 8; 1; 26; 19;
   125; 116; 111; 102; 89; 80; 75; 66; 53; 60; 39; 46; 17; 24; 3; 10;
   86; 95; 68; 77; 114; 123; 96; 105; 30; 23; 12; 5; 58; 51; 40; 33;
   79; 70; 93; 84; 107; 98; 121; 112; 7; 14; 21; 28; 35; 42; 49; 56;
   65; 72; 83; 90; 101; 108; 119; 126; 9; 0; 27; 18; 45; 36; 63; 54;
   88; 81; 74; 67; 124; 117; 110; 103; 16; 25; 2; 11; 52; 61; 38; 47;
   115; 122; 97; 104; 87; 94; 69; 76; 59; 50; 41; 32; 31; 22; 13; 4;
   106; 99; 120; 113; 78; 71; 92; 85; 34; 43; 48; 57; 6; 15; 20; 29;
   37; 44; 55; 62; 1; 8; 19; 26; 109; 100; 127; 118; 73; 64; 91; 82;
   60; 53; 46; 39; 24; 17; 10; 3; 116; 125; 102; 111; 80; 89; 66; 75;
   23; 30; 5; 12; 51; 58; 33; 40; 95; 86; 77; 68; 123; 114; 105; 96;
   14; 7; 28; 21; 42; 35; 56; 49; 70; 79; 84; 93; 98; 107; 112; 121].

Definition byte (x : Z) : Prop := 0 <= x < 256.

(** A table lookup; the indices are below 256. *)
Definition tab (t : list Z) (i : Z) : Z := nth (Z.to_nat i) t 0.

(** ** The routines *)

(** [DO_CRC(x)] of [lib/crc32_rk.c]. *)
Definition do_crc_rk (crc x : Z) : Z :=
  tab crc_table_rk (((crc ≫ 24) .^ x) .& 255) .^ u32 (crc ≪ 8).

(** [do { DO_CRC( *s++); } while (--len);] on a buffer that is not empty; with
    [len == 0] the loop runs over 2^32 bytes. *)
Definition crc32_rk (crc : Z) (s : list Z) : option Z :=
  match s with
  | [] => None
  | _ => Some (foldl do_crc_rk crc s)
  end.

(** The four bytes at offset [aSize - 4], least significant first. *)
Fixpoint le_value (bs : list Z) : Z :=
  match bs with
  | [] => 0
  | b :: bs => u32 (u32 (le_value bs ≪ 8) + b)
  end.

Definition CRC_32CheckBuffer (aData : list Z) : option Z :=
  let aSize := length aData in
  if (aSize <=? 4)%nat then Some 0
  else
    let n := (aSize - 4)%nat in
    let crc_check := le_value (drop n aData) in
    crc_calc ← crc32_rk 0 (take n aData);
    Some (if crc_calc =? crc_check then crc_check else 0).

(** [DO_CRC(x)] of [lib/crc32.c], little-endian. *)
Definition do_crc (crc x : Z) : Z := tab crc_table ((crc .^ x) .& 255) .^ (crc ≫ 8).

(** [while ((--len) && ((long)p)&3)]: the bytes up to the next aligned address. *)
Fixpoint crc_align (addr crc : Z) (buf : list Z) : Z * list Z :=
  match buf with
  | [] => (crc, [])
  | b :: buf' =>
      if addr .& 3 =? 0 then (crc, buf) else crc_align (addr + 1) (do_crc crc b) buf'
  end.

(** The loop over the words; [n] is [len >> 2]. *)
Fixpoint crc_words (n : nat) (crc : Z) (buf : list Z) : Z * list Z :=
  match n, buf with
  | S n, b0 :: b1 :: b2 :: b3 :: buf =>
      let crc := crc .^ (b0 .| (b1 ≪ 8) .| (b2 ≪ 16) .| (b3 ≪ 24)) in
      crc_words n (do_crc (do_crc (do_crc (do_crc crc 0) 0) 0) 0) buf
  | _, _ => (crc, buf)
  end.

(** [addr] is the address of the buffer. *)
Definition crc32_no_comp (addr crc : Z) (buf : list Z) : Z :=
  let '(crc, buf) := crc_align addr crc buf in
  let '(crc, buf) := crc_words (length buf / 4) crc buf in
  foldl do_crc crc buf.

Definition crc32 (addr crc : Z) (p : list Z) : Z :=
  crc32_no_comp addr (crc .^ 4294967295) p .^ 4294967295.

(** With a watchdog the buffer is fed in chunks. *)
Fixpoint crc32_wd (fuel : nat) (addr crc : Z) (buf : list Z) (chunk_sz : nat) : option Z :=
  match fuel with
  | O => None
  | S fuel =>
      match buf with
      | [] => Some crc
      | _ =>
          let chunk := Nat.min (length buf) chunk_sz in
          crc32_wd fuel (addr + Z.of_nat chunk) (crc32 addr crc (take chunk buf)) (drop chunk buf) chunk_sz
      end
  end.

Definition cyg_crc16 (buf : list Z) : Z :=
  foldl (λ cksum b, tab crc16_tab (((cksum ≫ 8) .^ b) .& 255) .^ u16 (cksum ≪ 8)) 0 buf.

Definition crc7_byte (crc data : Z) : Z := tab crc7_syndrome_table ((crc ≪ 1) .^ data).
Definition crc7 (crc : Z) (buffer : list Z) : Z := foldl crc7_byte crc buffer.

(** The inner loop of [crc8]. *)
Fixpoint crc8_bits (n : nat) (crc : Z) : Z :=
  match n with
  | O => crc
  | S n => crc8_bits n (u32 ((if crc .& 32768 =? 0 then crc else crc .^ (4208 ≪ 3)) ≪ 1))
  end.

Definition crc8 (vptr : list Z) : Z :=
  (foldl (λ crc b, crc8_bits 8 (crc .^ (b ≪ 8))) 0 vptr ≫ 8) .& 255.

(** * Theorems *)

(** ** Division by a polynomial, most significant bit first *)

Definition bitstep (w poly c : Z) : Z :=
  let s := wrap w (c ≪ 1) in if Z.testbit c (w - 1) then s .^ poly else s.

Definition bitsteps (n : nat) (w poly c : Z) : Z := Nat.iter n (bitstep w poly) c.

(** The remainder after one more byte of the message. *)
Definition crc_byte (w poly c x : Z) : Z := bitsteps 8 w poly (c .^ (x ≪ (w - 8))).

Definition crc_msb (w poly : Z) : Z -> list Z -> Z := foldl (crc_byte w poly).

Lemma bitstep_testbit w poly c i :
  0 < w -> in_word w poly -> 0 <= i ->
  Z.testbit (bitstep w poly c) i
  = xorb ((i <? w) && Z.testbit c (i - 1)) (Z.testbit c (w - 1) && Z.testbit poly i).
Proof.
  intros Hw Hp Hi. unfold bitstep.
  assert (Hs : Z.testbit (wrap w (c ≪ 1)) i = (i <? w) && Z.testbit c (i - 1)).
  { rewrite wrap_testbit by lia. f_equal. by rewrite Z.shiftl_spec by lia. }
  destruct (Z.testbit c (w - 1)); cbn [andb].
  - by rewrite Z.lxor_spec, Hs.
  - by rewrite Hs, xorb_false_r.
Qed.

Lemma bitstep_lxor w poly a b :
  0 < w -> in_word w poly ->
  bitstep w poly (a .^ b) = bitstep w poly a .^ bitstep w poly b.
Proof.
  intros Hw Hp. apply Z.bits_inj. intros i.
  destruct (decide (0 <= i)) as [Hi|]; [|by rewrite !Z.testbit_neg_r by lia].
  rewrite Z.lxor_spec, !bitstep_testbit by done. rewrite !Z.lxor_spec.
  destruct (i <? w), (Z.testbit a (i - 1)), (Z.testbit b (i - 1)), (Z.testbit a (w - 1)),
    (Z.testbit b (w - 1)), (Z.testbit poly i); done.
Qed.

Lemma bitsteps_S n w poly c : bitsteps (S n) w poly c = bitstep w poly (bitsteps n w poly c).
Proof. done. Qed.

Lemma bitsteps_lxor n w poly a b :
  0 < w -> in_word w poly ->
  bitsteps n w poly (a .^ b) = bitsteps n w poly a .^ bitsteps n w poly b.
Proof.
  intros Hw Hp. induction n as [|n IH]; [done|]. by rewrite !bitsteps_S, IH, bitstep_lxor.
Qed.

(** Bits that do not reach the top are only shifted. *)
Lemma bitsteps_low n w poly c :
  0 <= c < 2 ^ (w - Z.of_nat n) -> Z.of_nat n <= w -> bitsteps n w poly c = c ≪ Z.of_nat n.
Proof.
  intros Hc Hn. induction n as [|n IH]; [by rewrite Z.shiftl_0_r|].
  rewrite bitsteps_S, IH; [|split; [lia|]|lia].
  2:{ eapply Z.lt_le_trans; [apply Hc|]. apply Z.pow_le_mono_r; lia. }
  assert (Hlt : c ≪ Z.of_nat n < 2 ^ (w - 1)).
  { rewrite Z.shiftl_mul_pow2 by lia. replace (w - 1) with (w - Z.of_nat (S n) + Z.of_nat n) by lia.
    rewrite Z.pow_add_r by lia. apply Z.mul_lt_mono_pos_r; [lia|apply Hc]. }
  assert (0 <= c ≪ Z.of_nat n) by (apply Z.shiftl_nonneg; lia).
  assert (Ht : Z.testbit (c ≪ Z.of_nat n) (w - 1) = false).
  { destruct (decide (c ≪ Z.of_nat n = 0)) as [->|]; [apply Z.bits_0|].
    apply Z.bits_above_log2; [lia|]. apply Z.log2_lt_pow2; lia. }
  unfold bitstep. rewrite Ht.
  rewrite Z.shiftl_shiftl by lia. replace (Z.of_nat n + 1) with (Z.of_nat (S n)) by lia.
  apply wrap_small. unfold in_word. split; [apply Z.shiftl_nonneg; lia|].
  rewrite Z.shiftl_mul_pow2 by lia. replace (2 ^ w) with (2 ^ (w - Z.of_nat (S n)) * 2 ^ Z.of_nat (S n)).
  - apply Z.mul_lt_mono_pos_r; [lia|apply Hc].
  - rewrite <-Z.pow_add_r by lia. f_equal. lia.
Qed.

(** The top byte and the rest of a register. *)
Lemma split_register w c x :
  8 <= w -> in_word w c ->
  c .^ (x ≪ (w - 8)) = ((((c ≫ (w - 8)) .^ x) ≪ (w - 8)) .^ (c mod 2 ^ (w - 8))).
Proof.
  intros Hw Hc. apply Z.bits_inj. intros i.
  destruct (decide (0 <= i)) as [Hi|]; [|by rewrite !Z.testbit_neg_r by lia].
  rewrite !Z.lxor_spec, !Z.shiftl_spec by lia. rewrite Z.lxor_spec.
  destruct (decide (i < w - 8)).
  - rewrite Z.mod_pow2_bits_low by lia. rewrite !(Z.testbit_neg_r _ (i - _)) by lia.
    by destruct (Z.testbit c i).
  - rewrite Z.mod_pow2_bits_high by lia. rewrite Z.shiftr_spec by lia.
    replace (i - (w - 8) + (w - 8)) with i by lia. by rewrite xorb_false_r.
Qed.

(** One table lookup does eight steps of the division. *)
Lemma table_step w poly t c x :
  8 <= w -> in_word w poly -> in_word w c -> byte x ->
  (forall i, byte i -> tab t i = bitsteps 8 w poly (i ≪ (w - 8))) ->
  tab t (((c ≫ (w - 8)) .^ x) .& 255) .^ wrap w (c ≪ 8) = crc_byte w poly c x.
Proof.
  intros Hw Hp Hc Hx Ht. unfold crc_byte. rewrite (split_register w c x) by done.
  rewrite bitsteps_lxor by (done || lia). set (y := (c ≫ (w - 8)) .^ x).
  assert (Hy : byte y).
  { apply (lxor_in_word 8); [lia| |done]. unfold in_word.
    rewrite Z.shiftr_div_pow2 by lia. split; [apply Z.div_pos; [apply Hc|lia]|].
    apply Z.div_lt_upper_bound; [lia|]. rewrite <-Z.pow_add_r by lia.
    replace (w - 8 + 8) with w by lia. apply Hc. }
  assert (Hmask : y .& 255 = y).
  { change 255 with (Z.ones 8). rewrite Z.land_ones by lia. apply Z.mod_small, Hy. }
  rewrite Hmask, <-(Ht y Hy). f_equal. rewrite bitsteps_low; [| |lia].
  - apply Z.bits_inj. intros i. rewrite wrap_testbit by lia.
    destruct (decide (0 <= i)) as [Hi|]; [|by rewrite !Z.testbit_neg_r, ?andb_false_r by lia].
    rewrite !Z.shiftl_spec by lia. destruct (decide (i < w)) as [Hiw|Hiw].
    + rewrite (proj2 (Z.ltb_lt _ _) Hiw). cbn [andb]. 
      destruct (decide (8 <= i)); [|by rewrite !Z.testbit_neg_r by lia].
      by rewrite Z.mod_pow2_bits_low by lia.
    + rewrite (proj2 (Z.ltb_ge _ _)) by lia. cbn [andb]. by rewrite Z.mod_pow2_bits_high by lia.
  - pose proof (Z.mod_pos_bound c (2 ^ (w - 8))). change (Z.of_nat 8) with 8. lia.
Qed.

Lemma bitstep_range w poly c : 0 < w -> in_word w poly -> in_word w (bitstep w poly c).
Proof.
  intros Hw Hp. unfold bitstep. case_test; [apply lxor_in_word; [lia| |done]|]; apply wrap_range; lia.
Qed.

Lemma bitsteps_range n w poly c : 0 < w -> in_word w poly -> in_word w c -> in_word w (bitsteps n w poly c).
Proof. intros Hw Hp Hc. induction n as [|n IH]; [done|]. rewrite bitsteps_S. by apply bitstep_range. Qed.

Lemma shifted_byte w x : 8 <= w -> byte x -> in_word w (x ≪ (w - 8)).
Proof.
  intros Hw Hx. unfold in_word, byte in *. rewrite Z.shiftl_mul_pow2 by lia.
  replace (2 ^ w) with (256 * 2 ^ (w - 8)).
  - split; [nia|]. apply Z.mul_lt_mono_pos_r; lia.
  - change 256 with (2 ^ 8). rewrite <-Z.pow_add_r by lia. f_equal. lia.
Qed.

Lemma crc_byte_range w poly c x :
  8 <= w -> in_word w poly -> in_word w c -> byte x -> in_word w (crc_byte w poly c x).
Proof.
  intros Hw Hp Hc Hx. apply bitsteps_range; [lia|done|]. apply lxor_in_word; [lia|done|].
  by apply shifted_byte.
Qed.

Lemma crc_msb_range w poly s c :
  8 <= w -> in_word w poly -> in_word w c -> Forall byte s -> in_word w (crc_msb w poly c s).
Proof.
  intros Hw Hp Hc Hs. revert c Hc. induction Hs as [|x s Hx Hs IH]; intros c Hc; [done|].
  apply IH. by apply crc_byte_range.
Qed.

(** A routine that looks its bytes up in the table divides by the polynomial. *)
Lemma table_fold w poly t s c :
  8 <= w -> in_word w poly -> in_word w c -> Forall byte s ->
  (forall i, byte i -> tab t i = bitsteps 8 w poly (i ≪ (w - 8))) ->
  foldl (λ c x, tab t (((c ≫ (w - 8)) .^ x) .& 255) .^ wrap w (c ≪ 8)) c s = crc_msb w poly c s.
Proof.
  intros Hw Hp Hc Hs Ht. revert c Hc. induction Hs as [|x s Hx Hs IH]; intros c Hc; [done|].
  cbn [foldl crc_msb]. rewrite table_step with (poly := poly) by done. apply IH. by apply crc_byte_range.
Qed.

(** Checking a table: all of its 256 entries. *)
Definition table_ok (t : list Z) (f : Z -> Z) : bool :=
  forallb (λ i, tab t i =? f i) (seqZ 0 256).

Lemma table_ok_spec t f : table_ok t f = true -> forall i, byte i -> tab t i = f i.
Proof.
  intros H i Hi. unfold table_ok in H. rewrite forallb_forall in H. unfold byte in Hi.
  apply Z.eqb_eq, H, list_elem_of_In, elem_of_seqZ. lia.
Qed.

(** The polynomial of the Rockchip tools: the CRC-32 polynomial [0x04C11DB7]
    with one term less. *)
Definition poly_rk : Z := 79760823.
Definition poly16 : Z := 4129.

Lemma crc_table_rk_ok i : byte i -> tab crc_table_rk i = bitsteps 8 32 poly_rk (i ≪ (32 - 8)).
Proof. apply (table_ok_spec _ (λ i, bitsteps 8 32 poly_rk (i ≪ (32 - 8)))). vm_compute. done. Qed.

Lemma crc16_tab_ok i : byte i -> tab crc16_tab i = bitsteps 8 16 poly16 (i ≪ (16 - 8)).
Proof. apply (table_ok_spec _ (λ i, bitsteps 8 16 poly16 (i ≪ (16 - 8)))). vm_compute. done. Qed.

Lemma crc32_rk_spec crc s :
  in_word 32 crc -> Forall byte s -> s <> [] -> crc32_rk crc s = Some (crc_msb 32 poly_rk crc s).
Proof.
  intros Hc Hs Hne. unfold crc32_rk. destruct s as [|x s]; [done|]. f_equal.
  apply (table_fold 32 poly_rk crc_table_rk (x :: s) crc); [lia|done|done|done|apply crc_table_rk_ok].
Qed.

(** *** Errors are detected *)

Lemma bitstep_zero w poly c :
  1 < w -> in_word w poly -> Z.odd poly = true -> in_word w c -> bitstep w poly c = 0 -> c = 0.
Proof.
  intros Hw Hp Ho Hc H0.
  assert (Hb : forall i, 0 <= i -> Z.testbit (bitstep w poly c) i = false) by (intros; by rewrite H0, Z.bits_0).
  assert (Htop : Z.testbit c (w - 1) = false).
  { specialize (Hb 0 ltac:(lia)). rewrite bitstep_testbit in Hb by (done || lia).
    rewrite (Z.testbit_neg_r c (0 - 1)), andb_false_r, Z.bit0_odd, Ho, andb_true_r in Hb by lia. done. }
  apply Z.bits_inj_0. intros i. destruct (decide (0 <= i)) as [Hi|]; [|by apply Z.testbit_neg_r; lia].
  destruct (decide (i < w - 1)).
  - specialize (Hb (i + 1) ltac:(lia)). rewrite bitstep_testbit, Htop in Hb by (done || lia).
    rewrite (proj2 (Z.ltb_lt (i + 1) w)) in Hb by lia. replace (i + 1 - 1) with i in Hb by lia.
    by destruct (Z.testbit c i).
  - destruct (decide (i = w - 1)) as [->|]; [done|].
    rewrite <-(wrap_small w c Hc), wrap_testbit by lia. by rewrite (proj2 (Z.ltb_ge i w)) by lia.
Qed.

Lemma bitsteps_zero n w poly c :
  1 < w -> in_word w poly -> Z.odd poly = true -> in_word w c -> bitsteps n w poly c = 0 -> c = 0.
Proof.
  intros Hw Hp Ho Hc. induction n as [|n IH]; [exact id|]. rewrite bitsteps_S. intros H0.
  apply IH. apply (bitstep_zero w poly); [done|done|done| |exact H0]. apply bitsteps_range; [lia|done|done].
Qed.

Lemma crc_byte_inj w poly c c' x x' :
  8 <= w -> in_word w poly -> Z.odd poly = true -> in_word w c -> in_word w c' -> byte x -> byte x' ->
  crc_byte w poly c x = crc_byte w poly c' x' -> c .^ (x ≪ (w - 8)) = c' .^ (x' ≪ (w - 8)).
Proof.
  intros Hw Hp Ho Hc Hc' Hx Hx' He. apply Z.lxor_eq. unfold crc_byte in He.
  eapply (bitsteps_zero 8 w poly); [lia|done|done| |].
  - apply lxor_in_word; [lia|..]; (apply lxor_in_word; [lia|done|by apply shifted_byte]).
  - rewrite bitsteps_lxor, He by (done || lia). apply Z.lxor_nilpotent.
Qed.

Lemma crc_msb_inj w poly s c c' :
  8 <= w -> in_word w poly -> Z.odd poly = true -> in_word w c -> in_word w c' -> Forall byte s ->
  crc_msb w poly c s = crc_msb w poly c' s -> c = c'.
Proof.
  intros Hw Hp Ho Hc Hc' Hs. revert c c' Hc Hc'.
  induction Hs as [|x s Hx Hs IH]; intros c c' Hc Hc' He; [done|].
  apply IH in He; [|by apply crc_byte_range|by apply crc_byte_range].
  apply crc_byte_inj in He; try done.
  apply (f_equal (λ z, z .^ (x ≪ (w - 8)))) in He.
  by rewrite !Z.lxor_assoc, !Z.lxor_nilpotent, !Z.lxor_0_r in He.
Qed.

(** A message with one byte changed has another remainder. *)
Lemma crc_msb_detects w poly c s1 x x' s2 :
  8 <= w -> in_word w poly -> Z.odd poly = true -> in_word w c ->
  Forall byte (s1 ++ x :: s2) -> byte x' -> x <> x' ->
  crc_msb w poly c (s1 ++ x :: s2) <> crc_msb w poly c (s1 ++ x' :: s2).
Proof.
  intros Hw Hp Ho Hc Hs Hx' Hne He. apply Forall_app in Hs as [Hs1 [Hx Hs2]%Forall_cons].
  unfold crc_msb in He. rewrite !foldl_app in He. cbn [foldl] in He. fold (crc_msb w poly c s1) in He.
  pose proof (crc_msb_range w poly s1 c Hw Hp Hc Hs1) as Hr.
  apply (crc_msb_inj w poly s2) in He; try done; try (by apply crc_byte_range).
  apply crc_byte_inj in He; try done. apply Hne.
  apply (f_equal (λ z, crc_msb w poly c s1 .^ z)) in He.
  rewrite <-!Z.lxor_assoc, !Z.lxor_nilpotent, !Z.lxor_0_l in He.
  rewrite !Z.shiftl_mul_pow2 in He by lia. assert (2 ^ (w - 8) <> 0) by lia. nia.
Qed.

(** ** Least significant bit first *)

Definition rstep (poly c : Z) : Z := if Z.odd c then (c ≫ 1) .^ poly else c ≫ 1.
Definition rsteps (n : nat) (poly c : Z) : Z := Nat.iter n (rstep poly) c.

Definition crc_lsb (poly : Z) : Z -> list Z -> Z := foldl (λ c x, rsteps 8 poly (c .^ x)).

Definition poly32 : Z := 3988292384.

Lemma rsteps_S n poly c : rsteps (S n) poly c = rstep poly (rsteps n poly c).
Proof. done. Qed.

Lemma rsteps_add n m poly c : rsteps (n + m) poly c = rsteps n poly (rsteps m poly c).
Proof. induction n as [|n IH]; [done|]. cbn [Nat.add]. by rewrite !rsteps_S, IH. Qed.

Lemma rstep_testbit poly c i :
  0 <= i -> Z.testbit (rstep poly c) i = xorb (Z.testbit c (i + 1)) (Z.odd c && Z.testbit poly i).
Proof.
  intros Hi. unfold rstep. destruct (Z.odd c); cbn [andb].
  - by rewrite Z.lxor_spec, Z.shiftr_spec.
  - by rewrite Z.shiftr_spec, xorb_false_r.
Qed.

Lemma rstep_lxor poly a b : rstep poly (a .^ b) = rstep poly a .^ rstep poly b.
Proof.
  apply Z.bits_inj. intros i. destruct (decide (0 <= i)); [|by rewrite !Z.testbit_neg_r by lia].
  rewrite Z.lxor_spec, !rstep_testbit by done. rewrite <-!Z.bit0_odd, !Z.lxor_spec.
  by destruct (Z.testbit a (i + 1)), (Z.testbit b (i + 1)), (Z.testbit a 0), (Z.testbit b 0), (Z.testbit poly i).
Qed.

Lemma rsteps_lxor n poly a b : rsteps n poly (a .^ b) = rsteps n poly a .^ rsteps n poly b.
Proof. induction n as [|n IH]; [done|]. by rewrite !rsteps_S, IH, rstep_lxor. Qed.

Lemma rsteps_shift n poly y : rsteps n poly (y ≪ Z.of_nat n) = y.
Proof.
  induction n as [|n IH] in y |- *; [apply Z.shiftl_0_r|].
  replace (S n) with (n + 1)%nat by lia. rewrite rsteps_add.
  replace (rsteps 1 poly (y ≪ Z.of_nat (n + 1))) with (y ≪ Z.of_nat n); [apply IH|].
  cbn. unfold rstep. replace (Z.of_nat (n + 1)) with (Z.of_nat n + 1) by lia.
  rewrite <-Z.shiftl_shiftl by lia. rewrite (Z.shiftl_mul_pow2 _ 1) by lia. change (2 ^ 1) with 2.
  rewrite Z.odd_mul, andb_false_r, <-(Z.shiftl_mul_pow2 _ 1), Z.shiftr_shiftl_l by lia.
  by rewrite Z.shiftl_0_r.
Qed.

Lemma crc_table_ok i : byte i -> tab crc_table i = rsteps 8 poly32 i.
Proof. apply (table_ok_spec _ (λ i, rsteps 8 poly32 i)). vm_compute. done. Qed.

(** The low byte and the rest of a register. *)
Lemma split_low z : z = (z .& 255) .^ ((z ≫ 8) ≪ 8).
Proof.
  change 255 with (Z.ones 8). apply Z.bits_inj. intros i.
  destruct (decide (0 <= i)); [|by rewrite !Z.testbit_neg_r by lia].
  rewrite Z.lxor_spec, Z.land_spec, Z.shiftl_spec by lia. destruct (decide (i < 8)).
  - rewrite Z.ones_spec_low, andb_true_r, (Z.testbit_neg_r _ (i - 8)) by lia. by rewrite xorb_false_r.
  - rewrite Z.ones_spec_high, andb_false_r, Z.shiftr_spec by lia. cbn. f_equal. lia.
Qed.

Lemma do_crc_spec c x : byte x -> do_crc c x = rsteps 8 poly32 (c .^ x).
Proof.
  intros Hx. unfold do_crc. rewrite (split_low (c .^ x)) at 2. rewrite rsteps_lxor.
  rewrite (rsteps_shift 8), crc_table_ok.
  - f_equal. rewrite Z.shiftr_lxor. replace (x ≫ 8) with 0; [by rewrite Z.lxor_0_r|].
    rewrite Z.shiftr_div_pow2 by lia. symmetry. apply Z.div_small. exact Hx.
  - change 255 with (Z.ones 8). rewrite Z.land_ones by lia. apply Z.mod_pos_bound. lia.
Qed.

Lemma do_crc_fold s c : Forall byte s -> foldl do_crc c s = crc_lsb poly32 c s.
Proof.
  intros Hs. revert c. induction Hs as [|x s Hx Hs IH]; intros c; [done|].
  cbn [foldl crc_lsb]. rewrite do_crc_spec by done. apply IH.
Qed.

(** Feeding a byte after eight steps is feeding it shifted before them. *)
Lemma rsteps_feed n poly c x : rsteps n poly c .^ x = rsteps n poly (c .^ (x ≪ Z.of_nat n)).
Proof. by rewrite rsteps_lxor, rsteps_shift. Qed.

Lemma lor_lxor_disjoint a b n : 0 <= n -> 0 <= a < 2 ^ n -> a .| (b ≪ n) = a .^ (b ≪ n).
Proof.
  intros Hn Ha. symmetry. apply Z.lxor_lor. apply Z.bits_inj_0. intros i.
  destruct (decide (0 <= i)); [|by rewrite Z.testbit_neg_r by lia].
  rewrite Z.land_spec, Z.shiftl_spec by lia. destruct (decide (i < n)).
  - by rewrite (Z.testbit_neg_r _ (i - n)), andb_false_r by lia.
  - rewrite <-(wrap_small n a), wrap_testbit by done. by rewrite (proj2 (Z.ltb_ge i n)) by lia.
Qed.

(** The word that the routine loads. *)
Lemma word_lxor b0 b1 b2 b3 :
  byte b0 -> byte b1 -> byte b2 -> byte b3 ->
  b0 .| (b1 ≪ 8) .| (b2 ≪ 16) .| (b3 ≪ 24) = b0 .^ (b1 ≪ 8) .^ (b2 ≪ 16) .^ (b3 ≪ 24).
Proof.
  intros H0 H1 H2 H3. unfold byte in *.
  assert (Hsh : forall b n, 0 <= b < 256 -> 0 <= n -> in_word (n + 8) (b ≪ n)).
  { intros b n Hb Hn. replace n with (n + 8 - 8) at 2 by lia. apply shifted_byte; [lia|exact Hb]. }
  assert (Hw : forall w a, in_word w a -> 0 <= w -> in_word (w + 8) a).
  { intros w a Ha Hw. unfold in_word in *. rewrite Z.pow_add_r by lia. lia. }
  assert (H01 : in_word 16 (b0 .^ (b1 ≪ 8))).
  { apply lxor_in_word; [lia| |apply (Hsh b1 8); lia]. unfold in_word. lia. }
  assert (H02 : in_word 24 (b0 .^ (b1 ≪ 8) .^ (b2 ≪ 16))).
  { apply lxor_in_word; [lia|apply (Hw 16); [done|lia]|apply (Hsh b2 16); lia]. }
  rewrite (lor_lxor_disjoint b0 b1 8) by lia. rewrite (lor_lxor_disjoint _ b2 16) by (lia || exact H01).
  rewrite (lor_lxor_disjoint _ b3 24) by (lia || exact H02). done.
Qed.

Lemma crc_words_spec n c buf :
  Forall byte buf ->
  exists r, foldl do_crc (crc_words n c buf).1 (crc_words n c buf).2 = r /\ r = crc_lsb poly32 c buf.
Proof.
  intros Hb. eexists. split; [done|]. revert c buf Hb. induction n as [|n IH]; intros c buf Hb.
  { by apply do_crc_fold. }
  destruct buf as [|b0 [|b1 [|b2 [|b3 buf]]]]; try (by apply do_crc_fold).
  cbn [crc_words]. repeat (apply Forall_cons in Hb as [? Hb]). rewrite IH by done.
  unfold crc_lsb. cbn [foldl]. f_equal.
  assert (byte 0) by (unfold byte; lia).
  rewrite !do_crc_spec, !Z.lxor_0_r, word_lxor by done.
  rewrite (rsteps_feed 8 poly32 (c .^ b0) b1). set (x1 := c .^ b0 .^ (b1 ≪ Z.of_nat 8)).
  rewrite <-(rsteps_add 8 8 poly32 x1), (rsteps_feed (8 + 8) _ _ b2).
  set (x2 := x1 .^ (b2 ≪ Z.of_nat (8 + 8))).
  rewrite <-(rsteps_add 8 (8 + 8) poly32 x2), (rsteps_feed (8 + (8 + 8)) _ _ b3).
  rewrite <-!rsteps_add. cbn [Nat.add]. f_equal. unfold x2, x1. cbn [Nat.add].
  change (Z.of_nat 8) with 8. change (Z.of_nat 16) with 16. change (Z.of_nat 24) with 24.
  by rewrite !Z.lxor_assoc.
Qed.

Lemma crc_align_spec addr c buf :
  Forall byte buf ->
  let '(c', buf') := crc_align addr c buf in
  Forall byte buf' /\ crc_lsb poly32 c' buf' = crc_lsb poly32 c buf.
Proof.
  intros Hb. revert addr c. induction Hb as [|b buf Hb Hbuf IH]; intros addr c; cbn [crc_align]; [done|].
  case_test; [split; [by constructor|done]|].
  specialize (IH (addr + 1) (do_crc c b)). destruct (crc_align (addr + 1) (do_crc c b) buf) as [c' buf'].
  destruct IH as [? IH]. split; [done|]. rewrite IH. cbn. by rewrite do_crc_spec.
Qed.

Lemma crc32_no_comp_spec addr c buf :
  Forall byte buf -> crc32_no_comp addr c buf = crc_lsb poly32 c buf.
Proof.
  intros Hb. unfold crc32_no_comp. pose proof (crc_align_spec addr c buf Hb) as Ha.
  destruct (crc_align addr c buf) as [c' buf']. destruct Ha as [Hb' <-].
  destruct (crc_words_spec (length buf' / 4) c' buf' Hb') as (r & Hr & ->).
  destruct (crc_words (length buf' / 4) c' buf'). exact Hr.
Qed.


(** *** Errors are detected in this direction, too *)

Lemma rstep_range poly c : in_word 32 poly -> in_word 32 c -> in_word 32 (rstep poly c).
Proof.
  intros Hp Hc. unfold rstep. assert (in_word 32 (c ≫ 1)).
  { unfold in_word in *. rewrite Z.shiftr_div_pow2 by lia. change (2 ^ 1) with 2.
    split; [apply Z.div_pos; lia|apply Z.div_lt_upper_bound; lia]. }
  destruct (Z.odd c); [apply lxor_in_word; [lia|done|done]|done].
Qed.

Lemma rsteps_range n poly c : in_word 32 poly -> in_word 32 c -> in_word 32 (rsteps n poly c).
Proof. intros Hp Hc. induction n as [|n IH]; [done|]. rewrite rsteps_S. by apply rstep_range. Qed.

Lemma rstep_zero poly c :
  Z.testbit poly 31 = true -> in_word 32 c -> rstep poly c = 0 -> c = 0.
Proof.
  intros Hp Hc H0.
  assert (∀ i, 32 <= i -> Z.testbit c i = false) as Hhigh.
  { intros i Hi. rewrite <-(wrap_small 32 c Hc), wrap_testbit by lia. by rewrite (proj2 (Z.ltb_ge i 32)) by lia. }
  assert (Hb : forall i, 0 <= i -> Z.testbit (rstep poly c) i = false) by (intros; by rewrite H0, Z.bits_0).
  assert (Z.odd c = false) as Ho.
  { specialize (Hb 31 ltac:(lia)). rewrite rstep_testbit, Hp, andb_true_r, (Hhigh (31 + 1)) in Hb by lia. by destruct (Z.odd c). }
  apply Z.bits_inj_0. intros i. destruct (decide (0 < i)) as [Hi|].
  - specialize (Hb (i - 1) ltac:(lia)). rewrite rstep_testbit, Ho in Hb by lia. replace (i - 1 + 1) with i in Hb by lia.
    by destruct (Z.testbit c i).
  - destruct (decide (i = 0)) as [->|]; [by rewrite Z.bit0_odd|]. apply Z.testbit_neg_r. lia.
Qed.

Lemma rsteps_inj n poly c c' :
  in_word 32 poly -> Z.testbit poly 31 = true -> in_word 32 c -> in_word 32 c' -> rsteps n poly c = rsteps n poly c' -> c = c'.
Proof.
  intros Hp Ht Hc Hc' He. apply Z.lxor_eq.
  assert (in_word 32 (c .^ c')) as Hx by (apply lxor_in_word; [lia|done|done]).
  assert (rsteps n poly (c .^ c') = 0) as H0 by (rewrite rsteps_lxor, He; apply Z.lxor_nilpotent).
  clear He. induction n as [|n IH]; [done|]. rewrite rsteps_S in H0. apply rstep_zero in H0; [auto|done|by apply rsteps_range].
Qed.

Lemma byte_word x : byte x -> in_word 32 x.
Proof. unfold byte, in_word. lia. Qed.

Lemma crc_lsb_range poly s c : in_word 32 poly -> in_word 32 c -> Forall byte s -> in_word 32 (crc_lsb poly c s).
Proof.
  intros Hp Hc Hs. revert c Hc. induction Hs as [|x s Hx Hs IH]; intros c Hc; [done|].
  apply IH, rsteps_range; [done|]. apply lxor_in_word; [lia|done|by apply byte_word].
Qed.

Lemma crc_lsb_inj poly s c c' :
  in_word 32 poly -> Z.testbit poly 31 = true -> in_word 32 c -> in_word 32 c' -> Forall byte s ->
  crc_lsb poly c s = crc_lsb poly c' s -> c = c'.
Proof.
  intros Hp Ht Hc Hc' Hs. revert c c' Hc Hc'. induction Hs as [|x s Hx Hs IH]; intros c c' Hc Hc' He; [done|].
  assert (∀ d, in_word 32 d -> in_word 32 (d .^ x)) as Hw by (intros; apply lxor_in_word; [lia|done|by apply byte_word]).
  apply IH in He; [|by apply rsteps_range; auto..]. apply rsteps_inj in He; auto.
  apply (f_equal (λ z, z .^ x)) in He. by rewrite !Z.lxor_assoc, !Z.lxor_nilpotent, !Z.lxor_0_r in He.
Qed.

Lemma crc_lsb_detects c s1 x x' s2 :
  in_word 32 c -> Forall byte (s1 ++ x :: s2) -> byte x' -> x <> x' ->
  crc_lsb poly32 c (s1 ++ x :: s2) <> crc_lsb poly32 c (s1 ++ x' :: s2).
Proof.
  intros Hc Hs Hx' Hne He. apply Forall_app in Hs as [Hs1 [Hx Hs2]%Forall_cons].
  assert (in_word 32 poly32) as Hp by (unfold in_word, poly32; lia).
  pose proof (crc_lsb_range poly32 s1 c Hp Hc Hs1) as Hr.
  unfold crc_lsb in He. rewrite !foldl_app in He. cbn [foldl] in He. fold (crc_lsb poly32 c s1) in He.
  assert (∀ y, byte y -> in_word 32 (crc_lsb poly32 c s1 .^ y)) as Hw by (intros; apply lxor_in_word; [lia|done|by apply byte_word]).
  apply (crc_lsb_inj poly32 s2) in He; try done; [|by apply rsteps_range; auto..].
  apply rsteps_inj in He; auto. apply Hne.
  apply (f_equal (λ z, crc_lsb poly32 c s1 .^ z)) in He.
  by rewrite <-!Z.lxor_assoc, !Z.lxor_nilpotent, !Z.lxor_0_l in He.
Qed.

(** One changed byte changes [crc32]. *)
Lemma crc32_detects addr addr' crc s1 x x' s2 :
  in_word 32 crc -> Forall byte (s1 ++ x :: s2) -> byte x' -> x <> x' ->
  crc32 addr crc (s1 ++ x :: s2) <> crc32 addr' crc (s1 ++ x' :: s2).
Proof.
  intros Hc Hs Hx' Hne He. pose proof Hs as [Hs1 [Hx Hs2]%Forall_cons]%Forall_app. unfold crc32 in He.
  rewrite !crc32_no_comp_spec in He by (done || (apply Forall_app; split; [done|by constructor])).
  apply (f_equal (λ z, z .^ 4294967295)) in He. rewrite !Z.lxor_assoc, !Z.lxor_nilpotent, !Z.lxor_0_r in He.
  revert He. apply crc_lsb_detects; try done. apply lxor_in_word; [lia|done|unfold in_word; lia].
Qed.

(** Feeding a buffer in chunks *)
Lemma crc32_wd_spec chunk fuel addr crc buf :
  (0 < chunk)%nat -> Forall byte buf -> (length buf < fuel)%nat ->
  crc32_wd fuel addr crc buf chunk
  = Some (match buf with [] => crc | _ => crc_lsb poly32 (crc .^ 4294967295) buf .^ 4294967295 end).
Proof.
  intros Hch. revert addr crc buf. induction fuel as [|fuel IH]; intros addr crc buf Hb Hf; [lia|].
  cbn [crc32_wd]. destruct buf as [|b buf]; [done|]. set (l := b :: buf) in *.
  set (n := Nat.min (length l) chunk).
  assert (Hn : (0 < n)%nat) by (unfold n, l; cbn [length]; lia).
  rewrite IH; [|by apply Forall_drop|rewrite length_drop; unfold l in *; cbn [length] in *; lia].
  unfold crc32. rewrite crc32_no_comp_spec by (by apply Forall_take).
  replace (crc_lsb poly32 (crc .^ 4294967295) l)
    with (crc_lsb poly32 (crc .^ 4294967295) (take n l ++ drop n l)) by (by rewrite take_drop).
  f_equal.
  destruct (drop n l) as [|d ds]; rewrite ?app_nil_r; [done|].
  rewrite Z.lxor_assoc, Z.lxor_nilpotent, Z.lxor_0_r. unfold crc_lsb. by rewrite <-foldl_app.
Qed.

(** C9.  [crc32_no_comp], which aligns the address and then loads whole words,
    computes the bit-serial CRC-32 of the bytes, whatever the address of the
    buffer; [crc32] complements it, and feeding a buffer in chunks
    ([crc32_wd]) gives the result for the whole buffer. *)
Theorem crc32_bitwise addr crc buf chunk :
  Forall byte buf -> (0 < chunk)%nat ->
  crc32_no_comp addr crc buf = crc_lsb poly32 crc buf
  /\ crc32_wd (S (length buf)) addr crc buf chunk
     = Some (match buf with [] => crc | _ => crc32 addr crc buf end).
Proof.
  intros Hb Hch. split; [by apply crc32_no_comp_spec|].
  rewrite crc32_wd_spec by (done || lia). unfold crc32. rewrite crc32_no_comp_spec by done. done.
Qed.

(** [crc32_rk] is the remainder of the bit-serial division by the
    polynomial [poly_rk]; two messages of the same length that differ in one
    byte have different checksums. *)
Theorem crc32_rk_detects crc s1 x x' s2 :
  in_word 32 crc -> Forall byte (s1 ++ x :: s2) -> byte x' -> x <> x' ->
  crc32_rk crc (s1 ++ x :: s2) = Some (crc_msb 32 poly_rk crc (s1 ++ x :: s2))
  /\ crc32_rk crc (s1 ++ x :: s2) <> crc32_rk crc (s1 ++ x' :: s2).
Proof.
  intros Hc Hs Hx' Hne. assert (Hs' : Forall byte (s1 ++ x' :: s2)).
  { apply Forall_app in Hs as [? [_ ?]%Forall_cons]. apply Forall_app. by split; [|constructor]. }
  rewrite !crc32_rk_spec by (done || by destruct s1). split; [done|]. intros [= He].
  by apply (crc_msb_detects 32 poly_rk crc s1 x x' s2).
Qed.

Definition le_bytes4 (v : Z) : list Z := [v mod 256; (v ≫ 8) mod 256; (v ≫ 16) mod 256; (v ≫ 24) mod 256].

Lemma le_value_bytes v : in_word 32 v -> le_value (le_bytes4 v) = v.
Proof.
  intros Hv. unfold in_word in Hv. cbn [le_value le_bytes4].
  rewrite !Z.shiftr_div_pow2, !Z.shiftl_mul_pow2 by lia.
  change (2 ^ 8) with 256. change (2 ^ 16) with 65536. change (2 ^ 24) with 16777216.
  change (0 * 256) with 0. rewrite (u32_small 0) by lia.
  pose proof (Z.div_mod v 256). pose proof (Z.mod_pos_bound v 256).
  pose proof (Z.div_mod (v / 65536) 256). pose proof (Z.mod_pos_bound (v / 65536) 256).
  pose proof (Z.div_mod (v / 256) 256). pose proof (Z.mod_pos_bound (v / 256) 256).
  pose proof (Z.div_mod (v / 16777216) 256). pose proof (Z.mod_pos_bound (v / 16777216) 256).
  assert (v / 256 / 256 = v / 65536) by (rewrite Z.div_div by lia; done).
  assert (v / 65536 / 256 = v / 16777216) by (rewrite Z.div_div by lia; done).
  assert (v / 16777216 / 256 = 0) by (rewrite Z.div_div by lia; apply Z.div_small; lia).
  repeat match goal with
         | |- context [u32 ?x] =>
             lazymatch x with context [u32 _] => fail | _ => rewrite (u32_small x) by lia end
         end. lia.
Qed.

(** A buffer that ends with the little-endian checksum of the rest is
    accepted, unless the checksum is zero, which is the code for a failure; it
    is rejected when any one byte of the rest is changed. *)
Theorem CRC_32CheckBuffer_spec s1 x x' s2 :
  Forall byte (s1 ++ x :: s2) -> byte x' -> x <> x' ->
  let c := crc_msb 32 poly_rk 0 (s1 ++ x :: s2) in
  CRC_32CheckBuffer ((s1 ++ x :: s2) ++ le_bytes4 c) = Some c
  /\ CRC_32CheckBuffer ((s1 ++ x' :: s2) ++ le_bytes4 c) = Some 0.
Proof.
  intros Hs Hx' Hne c. assert (Hs' : Forall byte (s1 ++ x' :: s2)).
  { apply Forall_app in Hs as [? [_ ?]%Forall_cons]. apply Forall_app. by split; [|constructor]. }
  assert (Hc : in_word 32 c) by (by apply crc_msb_range).
  assert (Hgen : forall s, Forall byte s -> s <> [] ->
    CRC_32CheckBuffer (s ++ le_bytes4 c) = Some (if crc_msb 32 poly_rk 0 s =? c then c else 0)).
  { intros s Hb Hnil. unfold CRC_32CheckBuffer. rewrite length_app. change (length (le_bytes4 c)) with 4%nat.
    assert (0 < length s)%nat by (destruct s; [done|cbn; lia]).
    rewrite (proj2 (Nat.leb_gt _ 4)) by lia. replace (length s + 4 - 4)%nat with (length s) by lia.
    rewrite take_app_length, drop_app_length, le_value_bytes by done.
    rewrite crc32_rk_spec by done. done. }
  rewrite !Hgen by (done || by destruct s1). split; [by rewrite Z.eqb_refl|].
  destruct (Z.eqb_spec (crc_msb 32 poly_rk 0 (s1 ++ x' :: s2)) c) as [He|]; [|done].
  exfalso. by apply (crc_msb_detects 32 poly_rk 0 s1 x x' s2).
Qed.

Lemma crc16_spec buf : Forall byte buf -> cyg_crc16 buf = crc_msb 16 poly16 0 buf.
Proof. intros Hb. apply (table_fold 16 poly16 crc16_tab buf 0); [lia|done|done|done|apply crc16_tab_ok]. Qed.

(** The seven bits of [crc7] are the upper ones of an eight-bit register. *)
Lemma crc7_table_ok i : byte i -> tab crc7_syndrome_table i = bitsteps 8 8 18 i ≫ 1.
Proof. apply (table_ok_spec _ (λ i, bitsteps 8 8 18 i ≫ 1)). vm_compute. done. Qed.

Lemma crc32_bitwise_witness :
  crc32_no_comp 2 0 [49; 50; 51; 52; 53; 54; 55; 56; 57]
  = crc_lsb poly32 0 [49; 50; 51; 52; 53; 54; 55; 56; 57]
  /\ crc32_wd 10 2 0 [49; 50; 51; 52; 53; 54; 55; 56; 57] 4 = Some 3421780262.
Proof.
  apply (crc32_bitwise 2 0 [49; 50; 51; 52; 53; 54; 55; 56; 57] 4); [|lia].
  repeat constructor; unfold byte; lia.
Defined.

Lemma crc32_rk_detects_witness :
  crc32_rk 0 ([1; 2] ++ 3 :: [4]) = Some (crc_msb 32 poly_rk 0 ([1; 2] ++ 3 :: [4]))
  /\ crc32_rk 0 ([1; 2] ++ 3 :: [4]) <> crc32_rk 0 ([1; 2] ++ 7 :: [4]).
Proof.
  apply (crc32_rk_detects 0 [1; 2] 3 7 [4]); [unfold in_word; lia| |unfold byte; lia|lia].
  repeat constructor; unfold byte; lia.
Defined.

Lemma CRC_32CheckBuffer_spec_witness :
  CRC_32CheckBuffer (([1; 2] ++ 3 :: [4]) ++ le_bytes4 (crc_msb 32 poly_rk 0 ([1; 2] ++ 3 :: [4])))
    = Some (crc_msb 32 poly_rk 0 ([1; 2] ++ 3 :: [4]))
  /\ CRC_32CheckBuffer (([1; 2] ++ 7 :: [4]) ++ le_bytes4 (crc_msb 32 poly_rk 0 ([1; 2] ++ 3 :: [4])))
    = Some 0.
Proof.
  apply (CRC_32CheckBuffer_spec [1; 2] 3 7 [4]); [|unfold byte; lia|lia].
  repeat constructor; unfold byte; lia.
Defined.

(** The standard check value of CRC-32. *)
Example crc32_check : crc32 0 0 [49; 50; 51; 52; 53; 54; 55; 56; 57] = 3421780262.
Proof. vm_compute. done. Qed.
