(* ===== verification/EnvStore.v ===== *)
(** * The environment in storage ([common/env_rk.c], [common/env_common.c],
    [board/rockchip/common/storage/storage.c])

    [saveenv] writes the exported variables with a checksum to a sector of the
    boot medium; [env_relocate_spec] starts from the default environment and
    imports the saved one over it.  The medium is reached through the
    function table [gpMemFun]; its drivers are a parameter, with the law that
    a sector that was stored is loaded again. *)

From S2P Require Import Prelude Cstring Qsort Hashtable HashtableSearch HashtableText Crc.

Definition FTL_ERROR : Z := 4294967295.
Definition RK_BLK_SIZE : Z := 512.
Definition CONFIG_ENV_SIZE : Z := 512.
Definition CONFIG_ENV_OFFSET : Z := 0.
(** [CONFIG_ENV_SIZE - ENV_HEADER_SIZE] *)
Definition ENV_SIZE : Z := CONFIG_ENV_SIZE - 4.
Definition UBOOT_SYS_DATA_OFFSET : Z := 64.

(** The entries of the function table that the environment uses; an entry may
    be NULL.  [dev] is the state of the medium. *)
Record MEM_FUN_T (dev : Type) := {
  SysDataLoad : option (dev -> Z -> Z * list Z);
  SysDataStore : option (dev -> Z -> list Z -> Z * dev)
}.
Arguments SysDataLoad {dev}.
Arguments SysDataStore {dev}.

Section storage.
Context {dev : Type} (gpMemFun : MEM_FUN_T dev).

Definition StorageSysDataLoad (d : dev) (Index : Z) : Z * list Z :=
  match SysDataLoad gpMemFun with
  | Some load => load d Index
  | None => (FTL_ERROR, replicate 512 0)
  end.

Definition StorageSysDataStore (d : dev) (Index : Z) (Buf : list Z) : Z * dev :=
  match SysDataStore gpMemFun with
  | Some store => store d Index Buf
  | None => (FTL_ERROR, d)
  end.

Definition StorageUbootSysDataLoad (d : dev) (Index : Z) : Z * list Z :=
  StorageSysDataLoad d (u32 (Index + UBOOT_SYS_DATA_OFFSET)).

Definition StorageUbootSysDataStore (d : dev) (Index : Z) (Buf : list Z) : Z * dev :=
  StorageSysDataStore d (u32 (Index + UBOOT_SYS_DATA_OFFSET)) Buf.

(** [ALIGN(x, RK_BLK_SIZE) / RK_BLK_SIZE] *)
Definition blocks (x : Z) : Z := ((x + (RK_BLK_SIZE - 1)) .& Z.lnot (RK_BLK_SIZE - 1)) / RK_BLK_SIZE.

(** The loop over the blocks; [buffer] is what is left to write. *)
Fixpoint write_blocks (n : nat) (blk : Z) (buffer : list Z) (d : dev) : Z * dev :=
  match n with
  | O => (0, d)
  | S n =>
      let '(ret, d) := StorageUbootSysDataStore d blk (take (Z.to_nat RK_BLK_SIZE) buffer) in
      if negb (ret =? 0) then (-1, d)
      else write_blocks n (blk + 1) (drop (Z.to_nat RK_BLK_SIZE) buffer) d
  end.

Definition write_env (size offset : Z) (buffer : list Z) (d : dev) : Z * dev :=
  write_blocks (Z.to_nat (blocks size)) (blocks offset) buffer d.

Fixpoint read_blocks (n : nat) (blk : Z) (d : dev) : option (list Z) :=
  match n with
  | O => Some []
  | S n =>
      let '(ret, b) := StorageUbootSysDataLoad d blk in
      if negb (ret =? 0) then None
      else rest ← read_blocks n (blk + 1) d; Some (b ++ rest)
  end.

(** The buffer, or [None] for the result [-1]. *)
Definition read_env (size offset : Z) (d : dev) : option (list Z) :=
  read_blocks (Z.to_nat (blocks size)) (blocks offset) d.

Context `{!EnvHooks}.

Definition saveenv (htab : hsearch_data) (d : dev) : option (Z * dev) :=
  r ← hexport_r htab 0 0 ENV_SIZE [];
  match r with
  | ExportFailed _ => Some (-1, d)
  | Exported _ res =>
      crc ← crc32_rk 0 res;
      let '(ret, d) := write_env CONFIG_ENV_SIZE CONFIG_ENV_OFFSET (le_bytes4 crc ++ res) d in
      Some (if ret =? 0 then 0 else -1, d)
  end.

(** The result [1] is a successful import. *)
Definition env_append (htab : hsearch_data) (buf : list Z) (check : bool) : option (Z * hsearch_data) :=
  let data := take (Z.to_nat ENV_SIZE) (drop 4 buf) in
  bad ← (if check then crc ← crc32_rk 0 data; Some (negb (crc =? le_value (take 4 buf))) else Some false);
  if (bad : bool) then Some (0, htab)
  else
    '(res, htab) ← himport_r htab data 0 H_NOCLEAR false [];
    Some (if negb (res =? 0) then 1 else 0, htab).

Definition set_default_env (default_environment : list Z) (htab : hsearch_data) : option hsearch_data :=
  if ENV_SIZE <? Z.of_nat (length default_environment) then Some htab
  else '(_, htab) ← himport_r htab default_environment 0 0 false []; Some htab.

Definition env_relocate_spec (default_environment : list Z) (htab : hsearch_data) (d : dev)
    : option hsearch_data :=
  htab ← set_default_env default_environment htab;
  match read_env CONFIG_ENV_SIZE CONFIG_ENV_OFFSET d with
  | Some env_buf => '(_, htab) ← env_append htab env_buf true; Some htab
  | None => Some htab
  end.
End storage.

(** * Theorems *)

(** What the drivers promise: a stored sector is loaded again. *)
Class SysDataOk {dev : Type} (gpMemFun : MEM_FUN_T dev) : Prop :=
  sysdata_load_store d i b d' :
    length b = 512%nat -> StorageSysDataStore gpMemFun d i b = (0, d') ->
    StorageSysDataLoad gpMemFun d' i = (0, b).

Section saved.
Context {dev : Type} (gpMemFun : MEM_FUN_T dev) `{!SysDataOk gpMemFun} `{!EnvHooks, !EnvHooksOk}.

Lemma write_read_env d d' b :
  length b = 512%nat -> write_env gpMemFun CONFIG_ENV_SIZE CONFIG_ENV_OFFSET b d = (0, d') ->
  read_env gpMemFun CONFIG_ENV_SIZE CONFIG_ENV_OFFSET d' = Some b.
Proof.
  intros Hb. unfold write_env, read_env. change (Z.to_nat (blocks CONFIG_ENV_SIZE)) with 1%nat.
  cbn [write_blocks read_blocks]. rewrite take_ge by (rewrite Hb; done).
  unfold StorageUbootSysDataStore, StorageUbootSysDataLoad. set (i := u32 _).
  destruct (StorageSysDataStore gpMemFun d i b) as [ret d1] eqn:Hs.
  destruct (Z.eqb_spec ret 0) as [->|]; cbn [negb]; [|done]. intros [= <-].
  rewrite (sysdata_load_store d i b d1 Hb Hs). cbn. by rewrite app_nil_r.
Qed.

(** The exported text of a table, in a buffer of a given size. *)
Lemma hexport_text htab t M size size' res :
  htab_rep htab t M -> 0 < size -> hexport_r htab 0 0 size [] = Some (Exported size' res) ->
  exists vs n, res = export_text 0 vs ++ replicate n 0 /\ Z.of_nat (length res) = size
    /\ lists_map vs M.
Proof.
  intros HR Hs. unfold hexport_r.
  destruct (collect_all htab t M 0 HR) as (vs0 & -> & Hvs0). cbn [mbind option_bind].
  destruct (qsort_rearranges cmpkey vs0) as (vs & -> & Hp). cbn [mbind option_bind].
  rewrite (proj2 (Z.eqb_neq size 0)) by lia. case_test; [done|]. unfold fill_buffer.
  case_test; [|done]. cbn [mbind option_bind]. intros [= <- <-].
  eexists vs, _. split; [done|]. split; [rewrite length_app, length_replicate; lia|].
  by apply (lists_map_perm vs0).
Qed.

(** The text consists of bytes. *)
Lemma export_text_bytes vs n : Forall (var_ok 0) vs -> Forall byte (export_text 0 vs ++ replicate n 0).
Proof.
  intros Hok. assert (Hc : forall s, Forall char_ok s -> Forall byte s).
  { intros s Hs. eapply Forall_impl; [exact Hs|]. unfold char_ok, byte. lia. }
  assert (He : forall s, Forall byte s -> Forall byte (escape 0 s)).
  { induction 1; cbn [escape]; [constructor|]. case_test; [constructor; [unfold byte, backslash; lia|]|]; by constructor. }
  assert (Hz : byte 0) by (unfold byte; lia).
  apply Forall_app. split; [|by apply Forall_replicate]. unfold export_text. apply Forall_app.
  split; [|by constructor]. induction Hok as [|v vs [[Hn _] [_ Hd]] Hvs IH]; [constructor|].
  cbn [fmap list_fmap concat]. apply Forall_app. split; [|done]. unfold entry_text.
  repeat (apply Forall_app; split).
  - apply Hc. eapply Forall_impl; [exact Hn|]. by intros c [? _].
  - constructor; [unfold byte, equals; lia|constructor].
  - by apply He, Hc.
  - by constructor.
Qed.

Definition value_of (M : gmap cstr ENTRY) (k : cstr) : option cstr := (M !! k) ≫= data.

(** The value of a variable in the default environment. *)
Definition default_value (vs : list var) (k : cstr) : option cstr :=
  match list_find (λ v, vname v = k) vs with Some (_, v) => Some (vdata v) | None => None end.

Lemma import_no_nil vs M sep : Forall (var_ok sep) vs -> NoDup (vname <$> vs) -> M !! [] = None ->
  foldl set_var M vs !! [] = None.
Proof.
  intros Hok Hnd HM. rewrite foldl_set_var by done.
  destruct (list_find (λ v, vname v = []) vs) as [[i v]|] eqn:Hf; [|done].
  apply list_find_Some in Hf as (Hv & He & _). rewrite Forall_forall in Hok.
  destruct (Hok v) as [[_ Hh] _]; [by eapply list_elem_of_lookup_2|]. by rewrite He in Hh.
Qed.

(** Importing a saved text over a table. *)
Lemma append_text htab t M vs n crc :
  htab_rep htab t M -> no_tombstones t (size htab) -> M !! [] = None ->
  NoDup (vname <$> vs) -> Forall (var_ok 0) vs -> Forall (accepted htab M H_NOCLEAR) vs ->
  filled htab + Z.of_nat (length vs) <= size htab ->
  let res := export_text 0 vs ++ replicate n 0 in
  Z.of_nat (length res) = ENV_SIZE -> in_word 32 crc -> crc32_rk 0 res = Some crc ->
  exists htab' t', env_append htab (le_bytes4 crc ++ res) true = Some (1, htab')
    /\ htab_rep htab' t' (foldl set_var M vs).
Proof.
  intros HR Hno HM Hnd Hok Hacc Hroom res Hlen Hw Hcrc. unfold env_append.
  change (drop 4 (le_bytes4 crc ++ res)) with res.
  change (take 4 (le_bytes4 crc ++ res)) with (le_bytes4 crc).
  rewrite take_ge, Hcrc by lia. cbn [mbind option_bind].
  rewrite (le_value_bytes crc Hw), Z.eqb_refl. cbn [negb]. unfold himport_r.
  change (H_NOCLEAR .& H_NOCLEAR =? 0) with false. cbn iota. rewrite (rep_table _ _ _ HR).
  cbn [mbind option_bind Z.eqb]. rewrite Hlen. change (ENV_SIZE =? 0) with false. cbn iota.
  destruct (import_loop_text htab t M vs 0 H_NOCLEAR n (S (length res)) HR)
    as (htab' & t' & Hi & HR' & _); try done.
  - pose proof (export_text_long 0 vs). unfold res. rewrite length_app. lia.
  - fold res in Hi. change (S (Z.to_nat 0)) with 1%nat. change (Some <$> []) with ([] : list (option cstr)).
    rewrite Hi. cbn [mbind option_bind negb delete_remaining]. by exists htab', t'.
Qed.

(** C6.  An environment that was saved successfully comes back at the next
    start: every saved variable has its saved value, and a variable that was
    not saved has the value of the default environment, if it is there.  The
    default environment is a list of variables, and setting them is not
    rejected. *)
Theorem saveenv_restores htab t M d d' htab0 vs0 n0 :
  htab_rep htab t M ->
  (forall k e x, M !! k = Some e -> data e = Some x -> var_ok 0 (Var k x)) ->
  saveenv gpMemFun htab d = Some (0, d') ->
  table htab0 = None -> NoDup (vname <$> vs0) -> Forall (var_ok 0) vs0 ->
  Forall (accepted htab0 ∅ 0) vs0 ->
  (forall k e x, M !! k = Some e -> data e = Some x ->
     accepted htab0 (foldl set_var ∅ vs0) H_NOCLEAR (Var k x)) ->
  Z.of_nat (length vs0) + Z.of_nat (base.size M) <= 64 ->
  let default_environment := export_text 0 vs0 ++ replicate n0 0 in
  Z.of_nat (length default_environment) <= ENV_SIZE ->
  exists htab' t' M', env_relocate_spec gpMemFun default_environment htab0 d' = Some htab'
    /\ htab_rep htab' t' M'
    /\ forall k, value_of M' k
         = match M !! k with Some e => data e | None => default_value vs0 k end.
Proof.
  intros HR Hok Hsave Ht0 Hnd0 Hok0 Hacc0 Hacc Hroom def Hdef.
  unfold saveenv in Hsave. bind_inv Hsave. destruct h as [|size' res]; [done|].
  destruct (hexport_text htab t M ENV_SIZE size' res HR) as (vs & n & Hres & Hlen & Hvs); [done|done|].
  bind_inv Hsave. rename z into crc.
  assert (Hlists : Forall (var_ok 0) vs) by (by apply (lists_map_elem vs M)).
  assert (Hbytes : Forall byte res).
  { rewrite Hres. by apply export_text_bytes. }
  assert (Hne : res <> []) by (intros ->; done).
  assert (Hcrc : in_word 32 crc).
  { rewrite crc32_rk_spec in Hb0 by (done || (unfold in_word; lia)). injection Hb0 as <-.
    by apply crc_msb_range. }
  destruct (write_env gpMemFun CONFIG_ENV_SIZE CONFIG_ENV_OFFSET (le_bytes4 crc ++ res) d) as [ret d1] eqn:Hw.
  destruct (Z.eqb_spec ret 0) as [->|]; [|done]. injection Hsave as <-.
  apply write_read_env in Hw; [|rewrite length_app; cbn [length le_bytes4]; unfold ENV_SIZE, CONFIG_ENV_SIZE in *; lia].
  unfold env_relocate_spec, set_default_env. rewrite (proj2 (Z.ltb_ge _ _) Hdef).
  destruct (import_text htab0 vs0 0 0 n0) as (h0 & t0 & Hi & HR0 & Hno0 & Hco0 & Hfl0 & Hsz0);
    [by left|done|done|done|done|done| |].
  { unfold CONFIG_ENV_MAX_ENTRIES, CONFIG_ENV_MIN_ENTRIES. pose proof (Z.div_pos (Z.of_nat (length def)) 8). fold def. lia. }
  fold def in Hi, Hsz0. rewrite Hi. cbn [mbind option_bind]. rewrite Hw, Hres.
  pose proof (lists_map_length vs M Hvs).
  destruct (append_text h0 t0 (foldl set_var ∅ vs0) vs n crc) as (h' & t' & Ha & HR');
    [done|done|by eapply import_no_nil|apply Hvs|done| | |by rewrite <-Hres|done|by rewrite <-Hres|].
  - apply (lists_map_elem vs M); [done|]. intros k e x HM Hx. eapply accepted_same; [exact Hco0|done|by eapply Hacc].
  - unfold CONFIG_ENV_MAX_ENTRIES, CONFIG_ENV_MIN_ENTRIES in Hsz0.
    pose proof (Z.div_pos (Z.of_nat (length def)) 8). lia.
  - rewrite Ha. cbn [mbind option_bind]. eexists _, _, _. split; [done|]. split; [exact HR'|].
    intros k. unfold value_of. rewrite (foldl_set_var_data vs M) by (done || by eapply rep_data).
    destruct (M !! k); [done|]. rewrite foldl_set_var_value by done. unfold default_value.
    by destruct (list_find _ vs0) as [[]|].
Qed.

(** A saved environment with one byte of its data changed is not imported:
    the variables stay as they are. *)
Theorem env_append_corrupt htab s1 x x' s2 :
  Forall byte (s1 ++ x :: s2) -> byte x' -> x <> x' ->
  Z.of_nat (length (s1 ++ x :: s2)) = ENV_SIZE ->
  env_append htab (le_bytes4 (crc_msb 32 poly_rk 0 (s1 ++ x :: s2)) ++ s1 ++ x' :: s2) true
  = Some (0, htab).
Proof.
  intros Hs Hx' Hne Hlen. assert (Hs' : Forall byte (s1 ++ x' :: s2)).
  { apply Forall_app in Hs as [? [_ ?]%Forall_cons]. apply Forall_app. by split; [|constructor]. }
  assert (Hlen' : length (s1 ++ x' :: s2) = length (s1 ++ x :: s2)) by (by rewrite !length_app).
  unfold env_append. set (crc := crc_msb 32 poly_rk 0 (s1 ++ x :: s2)).
  change (drop 4 (le_bytes4 crc ++ s1 ++ x' :: s2)) with (s1 ++ x' :: s2).
  change (take 4 (le_bytes4 crc ++ s1 ++ x' :: s2)) with (le_bytes4 crc).
  rewrite take_ge by lia. rewrite crc32_rk_spec by (done || by destruct s1). cbn [mbind option_bind].
  rewrite le_value_bytes by (by apply crc_msb_range).
  destruct (Z.eqb_spec (crc_msb 32 poly_rk 0 (s1 ++ x' :: s2)) crc) as [He|]; [|done].
  exfalso. by apply (crc_msb_detects 32 poly_rk 0 s1 x x' s2).
Qed.
End saved.

(** ** Witnesses *)

(** A medium that keeps the list of the sectors written. *)
Definition ex_load (d : list (Z * list Z)) (i : Z) : Z * list Z :=
  match List.find (λ e, fst e =? i) d with
  | Some (_, b) => (0, b)
  | None => (FTL_ERROR, replicate 512 0)
  end.
Definition ex_mem : MEM_FUN_T (list (Z * list Z)) :=
  {| SysDataLoad := Some ex_load; SysDataStore := Some (λ d i b, (0, (i, b) :: d)) |}.

#[local] Instance ex_mem_ok : SysDataOk ex_mem.
Proof.
  intros d i b d' _ [= <-]. change (ex_load ((i, b) :: d) i = (0, b)).
  unfold ex_load. cbn [List.find fst]. by rewrite Z.eqb_refl.
Qed.

Definition ex_saved : list (Z * list Z) :=
  match saveenv ex_mem bs_htab [] with Some (_, d) => d | None => [] end.
Definition ex_start : hsearch_data := Htab None 0 0 None.

Lemma saveenv_restores_witness :
  exists htab' t' M', env_relocate_spec (H := bs_hooks) ex_mem (export_text 0 [] ++ replicate 3 0) ex_start ex_saved = Some htab'
    /\ htab_rep htab' t' M'
    /\ forall k, value_of M' k
         = match bs_map !! k with Some e => data e | None => default_value [] k end.
Proof.
  apply (saveenv_restores (H := bs_hooks) (H0 := bs_hooks_ok) ex_mem bs_htab bs_slots bs_map [] ex_saved ex_start [] 3).
  - exact bs_htab_rep.
  - intros k e x Hk Hx. unfold bs_map in Hk. apply lookup_singleton_Some in Hk as [<- <-]. injection Hx as <-.
    split; split; [|done|done|].
    + constructor; [|constructor]. unfold char_ok, equals. lia.
    + apply (Forall_replicate char_ok). unfold char_ok, backslash. lia.
  - vm_compute. reflexivity.
  - reflexivity.
  - constructor.
  - constructor.
  - constructor.
  - intros k e x Hk Hx. unfold bs_map in Hk. apply lookup_singleton_Some in Hk as [<- <-]. injection Hx as <-.
    split; reflexivity.
  - vm_compute. done.
  - vm_compute. done.
Defined.

Lemma env_append_corrupt_witness :
  env_append (H := bs_hooks) ex_start
    (le_bytes4 (crc_msb 32 poly_rk 0 (replicate 7 1 ++ 2 :: replicate 500 3)) ++ replicate 7 1 ++ 5 :: replicate 500 3) true
  = Some (0, ex_start).
Proof.
  apply (env_append_corrupt (H := bs_hooks) ex_start (replicate 7 1) 2 5 (replicate 500 3)).
  - apply Forall_app. split; [apply Forall_replicate; unfold byte; lia|].
    constructor; [unfold byte; lia|apply Forall_replicate; unfold byte; lia].
  - unfold byte. lia.
  - lia.
  - reflexivity.
Defined.
