(* ===== verification/Vendor.v ===== *)
(** * Vendor storage ([board/rockchip/common/storage/storage.c])

    Serial number, MAC addresses and the like live in a small store of items
    ([struct vendor_info]) of which the medium keeps several copies; every
    update goes to the next copy with a higher version, and
    [vendor_storage_init] takes the copy with the highest valid version.

    [g_vendor] is a record with the fields of the struct; the medium is the list
    of its copies, and [vendor_ops] reads or writes sectors of one of them:
    the first, the last, or all.  The board boots from eMMC, so there are
    [VENDOR_PART_NUM] copies. *)

From S2P Require Import Prelude.

Definition VENDOR_PART_NUM : nat := 4.
Definition VENDOR_TAG : Z := 1380668996.
Definition VENDOR_ITEMS : nat := 126.
Definition VENDOR_DATA : Z := 64504.

Record vendor_item := Item { id : Z; offset : Z; isize : Z; iflag : Z }.

Record vendor_info := Vendor {
  tag : Z;
  version : Z;
  next_index : Z;
  item_num : Z;
  free_offset : Z;
  free_size : Z;
  item : list vendor_item;
  vdata : list Z;
  hash : Z;
  version2 : Z
}.

#[export] Instance vendor_item_eq_dec : EqDecision vendor_item.
Proof. solve_decision. Defined.

#[export] Instance vendor_info_eq_dec : EqDecision vendor_info.
Proof. solve_decision. Defined.

(** ** Initialisation *)

(** [vendor_ops] reads the first sector of a copy (the header and 62 items) and
    its last one (the end of the data, the hash and the second version). *)
Definition load_first (g v : vendor_info) : vendor_info :=
  Vendor (tag v) (version v) (next_index v) (item_num v) (free_offset v) (free_size v)
    (take 62 (item v) ++ drop 62 (item g)) (vdata g) (hash g) (version2 g).

Definition load_last (g v : vendor_info) : vendor_info :=
  Vendor (tag g) (version g) (next_index g) (item_num g) (free_offset g) (free_size g)
    (item g) (take 64000 (vdata g) ++ drop 64000 (vdata v)) (hash v) (version2 v).

(** [for (i = 0; i < vendor_part_num; i++)]; reading a copy that the medium does
    not have is the error of [vendor_ops]. *)
Fixpoint init_loop (n : nat) (i : nat) (g : vendor_info) (dev : list vendor_info)
    (max_ver : Z) (max_index : nat) : option (vendor_info * Z * nat) :=
  match n with
  | O => Some (g, max_ver, max_index)
  | S n =>
      v ← dev !! i;
      let g := load_last (load_first g v) v in
      if (tag g =? VENDOR_TAG) && (version2 g =? version g) && (max_ver <? version g)
      then init_loop n (S i) g dev (version g) i
      else init_loop n (S i) g dev max_ver max_index
  end.

(** [memset] and the assignments for a medium without a valid copy. *)
Definition vendor_fresh : vendor_info :=
  Vendor VENDOR_TAG 1 0 0 0 VENDOR_DATA (replicate VENDOR_ITEMS (Item 0 0 0 0))
    (replicate (Z.to_nat VENDOR_DATA) 0) 0 1.

Definition vendor_storage_init (g : vendor_info) (dev : list vendor_info) : Z * vendor_info :=
  match init_loop VENDOR_PART_NUM 0 g dev 0 0 with
  | None => (-1, g)
  | Some (g, max_ver, max_index) =>
      if negb (max_ver =? 0) then
        match dev !! max_index with
        | Some v => (0, v)
        | None => (-1, g)
        end
      else (0, vendor_fresh)
  end.

(** ** Reading and writing an item *)

(** The index of the first of the [item_num] items with this identifier. *)
Fixpoint find_item (n : nat) (i wanted : Z) (items : list vendor_item) : option (option Z) :=
  match n with
  | O => Some None
  | S n =>
      it ← aget items i;
      if id it =? wanted then Some (Some i) else find_item n (i + 1) wanted items
  end.

Definition vendor_storage_read (g : vendor_info) (wanted size : Z) : option (Z * list Z) :=
  found ← find_item (Z.to_nat (item_num g)) 0 wanted (item g);
  match found with
  | None => Some (-1, [])
  | Some i =>
      it ← aget (item g) i;
      let size := Z.min size (isize it) in
      if offset it + size <=? VENDOR_DATA
      then Some (size, take (Z.to_nat size) (drop (Z.to_nat (offset it)) (vdata g)))
      else None
  end.

(** [memcpy(&g_vendor.data[offset], pbuf, size)] *)
Definition put_data (d : list Z) (offset : Z) (buf : list Z) : option (list Z) :=
  if offset + Z.of_nat (length buf) <=? Z.of_nat (length d)
  then Some (take (Z.to_nat offset) d ++ buf ++ drop (Z.to_nat offset + length buf) d)
  else None.

(** [g_vendor.version++] up to the wrap of [next_index]. *)
Definition bump (g : vendor_info) : vendor_info :=
  let v := u32 (version g + 1) in
  let n := u16 (next_index g + 1) in
  Vendor (tag g) v (if Z.of_nat VENDOR_PART_NUM <=? n then 0 else n) (item_num g)
    (free_offset g) (free_size g) (item g) (vdata g) (hash g) v.

Definition set_items (g : vendor_info) (items : list vendor_item) (d : list Z) : vendor_info :=
  Vendor (tag g) (version g) (next_index g) (item_num g) (free_offset g) (free_size g)
    items d (hash g) (version2 g).

(** The new contents of [g_vendor]: [None] inside is the result [-1]. *)
Definition update_item (g : vendor_info) (wanted : Z) (buf : list Z) : option (option vendor_info) :=
  let size := Z.of_nat (length buf) in
  let algin_size := u32 (size + 63) .& Z.lnot 63 in
  found ← find_item (Z.to_nat (item_num g)) 0 wanted (item g);
  match found with
  | Some i =>
      if algin_size <? size then Some None
      else
        it ← aget (item g) i;
        d ← put_data (vdata g) (offset it) buf;
        items ← aset (item g) i (Item (id it) (offset it) (u16 size) (iflag it));
        Some (Some (bump (set_items g items d)))
  | None =>
      if algin_size <=? free_size g then
        it ← aget (item g) (item_num g);
        items ← aset (item g) (item_num g) (Item (u16 wanted) (free_offset g) (u16 size) (iflag it));
        d ← put_data (vdata g) (free_offset g) buf;
        Some (Some (bump (Vendor (tag g) (version g) (next_index g) (u16 (item_num g + 1))
                            (u16 (free_offset g + algin_size)) (u16 (free_size g - algin_size))
                            items d (hash g) (version2 g))))
      else Some None
  end.

(** The result, [g_vendor] and the medium after the call; the result of the
    write to the medium is not looked at. *)
Definition vendor_storage_write (g : vendor_info) (dev : list vendor_info) (wanted : Z)
    (buf : list Z) : option (Z * vendor_info * list vendor_info) :=
  r ← update_item g wanted buf;
  match r with
  | None => Some (-1, g, dev)
  | Some g' => Some (0, g', <[Z.to_nat (next_index g) := g']> dev)
  end.

(** * Theorems *)

(** ** The layout of the items *)

Definition live (g : vendor_info) (i : Z) (it : vendor_item) : Prop :=
  0 <= i < item_num g /\ aget (item g) i = Some it.

Record vendor_ok (g : vendor_info) : Prop := {
  ok_items : length (item g) = VENDOR_ITEMS;
  ok_data : Z.of_nat (length (vdata g)) = VENDOR_DATA;
  ok_num : 0 <= item_num g <= Z.of_nat VENDOR_ITEMS;
  ok_bounds i it : live g i it ->
    0 <= offset it /\ 0 <= isize it /\ offset it + isize it <= free_offset g;
  ok_order i j it jt : live g i it -> live g j jt -> i < j -> offset it + isize it <= offset jt;
  ok_ids i j it jt : live g i it -> live g j jt -> id it = id jt -> i = j;
  ok_free : 0 <= free_offset g /\ 0 <= free_size g /\ free_offset g + free_size g = VENDOR_DATA;
  ok_index : 0 <= next_index g < Z.of_nat VENDOR_PART_NUM
}.

Lemma find_item_spec n i wanted items :
  0 <= i -> i + Z.of_nat n <= Z.of_nat (length items) ->
  exists r, find_item n i wanted items = Some r /\
    match r with
    | Some k => i <= k < i + Z.of_nat n /\ exists it, aget items k = Some it /\ id it = wanted
    | None => forall k it, i <= k < i + Z.of_nat n -> aget items k = Some it -> id it <> wanted
    end.
Proof.
  revert i. induction n as [|n IH]; intros i Hi Hn; cbn [find_item].
  { eexists. split; [done|]. intros k it ?. lia. }
  destruct (aget_is_Some items i) as [it Hit]; [lia|]. rewrite Hit. cbn [mbind option_bind].
  destruct (Z.eqb_spec (id it) wanted) as [<-|Hne].
  - eexists. split; [done|]. cbn. split; [lia|eauto].
  - destruct (IH (i + 1)) as (r & -> & Hr); [lia|lia|]. eexists. split; [done|].
    destruct r as [k|]; [split; [lia|by apply Hr]|].
    intros k it' Hk Hit'. destruct (decide (k = i)) as [->|]; [congruence|]. apply (Hr k); [lia|done].
Qed.

(** The search for an item of a well-formed store. *)
Lemma find_item_live g wanted :
  vendor_ok g ->
  exists r, find_item (Z.to_nat (item_num g)) 0 wanted (item g) = Some r /\
    match r with
    | Some k => exists it, live g k it /\ id it = wanted
    | None => forall k it, live g k it -> id it <> wanted
    end.
Proof.
  intros Hok. pose proof (ok_num g Hok). pose proof (ok_items g Hok) as Hlen.
  destruct (find_item_spec (Z.to_nat (item_num g)) 0 wanted (item g)) as (r & Hf & Hr); [lia|lia|].
  exists r. split; [done|]. destruct r as [k|].
  - destruct Hr as [Hk (it & Hit & He)]. exists it. split; [split; [lia|done]|done].
  - intros k it [Hk Hit]. apply (Hr k); [lia|done].
Qed.

(** The bytes of an item. *)
Definition slice (d : list Z) (off len : Z) : list Z := take (Z.to_nat len) (drop (Z.to_nat off) d).

Lemma read_live g k it size :
  vendor_ok g -> live g k it -> 0 <= size ->
  vendor_storage_read g (id it) size
  = Some (Z.min size (isize it), slice (vdata g) (offset it) (Z.min size (isize it))).
Proof.
  intros Hok Hl Hsz. unfold vendor_storage_read.
  destruct (find_item_live g (id it) Hok) as (r & -> & Hr). cbn [mbind option_bind].
  destruct r as [k'|]; [|by destruct (Hr k it)].
  destruct Hr as (it' & Hl' & He). assert (k' = k) as -> by (by eapply (ok_ids g Hok)).
  assert (it' = it) as -> by (destruct Hl, Hl'; congruence).
  destruct Hl as [_ Hit]. rewrite Hit. cbn [mbind option_bind].
  destruct (ok_bounds g Hok k it Hl') as (? & ? & ?). destruct (ok_free g Hok) as (? & ? & ?).
  by rewrite (proj2 (Z.leb_le _ _)) by lia.
Qed.

Lemma read_absent g wanted size :
  vendor_ok g -> (forall k it, live g k it -> id it <> wanted) ->
  vendor_storage_read g wanted size = Some (-1, []).
Proof.
  intros Hok Hno. unfold vendor_storage_read.
  destruct (find_item_live g wanted Hok) as (r & -> & Hr). cbn [mbind option_bind].
  destruct r as [k|]; [|done]. destruct Hr as (it & Hl & He). by destruct (Hno k it).
Qed.

(** *** Writing into the data *)

Lemma put_data_spec d off buf :
  0 <= off -> off + Z.of_nat (length buf) <= Z.of_nat (length d) ->
  exists d', put_data d off buf = Some d' /\ length d' = length d
    /\ slice d' off (Z.of_nat (length buf)) = buf
    /\ (forall o n, 0 <= o -> 0 <= n -> o + n <= off \/ off + Z.of_nat (length buf) <= o ->
          slice d' o n = slice d o n).
Proof.
  intros Hoff Hlen. unfold put_data. rewrite (proj2 (Z.leb_le _ _) Hlen).
  eexists. split; [done|]. set (a := Z.to_nat off). split_and!.
  - rewrite !length_app, length_take, length_drop. lia.
  - unfold slice. fold a. rewrite drop_app_length' by (rewrite length_take; lia).
    by rewrite Nat2Z.id, take_app_length.
  - intros o n Ho Hn Hdis. unfold slice. destruct Hdis as [Hle|Hge].
    + rewrite !take_drop_commute. f_equal. rewrite take_app_le by (rewrite length_take; lia).
      rewrite take_take. f_equal. lia.
    + f_equal. rewrite drop_app_ge by (rewrite length_take; lia).
      rewrite drop_app_ge by (rewrite length_take; lia).
      rewrite drop_drop. f_equal. rewrite length_take. lia.
Qed.

Lemma slice_prefix d off len n :
  0 <= n <= len -> slice d off n = take (Z.to_nat n) (slice d off len).
Proof. intros Hn. unfold slice. rewrite take_take. f_equal. lia. Qed.

(** There is room for the new value: it ends before the next item, and when the
    item is new there is an entry for it. *)
Definition fits (g : vendor_info) (wanted len : Z) : Prop :=
  (forall k it, live g k it -> id it = wanted ->
     offset it + len <= free_offset g
     /\ forall j jt, live g j jt -> k < j -> offset it + len <= offset jt)
  /\ ((forall k it, live g k it -> id it <> wanted) -> item_num g < Z.of_nat VENDOR_ITEMS).

(** What a successful write does to the items. *)
Record stored (g g' : vendor_info) (wanted : Z) (buf : list Z) : Prop := {
  stored_ok : vendor_ok g';
  stored_read size : Z.of_nat (length buf) <= size ->
    vendor_storage_read g' wanted size = Some (Z.of_nat (length buf), buf);
  stored_frame w size : w <> wanted -> 0 <= size ->
    vendor_storage_read g' w size = vendor_storage_read g w size;
  stored_version : version g' = u32 (version g + 1) /\ version2 g' = version g';
  stored_index : next_index g' = (next_index g + 1) mod Z.of_nat VENDOR_PART_NUM;
  stored_tag : tag g' = tag g
}.

Lemma stored_intro g g' k it buf :
  vendor_ok g -> vendor_ok g' ->
  (forall j jt, live g' j jt <-> (j = k /\ jt = it) \/ (j <> k /\ live g j jt)) ->
  (forall j jt, live g j jt -> id jt = id it -> j = k) ->
  isize it = Z.of_nat (length buf) ->
  slice (vdata g') (offset it) (Z.of_nat (length buf)) = buf ->
  (forall j jt n, live g j jt -> j <> k -> 0 <= n <= isize jt ->
     slice (vdata g') (offset jt) n = slice (vdata g) (offset jt) n) ->
  (forall it', live g k it' -> id it' = id it) ->
  (version g' = u32 (version g + 1) /\ version2 g' = version g') ->
  next_index g' = (next_index g + 1) mod Z.of_nat VENDOR_PART_NUM -> tag g' = tag g ->
  stored g g' (id it) buf.
Proof.
  intros Hok Hok' Hlive Hid Hsz Hbuf Hframe Hkid Hver Hidx Htag.
  assert (Hnew : live g' k it) by (apply Hlive; by left). split; try done.
  - intros size Hs. rewrite (read_live g' k it size Hok' Hnew) by lia.
    rewrite Hsz, Z.min_r by lia. by rewrite Hbuf.
  - intros w size Hw Hs. destruct (find_item_live g w Hok) as (r & Hf & Hr).
    destruct r as [j|].
    + destruct Hr as (jt & Hj & <-).
      assert (j <> k) by (intros ->; apply Hw; by apply Hkid).
      rewrite (read_live g j jt size Hok Hj Hs), (read_live g' j jt size Hok'); [|apply Hlive; by right|done].
      f_equal. f_equal. apply (Hframe j); [done|done|]. destruct (ok_bounds g Hok j jt Hj) as (_ & ? & _). lia.
    + rewrite (read_absent g w size Hok Hr). apply read_absent; [done|].
      intros j jt Hj. apply Hlive in Hj as [[-> ->]|[_ Hj]]; [congruence|by eapply Hr].
Qed.

Lemma algin_spec size :
  0 <= size < 65536 ->
  let a := u32 (size + 63) .& Z.lnot 63 in size <= a <= size + 63.
Proof.
  intros Hs. cbn zeta. rewrite u32_small by lia. change 63 with (Z.ones 6) at 2 4.
  rewrite <-Z.ldiff_land, Z.ldiff_ones_r by lia.
  rewrite Z.shiftr_div_pow2, Z.shiftl_mul_pow2 by lia. change (2 ^ 6) with 64.
  pose proof (Z.div_mod (size + 63) 64). pose proof (Z.mod_pos_bound (size + 63) 64). lia.
Qed.

Lemma next_index_mod g : vendor_ok g ->
  (if Z.of_nat VENDOR_PART_NUM <=? u16 (next_index g + 1) then 0 else u16 (next_index g + 1))
  = (next_index g + 1) mod Z.of_nat VENDOR_PART_NUM.
Proof.
  intros Hok. pose proof (ok_index g Hok) as Hi. change (Z.of_nat VENDOR_PART_NUM) with 4 in *.
  rewrite u16_small by lia. case_test; [|symmetry; apply Z.mod_small; lia].
  assert (next_index g = 3) as -> by lia. done.
Qed.

Lemma next_index_range g : 0 <= (next_index g + 1) mod Z.of_nat VENDOR_PART_NUM < Z.of_nat VENDOR_PART_NUM.
Proof. change (Z.of_nat VENDOR_PART_NUM) with 4. apply Z.mod_pos_bound. lia. Qed.

(** An item that exists gets a new value. *)
Lemma update_existing g k it buf :
  vendor_ok g -> live g k it -> Z.of_nat (length buf) < 65536 ->
  fits g (id it) (Z.of_nat (length buf)) ->
  exists g', update_item g (id it) buf = Some (Some g') /\ stored g g' (id it) buf.
Proof.
  intros Hok Hl Hlen [Hfit _]. destruct (Hfit k it Hl eq_refl) as [Hfree Hnext].
  unfold update_item. destruct (find_item_live g (id it) Hok) as (r & -> & Hr). cbn [mbind option_bind].
  destruct r as [k'|]; [|by destruct (Hr k it)]. destruct Hr as (it' & Hl' & He).
  assert (k' = k) as -> by (by eapply (ok_ids g Hok)).
  assert (it' = it) as -> by (destruct Hl, Hl'; congruence).
  pose proof (algin_spec (Z.of_nat (length buf)) ltac:(lia)) as Ha. cbn zeta in Ha.
  rewrite (proj2 (Z.ltb_ge _ _)) by apply Ha. destruct (Hl) as [Hk Hit]. rewrite Hit. cbn [mbind option_bind].
  destruct (ok_bounds g Hok k it Hl) as (Ho & Hs & Hb). destruct (ok_free g Hok) as (Hf0 & Hf1 & Hf2).
  pose proof (ok_data g Hok) as Hd. pose proof (ok_items g Hok) as Hil. pose proof (ok_num g Hok) as Hnum.
  destruct (put_data_spec (vdata g) (offset it) buf Ho) as (d' & -> & Hd' & Hbuf & Hfr); [lia|].
  cbn [mbind option_bind]. rewrite aset_Some by lia. cbn [mbind option_bind].
  rewrite u16_small by lia. set (nit := Item (id it) (offset it) (Z.of_nat (length buf)) (iflag it)).
  eexists. split; [done|]. change (id it) with (id nit).
  assert (Hlive : forall j jt, live (bump (set_items g (<[Z.to_nat k := nit]> (item g)) d')) j jt
            <-> (j = k /\ jt = nit) \/ (j <> k /\ live g j jt)).
  { intros j jt. unfold live. cbn [bump set_items item item_num]. rewrite aget_insert by lia.
    case_decide as Hj; [subst j|]; split; intros H; destruct_and?; destruct_or?; destruct_and?; simplify_eq; auto. }
  apply (stored_intro g _ k nit buf); try done.
  - split; cbn [bump set_items item vdata item_num free_offset free_size next_index].
    + by rewrite length_insert.
    + congruence.
    + done.
    + intros j jt [[-> ->]|[Hj Hjl]]%Hlive; [cbn; lia|]. by apply (ok_bounds g Hok j jt).
    + intros i j it1 jt [[-> ->]|[Hi1 Hil1]]%Hlive [[-> ->]|[Hj Hjl]]%Hlive Hij; cbn [offset isize].
      * lia.
      * by apply (Hnext j jt).
      * by apply (ok_order g Hok i k it1 it).
      * by apply (ok_order g Hok i j it1 jt).
    + intros i j it1 jt [[-> ->]|[Hi1 Hil1]]%Hlive [[-> ->]|[Hj Hjl]]%Hlive Hid; cbn [id] in Hid.
      * done.
      * by apply (ok_ids g Hok k j it jt).
      * by apply (ok_ids g Hok i k it1 it).
      * by apply (ok_ids g Hok i j it1 jt).
    + done.
    + rewrite next_index_mod by done. apply next_index_range.
  - intros j jt Hj Hid. by apply (ok_ids g Hok j k jt it).
  - intros j jt n Hj Hjk Hn. cbn [bump set_items vdata]. destruct (ok_bounds g Hok j jt Hj) as (? & ? & ?).
    apply Hfr; [lia|lia|]. destruct (decide (j < k)).
    + left. pose proof (ok_order g Hok j k jt it Hj Hl ltac:(lia)). lia.
    + right. apply (Hnext j jt); [done|lia].
  - intros it1 [_ Hit1]. assert (it1 = it) as -> by congruence. done.
  - exact (next_index_mod g Hok).
Qed.

(** A new item goes to the free space. *)
Lemma update_new g wanted buf :
  vendor_ok g -> (forall k it, live g k it -> id it <> wanted) ->
  0 <= wanted < 65536 -> Z.of_nat (length buf) < 65536 ->
  item_num g < Z.of_nat VENDOR_ITEMS ->
  exists r, update_item g wanted buf = Some r /\
    match r with
    | Some g' => stored g g' wanted buf
    | None => free_size g < u32 (Z.of_nat (length buf) + 63) .& Z.lnot 63
    end.
Proof.
  intros Hok Hno Hw Hlen Hnum. unfold update_item.
  destruct (find_item_live g wanted Hok) as (r & -> & Hr). cbn [mbind option_bind].
  destruct r as [k|]; [destruct Hr as (it & Hl & He); by destruct (Hno k it)|].
  pose proof (algin_spec (Z.of_nat (length buf)) ltac:(lia)) as Ha. cbn zeta in Ha.
  set (a := u32 (Z.of_nat (length buf) + 63) .& Z.lnot 63) in *.
  destruct (Z.leb_spec a (free_size g)) as [Hle|Hgt]; [|by exists None].
  pose proof (ok_data g Hok) as Hd. pose proof (ok_items g Hok) as Hil. pose proof (ok_num g Hok) as Hnum0.
  destruct (ok_free g Hok) as (Hf0 & Hf1 & Hf2). unfold VENDOR_ITEMS, VENDOR_DATA in *.
  destruct (aget_is_Some (item g) (item_num g)) as [it0 Hit0]; [lia|]. rewrite Hit0. cbn [mbind option_bind].
  rewrite aset_Some by lia. cbn [mbind option_bind].
  destruct (put_data_spec (vdata g) (free_offset g) buf Hf0) as (d' & -> & Hd' & Hbuf & Hfr); [lia|].
  cbn [mbind option_bind]. rewrite (u16_small wanted), (u16_small (Z.of_nat (length buf))),
    (u16_small (item_num g + 1)), (u16_small (free_offset g + a)), (u16_small (free_size g - a)) by lia.
  set (nit := Item wanted (free_offset g) (Z.of_nat (length buf)) (iflag it0)).
  eexists. split; [done|]. cbn beta iota. set (g' := bump _).
  assert (Hlive : forall j jt, live g' j jt <-> (j = item_num g /\ jt = nit) \/ (j <> item_num g /\ live g j jt)).
  { intros j jt. unfold live, g'. cbn [bump item item_num]. rewrite aget_insert by lia.
    case_decide as Hj; [subst j; split; [intros [_ [= <-]]; by left|intros [[_ ->]|[? _]]; [split; [lia|done]|done]]|].
    split; [intros [? ?]; right; split_and!; [done|lia|lia|done]|].
    intros [[? _]|(_ & ? & ?)]; [done|split; [lia|done]]. }
  change wanted with (id nit). apply (stored_intro g g' (item_num g) nit buf); try done.
  - split; unfold g'; cbn [bump item vdata item_num free_offset free_size next_index]; fold g'.
    + by rewrite length_insert.
    + rewrite Hd'. exact Hd.
    + unfold VENDOR_ITEMS. lia.
    + intros j jt [[-> ->]|[Hj Hjl]]%Hlive; [cbn; lia|]. destruct (ok_bounds g Hok j jt Hjl). lia.
    + intros i j it1 jt [[-> ->]|[Hi1 Hil1]]%Hlive [[-> ->]|[Hj Hjl]]%Hlive Hij; cbn [offset isize nit].
      * lia.
      * destruct Hjl. lia.
      * by apply (ok_bounds g Hok i it1).
      * by apply (ok_order g Hok i j it1 jt).
    + intros i j it1 jt [[-> ->]|[Hi1 Hil1]]%Hlive [[-> ->]|[Hj Hjl]]%Hlive Hid; cbn [id nit] in Hid.
      * done.
      * by destruct (Hno j jt).
      * by destruct (Hno i it1).
      * by apply (ok_ids g Hok i j it1 jt).
    + unfold VENDOR_DATA. lia.
    + rewrite next_index_mod by done. apply next_index_range.
  - intros j jt Hj Hid. by destruct (Hno j jt).
  - intros j jt n Hj Hjk Hn. destruct (ok_bounds g Hok j jt Hj) as (? & ? & ?).
    apply Hfr; [lia|lia|]. left. lia.
  - intros it' [? _]. lia.
  - exact (next_index_mod g Hok).
Qed.

(** ** The copies on the medium *)

Definition valid (v : vendor_info) : Prop := tag v = VENDOR_TAG /\ version2 v = version v.

Lemma init_loop_spec n : forall i g dev mv mi,
  (i + n <= length dev)%nat ->
  exists g' mv' mi', init_loop n i g dev mv mi = Some (g', mv', mi')
    /\ mv <= mv'
    /\ (forall j v, (i <= j < i + n)%nat -> dev !! j = Some v -> valid v -> version v <= mv')
    /\ ((mv' = mv /\ mi' = mi)
        \/ exists v, (i <= mi' < i + n)%nat /\ dev !! mi' = Some v /\ valid v /\ version v = mv' /\ mv < mv').
Proof.
  induction n as [|n IH]; intros i g dev mv mi Hn; cbn [init_loop].
  { exists g, mv, mi. split_and!; [done|lia|intros; lia|by left]. }
  destruct (lookup_lt_is_Some_2 dev i) as [v Hv]; [lia|]. rewrite Hv. cbn [mbind option_bind].
  set (g1 := load_last (load_first g v) v).
  change (tag g1) with (tag v). change (version2 g1) with (version2 v). change (version g1) with (version v).
  destruct ((tag v =? VENDOR_TAG) && (version2 v =? version v) && (mv <? version v)) eqn:Ht.
  - destruct (IH (S i) g1 dev (version v) i) as (g' & mv' & mi' & -> & Hle & Hall & Hres); [lia|].
    exists g', mv', mi'. split_and!; [done|lia| |].
    + intros j w Hj Hw Hvalid. destruct (decide (j = i)) as [->|]; [simplify_eq; lia|]. apply (Hall j w); [lia|done|done].
    + right. destruct Hres as [[-> ->]|(w & Hw & Hlk & Hvalid & He & Hlt)].
      * exists v. split_and!; [lia|lia|done|unfold valid; lia..|done|lia].
      * exists w. split_and!; try done; lia.
  - destruct (IH (S i) g1 dev mv mi) as (g' & mv' & mi' & -> & Hle & Hall & Hres); [lia|].
    exists g', mv', mi'. split_and!; [done|lia| |].
    + intros j w Hj Hw Hvalid. destruct (decide (j = i)) as [->|]; [|apply (Hall j w); [lia|done|done]].
      assert (w = v) as -> by congruence. unfold valid in Hvalid. lia.
    + destruct Hres as [?|(w & Hw & Hlk & Hvalid & He & Hlt)]; [by left|].
      right. exists w. split_and!; try done; lia.
Qed.

(** [g] is what the medium holds: either no copy is valid and [g] is the empty
    store, or one copy is [g], every other valid one is older, and the next
    write goes to another copy. *)
Record persisted (g : vendor_info) (dev : list vendor_info) : Prop := {
  p_ok : vendor_ok g;
  p_valid : valid g;
  p_version : 0 < version g;
  p_length : length dev = VENDOR_PART_NUM;
  p_second j v : dev !! j = Some v -> version2 v <= version g;
  p_current :
    (g = vendor_fresh /\ forall j v, dev !! j = Some v -> valid v -> version v <= 0)
    \/ exists j, dev !! j = Some g /\ Z.of_nat j <> next_index g
         /\ forall j' v, dev !! j' = Some v -> valid v -> j' <> j -> version v < version g
}.

(** Starting up reads it back, whatever [g_vendor] held. *)
Lemma init_persisted g g0 dev : persisted g dev -> vendor_storage_init g0 dev = (0, g).
Proof.
  intros HP. unfold vendor_storage_init. pose proof (p_length g dev HP) as Hlen.
  destruct (init_loop_spec VENDOR_PART_NUM 0 g0 dev 0 0) as (g' & mv & mi & -> & Hle & Hall & Hres); [lia|].
  pose proof (p_version g dev HP) as Hver. pose proof (p_valid g dev HP) as Hval.
  destruct (p_current g dev HP) as [[-> Hold]|(j & Hj & _ & Hold)].
  - destruct Hres as [[-> _]|(v & _ & Hv & Hvalid & He & Hlt)]; [done|].
    specialize (Hold _ _ Hv Hvalid). lia.
  - assert (Hjlt : (j < length dev)%nat) by (by eapply lookup_lt_Some).
    assert (version g <= mv) by (apply (Hall j g); [lia|done|done]).
    destruct Hres as [[-> _]|(v & _ & Hv & Hvalid & He & Hlt)]; [lia|].
    destruct (Z.eqb_spec mv 0); [lia|]. cbn [negb].
    destruct (decide (mi = j)) as [->|Hne]; [by rewrite Hj|].
    specialize (Hold mi v Hv Hvalid Hne). lia.
Qed.

(** What a write of [new] over [old] leaves when the power fails at some sector:
    the sectors are written in ascending order, so the header is new before
    the last sector is. *)
Definition torn (old new t : vendor_info) : Prop :=
  t = old \/ t = new
  \/ (tag t = tag new /\ version t = version new /\ version2 t = version2 old).

Lemma stored_persisted g g' dev wanted buf :
  persisted g dev -> stored g g' wanted buf -> version g + 1 < 2 ^ 32 ->
  persisted g' (<[Z.to_nat (next_index g) := g']> dev).
Proof.
  intros HP HS Hw. destruct (stored_version _ _ _ _ HS) as [Hv Hv2].
  pose proof (p_version g dev HP) as Hver. rewrite u32_small in Hv by lia.
  pose proof (ok_index g (p_ok g dev HP)) as Hi. pose proof (p_length g dev HP) as Hlen.
  unfold VENDOR_PART_NUM in Hi, Hlen. split.
  - apply (stored_ok _ _ _ _ HS).
  - destruct (p_valid g dev HP) as [Ht _]. split; [rewrite (stored_tag _ _ _ _ HS); exact Ht|done].
  - lia.
  - by rewrite length_insert.
  - intros j v Hj. apply list_lookup_insert_Some in Hj as [(<- & <- & _)|[_ Hj]]; [lia|].
    pose proof (p_second g dev HP j v Hj). lia.
  - right. exists (Z.to_nat (next_index g)). split_and!.
    + apply list_lookup_insert_eq. lia.
    + rewrite (stored_index _ _ _ _ HS). change (Z.of_nat VENDOR_PART_NUM) with 4.
      rewrite Z2Nat.id by lia. pose proof (Z.div_mod (next_index g + 1) 4).
      pose proof (Z.mod_pos_bound (next_index g + 1) 4). lia.
    + intros j v Hj Hvalid Hne. rewrite list_lookup_insert_ne in Hj by done.
      destruct (p_current g dev HP) as [[_ Hold]|(j0 & Hj0 & _ & Hold)].
      * specialize (Hold j v Hj Hvalid). lia.
      * destruct (decide (j = j0)) as [->|Hn]; [simplify_eq; lia|]. specialize (Hold j v Hj Hvalid Hn). lia.
Qed.

Lemma torn_persisted g dev old t :
  persisted g dev -> dev !! Z.to_nat (next_index g) = Some old ->
  version2 t = version2 old -> version t = version g + 1 ->
  persisted g (<[Z.to_nat (next_index g) := t]> dev).
Proof.
  intros HP Hold Ht2 Htv. pose proof (p_second g dev HP _ _ Hold) as Hs.
  pose proof (ok_index g (p_ok g dev HP)) as Hi.
  assert (Hinv : ~ valid t) by (intros [_ ?]; lia).
  split; [by apply (p_ok g dev HP)|by apply (p_valid g dev HP)|by apply (p_version g dev HP)| | |].
  - rewrite length_insert. by apply (p_length g dev HP).
  - intros j v Hj. apply list_lookup_insert_Some in Hj as [(<- & <- & _)|[_ Hj]]; [lia|].
    by apply (p_second g dev HP j).
  - destruct (p_current g dev HP) as [[Hg Hv]|(j0 & Hj0 & Hne & Hv)].
    + left. split; [done|]. intros j v Hj Hvalid.
      apply list_lookup_insert_Some in Hj as [(<- & <- & _)|[_ Hj]]; [done|]. by apply (Hv j).
    + right. exists j0. split_and!; [|done|].
      * rewrite list_lookup_insert_ne by lia. done.
      * intros j v Hj Hvalid Hn.
        apply list_lookup_insert_Some in Hj as [(<- & <- & _)|[_ Hj]]; [done|]. by apply (Hv j).
Qed.


Lemma vendor_write_main g dev wanted buf :
  vendor_ok g -> 0 <= wanted < 65536 -> Z.of_nat (length buf) < 65536 ->
  fits g wanted (Z.of_nat (length buf)) ->
  exists res g' dev', vendor_storage_write g dev wanted buf = Some (res, g', dev') /\
    ((res = 0 /\ stored g g' wanted buf)
     \/ (res = -1 /\ g' = g /\ dev' = dev
         /\ free_size g < u32 (Z.of_nat (length buf) + 63) .& Z.lnot 63)).
Proof.
  intros Hok Hw Hlen Hfit. unfold vendor_storage_write.
  destruct (find_item_live g wanted Hok) as (r & _ & Hr). destruct r as [k|].
  - destruct Hr as (it & Hl & <-). destruct (update_existing g k it buf Hok Hl Hlen Hfit) as (g' & -> & HS).
    cbn [mbind option_bind]. eexists _, _, _. split; [done|]. by left.
  - destruct (update_new g wanted buf Hok Hr Hw Hlen (proj2 Hfit Hr)) as (r & -> & HS).
    cbn [mbind option_bind]. destruct r as [g'|]; eexists _, _, _; (split; [done|]); [by left|by right].
Qed.


(** The media that a power failure can leave between [dev] and [dev']: every
    copy that the write changes may be torn, the others are as before. *)
Definition crashed (dev dev' d : list vendor_info) : Prop :=
  length d = length dev /\
  forall i old new t, dev !! i = Some old -> dev' !! i = Some new -> d !! i = Some t ->
    t = old \/ (old <> new /\ torn old new t).

Lemma vendor_write_dev g g' dev dev' wanted buf :
  vendor_storage_write g dev wanted buf = Some (0, g', dev') -> dev' = <[Z.to_nat (next_index g) := g']> dev.
Proof.
  unfold vendor_storage_write. destruct (update_item g wanted buf) as [[r|]|]; cbn [mbind option_bind]; [|done|done].
  by intros [= -> <-].
Qed.

(** Only the copy at [next_index] can be torn. *)
Lemma crashed_insert dev d i g' old :
  dev !! i = Some old -> crashed dev (<[i := g']> dev) d -> exists t, torn old g' t /\ d = <[i := t]> dev.
Proof.
  intros Hold [Hlen Hc]. pose proof (lookup_lt_Some _ _ _ Hold) as Hi.
  destruct (lookup_lt_is_Some_2 d i) as [t Ht]; [lia|]. exists t. split.
  - destruct (Hc i old g' t Hold (list_lookup_insert_eq dev i g' Hi) Ht) as [->|[_ ?]]; [by left|done].
  - apply list_eq. intros j. destruct (decide (j = i)) as [->|Hne]; [by rewrite Ht, list_lookup_insert_eq|].
    rewrite list_lookup_insert_ne by done. destruct (dev !! j) as [v|] eqn:Hj.
    + destruct (lookup_lt_is_Some_2 d j) as [u Hu]; [rewrite Hlen; by eapply lookup_lt_Some|].
      destruct (Hc j v v u Hj) as [->|[? _]]; [by rewrite list_lookup_insert_ne|done|done|done].
    + apply lookup_ge_None in Hj. apply lookup_ge_None. lia.
Qed.

(** C7.  Updates are atomic: when the power fails while the medium is written,
    the next start finds the old or the new contents, the new ones if all
    sectors were written, and the medium is again in a state from which
    updates are safe. *)
Theorem vendor_write_crash_safe g g' g0 dev dev' d wanted buf :
  persisted g dev -> 0 <= wanted < 65536 -> Z.of_nat (length buf) < 65536 -> fits g wanted (Z.of_nat (length buf)) ->
  version g + 1 < 2 ^ 32 ->
  vendor_storage_write g dev wanted buf = Some (0, g', dev') -> crashed dev dev' d ->
  exists g'', vendor_storage_init g0 d = (0, g'')
    /\ (g'' = g \/ g'' = g') /\ (d = dev' -> g'' = g') /\ persisted g'' d.
Proof.
  intros HP Hid Hlen Hfit Hv Hwr Hc. pose proof (vendor_write_dev _ _ _ _ _ _ Hwr) as ->.
  destruct (vendor_write_main g dev wanted buf (p_ok g dev HP) Hid Hlen Hfit) as (r & g1 & d1 & Hw & [[-> HS]|(-> & _)]);
    rewrite Hwr in Hw; [|done]. injection Hw as <- _.
  pose proof (ok_index g (p_ok g dev HP)) as Hi. pose proof (p_length g dev HP) as Hl.
  destruct (lookup_lt_is_Some_2 dev (Z.to_nat (next_index g))) as [old Hold]; [lia|].
  destruct (crashed_insert _ _ _ _ _ Hold Hc) as (t & Ht & ->). set (i := Z.to_nat (next_index g)) in *.
  assert (Hnew : persisted g' (<[i := g']> dev)) by (by eapply stored_persisted).
  destruct (decide (t = g')) as [->|Hne].
  { exists g'. split_and!; [by apply init_persisted|by right|done|done]. }
  assert (HPt : persisted g (<[i := t]> dev)).
  { destruct Ht as [->|[?|(_ & Htv & Ht2)]]; [by rewrite list_insert_id|done|].
    eapply torn_persisted; [done|done|done|]. destruct (stored_version _ _ _ _ HS) as [-> _] in Htv.
    pose proof (p_version g dev HP). by rewrite u32_small in Htv by lia. }
  exists g. split_and!; [by apply init_persisted|by left| |done].
  intros E. destruct Hne. apply (f_equal (.!! i)) in E. rewrite !list_lookup_insert_eq in E by (by eapply lookup_lt_Some).
  by injection E.
Qed.

(** The check of the size of a new value compares it with its own aligned
    size, so a longer value runs into the next item: after the serial number
    has been rewritten with 65 bytes, the next item has changed. *)
Theorem vendor_write_overlaps :
  (r1 ← update_item vendor_fresh 1 [1]; g1 ← r1;
   r2 ← update_item g1 2 [2]; g2 ← r2;
   r3 ← update_item g2 1 (replicate 65 7); g3 ← r3;
   before ← vendor_storage_read g2 2 1; after ← vendor_storage_read g3 2 1;
   Some (before, after)) = Some ((1, [2]), (1, [7])).
Proof. vm_compute. reflexivity. Qed.

Lemma vendor_fresh_ok : vendor_ok vendor_fresh.
Proof.
  assert (Hno : forall i it, ~ live vendor_fresh i it).
  { intros i it [Hi _]. unfold vendor_fresh in Hi. cbn [item_num] in Hi. lia. }
  split; unfold vendor_fresh; cbn [item vdata item_num free_offset free_size next_index]; fold vendor_fresh.
  - apply length_replicate.
  - rewrite length_replicate. done.
  - unfold VENDOR_ITEMS. lia.
  - intros i it H. by destruct (Hno i it).
  - intros i j it jt H. by destruct (Hno i it).
  - intros i j it jt H. by destruct (Hno i it).
  - done.
  - done.
Qed.

(** A medium of zeros. *)
Definition vendor_zero : vendor_info :=
  Vendor 0 0 0 0 0 0 (replicate VENDOR_ITEMS (Item 0 0 0 0)) (replicate (Z.to_nat VENDOR_DATA) 0) 0 0.
Definition ex_medium : list vendor_info := replicate VENDOR_PART_NUM vendor_zero.

Lemma ex_medium_persisted : persisted vendor_fresh ex_medium.
Proof.
  assert (Hz : forall j v, ex_medium !! j = Some v -> v = vendor_zero).
  { intros j v H. unfold ex_medium in H. by apply lookup_replicate in H as [-> _]. }
  split.
  - exact vendor_fresh_ok.
  - split; reflexivity.
  - reflexivity.
  - apply length_replicate.
  - intros j v ->%Hz. unfold vendor_zero, vendor_fresh. cbn [version version2]. lia.
  - left. split; [done|]. intros j v ->%Hz _. unfold vendor_zero. cbn [version]. lia.
Qed.

Lemma ex_fits : fits vendor_fresh 1 1.
Proof.
  assert (Hno : forall i it, ~ live vendor_fresh i it).
  { intros i it [Hi _]. unfold vendor_fresh in Hi. cbn [item_num] in Hi. lia. }
  split; [intros k it H; by destruct (Hno k it)|]. intros _. unfold vendor_fresh, VENDOR_ITEMS. cbn [item_num]. lia.
Qed.

Lemma ex_stored : exists g', update_item vendor_fresh 1 [7] = Some (Some g') /\ stored vendor_fresh g' 1 [7].
Proof.
  destruct (update_new vendor_fresh 1 [7] vendor_fresh_ok) as (r & Hu & Hr).
  - intros k it [Hi _]. unfold vendor_fresh in Hi. cbn [item_num] in Hi. lia.
  - lia.
  - cbn [length]. lia.
  - unfold vendor_fresh, VENDOR_ITEMS. cbn [item_num]. lia.
  - destruct r as [g'|]; [exists g'; split; [exact Hu|exact Hr]|]. exfalso. revert Hr. unfold vendor_fresh. cbn [free_size].
    change (u32 (Z.of_nat (length [7]) + 63) .& Z.lnot 63) with 64. unfold VENDOR_DATA. lia.
Qed.


(** The power fails after the first sector. *)
Lemma vendor_write_crash_safe_witness :
  exists g' t g'', torn vendor_zero g' t
    /\ vendor_storage_init vendor_zero (<[0%nat := t]> ex_medium) = (0, g'')
    /\ (g'' = vendor_fresh \/ g'' = g').
Proof.
  destruct ex_stored as (g' & Hu & HS). set (t := load_first vendor_zero g').
  assert (Ht : torn vendor_zero g' t) by (right; right; split_and!; reflexivity).
  destruct (vendor_write_crash_safe vendor_fresh g' vendor_zero ex_medium
              (<[0%nat := g']> ex_medium) (<[0%nat := t]> ex_medium) 1 [7]) as (g'' & Hi & Hg & _).
  - exact ex_medium_persisted.
  - lia.
  - cbn [length]. lia.
  - exact ex_fits.
  - reflexivity.
  - unfold vendor_storage_write. rewrite Hu. reflexivity.
  - split; [by rewrite length_insert|]. intros i old new u Hi Hn Hd.
    destruct (decide (i = 0%nat)) as [->|Hne]; [|rewrite list_lookup_insert_ne in Hd by done; left; congruence].
    injection Hi as <-. injection Hn as <-. injection Hd as <-. right. split; [|exact Ht].
    intros E. destruct (stored_version _ _ _ _ HS) as [Hv _]. rewrite <-E in Hv. discriminate Hv.
  - exists g', t, g''. split; [exact Ht|]. split; [exact Hi|exact Hg].
Defined.

(** The table of items has room for 126; the next one is written behind it. *)
Theorem vendor_write_item_overflow g wanted buf :
  vendor_ok g -> item_num g = Z.of_nat VENDOR_ITEMS ->
  (forall k it, live g k it -> id it <> wanted) ->
  u32 (Z.of_nat (length buf) + 63) .& Z.lnot 63 <= free_size g ->
  update_item g wanted buf = None.
Proof.
  intros Hok Hn Hno Hf. unfold update_item.
  destruct (find_item_live g wanted Hok) as (r & -> & Hr). cbn [mbind option_bind].
  destruct r as [k|]; [destruct Hr as (it & Hl & He); by destruct (Hno k it)|].
  rewrite (proj2 (Z.leb_le _ _) Hf), Hn. unfold aget. rewrite decide_True by lia.
  rewrite lookup_ge_None_2; [done|]. rewrite (ok_items g Hok). lia.
Qed.
