(* ===== verification/Div64.v ===== *)
(** * 64-bit division by a 32-bit number ([lib/div64.c], [include/div64.h])

    [__div64_32] divides by shifting and subtracting; [do_div] uses it for
    dividends of more than 32 bits.  Both return the remainder and the
    quotient. *)

From S2P Require Import Prelude.

(** [while ((int64_t)b > 0 && b < rem)]: [b] and [d] are doubled. *)
Fixpoint double_loop (fuel : nat) (rem b d : Z) : option (Z * Z) :=
  match fuel with
  | O => None
  | S fuel =>
      if (0 <? s64 b) && (b <? rem) then double_loop fuel rem (u64 (b + b)) (u64 (d + d))
      else Some (b, d)
  end.

(** [do { ... } while (d)] *)
Fixpoint subtract_loop (fuel : nat) (rem b d res : Z) : option (Z * Z) :=
  match fuel with
  | O => None
  | S fuel =>
      let '(rem, res) := if b <=? rem then (u64 (rem - b), u64 (res + d)) else (rem, res) in
      let b := b ≫ 1 in
      let d := d ≫ 1 in
      if d =? 0 then Some (rem, res) else subtract_loop fuel rem b d res
  end.

(** The remainder and the new [*n]; at most 64 turns of each loop. *)
Definition __div64_32 (n base : Z) : option (Z * Z) :=
  let high := n ≫ 32 in
  let '(rem, res) :=
    if base <=? high then
      let high := high / base in
      (u64 (n - u64 (u32 (high * base) ≪ 32)), u64 (high ≪ 32))
    else (n, 0) in
  '(b, d) ← double_loop 65 rem base 1;
  '(rem, res) ← subtract_loop 65 rem b d res;
  Some (u32 rem, res).

Definition do_div (n base : Z) : option (Z * Z) :=
  if n ≫ 32 =? 0 then Some (u32 n mod base, u32 n / base) else __div64_32 n base.

(** [lldiv] *)
Definition lldiv (dividend divisor : Z) : option Z := '(_, q) ← do_div dividend divisor; Some q.

Lemma s64_pos b : 0 <= b < 2 ^ 64 -> (0 <? s64 b) = (0 <? b) && (b <? 2 ^ 63).
Proof.
  intros Hb. unfold s64, swrap. cbn [Z.sub Z.pos_sub]. change (64 - 1) with 63.
  destruct (Z.ltb_spec b (2 ^ 63)).
  - rewrite Z.mod_small by lia. rewrite andb_true_r. f_equal. lia.
  - rewrite andb_false_r. replace (b + 2 ^ 63) with (b - 2 ^ 63 + 1 * 2 ^ 64) by lia.
    rewrite Z_mod_plus_full, Z.mod_small by lia. apply Z.ltb_ge. lia.
Qed.

(** The doubling stops at a multiple of the divisor by a power of two, above
    half of the remainder. *)
Lemma double_loop_spec fuel rem base k :
  0 < base -> 0 <= rem < 2 ^ 64 -> 0 <= k -> base * 2 ^ k < 2 ^ 64 -> 64 < k + Z.of_nat fuel ->
  ∃ j, k <= j /\ base * 2 ^ j < 2 ^ 64 /\ rem < 2 * (base * 2 ^ j)
    /\ double_loop fuel rem (base * 2 ^ k) (2 ^ k) = Some (base * 2 ^ j, 2 ^ j).
Proof.
  intros Hb Hr. revert k. induction fuel as [|fuel IH]; intros k Hk Hlt Hf.
  - assert (2 ^ 64 <= 2 ^ k) by (apply Z.pow_le_mono_r; lia). nia.
  - cbn [double_loop]. assert (0 < 2 ^ k) by (apply Z.pow_pos_nonneg; lia).
    rewrite s64_pos by nia. rewrite (proj2 (Z.ltb_lt 0 (base * 2 ^ k))) by nia. cbn [andb].
    destruct (Z.ltb_spec (base * 2 ^ k) (2 ^ 63)) as [H63|H63]; cbn [andb].
    + destruct (Z.ltb_spec (base * 2 ^ k) rem) as [Hlt'|Hge].
      * assert (E : 2 ^ (k + 1) = 2 ^ k + 2 ^ k) by (rewrite Z.pow_add_r by lia; lia).
        rewrite !u64_small by nia. rewrite <-E.
        replace (base * 2 ^ k + base * 2 ^ k) with (base * 2 ^ (k + 1)) by (rewrite E; lia).
        destruct (IH (k + 1)) as (j & ? & ? & ? & ?); [lia|rewrite E; nia|lia|].
        exists j. repeat split; try done. lia.
      * exists k. repeat split; try done; lia.
    + exists k. repeat split; try done; lia.
Qed.

Lemma shiftr_half x k : 0 <= k -> (x * 2 ^ (k + 1)) ≫ 1 = x * 2 ^ k.
Proof.
  intros Hk. rewrite Z.shiftr_div_pow2, Z.pow_add_r by lia.
  change (2 ^ 1) with 2. replace (x * (2 ^ k * 2)) with (x * 2 ^ k * 2) by lia. by rewrite Z.div_mul.
Qed.

Lemma subtract_loop_spec fuel base (k : nat) rem res :
  0 < base -> base * 2 ^ Z.of_nat k < 2 ^ 64 -> 0 <= rem < 2 * (base * 2 ^ Z.of_nat k) -> 0 <= res ->
  res * base + rem < 2 ^ 64 -> (k < fuel)%nat ->
  subtract_loop fuel rem (base * 2 ^ Z.of_nat k) (2 ^ Z.of_nat k) res
  = Some ((res * base + rem) mod base, (res * base + rem) / base).
Proof.
  intros Hb. revert k rem res. induction fuel as [|fuel IH]; intros k rem res Hbk Hrem Hres Hn Hf; [lia|].
  cbn [subtract_loop]. set (B := base * 2 ^ Z.of_nat k) in *. set (D := 2 ^ Z.of_nat k) in *.
  assert (0 < D) by (apply Z.pow_pos_nonneg; lia).
  assert (∃ rem' res', (if B <=? rem then (u64 (rem - B), u64 (res + D)) else (rem, res)) = (rem', res')
    /\ 0 <= rem' < B /\ 0 <= res' /\ res' * base + rem' = res * base + rem) as (rem' & res' & -> & Hr' & Hq' & Heq).
  { destruct (Z.leb_spec B rem).
    - exists (rem - B), (res + D). rewrite !u64_small; [|nia|split; [lia|]; nia]. repeat split; subst B; lia.
    - exists rem, res. repeat split; lia. }
  rewrite <-Heq in Hn |- *. destruct k as [|k].
  - change D with 1. cbn [Z.shiftr Z.shiftl Z.opp]. change (1 ≫ 1) with 0. cbn [Z.eqb].
    assert (B = base) by (subst B D; lia).
    f_equal. f_equal.
    + rewrite Z.add_comm, Z_mod_plus_full, Z.mod_small by lia. done.
    + rewrite Z.div_add_l, Z.div_small by lia. lia.
  - assert (HD : D ≫ 1 = 2 ^ Z.of_nat k).
    { subst D. replace (Z.of_nat (S k)) with (Z.of_nat k + 1) by lia.
      rewrite <-(Z.mul_1_l (2 ^ (Z.of_nat k + 1))), shiftr_half by lia. lia. }
    assert (HB : B ≫ 1 = base * 2 ^ Z.of_nat k).
    { subst B D. replace (Z.of_nat (S k)) with (Z.of_nat k + 1) by lia. apply shiftr_half. lia. }
    assert (EB : B = 2 * (base * 2 ^ Z.of_nat k)).
    { subst B D. rewrite Nat2Z.inj_succ, Z.pow_succ_r by lia. lia. }
    assert (0 < 2 ^ Z.of_nat k) by (apply Z.pow_pos_nonneg; lia).
    rewrite HD, HB. destruct (Z.eqb_spec (2 ^ Z.of_nat k) 0); [lia|].
    apply IH; try lia.
Qed.

Theorem div64_32_spec n base :
  0 <= n < 2 ^ 64 -> 0 < base < 2 ^ 32 -> __div64_32 n base = Some (n mod base, n / base).
Proof.
  intros Hn Hb. unfold __div64_32. rewrite Z.shiftr_div_pow2 by lia.
  set (high := n / 2 ^ 32).
  assert (Hh : 0 <= high < 2 ^ 32).
  { subst high. split; [apply Z.div_pos; lia|]. apply Z.div_lt_upper_bound; lia. }
  assert (Hlow : n = high * 2 ^ 32 + n mod 2 ^ 32) by (pose proof (Z_div_mod_eq_full n (2 ^ 32)); lia).
  pose proof (Z.mod_pos_bound n (2 ^ 32) ltac:(lia)) as Hm.
  assert (∃ rem res, (if base <=? high then
      (u64 (n - u64 (u32 (high / base * base) ≪ 32)), u64 ((high / base) ≪ 32)) else (n, 0)) = (rem, res)
    /\ 0 <= rem < 2 ^ 64 /\ 0 <= res /\ res * base + rem = n) as (rem & res & -> & Hrem & Hres & Heq).
  { destruct (Z.leb_spec base high); [|exists n, 0; repeat split; lia].
    pose proof (Z_div_mod_eq_full high base) as Hd. pose proof (Z.mod_pos_bound high base ltac:(lia)).
    assert (0 <= high / base) by (apply Z.div_pos; lia).
    set (q := high / base) in *. set (P := q * base).
    assert (0 <= q <= P /\ P <= high) as [Hq HP] by (subst P; nia).
    rewrite !Z.shiftl_mul_pow2 by lia. rewrite (u32_small P) by lia.
    exists (n - P * 2 ^ 32), (q * 2 ^ 32). rewrite (u64_small (P * 2 ^ 32)) by lia.
    rewrite !u64_small by lia. repeat split; subst P; lia. }
  destruct (double_loop_spec 65 rem base 0) as (j & Hj & Hj64 & Hr2 & E); try lia.
  change (2 ^ 0) with 1 in E. rewrite Z.mul_1_r in E. rewrite E. cbn [mbind option_bind].
  rewrite <-(Z2Nat.id j) in * by lia.
  assert (Z.to_nat j < 64)%nat.
  { destruct (Z_lt_dec j 64); [lia|]. assert (2 ^ 64 <= 2 ^ j) by (apply Z.pow_le_mono_r; lia).
    rewrite Z2Nat.id in Hj64 by lia. assert (1 * 2 ^ j <= base * 2 ^ j) by (apply Z.mul_le_mono_nonneg_r; lia). lia. }
  rewrite subtract_loop_spec by lia. cbn [mbind option_bind]. rewrite Heq.
  pose proof (Z.mod_pos_bound n base ltac:(lia)). rewrite u32_small by lia. done.
Qed.

Theorem do_div_spec n base :
  0 <= n < 2 ^ 64 -> 0 < base < 2 ^ 32 -> do_div n base = Some (n mod base, n / base).
Proof.
  intros Hn Hb. unfold do_div. destruct (Z.eqb_spec (n ≫ 32) 0) as [E|]; [|by apply div64_32_spec].
  rewrite Z.shiftr_div_pow2 in E by lia. apply Z.div_small_iff in E; [|lia]. by rewrite u32_small by lia.
Qed.
