(* ===== verification/Strtoul.v ===== *)
(** * Reading numbers ([lib/vsprintf.c], [lib/net_utils.c])

    A string is the list of its characters without the final NUL; a pointer
    into it is what is left of the list, so that [*endp] is part of the result.
    [unsigned long] and [unsigned long long] both have 64 bits on the target,
    [unsigned int] has 32. *)

From S2P Require Import Prelude Ctype.

(** [*cp]: the NUL at the end of the string. *)
Definition ch (cp : list Z) : Z := default 0 (head cp).

(** The prefix [0] or [0x] and the base that it gives: the rest and the base. *)
Definition radix (cp : list Z) (base : Z) : list Z * Z :=
  let '(cp, base) :=
    if ch cp =? 48 then
      let cp := tail cp in
      let '(cp, base) := if (ch cp =? 120) && isxdigit (ch (tail cp)) then (tail cp, 16) else (cp, base) in
      (cp, if base =? 0 then 8 else base)
    else (cp, base) in
  (cp, if base =? 0 then 10 else base).

(** The value of a character; letters are put in upper case first. *)
Definition digit_value (c : Z) : Z :=
  if isdigit c then c - 48 else (if islower c then toupper c else c) - 65 + 10.

Fixpoint digits_loop (cp : list Z) (base result : Z) : Z * list Z :=
  match cp with
  | [] => (result, [])
  | c :: cp' =>
      if isxdigit c && (digit_value c <? base)
      then digits_loop cp' base (u64 (result * base + digit_value c))
      else (result, cp)
  end.

(** The number and [*endp]. *)
Definition simple_strtoul (cp : list Z) (base : Z) : Z * list Z :=
  let '(cp, base) := radix cp base in digits_loop cp base 0.

Definition simple_strtoull (cp : list Z) (base : Z) : Z * list Z :=
  let '(cp, base) := radix cp base in digits_loop cp base 0.

Definition EINVAL : Z := 22.

(** The return value and [*res]. *)
Definition strict_strtoul (cp : list Z) (base : Z) : Z * Z :=
  let len := length cp in
  if (len =? 0)%nat then (- EINVAL, 0)
  else
    let '(val, tail) := simple_strtoul cp base in
    if (length tail =? length cp)%nat then (- EINVAL, 0)
    else if (ch tail =? 0) || ((len =? (len - length tail) + 1)%nat && (ch tail =? 10)) then (0, val)
    else (- EINVAL, 0).

Definition simple_strtol (cp : list Z) (base : Z) : Z * list Z :=
  if ch cp =? 45 then let '(v, e) := simple_strtoul (tail cp) base in (s64 (- v), e)
  else let '(v, e) := simple_strtoul cp base in (s64 v, e).

(** The units [K], [M] and [G], with an optional [i] or [iB]; the letter is
    only skipped when [i] follows it. *)
Definition with_unit (result : Z) (e : list Z) : Z * list Z :=
  let kilo (r : Z) :=
    (u64 (r * 1024),
     if ch (tail e) =? 105 then (if ch (tail (tail e)) =? 66 then drop 3 e else drop 2 e) else e) in
  if ch e =? 71 then kilo (u64 (u64 (result * 1024) * 1024))
  else if ch e =? 77 then kilo (u64 (result * 1024))
  else if (ch e =? 75) || (ch e =? 107) then kilo result
  else (result, e).

Definition ustrtoul (cp : list Z) (base : Z) : Z * list Z :=
  let '(result, e) := simple_strtoul cp base in with_unit result e.

Definition ustrtoull (cp : list Z) (base : Z) : Z * list Z :=
  let '(result, e) := simple_strtoull cp base in with_unit result e.

(** [for (p = end - 1; p > str; p--)]; [n] is [p - str], and a read past the
    terminator is out of bounds. *)
Fixpoint trailing_loop (n : nat) (str : list Z) : option Z :=
  match n with
  | O => Some (-1)
  | S m =>
      c ← (str ++ [0]) !! n;
      if isdigit c then trailing_loop m str
      else Some (s64 (fst (simple_strtoul (drop (S n) str) 10)))
  end.

(** [e] is [end - str], when [end] is not NULL. *)
Definition trailing_strtoln (str : list Z) (e : option nat) : option Z :=
  trailing_loop (default (length str) e - 1) str.

Definition trailing_strtol (str : list Z) : option Z := trailing_strtoln str None.

(** [htonl] on a little-endian processor. *)
Definition htonl (x : Z) : Z :=
  ((x .& 0xff) ≪ 24) .| ((x .& 0xff00) ≪ 8) .| ((x .& 0xff0000) ≫ 8) .| ((x .& 0xff000000) ≫ 24).

Fixpoint ip_loop (n : nat) (s : list Z) (addr : Z) : Z :=
  match n with
  | O => addr
  | S n =>
      let '(val, e) := simple_strtoul s 10 in
      ip_loop n (tail e) (u32 (addr ≪ 8) .| u32 (val .& 0xFF))
  end.

(** The character after a number is skipped, unless it is the NUL. *)
Definition string_to_ip (s : option (list Z)) : Z :=
  match s with None => 0 | Some s => htonl (ip_loop 4 s 0) end.

(** ** The value of a string of digits *)

(** The lower-case and upper-case digits. *)
Definition digit_char (a d : Z) : Z := if d <? 10 then 48 + d else a + (d - 10).

Definition of_digits (base : Z) (ds : list Z) : Z := foldl (λ r d, r * base + d) 0 ds.

Lemma of_digits_snoc base ds d : of_digits base (ds ++ [d]) = of_digits base ds * base + d.
Proof. unfold of_digits. by rewrite foldl_app. Qed.

(** Every digit below 16 is read back, in both cases. *)
Lemma digit_char_value a d :
  a = 65 \/ a = 97 -> 0 <= d < 16 ->
  isxdigit (digit_char a d) = true /\ digit_value (digit_char a d) = d.
Proof.
  intros Ha Hd.
  assert (forallb (λ d, isxdigit (digit_char 65 d) && (digit_value (digit_char 65 d) =? d)
    && isxdigit (digit_char 97 d) && (digit_value (digit_char 97 d) =? d)) (Z.of_nat <$> seq 0 16) = true)
    as Hf by (vm_compute; reflexivity).
  rewrite forallb_forall in Hf. specialize (Hf d).
  rewrite !andb_true_iff, !Z.eqb_eq in Hf.
  destruct Hf as [[[? ?] ?] ?]; [|by destruct Ha as [-> | ->]].
  apply list_elem_of_In, list_elem_of_fmap. exists (Z.to_nat d). rewrite Z2Nat.id by lia.
  split; [done|]. apply elem_of_seq. lia.
Qed.

Lemma u64_fold base r d : u64 (u64 r * base + d) = u64 (r * base + d).
Proof. unfold u64, wrap. by rewrite <-Zplus_mod_idemp_l, Zmult_mod_idemp_l, Zplus_mod_idemp_l. Qed.

(** What ends a number. *)
Definition ends_number (base : Z) (rest : list Z) : Prop :=
  match rest with [] => True | c :: _ => (isxdigit c && (digit_value c <? base)) = false end.

Lemma digits_loop_spec a base ds rest r :
  a = 65 \/ a = 97 -> 0 < base <= 16 -> Forall (λ d, 0 <= d < base) ds -> ends_number base rest ->
  digits_loop (map (digit_char a) ds ++ rest) base (u64 r)
  = (u64 (foldl (λ r d, r * base + d) r ds), rest).
Proof.
  intros Ha Hb Hds Hrest. revert r. induction Hds as [|d ds Hd Hds IH]; intros r; cbn [map app foldl].
  - destruct rest as [|c rest]; cbn [digits_loop]; [done|]. cbn in Hrest. by rewrite Hrest.
  - cbn [digits_loop]. destruct (digit_char_value a d) as [Hx Hv]; [done|lia|].
    rewrite Hx, Hv, (proj2 (Z.ltb_lt d base)) by lia. cbn [andb]. rewrite u64_fold. apply IH.
Qed.

Lemma of_digits_range base ds :
  0 < base -> Forall (λ d, 0 <= d < base) ds -> 0 <= of_digits base ds < base ^ Z.of_nat (length ds).
Proof.
  intros Hb Hds. induction ds as [|d ds IH] using rev_ind; [done|].
  apply Forall_app in Hds as [Hds Hd]. apply Forall_cons in Hd as [Hd _]. specialize (IH Hds).
  rewrite of_digits_snoc, length_app, Nat2Z.inj_add, Z.pow_add_r by (cbn; lia).
  change (Z.of_nat (length [d])) with 1. rewrite Z.pow_1_r.
  set (B := base ^ Z.of_nat (length ds)) in *. assert ((of_digits base ds + 1) * base <= B * base) by nia. nia.
Qed.

(** A digit of [digit_char] is never the [x] of a prefix. *)
Lemma digit_char_not_x a d : a = 65 \/ a = 97 -> 0 <= d < 16 -> digit_char a d <> 120.
Proof. intros [-> | ->] Hd; unfold digit_char; destruct (Z.ltb_spec d 10); lia. Qed.

Lemma digit_char_zero a d : a = 65 \/ a = 97 -> 0 <= d < 16 -> digit_char a d = 48 <-> d = 0.
Proof. intros Ha Hd. unfold digit_char. destruct (Z.ltb_spec d 10); destruct Ha as [-> | ->]; lia. Qed.

(** With an explicit base, digits without prefix are read as their value. *)
Lemma simple_strtoul_digits a base ds rest :
  a = 65 \/ a = 97 -> 0 < base <= 16 -> ds <> [] -> Forall (λ d, 0 <= d < base) ds ->
  ends_number base rest -> ch rest <> 120 ->
  simple_strtoul (map (digit_char a) ds ++ rest) base = (u64 (of_digits base ds), rest).
Proof.
  intros Ha Hb Hne Hds Hrest Hx. destruct ds as [|d ds]; [done|].
  apply Forall_cons in Hds as Hds'. destruct Hds' as [Hd Hds'].
  unfold simple_strtoul, radix. cbn [map app]. change (ch (digit_char a d :: _)) with (digit_char a d).
  assert (Hb0 : (base =? 0) = false) by (apply Z.eqb_neq; lia).
  destruct (Z.eqb_spec (digit_char a d) 48) as [E|E].
  - apply digit_char_zero in E as ->; [|done|lia]. cbn [tail].
    assert (Hnx : (ch (map (digit_char a) ds ++ rest) =? 120) = false).
    { apply Z.eqb_neq. destruct ds as [|d' ds]; [done|]. cbn. apply digit_char_not_x; [done|].
      apply Forall_cons in Hds' as [? _]. lia. }
    rewrite Hnx. cbn [andb]. rewrite !Hb0. change 0 with (u64 0) at 1.
    by rewrite digits_loop_spec.
  - rewrite Hb0. change 0 with (u64 0) at 1.
    change (digit_char a d :: map (digit_char a) ds ++ rest) with (map (digit_char a) (d :: ds) ++ rest).
    rewrite digits_loop_spec by done. done.
Qed.

(** After [0x] the base is 16 whatever the argument was. *)
Lemma simple_strtoul_hex a base ds rest :
  a = 65 \/ a = 97 -> ds <> [] -> Forall (λ d, 0 <= d < 16) ds -> ends_number 16 rest ->
  simple_strtoul (48 :: 120 :: map (digit_char a) ds ++ rest) base = (u64 (of_digits 16 ds), rest).
Proof.
  intros Ha Hne Hds Hrest. destruct ds as [|d ds]; [done|].
  unfold simple_strtoul, radix.
  change (ch (48 :: _)) with 48. cbn [Z.eqb Pos.eqb tail]. change (ch (120 :: _)) with 120. cbn [Z.eqb Pos.eqb andb].
  cbn [map app]. change (ch (digit_char a d :: _)) with (digit_char a d).
  apply Forall_cons in Hds as Hds'. destruct Hds' as [Hd _].
  destruct (digit_char_value a d) as [-> _]; [done..|]. cbn [andb Z.eqb].
  change 0 with (u64 0) at 1.
  change (digit_char a d :: map (digit_char a) ds ++ rest) with (map (digit_char a) (d :: ds) ++ rest).
  by rewrite digits_loop_spec.
Qed.

(** ** Words built from bytes *)

Lemma lor_low x y k : 0 <= k -> 0 <= y < 2 ^ k -> (x * 2 ^ k) .| y = x * 2 ^ k + y.
Proof.
  intros Hk Hy. rewrite <-Z.add_lor_land.
  replace ((x * 2 ^ k) .& y) with 0; [lia|]. symmetry. apply Z.bits_inj. intros i.
  rewrite Z.land_spec, Z.bits_0. destruct (Z_lt_dec i k).
  - by rewrite Z.mul_pow2_bits_low by lia.
  - rewrite <-(Z.mod_small y (2 ^ k)) by lia. by rewrite Z.mod_pow2_bits_high, andb_false_r by lia.
Qed.

Lemma land_shifted x m k : 0 <= k -> x .& (m ≪ k) = ((x ≫ k) .& m) ≪ k.
Proof.
  intros Hk. apply Z.bits_inj'. intros i Hi. rewrite Z.land_spec, !Z.shiftl_spec, Z.land_spec by lia.
  destruct (Z_lt_dec i k).
  - by rewrite !(Z.testbit_neg_r _ (i - k)), !andb_false_r by lia.
  - rewrite Z.shiftr_spec by lia. by replace (i - k + k) with i by lia.
Qed.

Lemma htonl_spec a b c d :
  0 <= a < 256 -> 0 <= b < 256 -> 0 <= c < 256 -> 0 <= d < 256 ->
  htonl (((a * 256 + b) * 256 + c) * 256 + d) = a + b * 256 + c * 65536 + d * 16777216.
Proof.
  intros Ha Hb Hc Hd. set (x := ((a * 256 + b) * 256 + c) * 256 + d). unfold htonl.
  change 0xff00 with (0xff ≪ 8). change 0xff0000 with (0xff ≪ 16). change 0xff000000 with (0xff ≪ 24).
  rewrite !land_shifted by lia. change 0xff with (Z.ones 8). rewrite !Z.land_ones, !Z.shiftr_div_pow2, !Z.shiftl_mul_pow2 by lia.
  assert (x mod 2 ^ 8 = d /\ (x / 2 ^ 8) mod 2 ^ 8 = c /\ (x / 2 ^ 16) mod 2 ^ 8 = b /\ (x / 2 ^ 24) mod 2 ^ 8 = a) as (-> & -> & -> & ->).
  { subst x. split_and!; Z.to_euclidean_division_equations; lia. }
  assert (b * 2 ^ 16 / 2 ^ 8 = b * 2 ^ 8) as -> by (Z.to_euclidean_division_equations; lia).
  assert (a * 2 ^ 24 / 2 ^ 24 = a) as -> by (Z.to_euclidean_division_equations; lia).
  replace (c * 2 ^ 8 * 2 ^ 8) with (c * 2 ^ 16) by lia.
  rewrite (lor_low d (c * 2 ^ 16) 24) by lia.
  replace (d * 2 ^ 24 + c * 2 ^ 16) with ((d * 2 ^ 8 + c) * 2 ^ 16) by lia. rewrite (lor_low _ (b * 2 ^ 8) 16) by lia.
  replace ((d * 2 ^ 8 + c) * 2 ^ 16 + b * 2 ^ 8) with (((d * 2 ^ 8 + c) * 2 ^ 8 + b) * 2 ^ 8) by lia.
  rewrite lor_low by lia. lia.
Qed.
