(* ===== verification/Vsprintf.v ===== *)
(** * Formatted output ([lib/vsprintf.c])

    [vsnprintf] and what it calls, with [CONFIG_SYS_VSNPRINTF] and
    [CONFIG_CMD_NET] set.  The functions that build a piece of the output
    ([number], [string], [pointer], ...) give the list of the characters that
    they hand to [ADDCH], in order; [vsnprintf_internal] puts them into the
    buffer.  [int] has 32 bits; [long], [long long], [size_t] and pointers
    have 64. *)

From S2P Require Import Prelude Ctype Div64 Strtoul.

(** ** Decimal digits, the least significant first *)

Definition put_dec_trunc (q : Z) : list Z :=
  let d1 := (q ≫ 4) .& 0xf in
  let d2 := (q ≫ 8) .& 0xf in
  let d3 := q ≫ 12 in
  let d0 := u32 (6 * (d3 + d2 + d1) + (q .& 0xf)) in
  let q := u32 (d0 * 0xcd) ≫ 11 in
  let d0 := u32 (d0 - 10 * q) in
  let d1 := u32 (q + 9 * d3 + 5 * d2 + d1) in
  (d0 + 48) ::
  if d1 =? 0 then []
  else
    let q := u32 (d1 * 0xcd) ≫ 11 in
    let d1 := u32 (d1 - 10 * q) in
    let d2 := u32 (q + 2 * d2) in
    (d1 + 48) ::
    if (d2 =? 0) && (d3 =? 0) then []
    else
      let q := u32 (d2 * 0xd) ≫ 7 in
      let d2 := u32 (d2 - 10 * q) in
      let d3 := u32 (q + 4 * d3) in
      (d2 + 48) ::
      if d3 =? 0 then []
      else
        let q := u32 (d3 * 0xcd) ≫ 11 in
        let d3 := u32 (d3 - 10 * q) in
        (d3 + 48) :: if q =? 0 then [] else [q + 48].

Definition put_dec_full (q : Z) : list Z :=
  let d1 := (q ≫ 4) .& 0xf in
  let d2 := (q ≫ 8) .& 0xf in
  let d3 := q ≫ 12 in
  let d0 := u32 (6 * (d3 + d2 + d1) + (q .& 0xf)) in
  let q := u32 (d0 * 0xcd) ≫ 11 in
  let d0 := u32 (d0 - 10 * q) in
  let d1 := u32 (q + 9 * d3 + 5 * d2 + d1) in
  let q := u32 (d1 * 0xcd) ≫ 11 in
  let d1 := u32 (d1 - 10 * q) in
  let d2 := u32 (q + 2 * d2) in
  let q := u32 (d2 * 0xd) ≫ 7 in
  let d2 := u32 (d2 - 10 * q) in
  let d3 := u32 (q + 4 * d3) in
  let q := u32 (d3 * 0xcd) ≫ 11 in
  let d3 := u32 (d3 - 10 * q) in
  [d0 + 48; d1 + 48; d2 + 48; d3 + 48; q + 48].

(** [while (1)]: a 64-bit number takes at most four turns. *)
Fixpoint put_dec (fuel : nat) (num : Z) : option (list Z) :=
  match fuel with
  | O => None
  | S fuel =>
      if num <? 100000 then Some (put_dec_trunc num)
      else
        '(rem, num) ← do_div num 100000;
        rest ← put_dec fuel num;
        Some (put_dec_full rem ++ rest)
  end.

(** ** Numbers *)

Definition ZEROPAD : Z := 1.
Definition SIGN : Z := 2.
Definition PLUS : Z := 4.
Definition SPACE : Z := 8.
Definition LEFT : Z := 16.
Definition SMALL : Z := 32.
Definition SPECIAL : Z := 64.

Definition has (type flag : Z) : bool := negb (type .& flag =? 0).

(** [digits[16] = "0123456789ABCDEF"] *)
Definition digits : list Z := [48; 49; 50; 51; 52; 53; 54; 55; 56; 57; 65; 66; 67; 68; 69; 70].

(** [do { ... } while (num)] for the bases 8 and 16; at most 22 turns. *)
Fixpoint put_pow2 (fuel : nat) (num mask shift locase : Z) : option (list Z) :=
  match fuel with
  | O => None
  | S fuel =>
      c ← aget digits (u8 num .& mask);
      let num := num ≫ shift in
      if num =? 0 then Some [c .| locase]
      else rest ← put_pow2 fuel num mask shift locase; Some ((c .| locase) :: rest)
  end.

(** [tmp], from index 0 up. *)
Definition number_digits (num base locase : Z) : option (list Z) :=
  if num =? 0 then Some [48]
  else if negb (base =? 10) then put_pow2 23 num (base - 1) (if base =? 16 then 4 else 3) locase
  else put_dec 5 num.

(** [while (--size >= 0) ADDCH(buf, c)]: the characters and the new [size]. *)
Definition pad (c size : Z) : list Z * Z := (replicate (Z.to_nat size) c, Z.min size 0 - 1).

(** The sign character, the absolute value and the size that is left. *)
Definition number_sign (num size type : Z) : Z * Z * Z :=
  if has type SIGN then
    if s64 num <? 0 then (45, u64 (- s64 num), size - 1)
    else if has type PLUS then (43, num, size - 1)
    else if has type SPACE then (32, num, size - 1)
    else (0, num, size)
  else (0, num, size).

Definition number (num base size precision type : Z) : option (list Z) :=
  let need_pfx := has type SPECIAL && negb (base =? 10) in
  let locase := type .& SMALL in
  let type := if has type LEFT then type .& Z.lnot ZEROPAD else type in
  let '(sign, num, size) := number_sign num size type in
  let size := if need_pfx then (if base =? 16 then size - 2 else size - 1) else size in
  tmp ← number_digits num base locase;
  let i := Z.of_nat (length tmp) in
  let precision := if precision <? i then i else precision in
  let size := size - precision in
  let '(spaces, size) :=
    if has type (ZEROPAD + LEFT) then ([], size) else pad 32 size in
  let signs := if sign =? 0 then [] else [sign] in
  let prefix := if need_pfx then 48 :: (if base =? 16 then [88 .| locase] else []) else [] in
  let '(fill, size) :=
    if has type LEFT then ([], size) else pad (if has type ZEROPAD then 48 else 32) size in
  let zeros := replicate (Z.to_nat (precision - i)) 48 in
  let '(trail, _) := pad 32 size in
  Some (spaces ++ signs ++ prefix ++ fill ++ zeros ++ reverse tmp ++ trail).

(** ** Strings and addresses *)

(** [while (len < field_width--) ADDCH(buf, ' ')] *)
Definition string_pad (len field_width : Z) : list Z * Z :=
  (replicate (Z.to_nat (field_width - len)) 32, Z.min field_width len - 1).

(** ["<NULL>"] *)
Definition null_text : list Z := [60; 78; 85; 76; 76; 62].

Definition string (s : option (list Z)) (field_width precision flags : Z) : list Z :=
  let s := default null_text s in
  let len := if precision <? 0 then length s else Nat.min (length s) (Z.to_nat precision) in
  let '(lead, field_width) :=
    if has flags LEFT then ([], field_width) else string_pad (Z.of_nat len) field_width in
  let '(trail, _) := string_pad (Z.of_nat len) field_width in
  lead ++ take len s ++ trail.

(** [hex_asc] *)
Definition hex_asc (x : Z) : Z := if x <? 10 then 48 + x else 97 + (x - 10).

Definition pack_hex_byte (byte : Z) : list Z := [hex_asc ((byte .& 0xf0) ≫ 4); hex_asc (byte .& 0x0f)].

Fixpoint mac_loop (i : nat) (addr : list Z) (flags : Z) : option (list Z) :=
  match i, addr with
  | O, _ => Some []
  | S i', b :: addr =>
      rest ← mac_loop i' addr flags;
      Some (pack_hex_byte b ++ (if negb (has flags SPECIAL) && negb (i =? 1)%nat then [58] else []) ++ rest)
  | S _, [] => None
  end.

Definition mac_address_string (addr : list Z) (field_width precision flags : Z) : option (list Z) :=
  mac_addr ← mac_loop 6 addr flags;
  Some (string (Some mac_addr) field_width precision (flags .& Z.lnot SPECIAL)).

Fixpoint ip6_loop (i : nat) (addr : list Z) (flags : Z) : option (list Z) :=
  match i, addr with
  | O, _ => Some []
  | S i', b0 :: b1 :: addr =>
      rest ← ip6_loop i' addr flags;
      Some (pack_hex_byte b0 ++ pack_hex_byte b1
            ++ (if negb (has flags SPECIAL) && negb (i =? 1)%nat then [58] else []) ++ rest)
  | S _, _ => None
  end.

Definition ip6_addr_string (addr : list Z) (field_width precision flags : Z) : option (list Z) :=
  ip6_addr ← ip6_loop 8 addr flags;
  Some (string (Some ip6_addr) field_width precision (flags .& Z.lnot SPECIAL)).

Fixpoint ip4_loop (i : nat) (addr : list Z) : option (list Z) :=
  match i, addr with
  | O, _ => Some []
  | S i', b :: addr =>
      rest ← ip4_loop i' addr;
      Some (reverse (put_dec_trunc b) ++ (if (i =? 1)%nat then [] else [46]) ++ rest)
  | S _, [] => None
  end.

Definition ip4_addr_string (addr : list Z) (field_width precision flags : Z) : option (list Z) :=
  ip4_addr ← ip4_loop 4 addr;
  Some (string (Some ip4_addr) field_width precision (flags .& Z.lnot SPECIAL)).

(** A little-endian 64-bit number in memory. *)
Definition load64 (bytes : list Z) : option Z :=
  if (8 <=? length bytes)%nat then Some (foldr (λ b v, b + 256 * v) 0 (take 8 bytes)) else None.

(** The end of [pointer]: the address in lower-case hexadecimal. *)
Definition pointer_number (num field_width precision flags : Z) : option (list Z) :=
  let flags := flags .| SMALL in
  let '(field_width, flags) := if field_width =? -1 then (16, flags .| ZEROPAD) else (field_width, flags) in
  number num 16 field_width precision flags.

(** [ptr] with the bytes that it points to. *)
Definition pointer (fmt : list Z) (ptr : Z * list Z) (field_width precision flags : Z) : option (list Z) :=
  let '(num, bytes) := ptr in
  let c := ch fmt in
  let c1 := ch (tail fmt) in
  if c =? 97 (* 'a' *) then
    num ← load64 bytes;
    pointer_number num 18 precision (flags .| SPECIAL .| ZEROPAD)
  else if (c =? 109) || (c =? 77) (* 'm', 'M' *) then
    mac_address_string bytes field_width precision (if c =? 109 then flags .| SPECIAL else flags)
  else if (c =? 105) || (c =? 73) (* 'i', 'I' *) then
    let flags := if c =? 105 then flags .| SPECIAL else flags in
    if c1 =? 54 then ip6_addr_string bytes field_width precision flags
    else if c1 =? 52 then ip4_addr_string bytes field_width precision flags
    else pointer_number num field_width precision (flags .& Z.lnot SPECIAL)
  else pointer_number num field_width precision flags.

(** ** The format *)

(** Variable arguments: an [int] or [unsigned int] as its 32-bit pattern, a
    [long], [long long], [size_t] or [ptrdiff_t] as its 64-bit pattern, a string
    that may be NULL, or a pointer with the bytes it points to.  An argument
    that is missing or of another type is undefined behaviour. *)
Inductive va : Type :=
  | VInt (z : Z)
  | VLong (z : Z)
  | VStr (s : option (list Z))
  | VPtr (p : Z) (bytes : list Z).

Definition va_int (args : list va) : option (Z * list va) :=
  match args with VInt z :: args => Some (z, args) | _ => None end.
Definition va_long (args : list va) : option (Z * list va) :=
  match args with VLong z :: args => Some (z, args) | _ => None end.
Definition va_str (args : list va) : option (option (list Z) * list va) :=
  match args with VStr s :: args => Some (s, args) | _ => None end.
Definition va_ptr (args : list va) : option (Z * list Z * list va) :=
  match args with VPtr p b :: args => Some (p, b, args) | _ => None end.

(** The loop at the label [repeat]. *)
Fixpoint get_flags (fmt : list Z) (flags : Z) : list Z * Z :=
  match fmt with
  | [] => ([], flags)
  | c :: fmt' =>
      if c =? 45 then get_flags fmt' (flags .| LEFT)
      else if c =? 43 then get_flags fmt' (flags .| PLUS)
      else if c =? 32 then get_flags fmt' (flags .| SPACE)
      else if c =? 35 then get_flags fmt' (flags .| SPECIAL)
      else if c =? 48 then get_flags fmt' (flags .| ZEROPAD)
      else (fmt, flags)
  end.

Definition is_digit (c : Z) : bool := (48 <=? c) && (c <=? 57).

Fixpoint skip_atoi (s : list Z) (i : Z) : list Z * Z :=
  match s with
  | [] => ([], i)
  | c :: s' => if is_digit c then skip_atoi s' (s32 (i * 10 + c - 48)) else (s, i)
  end.

(** The field width: the rest, the width, the flags and the arguments. *)
Definition get_width (fmt : list Z) (flags : Z) (args : list va) : option (list Z * Z * Z * list va) :=
  if is_digit (ch fmt) then
    let '(fmt, field_width) := skip_atoi fmt 0 in Some (fmt, field_width, flags, args)
  else if ch fmt =? 42 then
    '(z, args) ← va_int args;
    let field_width := s32 z in
    if field_width <? 0 then Some (tail fmt, s32 (- field_width), flags .| LEFT, args)
    else Some (tail fmt, field_width, flags, args)
  else Some (fmt, -1, flags, args).

Definition get_precision (fmt : list Z) (args : list va) : option (list Z * Z * list va) :=
  if ch fmt =? 46 then
    let fmt := tail fmt in
    '(fmt, precision, args) ←
      (if is_digit (ch fmt) then
         let '(fmt, precision) := skip_atoi fmt 0 in Some (fmt, precision, args)
       else if ch fmt =? 42 then
         '(z, args) ← va_int args; Some (tail fmt, s32 z, args)
       else Some (fmt, -1, args));
    Some (fmt, if precision <? 0 then 0 else precision, args)
  else Some (fmt, -1, args).

(** [h], [l], [L], [Z], [z] and [t]; [ll] is [L]. *)
Definition get_qualifier (fmt : list Z) : list Z * Z :=
  let c := ch fmt in
  if (c =? 104) || (c =? 108) || (c =? 76) || (c =? 90) || (c =? 122) || (c =? 116) then
    let fmt := tail fmt in
    if (c =? 108) && (ch fmt =? 108) then (tail fmt, 76) else (fmt, c)
  else (fmt, -1).

(** The integer argument as a [u64]. *)
Definition get_num (qualifier flags : Z) (args : list va) : option (Z * list va) :=
  if qualifier =? 76 then va_long args
  else if qualifier =? 108 then
    '(num, args) ← va_long args; Some (if has flags SIGN then u64 (s64 num) else num, args)
  else if (qualifier =? 90) || (qualifier =? 122) then va_long args
  else if qualifier =? 116 then va_long args
  else if qualifier =? 104 then
    '(z, args) ← va_int args;
    let num := u16 z in
    Some (if has flags SIGN then u64 (swrap 16 num) else num, args)
  else
    '(num, args) ← va_int args; Some (if has flags SIGN then u64 (s32 num) else num, args).

Definition integer (base flags field_width precision qualifier : Z) (args : list va)
    : option (list Z * list va) :=
  '(num, args) ← get_num qualifier flags args;
  cs ← number num base field_width precision flags;
  Some (cs, args).

(** [while (isalnum(fmt[1])) fmt++] *)
Fixpoint skip_alnum (fmt : list Z) : list Z :=
  match fmt with
  | [] => []
  | c :: fmt' => if isalnum c then skip_alnum fmt' else fmt
  end.

(** The [switch] on the conversion; [pos] is [str - buf].  The characters for
    [ADDCH], what [%n] stores, the rest of the format and of the arguments. *)
Definition conversion (fmt : list Z) (flags field_width precision qualifier pos : Z) (args : list va)
    : option (list Z * list Z * list Z * list va) :=
  let c := ch fmt in
  let rest := tail fmt in
  if c =? 99 (* 'c' *) then
    '(z, args) ← va_int args;
    let fill := replicate (Z.to_nat (field_width - 1)) 32 in
    Some (if has flags LEFT then u8 z :: fill else fill ++ [u8 z], [], rest, args)
  else if c =? 115 (* 's' *) then
    '(s, args) ← va_str args;
    Some (string s field_width precision flags, [], rest, args)
  else if c =? 112 (* 'p' *) then
    '(p, b, args) ← va_ptr args;
    cs ← pointer rest (p, b) field_width precision flags;
    Some (cs, [], skip_alnum rest, args)
  else if c =? 110 (* 'n' *) then
    '(_, _, args) ← va_ptr args;
    Some ([], [if qualifier =? 108 then s64 pos else s32 pos], rest, args)
  else if c =? 37 (* '%' *) then Some ([37], [], rest, args)
  else
    let int base flags :=
      '(cs, args) ← integer base flags field_width precision qualifier args;
      Some (cs, [], rest, args) in
    if c =? 111 (* 'o' *) then int 8 flags
    else if c =? 120 (* 'x' *) then int 16 (flags .| SMALL)
    else if c =? 88 (* 'X' *) then int 16 flags
    else if (c =? 100) || (c =? 105) (* 'd', 'i' *) then int 10 (flags .| SIGN)
    else if c =? 117 (* 'u' *) then int 10 flags
    else Some (if c =? 0 then [37] else [37; c], [], rest, args).

(** One directive after its ['%']. *)
Definition directive (fmt : list Z) (pos : Z) (args : list va)
    : option (list Z * list Z * list Z * list va) :=
  let '(fmt, flags) := get_flags fmt 0 in
  '(fmt, field_width, flags, args) ← get_width fmt flags args;
  '(fmt, precision, args) ← get_precision fmt args;
  let '(fmt, qualifier) := get_qualifier fmt in
  conversion fmt flags field_width precision qualifier pos args.

(** ** The buffer

    [str] and [end] as offsets in the buffer; [nstores] is what [%n] stored. *)
Record out := Out { obuf : list Z; str : Z; oend : Z; nstores : list Z }.

Definition ADDCH (o : out) (c : Z) : option out :=
  buf ← (if str o <? oend o then aset (obuf o) (str o) c else Some (obuf o));
  Some (Out buf (str o + 1) (oend o) (nstores o)).

Fixpoint addchs (o : out) (cs : list Z) : option out :=
  match cs with [] => Some o | c :: cs => o ← ADDCH o c; addchs o cs end.

(** [for (; *fmt ; ++fmt)]: every turn uses at least one character. *)
Fixpoint format_loop (fuel : nat) (fmt : list Z) (args : list va) (o : out) : option out :=
  match fuel, fmt with
  | _, [] => Some o
  | O, _ => None
  | S fuel, c :: fmt =>
      if negb (c =? 37) then o ← ADDCH o c; format_loop fuel fmt args o
      else
        '(cs, ns, fmt, args) ← directive fmt (str o) args;
        o ← addchs o cs;
        format_loop fuel fmt args (Out (obuf o) (str o) (oend o) (nstores o ++ ns))
  end.

(** The result, the buffer and the values stored by [%n]; [addr] is the address
    of the buffer. *)
Definition vsnprintf_internal (addr : Z) (buf : list Z) (size : Z) (fmt : list Z) (args : list va)
    : option (Z * list Z * list Z) :=
  let size := if u64 (addr + size) <? addr then 18446744073709551615 - addr else size in
  o ← format_loop (length fmt) fmt args (Out buf 0 size []);
  if 0 <? size then
    o ← ADDCH o 0;
    buf ← (if size <? str o then aset (obuf o) (size - 1) 0 else Some (obuf o));
    Some (s32 (str o - 1), buf, nstores o)
  else Some (s32 (str o), obuf o, nstores o).

Definition vsnprintf := vsnprintf_internal.
Definition snprintf := vsnprintf.

Definition vscnprintf (addr : Z) (buf : list Z) (size : Z) (fmt : list Z) (args : list va)
    : option (Z * list Z * list Z) :=
  '(i, buf, ns) ← vsnprintf addr buf size fmt args;
  let r := if u64 i <? size then i else if size =? 0 then 0 else s32 (size - 1) in
  Some (r, buf, ns).

Definition scnprintf := vscnprintf.

Definition INT_MAX : Z := 2147483647.

Definition vsprintf (addr : Z) (buf : list Z) (fmt : list Z) (args : list va) : option (Z * list Z * list Z) :=
  vsnprintf_internal addr buf INT_MAX fmt args.
Definition sprintf := vsprintf.

(** ** [simple_itoa]: the digits from the last one, at most 20 of them *)

Fixpoint itoa_loop (fuel : nat) (i : Z) : list Z :=
  match fuel with
  | O => []
  | S fuel => (48 + i mod 10) :: if i / 10 =? 0 then [] else itoa_loop fuel (i / 10)
  end.

Definition simple_itoa (i : Z) : list Z := reverse (itoa_loop 21 i).

(** ** The decimal conversion *)

Lemma shiftr_div x k : 0 <= k -> x ≫ k = x / 2 ^ k.
Proof. apply Z.shiftr_div_pow2. Qed.

Lemma land15 x : x .& 0xf = x mod 16.
Proof. change 0xf with (Z.ones 4). by rewrite Z.land_ones by lia. Qed.

(** The two multiplications that stand for a division by ten. *)
Lemma div10_cd x : 0 <= x < 1024 -> u32 (x * 0xcd) ≫ 11 = x / 10.
Proof.
  intros Hx. rewrite u32_small by lia. rewrite shiftr_div by lia. change (2 ^ 11) with 2048. Z.to_euclidean_division_equations. lia.
Qed.

Lemma div10_d x : 0 <= x < 69 -> u32 (x * 0xd) ≫ 7 = x / 10.
Proof.
  intros Hx. rewrite u32_small by lia. rewrite shiftr_div by lia. change (2 ^ 7) with 128. Z.to_euclidean_division_equations. lia.
Qed.

Lemma mod10_sub x : 0 <= x < 2 ^ 32 -> u32 (x - 10 * (x / 10)) = x mod 10.
Proof.
  intros Hx. rewrite u32_small; [rewrite (Z.mod_eq x 10); lia|].
  pose proof (Z.mod_pos_bound x 10). pose proof (Z.mod_eq x 10). lia.
Qed.

(** The digits that both routines compute, from the hexadecimal ones. *)
Lemma dec_steps q :
  0 <= q < 100000 ->
  let d1 := (q ≫ 4) .& 0xf in
  let d2 := (q ≫ 8) .& 0xf in
  let d3 := q ≫ 12 in
  let e0 := 6 * (d3 + d2 + d1) + (q .& 0xf) in
  let e1 := e0 / 10 + 9 * d3 + 5 * d2 + d1 in
  let e2 := e1 / 10 + 2 * d2 in
  let e3 := e2 / 10 + 4 * d3 in
  0 <= e0 < 1024 /\ 0 <= e1 < 1024 /\ 0 <= e2 < 69 /\ 0 <= e3 < 1024 /\ 0 <= d3
  /\ e0 mod 10 = q mod 10 /\ (e1 = 0 <-> q / 10 = 0)
  /\ e1 mod 10 = (q / 10) mod 10 /\ (e2 = 0 /\ d3 = 0 <-> q / 100 = 0)
  /\ e2 mod 10 = (q / 100) mod 10 /\ e3 = q / 1000.
Proof.
  intros Hq. cbn zeta. rewrite !land15, !shiftr_div by lia.
  change (2 ^ 4) with 16. change (2 ^ 8) with 256. change (2 ^ 12) with 4096.
  set (a := q mod 16). set (b := q / 16 mod 16). set (c := q / 256 mod 16). set (d := q / 4096).
  assert (q = 4096 * d + 256 * c + 16 * b + a /\ 0 <= a < 16 /\ 0 <= b < 16 /\ 0 <= c < 16 /\ 0 <= d < 25) as (E & ? & ? & ? & ?).
  { subst a b c d. Z.to_euclidean_division_equations. lia. }
  rewrite E. clearbody a b c d.
  repeat split; Z.to_euclidean_division_equations; lia.
Qed.

Definition digit (i k : Z) : Z := 48 + (i / 10 ^ k) mod 10.

Lemma put_dec_full_spec q :
  0 <= q < 100000 -> put_dec_full q = [digit q 0; digit q 1; digit q 2; digit q 3; digit q 4].
Proof.
  intros Hq. destruct (dec_steps q Hq) as (H0 & H1 & H2 & H3 & Hd3 & E0 & _ & E1 & _ & E2 & E3).
  unfold put_dec_full. cbn zeta.
  set (d1 := (q ≫ 4) .& 0xf) in *. set (d2 := (q ≫ 8) .& 0xf) in *. set (d3 := q ≫ 12) in *.
  rewrite !(u32_small (6 * _ + _)) by lia. rewrite !div10_cd, !mod10_sub by lia.
  rewrite !(u32_small (_ + 9 * d3 + 5 * d2 + d1)) by lia. rewrite !div10_cd, !mod10_sub by lia.
  rewrite !(u32_small (_ + 2 * d2)) by lia. rewrite !div10_d, !mod10_sub by lia.
  rewrite !(u32_small (_ + 4 * d3)) by lia. rewrite !div10_cd, !mod10_sub by lia.
  rewrite E0, E1, E2, E3. unfold digit.
  change (10 ^ 0) with 1. change (10 ^ 1) with 10. change (10 ^ 2) with 100. change (10 ^ 3) with 1000.
  change (10 ^ 4) with 10000. rewrite Z.div_1_r, Z.div_div by lia. change (1000 * 10) with 10000.
  assert (q / 10000 mod 10 = q / 10000) as -> by (Z.to_euclidean_division_equations; lia).
  repeat (f_equal; [lia|]). f_equal. lia.
Qed.

Lemma itoa_step fuel i :
  itoa_loop (S fuel) i = (48 + i mod 10) :: if i / 10 =? 0 then [] else itoa_loop fuel (i / 10).
Proof. done. Qed.

Lemma put_dec_trunc_spec fuel q :
  0 <= q < 100000 -> put_dec_trunc q = itoa_loop (5 + fuel) q.
Proof.
  intros Hq. destruct (dec_steps q Hq) as (H0 & H1 & H2 & H3 & Hd3 & E0 & C1 & E1 & C2 & E2 & E3).
  unfold put_dec_trunc. cbn zeta.
  set (d1 := (q ≫ 4) .& 0xf) in *. set (d2 := (q ≫ 8) .& 0xf) in *. set (d3 := q ≫ 12) in *.
  rewrite !(u32_small (6 * _ + _)) by lia. rewrite !div10_cd, !mod10_sub by lia.
  rewrite !(u32_small (_ + 9 * d3 + 5 * d2 + d1)) by lia. rewrite !div10_cd, !mod10_sub by lia.
  rewrite !(u32_small (_ + 2 * d2)) by lia. rewrite !div10_d, !mod10_sub by lia.
  rewrite !(u32_small (_ + 4 * d3)) by lia. rewrite !div10_cd, !mod10_sub by lia.
  rewrite E0, E1, E2, E3. cbn [Nat.add]. rewrite itoa_step. f_equal; [lia|].
  match goal with |- (if ?x =? 0 then _ else _) = _ => destruct (Z.eqb_spec x 0) as [Z1|Z1] end.
  { apply C1 in Z1. by rewrite Z1. }
  destruct (Z.eqb_spec (q / 10) 0) as [Z1'|_]; [by apply C1 in Z1'|].
  rewrite itoa_step, !Z.div_div by lia. f_equal; [lia|]. change (10 * 10) with 100.
  match goal with |- (if ?b then _ else _) = _ => destruct b eqn:Z2 end.
  { apply andb_true_iff in Z2 as [Z2 Z3]. apply Z.eqb_eq in Z2, Z3. by rewrite (proj1 C2 (conj Z2 Z3)). }
  destruct (Z.eqb_spec (q / 100) 0) as [Z2'|_].
  { apply C2 in Z2' as [Z2' Z3']. apply Z.eqb_eq in Z2', Z3'. by rewrite Z2', Z3' in Z2. }
  rewrite itoa_step, !Z.div_div by lia. f_equal; [lia|]. change (100 * 10) with 1000.
  destruct (Z.eqb_spec (q / 1000) 0) as [Z3|Z3]; [done|].
  rewrite itoa_step, !Z.div_div by lia. f_equal; [lia|]. change (1000 * 10) with 10000.
  destruct (Z.eqb_spec (q / 10000) 0) as [Z4|Z4]; [done|].
  rewrite itoa_step, !Z.div_div by lia. change (10000 * 10) with 100000.
  rewrite (Z.div_small q 100000) by lia. cbn [Z.eqb]. f_equal.
  Z.to_euclidean_division_equations. lia.
Qed.

Lemma fuel_pos b x f : x < b ^ Z.of_nat f -> 0 < x -> (0 < f)%nat.
Proof. destruct f; [|lia]. rewrite Z.pow_0_r. lia. Qed.

Lemma itoa_fuel f1 f2 i :
  0 <= i < 10 ^ Z.of_nat f1 -> i < 10 ^ Z.of_nat f2 -> (0 < f1)%nat -> (0 < f2)%nat ->
  itoa_loop f1 i = itoa_loop f2 i.
Proof.
  revert f2 i. induction f1 as [|f1 IH]; intros [|f2] i H1 H2 P1 P2; [lia..|].
  rewrite !itoa_step. f_equal. destruct (Z.eqb_spec (i / 10) 0) as [|Hne]; [done|].
  rewrite Nat2Z.inj_succ, Z.pow_succ_r in H1, H2 by lia.
  assert (0 < i / 10) by (pose proof (Z.div_pos i 10); lia).
  assert (i / 10 < 10 ^ Z.of_nat f1) by (apply Z.div_lt_upper_bound; lia).
  assert (i / 10 < 10 ^ Z.of_nat f2) by (apply Z.div_lt_upper_bound; lia).
  apply IH; eauto using fuel_pos; lia.
Qed.

Lemma itoa_split fuel i :
  100000 <= i ->
  itoa_loop (5 + fuel) i
  = [digit i 0; digit i 1; digit i 2; digit i 3; digit i 4] ++ itoa_loop fuel (i / 100000).
Proof.
  intros Hi. cbn [Nat.add]. unfold digit.
  change (10 ^ 0) with 1. change (10 ^ 1) with 10. change (10 ^ 2) with 100. change (10 ^ 3) with 1000.
  change (10 ^ 4) with 10000. rewrite Z.div_1_r.
  assert (∀ k, 0 < k <= 100000 -> (i / k =? 0) = false) as Hne.
  { intros k Hk. apply Z.eqb_neq. intros E. apply Z.div_small_iff in E; lia. }
  rewrite itoa_step, (Hne 10) by lia. rewrite itoa_step, !Z.div_div, (Hne (10 * 10)) by lia.
  rewrite itoa_step, !Z.div_div, (Hne (10 * 10 * 10)) by lia.
  rewrite itoa_step, !Z.div_div, (Hne (10 * 10 * 10 * 10)) by lia.
  rewrite itoa_step, !Z.div_div, (Hne (10 * 10 * 10 * 10 * 10)) by lia. done.
Qed.

Lemma digit_mod i k : 0 <= k < 5 -> digit (i mod 100000) k = digit i k.
Proof.
  intros Hk. unfold digit. f_equal.
  assert (k = 0 \/ k = 1 \/ k = 2 \/ k = 3 \/ k = 4) as Hc by lia.
  destruct Hc as [-> | [-> | [-> | [-> | ->]]]]; [change (10 ^ 0) with 1|change (10 ^ 1) with 10|change (10 ^ 2) with 100|change (10 ^ 3) with 1000|change (10 ^ 4) with 10000];
    Z.to_euclidean_division_equations; lia.
Qed.

(** [put_dec] emits the digits of [simple_itoa]. *)
Lemma put_dec_spec fuel num :
  (0 < fuel)%nat -> 0 <= num < 2 ^ 64 -> num < 100000 ^ Z.of_nat fuel ->
  put_dec fuel num = Some (itoa_loop (5 * fuel) num).
Proof.
  revert num. induction fuel as [|fuel IH]; intros num Hf H64 Hn; [lia|].
  cbn [put_dec]. destruct (Z.ltb_spec num 100000) as [Hs|Hs].
  - f_equal. replace (5 * S fuel)%nat with (5 + 5 * fuel)%nat by lia. apply put_dec_trunc_spec. lia.
  - rewrite do_div_spec by lia. cbn [mbind option_bind].
    rewrite Nat2Z.inj_succ, Z.pow_succ_r in Hn by lia.
    assert (num / 100000 < 100000 ^ Z.of_nat fuel) by (apply Z.div_lt_upper_bound; lia).
    assert (0 < num / 100000) by (pose proof (Z.div_le_mono 100000 num 100000); change (100000 / 100000) with 1 in *; lia).
    rewrite IH; [|by eapply fuel_pos
                 |split; [lia|apply Z.div_lt_upper_bound; lia]|done].
    cbn [mbind option_bind]. f_equal. replace (5 * S fuel)%nat with (5 + 5 * fuel)%nat by lia.
    rewrite itoa_split by done. rewrite put_dec_full_spec by (apply Z.mod_pos_bound; lia).
    rewrite !digit_mod by lia. done.
Qed.

(** The digits read from the first to the last. *)
Definition numeral (a base n : Z) (s : list Z) : Prop :=
  ∃ ds, s = map (digit_char a) ds /\ ds <> [] /\ Forall (λ d, 0 <= d < base) ds /\ of_digits base ds = n.

Lemma numeral_snoc a base n d s :
  0 <= d < base -> numeral a base n s -> numeral a base (n * base + d) (s ++ [digit_char a d]).
Proof.
  intros Hd (ds & -> & Hne & Hds & <-). exists (ds ++ [d]). rewrite map_app, of_digits_snoc.
  split_and!; [done|by destruct ds| |done]. apply Forall_app. by split; [|constructor].
Qed.

Lemma numeral_one a base d : 0 <= d < base -> numeral a base d [digit_char a d].
Proof. intros Hd. exists [d]. split_and!; [done..|by constructor|]. unfold of_digits. cbn. lia. Qed.

Lemma itoa_numeral a fuel i :
  (0 < fuel)%nat -> 0 <= i < 10 ^ Z.of_nat fuel -> numeral a 10 i (reverse (itoa_loop fuel i)).
Proof.
  revert i. induction fuel as [|fuel IH]; intros i Hf Hi; [lia|].
  rewrite itoa_step, reverse_cons. pose proof (Z.mod_pos_bound i 10 ltac:(lia)) as Hm.
  assert (48 + i mod 10 = digit_char a (i mod 10)) as ->.
  { unfold digit_char. by rewrite (proj2 (Z.ltb_lt _ 10)) by lia. }
  rewrite Nat2Z.inj_succ, Z.pow_succ_r in Hi by lia.
  destruct (Z.eqb_spec (i / 10) 0) as [E|E].
  - cbn [reverse rev_append app]. rewrite (Z.div_mod i 10) at 1 by lia. rewrite E.
    replace (10 * 0 + i mod 10) with (i mod 10) by lia. by apply numeral_one.
  - rewrite (Z.div_mod i 10) at 1 by lia. rewrite (Z.mul_comm 10).
    apply numeral_snoc; [done|]. pose proof (Z.div_pos i 10).
    assert (i / 10 < 10 ^ Z.of_nat fuel) by (apply Z.div_lt_upper_bound; lia).
    apply IH; [|lia]. eapply fuel_pos; [done|lia].
Qed.

Lemma digits_case d locase :
  locase = 0 \/ locase = 32 -> 0 <= d < 16 ->
  ∃ c, aget digits d = Some c /\ c .| locase = digit_char (65 + locase) d.
Proof.
  intros Hl Hd.
  assert (forallb (λ d, match aget digits d with
    | Some c => (c .| 0 =? digit_char 65 d) && (c .| 32 =? digit_char 97 d) | None => false end)
    (Z.of_nat <$> seq 0 16) = true) as Hf by (vm_compute; reflexivity).
  rewrite forallb_forall in Hf. specialize (Hf d).
  destruct (aget digits d) as [c|]; cbn beta iota in Hf.
  - rewrite andb_true_iff, !Z.eqb_eq in Hf. exists c. split; [done|].
    destruct Hf as [? ?]; [|by destruct Hl as [-> | ->]].
    apply list_elem_of_In, list_elem_of_fmap. exists (Z.to_nat d). rewrite Z2Nat.id by lia.
    split; [done|]. apply elem_of_seq. lia.
  - exfalso. assert (false = true); [|done]. apply Hf.
    apply list_elem_of_In, list_elem_of_fmap. exists (Z.to_nat d). rewrite Z2Nat.id by lia.
    split; [done|]. apply elem_of_seq. lia.
Qed.

Lemma put_pow2_spec fuel num k locase :
  (0 < fuel)%nat -> k = 3 \/ k = 4 -> locase = 0 \/ locase = 32 ->
  0 <= num < (2 ^ k) ^ Z.of_nat fuel ->
  ∃ tmp, put_pow2 fuel num (2 ^ k - 1) k locase = Some tmp
    /\ numeral (65 + locase) (2 ^ k) num (reverse tmp).
Proof.
  intros Hf Hk Hl. assert (2 ^ k = 8 \/ 2 ^ k = 16) as Hp by (destruct Hk as [-> | ->]; auto).
  revert num Hf. induction fuel as [|fuel IH]; intros num Hf Hn; [lia|].
  cbn [put_pow2]. pose proof (Z.mod_pos_bound num (2 ^ k) ltac:(lia)) as Hm.
  assert (u8 num .& (2 ^ k - 1) = num mod 2 ^ k) as ->.
  { replace (2 ^ k - 1) with (Z.ones k) by (rewrite Z.ones_equiv; lia).
    rewrite Z.land_ones by lia. unfold u8, wrap.
    replace (2 ^ 8) with (2 ^ k * 2 ^ (8 - k)) by (rewrite <-Z.pow_add_r by lia; f_equal; lia).
    rewrite Z.rem_mul_r by (destruct Hk as [-> | ->]; lia).
    rewrite (Z.mul_comm (2 ^ k)), Z_mod_plus_full. apply Z.mod_mod. lia. }
  destruct (digits_case (num mod 2 ^ k) locase) as (c & -> & Hc); [done|lia|]. cbn [mbind option_bind].
  rewrite Hc, shiftr_div by lia. rewrite Nat2Z.inj_succ, Z.pow_succ_r in Hn by lia.
  assert (num = num / 2 ^ k * 2 ^ k + num mod 2 ^ k) as E by (pose proof (Z.div_mod num (2 ^ k)); lia).
  destruct (Z.eqb_spec (num / 2 ^ k) 0) as [E0|E0].
  - eexists. split; [done|]. rewrite E, E0 at 1. cbn [Z.mul Z.add]. apply numeral_one. lia.
  - assert (0 <= num / 2 ^ k) by (apply Z.div_pos; lia).
    assert (num / 2 ^ k < (2 ^ k) ^ Z.of_nat fuel) by (apply Z.div_lt_upper_bound; lia).
    destruct (IH (num / 2 ^ k)) as (tmp & -> & Hnum); [|lia|].
    { eapply fuel_pos; [done|lia]. }
    cbn [mbind option_bind]. eexists. split; [done|]. rewrite reverse_cons, E at 1. by apply numeral_snoc.
Qed.

(** ** What reaches the buffer *)

Definition ok (o : out) : Prop := 0 <= str o /\ 0 <= oend o <= Z.of_nat (length (obuf o)).

Definition emit1 (o : out) (c : Z) : out :=
  Out (if str o <? oend o then <[Z.to_nat (str o) := c]> (obuf o) else obuf o) (str o + 1) (oend o) (nstores o).

Definition emit (o : out) (cs : list Z) : out := foldl emit1 o cs.

Definition stored (o : out) (ns : list Z) : out := Out (obuf o) (str o) (oend o) (nstores o ++ ns).

Lemma ADDCH_emit o c : ok o -> ADDCH o c = Some (emit1 o c) /\ ok (emit1 o c).
Proof.
  intros [Hs He]. unfold ADDCH, emit1, ok. cbn [str oend obuf].
  destruct (Z.ltb_spec (str o) (oend o)).
  - rewrite aset_Some by lia. cbn [mbind option_bind]. rewrite length_insert. split; [done|lia].
  - split; [done|lia].
Qed.

Lemma addchs_emit cs o : ok o -> addchs o cs = Some (emit o cs) /\ ok (emit o cs).
Proof.
  revert o. induction cs as [|c cs IH]; intros o Ho; [done|]. cbn [addchs].
  destruct (ADDCH_emit o c Ho) as [-> Hc]. cbn [mbind option_bind]. by apply IH.
Qed.

Lemma emit_fields cs o :
  str (emit o cs) = str o + Z.of_nat (length cs) /\ oend (emit o cs) = oend o
  /\ nstores (emit o cs) = nstores o.
Proof.
  revert o. induction cs as [|c cs IH]; intros o; [cbn; split_and!; [lia|done..]|].
  change (emit o (c :: cs)) with (emit (emit1 o c) cs).
  destruct (IH (emit1 o c)) as (-> & -> & ->). cbn [emit1 str oend nstores length]. split_and!; [lia|done..].
Qed.

Lemma emit_app o cs1 cs2 : emit o (cs1 ++ cs2) = emit (emit o cs1) cs2.
Proof. apply foldl_app. Qed.

Lemma emit_stored cs o ns : emit (stored o ns) cs = stored (emit o cs) ns.
Proof. revert o. induction cs as [|c cs IH]; intros o; [done|]. cbn. by rewrite <-IH. Qed.

(** The characters land in front of [end]; the rest of the buffer is kept. *)
Lemma emit_buf cs buf (p e : nat) ns :
  (e <= length buf)%nat ->
  obuf (emit (Out buf (Z.of_nat p) (Z.of_nat e) ns) cs)
  = take p buf ++ take (e - p) cs ++ drop (p + Nat.min (e - p) (length cs)) buf.
Proof.
  intros He. revert buf p He. induction cs as [|c cs IH]; intros buf p He; cbn [emit foldl].
  - cbn [obuf length]. rewrite take_nil, Nat.min_0_r, Nat.add_0_r. cbn. by rewrite take_drop.
  - unfold emit1. cbn [str oend obuf nstores]. rewrite Nat2Z.id.
    replace (Z.of_nat p + 1) with (Z.of_nat (S p)) by lia.
    destruct (Z.ltb_spec (Z.of_nat p) (Z.of_nat e)) as [Hlt|Hge].
    + fold (emit (Out (<[p:=c]> buf) (Z.of_nat (S p)) (Z.of_nat e) ns) cs).
      rewrite IH by (by rewrite length_insert). replace (e - p)%nat with (S (e - S p)) by lia.
      cbn [take length]. rewrite (take_S_r _ p c) by (apply list_lookup_insert_eq; lia).
      rewrite take_insert_ge, drop_insert_lt by lia. rewrite <-app_assoc. cbn [app]. do 4 f_equal. lia.
    + fold (emit (Out buf (Z.of_nat (S p)) (Z.of_nat e) ns) cs). rewrite IH by done.
      replace (e - S p)%nat with 0%nat by lia. replace (e - p)%nat with 0%nat by lia.
      rewrite !take_0, !Nat.min_0_l, !Nat.add_0_r. cbn [app]. by rewrite !take_drop.
Qed.

(** A format whose arguments are missing or of the wrong type at some directive. *)
Inductive bad_args : list Z -> Z -> list va -> Prop :=
  | bad_here fmt pos args : directive fmt pos args = None -> bad_args (37 :: fmt) pos args
  | bad_char c fmt pos args : c <> 37 -> bad_args fmt (pos + 1) args -> bad_args (c :: fmt) pos args
  | bad_later fmt pos args cs ns fmt' args' :
      directive fmt pos args = Some (cs, ns, fmt', args') ->
      bad_args fmt' (pos + Z.of_nat (length cs)) args' -> bad_args (37 :: fmt) pos args.

(** ** Every directive shortens the format *)

Lemma get_flags_length fmt flags : (length (fst (get_flags fmt flags)) <= length fmt)%nat.
Proof.
  revert flags. induction fmt as [|c fmt IH]; intros flags; cbn [get_flags]; [done|].
  repeat case_test; cbn [fst length]; try (etrans; [apply IH|]); lia.
Qed.

Lemma skip_atoi_length s i : (length (fst (skip_atoi s i)) <= length s)%nat.
Proof.
  revert i. induction s as [|c s IH]; intros i; cbn [skip_atoi]; [done|].
  case_test; cbn [fst length]; [etrans; [apply IH|]|]; lia.
Qed.

Lemma tail_length {A} (l : list A) : (length (tail l) <= length l)%nat.
Proof. destruct l; cbn; lia. Qed.

Lemma skip_alnum_length fmt : (length (skip_alnum fmt) <= length fmt)%nat.
Proof. induction fmt as [|c fmt IH]; cbn [skip_alnum]; [done|]. case_test; cbn [length]; lia. Qed.

Lemma get_width_length fmt flags args r :
  get_width fmt flags args = Some r -> (length r.1.1.1 <= length fmt)%nat.
Proof.
  unfold get_width. intros H. pose proof (skip_atoi_length fmt 0). pose proof (tail_length fmt).
  destruct (is_digit (ch fmt)); [destruct (skip_atoi fmt 0); by simplify_eq|].
  destruct (ch fmt =? 42); [|by simplify_eq]. bind_inv H. destruct p. case_test_in H; by simplify_eq.
Qed.

Lemma get_precision_length fmt args r :
  get_precision fmt args = Some r -> (length r.1.1 <= length fmt)%nat.
Proof.
  unfold get_precision. intros H. destruct (ch fmt =? 46); [|by simplify_eq].
  pose proof (skip_atoi_length (tail fmt) 0). pose proof (tail_length fmt). pose proof (tail_length (tail fmt)).
  bind_inv H. destruct p as [[fmt' p'] a']. simplify_eq. cbn [fst].
  destruct (is_digit (ch (tail fmt))); [destruct (skip_atoi (tail fmt) 0); simplify_eq; cbn in *; lia|].
  destruct (ch (tail fmt) =? 42); [|simplify_eq; lia]. bind_inv Hb. destruct p. simplify_eq. lia.
Qed.

Lemma get_qualifier_length fmt : (length (fst (get_qualifier fmt)) <= length fmt)%nat.
Proof.
  unfold get_qualifier. pose proof (tail_length fmt). pose proof (tail_length (tail fmt)).
  repeat case_test; cbn [fst]; lia.
Qed.

Lemma conversion_length fmt flags fw pr q pos args r :
  conversion fmt flags fw pr q pos args = Some r -> (length r.1.2 <= length fmt)%nat.
Proof.
  unfold conversion. cbn zeta. intros H.
  pose proof (tail_length fmt). pose proof (skip_alnum_length (tail fmt)).
  repeat match type of H with
  | (if ?b then _ else _) = Some _ => destruct b
  | mbind _ _ = Some _ => bind_inv H
  | (let '(_, _) := ?p in _) = Some _ => destruct p
  end; simplify_eq; cbn; lia.
Qed.

Lemma directive_length fmt pos args cs ns fmt' args' :
  directive fmt pos args = Some (cs, ns, fmt', args') -> (length fmt' <= length fmt)%nat.
Proof.
  unfold directive. intros H. pose proof (get_flags_length fmt 0).
  destruct (get_flags fmt 0) as [f1 flags]. bind_inv H. destruct p as [[[f2 fw] flags'] a2].
  apply get_width_length in Hb. bind_inv H. destruct p as [[f3 pr] a3]. apply get_precision_length in Hb0.
  pose proof (get_qualifier_length f3). destruct (get_qualifier f3) as [f4 q].
  apply conversion_length in H. cbn in *. lia.
Qed.

(** ** The output does not depend on the buffer *)

Lemma format_loop_class fuel fmt args pos :
  (length fmt <= fuel)%nat ->
  (∃ text ns, ∀ o, ok o -> str o = pos ->
     format_loop fuel fmt args o = Some (stored (emit o text) ns))
  \/ (bad_args fmt pos args /\ ∀ o, ok o -> str o = pos -> format_loop fuel fmt args o = None).
Proof.
  revert fmt args pos. induction fuel as [|fuel IH]; intros [|c fmt] args pos Hf; cbn [length] in Hf; try lia.
  1,2: left; exists [], []; intros [b s e n] Ho Hs; unfold stored; cbn; by rewrite app_nil_r.
  cbn [format_loop]. destruct (Z.eqb_spec c 37) as [->|Hc]; cbn [negb].
  - destruct (directive fmt pos args) as [[[[cs ns] fmt'] args']|] eqn:Hd.
    2: { right. split; [by constructor|]. intros o Ho <-. by rewrite Hd. }
    pose proof (directive_length _ _ _ _ _ _ _ Hd) as Hl.
    destruct (IH fmt' args' (pos + Z.of_nat (length cs))) as [(text & ns' & H)|[Hbad H]]; [lia|left|right].
    + exists (cs ++ text), (ns ++ ns'). intros o Ho <-. rewrite Hd. cbn [mbind option_bind].
      destruct (addchs_emit cs o Ho) as [-> Ho']. cbn [mbind option_bind].
      destruct (emit_fields cs o) as (Hs & He & Hn). fold (stored (emit o cs) ns). rewrite H; [|done|done].
      rewrite emit_stored, <-emit_app. unfold stored. cbn [obuf str oend nstores].
      destruct (emit_fields (cs ++ text) o) as (_ & _ & ->). by rewrite app_assoc.
    + split; [by eapply bad_later|]. intros o Ho <-. rewrite Hd. cbn [mbind option_bind].
      destruct (addchs_emit cs o Ho) as [-> Ho']. cbn [mbind option_bind].
      destruct (emit_fields cs o) as (Hs & He & Hn). apply H; [|done]. done.
  - destruct (IH fmt args (pos + 1)) as [(text & ns & H)|[Hbad H]]; [lia|left|right].
    + exists (c :: text), ns. intros o Ho <-. destruct (ADDCH_emit o c Ho) as [-> Ho']. cbn [mbind option_bind].
      rewrite H; [done..|]. done.
    + split; [by constructor|]. intros o Ho <-. destruct (ADDCH_emit o c Ho) as [-> Ho']. by apply H.
Qed.

(** A buffer of [size] bytes with a text, cut when it is too long, and its NUL. *)
Definition placed (size : Z) (text buf : list Z) : list Z :=
  if size =? 0 then buf
  else take (Z.to_nat size - 1) text ++ 0 :: drop (S (Nat.min (Z.to_nat size - 1) (length text))) buf.

(** [vsnprintf] prints [text] (and stores [ns] with [%n]) into every buffer. *)
Definition prints (fmt : list Z) (args : list va) (text ns : list Z) : Prop :=
  ∀ addr buf size,
    0 <= addr -> 0 <= size <= Z.of_nat (length buf) -> addr + size < 2 ^ 64 ->
    vsnprintf addr buf size fmt args = Some (s32 (Z.of_nat (length text)), placed size text buf, ns).

Lemma prints_of_loop fmt args text ns :
  (∀ o, ok o -> str o = 0 -> format_loop (length fmt) fmt args o = Some (stored (emit o text) ns)) ->
  prints fmt args text ns.
Proof.
  intros H addr buf size Ha Hs H64. unfold vsnprintf, vsnprintf_internal.
  rewrite u64_small, (proj2 (Z.ltb_ge (addr + size) addr)) by lia.
  assert (Ho : ok (Out buf 0 size [])) by (unfold ok; cbn; lia).
  rewrite H by done. cbn [mbind option_bind].
  destruct (addchs_emit text _ Ho) as [_ Ho'].
  destruct (emit_fields text (Out buf 0 size [])) as (Es & Ee & En). cbn [str oend nstores] in Es, Ee, En.
  unfold placed. rewrite <-(Z2Nat.id size) in * by lia. set (n := Z.to_nat size) in *. rewrite Nat2Z.id.
  destruct (Z.ltb_spec 0 (Z.of_nat n)) as [Hp|Hz].
  - destruct (ADDCH_emit (stored (emit (Out buf 0 (Z.of_nat n) []) text) ns) 0) as [-> _]; [done|].
    cbn [mbind option_bind]. change (emit1 (stored ?o ns) 0) with (emit (stored o ns) [0]).
    rewrite emit_stored, <-emit_app. unfold stored. cbn [str obuf nstores].
    destruct (emit_fields (text ++ [0]) (Out buf 0 (Z.of_nat n) [])) as (-> & _ & ->). cbn [str nstores app].
    change (Out buf 0 (Z.of_nat n) []) with (Out buf (Z.of_nat 0) (Z.of_nat n) []).
    rewrite emit_buf by lia. rewrite take_0. cbn [app Nat.add]. rewrite Nat.sub_0_r, length_app. cbn [length].
    rewrite (proj2 (Z.eqb_neq (Z.of_nat n) 0)) by lia.
    destruct (Z.ltb_spec (Z.of_nat n) (0 + Z.of_nat (length text + 1))) as [Hl|Hl].
    + rewrite aset_Some by (repeat progress rewrite ?length_app, ?length_take, ?length_drop; cbn [length]; lia).
      cbn [mbind option_bind]. f_equal. f_equal. f_equal; [f_equal; lia|].
      replace (Z.to_nat (Z.of_nat n - 1)) with (n - 1)%nat by lia.
      rewrite !Nat.min_l by lia. replace (S (n - 1)) with n by lia.
      rewrite take_app_le by lia. rewrite insert_app_l by (rewrite length_take; lia).
      destruct (lookup_lt_is_Some_2 text (n - 1)) as [x Hx]; [lia|].
      replace (take n text) with (take (n - 1) text ++ [x]).
      2: { replace n with (S (n - 1)) at 2 by lia. symmetry. by apply take_S_r. }
      rewrite insert_app_r_alt by (rewrite length_take; lia).
      rewrite length_take, Nat.min_l, Nat.sub_diag by lia. cbn. by rewrite <-app_assoc.
    + cbn [mbind option_bind]. f_equal. f_equal. f_equal; [f_equal; lia|].
      rewrite !Nat.min_r by lia. rewrite !take_ge by (rewrite ?length_app; cbn [length]; lia).
      rewrite <-app_assoc. cbn [app]. do 3 f_equal. lia.
  - assert (n = 0)%nat as E by lia. rewrite E in *. unfold stored. cbn [str obuf nstores].
    rewrite Es, En. change (Out buf 0 (Z.of_nat 0) []) with (Out buf (Z.of_nat 0) (Z.of_nat 0) []).
    rewrite emit_buf by lia. cbn. by rewrite drop_0.
Qed.

(** C21.  [vsnprintf] never leaves the buffer: for every format and argument list
    there is one text (and what [%n] stores) that is put into every buffer, cut
    to [size - 1] characters and followed by a NUL, with the length of the whole
    text as result and the bytes behind it unchanged; nothing is written when
    [size] is 0.  The only exception is a directive without a fitting argument,
    where no buffer gives a result. *)
Theorem vsnprintf_bounded fmt args :
  (∃ text ns, prints fmt args text ns)
  \/ (bad_args fmt 0 args
      /\ ∀ addr buf size, 0 <= addr -> 0 <= size <= Z.of_nat (length buf) -> addr + size < 2 ^ 64 ->
         vsnprintf addr buf size fmt args = None).
Proof.
  destruct (format_loop_class (length fmt) fmt args 0) as [(text & ns & H)|[Hb H]]; [done|left|right].
  - exists text, ns. by apply prints_of_loop.
  - split; [done|]. intros addr buf size Ha Hs H64. unfold vsnprintf, vsnprintf_internal.
    rewrite u64_small, (proj2 (Z.ltb_ge (addr + size) addr)) by lia.
    rewrite H; [done| |done]. unfold ok. cbn. lia.
Qed.

(** ** Printing and reading back *)

Lemma pad_neg c size : size <= 0 -> pad c size = ([], size - 1).
Proof. intros H. unfold pad. rewrite Z.min_l by lia. by destruct size. Qed.

(** Without width and precision a number is its sign, its prefix and its digits. *)
Lemma number_plain num base type sign num' tmp :
  number_sign num (-1) (if has type LEFT then type .& Z.lnot ZEROPAD else type) = (sign, num', -1 - (if sign =? 0 then 0 else 1)) ->
  number_digits num' base (type .& SMALL) = Some tmp ->
  number num base (-1) (-1) type
  = Some ((if sign =? 0 then [] else [sign])
          ++ (if has type SPECIAL && negb (base =? 10)
              then 48 :: (if base =? 16 then [88 .| (type .& SMALL)] else []) else [])
          ++ reverse tmp).
Proof.
  intros Hs Ht. unfold number. cbn zeta. rewrite Hs, Ht. cbn [mbind option_bind].
  set (ty := if has type LEFT then _ else _).
  rewrite (proj2 (Z.ltb_lt (-1) (Z.of_nat (length tmp)))) by lia. rewrite Z.sub_diag.
  set (sz := (if _ && _ then _ else _) - _).
  assert (sz <= -1) as Hsz by (subst sz; repeat case_test; lia). clearbody sz.
  destruct (has ty (ZEROPAD + LEFT)); [|rewrite (pad_neg 32 sz) by lia];
    (destruct (has ty LEFT); [|rewrite pad_neg by lia]); rewrite pad_neg by lia;
    cbn [app Z.to_nat replicate]; by rewrite app_nil_r.
Qed.

Lemma number_digits_spec num base locase :
  0 <= num < 2 ^ 64 -> base = 8 \/ base = 10 \/ base = 16 -> locase = 0 \/ locase = 32 ->
  ∃ tmp, number_digits num base locase = Some tmp /\ numeral (65 + locase) base num (reverse tmp)
    /\ (base = 10 -> reverse tmp = simple_itoa num).
Proof.
  intros Hn Hb Hl. unfold number_digits. destruct (Z.eqb_spec num 0) as [->|Hne].
  - exists [48]. split_and!; [done| |done]. apply (numeral_one _ base 0). lia.
  - destruct Hb as [-> | [-> | ->]]; cbn [Z.eqb Pos.eqb negb].
    + destruct (put_pow2_spec 23 num 3 locase) as (tmp & ? & ?); [lia|auto|done| |by exists tmp].
      change ((2 ^ 3) ^ Z.of_nat 23) with (2 ^ 69). lia.
    + rewrite put_dec_spec; [|lia|done|change (100000 ^ Z.of_nat 5) with (10 ^ 25); lia].
      assert (E : itoa_loop (5 * 5) num = itoa_loop 21 num).
      { apply itoa_fuel; [change (10 ^ Z.of_nat (5 * 5)) with (10 ^ 25)|change (10 ^ Z.of_nat 21) with (10 ^ 21)| |]; lia. }
      exists (itoa_loop (5 * 5) num). split_and!; [done| |by rewrite E].
      apply itoa_numeral; [lia|]. change (10 ^ Z.of_nat (5 * 5)) with (10 ^ 25). lia.
    + destruct (put_pow2_spec 23 num 4 locase) as (tmp & ? & ?); [lia|auto|done| |by exists tmp].
      change ((2 ^ 4) ^ Z.of_nat 23) with (2 ^ 92). lia.
Qed.

Lemma numeral_strtoul locase base n s rest :
  locase = 0 \/ locase = 32 -> 0 < base <= 16 -> 0 <= n < 2 ^ 64 -> ends_number base rest -> ch rest <> 120 ->
  numeral (65 + locase) base n s -> simple_strtoul (s ++ rest) base = (n, rest).
Proof.
  intros Hl Hb Hn Hr Hx (ds & -> & Hne & Hds & Hv).
  rewrite simple_strtoul_digits; [|destruct Hl as [-> | ->]; auto|done..].
  by rewrite Hv, u64_small by lia.
Qed.

Lemma numeral_strtoul_hex locase base n s rest :
  locase = 0 \/ locase = 32 -> 0 <= n < 2 ^ 64 -> ends_number 16 rest ->
  numeral (65 + locase) 16 n s -> simple_strtoul (48 :: 120 :: s ++ rest) base = (n, rest).
Proof.
  intros Hl Hn Hr (ds & -> & Hne & Hds & Hv).
  rewrite simple_strtoul_hex; [|destruct Hl as [-> | ->]; auto|done..].
  by rewrite Hv, u64_small by lia.
Qed.

(** One directive is a whole format. *)
Lemma prints_directive fmt args text ns args' :
  directive fmt 0 args = Some (text, ns, [], args') -> prints (37 :: fmt) args text ns.
Proof.
  intros Hd. apply prints_of_loop. intros o Ho Hs. cbn [length format_loop Z.eqb Pos.eqb negb].
  rewrite Hs, Hd. cbn [mbind option_bind]. destruct (addchs_emit text o Ho) as [-> _].
  cbn [mbind option_bind]. by destruct (length fmt).
Qed.

Definition fmt_lu : list Z := [37; 108; 117].
Definition fmt_ld : list Z := [37; 108; 100].
Definition fmt_lx : list Z := [37; 108; 120].
Definition fmt_hash_lx : list Z := [37; 35; 108; 120].

Lemma directive_lu n :
  directive [108; 117] 0 [VLong n] = (cs ← number n 10 (-1) (-1) 0; Some (cs, [], [], [])).
Proof.
  transitivity ('(cs, a) ← (cs ← number n 10 (-1) (-1) 0; Some (cs, @nil va)); Some (cs, @nil Z, @nil Z, a)); [done|].
  by destruct (number _ _ _ _ _).
Qed.

Lemma directive_lx n :
  directive [108; 120] 0 [VLong n] = (cs ← number n 16 (-1) (-1) 32; Some (cs, [], [], [])).
Proof.
  transitivity ('(cs, a) ← (cs ← number n 16 (-1) (-1) 32; Some (cs, @nil va)); Some (cs, @nil Z, @nil Z, a)); [done|].
  by destruct (number _ _ _ _ _).
Qed.

Lemma directive_hash_lx n :
  directive [35; 108; 120] 0 [VLong n] = (cs ← number n 16 (-1) (-1) 96; Some (cs, [], [], [])).
Proof.
  transitivity ('(cs, a) ← (cs ← number n 16 (-1) (-1) 96; Some (cs, @nil va)); Some (cs, @nil Z, @nil Z, a)); [done|].
  by destruct (number _ _ _ _ _).
Qed.

Lemma directive_ld n :
  directive [108; 100] 0 [VLong n] = (cs ← number (u64 (s64 n)) 10 (-1) (-1) 2; Some (cs, [], [], [])).
Proof.
  transitivity ('(cs, a) ← (cs ← number (u64 (s64 n)) 10 (-1) (-1) 2; Some (cs, @nil va)); Some (cs, @nil Z, @nil Z, a)); [done|].
  by destruct (number _ _ _ _ _).
Qed.

Lemma printed_lu n :
  0 <= n < 2 ^ 64 ->
  prints fmt_lu [VLong n] (simple_itoa n) [] /\ simple_strtoul (simple_itoa n) 10 = (n, []).
Proof.
  intros Hn. destruct (number_digits_spec n 10 0 Hn) as (tmp & Ht & Hnum & Hi); [auto..|].
  rewrite <-Hi by done. split.
  - apply (prints_directive [108; 117] _ _ _ []).
    by rewrite directive_lu, (number_plain n 10 0 0 n tmp).
  - rewrite <-(app_nil_r (reverse tmp)). by apply (numeral_strtoul 0); auto.
Qed.

Lemma printed_lx n :
  0 <= n < 2 ^ 64 ->
  ∃ s, prints fmt_lx [VLong n] s [] /\ simple_strtoul s 16 = (n, [])
    /\ prints fmt_hash_lx [VLong n] (48 :: 120 :: s) []
    /\ ∀ base, simple_strtoul (48 :: 120 :: s) base = (n, []).
Proof.
  intros Hn. destruct (number_digits_spec n 16 32 Hn) as (tmp & Ht & Hnum & _); [auto..|].
  exists (reverse tmp). split_and!.
  - apply (prints_directive [108; 120] _ _ _ []).
    by rewrite directive_lx, (number_plain n 16 32 0 n tmp).
  - rewrite <-(app_nil_r (reverse tmp)). by apply (numeral_strtoul 32); auto.
  - apply (prints_directive [35; 108; 120] _ _ _ []).
    by rewrite directive_hash_lx, (number_plain n 16 96 0 n tmp).
  - intros base. rewrite <-(app_nil_r (reverse tmp)). by apply (numeral_strtoul_hex 32); auto.
Qed.

Lemma printed_ld_neg n :
  2 ^ 63 <= n < 2 ^ 64 ->
  ∃ text, prints fmt_ld [VLong n] text [] /\ simple_strtol text 10 = (s64 n, []).
Proof.
  intros Hn. assert (s64 n = n - 2 ^ 64) as E.
  { unfold s64, swrap in *. change (64 - 1) with 63 in *. Z.to_euclidean_division_equations. lia. }
  destruct (number_digits_spec (2 ^ 64 - n) 10 0) as (tmp & Ht & Hnum & _); [lia|auto..|].
  exists (45 :: reverse tmp). split.
  - apply (prints_directive [108; 100] _ _ _ []). rewrite directive_ld.
    assert (u64 (s64 n) = n) as -> by (rewrite E; unfold u64, wrap; Z.to_euclidean_division_equations; lia).
    rewrite (number_plain n 10 2 45 (2 ^ 64 - n) tmp); [done| |done].
    unfold number_sign. change (has (if has 2 LEFT then 2 .& Z.lnot ZEROPAD else 2) SIGN) with true.
    cbn iota. rewrite (proj2 (Z.ltb_lt _ 0)) by lia. rewrite E, u64_small by lia. f_equal. f_equal. lia.
  - unfold simple_strtol. change (ch (45 :: reverse tmp)) with 45. cbn [Z.eqb Pos.eqb tail].
    rewrite <-(app_nil_r (reverse tmp)), (numeral_strtoul 0 10 (2 ^ 64 - n)) by (try done; try lia; auto).
    f_equal. rewrite E. unfold s64, swrap. change (64 - 1) with 63. Z.to_euclidean_division_equations. lia.
Qed.

Lemma printed_ld_pos n :
  0 <= n < 2 ^ 63 ->
  ∃ text, prints fmt_ld [VLong n] text [] /\ simple_strtol text 10 = (s64 n, []).
Proof.
  intros Hn. assert (s64 n = n) as E.
  { unfold s64, swrap in *. change (64 - 1) with 63 in *. Z.to_euclidean_division_equations. lia. }
  destruct (number_digits_spec n 10 0) as (tmp & Ht & Hnum & _); [lia|auto..|].
  exists (reverse tmp). split.
  - apply (prints_directive [108; 100] _ _ _ []). rewrite directive_ld.
    rewrite E, u64_small, (number_plain n 10 2 0 n tmp); [done| |done|lia].
    unfold number_sign. change (has (if has 2 LEFT then 2 .& Z.lnot ZEROPAD else 2) SIGN) with true.
    cbn iota. rewrite (proj2 (Z.ltb_ge _ 0)) by lia. done.
  - unfold simple_strtol. destruct Hnum as (ds & Hr & Hne & Hds & Hv).
    assert (numeral 65 10 n (reverse tmp)) as Hnum by (by exists ds).
    assert ((ch (reverse tmp) =? 45) = false) as ->.
    { rewrite Hr. destruct ds as [|d ds]; [done|]. apply Forall_cons in Hds as [Hd _].
      change (ch (map _ (d :: ds))) with (digit_char (65 + 0) d). apply Z.eqb_neq. unfold digit_char. destruct (Z.ltb_spec d 10); lia. }
    rewrite <-(app_nil_r (reverse tmp)), (numeral_strtoul 0 10 n) by (try done; try lia; auto). by rewrite E.
Qed.

(** A 64-bit number that was printed is read back: ["%lu"] (which prints
    what [simple_itoa] returns) by [simple_strtoul] in base 10, ["%lx"] in base
    16, ["%#lx"] in any base, and a signed one printed with ["%ld"] by
    [simple_strtol]; each time the whole text is read. *)
Theorem printed_number_read_back n :
  0 <= n < 2 ^ 64 ->
  (prints fmt_lu [VLong n] (simple_itoa n) [] /\ simple_strtoul (simple_itoa n) 10 = (n, []))
  /\ (∃ text, prints fmt_lx [VLong n] text [] /\ simple_strtoul text 16 = (n, []))
  /\ (∃ text, prints fmt_hash_lx [VLong n] text [] /\ ∀ base, simple_strtoul text base = (n, []))
  /\ (∃ text, prints fmt_ld [VLong n] text [] /\ simple_strtol text 10 = (s64 n, [])).
Proof.
  intros Hn. destruct (printed_lx n Hn) as (s & Hp & Hr & Hp' & Hr').
  split; [by apply printed_lu|]. split; [by exists s|]. split; [by exists (48 :: 120 :: s)|].
  destruct (Z_lt_dec n (2 ^ 63)); [apply printed_ld_pos|apply printed_ld_neg]; lia.
Qed.

Lemma printed_number_read_back_witness :
  ∃ text, prints fmt_ld [VLong 18446744073709551574] text []
    /\ simple_strtol text 10 = (s64 18446744073709551574, []).
Proof. apply (printed_number_read_back 18446744073709551574). lia. Defined.

(** ["%5d:%s"] with 8 bytes of a longer buffer: the text is cut. *)
Example vsnprintf_cut :
  vsnprintf 0 (replicate 16 7) 8 [37; 53; 100; 58; 37; 115] [VInt 4294967286; VStr (Some [97; 98; 99; 100])]
  = Some (10, [32; 32; 45; 49; 48; 58; 97; 0; 7; 7; 7; 7; 7; 7; 7; 7], []).
Proof. vm_compute. done. Qed.

(** ** Addresses *)

Lemma string_plain s flags : string (Some s) (-1) (-1) flags = s.
Proof.
  unfold string. change (-1 <? 0) with true. cbn [default from_option id]. unfold string_pad.
  replace (Z.to_nat (-1 - Z.of_nat (length s))) with 0%nat by lia.
  destruct (has flags LEFT); cbn [replicate app].
  - replace (Z.to_nat (-1 - Z.of_nat (length s))) with 0%nat by lia. cbn [replicate]. by rewrite app_nil_r, firstn_all.
  - replace (Z.to_nat _) with 0%nat by lia. cbn [replicate]. by rewrite app_nil_r, firstn_all.
Qed.

Lemma quad_numeral b : 0 <= b < 256 -> numeral 65 10 b (reverse (put_dec_trunc b)).
Proof.
  intros Hb. rewrite (put_dec_trunc_spec 0) by lia.
  apply itoa_numeral; [lia|]. change (10 ^ Z.of_nat (5 + 0)) with 100000. lia.
Qed.

Lemma quad_read b rest :
  0 <= b < 256 -> ends_number 10 rest -> ch rest <> 120 ->
  simple_strtoul (reverse (put_dec_trunc b) ++ rest) 10 = (b, rest).
Proof. intros Hb Hr Hx. apply (numeral_strtoul 0); [by auto|lia|lia|done..|by apply quad_numeral]. Qed.

Definition fmt_pI4 : list Z := [37; 112; 73; 52].

Definition dotted (a b c d : Z) : list Z :=
  reverse (put_dec_trunc a) ++ [46] ++ reverse (put_dec_trunc b) ++ [46]
  ++ reverse (put_dec_trunc c) ++ [46] ++ reverse (put_dec_trunc d).

Lemma ip_loop_step n b rest addr :
  0 <= b < 256 -> ends_number 10 rest -> ch rest <> 120 ->
  ip_loop (S n) (reverse (put_dec_trunc b) ++ rest) addr = ip_loop n (tail rest) (u32 (addr ≪ 8) .| b).
Proof.
  intros Hb Hr Hx. cbn [ip_loop]. rewrite quad_read by done.
  assert (u32 (b .& 0xFF) = b) as ->; [|done].
  change 0xFF with (Z.ones 8). rewrite Z.land_ones by lia. rewrite Z.mod_small, u32_small by lia. done.
Qed.

Lemma directive_pI4 p bytes :
  directive [112; 73; 52] 0 [VPtr p bytes] = (cs ← ip4_addr_string bytes (-1) (-1) 0; Some (cs, [], [], [])).
Proof. reflexivity. Qed.

Lemma ip_loop_dot n b rest addr :
  0 <= b < 256 ->
  ip_loop (S n) (reverse (put_dec_trunc b) ++ 46 :: rest) addr = ip_loop n rest (u32 (addr ≪ 8) .| b).
Proof. intros Hb. exact (ip_loop_step n b (46 :: rest) addr Hb eq_refl ltac:(discriminate)). Qed.

(** The address of an IPv4 host, printed with ["%pI4"] and read by
    [string_to_ip], is the same word in network order again. *)
Theorem ip4_printed_read_back p a b c d rest :
  0 <= a < 256 -> 0 <= b < 256 -> 0 <= c < 256 -> 0 <= d < 256 ->
  prints fmt_pI4 [VPtr p (a :: b :: c :: d :: rest)] (dotted a b c d) []
  /\ string_to_ip (Some (dotted a b c d)) = a + b * 256 + c * 65536 + d * 16777216.
Proof.
  intros Ha Hb Hc Hd. split.
  - apply (prints_directive [112; 73; 52] _ _ _ []).
    rewrite directive_pI4. unfold ip4_addr_string. cbn [ip4_loop mbind option_bind Nat.eqb app].
    rewrite string_plain, app_nil_r. unfold dotted. cbn [app]. reflexivity.
  - unfold string_to_ip, dotted. cbn [app].
    rewrite !ip_loop_dot by assumption.
    rewrite <-(app_nil_r (reverse (put_dec_trunc d))), (ip_loop_step 0 d []) by done. cbn [ip_loop].
    rewrite !Z.shiftl_mul_pow2 by lia.
    rewrite (u32_small (0 * _)), (lor_low 0 a 8) by lia. rewrite (u32_small ((0 * 2 ^ 8 + a) * 2 ^ 8)), (lor_low _ b 8) by lia.
    rewrite (u32_small ((_ + b) * 2 ^ 8)), (lor_low _ c 8) by lia.
    rewrite (u32_small ((_ + c) * 2 ^ 8)), (lor_low _ d 8) by lia. by apply htonl_spec.
Qed.
