(* ===== verification/RkParam.v ===== *)
(** * The parameter block ([board/rockchip/common/rkloader/parameter.c])

    The loader keeps its configuration as a text with a tag, a length and a
    checksum at the start of the medium.  [load_disk_partitions] reads it,
    takes its lines apart and fills [gBootInfo]: load addresses, the kernel
    command line and the table of partitions that is part of it.

    A string is the list of its characters, a pointer into it what is left of
    it; a [char] array is the list of its bytes.  [None] is an access outside of
    an array.  [char] is unsigned.  The driver of the medium is a parameter. *)

From S2P Require Import Prelude Ctype Cstring Strtoul Vsprintf Crc.

Definition MAX_LINE_CHAR : Z := 65536.
Definition MAX_LOADER_PARAM : Z := 65536.
Definition PARM_TAG : Z := 0x4D524150.
Definition PARAMETER_NUM : nat := 8.
Definition PARAMETER_OFFSET : Z := 1024.
Definition PART_NAME : nat := 32.
Definition MAX_MTDID : nat := 64.
Definition CONFIG_MAX_PARTITIONS : nat := 32.
Definition SIZE_REMAINING : Z := 0xFFFFFFFF.
Definition RK_BLK_SIZE : Z := 512.

(** ** Data *)

(** [disk_partition_t]; [pname] and [ptype] have 32 bytes. *)
Record disk_partition := Part {
  start : Z;
  psize : Z;
  blksz : Z;
  pname : list Z;
  ptype : list Z;
  bootable : Z
}.

Record cmdline_mtd_partition := Mtd {
  mtd_id : list Z;
  num_parts : Z;
  parts : list disk_partition
}.

Record BootInfo := Boot {
  magic_code : Z;
  machine_type : Z;
  boot_index : Z;
  atag_addr : Z;
  misc_offset : Z;
  kernel_load_addr : Z;
  boot_offset : Z;
  recovery_offset : Z;
  ramdisk_offset : Z;
  ramdisk_size : Z;
  ramdisk_load_addr : Z;
  is_kernel_in_boot : Z;
  check_mask : Z;
  cmd_line : list Z;
  cmd_mtd : cmdline_mtd_partition;
  index_misc : Z;
  index_kernel : Z;
  index_boot : Z;
  index_recovery : Z;
  index_system : Z;
  index_backup : Z;
  index_snapshot : Z;
  fw_version : list Z;
  fdt_name : list Z
}.

Definition set_magic_code (v : Z) (i : BootInfo) : BootInfo :=
  Boot
    v (machine_type i) (boot_index i) (atag_addr i) (misc_offset i) (kernel_load_addr i)
    (boot_offset i) (recovery_offset i) (ramdisk_offset i) (ramdisk_size i)
    (ramdisk_load_addr i) (is_kernel_in_boot i) (check_mask i) (cmd_line i) (cmd_mtd i)
    (index_misc i) (index_kernel i) (index_boot i) (index_recovery i) (index_system i)
    (index_backup i) (index_snapshot i) (fw_version i) (fdt_name i).
Definition set_machine_type (v : Z) (i : BootInfo) : BootInfo :=
  Boot
    (magic_code i) v (boot_index i) (atag_addr i) (misc_offset i) (kernel_load_addr i)
    (boot_offset i) (recovery_offset i) (ramdisk_offset i) (ramdisk_size i)
    (ramdisk_load_addr i) (is_kernel_in_boot i) (check_mask i) (cmd_line i) (cmd_mtd i)
    (index_misc i) (index_kernel i) (index_boot i) (index_recovery i) (index_system i)
    (index_backup i) (index_snapshot i) (fw_version i) (fdt_name i).
Definition set_atag_addr (v : Z) (i : BootInfo) : BootInfo :=
  Boot
    (magic_code i) (machine_type i) (boot_index i) v (misc_offset i) (kernel_load_addr i)
    (boot_offset i) (recovery_offset i) (ramdisk_offset i) (ramdisk_size i)
    (ramdisk_load_addr i) (is_kernel_in_boot i) (check_mask i) (cmd_line i) (cmd_mtd i)
    (index_misc i) (index_kernel i) (index_boot i) (index_recovery i) (index_system i)
    (index_backup i) (index_snapshot i) (fw_version i) (fdt_name i).
Definition set_misc_offset (v : Z) (i : BootInfo) : BootInfo :=
  Boot
    (magic_code i) (machine_type i) (boot_index i) (atag_addr i) v (kernel_load_addr i)
    (boot_offset i) (recovery_offset i) (ramdisk_offset i) (ramdisk_size i)
    (ramdisk_load_addr i) (is_kernel_in_boot i) (check_mask i) (cmd_line i) (cmd_mtd i)
    (index_misc i) (index_kernel i) (index_boot i) (index_recovery i) (index_system i)
    (index_backup i) (index_snapshot i) (fw_version i) (fdt_name i).
Definition set_kernel_load_addr (v : Z) (i : BootInfo) : BootInfo :=
  Boot
    (magic_code i) (machine_type i) (boot_index i) (atag_addr i) (misc_offset i) v
    (boot_offset i) (recovery_offset i) (ramdisk_offset i) (ramdisk_size i)
    (ramdisk_load_addr i) (is_kernel_in_boot i) (check_mask i) (cmd_line i) (cmd_mtd i)
    (index_misc i) (index_kernel i) (index_boot i) (index_recovery i) (index_system i)
    (index_backup i) (index_snapshot i) (fw_version i) (fdt_name i).
Definition set_boot_offset (v : Z) (i : BootInfo) : BootInfo :=
  Boot
    (magic_code i) (machine_type i) (boot_index i) (atag_addr i) (misc_offset i)
    (kernel_load_addr i) v (recovery_offset i) (ramdisk_offset i) (ramdisk_size i)
    (ramdisk_load_addr i) (is_kernel_in_boot i) (check_mask i) (cmd_line i) (cmd_mtd i)
    (index_misc i) (index_kernel i) (index_boot i) (index_recovery i) (index_system i)
    (index_backup i) (index_snapshot i) (fw_version i) (fdt_name i).
Definition set_recovery_offset (v : Z) (i : BootInfo) : BootInfo :=
  Boot
    (magic_code i) (machine_type i) (boot_index i) (atag_addr i) (misc_offset i)
    (kernel_load_addr i) (boot_offset i) v (ramdisk_offset i) (ramdisk_size i)
    (ramdisk_load_addr i) (is_kernel_in_boot i) (check_mask i) (cmd_line i) (cmd_mtd i)
    (index_misc i) (index_kernel i) (index_boot i) (index_recovery i) (index_system i)
    (index_backup i) (index_snapshot i) (fw_version i) (fdt_name i).
Definition set_check_mask (v : Z) (i : BootInfo) : BootInfo :=
  Boot
    (magic_code i) (machine_type i) (boot_index i) (atag_addr i) (misc_offset i)
    (kernel_load_addr i) (boot_offset i) (recovery_offset i) (ramdisk_offset i)
    (ramdisk_size i) (ramdisk_load_addr i) (is_kernel_in_boot i) v (cmd_line i) (cmd_mtd
    i) (index_misc i) (index_kernel i) (index_boot i) (index_recovery i) (index_system i)
    (index_backup i) (index_snapshot i) (fw_version i) (fdt_name i).
Definition set_cmd_line (v : list Z) (i : BootInfo) : BootInfo :=
  Boot
    (magic_code i) (machine_type i) (boot_index i) (atag_addr i) (misc_offset i)
    (kernel_load_addr i) (boot_offset i) (recovery_offset i) (ramdisk_offset i)
    (ramdisk_size i) (ramdisk_load_addr i) (is_kernel_in_boot i) (check_mask i) v (cmd_mtd
    i) (index_misc i) (index_kernel i) (index_boot i) (index_recovery i) (index_system i)
    (index_backup i) (index_snapshot i) (fw_version i) (fdt_name i).
Definition set_cmd_mtd (v : cmdline_mtd_partition) (i : BootInfo) : BootInfo :=
  Boot
    (magic_code i) (machine_type i) (boot_index i) (atag_addr i) (misc_offset i)
    (kernel_load_addr i) (boot_offset i) (recovery_offset i) (ramdisk_offset i)
    (ramdisk_size i) (ramdisk_load_addr i) (is_kernel_in_boot i) (check_mask i) (cmd_line
    i) v (index_misc i) (index_kernel i) (index_boot i) (index_recovery i) (index_system
    i) (index_backup i) (index_snapshot i) (fw_version i) (fdt_name i).
Definition set_fw_version (v : list Z) (i : BootInfo) : BootInfo :=
  Boot
    (magic_code i) (machine_type i) (boot_index i) (atag_addr i) (misc_offset i)
    (kernel_load_addr i) (boot_offset i) (recovery_offset i) (ramdisk_offset i)
    (ramdisk_size i) (ramdisk_load_addr i) (is_kernel_in_boot i) (check_mask i) (cmd_line
    i) (cmd_mtd i) (index_misc i) (index_kernel i) (index_boot i) (index_recovery i)
    (index_system i) (index_backup i) (index_snapshot i) v (fdt_name i).
Definition set_fdt_name (v : list Z) (i : BootInfo) : BootInfo :=
  Boot
    (magic_code i) (machine_type i) (boot_index i) (atag_addr i) (misc_offset i)
    (kernel_load_addr i) (boot_offset i) (recovery_offset i) (ramdisk_offset i)
    (ramdisk_size i) (ramdisk_load_addr i) (is_kernel_in_boot i) (check_mask i) (cmd_line
    i) (cmd_mtd i) (index_misc i) (index_kernel i) (index_boot i) (index_recovery i)
    (index_system i) (index_backup i) (index_snapshot i) (fw_version i) v.
Definition set_ramdisk (addr off sz : Z) (i : BootInfo) : BootInfo :=
  Boot
    (magic_code i) (machine_type i) (boot_index i) (atag_addr i) (misc_offset i)
    (kernel_load_addr i) (boot_offset i) (recovery_offset i) off sz addr
    (is_kernel_in_boot i) (check_mask i) (cmd_line i) (cmd_mtd i) (index_misc i)
    (index_kernel i) (index_boot i) (index_recovery i) (index_system i) (index_backup i)
    (index_snapshot i) (fw_version i) (fdt_name i).
Definition set_indices (misc kernel boot recovery system backup : Z) (i : BootInfo) : BootInfo :=
  Boot
    (magic_code i) (machine_type i) (boot_index i) (atag_addr i) (misc_offset i)
    (kernel_load_addr i) (boot_offset i) (recovery_offset i) (ramdisk_offset i)
    (ramdisk_size i) (ramdisk_load_addr i) (is_kernel_in_boot i) (check_mask i) (cmd_line
    i) (cmd_mtd i) misc kernel boot recovery system backup (index_snapshot i) (fw_version
    i) (fdt_name i).

(** ** Strings *)

(** The string at the start of an array. *)
Fixpoint array_str (a : list Z) : option (list Z) :=
  match a with
  | [] => None
  | c :: a => if c =? 0 then Some [] else s ← array_str a; Some (c :: s)
  end.

(** [strncpy] of characters without NUL to the start of an array. *)
Definition put_chars (a s : list Z) : option (list Z) :=
  if (length s <=? length a)%nat then Some (s ++ drop (length s) a) else None.

(** The tokens that [strtok] with the delimiter [" "] gives one after the other. *)
Fixpoint tokens_from (cur s : list Z) : list (list Z) :=
  let flush := if bool_decide (cur = []) then [] else [reverse cur] in
  match s with
  | [] => flush
  | c :: s => if c =? 32 then flush ++ tokens_from [] s else tokens_from (c :: cur) s
  end.
Definition tokens (s : list Z) : list (list Z) := tokens_from [] s.

(** [strncmp(s, p, strlen(p)) == 0]: what follows the prefix [p]. *)
Fixpoint after (p s : list Z) : option (list Z) :=
  match p, s with
  | [], _ => Some s
  | a :: p, b :: s => if a =? b then after p s else None
  | _ :: _, [] => None
  end.

Fixpoint first_after (p : list Z) (ts : list (list Z)) : option (list Z) :=
  match ts with
  | [] => None
  | t :: ts => match after p t with Some s => Some s | None => first_after p ts end
  end.

(** [strchr]: what is before and after the first [c]. *)
Fixpoint cut (c : Z) (s : list Z) : option (list Z * list Z) :=
  match s with
  | [] => None
  | x :: s => if x =? c then Some ([], s) else '(a, b) ← cut c s; Some (x :: a, b)
  end.

(** [EATCHAR] *)
Fixpoint eat (c : Z) (s : list Z) : list Z :=
  match s with
  | [] => []
  | x :: s' => if x =? c then eat c s' else s
  end.

Fixpoint text (s : String.string) : list Z :=
  match s with
  | EmptyString => []
  | String a s => Z.of_N (Ascii.N_of_ascii a) :: text s
  end.

(** ** Partitions *)

Fixpoint find_loop (ps : list disk_partition) (n : nat) (i : Z) (part_name : list Z) {struct n} : option Z :=
  match n, ps with
  | O, _ => Some (-1)
  | S n, p :: ps =>
      name ← array_str (pname p);
      if strcmp_list part_name name =? 0 then Some i else find_loop ps n (i + 1) part_name
  | S _, [] => None
  end.

Definition find_mtd_part (this_mtd : cmdline_mtd_partition) (part_name : list Z) : option Z :=
  find_loop (parts this_mtd) (Z.to_nat (num_parts this_mtd)) 0 part_name.

Definition memparse (ptr : list Z) : Z * list Z :=
  let '(ret, e) := simple_strtoull ptr 0 in
  let c := ch e in
  if (c =? 71) || (c =? 103) then (u64 (u64 (u64 (ret ≪ 10) ≪ 10) ≪ 10), tail e)
  else if (c =? 77) || (c =? 109) then (u64 (u64 (ret ≪ 10) ≪ 10), tail e)
  else if (c =? 75) || (c =? 107) then (u64 (ret ≪ 10), tail e)
  else (ret, e).

(** The size (or ["-"] for the rest of the medium) and the offset. *)
Definition get_size (s : list Z) : Z * list Z :=
  if ch s =? 45 then (SIZE_REMAINING, tail s)
  else let '(v, s) := memparse s in (u32 v, s).

Definition get_offset (s : list Z) : Z * list Z :=
  if ch s =? 64 then let '(v, s) := memparse (tail s) in (u32 v, s) else (0, s).

(** [name], and the rest; [None] inside for the missing [')']. *)
Definition get_name (s : list Z) (part_index : Z) : option (option (list Z * list Z)) :=
  if ch s =? 40 then
    match cut 41 (tail s) with
    | None => Some None
    | Some (n, rest) => name ← put_chars (replicate PART_NAME 0) n; Some (Some (name, rest))
    end
  else
    '(_, name, _) ← sprintf 0 (replicate PART_NAME 0) (text "Partition_%03d") [VInt part_index];
    Some (Some (name, s)).

(** The options [ro] and [lk] set a flag that is not used any more. *)
Definition skip_option (o : String.string) (s : list Z) : list Z := default s (after (text o) s).

(** [get_part]: [n] bounds the recursion, [part_index] is [num_parts]. *)
Fixpoint get_part (n : nat) (s : list Z) (mtd : cmdline_mtd_partition) : option (Z * cmdline_mtd_partition) :=
  match n with
  | O => None
  | S n =>
      let '(size, s) := get_size s in
      let '(offset, s) := get_offset s in
      o ← get_name s (num_parts mtd);
      match o with
      | None => Some (0, mtd)
      | Some (name, s) =>
          let s := skip_option "lk" (skip_option "ro" s) in
          this_part ← aget (parts mtd) (num_parts mtd);
          name_str ← array_str name;
          '(_, pn, _) ← snprintf 0 (pname this_part) 32 (text "%s") [VStr (Some name_str)];
          '(_, pt, _) ← snprintf 0 (ptype this_part) 32 (text "%s") [VStr (Some (text "raw"))];
          ps ← aset (parts mtd) (num_parts mtd) (Part offset size RK_BLK_SIZE pn pt (bootable this_part));
          let mtd := Mtd (mtd_id mtd) (num_parts mtd + 1) ps in
          if (num_parts mtd <? Z.of_nat CONFIG_MAX_PARTITIONS) && (ch s =? 44) then
            '(_, mtd) ← get_part n (tail s) mtd; Some (1, mtd)
          else Some (1, mtd)
      end
  end.

Definition mtdpart_parse (str : list Z) (this_mtd : cmdline_mtd_partition)
    : option (Z * cmdline_mtd_partition) :=
  match first_after (text "mtdparts=") (tokens str) with
  | None => Some (1, this_mtd)
  | Some s =>
      match cut 58 s with
      | None => Some (0, this_mtd)
      | Some (mid, s) =>
          a ← put_chars (mtd_id this_mtd) mid;
          '(_, mtd) ← get_part CONFIG_MAX_PARTITIONS s (Mtd a (num_parts this_mtd) (parts this_mtd));
          Some (1, mtd)
      end
  end.

Definition get_rdInfo (info : BootInfo) : BootInfo :=
  match first_after (text "initrd=") (tokens (cmd_line info)) with
  | None => set_ramdisk 0 0 0 info
  | Some token =>
      let '(addr, token) := simple_strtoull token 0 in
      let size := if ch token =? 44 then u32 (fst (simple_strtoull (tail token) 0)) else 0x80000 in
      set_ramdisk (u32 addr) 0 size info
  end.

Definition parse_cmdline (info : BootInfo) : option (Z * BootInfo) :=
  a ← aset (mtd_id (cmd_mtd info)) 0 0;
  let mtd := Mtd a 0 (parts (cmd_mtd info)) in
  '(ret, mtd) ← mtdpart_parse (cmd_line info) mtd;
  let info := set_cmd_mtd mtd info in
  if ret =? 0 then Some (-2, info)
  else
    index_misc ← find_mtd_part mtd (text "misc");
    index_kernel ← find_mtd_part mtd (text "kernel");
    index_boot ← find_mtd_part mtd (text "boot");
    index_recovery ← find_mtd_part mtd (text "recovery");
    index_system ← find_mtd_part mtd (text "system");
    index_backup ← find_mtd_part mtd (text "backup");
    let info := set_indices index_misc index_kernel index_boot index_recovery index_system index_backup info in
    let info := get_rdInfo info in
    if (index_misc <? 0) || (index_kernel <? 0) || (index_boot <? 0) || (index_recovery <? 0)
    then Some (-1, info) else Some (0, info).

(** ** Lines *)

Fixpoint atoi_dec (line : list Z) (v : Z) : Z :=
  match line with
  | [] => v
  | c :: line => if (48 <=? c) && (c <=? 57) then atoi_dec line (s32 (s32 (v * 10) + (c - 48))) else v
  end.

Fixpoint atoi_hex (line : list Z) (v : Z) : Z :=
  match line with
  | [] => v
  | c :: line =>
      if (48 <=? c) && (c <=? 102) then
        let d := if 97 <=? c then c - 97 + 10 else if 65 <=? c then c - 65 + 10 else c - 48 in
        atoi_hex line (s32 (s32 (v * 16) + d))
      else v
  end.

(** An [int] that overflows wraps around, as it does on the target. *)
Definition ParseAtoi (line : list Z) : Z :=
  let line := eat 32 line in
  match line with
  | [] => 0
  | _ :: rest =>
      if (ch rest =? 120) || (ch rest =? 88) then atoi_hex (tail rest) 0 else atoi_dec line 0
  end.

(** The new [info] and the calls of [rkplat_uart2UsbEn]. *)
Definition ParseLine (info : BootInfo) (line : list Z) : option (BootInfo * list Z) :=
  let tagged tag := after (text tag) line in
  let num (set : Z -> BootInfo -> BootInfo) (l : list Z) := Some (set (u32 (ParseAtoi l)) info, @nil Z) in
  match tagged "MAGIC:" with Some l => num set_magic_code l | None =>
  match tagged "ATAG:" with Some l => num set_atag_addr l | None =>
  match tagged "MACHINE:" with Some l => Some (set_machine_type (u16 (ParseAtoi l)) info, []) | None =>
  match tagged "CHECK_MASK:" with Some l => num set_check_mask l | None =>
  match tagged "KERNEL_IMG:" with Some l => num set_kernel_load_addr l | None =>
  match tagged "BOOT_IMG:" with Some l => num set_boot_offset l | None =>
  match tagged "RECOVERY_IMG:" with Some l => num set_recovery_offset l | None =>
  match tagged "MISC_IMG:" with Some l => num set_misc_offset l | None =>
  match tagged "CMDLINE:" with
  | Some l => '(_, info) ← parse_cmdline (set_cmd_line (eat 32 l) info); Some (info, [])
  | None =>
  match tagged "FIRMWARE_VER:" with Some l => Some (set_fw_version (eat 32 l) info, []) | None =>
  match tagged "FDT_NAME:" with Some l => Some (set_fdt_name (eat 32 l) info, []) | None =>
  match tagged "USBUART:" with
  | Some l => Some (info, match after (text "enable") (eat 32 l) with Some _ => [1] | None => [] end)
  | None => Some (info, [])
  end end end end end end end end end end end end.

(** The line and [i]: what was read before the end of the line. *)
Fixpoint getline (param : list Z) (len : nat) : option (list Z * nat) :=
  match len, param with
  | O, _ => Some ([], O)
  | S len, c :: param =>
      if (c =? 10) || (c =? 0) then Some ([], O)
      else '(line, i) ← getline param len; Some (if c =? 13 then line else c :: line, S i)
  | S _, [] => None
  end.

(** [while (remain_len > 0)]; a turn takes [i + 1] bytes, at least one. *)
Fixpoint param_loop (fuel : nat) (info : BootInfo) (param : list Z) (remain_len : Z)
    : option (BootInfo * list Z) :=
  match fuel with
  | O => None
  | S fuel =>
      if 0 <? remain_len then
        '(line, i) ← getline param (Z.to_nat remain_len);
        if MAX_LINE_CHAR <=? Z.of_nat (length line) then None
        else
          '(info, calls) ←
            (if (ch line =? 0) || (ch line =? 35) then Some (info, []) else ParseLine info line);
          '(info, calls') ← param_loop fuel info (drop (S i) param) (remain_len - (Z.of_nat i + 1));
          Some (info, calls ++ calls')
      else Some (info, [])
  end.

Definition ParseParam (info : BootInfo) (param : list Z) (len : Z) : option (BootInfo * list Z) :=
  param_loop (S (Z.to_nat len)) info param (s32 len).

(** ** The block on the medium *)

Definition load32 (b : list Z) : Z := le_value (take 4 b).

Definition param_length (buf : list Z) : Z := load32 (drop 4 buf).

(** [pParam->parameter] *)
Definition param_text (buf : list Z) : list Z := drop 8 buf.

Definition CheckParam (buf : list Z) : option Z :=
  if negb (load32 buf =? PARM_TAG) then Some (-2)
  else if MAX_LOADER_PARAM - 12 <? param_length buf then Some (-3)
  else
    crc ← CRC_32CheckBuffer (take (Z.to_nat (param_length buf + 4)) (param_text buf));
    if crc =? 0 then Some (-4) else Some 0.

Section medium.
(** The driver's function, or NULL: from a sector and a count to a return value
    and the bytes read. *)
Context (ReadLba : option (Z -> Z -> Z * list Z)).

(** [FTL_ERROR] is -1. *)
Definition StorageReadLba (LBA nSec : Z) : Z * list Z :=
  match ReadLba with
  | Some read => read LBA nSec
  | None => (-1, [])
  end.

(** [for (i = 0; i < PARAMETER_NUM; i++)]: every branch of the body returns. *)
Definition GetParam (param_addr : Z) : option (Z * list Z) :=
  let body (i : Z) :=
    let '(r, buf) := StorageReadLba (u32 (param_addr + i * PARAMETER_OFFSET)) (MAX_LOADER_PARAM ≫ 9) in
    if r =? 0 then
      c ← CheckParam buf;
      if c =? 0 then Some (0, buf) else Some (-1, buf)
    else Some (-2, buf) in
  match PARAMETER_NUM with
  | O => Some (-3, [])
  | S _ => body 0
  end.

(** The result and the new [gBootInfo]. *)
Definition load_disk_partitions (gBootInfo : BootInfo) : option (Z * BootInfo) :=
  '(r, buf) ← GetParam 0;
  if r =? 0 then
    '(info, _) ← ParseParam gBootInfo (param_text buf) (param_length buf);
    if Z.of_nat CONFIG_MAX_PARTITIONS <? num_parts (cmd_mtd info) then Some (-1, info) else Some (0, info)
  else Some (-1, gBootInfo).

End medium.

(** The partition, or [None] inside for NULL. *)
Definition get_disk_partition (gBootInfo : BootInfo) (name : list Z) : option (option disk_partition) :=
  part_index ← find_mtd_part (cmd_mtd gBootInfo) name;
  if part_index <? 0 then Some None
  else p ← aget (parts (cmd_mtd gBootInfo)) part_index; Some (Some p).

(** ** Arrays and strings *)

Lemma array_str_app s rest : Forall char_ok s -> array_str (s ++ 0 :: rest) = Some s.
Proof.
  intros Hs. induction Hs as [|c s Hc Hs IH]; [done|]. cbn [app array_str].
  destruct (Z.eqb_spec c 0) as [->|_]; [unfold char_ok in Hc; lia|]. by rewrite IH.
Qed.

Lemma put_chars_name n :
  Forall char_ok n -> (length n < PART_NAME)%nat ->
  ∃ a, put_chars (replicate PART_NAME 0) n = Some a /\ array_str a = Some n.
Proof.
  intros Hn Hl. unfold put_chars. rewrite length_replicate, (proj2 (Nat.leb_le _ _)) by lia.
  eexists. split; [done|]. rewrite drop_replicate.
  destruct (PART_NAME - length n)%nat as [|k] eqn:E; [lia|]. by apply array_str_app.
Qed.

Lemma prints_s s : prints (text "%s") [VStr (Some s)] s [].
Proof. apply (prints_directive [115] _ _ _ []). rewrite <-(string_plain s 0) at 2. done. Qed.

Lemma placed_str s buf :
  Forall char_ok s -> (length s < 32)%nat -> length buf = 32%nat ->
  array_str (placed 32 s buf) = Some s /\ length (placed 32 s buf) = 32%nat.
Proof.
  intros Hs Hl Hb. unfold placed. cbn [Z.eqb]. rewrite take_ge, Nat.min_r by lia. split.
  - by apply array_str_app.
  - rewrite length_app. cbn [length]. rewrite length_drop. lia.
Qed.

Lemma snprintf_str s buf :
  Forall char_ok s -> (length s < 32)%nat -> length buf = 32%nat ->
  ∃ r buf', snprintf 0 buf 32 (text "%s") [VStr (Some s)] = Some (r, buf', [])
    /\ array_str buf' = Some s /\ length buf' = 32%nat.
Proof.
  intros Hs Hl Hb. pose proof (prints_s s 0 buf 32) as H. unfold snprintf. rewrite H by lia.
  eexists _, _. split; [done|]. by apply placed_str.
Qed.

Lemma after_app p s : after p (p ++ s) = Some s.
Proof. induction p as [|c p IH]; cbn [after app]; [done|]. by rewrite Z.eqb_refl. Qed.

Lemma cut_app c a s : c ∉ a -> cut c (a ++ c :: s) = Some (a, s).
Proof.
  induction a as [|x a IH]; intros Hn; cbn [cut app]; [by rewrite Z.eqb_refl|].
  apply not_elem_of_cons in Hn as [Hx Hn]. rewrite (proj2 (Z.eqb_neq x c)) by done. by rewrite IH.
Qed.

(** ** One entry of [mtdparts] *)

(** What an entry says: size, offset (in sectors) and name. *)
Record part_spec := Spec { p_size : Z; p_off : Z; p_name : list Z }.

Definition name_ok (n : list Z) : Prop :=
  Forall char_ok n /\ 41 ∉ n /\ 32 ∉ n /\ (length n < PART_NAME)%nat.

(** ["-"] or a hexadecimal number, with any number of leading zeros. *)
Definition size_text (n : Z) (s : list Z) : Prop :=
  (s = [45] /\ n = SIZE_REMAINING) \/ ∃ h, s = 48 :: 120 :: h /\ numeral 97 16 n h.

(** [size@0xoffset(name)] *)
Definition part_text (p : part_spec) (s : list Z) : Prop :=
  0 <= p_size p < 2 ^ 32 /\ 0 <= p_off p < 2 ^ 32 /\ name_ok (p_name p) /\
  ∃ st h, size_text (p_size p) st /\ numeral 97 16 (p_off p) h
    /\ s = st ++ 64 :: 48 :: 120 :: h ++ 40 :: p_name p ++ [41].

(** The table entry that it becomes. *)
Definition stored_part (p : part_spec) (e : disk_partition) : Prop :=
  start e = p_off p /\ psize e = p_size p /\ blksz e = RK_BLK_SIZE
  /\ array_str (pname e) = Some (p_name p) /\ array_str (ptype e) = Some (text "raw").

Definition part_ok (e : disk_partition) : Prop := length (pname e) = 32%nat /\ length (ptype e) = 32%nat.

Definition mtd_ok (m : cmdline_mtd_partition) : Prop :=
  length (mtd_id m) = MAX_MTDID /\ length (parts m) = CONFIG_MAX_PARTITIONS /\ Forall part_ok (parts m).

Lemma memparse_hex n h c rest :
  0 <= n < 2 ^ 32 -> numeral 97 16 n h -> c = 64 \/ c = 40 ->
  memparse (48 :: 120 :: h ++ c :: rest) = (n, c :: rest).
Proof.
  intros Hn Hh Hc. unfold memparse.
  change (simple_strtoull (48 :: 120 :: h ++ c :: rest) 0) with (simple_strtoul (48 :: 120 :: h ++ c :: rest) 0).
  rewrite (numeral_strtoul_hex 32 0 n); [|by auto|lia|by destruct Hc as [-> | ->]|done].
  change (ch (c :: rest)) with c. by destruct Hc as [-> | ->].
Qed.

Lemma get_size_text n st rest :
  0 <= n < 2 ^ 32 -> size_text n st -> get_size (st ++ 64 :: rest) = (n, 64 :: rest).
Proof.
  intros Hn [[-> ->]|(h & -> & Hh)]; [done|]. unfold get_size. cbn [app].
  change (ch (48 :: _) =? 45) with false. cbn iota.
  rewrite (memparse_hex n h) by auto. by rewrite u32_small by lia.
Qed.

Lemma get_offset_text n h rest :
  0 <= n < 2 ^ 32 -> numeral 97 16 n h ->
  get_offset (64 :: 48 :: 120 :: h ++ 40 :: rest) = (n, 40 :: rest).
Proof.
  intros Hn Hh. unfold get_offset. change (ch (64 :: _) =? 64) with true. cbn iota. cbn [tail].
  rewrite (memparse_hex n h) by auto. by rewrite u32_small by lia.
Qed.

Lemma get_name_text n rest i :
  name_ok n -> ∃ a, get_name (40 :: n ++ 41 :: rest) i = Some (Some (a, rest)) /\ array_str a = Some n.
Proof.
  intros (Hc & H41 & _ & Hl). unfold get_name. change (ch (40 :: _) =? 40) with true. cbn iota. cbn [tail].
  rewrite cut_app by done. destruct (put_chars_name n Hc Hl) as (a & -> & Ha). by exists a.
Qed.

(** What may follow an entry: nothing, or a comma and the next one. *)
Definition entry_end (rest : list Z) : Prop := rest = [] \/ ch rest = 44.

Lemma skip_options rest : entry_end rest -> skip_option "lk" (skip_option "ro" rest) = rest.
Proof. intros [-> | H]; [done|]. destruct rest as [|c rest]; [done|]. cbn in H. by rewrite H. Qed.

Lemma get_part_step n p s rest mtd :
  part_text p s -> entry_end rest -> mtd_ok mtd -> 0 <= num_parts mtd < Z.of_nat CONFIG_MAX_PARTITIONS ->
  ∃ e, stored_part p e /\ part_ok e /\
    let mtd' := Mtd (mtd_id mtd) (num_parts mtd + 1) (<[Z.to_nat (num_parts mtd) := e]> (parts mtd)) in
    get_part (S n) (s ++ rest) mtd
    = if (num_parts mtd' <? Z.of_nat CONFIG_MAX_PARTITIONS) && (ch rest =? 44)
      then '(_, m) ← get_part n (tail rest) mtd'; Some (1, m) else Some (1, mtd').
Proof.
  intros (Hs & Ho & Hn & st & h & Hst & Hh & ->) Hend (Hid & Hlen & Hall) Hnp.
  destruct (aget_is_Some (parts mtd) (num_parts mtd)) as [tp Htp]; [lia|].
  assert (part_ok tp) as [Hp1 Hp2].
  { apply aget_Some in Htp as [_ Htp]. by apply (Forall_lookup_1 _ _ _ _ Hall Htp). }
  pose proof Hn as (Hc & _ & _ & Hl).
  destruct (snprintf_str (p_name p) (pname tp)) as (r1 & pn & E1 & Hpn & Hpnl); [done|exact Hl|done|].
  destruct (snprintf_str (text "raw") (ptype tp)) as (r2 & pt & E2 & Hpt & Hptl); [by repeat constructor|cbn; lia|done|].
  exists (Part (p_off p) (p_size p) RK_BLK_SIZE pn pt (bootable tp)).
  split; [done|]. split; [done|]. cbn zeta. cbn [get_part num_parts].
  rewrite <-!app_assoc. cbn [app]. rewrite (get_size_text (p_size p)) by done.
  rewrite <-app_assoc. cbn [app]. rewrite <-app_assoc. cbn [app]. rewrite (get_offset_text (p_off p)) by done.
  destruct (get_name_text (p_name p) rest (num_parts mtd) Hn) as (a & -> & Ha). cbn [mbind option_bind].
  rewrite skip_options, Htp by done. cbn [mbind option_bind]. rewrite Ha. cbn [mbind option_bind].
  rewrite E1. cbn [mbind option_bind]. rewrite E2. cbn [mbind option_bind].
  rewrite aset_Some by lia. done.
Qed.

(** ** The whole table *)

Fixpoint commas (ss : list (list Z)) : list Z :=
  match ss with
  | [] => []
  | [s] => s
  | s :: ss => s ++ 44 :: commas ss
  end.

(** The entries of the table from index [i] on are those of [ps]. *)
Definition table_at (i : Z) (ps : list part_spec) (t : list disk_partition) : Prop :=
  ∀ (k : nat) p, ps !! k = Some p -> ∃ e, t !! (Z.to_nat i + k)%nat = Some e /\ stored_part p e.

Lemma get_part_table n ps ss mtd :
  Forall2 part_text ps ss -> ps <> [] -> (length ps <= n)%nat -> mtd_ok mtd ->
  0 <= num_parts mtd -> num_parts mtd + Z.of_nat (length ps) <= Z.of_nat CONFIG_MAX_PARTITIONS ->
  ∃ mtd', get_part n (commas ss) mtd = Some (1, mtd') /\ mtd_ok mtd' /\ mtd_id mtd' = mtd_id mtd
    /\ num_parts mtd' = num_parts mtd + Z.of_nat (length ps)
    /\ table_at (num_parts mtd) ps (parts mtd')
    /\ ∀ j, (j < Z.to_nat (num_parts mtd))%nat -> parts mtd' !! j = parts mtd !! j.
Proof.
  intros Hf. revert n mtd. induction Hf as [|p s ps ss Hp Hf IH]; intros n mtd Hne Hn Hok Hnp Hmax; [done|].
  destruct n as [|n]; cbn [length] in *; [lia|].
  pose proof Hok as (Hid & Hlen & Hall).
  assert (entry_end (match ss with [] => [] | _ => 44 :: commas ss end)) as Hend by (destruct ss; [by left|by right]).
  destruct (get_part_step n p s _ mtd Hp Hend Hok) as (e & He & Heok & Hstep); [lia|]. cbn zeta in Hstep.
  cbn [num_parts] in Hstep.
  assert (commas (s :: ss) = s ++ match ss with [] => [] | _ => 44 :: commas ss end) as ->
    by (destruct ss; [by rewrite app_nil_r|done]).
  rewrite Hstep. clear Hstep.
  set (m1 := Mtd _ _ _).
  assert (mtd_ok m1) as Hok1.
  { split_and!; [done|subst m1; cbn; by rewrite length_insert|]. by apply Forall_insert. }
  assert (parts m1 !! Z.to_nat (num_parts mtd) = Some e) as Hm1.
  { apply list_lookup_insert_eq. lia. }
  assert (∀ j, (j < Z.to_nat (num_parts mtd))%nat -> parts m1 !! j = parts mtd !! j) as Hkeep.
  { intros j Hj. apply list_lookup_insert_ne. lia. }
  destruct ps as [|p' ps].
  - apply Forall2_nil_inv_l in Hf as ->. change (ch [] =? 44) with false. rewrite andb_false_r.
    exists m1. split_and!; try done; try (subst m1; cbn; lia).
    intros [|k] q Hq; [|done]. injection Hq as <-. exists e. by rewrite Nat.add_0_r.
  - destruct ss as [|s' ss]; [by apply Forall2_nil_inv_r in Hf|]. cbn [length] in *.
    change (ch (44 :: commas (s' :: ss)) =? 44) with true.
    rewrite (proj2 (Z.ltb_lt _ _)) by lia. cbn [andb tail].
    destruct (IH n m1) as (m2 & -> & Hok2 & Hid2 & Hnp2 & Htab & Hkeep2); [done|lia|done|subst m1; cbn; lia..|].
    cbn [num_parts m1] in *. exists m2. cbn [mbind option_bind].
    split_and!; [done|done|done|lia| |].
    + intros [|k] q Hq; cbn [lookup list_lookup] in Hq.
      * injection Hq as <-. exists e. split; [|done]. rewrite Nat.add_0_r. rewrite Hkeep2 by lia. done.
      * destruct (Htab k q Hq) as (e' & He' & ?). exists e'. split; [|done]. rewrite <-He'. f_equal. lia.
    + intros j Hj. rewrite Hkeep2 by lia. by apply Hkeep.
Qed.

(** ** The command line *)

Definition word (w : list Z) : Prop := w <> [] /\ 32 ∉ w.

Fixpoint unwords (ws : list (list Z)) : list Z :=
  match ws with
  | [] => []
  | [w] => w
  | w :: ws => w ++ 32 :: unwords ws
  end.

Lemma tokens_from_word w cur s :
  32 ∉ w -> tokens_from cur (w ++ s) = tokens_from (reverse w ++ cur) s.
Proof.
  revert cur. induction w as [|c w IH]; intros cur Hw; [done|].
  apply not_elem_of_cons in Hw as [Hc Hw]. cbn [app tokens_from].
  rewrite (proj2 (Z.eqb_neq c 32)) by done. rewrite IH by done. by rewrite reverse_cons, <-app_assoc.
Qed.

Lemma tokens_unwords ws : Forall word ws -> tokens (unwords ws) = ws.
Proof.
  unfold tokens. intros Hws. induction Hws as [|w ws [Hne Hw] Hws IH]; [done|].
  assert (bool_decide (reverse w = []) = false) as Hr.
  { apply bool_decide_eq_false. intros E. apply Hne. by rewrite <-(reverse_involutive w), E. }
  destruct ws as [|w' ws]; cbn [unwords].
  - rewrite <-(app_nil_r w) at 1. rewrite tokens_from_word by done. rewrite app_nil_r.
    cbn [tokens_from]. by rewrite Hr, reverse_involutive.
  - rewrite tokens_from_word by done. rewrite app_nil_r. cbn [tokens_from].
    change (32 =? 32) with true. cbn iota. rewrite Hr, reverse_involutive. cbn [app]. f_equal. apply IH.
Qed.

Lemma first_after_app p ws1 w ws2 s :
  Forall (λ w, after p w = None) ws1 -> after p w = Some s -> first_after p (ws1 ++ w :: ws2) = Some s.
Proof. intros H1 H2. induction H1 as [|x ws1 Hx _ IH]; cbn [app first_after]; [by rewrite H2|]. by rewrite Hx. Qed.

(** The word that describes the partitions [ps] of the device [mid]. *)
Definition mtd_word (mid : list Z) (ss : list (list Z)) : list Z :=
  text "mtdparts=" ++ mid ++ 58 :: commas ss.

Lemma bind_ret {A B} (a : A) (f : A -> option B) : Some a ≫= f = f a.
Proof. done. Qed.

Lemma mtdpart_parse_words ws1 ws2 mid ss mtd a :
  Forall word (ws1 ++ mtd_word mid ss :: ws2) -> Forall (λ w, after (text "mtdparts=") w = None) ws1 ->
  58 ∉ mid -> put_chars (mtd_id mtd) mid = Some a ->
  mtdpart_parse (unwords (ws1 ++ mtd_word mid ss :: ws2)) mtd
  = ('(_, m) ← get_part CONFIG_MAX_PARTITIONS (commas ss) (Mtd a (num_parts mtd) (parts mtd)); Some (1, m)).
Proof.
  intros Hws H1 Hmid Ha. unfold mtdpart_parse. rewrite tokens_unwords by exact Hws.
  rewrite (first_after_app _ ws1 (mtd_word mid ss) ws2 (mid ++ 58 :: commas ss) H1 (after_app _ _)).
  rewrite cut_app by exact Hmid. rewrite Ha, bind_ret. reflexivity.
Qed.

Lemma mtdpart_parse_table ws1 ws2 mid ps ss mtd :
  Forall word (ws1 ++ mtd_word mid ss :: ws2) -> Forall (λ w, after (text "mtdparts=") w = None) ws1 ->
  58 ∉ mid -> (length mid <= MAX_MTDID)%nat ->
  Forall2 part_text ps ss -> ps <> [] -> (length ps <= CONFIG_MAX_PARTITIONS)%nat ->
  mtd_ok mtd -> num_parts mtd = 0 ->
  ∃ mtd', mtdpart_parse (unwords (ws1 ++ mtd_word mid ss :: ws2)) mtd = Some (1, mtd')
    /\ mtd_ok mtd' /\ num_parts mtd' = Z.of_nat (length ps) /\ table_at 0 ps (parts mtd').
Proof.
  intros Hws H1 Hmid Hml Hf Hne Hlen Hok Hnp. pose proof Hok as (Hid & Hpl & Hall).
  set (a := mid ++ drop (length mid) (mtd_id mtd)).
  assert (put_chars (mtd_id mtd) mid = Some a) as Ha.
  { unfold put_chars. by rewrite (proj2 (Nat.leb_le _ _)) by lia. }
  assert (mtd_ok (Mtd a 0 (parts mtd))) as Hok'.
  { split_and!; [|exact Hpl|exact Hall]. subst a. cbn [mtd_id]. rewrite length_app, length_drop. lia. }
  rewrite (mtdpart_parse_words ws1 ws2 mid ss mtd a Hws H1 Hmid Ha), Hnp. clear Ha.
  destruct (get_part_table CONFIG_MAX_PARTITIONS ps ss (Mtd a 0 (parts mtd)) Hf Hne Hlen Hok')
    as (m & Hm & Hokm & _ & Hn & Ht & _); [cbn [num_parts]; lia..|].
  exists m. rewrite Hm, bind_ret. split; [reflexivity|]. split; [exact Hokm|]. split; [exact Hn|exact Ht].
Qed.

(** ** Finding a partition *)

Lemma find_loop_spec t ps (n : nat) i name (k : nat) p :
  (∀ (k : nat) p, ps !! k = Some p -> ∃ e, t !! k = Some e /\ stored_part p e) ->
  Forall (λ p, Forall char_ok (p_name p)) ps -> length ps = n -> Forall char_ok name ->
  ps !! k = Some p -> p_name p = name -> (∀ j q, (j < k)%nat -> ps !! j = Some q -> p_name q <> name) ->
  find_loop t n i name = Some (i + Z.of_nat k).
Proof.
  intros Ht Hc <- Hname. revert t i k Ht. induction Hc as [|p0 ps Hp0 Hc IH]; intros t i k Ht Hk Hp Hfst; [done|].
  destruct (Ht 0%nat p0) as (e & He & Hst); [done|]. destruct t as [|e' t]; [done|]. cbn in He. injection He as ->.
  cbn [length find_loop]. destruct Hst as (_ & _ & _ & -> & _). cbn [mbind option_bind].
  destruct k as [|k].
  - cbn in Hk. injection Hk as ->. rewrite Hp. rewrite (proj2 (Z.eqb_eq _ _)); [f_equal; lia|].
    by apply strcmp_list_zero.
  - rewrite (proj2 (Z.eqb_neq _ _)).
    2: { intros E. apply strcmp_list_zero in E; [|done..]. by apply (Hfst 0%nat p0); [lia|done|]. }
    rewrite (IH t (i + 1) k); [f_equal; lia| |done|done|].
    + intros k' q Hq. by apply (Ht (S k')).
    + intros j q Hj Hq. apply (Hfst (S j)); [lia|done].
Qed.

Lemma find_loop_total t ps (n : nat) i name :
  (∀ (k : nat) p, ps !! k = Some p -> ∃ e, t !! k = Some e /\ stored_part p e) -> length ps = n ->
  is_Some (find_loop t n i name).
Proof.
  intros Ht <-. revert t i Ht. induction ps as [|p0 ps IH]; intros t i Ht; [by exists (-1)|].
  destruct (Ht 0%nat p0) as (e & He & Hst); [done|]. destruct t as [|e' t]; [done|]. cbn in He. injection He as ->.
  cbn [length find_loop]. destruct Hst as (_ & _ & _ & -> & _). cbn [mbind option_bind].
  case_test; [by exists i|]. apply IH. intros k q Hq. by apply (Ht (S k)).
Qed.

(** The sizes of the arrays of [gBootInfo]. *)
Definition info_ok (info : BootInfo) : Prop := mtd_ok (cmd_mtd info).

Lemma table_shift ps t :
  table_at 0 ps t -> ∀ (k : nat) p, ps !! k = Some p -> ∃ e, t !! k = Some e /\ stored_part p e.
Proof. intros H k p Hk. exact (H k p Hk). Qed.

Lemma part_names_ok ps ss : Forall2 part_text ps ss -> Forall (λ p, Forall char_ok (p_name p)) ps.
Proof. intros Hf. induction Hf as [|p s ps ss Hp _ IH]; constructor; [|done]. by destruct Hp as (_ & _ & [? _] & _). Qed.

Lemma get_rdInfo_mtd info : cmd_mtd (get_rdInfo info) = cmd_mtd info.
Proof. unfold get_rdInfo. destruct (first_after _ _); [|done]. by destruct (simple_strtoull l 0). Qed.

(** Once the table is filled, [parse_cmdline] only looks for partitions. *)
Lemma parse_cmdline_mtd info a mtd ps :
  aset (mtd_id (cmd_mtd info)) 0 0 = Some a ->
  mtdpart_parse (cmd_line info) (Mtd a 0 (parts (cmd_mtd info))) = Some (1, mtd) ->
  num_parts mtd = Z.of_nat (length ps) -> table_at 0 ps (parts mtd) ->
  ∃ r info', parse_cmdline info = Some (r, info') /\ cmd_mtd info' = mtd.
Proof.
  intros Ha Hm Hn Ht. unfold parse_cmdline. rewrite Ha, bind_ret. cbn zeta. rewrite Hm, bind_ret. cbn [Z.eqb].
  assert (∀ name, is_Some (find_mtd_part mtd name)) as Hfind.
  { intros name. unfold find_mtd_part. rewrite Hn, Nat2Z.id.
    apply find_loop_total with ps; [by apply table_shift|done]. }
  destruct (Hfind (text "misc")) as [i1 ->], (Hfind (text "kernel")) as [i2 ->], (Hfind (text "boot")) as [i3 ->],
    (Hfind (text "recovery")) as [i4 ->], (Hfind (text "system")) as [i5 ->], (Hfind (text "backup")) as [i6 ->].
  cbn [mbind option_bind]. case_test; eexists _, _; (split; [done|]); by rewrite get_rdInfo_mtd.
Qed.

(** C10.  Round trip of the partition table: when a command line contains the word
    [mtdparts=id:size@offset(name),...] for a list of at most 32 partitions,
    [parse_cmdline] fills the table with exactly these partitions, and
    [get_disk_partition] finds the first partition of each name with its offset
    and size. *)
Theorem partition_table_roundtrip info ws1 ws2 mid ps ss :
  info_ok info ->
  cmd_line info = unwords (ws1 ++ mtd_word mid ss :: ws2) ->
  Forall word (ws1 ++ mtd_word mid ss :: ws2) -> Forall (λ w, after (text "mtdparts=") w = None) ws1 ->
  58 ∉ mid -> (length mid <= MAX_MTDID)%nat ->
  Forall2 part_text ps ss -> ps <> [] -> (length ps <= CONFIG_MAX_PARTITIONS)%nat ->
  ∃ r info', parse_cmdline info = Some (r, info')
    /\ num_parts (cmd_mtd info') = Z.of_nat (length ps)
    /\ ∀ (k : nat) p, ps !! k = Some p -> (∀ j q, (j < k)%nat -> ps !! j = Some q -> p_name q <> p_name p) ->
       ∃ e, get_disk_partition info' (p_name p) = Some (Some e) /\ stored_part p e.
Proof.
  intros (Hid & Hlen & Hall) Hcmd Hws H1 Hmid Hml Hf Hne Hmax.
  pose proof (aset_Some (mtd_id (cmd_mtd info)) 0 0) as Ha. rewrite Hid in Ha.
  specialize (Ha ltac:(unfold MAX_MTDID; lia)). set (a := <[Z.to_nat 0:=0]> _) in Ha.
  destruct (mtdpart_parse_table ws1 ws2 mid ps ss (Mtd a 0 (parts (cmd_mtd info))))
    as (mtd & Hm & Hok & Hn & Ht); [exact Hws|exact H1|exact Hmid|exact Hml|exact Hf|exact Hne|exact Hmax| |reflexivity|].
  { split_and!; [|exact Hlen|exact Hall]. subst a. cbn [mtd_id]. by rewrite length_insert. }
  rewrite <-Hcmd in Hm.
  destruct (parse_cmdline_mtd info a mtd ps Ha Hm Hn Ht) as (r & info' & Hp & Hc).
  exists r, info'. split; [exact Hp|]. rewrite Hc. split; [exact Hn|].
  intros k p Hk Hfst. destruct (table_shift ps _ Ht k p Hk) as (e & He & Hst). exists e. split; [|exact Hst].
  unfold get_disk_partition, find_mtd_part. rewrite Hc, Hn, Nat2Z.id.
  pose proof (part_names_ok ps ss Hf) as Hnames.
  assert (Forall char_ok (p_name p)) as Hnm by (by apply (Forall_lookup_1 _ _ _ _ Hnames Hk)).
  rewrite (find_loop_spec (parts mtd) ps (length ps) 0 (p_name p) k p) by (try done; by apply table_shift).
  rewrite bind_ret, Z.add_0_l, (proj2 (Z.ltb_ge (Z.of_nat k) 0)) by lia. rewrite aget_nat, He. done.
Qed.

(** ** The lines of the text *)

Definition line_ok (l : list Z) : Prop :=
  10 ∉ l /\ 13 ∉ l /\ 0 ∉ l /\ Z.of_nat (length l) < MAX_LINE_CHAR.

Fixpoint unlines (ls : list (list Z)) : list Z :=
  match ls with [] => [] | l :: ls => l ++ 10 :: unlines ls end.

(** [ParseLine] on one line after the other, without the empty lines and the
    comments. *)
Fixpoint parse_lines (info : BootInfo) (ls : list (list Z)) : option (BootInfo * list Z) :=
  match ls with
  | [] => Some (info, [])
  | l :: ls =>
      if (ch l =? 0) || (ch l =? 35) then parse_lines info ls
      else
        '(info, calls) ← ParseLine info l;
        '(info, calls') ← parse_lines info ls;
        Some (info, calls ++ calls')
  end.

Lemma getline_line l rest (len : nat) :
  10 ∉ l -> 13 ∉ l -> 0 ∉ l -> (length l < len)%nat -> getline (l ++ 10 :: rest) len = Some (l, length l).
Proof.
  revert len. induction l as [|c l IH]; intros [|len] H10 H13 H0 Hlen; cbn [length] in Hlen; [lia|done|lia|].
  apply not_elem_of_cons in H10 as [? ?], H13 as [? ?], H0 as [? ?]. cbn [app getline].
  rewrite !(proj2 (Z.eqb_neq c _)) by done. cbn [orb]. rewrite IH by (done || lia). done.
Qed.

Lemma param_loop_lines fuel info ls rest :
  Forall line_ok ls -> (length (unlines ls) < fuel)%nat ->
  param_loop fuel info (unlines ls ++ rest) (Z.of_nat (length (unlines ls))) = parse_lines info ls.
Proof.
  intros Hls. revert fuel info. induction Hls as [|l ls (H10 & H13 & H0 & Hl) Hls IH]; intros [|fuel] info Hf;
    [lia|done|lia|].
  cbn [param_loop unlines parse_lines] in *. rewrite length_app in *. cbn [length] in *.
  rewrite (proj2 (Z.ltb_lt 0 _)) by lia. rewrite Nat2Z.id, <-app_assoc. cbn [app].
  rewrite (getline_line l _ _ H10 H13 H0) by lia. cbn [mbind option_bind].
  rewrite (proj2 (Z.leb_gt _ _)) by done.
  replace (drop (S (length l)) (l ++ 10 :: unlines ls ++ rest)) with (unlines ls ++ rest).
  2: { rewrite drop_app, (drop_ge l) by lia. by replace (S (length l) - length l)%nat with 1%nat by lia. }
  replace (Z.of_nat (length l + S (length (unlines ls))) - (Z.of_nat (length l) + 1))
    with (Z.of_nat (length (unlines ls))) by lia.
  destruct ((ch l =? 0) || (ch l =? 35)); cbn [mbind option_bind].
  - rewrite IH by lia. by destruct (parse_lines info ls) as [[??]|].
  - destruct (ParseLine info l) as [[info' calls]|]; cbn [mbind option_bind]; [|done]. by rewrite IH by lia.
Qed.

(** A block: tag, length, text and checksum. *)
Definition block (t : list Z) : list Z :=
  le_bytes4 PARM_TAG ++ le_bytes4 (Z.of_nat (length t)) ++ t ++ le_bytes4 (crc_msb 32 poly_rk 0 t).

Lemma block_fields t rest :
  Z.of_nat (length t) < 2 ^ 32 ->
  load32 (block t ++ rest) = PARM_TAG /\ param_length (block t ++ rest) = Z.of_nat (length t)
  /\ param_text (block t ++ rest) = t ++ le_bytes4 (crc_msb 32 poly_rk 0 t) ++ rest.
Proof.
  intros Hl. unfold block. rewrite <-!app_assoc. split_and!.
  - done.
  - unfold param_length, load32. rewrite (drop_app_length' (le_bytes4 PARM_TAG)) by done.
    rewrite take_app_length' by done. apply le_value_bytes. split; lia.
  - unfold param_text. change 8%nat with (4 + 4)%nat.
    rewrite <-drop_drop, (drop_app_length' (le_bytes4 PARM_TAG)) by done. by rewrite drop_app_length' by done.
Qed.

Lemma CheckParam_block t rest :
  Forall byte t -> t <> [] -> Z.of_nat (length t) <= MAX_LOADER_PARAM - 12 ->
  CheckParam (block t ++ rest) = Some (if crc_msb 32 poly_rk 0 t =? 0 then -4 else 0).
Proof.
  intros Hb Hne Hl. unfold MAX_LOADER_PARAM in *.
  destruct (block_fields t rest) as (Ht & Hlen & Htx); [lia|].
  unfold CheckParam. rewrite Ht, Hlen, Htx. rewrite (proj2 (Z.ltb_ge _ _)) by (unfold MAX_LOADER_PARAM; lia).
  rewrite app_assoc, take_app_length' by (rewrite length_app; cbn [length le_bytes4]; lia).
  unfold CRC_32CheckBuffer. rewrite length_app. change (length (le_bytes4 _)) with 4%nat.
  assert (0 < length t)%nat by (destruct t; [done|cbn; lia]).
  rewrite (proj2 (Nat.leb_gt _ 4)) by lia. replace (length t + 4 - 4)%nat with (length t) by lia.
  rewrite take_app_length, drop_app_length, le_value_bytes by (by apply crc_msb_range).
  rewrite crc32_rk_spec by done. cbn [mbind option_bind]. rewrite !Z.eqb_refl. cbn [negb]. by case_test.
Qed.

(** ** The invariant of [gBootInfo] *)

Definition mtd_inv (m : cmdline_mtd_partition) : Prop :=
  mtd_ok m /\ 0 <= num_parts m <= Z.of_nat CONFIG_MAX_PARTITIONS.

Lemma snprintf_length s buf r buf' ns :
  length buf = 32%nat -> snprintf 0 buf 32 (text "%s") [VStr (Some s)] = Some (r, buf', ns) -> length buf' = 32%nat.
Proof.
  intros Hb H. pose proof (prints_s s 0 buf 32) as Hp. unfold snprintf in H. rewrite Hp in H by lia.
  injection H as _ <- _. unfold placed. cbn [Z.eqb]. rewrite length_app, length_take. cbn [length]. rewrite length_drop.
  change (Z.to_nat 32) with 32%nat. lia.
Qed.

Lemma get_part_inv n s m r m' :
  mtd_inv m -> get_part n s m = Some (r, m') -> mtd_inv m'.
Proof.
  revert s m r m'. induction n as [|n IH]; intros s m r m' Hinv H; [done|]. cbn [get_part] in H.
  destruct (get_size s) as [size s1], (get_offset s1) as [off s2].
  bind_inv H. destruct o as [[name s3]|]; [|by injection H as _ <-].
  bind_inv H. bind_inv H. bind_inv H. destruct p as [[r1 pn] n1]. bind_inv H. destruct p as [[r2 pt] n2]. bind_inv H.
  destruct Hinv as ((Hid & Hlen & Hall) & Hnp).
  apply aget_Some in Hb0 as [Hge Hd]. pose proof (Forall_lookup_1 _ _ _ _ Hall Hd) as [Hp1 Hp2].
  assert (Z.to_nat (num_parts m) < CONFIG_MAX_PARTITIONS)%nat as Hlt.
  { rewrite <-Hlen. by apply lookup_lt_is_Some_1. }
  apply snprintf_length in Hb2; [|done]. apply snprintf_length in Hb3; [|done].
  rewrite aset_Some in Hb4 by lia. injection Hb4 as <-.
  match type of H with context [Mtd ?a ?b ?c] => set (m1 := Mtd a b c) in H end.
  assert (mtd_inv m1) as Hinv1.
  { split; [split_and!; [done|cbn; by rewrite length_insert|by apply Forall_insert]|subst m1; cbn; lia]. }
  case_test_in H; [|by injection H as _ <-].
  bind_inv H. destruct p as [r3 m3]. injection H as _ <-. by eapply IH.
Qed.

Lemma mtdpart_parse_inv s m r m' : mtd_inv m -> mtdpart_parse s m = Some (r, m') -> mtd_inv m'.
Proof.
  intros Hinv H. unfold mtdpart_parse in H. destruct (first_after _ _) as [s1|]; [|by injection H as _ <-].
  destruct (cut 58 s1) as [[mid s2]|]; [|by injection H as _ <-].
  apply bind_Some in H as (a & Hb & H). apply bind_Some in H as ([r1 m1] & Hb0 & H). injection H as _ <-.
  apply get_part_inv in Hb0; [exact Hb0|]. destruct Hinv as ((Hid & Hlen & Hall) & Hnp).
  split; [|exact Hnp]. split; [|split; [exact Hlen|exact Hall]]. cbn [mtd_id]. unfold put_chars in Hb.
  destruct (Nat.leb_spec (length mid) (length (mtd_id m))); [|discriminate Hb]. injection Hb as <-.
  rewrite length_app, length_drop. lia.
Qed.

Lemma parse_cmdline_inv info r info' :
  mtd_inv (cmd_mtd info) -> parse_cmdline info = Some (r, info') -> mtd_inv (cmd_mtd info').
Proof.
  intros ((Hid & Hlen & Hall) & Hnp) H. unfold parse_cmdline in H. bind_inv H. bind_inv H. destruct p as [r1 m].
  assert (mtd_inv m) as Hm.
  { eapply mtdpart_parse_inv; [|exact Hb0]. split; [|cbn; lia].
    split_and!; [|done|done]. cbn. by rewrite (aset_length _ _ _ _ Hb). }
  case_test_in H; [by injection H as _ <-|]. do 6 bind_inv H.
  case_test_in H; injection H as _ <-; by rewrite get_rdInfo_mtd.
Qed.

Lemma ParseLine_inv info l info' calls :
  mtd_inv (cmd_mtd info) -> ParseLine info l = Some (info', calls) -> mtd_inv (cmd_mtd info').
Proof.
  intros Hinv H. unfold ParseLine in H. cbn zeta in H.
  repeat match type of H with
  | match ?x with Some _ => _ | None => _ end = Some (info', calls) => destruct x
  end; try (by injection H as <- _).
  bind_inv H. destruct p as [r1 i1]. injection H as <- _. eapply parse_cmdline_inv; [|exact Hb]. done.
Qed.

Lemma parse_lines_inv ls info info' calls :
  mtd_inv (cmd_mtd info) -> parse_lines info ls = Some (info', calls) -> mtd_inv (cmd_mtd info').
Proof.
  revert info info' calls. induction ls as [|l ls IH]; intros info info' calls Hinv H; cbn [parse_lines] in H.
  - by injection H as <- _.
  - case_test_in H; [by eapply IH|]. bind_inv H. destruct p as [i1 c1]. bind_inv H. destruct p as [i2 c2].
    injection H as <- _. eapply IH; [|exact Hb0]. by eapply ParseLine_inv.
Qed.

(** ** Loading *)

(** Loading a valid block. *)
Lemma load_disk_partitions_block read gBootInfo ls rest :
  let t := unlines ls in
  Forall line_ok ls -> Forall byte t -> ls <> [] -> Z.of_nat (length t) <= MAX_LOADER_PARAM - 12 ->
  crc_msb 32 poly_rk 0 t <> 0 -> read 0 128 = (0, block t ++ rest) -> mtd_inv (cmd_mtd gBootInfo) ->
  load_disk_partitions (Some read) gBootInfo = ('(info, _) ← parse_lines gBootInfo ls; Some (0, info)).
Proof.
  intros t Hls Hb Hne Hlen Hcrc Hread Hinv. unfold load_disk_partitions, GetParam. cbn [PARAMETER_NUM].
  cbn zeta. change (u32 (0 + 0 * PARAMETER_OFFSET)) with 0. change (MAX_LOADER_PARAM ≫ 9) with 128.
  cbn [StorageReadLba]. rewrite Hread. cbn [Z.eqb].
  assert (t <> []) as Htne by (subst t; destruct ls as [|[|??] ?]; done).
  rewrite CheckParam_block by assumption. rewrite (proj2 (Z.eqb_neq _ 0)) by exact Hcrc. rewrite bind_ret. cbn [Z.eqb].
  rewrite bind_ret. cbn [Z.eqb]. unfold MAX_LOADER_PARAM in Hlen.
  destruct (block_fields t rest) as (_ & -> & ->); [lia|]. unfold ParseParam.
  assert (s32 (Z.of_nat (length t)) = Z.of_nat (length t)) as ->.
  { unfold s32, swrap. change (32 - 1) with 31. rewrite Z.mod_small by lia. lia. }
  rewrite Nat2Z.id. unfold t. rewrite param_loop_lines by (done || lia).
  destruct (parse_lines gBootInfo ls) as [[info calls]|] eqn:E; [|done]. rewrite !bind_ret.
  apply parse_lines_inv in E as [_ Hnp]; [|exact Hinv]. by rewrite (proj2 (Z.ltb_ge _ _)) by lia.
Qed.

(** C11.  Loading a valid block does, for a text of lines, what [ParseLine] does
    on its lines in order, empty lines and comments left out: the loop over the
    text ends, no line is lost or cut, and the table of partitions never
    exceeds its 32 entries, so that the result is 0. *)
Theorem load_disk_partitions_lines read gBootInfo ls rest :
  let t := unlines ls in
  Forall line_ok ls -> Forall byte t -> ls <> [] -> Z.of_nat (length t) <= MAX_LOADER_PARAM - 12 ->
  crc_msb 32 poly_rk 0 t <> 0 -> read 0 128 = (0, block t ++ rest) -> mtd_inv (cmd_mtd gBootInfo) ->
  load_disk_partitions (Some read) gBootInfo = ('(info, _) ← parse_lines gBootInfo ls; Some (0, info)).
Proof. intros t. apply load_disk_partitions_block. Qed.

(** The backup copies of the parameter block are never read: when the first
    copy is read but does not pass the check, loading fails and changes nothing,
    even when all the other copies are valid. *)
Theorem GetParam_no_backup read gBootInfo bad good c :
  read 0 128 = (0, bad) -> CheckParam bad = Some c -> c <> 0 ->
  (∀ i, 1 <= i < Z.of_nat PARAMETER_NUM -> read (i * PARAMETER_OFFSET) 128 = (0, good)) ->
  CheckParam good = Some 0 ->
  GetParam (Some read) 0 = Some (-1, bad) /\ load_disk_partitions (Some read) gBootInfo = Some (-1, gBootInfo).
Proof.
  intros Hread Hbad Hc _ _. assert (GetParam (Some read) 0 = Some (-1, bad)) as HG.
  { unfold GetParam. cbn [PARAMETER_NUM]. cbn zeta. change (u32 (0 + 0 * PARAMETER_OFFSET)) with 0.
    change (MAX_LOADER_PARAM ≫ 9) with 128. cbn [StorageReadLba]. rewrite Hread. cbn [Z.eqb].
    rewrite Hbad, bind_ret. by rewrite (proj2 (Z.eqb_neq c 0)). }
  split; [exact HG|]. unfold load_disk_partitions. by rewrite HG.
Qed.

(** ** Examples *)

#[export] Instance word_dec w : Decision (word w).
Proof. unfold word. apply _. Defined.

#[export] Instance line_ok_dec l : Decision (line_ok l).
Proof. unfold line_ok. apply _. Defined.

#[export] Instance byte_dec b : Decision (byte b).
Proof. unfold byte. apply _. Defined.

(** A decidable closed fact, by evaluation. *)
Ltac by_decide := refine (bool_decide_unpack _ _); vm_compute; exact I.

Definition ex_part : disk_partition := Part 0 0 0 (replicate 32 0) (replicate 32 0) 0.
Definition ex_mtd : cmdline_mtd_partition := Mtd (replicate 64 0) 0 (replicate 32 ex_part).
Definition ex_info (cmd : list Z) : BootInfo :=
  Boot 0 0 0 0 0 0 0 0 0 0 0 0 0 cmd ex_mtd 0 0 0 0 0 0 0 [] [].

Lemma ex_mtd_ok : mtd_ok ex_mtd.
Proof. split_and!; [done|done|]. apply Forall_replicate. done. Qed.

(** [0x2000@0x4000(trust)] and [-@0x6000(user)] *)
Definition ex_specs : list part_spec := [Spec 0x2000 0x4000 (text "trust"); Spec SIZE_REMAINING 0x6000 (text "user")].
Definition ex_texts : list (list Z) := [text "0x2000@0x4000(trust)"; text "-@0x6000(user)"].

Lemma ex_name_ok n : bool_decide (Forall (λ c, 0 < c < 256 /\ c <> 41 /\ c <> 32) n /\ (length n < 32)%nat) = true -> name_ok n.
Proof.
  rewrite bool_decide_eq_true, Forall_forall. intros [H Hl]. split_and!; [|intros E..|done].
  - apply Forall_forall. intros c Hc. by apply H.
  - by destruct (H _ E) as (_ & ? & _).
  - by destruct (H _ E) as (_ & _ & ?).
Qed.

Lemma ex_hex n ds :
  bool_decide (ds <> [] /\ Forall (λ d, 0 <= d < 16) ds /\ of_digits 16 ds = n) = true ->
  numeral 97 16 n (map (digit_char 97) ds).
Proof. rewrite bool_decide_eq_true. intros (? & ? & ?). by exists ds. Qed.

Lemma ex_part_texts : Forall2 part_text ex_specs ex_texts.
Proof.
  constructor; [|constructor; [|constructor]].
  - split_and!; [cbn; lia..|by apply ex_name_ok|]. eexists _, _. split_and!.
    + right. eexists. split; [reflexivity|]. by apply (ex_hex _ [2; 0; 0; 0]).
    + by apply (ex_hex _ [4; 0; 0; 0]).
    + done.
  - split_and!; [unfold SIZE_REMAINING; cbn; lia..|by apply ex_name_ok|]. eexists _, _. split_and!.
    + by left.
    + by apply (ex_hex _ [6; 0; 0; 0]).
    + done.
Qed.

Definition ex_words : list (list Z) := [text "console=ttyS2"] ++ mtd_word (text "rk29xxnand") ex_texts :: [text "rw"].

Lemma ex_words_ok : Forall word ex_words.
Proof. by_decide. Qed.

Lemma partition_table_roundtrip_witness :
  ∃ r info', parse_cmdline (ex_info (unwords ex_words)) = Some (r, info')
    /\ num_parts (cmd_mtd info') = Z.of_nat (length ex_specs)
    /\ ∀ (k : nat) p, ex_specs !! k = Some p -> (∀ j q, (j < k)%nat -> ex_specs !! j = Some q -> p_name q <> p_name p) ->
       ∃ e, get_disk_partition info' (p_name p) = Some (Some e) /\ stored_part p e.
Proof.
  apply (partition_table_roundtrip (ex_info (unwords ex_words)) [text "console=ttyS2"] [text "rw"]
    (text "rk29xxnand") ex_specs ex_texts).
  - exact ex_mtd_ok.
  - reflexivity.
  - exact ex_words_ok.
  - by constructor.
  - by_decide.
  - cbn. unfold MAX_MTDID. lia.
  - exact ex_part_texts.
  - done.
  - cbn. unfold CONFIG_MAX_PARTITIONS. lia.
Defined.

Definition ex_lines : list (list Z) := [text "FIRMWARE_VER: 8.1"; text "# a comment"; text "MACHINE: 3399"].

Definition ex_read (lba n : Z) : Z * list Z := (0, block (unlines ex_lines) ++ []).

Lemma load_disk_partitions_lines_witness :
  load_disk_partitions (Some ex_read) (ex_info [])
  = ('(info, _) ← parse_lines (ex_info []) ex_lines; Some (0, info)).
Proof.
  apply (load_disk_partitions_lines ex_read (ex_info []) ex_lines []).
  - by_decide.
  - by_decide.
  - discriminate.
  - vm_compute. discriminate.
  - vm_compute. discriminate.
  - reflexivity.
  - split; [exact ex_mtd_ok|]. vm_compute. split; discriminate.
Defined.

Definition ex_bad_first (lba n : Z) : Z * list Z :=
  if lba =? 0 then (0, replicate 16 255) else (0, block (text "MACHINE: 1")).

Lemma GetParam_no_backup_witness :
  GetParam (Some ex_bad_first) 0 = Some (-1, replicate 16 255)
  /\ load_disk_partitions (Some ex_bad_first) (ex_info []) = Some (-1, ex_info []).
Proof.
  apply (GetParam_no_backup ex_bad_first (ex_info []) (replicate 16 255) (block (text "MACHINE: 1")) (-2)).
  - reflexivity.
  - vm_compute. reflexivity.
  - discriminate.
  - intros i Hi. unfold ex_bad_first. rewrite (proj2 (Z.eqb_neq _ 0)); [done|]. unfold PARAMETER_OFFSET. lia.
  - vm_compute. reflexivity.
Defined.
