(* ===== verification/Bytes.v ===== *)
(** * Big-endian numbers in memory

    Shared by the code that reads device trees, keys and signatures. *)

From S2P Require Import Prelude Crc.

Definition word (w : Z) : Prop := 0 <= w < 2 ^ 32.

(** A big-endian word in memory and back. *)
Definition be32 (b : list Z) : Z := foldl (λ v x, v * 256 + x) 0 b.
Definition be_bytes4 (w : Z) : list Z :=
  [(w ≫ 24) mod 256; (w ≫ 16) mod 256; (w ≫ 8) mod 256; w mod 256].

Lemma be32_app b1 b2 : be32 (b1 ++ b2) = be32 b1 * 256 ^ Z.of_nat (length b2) + be32 b2.
Proof.
  unfold be32. rewrite foldl_app. generalize (foldl (λ v x, v * 256 + x) 0 b1). intros v.
  induction b2 as [|x b2 IH] using rev_ind; [cbn; lia|].
  rewrite !foldl_app. cbn [foldl]. rewrite IH, length_app, Nat2Z.inj_add, Z.pow_add_r by (cbn; lia).
  change (256 ^ Z.of_nat (length [x])) with 256. lia.
Qed.

Lemma be32_range b : Forall byte b -> 0 <= be32 b < 256 ^ Z.of_nat (length b).
Proof.
  intros H. induction b as [|x b IH] using rev_ind; [done|].
  apply Forall_app in H as [Hb Hx]. apply Forall_cons in Hx as [Hx _]. specialize (IH Hb). unfold byte in Hx.
  rewrite be32_app, length_app, Nat2Z.inj_add, Z.pow_add_r by (cbn; lia).
  change (256 ^ Z.of_nat (length [x])) with 256. change (be32 [x]) with (0 * 256 + x). lia.
Qed.

Lemma be32_inj a b : Forall byte a -> Forall byte b -> length a = length b -> be32 a = be32 b -> a = b.
Proof.
  revert b. induction a as [|x a IH] using rev_ind; intros b Ha Hb Hl He.
  - by destruct b.
  - destruct b as [|y b _] using rev_ind; [rewrite length_app in Hl; cbn in Hl; lia|].
    rewrite !length_app in Hl. cbn in Hl. apply Forall_app in Ha as [Ha Hx], Hb as [Hb Hy].
    apply Forall_cons in Hx as [Hx _], Hy as [Hy _]. unfold byte in Hx, Hy.
    rewrite !be32_app in He. change (256 ^ Z.of_nat (length [_])) with 256 in He.
    change (be32 [x]) with (0 * 256 + x) in He. change (be32 [y]) with (0 * 256 + y) in He.
    assert (be32 a = be32 b /\ x = y) as [He' ->] by lia. f_equal. apply IH; [done|done|lia|done].
Qed.

Lemma be_bytes4_spec w :
  word w -> Forall byte (be_bytes4 w) /\ length (be_bytes4 w) = 4%nat /\ be32 (be_bytes4 w) = w.
Proof.
  intros Hw. unfold word in Hw. split_and!; [|done|].
  - repeat constructor; unfold byte; apply Z.mod_pos_bound; lia.
  - unfold be_bytes4, be32. cbn [foldl]. rewrite !Z.shiftr_div_pow2 by lia. Z.to_euclidean_division_equations. lia.
Qed.

(** Deciding that a concrete list consists of bytes. *)
Lemma all_bytes b : forallb (λ x, (0 <=? x) && (x <? 256)) b = true -> Forall byte b.
Proof.
  intros H. apply Forall_forall. intros x Hx. rewrite forallb_forall in H. apply list_elem_of_In in Hx.
  apply H, andb_true_iff in Hx as [?%Z.leb_le ?%Z.ltb_lt]. done.
Qed.

Lemma all_words l : forallb (λ w, (0 <=? w) && (w <? 2 ^ 32)) l = true -> Forall word l.
Proof.
  intros H. apply Forall_forall. intros x Hx. rewrite forallb_forall in H. apply list_elem_of_In in Hx.
  apply H, andb_true_iff in Hx as [?%Z.leb_le ?%Z.ltb_lt]. done.
Qed.
