(* ===== verification/Rsa.v ===== *)
(** * Verification of RSA signatures ([lib/rsa/rsa-verify.c])

    The public operation is a Montgomery exponentiation on arrays of 32-bit
    words, the least significant first.  The arrays of a key all have
    [key->len] words, so that the loops up to [key->len] run over lists.
    Reading keys from a device tree and the search for a key are in
    [RsaVerify]. *)

From S2P Require Import Prelude Crc Bytes.

Definition EINVAL : Z := 22.
Definition EIO : Z := 5.
Definition EACCES : Z := 13.
Definition EBADF : Z := 9.
Definition EFAULT : Z := 14.
Definition ENOENT : Z := 2.
Definition RSA_MIN_KEY_BITS : Z := 2048.
Definition RSA_MAX_KEY_BITS : Z := 4096.
Definition RSA_MAX_SIG_BITS : Z := 4096.
Definition RSA_DEFAULT_PUBEXP : Z := 65537.

(** [len] is the length of [modulus] and of [rr]. *)
Record rsa_public_key := Key {
  n0inv : Z;
  modulus : list Z;
  rr : list Z;
  exponent : Z
}.

Definition key_len (key : rsa_public_key) : Z := Z.of_nat (length (modulus key)).

(** ** Multiplication *)

(** [acc += (uint64_t)num[i] - key->modulus[i]] on an [int64_t]. *)
Fixpoint subtract_words (acc : Z) (num ns : list Z) : list Z :=
  match num, ns with
  | w :: num, n :: ns =>
      let acc := s64 (u64 (acc + u64 (w - n))) in
      u32 acc :: subtract_words (acc ≫ 32) num ns
  | _, _ => []
  end.

Definition subtract_modulus (key : rsa_public_key) (num : list Z) : list Z :=
  subtract_words 0 num (modulus key).

(** The words from the most significant one down. *)
Fixpoint greater_equal_words (num ns : list Z) : bool :=
  match num, ns with
  | w :: num, n :: ns => if w <? n then false else if n <? w then true else greater_equal_words num ns
  | _, _ => true
  end.

Definition greater_equal_modulus (key : rsa_public_key) (num : list Z) : bool :=
  greater_equal_words (reverse num) (reverse (modulus key)).

(** The loop from [i = 1]: the words [result[i - 1]], [acc_a] and [acc_b]. *)
Fixpoint mul_add_loop (a d0 acc_a acc_b : Z) (b ns result : list Z) : list Z * Z * Z :=
  match b, ns, result with
  | bi :: b, ni :: ns, ri :: result =>
      let acc_a := u64 ((acc_a ≫ 32) + a * bi + ri) in
      let acc_b := u64 ((acc_b ≫ 32) + d0 * ni + u32 acc_a) in
      let '(ws, fa, fb) := mul_add_loop a d0 acc_a acc_b b ns result in
      (u32 acc_b :: ws, fa, fb)
  | _, _, _ => ([], acc_a, acc_b)
  end.

(** An array without words is accessed out of bounds. *)
Definition montgomery_mul_add_step (key : rsa_public_key) (result : list Z) (a : Z) (b : list Z)
    : option (list Z) :=
  match b, modulus key, result with
  | b0 :: b', n0 :: ns, r0 :: result' =>
      let acc_a := u64 (a * b0 + r0) in
      let d0 := u32 (u32 acc_a * n0inv key) in
      let acc_b := u64 (d0 * n0 + u32 acc_a) in
      let '(ws, acc_a, acc_b) := mul_add_loop a d0 acc_a acc_b b' ns result' in
      let acc_a := u64 ((acc_a ≫ 32) + (acc_b ≫ 32)) in
      let result := ws ++ [u32 acc_a] in
      Some (if acc_a ≫ 32 =? 0 then result else subtract_modulus key result)
  | _, _, _ => None
  end.

Fixpoint mul_words (key : rsa_public_key) (result a b : list Z) : option (list Z) :=
  match a with
  | [] => Some result
  | ai :: a => result ← montgomery_mul_add_step key result ai b; mul_words key result a b
  end.

Definition montgomery_mul (key : rsa_public_key) (a b : list Z) : option (list Z) :=
  mul_words key (replicate (length (modulus key)) 0) a b.

(** ** Exponentiation *)

(** [for (exponent_bits = 1; exponent_bits < max_bits + 1; ++exponent_bits)] *)
Fixpoint bits_loop (n : nat) (exponent exponent_bits : Z) : option Z :=
  match n with
  | O => None
  | S n =>
      let exponent := exponent ≫ 1 in
      if exponent =? 0 then Some exponent_bits else bits_loop n exponent (exponent_bits + 1)
  end.

(** The number of bits, or [None] for [-EINVAL]. *)
Definition num_public_exponent_bits (key : rsa_public_key) : option Z :=
  if exponent key =? 0 then Some 0 else bits_loop 64 (exponent key) 1.

(** The 64-bit conjunction becomes an [int]. *)
Definition is_public_exponent_bit_set (key : rsa_public_key) (pos : Z) : Z :=
  s32 (exponent key .& u64 (1 ≪ pos)).

(** [for (j = k - 2; j > 0; --j)] *)
Fixpoint pow_loop (key : rsa_public_key) (j : nat) (a_scaled acc : list Z) : option (list Z) :=
  match j with
  | O => Some acc
  | S j' =>
      tmp ← montgomery_mul key acc acc;
      acc ← (if negb (is_public_exponent_bit_set key (Z.of_nat j) =? 0)
             then montgomery_mul key tmp a_scaled else Some tmp);
      pow_loop key j' a_scaled acc
  end.

(** The words of an array of [n] words, in the order of the memory. *)
Fixpoint be_words (n : nat) (b : list Z) : list Z :=
  match n with O => [] | S n => be32 (take 4 b) :: be_words n (drop 4 b) end.

(** The new contents of [inout], or the error. *)
Definition pow_mod (key : rsa_public_key) (inout : list Z) : option (Z + list Z) :=
  if RSA_MAX_KEY_BITS / 32 <? key_len key then Some (inl (- EINVAL))
  else
    let val := reverse (be_words (length (modulus key)) inout) in
    match num_public_exponent_bits key with
    | None => Some (inl (- EINVAL))
    | Some k =>
        if k <? 2 then Some (inl (- EINVAL))
        else if is_public_exponent_bit_set key 0 =? 0 then Some (inl (- EINVAL))
        else
          acc ← montgomery_mul key val (rr key);
          acc ← pow_loop key (Z.to_nat (k - 2)) acc acc;
          tmp ← montgomery_mul key acc acc;
          result ← montgomery_mul key tmp val;
          let result := if greater_equal_modulus key result then subtract_modulus key result else result in
          Some (inr (concat (map be_bytes4 (reverse result))))
    end.

(** ** Signatures *)

Record checksum_algo := Algo {
  checksum_len : Z;
  pad_len : Z;
  rsa_padding : list Z;
  calculate : list (list Z) -> list Z
}.

(** [memcmp(a, b, n) != 0], which stops at the first difference; reading past
    one of the arrays is out of bounds. *)
Fixpoint differs_loop (n : nat) (a b : list Z) : option bool :=
  match n with
  | O => Some false
  | S n =>
      match a, b with
      | x :: a, y :: b => if x =? y then differs_loop n a b else Some true
      | _, _ => None
      end
  end.

Definition differs (a b : list Z) (n : Z) : option bool :=
  if n <? 0 then None else differs_loop (Z.to_nat n) a b.

(** The pointers of the arguments are not NULL; a signature shorter than
    [sig_len] is read out of bounds. *)
Definition rsa_verify_key (key : rsa_public_key) (sig : list Z) (sig_len : Z) (hash : list Z)
    (algo : checksum_algo) : option Z :=
  if negb (sig_len =? key_len key * 4) then Some (- EINVAL)
  else if RSA_MAX_SIG_BITS / 8 <? sig_len then Some (- EINVAL)
  else if Z.of_nat (length sig) <? sig_len then None
  else
    ret ← pow_mod key (take (Z.to_nat sig_len) sig);
    match ret with
    | inl e => Some e
    | inr buf =>
        let pad := pad_len algo - checksum_len algo in
        d ← differs buf (rsa_padding algo) pad;
        if d : bool then Some (- EINVAL)
        else
          d ← differs (drop (Z.to_nat pad) buf) hash (sig_len - pad);
          if d : bool then Some (- EACCES) else Some 0
    end.

Definition rsa_convert_big_endian (src : list Z) (len : nat) : option (list Z) :=
  if (length src <? 4 * len)%nat then None else Some (reverse (be_words len src)).

(** ** Numbers as arrays of words *)

(** The value of an array, the least significant word first. *)
Definition wval (ws : list Z) : Z := foldr (λ w v, w + 2 ^ 32 * v) 0 ws.

(** [2 ^ (32 * n)] *)
Definition radix_pow (n : nat) : Z := 2 ^ (32 * Z.of_nat n).

Lemma radix_pow_0 : radix_pow 0 = 1.
Proof. done. Qed.

Lemma radix_pow_S n : radix_pow (S n) = 2 ^ 32 * radix_pow n.
Proof. unfold radix_pow. rewrite <-Z.pow_add_r by lia. f_equal. lia. Qed.

Lemma radix_pow_pos n : 0 < radix_pow n.
Proof. apply Z.pow_pos_nonneg; lia. Qed.

Lemma wval_cons w ws : wval (w :: ws) = w + 2 ^ 32 * wval ws.
Proof. done. Qed.

Lemma wval_range ws : Forall word ws -> 0 <= wval ws < radix_pow (length ws).
Proof.
  intros H. induction H as [|w ws Hw _ IH]; [done|]. rewrite wval_cons. cbn [length]. rewrite radix_pow_S.
  unfold word in Hw. nia.
Qed.

Lemma wval_app ws1 ws2 : wval (ws1 ++ ws2) = wval ws1 + radix_pow (length ws1) * wval ws2.
Proof.
  induction ws1 as [|w ws1 IH]; cbn [app length]; [rewrite radix_pow_0; cbn [wval foldr]; lia|].
  rewrite !wval_cons, IH, radix_pow_S. lia.
Qed.

Lemma wval_replicate n : wval (replicate n 0) = 0.
Proof. induction n as [|n IH]; [done|]. cbn [replicate]. rewrite wval_cons, IH. lia. Qed.

Lemma u32_word x : word (u32 x).
Proof. apply u32_range. Qed.
#[local] Hint Resolve u32_word : uboot.

Lemma split32 x : x = u32 x + 2 ^ 32 * (x ≫ 32).
Proof. rewrite Z.shiftr_div_pow2 by lia. unfold u32, wrap. pose proof (Z_div_mod_eq_full x (2 ^ 32)). lia. Qed.

Lemma shiftr32_range x b : 0 <= x < 2 ^ 32 * b -> 0 <= x ≫ 32 < b.
Proof.
  intros H. rewrite Z.shiftr_div_pow2 by lia. split; [apply Z.div_pos; lia|]. apply Z.div_lt_upper_bound; lia.
Qed.

(** ** Subtraction and comparison *)

Lemma s64_small z : - 2 ^ 63 <= z < 2 ^ 63 -> s64 z = z.
Proof. intros H. unfold s64, swrap. change (64 - 1) with 63. rewrite Z.mod_small by lia. lia. Qed.

Lemma s64_u64 z : s64 (u64 z) = s64 z.
Proof.
  unfold s64, u64, swrap, wrap. change (64 - 1) with 63. by rewrite Zplus_mod_idemp_l.
Qed.

Lemma u64_add_idemp a b : u64 (a + u64 b) = u64 (a + b).
Proof. unfold u64, wrap. apply Zplus_mod_idemp_r. Qed.

Lemma subtract_words_spec acc num ns :
  acc = 0 \/ acc = -1 -> Forall word num -> Forall word ns -> length num = length ns ->
  let r := subtract_words acc num ns in
  length r = length num /\ Forall word r
  /\ ∃ c, (c = 0 \/ c = -1) /\ wval r + radix_pow (length num) * c = wval num - wval ns + acc.
Proof.
  intros Ha Hn. revert acc ns Ha. induction Hn as [|w num Hw Hn IH]; intros acc [|n ns] Ha Hs Hl; try done.
  - cbn. split_and!; [done|done|]. exists acc. split; [done|]. rewrite radix_pow_0. cbn. lia.
  - apply Forall_cons in Hs as [Hn0 Hs]. cbn [length] in Hl. injection Hl as Hl. unfold word in Hw, Hn0.
    cbn [subtract_words]. rewrite u64_add_idemp, s64_u64, s64_small by lia.
    set (x := acc + (w - n)). pose proof (split32 x) as Hx.
    assert (x ≫ 32 = 0 \/ x ≫ 32 = -1) as Hc.
    { rewrite Z.shiftr_div_pow2 by lia. subst x. Z.to_euclidean_division_equations. lia. }
    destruct (IH (x ≫ 32) ns Hc Hs Hl) as (Hlen & Hws & c & Hc' & Heq). cbn zeta.
    split_and!; [cbn; by rewrite Hlen|by constructor; [apply u32_word|]|].
    exists c. split; [done|]. rewrite !wval_cons. cbn [length]. rewrite radix_pow_S. subst x. lia.
Qed.

Lemma greater_equal_rev num ns :
  Forall word num -> Forall word ns -> length num = length ns ->
  greater_equal_words (reverse num) (reverse ns) = (wval ns <=? wval num).
Proof.
  revert ns. induction num as [|w num IH] using rev_ind; intros ns Hn Hs Hl.
  - destruct ns; [done|done].
  - destruct ns as [|n ns _] using rev_ind; [rewrite length_app in Hl; cbn in Hl; lia|].
    rewrite !length_app in Hl. cbn in Hl. assert (length num = length ns) as Hl' by lia.
    apply Forall_app in Hn as [Hn Hw], Hs as [Hs Hn']. apply Forall_cons in Hw as [Hw _], Hn' as [Hn' _].
    rewrite !reverse_app, !reverse_singleton. cbn [app greater_equal_words]. rewrite !wval_app, Hl'. cbn [wval foldr].
    pose proof (wval_range num Hn) as R1. pose proof (wval_range ns Hs) as R2. rewrite Hl' in R1.
    set (R := radix_pow (length ns)) in *.
    destruct (Z.ltb_spec w n) as [Hlt|Hge]; [symmetry; apply Z.leb_gt; nia|].
    destruct (Z.ltb_spec n w) as [Hgt|Heq]; [symmetry; apply Z.leb_le; nia|].
    rewrite IH by done. assert (w = n) as -> by lia.
    destruct (Z.leb_spec (wval ns) (wval num)); symmetry; [apply Z.leb_le|apply Z.leb_gt]; lia.
Qed.

(** ** Congruence modulo [N] *)

Definition cong (N a b : Z) : Prop := (N | a - b).

#[export] Instance cong_equiv N : Equivalence (cong N).
Proof.
  unfold cong. split.
  - intros a. rewrite Z.sub_diag. apply Z.divide_0_r.
  - intros a b H. replace (b - a) with (- (a - b)) by lia. by apply Z.divide_opp_r.
  - intros a b c H1 H2. replace (a - c) with ((a - b) + (b - c)) by lia. by apply Z.divide_add_r.
Qed.

#[export] Instance cong_add N : Proper (cong N ==> cong N ==> cong N) Z.add.
Proof.
  intros a a' Ha b b' Hb. unfold cong in *. replace (a + b - (a' + b')) with ((a - a') + (b - b')) by lia.
  by apply Z.divide_add_r.
Qed.

#[export] Instance cong_mul N : Proper (cong N ==> cong N ==> cong N) Z.mul.
Proof.
  intros a a' Ha b b' Hb. unfold cong in *.
  replace (a * b - a' * b') with ((a - a') * b + a' * (b - b')) by lia.
  apply Z.divide_add_r; [by apply Z.divide_mul_l|by apply Z.divide_mul_r].
Qed.

Lemma cong_mult N a k : cong N (a + k * N) a.
Proof. exists k. lia. Qed.

(** A factor that is prime to the modulus cancels. *)
Lemma cong_cancel N r a b : Z.gcd N r = 1 -> cong N (r * a) (r * b) -> cong N a b.
Proof.
  intros Hg H. unfold cong in *. replace (r * a - r * b) with (r * (a - b)) in H by lia. by apply Z.gauss in H.
Qed.

(** ** Montgomery multiplication *)

(** [n0inv] is -1 over the lowest word of the modulus; [rr] is the square of the
    radix; all arrays are words, as many as in the modulus. *)
Record key_ok (key : rsa_public_key) : Prop := {
  ok_modulus : Forall word (modulus key);
  ok_rr : Forall word (rr key);
  ok_rr_len : length (rr key) = length (modulus key);
  ok_nonempty : modulus key <> [];
  ok_n0inv : (n0inv key * wval (modulus key) + 1) mod 2 ^ 32 = 0;
  ok_rr_val : cong (wval (modulus key)) (wval (rr key)) (radix_pow (length (modulus key)) * radix_pow (length (modulus key)))
}.

Section montgomery.
Context (key : rsa_public_key) (Hkey : key_ok key).
#[local] Abbreviation N := (wval (modulus key)).
#[local] Abbreviation L := (length (modulus key)).
#[local] Abbreviation R := (radix_pow L).

(** An array of the size of the key. *)
Definition array (ws : list Z) : Prop := Forall word ws /\ length ws = L.

Lemma modulus_pos : 0 < N.
Proof.
  pose proof (wval_range _ (ok_modulus key Hkey)) as HN. destruct (Z.eq_dec N 0) as [E|]; [|lia].
  pose proof (ok_n0inv key Hkey) as H. rewrite E, Z.mul_0_r in H. by vm_compute in H.
Qed.

Lemma modulus_odd : Z.gcd N 2 = 1.
Proof.
  pose proof (ok_n0inv key Hkey) as H. apply Z.mod_divide in H as [k Hk]; [|lia].
  apply Z.bezout_1_gcd. exists (- n0inv key), (k * 2 ^ 31). lia.
Qed.

Lemma radix_coprime n : Z.gcd N (radix_pow n) = 1.
Proof. apply Z.coprime_pow_r; [lia|]. exact modulus_odd. Qed.

Lemma mul_add_loop_spec a d0 acc_a acc_b b ns result :
  word a -> word d0 -> 0 <= acc_a < 2 ^ 64 -> 0 <= acc_b < 2 ^ 64 ->
  Forall word b -> Forall word ns -> Forall word result -> length b = length ns -> length result = length ns ->
  ∃ ws fa fb, mul_add_loop a d0 acc_a acc_b b ns result = (ws, fa, fb)
    /\ Forall word ws /\ length ws = length ns /\ 0 <= fa < 2 ^ 64 /\ 0 <= fb < 2 ^ 64
    /\ wval ws + radix_pow (length ns) * ((fa ≫ 32) + (fb ≫ 32))
       = (acc_a ≫ 32) + (acc_b ≫ 32) + a * wval b + wval result + d0 * wval ns.
Proof.
  intros Ha Hd Haa Hab Hb. revert acc_a acc_b ns result Haa Hab.
  induction Hb as [|bi b Hbi Hb IH]; intros acc_a acc_b [|ni ns] [|ri result] Haa Hab Hns Hr Hl1 Hl2;
    cbn [length] in *; try lia.
  - exists [], acc_a, acc_b. split_and!; try done; try lia. rewrite radix_pow_0. cbn. lia.
  - apply Forall_cons in Hns as [Hni Hns], Hr as [Hri Hr].
    pose proof (shiftr32_range acc_a (2 ^ 32) ltac:(lia)) as Hsa.
    pose proof (shiftr32_range acc_b (2 ^ 32) ltac:(lia)) as Hsb.
    unfold word in Ha, Hd, Hbi, Hni, Hri.
    cbn [mul_add_loop]. set (xa := (acc_a ≫ 32) + a * bi + ri).
    assert (0 <= xa < 2 ^ 64) as Hxa by (subst xa; nia). rewrite (u64_small xa) by lia.
    pose proof (u32_range xa) as Hlo. set (xb := (acc_b ≫ 32) + d0 * ni + u32 xa).
    assert (0 <= xb < 2 ^ 64) as Hxb by (subst xb; nia). rewrite (u64_small xb) by lia.
    destruct (IH xa xb ns result Hxa Hxb Hns Hr) as (ws & fa & fb & -> & Hws & Hlw & Hfa & Hfb & Heq); [lia..|].
    exists (u32 xb :: ws), fa, fb. split; [done|]. split; [constructor; [apply u32_word|done]|].
    split; [cbn; lia|]. split; [done|]. split; [done|]. rewrite !wval_cons, radix_pow_S. pose proof (split32 xa). pose proof (split32 xb).
    subst xa xb. lia.
Qed.

(** The multiple of the modulus is chosen so that the lowest word vanishes. *)
Lemma low_word_vanishes n0 ns lo :
  (n0inv key * wval (n0 :: ns) + 1) mod 2 ^ 32 = 0 -> u32 (u32 (lo * n0inv key) * n0 + lo) = 0.
Proof.
  rewrite wval_cons. intros Hinv. apply Z.mod_divide in Hinv as [k Hk]; [|lia].
  pose proof (split32 (lo * n0inv key)) as Hsp. set (d0 := u32 (lo * n0inv key)) in *.
  set (h := (lo * n0inv key) ≫ 32) in *. unfold u32, wrap.
  assert (d0 * n0 + lo = (lo * (k - n0inv key * wval ns) - h * n0) * 2 ^ 32) as ->; [|by rewrite Z.mod_mul by lia].
  replace d0 with (lo * n0inv key - 2 ^ 32 * h) by lia.
  assert (n0inv key * n0 = k * 2 ^ 32 - 1 - n0inv key * (2 ^ 32 * wval ns)) as E by lia.
  replace ((lo * n0inv key - 2 ^ 32 * h) * n0 + lo) with (lo * (n0inv key * n0) - 2 ^ 32 * h * n0 + lo) by lia.
  rewrite E. lia.
Qed.

(** The sum fits into the array, or it does after one subtraction. *)
Lemma step_reduce ws c x d0 :
  array ws -> 0 <= c < 2 -> word d0 -> 0 <= x <= (R - 1) + (2 ^ 32 - 1) * (R - 1) ->
  2 ^ 32 * (wval ws + R * c) = x + d0 * N ->
  ∃ r, (if c =? 0 then ws else subtract_modulus key ws) = r /\ array r /\ cong N (2 ^ 32 * wval r) x.
Proof.
  intros [Hws Hlen] Hc Hd Hx HT. pose proof (wval_range ws Hws) as Hr. rewrite Hlen in Hr.
  pose proof (ok_modulus key Hkey) as Hm. pose proof (wval_range _ Hm) as HN. unfold word in Hd.
  eexists. split; [done|]. destruct (Z.eqb_spec c 0) as [->|Hc0].
  - split; [done|]. rewrite Z.mul_0_r, Z.add_0_r in HT. rewrite HT. apply cong_mult.
  - assert (c = 1) as -> by lia. rewrite Z.mul_1_r in HT.
    destruct (subtract_words_spec 0 ws (modulus key)) as (Hl & Hw & c' & Hc' & Heq); [by left|done|done|done|].
    fold (subtract_modulus key ws) in Hl, Hw, Heq. pose proof (wval_range _ Hw) as Hr'.
    rewrite Hl, Hlen in *. split; [done|].
    assert (wval ws < N) by nia.
    assert (wval (subtract_modulus key ws) = wval ws + R - N) as -> by (destruct Hc' as [-> | ->]; lia).
    replace (2 ^ 32 * (wval ws + R - N)) with (x + (d0 - 2 ^ 32) * N) by lia. apply cong_mult.
Qed.

(** One step adds [a * b] and divides by the radix of a word. *)
Lemma mul_add_step_spec result a b :
  word a -> array b -> array result ->
  ∃ r, montgomery_mul_add_step key result a b = Some r /\ array r
    /\ cong N (2 ^ 32 * wval r) (wval result + a * wval b).
Proof.
  intros Ha [Hb Hbl] [Hr Hrl]. unfold montgomery_mul_add_step.
  pose proof (step_reduce) as Hred. unfold array in *.
  pose proof (wval_range b Hb) as Rb. pose proof (wval_range result Hr) as Rr. rewrite Hbl in Rb. rewrite Hrl in Rr.
  pose proof (ok_modulus key Hkey) as Hm. pose proof (ok_n0inv key Hkey) as Hinv.
  pose proof (ok_nonempty key Hkey) as Hne.
  destruct (modulus key) as [|n0 ns] eqn:Em; [done|].
  destruct b as [|b0 b]; [done|]. destruct result as [|r0 result]; [done|].
  cbn [length] in Hbl, Hrl. injection Hbl as Hbl. injection Hrl as Hrl.
  apply Forall_cons in Hb as [Hb0 Hb], Hr as [Hr0 Hr]. apply Forall_cons in Hm as [Hn0 Hns].
  unfold word in Ha, Hb0, Hr0, Hn0. cbn zeta.
  assert (0 <= a * b0 + r0 < 2 ^ 64) as Hxa by nia. rewrite (u64_small (a * b0 + r0)) by lia.
  pose proof (low_word_vanishes n0 ns (u32 (a * b0 + r0)) Hinv) as Hzero.
  set (xa := a * b0 + r0) in *. set (d0 := u32 (u32 xa * n0inv key)) in *.
  pose proof (u32_range xa) as Hlo. pose proof (u32_range (u32 xa * n0inv key)) as Hd0. fold d0 in Hd0.
  assert (0 <= d0 * n0 + u32 xa < 2 ^ 64) as Hxb by nia. rewrite (u64_small (d0 * n0 + u32 xa)) by lia.
  set (xb := d0 * n0 + u32 xa) in *.
  destruct (mul_add_loop_spec a d0 xa xb b ns result) as (ws & fa & fb & -> & Hws & Hlw & Hfa & Hfb & Heq);
    [done|done|lia|lia|done|done|done|done|done|].
  pose proof (shiftr32_range fa (2 ^ 32) ltac:(lia)) as Hsa.
  pose proof (shiftr32_range fb (2 ^ 32) ltac:(lia)) as Hsb.
  set (c := (fa ≫ 32) + (fb ≫ 32)) in *. rewrite (u64_small c) by lia.
  pose proof (split32 c) as Hc. pose proof (split32 xa) as Hsxa. pose proof (split32 xb) as Hsxb.
  destruct (Hred (ws ++ [u32 c]) (c ≫ 32) (wval (r0 :: result) + a * wval (b0 :: b)) d0) as (r & Hr1 & Hr2 & Hr3).
  - split; [|rewrite length_app; cbn; lia]. apply Forall_app. split; [done|constructor; [apply u32_word|done]].
  - apply shiftr32_range. lia.
  - done.
  - nia.
  - rewrite wval_app, Hlw. cbn [length]. rewrite radix_pow_S, !wval_cons. cbn [wval foldr]. subst xa xb. lia.
  - exists r. by rewrite Hr1.
Qed.

Lemma mul_words_spec result a b :
  Forall word a -> array b -> array result ->
  ∃ r, mul_words key result a b = Some r /\ array r
    /\ cong N (radix_pow (length a) * wval r) (wval result + wval a * wval b).
Proof.
  intros Ha Hb. revert result. induction Ha as [|ai a Hai Ha IH]; intros result Hr; cbn [mul_words].
  - exists result. split_and!; [done|done|]. cbn [length wval foldr]. rewrite radix_pow_0.
    by replace (1 * wval result) with (wval result + 0 * wval b) by lia.
  - destruct (mul_add_step_spec result ai b Hai Hb Hr) as (r1 & -> & Hr1 & Hc1). cbn [mbind option_bind].
    destruct (IH r1 Hr1) as (r & -> & Hr2 & Hc2). exists r. split_and!; [done|done|].
    cbn [length]. rewrite radix_pow_S, wval_cons, <-Z.mul_assoc, Hc2.
    replace (2 ^ 32 * (wval r1 + wval a * wval b)) with (2 ^ 32 * wval r1 + 2 ^ 32 * (wval a * wval b)) by lia.
    rewrite Hc1. by replace (wval result + ai * wval b + 2 ^ 32 * (wval a * wval b))
      with (wval result + (ai + 2 ^ 32 * wval a) * wval b) by lia.
Qed.

(** [montgomery_mul] is a product divided by the radix, modulo [N]. *)
Lemma montgomery_mul_spec a b :
  array a -> array b ->
  ∃ r, montgomery_mul key a b = Some r /\ array r /\ cong N (R * wval r) (wval a * wval b).
Proof.
  intros [Ha Hla] Hb. destruct (mul_words_spec (replicate L 0) a b Ha Hb) as (r & Hr & Har & Hc).
  - split; [|apply length_replicate]. by apply Forall_replicate.
  - exists r. split_and!; [done|done|]. by rewrite Hla, wval_replicate in Hc.
Qed.
End montgomery.

(** ** The bits of the exponent *)

Lemma bits_loop_spec n e b :
  0 < e -> Z.log2 e < Z.of_nat n -> bits_loop n e b = Some (b + Z.log2 e).
Proof.
  revert e b. induction n as [|n IH]; intros e b He Hn; [pose proof (Z.log2_nonneg e); lia|].
  cbn [bits_loop]. rewrite Z.shiftr_div_pow2 by lia. change (2 ^ 1) with 2.
  destruct (Z.eqb_spec (e / 2) 0) as [E|E].
  - assert (e = 1) as -> by (Z.to_euclidean_division_equations; lia). cbn. f_equal. lia.
  - assert (0 < e / 2) by (Z.to_euclidean_division_equations; lia).
    assert (Z.log2 e = 1 + Z.log2 (e / 2)) as Hl.
    { rewrite <-Z.div2_div. pose proof (Z.div2_odd e) as Ho. rewrite <-Z.div2_div in *.
      destruct (Z.odd e); cbn [Z.b2z] in Ho; rewrite Ho at 1.
      - rewrite Z.log2_succ_double by lia. lia.
      - rewrite Z.add_0_r, Z.log2_double by lia. lia. }
    rewrite IH by lia. f_equal. lia.
Qed.

Lemma exponent_bits key :
  0 < exponent key < 2 ^ 64 -> num_public_exponent_bits key = Some (Z.log2 (exponent key) + 1).
Proof.
  intros He. unfold num_public_exponent_bits. rewrite (proj2 (Z.eqb_neq _ 0)) by lia.
  rewrite bits_loop_spec; [f_equal; lia|lia|]. apply Z.log2_lt_pow2; lia.
Qed.

Lemma land_pow2 e p : 0 <= p -> e .& 2 ^ p = if Z.testbit e p then 2 ^ p else 0.
Proof.
  intros Hp. apply Z.bits_inj'. intros i Hi. rewrite Z.land_spec.
  destruct (Z.eq_dec i p) as [->|Hne].
  - rewrite Z.pow2_bits_true by lia. rewrite andb_true_r. destruct (Z.testbit e p); [by rewrite Z.pow2_bits_true|by rewrite Z.bits_0].
  - rewrite Z.pow2_bits_false by lia. rewrite andb_false_r. destruct (Z.testbit e p); [by rewrite Z.pow2_bits_false by lia|by rewrite Z.bits_0].
Qed.

(** The test works on the lower half of the exponent only. *)
Lemma bit_set_low key p :
  0 <= p < 32 -> (is_public_exponent_bit_set key p =? 0) = negb (Z.testbit (exponent key) p).
Proof.
  intros Hp. unfold is_public_exponent_bit_set. rewrite Z.shiftl_mul_pow2, Z.mul_1_l by lia.
  assert (2 ^ p <= 2 ^ 31) by (apply Z.pow_le_mono_r; lia). assert (0 < 2 ^ p) by (apply Z.pow_pos_nonneg; lia).
  rewrite u64_small, land_pow2 by lia. destruct (Z.testbit (exponent key) p); [|done]. cbn [negb].
  apply Z.eqb_neq. unfold s32, swrap. change (32 - 1) with 31.
  destruct (Z.eq_dec (2 ^ p) (2 ^ 31)) as [->|]; [done|]. rewrite Z.mod_small by lia. lia.
Qed.

Lemma bit_set_high key p : 32 <= p < 64 -> is_public_exponent_bit_set key p = 0.
Proof.
  intros Hp. unfold is_public_exponent_bit_set. rewrite Z.shiftl_mul_pow2, Z.mul_1_l by lia.
  assert (2 ^ p <= 2 ^ 63) by (apply Z.pow_le_mono_r; lia). assert (0 < 2 ^ p) by (apply Z.pow_pos_nonneg; lia).
  rewrite u64_small, land_pow2 by lia. destruct (Z.testbit (exponent key) p); [|done].
  unfold s32, swrap. change (32 - 1) with 31.
  replace (2 ^ p) with (2 ^ (p - 32) * 2 ^ 32) by (rewrite <-Z.pow_add_r by lia; f_equal; lia).
  by rewrite Z.add_comm, Z_mod_plus_full.
Qed.

Section exponentiation.
Context (key : rsa_public_key) (Hkey : key_ok key).
#[local] Abbreviation N := (wval (modulus key)).
#[local] Abbreviation R := (radix_pow (length (modulus key))).
#[local] Abbreviation e := (exponent key).

Lemma cancel_R a b : cong N (R * a) (R * b) -> cong N a b.
Proof. apply cong_cancel. by apply radix_coprime. Qed.

(** Multiplying two numbers in Montgomery form. *)
Lemma mul_scaled a b x y :
  array key a -> array key b -> cong N (wval a) (x * R) -> cong N (wval b) (y * R) ->
  ∃ r, montgomery_mul key a b = Some r /\ array key r /\ cong N (wval r) (x * y * R).
Proof.
  intros Ha Hb Hx Hy. destruct (montgomery_mul_spec key Hkey a b Ha Hb) as (r & -> & Hr & Hc).
  exists r. split_and!; [done|done|]. apply cancel_R. rewrite Hc, Hx, Hy.
  by replace (x * R * (y * R)) with (R * (x * y * R)) by lia.
Qed.

Lemma shiftr_bit j : 0 <= e -> e ≫ Z.of_nat (S j) * 2 + Z.b2z (Z.testbit e (Z.of_nat (S j) - 1)) = e ≫ Z.of_nat j.
Proof.
  intros He. replace (Z.of_nat (S j) - 1) with (Z.of_nat j) by lia.
  rewrite !Z.shiftr_div_pow2 by lia. rewrite Z.testbit_spec' by lia.
  rewrite Nat2Z.inj_succ, Z.pow_succ_r by lia. rewrite (Z.mul_comm 2), <-Z.div_div by lia.
  pose proof (Z_div_mod_eq_full (e / 2 ^ Z.of_nat j) 2). lia.
Qed.

Lemma pow_loop_spec j V a_scaled acc :
  0 <= e -> (j < 32)%nat -> array key a_scaled -> array key acc ->
  cong N (wval a_scaled) (V * R) -> cong N (wval acc) (V ^ (e ≫ Z.of_nat (S j)) * R) ->
  ∃ r, pow_loop key j a_scaled acc = Some r /\ array key r /\ cong N (wval r) (V ^ (e ≫ 1) * R).
Proof.
  intros He Hj Has. revert acc Hj. induction j as [|j IH]; intros acc Hj Hacc Hs Hc; cbn [pow_loop].
  - by exists acc.
  - destruct (mul_scaled acc acc _ _ Hacc Hacc Hc Hc) as (tmp & -> & Htmp & Hct). cbn [mbind option_bind].
    pose proof (shiftr_bit (S j) He) as Hbit. replace (Z.of_nat (S (S j)) - 1) with (Z.of_nat (S j)) in Hbit by lia.
    assert (0 <= e ≫ Z.of_nat (S (S j))) by (by apply Z.shiftr_nonneg).
    rewrite <-Z.pow_add_r in Hct by lia. rewrite bit_set_low, negb_involutive by lia.
    destruct (Z.testbit e (Z.of_nat (S j))); cbn [Z.b2z] in Hbit.
    + destruct (mul_scaled tmp a_scaled _ _ Htmp Has Hct Hs) as (acc' & -> & Hacc' & Hca). cbn [mbind option_bind].
      apply IH; [lia|done|done|]. rewrite <-Hbit. rewrite Hca.
      replace (e ≫ Z.of_nat (S (S j)) * 2 + 1) with (Z.succ (e ≫ Z.of_nat (S (S j)) + e ≫ Z.of_nat (S (S j)))) by lia.
      rewrite Z.pow_succ_r by lia. by rewrite (Z.mul_comm V).
    + cbn [mbind option_bind]. apply IH; [lia|done|done|]. rewrite <-Hbit, Hct.
      by replace (e ≫ Z.of_nat (S (S j)) * 2 + 0) with (e ≫ Z.of_nat (S (S j)) + e ≫ Z.of_nat (S (S j))) by lia.
Qed.
End exponentiation.

(** ** Big-endian numbers *)

Lemma be_words_spec n b :
  Forall byte b -> length b = (4 * n)%nat ->
  Forall word (be_words n b) /\ length (be_words n b) = n /\ wval (reverse (be_words n b)) = be32 b.
Proof.
  revert b. induction n as [|n IH]; intros b Hb Hl; [by destruct b|]. cbn [be_words].
  destruct (IH (drop 4 b)) as (Hw & Hlw & Hv); [by apply Forall_drop|rewrite length_drop; lia|].
  pose proof (be32_range (take 4 b) (Forall_take _ _ _ Hb)) as Hr.
  rewrite length_take, Nat.min_l in Hr by lia. change (256 ^ Z.of_nat 4) with (2 ^ 32) in Hr.
  split_and!; [by constructor|cbn; lia|].
  rewrite reverse_cons, wval_app, Hv, length_reverse, Hlw. cbn [wval foldr].
  rewrite <-(take_drop 4 b) at 3. rewrite be32_app, length_drop, Hl.
  replace (256 ^ Z.of_nat (4 * S n - 4)) with (radix_pow n); [lia|].
  unfold radix_pow. change 256 with (2 ^ 8). rewrite <-Z.pow_mul_r by lia. f_equal. lia.
Qed.

Lemma be_bytes_spec ws :
  Forall word ws ->
  let b := concat (map be_bytes4 (reverse ws)) in
  Forall byte b /\ length b = (4 * length ws)%nat /\ be32 b = wval ws.
Proof.
  intros Hws. induction Hws as [|w ws Hw Hws (Hb & Hl & Hv)]; [done|]. cbn zeta in *.
  rewrite reverse_cons, map_app, concat_app. cbn [map concat]. rewrite app_nil_r.
  destruct (be_bytes4_spec w Hw) as (Hb4 & Hl4 & Hv4). split_and!.
  - by apply Forall_app.
  - rewrite length_app, Hl, Hl4. cbn [length]. lia.
  - rewrite be32_app, Hl4, Hv, Hv4, wval_cons. change (256 ^ Z.of_nat 4) with (2 ^ 32). lia.
Qed.

Lemma cong_mod_eq N a b : 0 < N -> cong N a b -> a mod N = b mod N.
Proof. intros HN [k Hk]. replace a with (b + k * N) by lia. apply Z_mod_plus_full. Qed.

(** ** The public operation *)

(** The modulus has its full length: its highest bit is set. *)
Definition full_length (key : rsa_public_key) : Prop :=
  radix_pow (length (modulus key)) <= 2 * wval (modulus key).

Lemma reduce_spec key ws :
  key_ok key -> full_length key -> array key ws ->
  let r := if greater_equal_modulus key ws then subtract_modulus key ws else ws in
  array key r /\ wval r = wval ws mod wval (modulus key).
Proof.
  intros Hkey Hfull [Hws Hl]. cbn zeta. pose proof (modulus_pos key Hkey) as HN.
  pose proof (wval_range ws Hws) as Hr. rewrite Hl in Hr. unfold full_length in Hfull.
  unfold greater_equal_modulus. rewrite greater_equal_rev by (done || apply ok_modulus, Hkey).
  destruct (Z.leb_spec (wval (modulus key)) (wval ws)) as [Hge|Hlt].
  - destruct (subtract_words_spec 0 ws (modulus key)) as (Hl' & Hw & c & Hc & Heq); [by left|done|apply ok_modulus, Hkey|done|].
    fold (subtract_modulus key ws) in *. pose proof (wval_range _ Hw) as Hr'. rewrite Hl', Hl in *.
    split; [done|]. apply (Z.mod_unique_pos _ _ 1); destruct Hc as [-> | ->]; lia.
  - split; [done|]. by rewrite Z.mod_small by lia.
Qed.

(** The four multiplications around the loop. *)
Lemma pow_chain key val :
  key_ok key -> array key val -> 1 < exponent key < 2 ^ 33 -> Z.odd (exponent key) = true ->
  ∃ acc acc' tmp res,
    montgomery_mul key val (rr key) = Some acc
    /\ pow_loop key (Z.to_nat (Z.log2 (exponent key) + 1 - 2)) acc acc = Some acc'
    /\ montgomery_mul key acc' acc' = Some tmp /\ montgomery_mul key tmp val = Some res
    /\ array key res /\ cong (wval (modulus key)) (wval res) (wval val ^ exponent key).
Proof.
  intros Hkey Hval He Hodd. set (V := wval val). set (R := radix_pow (length (modulus key))).
  assert (1 <= Z.log2 (exponent key)) as Hlog by (change 1 with (Z.log2 2); apply Z.log2_le_mono; lia).
  assert (Z.log2 (exponent key) < 33) as Hlog' by (apply Z.log2_lt_pow2; lia).
  assert (array key (rr key)) as Hrr by (split; [apply ok_rr, Hkey|apply ok_rr_len, Hkey]).
  destruct (montgomery_mul_spec key Hkey val (rr key) Hval Hrr) as (acc & E1 & Hacc & Hc).
  assert (cong (wval (modulus key)) (wval acc) (V * R)) as Hcv.
  { apply (cancel_R key Hkey). rewrite Hc, (ok_rr_val key Hkey). fold R V. by replace (V * (R * R)) with (R * (V * R)) by lia. }
  destruct (pow_loop_spec key Hkey (Z.to_nat (Z.log2 (exponent key) + 1 - 2)) V acc acc)
    as (acc' & E2 & Hacc' & Hc'); [lia|lia|done|done|done| |].
  { replace (Z.of_nat (S (Z.to_nat (Z.log2 (exponent key) + 1 - 2)))) with (Z.log2 (exponent key)) by lia.
    rewrite Z.shiftr_div_pow2 by lia. pose proof (Z.log2_spec (exponent key)) as Hsp.
    rewrite Z.pow_succ_r in Hsp by lia.
    assert (exponent key / 2 ^ Z.log2 (exponent key) = 1) as ->; [|by rewrite Z.pow_1_r].
    symmetry. apply (Z.div_unique _ _ 1 (exponent key - 2 ^ Z.log2 (exponent key))); lia. }
  destruct (mul_scaled key Hkey acc' acc' _ _ Hacc' Hacc' Hc' Hc') as (tmp & E3 & Htmp & Hct).
  destruct (montgomery_mul_spec key Hkey tmp val Htmp Hval) as (res & E4 & Hres & Hcr).
  exists acc, acc', tmp, res. do 4 (split; [done|]). split; [done|].
  apply (cancel_R key Hkey). rewrite Hcr, Hct. fold R V.
  pose proof (shiftr_bit key 0 ltac:(lia)) as Hbit. change (Z.of_nat 1 - 1) with 0 in Hbit.
  rewrite Z.bit0_odd, Hodd in Hbit. cbn [Z.b2z] in Hbit. change (Z.of_nat 1) with 1 in Hbit.
  change (Z.of_nat 0) with 0 in Hbit. rewrite Z.shiftr_0_r in Hbit.
  assert (0 <= exponent key ≫ 1) by (apply Z.shiftr_nonneg; lia).
  rewrite <-Hbit at 3. rewrite Z.pow_add_r, Z.pow_1_r, Z.mul_comm, Z.pow_mul_r by lia.
  set (W := V ^ (exponent key ≫ 1)). change (W ^ 2) with (W * (W * 1)).
  by replace (V * (W * W * R)) with (R * (W * (W * 1) * V)) by lia.
Qed.

(** [pow_mod] computes the RSA public operation: on a key with the right
    constants, a modulus of full length, at most 4096 bits, and an odd
    exponent of 2 to 33 bits, the bytes of [inout] read as a big-endian
    number [m] become the bytes of [m ^ exponent mod modulus]. *)
Lemma pow_mod_main key inout :
  key_ok key -> full_length key -> (length (modulus key) <= 128)%nat ->
  1 < exponent key < 2 ^ 33 -> Z.odd (exponent key) = true ->
  Forall byte inout -> length inout = (4 * length (modulus key))%nat ->
  ∃ out, pow_mod key inout = Some (inr out) /\ Forall byte out /\ length out = length inout
    /\ be32 out = be32 inout ^ exponent key mod wval (modulus key).
Proof.
  intros Hkey Hfull Hlen He Hodd Hb Hl. unfold pow_mod, key_len.
  change (RSA_MAX_KEY_BITS / 32) with 128. rewrite (proj2 (Z.ltb_ge _ _)) by lia.
  rewrite exponent_bits by lia.
  assert (1 <= Z.log2 (exponent key)) as Hlog by (change 1 with (Z.log2 2); apply Z.log2_le_mono; lia).
  rewrite (proj2 (Z.ltb_ge _ 2)) by lia. rewrite bit_set_low by lia. rewrite Z.bit0_odd, Hodd. cbn [negb].
  destruct (be_words_spec (length (modulus key)) inout Hb Hl) as (Hw & Hlw & Hv).
  set (val := reverse (be_words (length (modulus key)) inout)) in *.
  assert (array key val) as Hval by (split; [by apply Forall_reverse|subst val; by rewrite length_reverse]).
  destruct (pow_chain key val Hkey Hval He Hodd) as (acc & acc' & tmp & res & -> & E2 & E3 & E4 & Hres & Hfin).
  cbn [mbind option_bind]. rewrite E2. cbn [mbind option_bind]. rewrite E3. cbn [mbind option_bind]. rewrite E4.
  cbn [mbind option_bind]. destruct (reduce_spec key res Hkey Hfull Hres) as [[Hrw Hrl] Hrv]. cbn zeta in Hrw, Hrl, Hrv.
  set (r := if greater_equal_modulus key res then _ else _) in *.
  destruct (be_bytes_spec r Hrw) as (Hob & Hol & Hov). cbn zeta in Hob, Hol, Hov.
  eexists. split; [done|]. split; [done|]. split; [by rewrite Hol, Hl, Hrl|]. rewrite Hov, Hrv.
  by apply cong_mod_eq; [apply modulus_pos|rewrite Hfin, Hv].
Qed.

(** ** Signatures *)

Lemma differs_loop_spec n a b :
  (n <= length a)%nat -> (n <= length b)%nat -> differs_loop n a b = Some (bool_decide (take n a <> take n b)).
Proof.
  revert a b. induction n as [|n IH]; intros a b Ha Hb; [by rewrite bool_decide_false by (intros H; by apply H)|].
  destruct a as [|x a], b as [|y b]; cbn [length] in *; try lia. cbn [differs_loop take].
  destruct (Z.eqb_spec x y) as [->|Hne].
  - rewrite IH by lia. f_equal. apply bool_decide_ext. split; intros H E; apply H; congruence.
  - rewrite bool_decide_true; [done|]. congruence.
Qed.

Lemma differs_eq a b n :
  0 <= n -> Z.of_nat (length b) = n -> n <= Z.of_nat (length a) ->
  differs a b n = Some (bool_decide (take (Z.to_nat n) a <> b)).
Proof.
  intros Hn Hb Ha. unfold differs. rewrite (proj2 (Z.ltb_ge _ _)) by lia. rewrite differs_loop_spec by lia.
  by rewrite (take_ge b) by lia.
Qed.

(** Equal areas are inside of both arrays. *)
Lemma differs_false a b n : differs a b n = Some false -> 0 <= n <= Z.of_nat (length a) /\ n <= Z.of_nat (length b).
Proof.
  unfold differs. case_test; [done|]. intros H. rewrite Z.ltb_ge in *. revert a b H.
  assert (∀ m a b, differs_loop m a b = Some false -> (m <= length a)%nat /\ (m <= length b)%nat) as Hm.
  { induction m as [|m IH]; intros a b H; [lia|]. destruct a as [|x a], b as [|y b]; cbn [differs_loop] in H; try done.
    case_test_in H; [|done]. destruct (IH a b H). cbn [length]. lia. }
  intros a b H. destruct (Hm _ _ _ H). lia.
Qed.

Lemma rsa_verify_key_main key sig hash algo :
  key_ok key -> full_length key -> (length (modulus key) <= 128)%nat ->
  1 < exponent key < 2 ^ 33 -> Z.odd (exponent key) = true ->
  Forall byte sig -> length sig = (4 * length (modulus key))%nat ->
  Forall byte (rsa_padding algo) -> Forall byte hash -> checksum_len algo <= pad_len algo ->
  Z.of_nat (length (rsa_padding algo)) = pad_len algo - checksum_len algo ->
  length (rsa_padding algo ++ hash) = length sig ->
  ∃ ret, rsa_verify_key key sig (Z.of_nat (length sig)) hash algo = Some ret
    /\ (ret = 0 <-> be32 sig ^ exponent key mod wval (modulus key) = be32 (rsa_padding algo ++ hash)).
Proof.
  intros Hkey Hfull Hlen He Hodd Hsig Hl Hpad Hhash Hcl Hpl Htot. rewrite length_app in Htot.
  unfold rsa_verify_key, key_len. rewrite (proj2 (Z.eqb_eq _ _)) by lia. cbn [negb].
  change (RSA_MAX_SIG_BITS / 8) with 512. rewrite (proj2 (Z.ltb_ge 512 _)) by lia. rewrite Z.ltb_irrefl.
  rewrite Nat2Z.id, take_ge by lia.
  destruct (pow_mod_main key sig Hkey Hfull Hlen He Hodd Hsig Hl) as (out & -> & Hob & Hol & Hov).
  cbn [mbind option_bind]. rewrite (differs_eq out (rsa_padding algo)) by lia. rewrite <-Hov. cbn [mbind option_bind].
  set (p := Z.to_nat (pad_len algo - checksum_len algo)).
  assert (p = length (rsa_padding algo)) as Hp by (subst p; lia). clearbody p.
  assert (be32 out = be32 (rsa_padding algo ++ hash) <-> out = rsa_padding algo ++ hash) as Hiff.
  { split; [|by intros ->]. apply be32_inj; [done|by apply Forall_app|rewrite length_app; lia]. }
  setoid_rewrite Hiff. clear Hiff. case_bool_decide as Hd.
  - eexists. split; [done|]. split; [done|]. intros ->. destruct Hd. by rewrite take_app_length' by done.
  - rewrite differs_eq by (rewrite ?length_drop; lia). cbn [mbind option_bind].
    rewrite (take_ge (drop p out)) by (rewrite length_drop; lia).
    case_bool_decide as Hd2; eexists; (split; [done|]).
    + split; [done|]. intros ->. destruct Hd2. by rewrite drop_app_length' by done.
    + split; [intros _|done]. by rewrite <-(take_drop p out), Hd, Hd2.
Qed.

(** A signature is accepted exactly when the public operation turns it into
    the padding followed by the hash: with the key as in [pow_mod_correct],
    and padding and hash that fill the signature's length,
    [rsa_verify_key] returns 0 if and only if [sig ^ exponent mod modulus]
    is the number that these bytes stand for, and an error otherwise. *)
Theorem rsa_verify_key_iff key sig hash algo :
  key_ok key -> full_length key -> (length (modulus key) <= 128)%nat ->
  1 < exponent key < 2 ^ 33 -> Z.odd (exponent key) = true ->
  Forall byte sig -> length sig = (4 * length (modulus key))%nat ->
  Forall byte (rsa_padding algo) -> Forall byte hash -> checksum_len algo <= pad_len algo ->
  Z.of_nat (length (rsa_padding algo)) = pad_len algo - checksum_len algo ->
  length (rsa_padding algo ++ hash) = length sig ->
  ∃ ret, rsa_verify_key key sig (Z.of_nat (length sig)) hash algo = Some ret
    /\ (ret = 0 <-> be32 sig ^ exponent key mod wval (modulus key) = be32 (rsa_padding algo ++ hash)).
Proof. apply rsa_verify_key_main. Qed.

(** Two keys that differ in the exponent. *)
Definition with_exponent (key : rsa_public_key) (e : Z) : rsa_public_key :=
  Key (n0inv key) (modulus key) (rr key) e.

Lemma mul_with_exponent key e a b : montgomery_mul (with_exponent key e) a b = montgomery_mul key a b.
Proof.
  unfold montgomery_mul. cbn [modulus with_exponent]. generalize (replicate (length (modulus key)) 0). intros r.
  revert r. induction a as [|ai a IH]; intros r; [done|]. cbn [mul_words].
  change (montgomery_mul_add_step (with_exponent key e) r ai b) with (montgomery_mul_add_step key r ai b).
  destruct (montgomery_mul_add_step key r ai b); [|done]. apply IH.
Qed.

Lemma bit_set_agree key e1 e2 p :
  e1 mod 2 ^ 32 = e2 mod 2 ^ 32 -> 0 <= p < 64 ->
  is_public_exponent_bit_set (with_exponent key e1) p = is_public_exponent_bit_set (with_exponent key e2) p.
Proof.
  intros He Hp. destruct (Z_lt_dec p 32) as [Hlt|]; [|by rewrite !bit_set_high by lia].
  unfold is_public_exponent_bit_set. rewrite Z.shiftl_mul_pow2, Z.mul_1_l by lia. cbn [exponent with_exponent].
  assert (2 ^ p <= 2 ^ 31) by (apply Z.pow_le_mono_r; lia). assert (0 < 2 ^ p) by (apply Z.pow_pos_nonneg; lia).
  rewrite u64_small by lia. rewrite !land_pow2 by lia.
  by rewrite <-(Z.mod_pow2_bits_low e1 32 p), He, Z.mod_pow2_bits_low by lia.
Qed.

(** Bits 32 and up of the public exponent, except the highest one, have no
    effect, since their test returns an [int]: two exponents of the same
    length that agree in their lower 32 bits give the same result. *)
Theorem pow_mod_ignores_high_bits key inout e1 e2 :
  0 < e1 < 2 ^ 64 -> 0 < e2 < 2 ^ 64 -> Z.log2 e1 = Z.log2 e2 -> e1 mod 2 ^ 32 = e2 mod 2 ^ 32 ->
  pow_mod (with_exponent key e1) inout = pow_mod (with_exponent key e2) inout.
Proof.
  intros H1 H2 Hlog Hmod. unfold pow_mod.
  change (key_len (with_exponent key ?e)) with (key_len key). case_test; [done|].
  rewrite !exponent_bits by done. cbn [exponent modulus rr with_exponent]. rewrite Hlog.
  assert (0 <= Z.log2 e2 < 64) as Hl by (split; [apply Z.log2_nonneg|apply Z.log2_lt_pow2; lia]).
  case_test; [done|]. rewrite (bit_set_agree key e1 e2 0 Hmod) by lia. case_test; [done|].
  rewrite !mul_with_exponent. destruct (montgomery_mul key _ (rr key)) as [acc|]; [|done]. cbn [mbind option_bind].
  assert (∀ (j : nat) s a, Z.of_nat j < 64 ->
    pow_loop (with_exponent key e1) j s a = pow_loop (with_exponent key e2) j s a) as Hloop.
  { induction j as [|j IH]; intros s a Hj; [done|]. cbn [pow_loop]. rewrite !mul_with_exponent.
    destruct (montgomery_mul key a a) as [tmp|]; [|done]. cbn [mbind option_bind].
    rewrite (bit_set_agree key e1 e2) by (done || lia). rewrite !mul_with_exponent.
    case_test; [|by apply IH; lia]. destruct (montgomery_mul key tmp s) as [r|]; [|done]. apply IH. lia. }
  rewrite Hloop by lia. destruct (pow_loop _ _ acc acc) as [acc'|]; [|done]. cbn [mbind option_bind].
  rewrite !mul_with_exponent. destruct (montgomery_mul key acc' acc') as [tmp|]; [|done]. cbn [mbind option_bind].
  rewrite !mul_with_exponent. done.
Qed.

(** C13.  [pow_mod] computes the RSA public operation: on a key with the right
    constants, a modulus of full length, at most 4096 bits, and an odd
    exponent of 2 to 33 bits, the bytes of [inout] read as a big-endian
    number [m] become the bytes of [m ^ exponent mod modulus]. *)
Theorem pow_mod_correct key inout :
  key_ok key -> full_length key -> (length (modulus key) <= 128)%nat ->
  1 < exponent key < 2 ^ 33 -> Z.odd (exponent key) = true ->
  Forall byte inout -> length inout = (4 * length (modulus key))%nat ->
  ∃ out, pow_mod key inout = Some (inr out) /\ Forall byte out /\ length out = length inout
    /\ be32 out = be32 inout ^ exponent key mod wval (modulus key).
Proof. apply pow_mod_main. Qed.

(** ** Examples: a key of one word *)

Definition ex_key : rsa_public_key := Key 3435973837 [4294967291] [25] 17.

Lemma rsa_ex_key_ok : key_ok ex_key.
Proof.
  split; try done; try (by repeat constructor). exists (-4294967301). vm_compute. done.
Qed.

Lemma pow_mod_correct_witness :
  ∃ out, pow_mod ex_key [1; 2; 3; 4] = Some (inr out) /\ Forall byte out /\ length out = length [1; 2; 3; 4]
    /\ be32 out = be32 [1; 2; 3; 4] ^ exponent ex_key mod wval (modulus ex_key).
Proof.
  apply (pow_mod_correct ex_key [1; 2; 3; 4]).
  - exact rsa_ex_key_ok.
  - vm_compute. discriminate.
  - cbn. lia.
  - vm_compute. split; reflexivity.
  - reflexivity.
  - by apply all_bytes.
  - reflexivity.
Defined.

Example ex_pow : pow_mod ex_key [1; 2; 3; 4] = Some (inr [85; 164; 201; 130]).
Proof. vm_compute. done. Qed.

Definition ex_algo : checksum_algo := Algo 2 4 [0; 1] (λ _, [7; 9]).

Lemma rsa_verify_key_iff_witness :
  ∃ ret, rsa_verify_key ex_key [1; 2; 3; 4] (Z.of_nat (length [1; 2; 3; 4])) [7; 9] ex_algo = Some ret
    /\ (ret = 0 <-> be32 [1; 2; 3; 4] ^ exponent ex_key mod wval (modulus ex_key) = be32 (rsa_padding ex_algo ++ [7; 9])).
Proof.
  apply (rsa_verify_key_iff ex_key [1; 2; 3; 4] [7; 9] ex_algo).
  - exact rsa_ex_key_ok.
  - vm_compute. discriminate.
  - cbn. lia.
  - vm_compute. split; reflexivity.
  - reflexivity.
  - by apply all_bytes.
  - reflexivity.
  - by apply all_bytes.
  - by apply all_bytes.
  - cbn. lia.
  - reflexivity.
  - reflexivity.
Defined.

(** The exponents [2 ^ 34 + 1] and [2 ^ 34 + 2 ^ 33 + 1]. *)
Lemma pow_mod_ignores_high_bits_witness :
  pow_mod (with_exponent ex_key 17179869185) [1; 2; 3; 4] = pow_mod (with_exponent ex_key 25769803777) [1; 2; 3; 4].
Proof. apply (pow_mod_ignores_high_bits ex_key [1; 2; 3; 4] 17179869185 25769803777); [lia|lia|reflexivity|reflexivity]. Defined.
