(* ===== verification/HashStream.v ===== *)
(** * Hashing in pieces ([lib/sha1.c], [lib/sha256.c])

    [sha1_update], [sha256_update] and the two [finish] functions are the same
    code around a different compression function, so they are modelled once, for
    any [process] from a state and a block of 64 bytes to a state.  The counters
    [total] are [uint32_t] in one file and [unsigned long] in the other; their
    width is the parameter [w]. *)

From S2P Require Import Prelude Crc.

(** [PUT_UINT32_BE] *)
Definition put_be32 (n : Z) : list Z := [u8 (n ≫ 24); u8 (n ≫ 16); u8 (n ≫ 8); u8 n].

(** [GET_UINT32_BE] on four bytes. *)
Definition get_be32 (b0 b1 b2 b3 : Z) : Z := (b0 ≪ 24) .| (b1 ≪ 16) .| (b2 ≪ 8) .| b3.

(** The sixteen words of a block. *)
Fixpoint block_words (n : nat) (data : list Z) : list Z :=
  match n, data with
  | S n, b0 :: b1 :: b2 :: b3 :: data => get_be32 b0 b1 b2 b3 :: block_words n data
  | _, _ => []
  end.

Lemma block_words_length n data : length data = (4 * n)%nat -> length (block_words n data) = n.
Proof.
  revert data. induction n as [|n IH]; intros data Hl; [done|].
  destruct data as [|b0 [|b1 [|b2 [|b3 data]]]]; cbn [length] in Hl; try lia. cbn [block_words length]. rewrite IH; lia.
Qed.

(** [memcpy] into an array at an offset. *)
Definition blit (a : list Z) (off : nat) (data : list Z) : list Z :=
  take off a ++ data ++ drop (off + length data) a.

(** [sha1_padding] and [sha256_padding] *)
Definition sha_padding : list Z := 0x80 :: replicate 63 0.

Section stream.
Context {st : Type} (process : st -> list Z -> st) (w : Z).

Record context := Ctx { total0 : Z; total1 : Z; state : st; buffer : list Z }.

(** [while (length >= 64)] *)
Fixpoint blocks_loop (fuel : nat) (s : st) (input : list Z) : st * list Z :=
  match fuel with
  | O => (s, input)
  | S fuel =>
      if (64 <=? length input)%nat then blocks_loop fuel (process s (take 64 input)) (drop 64 input)
      else (s, input)
  end.

(** The length is the one of [input]; the fuel is enough since every turn
    takes 64 bytes. *)
Definition hash_update (ctx : context) (input : list Z) : context :=
  let ilen := Z.of_nat (length input) in
  if ilen =? 0 then ctx
  else
    let left_ := Z.to_nat (total0 ctx .& 0x3F) in
    let fill := (64 - left_)%nat in
    let t0 := u32 (total0 ctx + ilen) in
    let t1 := if t0 <? ilen then wrap w (total1 ctx + 1) else total1 ctx in
    let '(s, buf, input, left_) :=
      if negb (left_ =? 0)%nat && (fill <=? length input)%nat then
        let buf := blit (buffer ctx) left_ (take fill input) in
        (process (state ctx) buf, buf, drop fill input, 0%nat)
      else (state ctx, buffer ctx, input, left_) in
    let '(s, input) := blocks_loop (length input) s input in
    Ctx t0 t1 s (if (length input =? 0)%nat then buf else blit buf left_ input).

(** The padding and the length in bits; [output] writes the digest. *)
Definition hash_finish (output : st -> list Z) (ctx : context) : list Z :=
  let high := (total0 ctx ≫ 29) .| wrap w (total1 ctx ≪ 3) in
  let low := wrap w (total0 ctx ≪ 3) in
  let msglen := put_be32 high ++ put_be32 low in
  let last := total0 ctx .& 0x3F in
  let padn := if last <? 56 then 56 - last else 120 - last in
  let ctx := hash_update ctx (take (Z.to_nat padn) sha_padding) in
  let ctx := hash_update ctx msglen in
  output (state ctx).

(** [sha256_calculate]: an update for every region. *)
Definition hash_regions (ctx : context) (regions : list (list Z)) : context := foldl hash_update ctx regions.

(** ** What a context stands for *)

Fixpoint absorb (n : nat) (s : st) (m : list Z) : st :=
  match n with O => s | S n => absorb n (process s (take 64 m)) (drop 64 m) end.

(** All whole blocks of a message. *)
Definition absorb_all (s : st) (m : list Z) : st := absorb (length m / 64) s m.
Definition rest (m : list Z) : list Z := drop (64 * (length m / 64)) m.

Lemma rest_length m : length (rest m) = (length m mod 64)%nat.
Proof. unfold rest. rewrite length_drop. rewrite (Nat.div_mod_eq (length m) 64) at 1. lia. Qed.

Lemma absorb_app n1 n2 s m1 m2 :
  length m1 = (64 * n1)%nat -> absorb (n1 + n2) s (m1 ++ m2) = absorb n2 (absorb n1 s m1) m2.
Proof.
  revert s m1. induction n1 as [|n1 IH]; intros s m1 Hl; [by destruct m1|]. cbn [Nat.add absorb].
  rewrite take_app_le, drop_app_le by lia. apply IH. rewrite length_drop. lia.
Qed.

(** A message goes in as a prefix of whole blocks and the rest. *)
Lemma absorb_prefix n s m : (64 * n <= length m)%nat -> absorb n s m = absorb n s (take (64 * n) m).
Proof.
  revert s m. induction n as [|n IH]; intros s m Hl; [done|]. cbn [absorb].
  rewrite take_take, Nat.min_l by lia. rewrite IH by (rewrite length_drop; lia).
  f_equal. rewrite skipn_firstn_comm. f_equal. lia.
Qed.

Lemma blocks_loop_spec fuel s input :
  (length input <= fuel)%nat -> blocks_loop fuel s input = (absorb_all s input, rest input).
Proof.
  unfold absorb_all, rest. revert s input. induction fuel as [|fuel IH]; intros s input Hf.
  - destruct input; [done|cbn in Hf; lia].
  - cbn [blocks_loop]. destruct (Nat.leb_spec 64 (length input)) as [Hge|Hlt].
    + rewrite IH by (rewrite length_drop; lia). rewrite length_drop.
      assert (length input / 64 = S ((length input - 64) / 64))%nat as ->.
      { replace (length input) with ((length input - 64) + 1 * 64)%nat at 1 by lia. rewrite Nat.div_add by lia. lia. }
      cbn [absorb]. f_equal. rewrite drop_drop. f_equal. lia.
    + rewrite Nat.div_small by lia. done.
Qed.

Lemma blocks_of_app a b : ((a + b) / 64 = a / 64 + (a mod 64 + b) / 64)%nat.
Proof.
  rewrite (Nat.div_mod_eq a 64) at 1.
  replace (64 * (a / 64) + a mod 64 + b)%nat with ((a mod 64 + b) + (a / 64) * 64)%nat by lia.
  rewrite Nat.div_add by lia. lia.
Qed.

(** Absorbing a pending part and new input together. *)
Lemma absorb_all_app s m input : absorb_all s (m ++ input) = absorb_all (absorb_all s m) (rest m ++ input).
Proof.
  unfold absorb_all. rewrite !length_app, rest_length, blocks_of_app.
  pose proof (Nat.div_mod_eq (length m) 64) as Hd. set (n := (length m / 64)%nat) in *.
  assert (m ++ input = take (64 * n) m ++ (rest m ++ input)) as ->.
  { rewrite app_assoc. unfold rest. fold n. by rewrite take_drop. }
  rewrite absorb_app by (rewrite length_take; lia). by rewrite <-absorb_prefix by lia.
Qed.

Lemma rest_app m input : rest (m ++ input) = rest (rest m ++ input).
Proof.
  unfold rest at 1 2. rewrite !length_app, rest_length, blocks_of_app.
  pose proof (Nat.div_mod_eq (length m) 64) as Hd.
  rewrite Nat.mul_add_distr_l, <-drop_drop. f_equal. unfold rest. by rewrite drop_app_le by lia.
Qed.

(** The context after the message [m], from the state [init]. *)
Record rep (init : st) (ctx : context) (m : list Z) : Prop := {
  rep_total0 : total0 ctx = u32 (Z.of_nat (length m));
  rep_total1 : total1 ctx = wrap w (Z.of_nat (length m) / 2 ^ 32);
  rep_state : state ctx = absorb_all init m;
  rep_buffer : length (buffer ctx) = 64%nat;
  rep_pending : take (length m mod 64) (buffer ctx) = rest m
}.

Lemma low6 n : Z.to_nat (u32 (Z.of_nat n) .& 0x3F) = (n mod 64)%nat.
Proof.
  change 0x3F with (Z.ones 6). rewrite Z.land_ones by lia. unfold u32, wrap.
  assert (Z.of_nat n mod 2 ^ 32 mod 2 ^ 6 = Z.of_nat n mod 64) as ->.
  { change (2 ^ 6) with 64. Z.to_euclidean_division_equations. lia. }
  rewrite <-(Nat2Z.id (n mod 64)). f_equal. by rewrite Nat2Z.inj_mod.
Qed.

Lemma blit_length a off data : (off + length data <= length a)%nat -> length (blit a off data) = length a.
Proof. intros H. unfold blit. rewrite !length_app, length_take, length_drop. lia. Qed.

Lemma take_blit a off data n :
  (off + length data <= length a)%nat -> n = (off + length data)%nat -> take n (blit a off data) = take off a ++ data.
Proof.
  intros H ->. unfold blit. rewrite app_assoc. apply take_app_length'. rewrite length_app, length_take. lia.
Qed.

(** The counters are the length of the message. *)
Lemma totals_step ctx init m n :
  0 <= w -> rep init ctx m -> 0 <= n < 2 ^ 32 ->
  u32 (total0 ctx + n) = u32 (Z.of_nat (length m) + n)
  /\ (if u32 (total0 ctx + n) <? n then wrap w (total1 ctx + 1) else total1 ctx)
     = wrap w ((Z.of_nat (length m) + n) / 2 ^ 32).
Proof.
  intros Hw Hrep Hn. rewrite (rep_total0 _ _ _ Hrep), (rep_total1 _ _ _ Hrep).
  set (l := Z.of_nat (length m)). unfold u32, wrap. assert (0 <= l) by lia.
  assert ((l mod 2 ^ 32 + n) mod 2 ^ 32 = (l + n) mod 2 ^ 32) as -> by apply Zplus_mod_idemp_l.
  split; [done|]. destruct (Z.ltb_spec ((l + n) mod 2 ^ 32) n) as [Hlt|Hge].
  - rewrite Zplus_mod_idemp_l. f_equal. Z.to_euclidean_division_equations. lia.
  - f_equal. Z.to_euclidean_division_equations. lia.
Qed.

Lemma absorb_block s b m : length b = 64%nat -> absorb_all s (b ++ m) = absorb_all (process s b) m.
Proof.
  intros Hb. rewrite absorb_all_app. unfold absorb_all at 2, rest. rewrite Hb. cbn [Nat.div Nat.divmod fst absorb].
  rewrite take_ge by lia. by rewrite drop_ge by lia.
Qed.

Lemma rest_block b m : length b = 64%nat -> rest (b ++ m) = rest m.
Proof. intros Hb. rewrite rest_app. unfold rest at 2. rewrite Hb. by rewrite drop_ge by (cbn; lia). Qed.

Lemma absorb_short s m : (length m < 64)%nat -> absorb_all s m = s /\ rest m = m.
Proof. intros H. unfold absorb_all, rest. by rewrite Nat.div_small by lia. Qed.

(** The new state and buffer. *)
Lemma update_body s buf pend input :
  length buf = 64%nat -> (length pend < 64)%nat -> take (length pend) buf = pend -> input <> [] ->
  let fill := (64 - length pend)%nat in
  ∃ buf',
    (let '(s, buf, input, left_) :=
       if negb (length pend =? 0)%nat && (fill <=? length input)%nat then
         let buf := blit buf (length pend) (take fill input) in (process s buf, buf, drop fill input, 0%nat)
       else (s, buf, input, length pend) in
     let '(s, input) := blocks_loop (length input) s input in
     (s, if (length input =? 0)%nat then buf else blit buf left_ input))
    = (absorb_all s (pend ++ input), buf')
    /\ length buf' = 64%nat /\ take (length (rest (pend ++ input))) buf' = rest (pend ++ input).
Proof.
  intros Hbuf Hp Htake Hne. cbn zeta. set (fill := (64 - length pend)%nat).
  destruct (negb (length pend =? 0)%nat && (fill <=? length input)%nat) eqn:Hc.
  - apply andb_true_iff in Hc as [_ Hf%Nat.leb_le]. set (X := blit buf (length pend) (take fill input)).
    assert (X = pend ++ take fill input) as HX.
    { subst X. unfold blit. rewrite Htake, length_take, (drop_ge buf) by lia. by rewrite app_nil_r. }
    assert (length X = 64%nat) as HlX by (rewrite HX, length_app, length_take; lia).
    rewrite blocks_loop_spec by done.
    assert (pend ++ input = X ++ drop fill input) as -> by (by rewrite HX, <-app_assoc, take_drop).
    rewrite absorb_block, rest_block by done. eexists. split; [done|].
    set (r := rest (drop fill input)).
    assert (length r < 64)%nat by (subst r; rewrite rest_length; apply Nat.mod_upper_bound; lia).
    destruct (Nat.eqb_spec (length r) 0) as [E|E]; [split; [done|]; by destruct r|].
    split; [by rewrite blit_length by lia|]. by rewrite take_blit by lia.
  - rewrite blocks_loop_spec by done. apply andb_false_iff in Hc.
    destruct (Nat.eq_dec (length pend) 0) as [E|E].
    + destruct pend; [|done]. cbn [app length]. eexists. split; [done|]. set (r := rest input).
      assert (length r < 64)%nat by (subst r; rewrite rest_length; apply Nat.mod_upper_bound; lia).
      destruct (Nat.eqb_spec (length r) 0) as [E'|E']; [split; [done|]; by destruct r|].
      split; [by rewrite blit_length by lia|]. by rewrite take_blit by lia.
    + destruct Hc as [Hc%negb_false_iff%Nat.eqb_eq|Hc%Nat.leb_gt]; [lia|].
      destruct (absorb_short s input) as [-> ->]; [lia|].
      destruct (absorb_short s (pend ++ input)) as [-> ->]; [rewrite length_app; lia|].
      eexists. split; [done|]. destruct (Nat.eqb_spec (length input) 0) as [E'|E']; [by destruct input|].
      split; [by rewrite blit_length by lia|]. by rewrite take_blit, Htake by (rewrite ?length_app; lia).
Qed.

Lemma update_rep init ctx m input :
  0 <= w -> rep init ctx m -> Z.of_nat (length input) < 2 ^ 32 -> rep init (hash_update ctx input) (m ++ input).
Proof.
  intros Hw Hrep Hi. unfold hash_update. destruct (Z.eqb_spec (Z.of_nat (length input)) 0) as [E|E].
  { destruct input; [|cbn in E; lia]. by rewrite app_nil_r. }
  destruct (totals_step ctx init m (Z.of_nat (length input)) Hw Hrep) as [H0 H1]; [lia|].
  pose proof (rest_length m) as Hr. pose proof (Nat.mod_upper_bound (length m) 64 ltac:(lia)) as Hlt.
  assert (Z.to_nat (total0 ctx .& 0x3F) = length (rest m)) as ->.
  { rewrite Hr, (rep_total0 _ _ _ Hrep). apply low6. }
  destruct (update_body (state ctx) (buffer ctx) (rest m) input) as (buf' & Hb & Hlen & Htk);
    [apply Hrep|lia|rewrite Hr; apply Hrep|by intros ->|]. cbn zeta in Hb.
  rewrite (rep_state _ _ _ Hrep), <-absorb_all_app, <-rest_app in *.
  destruct (if negb _ && _ then _ else _) as [[[s1 b1] i1] l1]. destruct (blocks_loop (length i1) s1 i1) as [s2 i2].
  injection Hb as -> Hb. rewrite Hb. split; cbn [total0 total1 state buffer]; try done.
  - rewrite H0. f_equal. rewrite length_app. lia.
  - rewrite H1. f_equal. rewrite length_app. f_equal. lia.
  - by rewrite <-rest_length.
Qed.

(** ** The padding of FIPS 180 *)

Definition fips_pad (m : list Z) : list Z :=
  let l := Z.of_nat (length m) in
  m ++ 0x80 :: replicate (Z.to_nat ((55 - l) mod 64)) 0 ++ put_be32 ((8 * l) ≫ 32) ++ put_be32 (8 * l).

Lemma fips_pad_blocks m : (length (fips_pad m) mod 64 = 0)%nat.
Proof.
  unfold fips_pad. rewrite length_app. cbn [length]. rewrite !length_app, length_replicate. cbn [length put_be32].
  apply Nat2Z.inj. rewrite Nat2Z.inj_mod. rewrite Nat2Z.inj_add, Nat2Z.inj_succ, Nat2Z.inj_add, Z2Nat.id by (apply Z.mod_pos_bound; lia).
  change (Z.of_nat 64) with 64. Z.to_euclidean_division_equations. lia.
Qed.

Lemma put_be32_u32 a b : u32 a = u32 b -> put_be32 a = put_be32 b.
Proof.
  intros H. unfold put_be32. rewrite !Z.shiftr_div_pow2 by lia.
  assert (∀ k, 0 <= k <= 24 -> u8 (a / 2 ^ k) = u8 (b / 2 ^ k)) as Hk.
  { intros k Hk. unfold u8, u32, wrap in *. apply Z.bits_inj'. intros i Hi.
    destruct (Z_lt_dec i 8); [|by rewrite !Z.mod_pow2_bits_high by lia].
    rewrite !Z.mod_pow2_bits_low, <-!Z.shiftr_div_pow2, !Z.shiftr_spec by lia.
    by rewrite <-(Z.mod_pow2_bits_low a 32), H, Z.mod_pow2_bits_low by lia. }
  rewrite !Hk by lia. f_equal. f_equal. f_equal. f_equal.
  specialize (Hk 0 ltac:(lia)). by rewrite !Z.div_1_r in Hk.
Qed.

Lemma u32_wrap x : 32 <= w -> u32 (wrap w x) = u32 x.
Proof.
  intros Hw. unfold u32, wrap. apply Z.bits_inj'. intros i Hi. destruct (Z_lt_dec i 32).
  - by rewrite !Z.mod_pow2_bits_low by lia.
  - by rewrite !Z.mod_pow2_bits_high by lia.
Qed.

Lemma msglen_spec ctx init m :
  32 <= w -> rep init ctx m -> Z.of_nat (length m) < 2 ^ 61 ->
  put_be32 ((total0 ctx ≫ 29) .| wrap w (total1 ctx ≪ 3)) = put_be32 ((8 * Z.of_nat (length m)) ≫ 32)
  /\ put_be32 (wrap w (total0 ctx ≪ 3)) = put_be32 (8 * Z.of_nat (length m)).
Proof.
  intros Hw Hrep Hl. rewrite (rep_total0 _ _ _ Hrep), (rep_total1 _ _ _ Hrep).
  set (l := Z.of_nat (length m)) in *. assert (0 <= l) by lia.
  assert (2 ^ 32 <= 2 ^ w) as Hpow by (apply Z.pow_le_mono_r; lia).
  assert (0 <= l / 2 ^ 32 < 2 ^ 29) as Hq by (Z.to_euclidean_division_equations; lia).
  split.
  - f_equal. rewrite (wrap_small w (l / 2 ^ 32)) by (unfold in_word; lia).
    rewrite !Z.shiftr_div_pow2, Z.shiftl_mul_pow2 by lia. rewrite wrap_small by (unfold in_word; lia).
    unfold u32, wrap. rewrite Z.lor_comm.
    replace ((l / 2 ^ 32 * 2 ^ 3) .| (l mod 2 ^ 32 / 2 ^ 29)) with (l / 2 ^ 32 * 2 ^ 3 + l mod 2 ^ 32 / 2 ^ 29).
    + Z.to_euclidean_division_equations. lia.
    + rewrite <-Z.add_lor_land. replace ((l / 2 ^ 32 * 2 ^ 3) .& (l mod 2 ^ 32 / 2 ^ 29)) with 0; [lia|].
      symmetry. apply Z.bits_inj'. intros i Hi. rewrite Z.land_spec, Z.bits_0.
      destruct (Z_lt_dec i 3); [by rewrite Z.mul_pow2_bits_low by lia|].
      rewrite <-(Z.mod_small (l mod 2 ^ 32 / 2 ^ 29) (2 ^ 3)) by (Z.to_euclidean_division_equations; lia).
      by rewrite Z.mod_pow2_bits_high, andb_false_r by lia.
  - apply put_be32_u32. rewrite u32_wrap, Z.shiftl_mul_pow2 by lia. unfold u32, wrap.
    rewrite Zmult_mod_idemp_l. f_equal. lia.
Qed.

Lemma padding_spec ctx init m :
  rep init ctx m ->
  let last := total0 ctx .& 0x3F in
  take (Z.to_nat (if last <? 56 then 56 - last else 120 - last)) sha_padding
  = 0x80 :: replicate (Z.to_nat ((55 - Z.of_nat (length m)) mod 64)) 0.
Proof.
  intros Hrep. cbn zeta. rewrite (rep_total0 _ _ _ Hrep). set (l := Z.of_nat (length m)).
  assert (u32 l .& 0x3F = l mod 64) as ->.
  { change 0x3F with (Z.ones 6). rewrite Z.land_ones by lia. unfold u32, wrap. change (2 ^ 6) with 64.
    Z.to_euclidean_division_equations. lia. }
  set (k := Z.to_nat ((55 - l) mod 64)).
  assert (Z.to_nat (if l mod 64 <? 56 then 56 - l mod 64 else 120 - l mod 64) = S k) as ->.
  { subst k. destruct (Z.ltb_spec (l mod 64) 56); Z.to_euclidean_division_equations; lia. }
  assert (k <= 63)%nat by (subst k; pose proof (Z.mod_pos_bound (55 - l) 64); lia).
  unfold sha_padding. cbn [take]. f_equal. by rewrite take_replicate, Nat.min_l by lia.
Qed.

(** The digest is that of the padded message. *)
Lemma finish_spec output ctx init m :
  32 <= w -> rep init ctx m -> Z.of_nat (length m) < 2 ^ 61 ->
  hash_finish output ctx = output (absorb_all init (fips_pad m)).
Proof.
  intros Hw Hrep Hl. unfold hash_finish. cbn zeta.
  destruct (msglen_spec ctx init m Hw Hrep Hl) as [-> ->]. rewrite (padding_spec ctx init m Hrep). f_equal.
  set (p := 0x80 :: replicate _ 0). set (ml := put_be32 _ ++ put_be32 _).
  assert (Z.of_nat (length p) < 2 ^ 32) as Hp.
  { subst p. cbn [length]. rewrite length_replicate. pose proof (Z.mod_pos_bound (55 - Z.of_nat (length m)) 64). lia. }
  pose proof (update_rep init ctx m p ltac:(lia) Hrep Hp) as H1.
  pose proof (update_rep init _ _ ml ltac:(lia) H1 ltac:(cbn; lia)) as H2.
  rewrite (rep_state _ _ _ H2). f_equal. unfold fips_pad. rewrite <-app_assoc. done.
Qed.

Lemma regions_rep init ctx m regions :
  0 <= w -> rep init ctx m -> Forall (λ r, Z.of_nat (length r) < 2 ^ 32) regions ->
  rep init (hash_regions ctx regions) (m ++ concat regions).
Proof.
  intros Hw Hrep Hr. revert ctx m Hrep. induction Hr as [|r regions Hr _ IH]; intros ctx m Hrep; cbn [hash_regions foldl concat].
  - by rewrite app_nil_r.
  - rewrite app_assoc. apply IH. by apply update_rep.
Qed.

Lemma start_rep init buf : length buf = 64%nat -> rep init (Ctx 0 0 init buf) [].
Proof. intros Hb. by split. Qed.
End stream.

Lemma put_be32_bytes n : Forall byte (put_be32 n).
Proof. unfold put_be32. repeat constructor; apply u8_range. Qed.

Lemma fips_pad_bytes m : Forall byte m -> Forall byte (fips_pad m).
Proof.
  intros H. unfold fips_pad. apply Forall_app; split; [done|]. constructor; [unfold byte; lia|].
  repeat apply Forall_app_2; [|apply put_be32_bytes..]. apply Forall_replicate. unfold byte. lia.
Qed.

(** A compression function that simulates another one through [h], on the
    blocks whose bytes satisfy [Q]. *)
Lemma absorb_sim {st st'} (Q : Z -> Prop) (f : st -> list Z -> st) (g : st' -> list Z -> st') (h : st -> st') n s m :
  (∀ s b, length b = 64%nat -> Forall Q b -> h (f s b) = g (h s) b) -> (64 * n <= length m)%nat -> Forall Q m ->
  h (absorb f n s m) = absorb g n (h s) m.
Proof.
  intros Hfg. revert s m. induction n as [|n IH]; intros s m Hl Hm; [done|]. cbn [absorb].
  rewrite IH by (rewrite ?length_drop; try apply Forall_drop; done || lia).
  by rewrite Hfg by (rewrite ?length_take; try apply Forall_take; done || lia).
Qed.

Lemma absorb_all_sim {st st'} (Q : Z -> Prop) (f : st -> list Z -> st) (g : st' -> list Z -> st') (h : st -> st') s m :
  (∀ s b, length b = 64%nat -> Forall Q b -> h (f s b) = g (h s) b) -> Forall Q m ->
  h (absorb_all f s m) = absorb_all g (h s) m.
Proof.
  intros Hfg Hm. unfold absorb_all. apply (absorb_sim Q); [done| |done]. pose proof (Nat.div_mod_eq (length m) 64). lia.
Qed.
