(* ===== verification/Sha256.v ===== *)
(** * SHA-256 ([lib/sha256.c], [sha256_calculate] of [lib/rsa/rsa-checksum.c])

    The compression function as it is written, with registers that change
    their roles from round to round instead of being moved, and its
    equivalence with the definition of FIPS 180; with the streaming code of
    [HashStream] this gives the digests. *)

From S2P Require Import Prelude Crc HashStream.

Definition SHR (x n : Z) : Z := (x .& 0xFFFFFFFF) ≫ n.
Definition ROTR (x n : Z) : Z := SHR x n .| u32 (x ≪ (32 - n)).
Definition S0 (x : Z) : Z := ROTR x 7 .^ ROTR x 18 .^ SHR x 3.
Definition S1 (x : Z) : Z := ROTR x 17 .^ ROTR x 19 .^ SHR x 10.
Definition S2 (x : Z) : Z := ROTR x 2 .^ ROTR x 13 .^ ROTR x 22.
Definition S3 (x : Z) : Z := ROTR x 6 .^ ROTR x 11 .^ ROTR x 25.
Definition F0 (x y z : Z) : Z := (x .& y) .| (z .& (x .| y)).
Definition F1 (x y z : Z) : Z := z .^ (x .& (y .^ z)).

(** The constants of the 64 calls of [P]. *)
Definition K : list Z :=
  [0x428A2F98; 0x71374491; 0xB5C0FBCF; 0xE9B5DBA5; 0x3956C25B; 0x59F111F1;
   0x923F82A4; 0xAB1C5ED5; 0xD807AA98; 0x12835B01; 0x243185BE; 0x550C7DC3;
   0x72BE5D74; 0x80DEB1FE; 0x9BDC06A7; 0xC19BF174; 0xE49B69C1; 0xEFBE4786;
   0x0FC19DC6; 0x240CA1CC; 0x2DE92C6F; 0x4A7484AA; 0x5CB0A9DC; 0x76F988DA;
   0x983E5152; 0xA831C66D; 0xB00327C8; 0xBF597FC7; 0xC6E00BF3; 0xD5A79147;
   0x06CA6351; 0x14292967; 0x27B70A85; 0x2E1B2138; 0x4D2C6DFC; 0x53380D13;
   0x650A7354; 0x766A0ABB; 0x81C2C92E; 0x92722C85; 0xA2BFE8A1; 0xA81A664B;
   0xC24B8B70; 0xC76C51A3; 0xD192E819; 0xD6990624; 0xF40E3585; 0x106AA070;
   0x19A4C116; 0x1E376C08; 0x2748774C; 0x34B0BCB5; 0x391C0CB3; 0x4ED8AA4A;
   0x5B9CCA4F; 0x682E6FF3; 0x748F82EE; 0x78A5636F; 0x84C87814; 0x8CC70208;
   0x90BEFFFA; 0xA4506CEB; 0xBEF9A3F7; 0xC67178F2].

(** The eight registers, in the order of their roles in the next round. *)
Record regs := Regs { ra : Z; rb : Z; rc : Z; rd : Z; re : Z; rf : Z; rg : Z; rh : Z }.

(** [P(a,b,c,d,e,f,g,h,x,K)] changes [d] and [h]; the next call names the
    registers one place further, so that [h] has the role of [a]. *)
Definition P (r : regs) (x k : Z) : regs :=
  let temp1 := u32 (rh r + S3 (re r) + F1 (re r) (rf r) (rg r) + k + x) in
  let temp2 := u32 (S2 (ra r) + F0 (ra r) (rb r) (rc r)) in
  Regs (u32 (temp1 + temp2)) (ra r) (rb r) (rc r) (u32 (rd r + temp1)) (re r) (rf r) (rg r).

(** [W[t]] *)
Definition at_ (W : list Z) (t : nat) : Z := W !!! t.

(** [R(t)] computes and stores the next word. *)
Definition R (W : list Z) : list Z :=
  let t := length W in
  W ++ [u32 (S1 (at_ W (t - 2)) + at_ W (t - 7) + S0 (at_ W (t - 15)) + at_ W (t - 16))].

(** The rounds from [t] on, with the constants that are left. *)
Fixpoint rounds (ks : list Z) (t : nat) (W : list Z) (r : regs) : regs :=
  match ks with
  | [] => r
  | k :: ks =>
      let W := if (t <? 16)%nat then W else R W in
      rounds ks (S t) W (P r (at_ W t) k)
  end.

Definition add_state (s r : regs) : regs :=
  Regs (u32 (ra s + ra r)) (u32 (rb s + rb r)) (u32 (rc s + rc r)) (u32 (rd s + rd r))
       (u32 (re s + re r)) (u32 (rf s + rf r)) (u32 (rg s + rg r)) (u32 (rh s + rh r)).

(** After 64 rounds the registers have their first roles again. *)
Definition sha256_process (s : regs) (data : list Z) : regs :=
  add_state s (rounds K 0 (block_words 16 data) s).

Definition sha256_init : regs :=
  Regs 0x6A09E667 0xBB67AE85 0x3C6EF372 0xA54FF53A 0x510E527F 0x9B05688C 0x1F83D9AB 0x5BE0CD19.

(** The buffer of a context that was just declared has any contents. *)
Definition sha256_starts (buffer : list Z) : context := Ctx 0 0 sha256_init buffer.

Definition sha256_update : context -> list Z -> context := hash_update sha256_process 32.

Definition digest (s : regs) : list Z :=
  put_be32 (ra s) ++ put_be32 (rb s) ++ put_be32 (rc s) ++ put_be32 (rd s)
  ++ put_be32 (re s) ++ put_be32 (rf s) ++ put_be32 (rg s) ++ put_be32 (rh s).

Definition sha256_finish : context -> list Z := hash_finish sha256_process 32 digest.

(** Without a watchdog the input is hashed in one update. *)
Definition sha256_csum_wd (buffer input : list Z) : list Z :=
  sha256_finish (sha256_update (sha256_starts buffer) input).

Definition sha256_calculate (buffer : list Z) (region : list (list Z)) : list Z :=
  sha256_finish (foldl sha256_update (sha256_starts buffer) region).

(** ** The standard *)

Definition Ch (x y z : Z) : Z := (x .& y) .^ (Z.lnot x .& z).
Definition Maj (x y z : Z) : Z := (x .& y) .^ (x .& z) .^ (y .& z).

(** One step on the working variables [a] to [h]. *)
Definition fips_step (r : regs) (w k : Z) : regs :=
  let T1 := u32 (rh r + S3 (re r) + Ch (re r) (rf r) (rg r) + k + w) in
  let T2 := u32 (S2 (ra r) + Maj (ra r) (rb r) (rc r)) in
  Regs (u32 (T1 + T2)) (ra r) (rb r) (rc r) (u32 (rd r + T1)) (re r) (rf r) (rg r).

Fixpoint fips_rounds (ks ws : list Z) (r : regs) : regs :=
  match ks, ws with k :: ks, w :: ws => fips_rounds ks ws (fips_step r w k) | _, _ => r end.

(** The message schedule is computed first. *)
Definition schedule (M : list Z) : list Z := Nat.iter 48 R M.

Definition fips_compress (s : regs) (data : list Z) : regs :=
  add_state s (fips_rounds K (schedule (block_words 16 data)) s).

(** SHA-256 of a message: the whole padded message, block by block. *)
Definition fips_sha256 (m : list Z) : list Z :=
  digest (absorb_all fips_compress sha256_init (fips_pad m)).

(** ** Equivalence *)

Lemma F0_Maj x y z : F0 x y z = Maj x y z.
Proof.
  unfold F0, Maj. apply Z.bits_inj. intros i. rewrite Z.lor_spec, !Z.lxor_spec, !Z.land_spec, Z.lor_spec.
  by destruct (Z.testbit x i), (Z.testbit y i), (Z.testbit z i).
Qed.

Lemma F1_Ch x y z : F1 x y z = Ch x y z.
Proof.
  unfold F1, Ch. apply Z.bits_inj'. intros i Hi.
  rewrite !Z.lxor_spec, !Z.land_spec, Z.lxor_spec, Z.lnot_spec by done.
  by destruct (Z.testbit x i), (Z.testbit y i), (Z.testbit z i).
Qed.

Lemma P_fips_step r x k : P r x k = fips_step r x k.
Proof. unfold P, fips_step. by rewrite F0_Maj, F1_Ch. Qed.

Lemma R_length W : length (R W) = S (length W).
Proof. unfold R. rewrite length_app. cbn. lia. Qed.

Lemma iter_R n W : ∃ ws, Nat.iter n R W = W ++ ws /\ length ws = n.
Proof.
  induction n as [|n (ws & E & Hl)]; [exists []; by rewrite app_nil_r|]. rewrite Nat.iter_succ, E. unfold R at 1.
  eexists (ws ++ [_]). rewrite app_assoc. split; [done|]. rewrite length_app. cbn. lia.
Qed.

(** Extending the schedule while the rounds run gives the same words. *)
Lemma rounds_fips ks t n W r :
  length W = Nat.max 16 t -> (t + length ks = length W + n)%nat ->
  rounds ks t W r = fips_rounds ks (drop t (Nat.iter n R W)) r.
Proof.
  revert t n W r. induction ks as [|k ks IH]; intros t n W r HW Hn; [done|]. cbn [rounds length] in *.
  destruct (iter_R n W) as (ws & E & Hl). rewrite E.
  destruct (Nat.ltb_spec t 16) as [Hlt|Hge].
  - destruct (lookup_lt_is_Some_2 W t) as [x Hx]; [lia|].
    rewrite drop_app_le by lia. rewrite (drop_S W x t Hx). cbn [app fips_rounds].
    unfold at_. rewrite (list_lookup_total_correct _ _ _ Hx), P_fips_step, (IH (S t) n) by lia.
    by rewrite E, drop_app_le by lia.
  - assert (length W = t) as HWt by lia. destruct n as [|n]; [lia|].
    rewrite Nat.iter_succ_r in E. destruct (iter_R n (R W)) as (ws' & E' & Hl'). rewrite <-E, E'.
    rewrite (IH (S t) n) by (rewrite R_length; lia). rewrite E'.
    assert (∃ x, R W = W ++ [x]) as [x HR] by (by eexists). rewrite HR, <-!app_assoc.
    rewrite (drop_app_length' W _ t) by lia. cbn [app fips_rounds]. rewrite P_fips_step. f_equal.
    + rewrite app_cons_assoc. by rewrite drop_app_length' by (rewrite length_app; cbn; lia).
    + f_equal. unfold at_. rewrite lookup_total_app_r by lia. by rewrite HWt, Nat.sub_diag.
Qed.

Lemma sha256_process_fips s data : length data = 64%nat -> sha256_process s data = fips_compress s data.
Proof.
  intros Hl. unfold sha256_process, fips_compress. f_equal.
  assert (length (block_words 16 data) = 16%nat) as H16 by (by apply block_words_length).
  rewrite (rounds_fips K 0 48 _ s); [unfold schedule; rewrite drop_0; reflexivity| |]; rewrite H16; reflexivity.
Qed.

(** Hashing depends on the compression function only through whole blocks. *)
Lemma absorb_all_fips s m : absorb_all sha256_process s m = absorb_all fips_compress s m.
Proof.
  apply (absorb_all_sim (λ _, True) sha256_process fips_compress id); [|by apply Forall_true].
  intros s' b Hb _. by apply sha256_process_fips.
Qed.

Lemma sha256_rep buffer : length buffer = 64%nat -> rep sha256_process 32 sha256_init (sha256_starts buffer) [].
Proof. apply start_rep. Qed.

Lemma sha256_regions buffer region :
  length buffer = 64%nat -> Forall (λ r, Z.of_nat (length r) < 2 ^ 32) region ->
  Z.of_nat (length (concat region)) < 2 ^ 61 ->
  sha256_calculate buffer region = fips_sha256 (concat region).
Proof.
  intros Hb Hr Hl. unfold sha256_calculate, sha256_finish, fips_sha256.
  pose proof (regions_rep sha256_process 32 sha256_init _ [] region ltac:(lia) (sha256_rep buffer Hb) Hr) as Hrep.
  unfold hash_regions in Hrep. fold sha256_update in Hrep. cbn [app] in Hrep.
  rewrite (finish_spec sha256_process 32 digest _ sha256_init (concat region) ltac:(lia) Hrep Hl).
  by rewrite absorb_all_fips.
Qed.

(** C12. [sha256_calculate] over any split of a message into regions is SHA-256
    of the message: the rounds that extend the schedule as they go and rename
    their registers compute the function of FIPS 180, and the streaming code,
    from whatever the context's buffer held, keeps pending bytes, counts the
    length over two words and pads as the standard demands. *)
Theorem sha256_calculate_fips buffer region :
  length buffer = 64%nat -> Forall (λ r, Z.of_nat (length r) < 2 ^ 32) region ->
  Z.of_nat (length (concat region)) < 2 ^ 61 ->
  sha256_calculate buffer region = fips_sha256 (concat region).
Proof. apply sha256_regions. Qed.

(** "abc" in two pieces, and the digest that FIPS 180 prints for it. *)
Lemma sha256_calculate_fips_witness :
  sha256_calculate (replicate 64 7) [[97]; [98; 99]] = fips_sha256 [97; 98; 99]
  /\ fips_sha256 [97; 98; 99]
     = [0xBA; 0x78; 0x16; 0xBF; 0x8F; 0x01; 0xCF; 0xEA; 0x41; 0x41; 0x40; 0xDE; 0x5D; 0xAE; 0x22; 0x23;
        0xB0; 0x03; 0x61; 0xA3; 0x96; 0x17; 0x7A; 0x9C; 0xB4; 0x10; 0xFF; 0x61; 0xF2; 0x00; 0x15; 0xAD].
Proof.
  split; [|vm_compute; reflexivity].
  apply (sha256_calculate_fips (replicate 64 7) [[97]; [98; 99]]); [reflexivity|repeat constructor|reflexivity].
Defined.
