(* ===== verification/Sha1.v ===== *)
(** * SHA-1 and HMAC ([lib/sha1.c], [sha1_calculate] of [lib/rsa/rsa-checksum.c])

    [sha1.c] works on [unsigned long], which has 64 bits on the target: the
    upper halves of its words hold whatever the shifts and sums leave there, and
    only sixteen words of the schedule are kept.  The lower halves follow
    FIPS 180. *)

From S2P Require Import Prelude Crc HashStream.

(** [S(x,n)] on an [unsigned long]. *)
Definition S_ (x n : Z) : Z := u64 (x ≪ n) .| ((x .& 0xFFFFFFFF) ≫ (32 - n)).

(** The macros [F] and [K] of the four groups of rounds. *)
Definition F (t : nat) (x y z : Z) : Z :=
  if (t <? 20)%nat then z .^ (x .& (y .^ z))
  else if (t <? 40)%nat then x .^ y .^ z
  else if (t <? 60)%nat then (x .& y) .| (z .& (x .| y))
  else x .^ y .^ z.

Definition K (t : nat) : Z :=
  if (t <? 20)%nat then 0x5A827999
  else if (t <? 40)%nat then 0x6ED9EBA1
  else if (t <? 60)%nat then 0x8F1BBCDC
  else 0xCA62C1D6.

(** The five registers, in the order of their roles in the next round. *)
Record regs := Regs { ra : Z; rb : Z; rc : Z; rd : Z; re : Z }.

(** [P(a,b,c,d,e,x)] changes [e] and [b]; then [e] has the role of [a]. *)
Definition P (t : nat) (r : regs) (x : Z) : regs :=
  Regs (u64 (re r + (S_ (ra r) 5 + F t (rb r) (rc r) (rd r) + K t + x)))
       (ra r) (S_ (rb r) 30) (rc r) (rd r).

(** [W[i & 0x0F]] *)
Definition at_ (W : list Z) (i : nat) : Z := W !!! (i mod 16)%nat.

(** [R(t)] replaces the oldest of the sixteen words. *)
Definition R (t : nat) (W : list Z) : list Z :=
  let temp := at_ W (t - 3) .^ at_ W (t - 8) .^ at_ W (t - 14) .^ at_ W t in
  <[(t mod 16)%nat := S_ temp 1]> W.

(** [n] rounds from [t] on. *)
Fixpoint rounds (n t : nat) (W : list Z) (r : regs) : regs :=
  match n with
  | O => r
  | S n =>
      let W := if (t <? 16)%nat then W else R t W in
      rounds n (S t) W (P t r (at_ W t))
  end.

Definition add_state (s r : regs) : regs :=
  Regs (u64 (ra s + ra r)) (u64 (rb s + rb r)) (u64 (rc s + rc r)) (u64 (rd s + rd r)) (u64 (re s + re r)).

Definition sha1_process (s : regs) (data : list Z) : regs :=
  add_state s (rounds 80 0 (block_words 16 data) s).

Definition sha1_init : regs := Regs 0x67452301 0xEFCDAB89 0x98BADCFE 0x10325476 0xC3D2E1F0.

Definition sha1_starts (buffer : list Z) : context := Ctx 0 0 sha1_init buffer.

Definition sha1_update : context -> list Z -> context := hash_update sha1_process 64.

Definition digest (s : regs) : list Z :=
  put_be32 (ra s) ++ put_be32 (rb s) ++ put_be32 (rc s) ++ put_be32 (rd s) ++ put_be32 (re s).

Definition sha1_finish : context -> list Z := hash_finish sha1_process 64 digest.

Definition sha1_csum (buffer input : list Z) : list Z :=
  sha1_finish (sha1_update (sha1_starts buffer) input).

(** Without a watchdog, [sha1_csum_wd] is the same. *)
Definition sha1_csum_wd : list Z -> list Z -> list Z := sha1_csum.

Definition sha1_calculate (buffer : list Z) (region : list (list Z)) : list Z :=
  sha1_finish (foldl sha1_update (sha1_starts buffer) region).

(** [k_ipad[i] ^= key[i]] for at most 64 bytes of the key. *)
Definition key_pad (byte : Z) (key : list Z) : list Z :=
  let k := take 64 key in zip_with Z.lxor (replicate (length k) byte) k ++ replicate (64 - length k) byte.

Definition sha1_hmac (buffer key input : list Z) : list Z :=
  let ctx := sha1_update (sha1_update (sha1_starts buffer) (key_pad 0x36 key)) input in
  let tmpbuf := sha1_finish ctx in
  sha1_finish (sha1_update (sha1_update (sha1_starts buffer) (key_pad 0x5C key)) tmpbuf).

(** ** The standard, on 32-bit words *)

Definition ROTL (n x : Z) : Z := u32 (x ≪ n) .| (x ≫ (32 - n)).

Definition fips_f (t : nat) (x y z : Z) : Z :=
  if (t <? 20)%nat then (x .& y) .^ (Z.lnot x .& z)
  else if (t <? 40)%nat then x .^ y .^ z
  else if (t <? 60)%nat then (x .& y) .^ (x .& z) .^ (y .& z)
  else x .^ y .^ z.

Definition fips_step (t : nat) (r : regs) (w : Z) : regs :=
  Regs (u32 (ROTL 5 (ra r) + fips_f t (rb r) (rc r) (rd r) + re r + K t + w)) (ra r) (ROTL 30 (rb r)) (rc r) (rd r).

Fixpoint fips_rounds (t : nat) (ws : list Z) (r : regs) : regs :=
  match ws with [] => r | w :: ws => fips_rounds (S t) ws (fips_step t r w) end.

(** The schedule grows by one word. *)
Definition next_word (W : list Z) : Z :=
  let t := length W in
  ROTL 1 ((W !!! (t - 3)%nat) .^ (W !!! (t - 8)%nat) .^ (W !!! (t - 14)%nat) .^ (W !!! (t - 16)%nat)).

Definition schedule (M : list Z) : list Z := Nat.iter 64 (λ W, W ++ [next_word W]) M.

Definition add32 (s r : regs) : regs :=
  Regs (u32 (ra s + ra r)) (u32 (rb s + rb r)) (u32 (rc s + rc r)) (u32 (rd s + rd r)) (u32 (re s + re r)).

Definition fips_compress (s : regs) (data : list Z) : regs :=
  add32 s (fips_rounds 0 (schedule (block_words 16 data)) s).

Definition fips_sha1 (m : list Z) : list Z :=
  digest (absorb_all fips_compress sha1_init (fips_pad m)).

(** ** The lower halves of the words *)

Lemma u32_land x y : u32 (x .& y) = u32 x .& u32 y.
Proof. apply Z.bits_inj'. intros i Hi. unfold u32. rewrite Z.land_spec, !wrap_testbit, Z.land_spec by lia. by destruct (i <? 32). Qed.
Lemma u32_lor x y : u32 (x .| y) = u32 x .| u32 y.
Proof. apply Z.bits_inj'. intros i Hi. unfold u32. rewrite Z.lor_spec, !wrap_testbit, Z.lor_spec by lia. by destruct (i <? 32). Qed.
Lemma u32_lxor x y : u32 (x .^ y) = u32 x .^ u32 y.
Proof. apply Z.bits_inj'. intros i Hi. unfold u32. rewrite Z.lxor_spec, !wrap_testbit, Z.lxor_spec by lia. by destruct (i <? 32). Qed.

Lemma u32_u64 x : u32 (u64 x) = u32 x.
Proof. apply (u32_wrap 64). lia. Qed.

Lemma u32_add x y : u32 (u32 x + u32 y) = u32 (x + y).
Proof. unfold u32, wrap. by rewrite <-Zplus_mod. Qed.

Lemma u32_idemp x : u32 (u32 x) = u32 x.
Proof. apply (wrap_wrap 32). lia. Qed.

Lemma S_low x n : 0 < n < 32 -> u32 (S_ x n) = ROTL n (u32 x).
Proof.
  intros Hn. unfold S_, ROTL. rewrite u32_lor, u32_u64. change 0xFFFFFFFF with (Z.ones 32).
  rewrite Z.land_ones by lia. fold (u32 x). f_equal.
  - unfold u32, wrap. rewrite !Z.shiftl_mul_pow2 by lia. by rewrite Zmult_mod_idemp_l.
  - apply u32_small. pose proof (u32_range x). rewrite Z.shiftr_div_pow2 by lia.
    assert (0 < 2 ^ (32 - n)) by (apply Z.pow_pos_nonneg; lia).
    split; [apply Z.div_pos; lia|]. apply Z.div_lt_upper_bound; [lia|]. nia.
Qed.

Lemma F_low t x y z : u32 (F t x y z) = fips_f t (u32 x) (u32 y) (u32 z).
Proof.
  unfold F, fips_f. repeat case_test; rewrite ?u32_lxor, ?u32_lor, ?u32_land, ?u32_lxor, ?u32_lor; try done.
  all: apply Z.bits_inj'; intros i Hi;
    rewrite ?Z.lor_spec, ?Z.lxor_spec, ?Z.land_spec, ?Z.lxor_spec, ?Z.lor_spec, ?Z.lnot_spec by done;
    by destruct (Z.testbit (u32 x) i), (Z.testbit (u32 y) i), (Z.testbit (u32 z) i).
Qed.

Definition low (r : regs) : regs := Regs (u32 (ra r)) (u32 (rb r)) (u32 (rc r)) (u32 (rd r)) (u32 (re r)).

Lemma u32_add_cong a a' b b' : u32 a = u32 a' -> u32 b = u32 b' -> u32 (a + b) = u32 (a' + b').
Proof. intros Ha Hb. by rewrite <-(u32_add a), Ha, Hb, u32_add. Qed.

Lemma P_low t r x : low (P t r x) = fips_step t (low r) (u32 x).
Proof.
  unfold low, P, fips_step. cbn [ra rb rc rd re]. rewrite S_low by lia. f_equal.
  rewrite u32_u64, <-(S_low (ra r) 5), <-F_low by lia.
  replace (re r + (S_ (ra r) 5 + F t (rb r) (rc r) (rd r) + K t + x))
    with (S_ (ra r) 5 + F t (rb r) (rc r) (rd r) + re r + K t + x) by lia.
  repeat apply u32_add_cong; by rewrite ?u32_idemp.
Qed.

Lemma add_low s r : low (add_state s r) = add32 (low s) (low r).
Proof. unfold low, add_state, add32. cbn [ra rb rc rd re]. by rewrite !u32_u64, !u32_add. Qed.

Lemma digest_low s : digest (low s) = digest s.
Proof.
  unfold digest, low. cbn [ra rb rc rd re].
  by rewrite !(put_be32_u32 (u32 _) _ (u32_idemp _)).
Qed.


(** ** The sixteen words and the schedule *)

(** The word [j] of the schedule, for the last sixteen that exist, is kept at
    [j & 0x0F]. *)
Definition circular (t : nat) (W V : list Z) : Prop :=
  length W = 16%nat /\ length V = Nat.max 16 t
  /\ ∀ j, (Nat.max 16 t - 16 <= j < Nat.max 16 t)%nat -> u32 (at_ W j) = V !!! j.

Definition ext (V : list Z) : list Z := V ++ [next_word V].

Lemma circular_R t W V : (16 <= t)%nat -> circular t W V -> circular (S t) (R t W) (ext V).
Proof.
  intros Ht (HW & HV & Hj). rewrite Nat.max_r in * by lia.
  assert (t mod 16 < 16)%nat as Hlt by (apply Nat.mod_upper_bound; lia).
  unfold circular, R, ext. rewrite Nat.max_r, length_insert, length_app, HV by lia. cbn [length].
  split_and!; [done|lia|]. intros j Hjr. unfold at_ at 1.
  destruct (Nat.eq_dec j t) as [->|Hne].
  - rewrite list_lookup_total_insert_eq by lia. rewrite lookup_total_app_r, HV, Nat.sub_diag by lia.
    cbn [lookup_total list_lookup_total]. rewrite S_low by lia. unfold next_word. rewrite HV.
    rewrite !u32_lxor, !Hj by lia. do 2 f_equal. rewrite <-Hj by lia. f_equal. unfold at_. f_equal.
    rewrite <-(Nat.Div0.mod_add (t - 16) 1 16). f_equal. lia.
  - assert (j mod 16 <> t mod 16)%nat.
    { pose proof (Nat.div_mod_eq j 16). pose proof (Nat.div_mod_eq t 16). lia. }
    rewrite list_lookup_total_insert_ne by done. rewrite lookup_total_app_l by lia. apply Hj. lia.
Qed.

Lemma circular_step t W V : (t < 16)%nat -> circular t W V -> circular (S t) W V.
Proof. intros Ht H. unfold circular in *. by rewrite Nat.max_l in * by lia. Qed.

Lemma iter_ext n V : ∃ ws, Nat.iter n ext V = V ++ ws /\ length ws = n.
Proof.
  induction n as [|n (ws & E & Hl)]; [exists []; by rewrite app_nil_r|]. rewrite Nat.iter_succ, E. unfold ext at 1.
  eexists (ws ++ [_]). rewrite app_assoc. split; [done|]. rewrite length_app. cbn. lia.
Qed.

Lemma drop_iter_ext t k V :
  (t < length V)%nat -> drop t (Nat.iter k ext V) = V !!! t :: drop (S t) (Nat.iter k ext V).
Proof.
  intros Ht. destruct (iter_ext k V) as (ws & -> & _). destruct (lookup_lt_is_Some_2 V t Ht) as [x Hx].
  rewrite (drop_S (V ++ ws) x t) by (by apply lookup_app_l_Some). by rewrite (list_lookup_total_correct _ _ _ Hx).
Qed.

Lemma rounds_fips_low n t k W V r :
  circular t W V -> (t + n = length V + k)%nat ->
  low (rounds n t W r) = fips_rounds t (drop t (Nat.iter k ext V)) (low r).
Proof.
  revert t k W V r. induction n as [|n IH]; intros t k W V r HC Hn; pose proof HC as (HW & HV & Hj).
  - rewrite drop_ge; [done|]. destruct (iter_ext k V) as (ws & -> & Hl). rewrite length_app. lia.
  - cbn [rounds]. destruct (Nat.ltb_spec t 16) as [Hlt|Hge].
    + rewrite drop_iter_ext by lia. cbn [fips_rounds].
      rewrite (IH (S t) k W V) by (try apply circular_step; done || lia). by rewrite P_low, Hj by lia.
    + destruct k as [|k]; [lia|]. rewrite Nat.iter_succ_r. apply circular_R in HC; [|done].
      pose proof HC as (_ & HV' & Hj'). rewrite drop_iter_ext by lia. cbn [fips_rounds].
      rewrite (IH (S t) k _ _ _ HC) by lia. by rewrite P_low, Hj' by lia.
Qed.

Lemma get_be32_word b0 b1 b2 b3 :
  byte b0 -> byte b1 -> byte b2 -> byte b3 -> u32 (get_be32 b0 b1 b2 b3) = get_be32 b0 b1 b2 b3.
Proof.
  unfold byte. intros H0 H1 H2 H3. apply (wrap_small 32). unfold get_be32.
  repeat apply lor_in_word; try lia; rewrite ?Z.shiftl_mul_pow2 by lia; unfold in_word; lia.
Qed.

Lemma block_words_range n data : Forall byte data -> Forall (λ x, u32 x = x) (block_words n data).
Proof.
  revert data. induction n as [|n IH]; intros data Hb; [constructor|].
  destruct data as [|b0 [|b1 [|b2 [|b3 data]]]]; cbn [block_words]; try by constructor.
  rewrite !Forall_cons in Hb. destruct Hb as (H0 & H1 & H2 & H3 & Hb).
  constructor; [by apply get_be32_word|by apply IH].
Qed.

Lemma sha1_process_low s data :
  length data = 64%nat -> Forall byte data -> low (sha1_process s data) = fips_compress (low s) data.
Proof.
  intros Hl Hb. unfold sha1_process, fips_compress. rewrite add_low. f_equal.
  assert (length (block_words 16 data) = 16%nat) as H16 by (by apply block_words_length).
  rewrite (rounds_fips_low 80 0 64 _ (block_words 16 data)); [|split_and!; [done|done|]|lia].
  - unfold schedule. rewrite drop_0. reflexivity.
  - intros j Hj. unfold at_. rewrite Nat.mod_small by lia.
    destruct (lookup_lt_is_Some_2 (block_words 16 data) j) as [x Hx]; [lia|].
    rewrite (list_lookup_total_correct _ _ _ Hx).
    exact (proj1 (Forall_lookup _ _) (block_words_range 16 data Hb) j x Hx).
Qed.

(** The digest of what the streaming code has taken in. *)
Lemma sha1_finish_rep ctx m :
  rep sha1_process 64 sha1_init ctx m -> Forall byte m -> Z.of_nat (length m) < 2 ^ 61 ->
  sha1_finish ctx = fips_sha1 m.
Proof.
  intros Hrep Hb Hl. unfold sha1_finish, fips_sha1.
  rewrite (finish_spec sha1_process 64 digest ctx sha1_init m ltac:(lia) Hrep Hl), <-digest_low. f_equal.
  apply (absorb_all_sim byte sha1_process fips_compress low); [|by apply fips_pad_bytes].
  intros s b. apply sha1_process_low.
Qed.

Lemma sha1_regions_rep buffer region :
  length buffer = 64%nat -> Forall (λ r, Z.of_nat (length r) < 2 ^ 32) region ->
  rep sha1_process 64 sha1_init (foldl sha1_update (sha1_starts buffer) region) (concat region).
Proof.
  intros Hb Hr.
  exact (regions_rep sha1_process 64 sha1_init _ [] region ltac:(lia) (start_rep sha1_process 64 sha1_init buffer Hb) Hr).
Qed.

Lemma sha1_two buffer a b :
  length buffer = 64%nat -> Forall byte (a ++ b) -> Z.of_nat (length a) < 2 ^ 32 -> Z.of_nat (length b) < 2 ^ 32 ->
  sha1_finish (sha1_update (sha1_update (sha1_starts buffer) a) b) = fips_sha1 (a ++ b).
Proof.
  intros Hbuf Hb Hla Hlb. pose proof (sha1_regions_rep buffer [a; b] Hbuf) as Hrep.
  cbn [foldl concat] in Hrep. rewrite app_nil_r in Hrep.
  apply sha1_finish_rep; [apply Hrep; by repeat constructor|done|rewrite length_app; lia].
Qed.

Lemma digest_bytes s : Forall byte (digest s).
Proof. unfold digest. repeat apply Forall_app_2; apply put_be32_bytes. Qed.

Lemma sha1_regions buffer region :
  length buffer = 64%nat -> Forall (λ r, Z.of_nat (length r) < 2 ^ 32) region ->
  Forall byte (concat region) -> Z.of_nat (length (concat region)) < 2 ^ 61 ->
  sha1_calculate buffer region = fips_sha1 (concat region).
Proof. intros Hb Hr Hby Hl. apply sha1_finish_rep; [by apply sha1_regions_rep|done|done]. Qed.

(** [sha1_calculate] over any split of a message into regions is SHA-1 of
    the message, on a target whose [unsigned long] has 64 bits and whatever the
    context's buffer held: the circular sixteen words, the registers that
    change roles and the unmasked upper halves of the words compute the 80 steps
    of FIPS 180 on 32-bit words, and the streaming code pads as it demands. *)
Theorem sha1_calculate_fips buffer region :
  length buffer = 64%nat -> Forall (λ r, Z.of_nat (length r) < 2 ^ 32) region ->
  Forall byte (concat region) -> Z.of_nat (length (concat region)) < 2 ^ 61 ->
  sha1_calculate buffer region = fips_sha1 (concat region).
Proof. apply sha1_regions. Qed.

(** "abc" in two pieces, and the digest that FIPS 180 prints for it. *)
Lemma sha1_calculate_fips_witness :
  sha1_calculate (replicate 64 7) [[97]; [98; 99]] = fips_sha1 [97; 98; 99]
  /\ fips_sha1 [97; 98; 99]
     = [0xA9; 0x99; 0x3E; 0x36; 0x47; 0x06; 0x81; 0x6A; 0xBA; 0x3E;
        0x25; 0x71; 0x78; 0x50; 0xC2; 0x6C; 0x9C; 0xD0; 0xD8; 0x9D].
Proof.
  split; [|vm_compute; reflexivity].
  apply (sha1_calculate_fips (replicate 64 7) [[97]; [98; 99]]);
    [reflexivity|repeat constructor|repeat constructor; unfold byte; lia|reflexivity].
Defined.

(** ** HMAC *)

(** RFC 2104: keys longer than a block are hashed first. *)
Definition hmac_key (key : list Z) : list Z :=
  let k := if (64 <? length key)%nat then fips_sha1 key else key in k ++ replicate (64 - length k) 0.

Definition hmac_sha1 (key m : list Z) : list Z :=
  fips_sha1 (map (Z.lxor 0x5C) (hmac_key key) ++ fips_sha1 (map (Z.lxor 0x36) (hmac_key key) ++ m)).

Lemma key_pad_spec b key : (length key <= 64)%nat -> key_pad b key = map (Z.lxor b) (hmac_key key).
Proof.
  intros Hl. unfold key_pad, hmac_key. rewrite take_ge by lia. rewrite (proj2 (Nat.ltb_ge _ _)) by lia. cbn zeta.
  rewrite map_app. f_equal.
  - clear Hl. induction key as [|x key IH]; [done|]. cbn. by f_equal.
  - induction (64 - length key)%nat as [|n IH]; [done|]. cbn [replicate map]. by rewrite IH, Z.lxor_0_r.
Qed.

Lemma key_pad_length b key : length (key_pad b key) = 64%nat.
Proof. unfold key_pad. cbn zeta. rewrite length_app, length_zip_with, !length_replicate, length_take. lia. Qed.

Lemma key_pad_bytes b key : byte b -> Forall byte key -> Forall byte (key_pad b key).
Proof.
  intros Hb Hk. unfold key_pad. cbn zeta. apply Forall_app_2; [|by apply Forall_replicate].
  assert (Forall byte (take 64 key)) as H by (by apply Forall_take).
  induction H as [|x k Hx _ IH]; cbn [length replicate zip_with]; [constructor|].
  constructor; [exact (lxor_in_word 8 b x ltac:(lia) Hb Hx)|done].
Qed.

Lemma sha1_hmac_pads buffer key input :
  length buffer = 64%nat -> Forall byte key -> Forall byte input -> Z.of_nat (length input) < 2 ^ 32 ->
  sha1_hmac buffer key input = fips_sha1 (key_pad 0x5C key ++ fips_sha1 (key_pad 0x36 key ++ input)).
Proof.
  intros Hb Hk Hi Hl. unfold sha1_hmac. cbn zeta.
  assert (byte 0x36 /\ byte 0x5C) as [H36 H5C] by (unfold byte; lia).
  rewrite (sha1_two buffer (key_pad 0x36 key)), (sha1_two buffer (key_pad 0x5C key));
    rewrite ?key_pad_length; try done; try (apply Forall_app_2; auto using key_pad_bytes).
  apply digest_bytes.
Qed.

(** [sha1_hmac] is HMAC-SHA-1 of RFC 2104 for every key of at most one block
    of 64 bytes: the pads, the two passes and the reuse of the context. *)
Theorem sha1_hmac_rfc2104 buffer key input :
  length buffer = 64%nat -> (length key <= 64)%nat -> Forall byte key -> Forall byte input ->
  Z.of_nat (length input) < 2 ^ 32 ->
  sha1_hmac buffer key input = hmac_sha1 key input.
Proof. intros Hb Hlk Hk Hi Hl. rewrite sha1_hmac_pads by done. unfold hmac_sha1. by rewrite <-!key_pad_spec. Qed.

Lemma sha1_hmac_rfc2104_witness :
  sha1_hmac (replicate 64 0) [1; 2; 3] [4; 5] = hmac_sha1 [1; 2; 3] [4; 5].
Proof.
  apply (sha1_hmac_rfc2104 (replicate 64 0) [1; 2; 3] [4; 5]);
    [reflexivity|cbn; lia|repeat constructor; unfold byte; lia|repeat constructor; unfold byte; lia|reflexivity].
Defined.

(** A longer key is cut off at 64 bytes instead of being hashed. *)
Lemma sha1_hmac_long_key :
  sha1_hmac (replicate 64 0) (replicate 65 1) [4] <> hmac_sha1 (replicate 65 1) [4]
  /\ sha1_hmac (replicate 64 0) (replicate 65 1) [4] = sha1_hmac (replicate 64 0) (replicate 64 1) [4].
Proof. split; vm_compute; [discriminate|reflexivity]. Qed.
