(* ===== verification/Fdt.v ===== *)
(** * Reading flattened device trees ([lib/libfdt/fdt.c], [lib/libfdt/fdt_ro.c])

    A blob is the list of its bytes; a pointer into it is the position of the
    byte, and [None] is an access outside of the blob (or, where a loop has
    fuel, a loop that does not end).  Offsets of nodes and properties count from
    the structure block; negative ones are error codes. *)

From S2P Require Import Prelude Crc Bytes Ctype Cstring Hashtable.

Definition FDT_ERR_NOTFOUND : Z := 1.
Definition FDT_ERR_NOSPACE : Z := 3.
Definition FDT_ERR_BADOFFSET : Z := 4.
Definition FDT_ERR_BADPATH : Z := 5.
Definition FDT_ERR_BADPHANDLE : Z := 6.
Definition FDT_ERR_BADSTATE : Z := 7.
Definition FDT_ERR_TRUNCATED : Z := 8.
Definition FDT_ERR_BADMAGIC : Z := 9.
Definition FDT_ERR_BADVERSION : Z := 10.
Definition FDT_ERR_BADSTRUCTURE : Z := 11.
Definition FDT_ERR_BADLAYOUT : Z := 12.
Definition FDT_ERR_INTERNAL : Z := 13.

Definition FDT_MAGIC : Z := 0xd00dfeed.
Definition FDT_SW_MAGIC : Z := 0x2ff20112.
Definition FDT_FIRST_SUPPORTED_VERSION : Z := 0x10.
Definition FDT_LAST_SUPPORTED_VERSION : Z := 0x11.
Definition FDT_BEGIN_NODE : Z := 1.
Definition FDT_END_NODE : Z := 2.
Definition FDT_PROP : Z := 3.
Definition FDT_NOP : Z := 4.
Definition FDT_END : Z := 9.

(** Characters of a literal. *)
Definition chars (s : String.string) : cstr := map (λ a, Z.of_N (Ascii.N_of_ascii a)) (String.list_ascii_of_string s).

(** ** Memory of a blob *)

(** [fdt32_to_cpu] of the word at a position. *)
Definition rd32 (fdt : list Z) (p : Z) : option Z :=
  if decide (0 <= p /\ p + 4 <= Z.of_nat (length fdt)) then Some (be32 (take 4 (drop (Z.to_nat p) fdt))) else None.

(** [fdt64_to_cpu] of the eight bytes at a position. *)
Definition rd64 (fdt : list Z) (p : Z) : option Z :=
  if decide (0 <= p /\ p + 8 <= Z.of_nat (length fdt)) then Some (be32 (take 8 (drop (Z.to_nat p) fdt))) else None.

(** [memcmp(p, s, len) == 0], which stops at the first difference. *)
Fixpoint eq_at (fdt : list Z) (p : Z) (s : list Z) : option bool :=
  match s with
  | [] => Some true
  | c :: s => b ← aget fdt p; if b =? c then eq_at fdt (p + 1) s else Some false
  end.

(** [strnlen(p, n)] *)
Fixpoint strnlen_at (n : nat) (fdt : list Z) (p : Z) : option nat :=
  match n with
  | O => Some O
  | S n => b ← aget fdt p; if b =? 0 then Some O else l ← strnlen_at n fdt (p + 1); Some (S l)
  end.

(** The characters up to the next NUL; a string ends before the blob does. *)
Fixpoint string_from (l : list Z) : option cstr :=
  match l with
  | [] => None
  | c :: l => if c =? 0 then Some [] else s ← string_from l; Some (c :: s)
  end.

Definition string_at (fdt : list Z) (p : Z) : option cstr :=
  if decide (0 <= p) then string_from (drop (Z.to_nat p) fdt) else None.

(** ** The header *)

Definition fdt_magic (fdt : list Z) : option Z := rd32 fdt 0.
Definition fdt_totalsize (fdt : list Z) : option Z := rd32 fdt 4.
Definition fdt_off_dt_struct (fdt : list Z) : option Z := rd32 fdt 8.
Definition fdt_off_dt_strings (fdt : list Z) : option Z := rd32 fdt 12.
Definition fdt_off_mem_rsvmap (fdt : list Z) : option Z := rd32 fdt 16.
Definition fdt_version (fdt : list Z) : option Z := rd32 fdt 20.
Definition fdt_last_comp_version (fdt : list Z) : option Z := rd32 fdt 24.
Definition fdt_size_dt_strings (fdt : list Z) : option Z := rd32 fdt 32.
Definition fdt_size_dt_struct (fdt : list Z) : option Z := rd32 fdt 36.

Definition fdt_check_header (fdt : list Z) : option Z :=
  magic ← fdt_magic fdt;
  if magic =? FDT_MAGIC then
    version ← fdt_version fdt;
    if version <? FDT_FIRST_SUPPORTED_VERSION then Some (- FDT_ERR_BADVERSION)
    else
      last ← fdt_last_comp_version fdt;
      if FDT_LAST_SUPPORTED_VERSION <? last then Some (- FDT_ERR_BADVERSION) else Some 0
  else if magic =? FDT_SW_MAGIC then
    size ← fdt_size_dt_struct fdt;
    if size =? 0 then Some (- FDT_ERR_BADSTATE) else Some 0
  else Some (- FDT_ERR_BADMAGIC).

(** [FDT_CHECK_HEADER]: the rest runs only when the header is good. *)
Definition with_header {A} (fdt : list Z) (fail : Z -> A) (k : option A) : option A :=
  err ← fdt_check_header fdt; if err =? 0 then k else Some (fail err).

Definition _fdt_offset_ptr (fdt : list Z) (offset : Z) : option Z :=
  base ← fdt_off_dt_struct fdt; Some (base + offset).

(** The pointer, or NULL.  [offset + len] is unsigned; a pointer does not wrap. *)
Definition fdt_offset_ptr (fdt : list Z) (offset len : Z) : option (option Z) :=
  version ← fdt_version fdt;
  bad ← (if 0x11 <=? version then
           size ← fdt_size_dt_struct fdt;
           Some ((u32 (offset + len) <? u32 offset) || (size <? u32 (offset + len)))
         else Some false);
  if bad : bool then Some None else p ← _fdt_offset_ptr fdt offset; Some (Some p).

(** ** Tags *)

(** The loop over the name of a node: the offset behind its NUL, or NULL was
    met. *)
Fixpoint skip_name (fuel : nat) (fdt : list Z) (offset : Z) : option (option Z) :=
  match fuel with
  | O => None
  | S fuel =>
      p ← fdt_offset_ptr fdt offset 1;
      match p with
      | None => Some None
      | Some p => c ← aget fdt p; if c =? 0 then Some (Some (offset + 1)) else skip_name fuel fdt (offset + 1)
      end
  end.

Definition FDT_TAGALIGN (x : Z) : Z := s32 ((x + 3) .& Z.lnot 3).

(** The tag and [*nextoffset].  A name is shorter than the blob, which bounds
    the fuel. *)
Definition fdt_next_tag (fdt : list Z) (startoffset : Z) : option (Z * Z) :=
  tagp ← fdt_offset_ptr fdt startoffset 4;
  match tagp with
  | None => Some (FDT_END, - FDT_ERR_TRUNCATED)
  | Some tagp =>
      tag ← rd32 fdt tagp;
      let offset := startoffset + 4 in
      let premature := Some (FDT_END, - FDT_ERR_BADSTRUCTURE) in
      let finish offset :=
        p ← fdt_offset_ptr fdt startoffset (u32 (offset - startoffset));
        match p with
        | None => premature
        | Some _ => Some (tag, FDT_TAGALIGN offset)
        end in
      if tag =? FDT_BEGIN_NODE then
        o ← skip_name (S (length fdt)) fdt offset;
        match o with None => premature | Some offset => finish offset end
      else if tag =? FDT_PROP then
        lenp ← fdt_offset_ptr fdt offset 4;
        match lenp with
        | None => premature
        | Some lenp => len ← rd32 fdt lenp; finish (s32 (offset + 8 + len))
        end
      else if (tag =? FDT_END) || (tag =? FDT_END_NODE) || (tag =? FDT_NOP) then finish offset
      else premature
  end.

Definition _fdt_check_node_offset (fdt : list Z) (offset : Z) : option Z :=
  if (offset <? 0) || negb (offset mod 4 =? 0) then Some (- FDT_ERR_BADOFFSET)
  else
    '(tag, next) ← fdt_next_tag fdt offset;
    Some (if tag =? FDT_BEGIN_NODE then next else - FDT_ERR_BADOFFSET).

Definition _fdt_check_prop_offset (fdt : list Z) (offset : Z) : option Z :=
  if (offset <? 0) || negb (offset mod 4 =? 0) then Some (- FDT_ERR_BADOFFSET)
  else
    '(tag, next) ← fdt_next_tag fdt offset;
    Some (if tag =? FDT_PROP then next else - FDT_ERR_BADOFFSET).

(** ** Nodes *)

(** The [do] loop of [fdt_next_node], from the next offset; [depth] is [None]
    when the caller passed NULL.  The result is the offset and the depth. *)
Fixpoint next_node_loop (fuel : nat) (fdt : list Z) (offset : Z) (depth : option Z) : option (Z * option Z) :=
  match fuel with
  | O => None
  | S fuel =>
      '(tag, next) ← fdt_next_tag fdt offset;
      if tag =? FDT_BEGIN_NODE then Some (offset, (λ d, d + 1) <$> depth)
      else if tag =? FDT_END_NODE then
        match depth with
        | Some d => if d - 1 <? 0 then Some (next, Some (d - 1)) else next_node_loop fuel fdt next (Some (d - 1))
        | None => next_node_loop fuel fdt next None
        end
      else if tag =? FDT_END then
        if (0 <=? next) || ((next =? - FDT_ERR_TRUNCATED) && bool_decide (depth = None))
        then Some (- FDT_ERR_NOTFOUND, depth) else Some (next, depth)
      else next_node_loop fuel fdt next depth
  end.

(** Every tag takes four bytes or more, so that the length of the blob is
    enough fuel unless the offset does not move. *)
Definition fdt_next_node (fdt : list Z) (offset : Z) (depth : option Z) : option (Z * option Z) :=
  next ← (if 0 <=? offset then _fdt_check_node_offset fdt offset else Some 0);
  if (0 <=? offset) && (next <? 0) then Some (next, depth)
  else next_node_loop (S (length fdt)) fdt next depth.

Definition fdt_first_subnode (fdt : list Z) (offset : Z) : option Z :=
  '(offset, depth) ← fdt_next_node fdt offset (Some 0);
  Some (if (offset <? 0) || negb (default 0 depth =? 1) then - FDT_ERR_NOTFOUND else offset).

Fixpoint next_subnode_loop (fuel : nat) (fdt : list Z) (offset depth : Z) : option Z :=
  match fuel with
  | O => None
  | S fuel =>
      '(offset, depth) ← fdt_next_node fdt offset (Some depth);
      let depth := default 0 depth in
      if (offset <? 0) || (depth <? 1) then Some (- FDT_ERR_NOTFOUND)
      else if 1 <? depth then next_subnode_loop fuel fdt offset depth
      else Some offset
  end.

Definition fdt_next_subnode (fdt : list Z) (offset : Z) : option Z :=
  next_subnode_loop (S (length fdt)) fdt offset 1.

(** [memchr(s, '@', len)] found nothing. *)
Definition no_at (s : cstr) : bool := forallb (λ c, negb (c =? 64)) s.

Definition _fdt_nodename_eq (fdt : list Z) (offset : Z) (s : cstr) : option bool :=
  p ← fdt_offset_ptr fdt (offset + 4) (Z.of_nat (length s) + 1);
  match p with
  | None => Some false
  | Some p =>
      e ← eq_at fdt p s;
      if negb e then Some false
      else
        c ← aget fdt (p + Z.of_nat (length s));
        Some (if c =? 0 then true else no_at s && (c =? 64))
  end.

Fixpoint subnode_loop (fuel : nat) (fdt : list Z) (offset depth : Z) (name : cstr) : option Z :=
  match fuel with
  | O => None
  | S fuel =>
      if negb ((0 <=? offset) && (0 <=? depth)) then Some (if depth <? 0 then - FDT_ERR_NOTFOUND else offset)
      else
        found ← (if depth =? 1 then _fdt_nodename_eq fdt offset name else Some false);
        if found : bool then Some offset
        else
          '(offset, depth) ← fdt_next_node fdt offset (Some depth);
          subnode_loop fuel fdt offset (default 0 depth) name
  end.

Definition fdt_subnode_offset_namelen (fdt : list Z) (offset : Z) (name : cstr) : option Z :=
  with_header fdt id (subnode_loop (2 + length fdt) fdt offset 0 name).

Definition fdt_subnode_offset (fdt : list Z) (parentoffset : Z) (name : cstr) : option Z :=
  fdt_subnode_offset_namelen fdt parentoffset name.

(** The name of a node, or the error. *)
Definition fdt_get_name (fdt : list Z) (nodeoffset : Z) : option (Z + cstr) :=
  nh ← _fdt_offset_ptr fdt nodeoffset;
  with_header fdt inl
    (err ← _fdt_check_node_offset fdt nodeoffset;
     if err <? 0 then Some (inl err) else s ← string_at fdt (nh + 4); Some (inr s)).

(** ** Properties *)

Definition fdt_string (fdt : list Z) (stroffset : Z) : option Z :=
  base ← fdt_off_dt_strings fdt; Some (base + stroffset).

Definition _fdt_string_eq (fdt : list Z) (stroffset : Z) (s : cstr) : option bool :=
  p ← fdt_string fdt stroffset;
  n ← strnlen_at (length s + 1) fdt p;
  if negb (n =? length s)%nat then Some false else eq_at fdt p s.

Fixpoint nextprop_loop (fuel : nat) (fdt : list Z) (offset : Z) : option Z :=
  match fuel with
  | O => None
  | S fuel =>
      '(tag, next) ← fdt_next_tag fdt offset;
      if tag =? FDT_END then Some (if 0 <=? next then - FDT_ERR_BADSTRUCTURE else next)
      else if tag =? FDT_PROP then Some offset
      else if tag =? FDT_NOP then nextprop_loop fuel fdt next
      else Some (- FDT_ERR_NOTFOUND)
  end.

Definition _nextprop (fdt : list Z) (offset : Z) : option Z := nextprop_loop (S (length fdt)) fdt offset.

Definition fdt_first_property_offset (fdt : list Z) (nodeoffset : Z) : option Z :=
  offset ← _fdt_check_node_offset fdt nodeoffset;
  if offset <? 0 then Some offset else _nextprop fdt offset.

Definition fdt_next_property_offset (fdt : list Z) (offset : Z) : option Z :=
  offset ← _fdt_check_prop_offset fdt offset;
  if offset <? 0 then Some offset else _nextprop fdt offset.

(** A property is its position in the blob and its length; otherwise the
    error that is stored in [*lenp]. *)
Definition fdt_get_property_by_offset (fdt : list Z) (offset : Z) : option (Z + Z * Z) :=
  err ← _fdt_check_prop_offset fdt offset;
  if err <? 0 then Some (inl err)
  else
    prop ← _fdt_offset_ptr fdt offset;
    len ← rd32 fdt (prop + 4);
    Some (inr (prop, s32 len)).

Fixpoint property_loop (fuel : nat) (fdt : list Z) (offset : Z) (name : cstr) : option (Z + Z * Z) :=
  match fuel with
  | O => None
  | S fuel =>
      if offset <? 0 then Some (inl offset)
      else
        r ← fdt_get_property_by_offset fdt offset;
        match r with
        | inl _ => Some (inl (- FDT_ERR_INTERNAL))
        | inr (prop, len) =>
            nameoff ← rd32 fdt (prop + 8);
            eq ← _fdt_string_eq fdt (s32 nameoff) name;
            if eq : bool then Some (inr (prop, len))
            else offset ← fdt_next_property_offset fdt offset; property_loop fuel fdt offset name
        end
  end.

Definition fdt_get_property_namelen (fdt : list Z) (offset : Z) (name : cstr) : option (Z + Z * Z) :=
  offset ← fdt_first_property_offset fdt offset;
  property_loop (2 + length fdt) fdt offset name.

Definition fdt_get_property (fdt : list Z) (nodeoffset : Z) (name : cstr) : option (Z + Z * Z) :=
  fdt_get_property_namelen fdt nodeoffset name.

(** The position of the data and its length. *)
Definition fdt_getprop_namelen (fdt : list Z) (nodeoffset : Z) (name : cstr) : option (Z + Z * Z) :=
  r ← fdt_get_property_namelen fdt nodeoffset name;
  Some (match r with inl e => inl e | inr (prop, len) => inr (prop + 12, len) end).

Definition fdt_getprop (fdt : list Z) (nodeoffset : Z) (name : cstr) : option (Z + Z * Z) :=
  fdt_getprop_namelen fdt nodeoffset name.

(** Position and length of the data, and the position of the name. *)
Definition fdt_getprop_by_offset (fdt : list Z) (offset : Z) : option (Z + Z * Z * Z) :=
  r ← fdt_get_property_by_offset fdt offset;
  match r with
  | inl e => Some (inl e)
  | inr (prop, len) =>
      nameoff ← rd32 fdt (prop + 8);
      namep ← fdt_string fdt (s32 nameoff);
      Some (inr (prop + 12, len, namep))
  end.

Definition fdt_get_phandle (fdt : list Z) (nodeoffset : Z) : option Z :=
  php ← fdt_getprop fdt nodeoffset (chars "phandle");
  match php with
  | inr (p, 4) => rd32 fdt p
  | _ =>
      php ← fdt_getprop fdt nodeoffset (chars "linux,phandle");
      match php with
      | inr (p, 4) => rd32 fdt p
      | _ => Some 0
      end
  end.

(** ** Paths *)

(** The part of a path before the first [/] or [:], and the rest. *)
Fixpoint fdt_path_next_seperator (path : cstr) : cstr * cstr :=
  match path with
  | [] => ([], [])
  | c :: path' =>
      if (c =? 47) || (c =? 58) then ([], path)
      else let '(a, b) := fdt_path_next_seperator path' in (c :: a, b)
  end.

(** [while ( *p == '/')] *)
Fixpoint skip_slashes (p : cstr) : cstr :=
  match p with
  | c :: p' => if c =? 47 then skip_slashes p' else p
  | [] => []
  end.

(** The loop over the components. *)
Fixpoint path_loop (fuel : nat) (fdt : list Z) (offset : Z) (p : cstr) : option Z :=
  match fuel with
  | O => None
  | S fuel =>
      match p with
      | [] => Some offset
      | _ =>
          match skip_slashes p with
          | [] => Some offset
          | (c :: _) as p =>
              if c =? 58 then Some offset
              else
                let '(name, q) := fdt_path_next_seperator p in
                offset ← fdt_subnode_offset_namelen fdt offset name;
                if offset <? 0 then Some offset else path_loop fuel fdt offset q
          end
      end
  end.

(** A path that begins with [/]: no alias is involved. *)
Definition absolute_path_offset (fdt : list Z) (path : cstr) : option Z :=
  with_header fdt id (path_loop (S (length path)) fdt 0 path).

(** The position of the alias, or NULL. *)
Definition fdt_get_alias_namelen (fdt : list Z) (name : cstr) : option (option Z) :=
  aliasoffset ← absolute_path_offset fdt (chars "/aliases");
  if aliasoffset <? 0 then Some None
  else
    r ← fdt_getprop_namelen fdt aliasoffset name;
    Some (match r with inl _ => None | inr (p, _) => Some p end).

Definition fdt_get_alias (fdt : list Z) (name : cstr) : option (option Z) := fdt_get_alias_namelen fdt name.

(** The fuel bounds the number of aliases that refer to each other. *)
Fixpoint path_offset (fuel : nat) (fdt : list Z) (path : cstr) : option Z :=
  match fuel with
  | O => None
  | S fuel =>
      if bool_decide (head path = Some 47) then absolute_path_offset fdt path
      else
        with_header fdt id
          (let '(name, q) := fdt_path_next_seperator path in
           alias ← fdt_get_alias_namelen fdt name;
           match alias with
           | None => Some (- FDT_ERR_BADPATH)
           | Some p =>
               s ← string_at fdt p;
               offset ← path_offset fuel fdt s;
               path_loop (S (length q)) fdt offset q
           end)
  end.

Definition fdt_path_offset (fdt : list Z) (path : cstr) : option Z := path_offset (S (length fdt)) fdt path.

(** [buf]: a byte is written, or the write is out of bounds. *)
Definition put_byte (buf : list Z) (p c : Z) : option (list Z) := aset buf p c.

Fixpoint put_bytes (buf : list Z) (p : Z) (s : list Z) : option (list Z) :=
  match s with [] => Some buf | c :: s => buf ← aset buf p c; put_bytes buf (p + 1) s end.

(** [do p--; while (buf[p - 1] != '/')] *)
Fixpoint pop_name (fuel : nat) (buf : list Z) (p : Z) : option Z :=
  match fuel with
  | O => None
  | S fuel => c ← aget buf (p - 2); if c =? 47 then Some (p - 1) else pop_name fuel buf (p - 1)
  end.

(** [while (pdepth > depth)] *)
Fixpoint pop_names (n : nat) (buf : list Z) (p : Z) : option Z :=
  match n with O => Some p | S n => p ← pop_name (length buf) buf p; pop_names n buf p end.

(** The error after the loop of [fdt_get_path] and
    [fdt_supernode_atdepth_offset]. *)
Definition walk_error (offset : Z) : Z :=
  if (offset =? - FDT_ERR_NOTFOUND) || (0 <=? offset) then - FDT_ERR_BADOFFSET
  else if offset =? - FDT_ERR_BADOFFSET then - FDT_ERR_BADSTRUCTURE
  else offset.

Fixpoint get_path_loop (fuel : nat) (fdt : list Z) (nodeoffset : Z) (buf : list Z) (buflen offset depth pdepth p : Z)
    : option (Z * list Z) :=
  match fuel with
  | O => None
  | S fuel =>
      if negb ((0 <=? offset) && (offset <=? nodeoffset)) then Some (walk_error offset, buf)
      else
        p ← pop_names (Z.to_nat (pdepth - depth)) buf p;
        let pdepth := Z.min pdepth depth in
        name ← (if depth <=? pdepth then fdt_get_name fdt offset else Some (inr []));
        match name with
        | inl e => Some (e, buf)
        | inr name =>
            let namelen := Z.of_nat (length name) in
            r ← (if (depth <=? pdepth) && (p + namelen + 1 <=? buflen) then
                   buf ← put_bytes buf p (name ++ [47]); Some (buf, p + namelen + 1, pdepth + 1)
                 else Some (buf, p, pdepth));
            let '(buf, p, pdepth) := r in
            if offset =? nodeoffset then
              if pdepth <? depth + 1 then Some (- FDT_ERR_NOSPACE, buf)
              else
                let p := if 1 <? p then p - 1 else p in
                buf ← aset buf p 0;
                Some (0, buf)
            else
              '(offset, depth) ← fdt_next_node fdt offset (Some depth);
              get_path_loop fuel fdt nodeoffset buf buflen offset (default 0 depth) pdepth p
        end
  end.

Definition fdt_get_path (fdt : list Z) (nodeoffset : Z) (buf : list Z) (buflen : Z) : option (Z * list Z) :=
  with_header fdt (λ e, (e, buf))
    (if buflen <? 2 then Some (- FDT_ERR_NOSPACE, buf)
     else get_path_loop (2 + length fdt) fdt nodeoffset buf buflen 0 0 0 0).

(** The result and [*nodedepth] when it was set. *)
Fixpoint supernode_loop (fuel : nat) (fdt : list Z) (nodeoffset supernodedepth offset depth supernodeoffset : Z)
    : option (Z * option Z) :=
  match fuel with
  | O => None
  | S fuel =>
      if negb ((0 <=? offset) && (offset <=? nodeoffset)) then Some (walk_error offset, None)
      else
        let supernodeoffset := if depth =? supernodedepth then offset else supernodeoffset in
        if offset =? nodeoffset then
          Some (if depth <? supernodedepth then - FDT_ERR_NOTFOUND else supernodeoffset, Some depth)
        else
          '(offset, depth) ← fdt_next_node fdt offset (Some depth);
          supernode_loop fuel fdt nodeoffset supernodedepth offset (default 0 depth) supernodeoffset
  end.

Definition fdt_supernode_atdepth_offset (fdt : list Z) (nodeoffset supernodedepth : Z) : option (Z * option Z) :=
  with_header fdt (λ e, (e, None))
    (if supernodedepth <? 0 then Some (- FDT_ERR_NOTFOUND, None)
     else supernode_loop (2 + length fdt) fdt nodeoffset supernodedepth 0 0 (- FDT_ERR_INTERNAL)).

(** [nodedepth] is uninitialised unless the call succeeded. *)
Definition fdt_node_depth (fdt : list Z) (nodeoffset : Z) : option Z :=
  '(err, nodedepth) ← fdt_supernode_atdepth_offset fdt nodeoffset 0;
  if negb (err =? 0) then Some (if err <? 0 then err else - FDT_ERR_INTERNAL) else nodedepth.

Definition fdt_parent_offset (fdt : list Z) (nodeoffset : Z) : option Z :=
  nodedepth ← fdt_node_depth fdt nodeoffset;
  if nodedepth <? 0 then Some nodedepth
  else '(r, _) ← fdt_supernode_atdepth_offset fdt nodeoffset (nodedepth - 1); Some r.

(** ** Searching *)

(** The loops [for (offset = fdt_next_node(...); offset >= 0; ...)] with a test
    of every node: [Some r] ends the search with [r]. *)
Fixpoint search_loop (fuel : nat) (fdt : list Z) (test : Z -> option (option Z)) (offset : Z) : option Z :=
  match fuel with
  | O => None
  | S fuel =>
      if offset <? 0 then Some offset
      else
        t ← test offset;
        match t with
        | Some r => Some r
        | None => '(offset, _) ← fdt_next_node fdt offset None; search_loop fuel fdt test offset
        end
  end.

Definition search_from (fdt : list Z) (test : Z -> option (option Z)) (startoffset : Z) : option Z :=
  '(offset, _) ← fdt_next_node fdt startoffset None; search_loop (2 + length fdt) fdt test offset.

Definition fdt_node_offset_by_prop_value (fdt : list Z) (startoffset : Z) (propname : cstr) (propval : list Z) : option Z :=
  with_header fdt id
    (search_from fdt (λ offset,
       val ← fdt_getprop fdt offset propname;
       match val with
       | inr (p, len) =>
           if len =? Z.of_nat (length propval) then
             eq ← eq_at fdt p propval; Some (if eq : bool then Some offset else None)
           else Some None
       | inl _ => Some None
       end) startoffset).

Definition phandle_is (fdt : list Z) (phandle offset : Z) : option (option Z) :=
  ph ← fdt_get_phandle fdt offset; Some (if ph =? phandle then Some offset else None).

Definition fdt_node_offset_by_phandle (fdt : list Z) (phandle : Z) : option Z :=
  if (phandle =? 0) || (phandle =? 0xFFFFFFFF) then Some (- FDT_ERR_BADPHANDLE)
  else with_header fdt id (search_from fdt (phandle_is fdt phandle) (-1)).

Definition fdt_node_offset_by_phandle_node (fdt : list Z) (node phandle : Z) : option Z :=
  if (phandle =? 0) || (phandle =? 0xFFFFFFFF) || (node <? 0) then Some (- FDT_ERR_BADPHANDLE)
  else
    with_header fdt id
      (ph ← fdt_get_phandle fdt node;
       if ph =? phandle then Some node else search_from fdt (phandle_is fdt phandle) node).

(** ** Lists of strings *)

(** [memchr(p, '\0', n)]: the distance. *)
Fixpoint find_nul (n : nat) (fdt : list Z) (p : Z) : option (option Z) :=
  match n with
  | O => Some None
  | S n => c ← aget fdt p; if c =? 0 then Some (Some 0) else d ← find_nul n fdt (p + 1); Some (option_map (Z.add 1) d)
  end.

Fixpoint stringlist_loop (fuel : nat) (fdt : list Z) (strlist listlen : Z) (str : cstr) : option bool :=
  match fuel with
  | O => None
  | S fuel =>
      if listlen <? Z.of_nat (length str) then Some false
      else
        eq ← eq_at fdt strlist (str ++ [0]);
        if eq : bool then Some true
        else
          d ← find_nul (Z.to_nat listlen) fdt strlist;
          match d with
          | None => Some false
          | Some d => stringlist_loop fuel fdt (strlist + d + 1) (listlen - (d + 1)) str
          end
  end.

Definition fdt_stringlist_contains (fdt : list Z) (strlist listlen : Z) (str : cstr) : option bool :=
  stringlist_loop (S (S (length fdt))) fdt strlist listlen str.

Fixpoint count_loop (fuel : nat) (fdt : list Z) (list_ i length_ count : Z) : option Z :=
  match fuel with
  | O => None
  | S fuel =>
      if i <? length_ then
        s ← string_at fdt list_;
        let len := Z.of_nat (length s) in
        count_loop fuel fdt (list_ + len + 1) (i + len + 1) length_ (count + 1)
      else Some count
  end.

Definition fdt_count_strings (fdt : list Z) (node : Z) (property : cstr) : option Z :=
  r ← fdt_getprop fdt node property;
  match r with
  | inl e => Some e
  | inr (p, length_) => count_loop (S (length fdt)) fdt p 0 length_ 0
  end.

Fixpoint find_string_loop (fuel : nat) (fdt : list Z) (list_ end_ index : Z) (string : cstr) : option Z :=
  match fuel with
  | O => None
  | S fuel =>
      if list_ <? end_ then
        s ← string_at fdt list_;
        if bool_decide (s = string) then Some index
        else find_string_loop fuel fdt (list_ + Z.of_nat (length s) + 1) end_ (index + 1) string
      else Some (- FDT_ERR_NOTFOUND)
  end.

Definition fdt_find_string (fdt : list Z) (node : Z) (property string : cstr) : option Z :=
  r ← fdt_getprop fdt node property;
  match r with
  | inl e => Some e
  | inr (p, len) => find_string_loop (S (length fdt)) fdt p (p + len) 0 string
  end.

(** The result and the position of the string.  A missing property has a
    negative length, so that the loop does not run. *)
Fixpoint string_index_loop (fuel : nat) (fdt : list Z) (list_ i length_ index : Z) : option (Z * option Z) :=
  match fuel with
  | O => None
  | S fuel =>
      if i <? length_ then
        s ← string_at fdt list_;
        let len := Z.of_nat (length s) in
        if index =? 0 then Some (0, Some list_)
        else string_index_loop fuel fdt (list_ + len + 1) (i + len + 1) length_ (index - 1)
      else Some (- FDT_ERR_NOTFOUND, None)
  end.

Definition fdt_get_string_index (fdt : list Z) (node : Z) (property : cstr) (index : Z) : option (Z * option Z) :=
  r ← fdt_getprop fdt node property;
  match r with
  | inl e => string_index_loop (S (length fdt)) fdt 0 0 e index
  | inr (p, length_) => string_index_loop (S (length fdt)) fdt p 0 length_ index
  end.

Definition fdt_get_string (fdt : list Z) (node : Z) (property : cstr) : option (Z * option Z) :=
  fdt_get_string_index fdt node property 0.

Definition fdt_node_check_compatible (fdt : list Z) (nodeoffset : Z) (compatible : cstr) : option Z :=
  r ← fdt_getprop fdt nodeoffset (chars "compatible");
  match r with
  | inl e => Some e
  | inr (p, len) => c ← fdt_stringlist_contains fdt p len compatible; Some (if c : bool then 0 else 1)
  end.

Definition fdt_node_offset_by_compatible (fdt : list Z) (startoffset : Z) (compatible : cstr) : option Z :=
  with_header fdt id
    (search_from fdt (λ offset,
       err ← fdt_node_check_compatible fdt offset compatible;
       Some (if (err <? 0) && negb (err =? - FDT_ERR_NOTFOUND) then Some err
             else if err =? 0 then Some offset else None)) startoffset).

Definition fdt_device_is_available (blob : list Z) (node : Z) : option Z :=
  cell ← fdt_getprop blob node (chars "status");
  match cell with
  | inr (p, _) =>
      s ← string_at blob p;
      Some (if (strcmp_list s (chars "okay") =? 0) || (strcmp_list s (chars "ok") =? 0) then 1 else 0)
  | inl _ => Some 1
  end.

(** ** The memory reservation map and the rest of [fdt.c] *)

Definition _fdt_mem_rsv (fdt : list Z) (n : Z) : option Z :=
  base ← fdt_off_mem_rsvmap fdt; Some (base + 16 * n).

(** The result, [*address] and [*size]. *)
Definition fdt_get_mem_rsv (fdt : list Z) (n : Z) : option (Z + Z * Z) :=
  with_header fdt inl
    (p ← _fdt_mem_rsv fdt n; address ← rd64 fdt p; size ← rd64 fdt (p + 8); Some (inr (address, size))).

Fixpoint num_mem_rsv_loop (fuel : nat) (fdt : list Z) (i : Z) : option Z :=
  match fuel with
  | O => None
  | S fuel =>
      p ← _fdt_mem_rsv fdt i;
      size ← rd64 fdt (p + 8);
      if size =? 0 then Some i else num_mem_rsv_loop fuel fdt (i + 1)
  end.

Definition fdt_num_mem_rsv (fdt : list Z) : option Z := num_mem_rsv_loop (S (length fdt)) fdt 0.

(** The distance of the first occurrence of the string with its NUL. *)
Fixpoint find_string_at (n : nat) (fdt : list Z) (p : Z) (s : cstr) : option (option Z) :=
  match n with
  | O => Some None
  | S n => eq ← eq_at fdt p (s ++ [0]); if eq : bool then Some (Some p) else find_string_at n fdt (p + 1) s
  end.

(** [last = strtab + tabsize - len]; there is no turn when the table is
    shorter than the string. *)
Definition _fdt_find_string (fdt : list Z) (strtab tabsize : Z) (s : cstr) : option (option Z) :=
  find_string_at (Z.to_nat (tabsize - Z.of_nat (length s))) fdt strtab s.

(** The new contents of [buf]. *)
Definition fdt_move (fdt buf : list Z) (bufsize : Z) : option (Z * list Z) :=
  with_header fdt (λ e, (e, buf))
    (total ← fdt_totalsize fdt;
     if u32 bufsize <? total then Some (- FDT_ERR_NOSPACE, buf)
     else if (length fdt <? Z.to_nat total)%nat || (length buf <? Z.to_nat total)%nat then None
     else Some (0, take (Z.to_nat total) fdt ++ drop (Z.to_nat total) buf)).
