(* ===== verification/FdtTree.v ===== *)
(** * What a flattened device tree stands for

    A structure block is a list of tokens; the tokens of a tree nest.  The
    reading functions of [Fdt] are shown to agree with functions on trees:
    names, properties, children, paths. *)

From S2P Require Import Prelude Crc Bytes Ctype Cstring Hashtable Fdt.

(** ** Parts of a blob *)

(** The bytes [l] are in the blob at position [p]. *)
Definition holds (fdt : list Z) (p : Z) (l : list Z) : Prop :=
  0 <= p /\ ∃ tail, drop (Z.to_nat p) fdt = l ++ tail.

Lemma holds_app fdt p l1 l2 : holds fdt p (l1 ++ l2) <-> holds fdt p l1 /\ holds fdt (p + Z.of_nat (length l1)) l2.
Proof.
  unfold holds. split.
  - intros (Hp & tail & E). rewrite <-app_assoc in E. split; [split; [done|by eexists]|]. split; [lia|]. exists tail.
    replace (Z.to_nat (p + Z.of_nat (length l1))) with (Z.to_nat p + length l1)%nat by lia.
    by rewrite <-drop_drop, E, drop_app_length.
  - intros [(Hp & tail1 & E1) (_ & tail2 & E2)]. split; [done|]. exists tail2.
    replace (Z.to_nat (p + Z.of_nat (length l1))) with (Z.to_nat p + length l1)%nat in E2 by lia.
    rewrite <-drop_drop, E1, drop_app_length in E2. by rewrite E1, E2, app_assoc.
Qed.

Lemma holds_length fdt p l : holds fdt p l -> l <> [] -> 0 <= p /\ p + Z.of_nat (length l) <= Z.of_nat (length fdt).
Proof.
  intros (Hp & tail & E) Hne. split; [done|]. apply (f_equal length) in E. rewrite length_drop, length_app in E.
  destruct l; [done|]. cbn [length] in *. lia.
Qed.

Lemma rd32_holds fdt p w : holds fdt p (be_bytes4 w) -> word w -> rd32 fdt p = Some w.
Proof.
  intros H Hw. pose proof (holds_length _ _ _ H ltac:(done)) as Hb. destruct (be_bytes4_spec w Hw) as (_ & Hl & Hv).
  rewrite Hl in Hb. destruct H as (Hp & tail & E). unfold rd32. rewrite decide_True by lia.
  by rewrite E, take_app_length' by done; rewrite Hv.
Qed.

Lemma aget_holds fdt p c : holds fdt p [c] -> aget fdt p = Some c.
Proof.
  intros (Hp & tail & E). unfold aget. rewrite decide_True by done.
  rewrite <-(Nat.add_0_r (Z.to_nat p)), <-lookup_drop, E. done.
Qed.

Lemma holds_cons fdt p c l : holds fdt p (c :: l) <-> holds fdt p [c] /\ holds fdt (p + 1) l.
Proof. exact (holds_app fdt p [c] l). Qed.

Lemma eq_at_holds fdt p l s :
  holds fdt p l -> (length s <= length l)%nat -> eq_at fdt p s = Some (bool_decide (take (length s) l = s)).
Proof.
  revert p l. induction s as [|c s IH]; intros p l H Hl; [by rewrite bool_decide_true|].
  destruct l as [|b l]; [cbn in Hl; lia|]. cbn [eq_at length take]. apply holds_cons in H as [Hb H].
  rewrite (aget_holds _ _ _ Hb). cbn [mbind option_bind]. destruct (Z.eqb_spec b c) as [->|Hne].
  - rewrite (IH _ l H) by (cbn in Hl; lia). f_equal. apply bool_decide_ext. split; [by intros ->|by intros [=]].
  - rewrite bool_decide_false; [done|]. by intros [=].
Qed.

(** Comparing with a string that may end before [s] does. *)
Lemma eq_at_string fdt p l s :
  holds fdt p (l ++ [0]) -> Forall (λ c, c <> 0) s ->
  eq_at fdt p s = Some (bool_decide (take (length s) l = s)).
Proof.
  revert p l. induction s as [|c s IH]; intros p l H Hs; [by rewrite bool_decide_true|].
  apply Forall_cons in Hs as [Hc Hs]. cbn [eq_at length].
  destruct l as [|b l]; cbn [app take] in *; apply holds_cons in H as [Hb H]; rewrite (aget_holds _ _ _ Hb); cbn [mbind option_bind].
  - rewrite (proj2 (Z.eqb_neq 0 c)) by congruence. by rewrite bool_decide_false.
  - destruct (Z.eqb_spec b c) as [->|Hne].
    + rewrite (IH _ l H Hs). f_equal. apply bool_decide_ext. split; [by intros ->|by intros [=]].
    + rewrite bool_decide_false; [done|]. by intros [=].
Qed.

Lemma string_at_holds fdt p s : holds fdt p (s ++ [0]) -> Forall (λ c, c <> 0) s -> string_at fdt p = Some s.
Proof.
  intros (Hp & tail & E) Hs. unfold string_at. rewrite decide_True, E by done. clear E. rewrite <-app_assoc. cbn [app].
  induction Hs as [|c s Hc Hs IH]; [done|]. cbn [app string_from]. rewrite (proj2 (Z.eqb_neq c 0)) by done.
  by rewrite IH.
Qed.

Lemma strnlen_at_holds n fdt p s :
  holds fdt p (s ++ [0]) -> Forall (λ c, c <> 0) s -> strnlen_at n fdt p = Some (Nat.min n (length s)).
Proof.
  revert p s. induction n as [|n IH]; intros p s H Hs; [done|]. cbn [strnlen_at].
  destruct Hs as [|c s Hc Hs]; cbn [app] in H; apply holds_cons in H as [Hb H]; rewrite (aget_holds _ _ _ Hb); cbn [mbind option_bind].
  - done.
  - rewrite (proj2 (Z.eqb_neq c 0)) by done. rewrite (IH _ s H Hs). cbn. done.
Qed.

(** ** Tokens *)

Inductive token :=
  | TBegin (name pad : list Z)
  | TEnd
  | TProp (nameoff : Z) (val pad : list Z)
  | TNop
  | TFin.

Definition enc (t : token) : list Z :=
  match t with
  | TBegin name pad => be_bytes4 FDT_BEGIN_NODE ++ (name ++ [0]) ++ pad
  | TEnd => be_bytes4 FDT_END_NODE
  | TProp nameoff val pad =>
      be_bytes4 FDT_PROP ++ be_bytes4 (Z.of_nat (length val)) ++ be_bytes4 nameoff ++ val ++ pad
  | TNop => be_bytes4 FDT_NOP
  | TFin => be_bytes4 FDT_END
  end.

Definition tag_of (t : token) : Z :=
  match t with
  | TBegin _ _ => FDT_BEGIN_NODE | TEnd => FDT_END_NODE | TProp _ _ _ => FDT_PROP | TNop => FDT_NOP | TFin => FDT_END
  end.

Definition encs (ts : list token) : list Z := concat (map enc ts).

(** Names have no NUL, and padding fills the last word. *)
Definition tok_ok (t : token) : Prop :=
  match t with
  | TBegin name pad => Forall (λ c, c <> 0) name /\ (length pad < 4)%nat /\ ((length name + 1 + length pad) mod 4 = 0)%nat
  | TProp nameoff val pad => word nameoff /\ (length pad < 4)%nat /\ ((length val + length pad) mod 4 = 0)%nat
  | _ => True
  end.

(** Offsets. *)
Definition size_of (ts : list token) : Z := Z.of_nat (length (encs ts)).

Lemma size_of_nil : size_of [] = 0.
Proof. done. Qed.

Lemma encs_app ts1 ts2 : encs (ts1 ++ ts2) = encs ts1 ++ encs ts2.
Proof. unfold encs. by rewrite map_app, concat_app. Qed.

Lemma size_of_app ts1 ts2 : size_of (ts1 ++ ts2) = size_of ts1 + size_of ts2.
Proof. unfold size_of. rewrite encs_app, length_app. lia. Qed.

Lemma size_of_cons t ts : size_of (t :: ts) = Z.of_nat (length (enc t)) + size_of ts.
Proof. unfold size_of, encs. cbn [map concat]. rewrite length_app. lia. Qed.

Lemma be_bytes4_length w : length (be_bytes4 w) = 4%nat.
Proof. done. Qed.

Lemma enc_length t : tok_ok t -> (4 <= length (enc t))%nat /\ (length (enc t) mod 4 = 0)%nat.
Proof.
  destruct t; cbn [tok_ok enc]; intros H; rewrite ?length_app, ?be_bytes4_length; cbn [length]; try done.
  - destruct H as (_ & _ & H). split; [lia|].
    etrans; [|exact H]. replace (4 + (length name + 1 + length pad))%nat with (length name + 1 + length pad + 1 * 4)%nat by lia.
    by rewrite Nat.Div0.mod_add.
  - destruct H as (_ & _ & H). split; [lia|].
    etrans; [|exact H]. replace (4 + (4 + (4 + (length val + length pad))))%nat with (length val + length pad + 3 * 4)%nat by lia.
    by rewrite Nat.Div0.mod_add.
Qed.

Lemma size_of_mod ts : Forall tok_ok ts -> size_of ts mod 4 = 0.
Proof.
  intros H. induction H as [|t ts Ht _ IH]; [done|]. rewrite size_of_cons.
  destruct (enc_length t Ht) as [_ Hm]. apply (f_equal Z.of_nat) in Hm. rewrite Nat2Z.inj_mod in Hm.
  change (Z.of_nat 4) with 4 in Hm. rewrite Z.add_mod, IH by lia. by rewrite Hm.
Qed.

(** ** Blobs *)

(** A structure block of version 17 that consists of the given tokens. *)
Record structure (fdt : list Z) (base : Z) (ts : list token) : Prop := {
  blob_version : fdt_version fdt = Some 0x11;
  blob_base : fdt_off_dt_struct fdt = Some base;
  blob_size : fdt_size_dt_struct fdt = Some (size_of ts);
  blob_struct : holds fdt base (encs ts);
  blob_small : size_of ts + 4 < 2 ^ 31;
  blob_toks : Forall tok_ok ts
}.

(** A complete blob: also its magic number and the last version it is
    compatible with. *)
Record blob (fdt : list Z) (base : Z) (ts : list token) : Prop := {
  blob_magic : fdt_magic fdt = Some FDT_MAGIC;
  blob_last : ∃ v, fdt_last_comp_version fdt = Some v /\ v <= 0x11;
  blob_structure :> structure fdt base ts
}.

Section headers.
Context {fdt : list Z} {base : Z} {ts : list token} (HB : blob fdt base ts).

Lemma header_ok : fdt_check_header fdt = Some 0.
Proof.
  unfold fdt_check_header. rewrite (blob_magic _ _ _ HB). cbn [mbind option_bind]. rewrite Z.eqb_refl.
  rewrite (blob_version _ _ _ HB). cbn [mbind option_bind]. destruct (blob_last _ _ _ HB) as (v & -> & Hv). cbn [mbind option_bind].
  rewrite (proj2 (Z.ltb_ge _ v)) by done. done.
Qed.

Lemma with_header_ok {A} (fail : Z -> A) k : with_header fdt fail k = k.
Proof. unfold with_header. by rewrite header_ok. Qed.

End headers.

Section tokens.
Context {fdt : list Z} {base : Z} {ts : list token} (HB : structure fdt base ts).

Lemma offset_ptr_ok offset : _fdt_offset_ptr fdt offset = Some (base + offset).
Proof. unfold _fdt_offset_ptr. by rewrite (blob_base _ _ _ HB). Qed.

(** A range inside of the block is found. *)
Lemma offset_ptr_in offset len :
  0 <= offset -> 0 <= len -> offset + len <= size_of ts -> fdt_offset_ptr fdt offset len = Some (Some (base + offset)).
Proof.
  intros Ho Hl Hs. pose proof (blob_small _ _ _ HB). unfold fdt_offset_ptr.
  rewrite (blob_version _ _ _ HB), (blob_size _ _ _ HB). cbn [mbind option_bind Z.leb Z.compare Pos.compare Pos.compare_cont].
  rewrite !u32_small by lia. rewrite (proj2 (Z.ltb_ge _ offset)), (proj2 (Z.ltb_ge _ (offset + len))) by lia.
  cbn [orb]. by rewrite offset_ptr_ok.
Qed.

(** Anything else is not. *)
Lemma offset_ptr_out offset len :
  0 <= offset < 2 ^ 31 -> 0 <= len < 2 ^ 31 -> size_of ts < offset + len -> fdt_offset_ptr fdt offset len = Some None.
Proof.
  intros Ho Hl Hs. unfold fdt_offset_ptr.
  rewrite (blob_version _ _ _ HB), (blob_size _ _ _ HB). cbn [mbind option_bind Z.leb Z.compare Pos.compare Pos.compare_cont].
  rewrite !u32_small by lia. rewrite (proj2 (Z.ltb_lt _ (offset + len))) by lia. by rewrite orb_true_r.
Qed.

(** The token at an offset. *)
Lemma token_holds pre t post : ts = pre ++ t :: post -> holds fdt (base + size_of pre) (enc t).
Proof.
  intros E. pose proof (blob_struct _ _ _ HB) as H. rewrite E, encs_app in H. apply holds_app in H as [_ H].
  cbn [encs map concat] in H. by apply holds_app in H as [H _].
Qed.

Lemma token_ok pre t post : ts = pre ++ t :: post -> tok_ok t.
Proof. intros E. pose proof (blob_toks _ _ _ HB) as H. rewrite E in H. apply Forall_app in H as [_ H]. by apply Forall_cons in H as [H _]. Qed.

Lemma token_fits pre t post : ts = pre ++ t :: post -> size_of pre + Z.of_nat (length (enc t)) <= size_of ts.
Proof. intros ->. rewrite size_of_app, size_of_cons. unfold size_of. lia. Qed.

Lemma size_pos l : 0 <= size_of l.
Proof. unfold size_of. lia. Qed.

Lemma enc_tag t : ∃ rest, enc t = be_bytes4 (tag_of t) ++ rest.
Proof. destruct t; cbn [enc tag_of]; eexists; [done|symmetry; apply app_nil_r|done|symmetry; apply app_nil_r|symmetry; apply app_nil_r]. Qed.

Lemma word_tag t : word (tag_of t).
Proof. unfold word. by destruct t. Qed.

Lemma skip_name_spec fuel offset name :
  holds fdt (base + offset) (name ++ [0]) -> Forall (λ c, c <> 0) name -> 0 <= offset ->
  offset + Z.of_nat (length name) + 1 <= size_of ts -> (length name < fuel)%nat ->
  skip_name fuel fdt offset = Some (Some (offset + Z.of_nat (length name) + 1)).
Proof.
  intros H Hn. revert offset fuel H. induction Hn as [|c name Hc Hn IH]; intros offset fuel H Ho Hs Hf;
    (destruct fuel as [|fuel]; [cbn in Hf; lia|]); cbn [skip_name length app] in *;
    rewrite offset_ptr_in by lia; cbn [mbind option_bind]; apply holds_cons in H as [Hb H]; rewrite (aget_holds _ _ _ Hb); cbn [mbind option_bind].
  - do 2 f_equal. lia.
  - rewrite (proj2 (Z.eqb_neq c 0)) by done. rewrite IH; [do 2 f_equal; lia|by rewrite Z.add_assoc|lia|lia|lia].
Qed.

Lemma align4_land n : (n + 3) .& Z.lnot 3 = (n + 3) / 4 * 4.
Proof.
  rewrite <-Z.ldiff_land. change 3 with (Z.ones 2) at 2. by rewrite Z.ldiff_ones_r, Z.shiftr_div_pow2, Z.shiftl_mul_pow2 by lia.
Qed.

Lemma tagalign_spec n pad : 0 <= n -> n + 4 < 2 ^ 31 -> (pad < 4)%nat -> (n + Z.of_nat pad) mod 4 = 0 -> FDT_TAGALIGN n = n + Z.of_nat pad.
Proof.
  intros Hn Hs Hp Hm. unfold FDT_TAGALIGN.
  assert ((n + 3) .& Z.lnot 3 = n + Z.of_nat pad) as ->.
  { rewrite align4_land. Z.to_euclidean_division_equations. lia. }
  unfold s32, swrap. rewrite Z.mod_small by lia. lia.
Qed.

Lemma nat_mod4 n : (n mod 4 = 0)%nat -> Z.of_nat n mod 4 = 0.
Proof. intros H. apply (f_equal Z.of_nat) in H. by rewrite Nat2Z.inj_mod in H. Qed.

(** [fdt_next_tag] at a token: its tag, and the offset of the next token. *)
Lemma next_tag_spec pre t post :
  ts = pre ++ t :: post -> fdt_next_tag fdt (size_of pre) = Some (tag_of t, size_of (pre ++ [t])).
Proof.
  intros E. pose proof (token_holds _ _ _ E) as H. pose proof (token_ok _ _ _ E) as Hok. pose proof (token_fits _ _ _ E) as Hfit.
  pose proof (size_pos pre) as Hpre. pose proof (blob_small _ _ _ HB) as Hsmall. destruct (enc_length t Hok) as [H4 _].
  assert (Forall tok_ok pre) as Hpreok. { pose proof (blob_toks _ _ _ HB) as Ht. rewrite E in Ht. by apply Forall_app in Ht as [? _]. }
  pose proof (size_of_mod pre Hpreok) as Hm. rewrite size_of_app, size_of_cons, size_of_nil, Z.add_0_r.
  unfold fdt_next_tag. rewrite (offset_ptr_in (size_of pre) 4) by lia. cbn [mbind option_bind].
  destruct (enc_tag t) as [rest Hrest]. pose proof H as Htag. rewrite Hrest in Htag. apply holds_app in Htag as [Htag _].
  rewrite (rd32_holds _ _ _ Htag (word_tag t)). cbn [mbind option_bind].
  assert (∀ n pad, 4 <= n -> n <= Z.of_nat (length (enc t)) -> (pad < 4)%nat -> n + Z.of_nat pad = Z.of_nat (length (enc t)) ->
    (p ← fdt_offset_ptr fdt (size_of pre) (u32 (size_of pre + n - size_of pre));
     match p with None => Some (FDT_END, - FDT_ERR_BADSTRUCTURE) | Some _ => Some (tag_of t, FDT_TAGALIGN (size_of pre + n)) end)
    = Some (tag_of t, size_of pre + Z.of_nat (length (enc t)))) as Hfin.
  { intros n pad Hn Hle Hp Hl. rewrite u32_small by lia. rewrite offset_ptr_in by lia. cbn [mbind option_bind].
    rewrite (tagalign_spec (size_of pre + n) pad); [do 2 f_equal; lia|lia|lia|done|].
    destruct (enc_length t Hok) as [_ Hm4]. apply nat_mod4 in Hm4. rewrite <-Z.add_assoc, Hl, Z.add_mod, Hm, Hm4 by lia. done. }
  destruct t as [name pad| |nameoff val pad| |]; cbn [tag_of] in *.
  - change (FDT_BEGIN_NODE =? FDT_BEGIN_NODE) with true. cbv iota. destruct Hok as (Hn & Hp & _).
    cbn [enc] in H, Hfin, Hfit, H4 |- *. rewrite !length_app, be_bytes4_length in *. cbn [length] in *.
    apply holds_app in H as [_ H]. apply holds_app in H as [H _]. rewrite be_bytes4_length in H. change (Z.of_nat 4) with 4 in H.
    rewrite (skip_name_spec _ (size_of pre + 4) name); [|by rewrite Z.add_assoc|done|lia|lia|].
    + cbn [mbind option_bind]. replace (size_of pre + 4 + Z.of_nat (length name) + 1) with (size_of pre + (4 + Z.of_nat (length name) + 1)) by lia.
      apply (Hfin _ (length pad)); lia.
    + pose proof (holds_length _ _ _ H ltac:(by destruct name)) as Hl. rewrite length_app in Hl. cbn [length] in Hl. lia.
  - cbv iota. cbn [Z.eqb Pos.eqb FDT_END_NODE FDT_BEGIN_NODE FDT_PROP FDT_END FDT_NOP orb]. apply (Hfin 4 0%nat); cbn; lia.
  - change (FDT_PROP =? FDT_BEGIN_NODE) with false. change (FDT_PROP =? FDT_PROP) with true. cbv iota.
    destruct Hok as (_ & Hp & _). cbn [enc] in H, Hfin, Hfit, H4 |- *. rewrite !length_app, !be_bytes4_length in *.
    apply holds_app in H as [_ H]. apply holds_app in H as [H _]. rewrite be_bytes4_length in H. change (Z.of_nat 4) with 4 in H.
    rewrite (offset_ptr_in (size_of pre + 4) 4) by lia. cbn [mbind option_bind]. rewrite Z.add_assoc.
    rewrite (rd32_holds _ _ _ H) by (unfold word; lia). cbn [mbind option_bind].
    replace (s32 (size_of pre + 4 + 8 + Z.of_nat (length val))) with (size_of pre + (12 + Z.of_nat (length val)))
      by (unfold s32, swrap; rewrite Z.mod_small by lia; lia).
    apply (Hfin _ (length pad)); lia.
  - cbn [Z.eqb Pos.eqb FDT_END_NODE FDT_BEGIN_NODE FDT_PROP FDT_END FDT_NOP orb]. apply (Hfin 4 0%nat); cbn; lia.
  - cbn [Z.eqb Pos.eqb FDT_END_NODE FDT_BEGIN_NODE FDT_PROP FDT_END FDT_NOP orb]. apply (Hfin 4 0%nat); cbn; lia.
Qed.

(** ** Nodes *)

(** The next node from a list of tokens at an offset: [fdt_next_node] without
    the blob. *)
Fixpoint scan (off : Z) (depth : option Z) (rest : list token) : Z * option Z :=
  match rest with
  | [] => (0, depth)
  | t :: rest' =>
      let next := off + Z.of_nat (length (enc t)) in
      match t with
      | TBegin _ _ => (off, (λ d, d + 1) <$> depth)
      | TFin => (- FDT_ERR_NOTFOUND, depth)
      | TEnd =>
          match depth with
          | Some d => if d - 1 <? 0 then (next, Some (d - 1)) else scan next (Some (d - 1)) rest'
          | None => scan next None rest'
          end
      | TProp _ _ _ | TNop => scan next depth rest'
      end
  end.

Lemma size_snoc pre t : size_of (pre ++ [t]) = size_of pre + Z.of_nat (length (enc t)).
Proof. rewrite size_of_app, size_of_cons, size_of_nil. lia. Qed.

Lemma next_node_loop_spec fuel pre rest depth :
  ts = pre ++ rest -> TFin ∈ rest -> (length rest <= fuel)%nat ->
  next_node_loop fuel fdt (size_of pre) depth = Some (scan (size_of pre) depth rest).
Proof.
  revert fuel pre depth. induction rest as [|t rest IH]; intros fuel pre depth E Hin Hf; [by apply elem_of_nil in Hin|].
  destruct fuel as [|fuel]; cbn [length] in Hf; [lia|]. cbn [next_node_loop]. rewrite (next_tag_spec _ _ _ E). cbn [mbind option_bind].
  assert (t <> TFin -> ∀ d, next_node_loop fuel fdt (size_of (pre ++ [t])) d
                         = Some (scan (size_of pre + Z.of_nat (length (enc t))) d rest)) as Hstep.
  { intros Ht d. rewrite <-size_snoc. apply IH; [by rewrite E, <-app_assoc| |lia]. by apply elem_of_cons in Hin as [<-|?]. }
  destruct t; cbn [tag_of scan]; change (FDT_BEGIN_NODE =? FDT_BEGIN_NODE) with true; cbn [Z.eqb Pos.eqb FDT_END_NODE FDT_BEGIN_NODE FDT_PROP FDT_END FDT_NOP].
  - done.
  - destruct depth as [d|]; [|by apply Hstep]. case_test; [by rewrite size_snoc|]. by apply Hstep.
  - by apply Hstep.
  - by apply Hstep.
  - by rewrite (proj2 (Z.leb_le _ _)) by apply size_pos.
Qed.

(** There are fewer tokens than bytes. *)
Lemma encs_bound l : Forall tok_ok l -> (length l <= length (encs l))%nat.
Proof.
  intros H. induction H as [|t l Ht _ IH]; [cbn; lia|]. unfold encs in *. cbn [map concat length]. rewrite length_app.
  destruct (enc_length t Ht). lia.
Qed.

Lemma tokens_bound : (length ts <= length fdt)%nat.
Proof.
  pose proof (blob_struct _ _ _ HB) as (_ & tail & E). apply (f_equal length) in E. rewrite length_drop, length_app in E.
  pose proof (encs_bound ts (blob_toks _ _ _ HB)). lia.
Qed.

Lemma rest_bound pre rest : ts = pre ++ rest -> (length rest <= length fdt)%nat.
Proof. intros E. pose proof tokens_bound as H. rewrite E, length_app in H. lia. Qed.

Lemma check_node_ok pre name pad post :
  ts = pre ++ TBegin name pad :: post -> _fdt_check_node_offset fdt (size_of pre) = Some (size_of (pre ++ [TBegin name pad])).
Proof.
  intros E. unfold _fdt_check_node_offset. assert (Forall tok_ok pre) as Hp.
  { pose proof (blob_toks _ _ _ HB) as Ht. rewrite E in Ht. by apply Forall_app in Ht as [? _]. }
  rewrite (size_of_mod pre Hp), (proj2 (Z.ltb_ge _ 0)) by apply size_pos. cbn [orb negb Z.eqb].
  rewrite (next_tag_spec _ _ _ E). done.
Qed.

Lemma next_node_spec pre name pad post depth :
  ts = pre ++ TBegin name pad :: post -> TFin ∈ post ->
  fdt_next_node fdt (size_of pre) depth = Some (scan (size_of (pre ++ [TBegin name pad])) depth post).
Proof.
  intros E Hin. unfold fdt_next_node. pose proof (size_pos pre). rewrite (proj2 (Z.leb_le 0 _)) by done.
  rewrite (check_node_ok _ _ _ _ E). cbn [mbind option_bind andb].
  rewrite (proj2 (Z.ltb_ge _ 0)) by apply size_pos. apply next_node_loop_spec; [by rewrite E, <-app_assoc|done|].
  pose proof (rest_bound _ _ E) as Hb. cbn [length] in Hb. lia.
Qed.

(** ** Names *)

(** A node name matches if it is the name, or the name before its unit address
    when the name has none. *)
Definition name_matches (node s : cstr) : bool :=
  bool_decide (take (length s) node = s)
  && match node !! length s with None => true | Some c => no_at s && (c =? 64) end.

Lemma node_name_holds pre name pad post :
  ts = pre ++ TBegin name pad :: post -> holds fdt (base + (size_of pre + 4)) (name ++ [0]) /\ Forall (λ c, c <> 0) name
  /\ size_of pre + 4 + Z.of_nat (length name) + 1 <= size_of ts.
Proof.
  intros E. pose proof (token_holds _ _ _ E) as H. cbn [enc] in H. apply holds_app in H as [_ H]. apply holds_app in H as [H _].
  rewrite be_bytes4_length in H. change (Z.of_nat 4) with 4 in H. rewrite <-Z.add_assoc in H. split; [done|].
  split; [exact (proj1 (token_ok _ _ _ E))|]. pose proof (token_fits _ _ _ E) as Hf. cbn [enc] in Hf.
  rewrite !length_app, be_bytes4_length in Hf. cbn [length] in Hf. lia.
Qed.

Lemma nodename_eq_spec pre name pad post s :
  ts = pre ++ TBegin name pad :: post -> Forall (λ c, c <> 0) s -> Z.of_nat (length s) + 1 < 2 ^ 31 ->
  _fdt_nodename_eq fdt (size_of pre) s = Some (name_matches name s).
Proof.
  intros E Hs Hlen. destruct (node_name_holds _ _ _ _ E) as (Hh & Hn & Hfit). pose proof (size_pos pre).
  pose proof (blob_small _ _ _ HB). unfold _fdt_nodename_eq, name_matches.
  destruct (Z_le_gt_dec (size_of pre + 4 + (Z.of_nat (length s) + 1)) (size_of ts)) as [Hin|Hout].
  - rewrite offset_ptr_in by lia. cbn [mbind option_bind]. rewrite (eq_at_string _ _ name s Hh Hs). cbn [mbind option_bind].
    case_bool_decide as Ht; cbn [negb andb]; [|done].
    assert (length s <= length name)%nat by (apply (f_equal length) in Ht; rewrite length_take in Ht; lia).
    assert (name ++ [0] = s ++ (drop (length s) name ++ [0])) as Hsplit by (by rewrite app_assoc, <-Ht at 1; rewrite take_drop).
    rewrite Hsplit in Hh. apply holds_app in Hh as [_ Hh].
    destruct (name !! length s) as [c|] eqn:Hc.
    + rewrite (drop_S _ _ _ Hc) in Hh. cbn [app] in Hh. apply holds_cons in Hh as [Hh _]. rewrite (aget_holds _ _ _ Hh). cbn [mbind option_bind].
      rewrite (proj2 (Z.eqb_neq c 0)); [done|]. by eapply Forall_lookup_1 in Hn.
    + apply lookup_ge_None in Hc. rewrite drop_ge in Hh by lia. cbn [app] in Hh. by rewrite (aget_holds _ _ _ Hh).
  - rewrite offset_ptr_out by lia. cbn [mbind option_bind]. rewrite bool_decide_false; [done|]. intros Ht.
    apply (f_equal length) in Ht. rewrite length_take in Ht. lia.
Qed.

(** The search for a child, on the tokens behind the beginning of a node. *)
Fixpoint sub_scan (name : cstr) (off depth : Z) (rest : list token) : Z :=
  match rest with
  | [] => 0
  | t :: rest' =>
      let next := off + Z.of_nat (length (enc t)) in
      match t with
      | TBegin n _ =>
          if (depth + 1 =? 1) && name_matches n name then off else sub_scan name next (depth + 1) rest'
      | TFin => - FDT_ERR_NOTFOUND
      | TEnd => if depth - 1 <? 0 then - FDT_ERR_NOTFOUND else sub_scan name next (depth - 1) rest'
      | TProp _ _ _ | TNop => sub_scan name next depth rest'
      end
  end.

Lemma fin_tail t rest : TFin ∈ t :: rest -> t <> TFin -> TFin ∈ rest.
Proof. intros H Ht. by apply elem_of_cons in H as [<-|?]. Qed.

Lemma sub_scan_spec fuel pre rest depth name :
  ts = pre ++ rest -> TFin ∈ rest -> 0 <= depth -> (length rest < fuel)%nat ->
  Forall (λ c, c <> 0) name -> Z.of_nat (length name) + 1 < 2 ^ 31 ->
  (let '(o, d) := scan (size_of pre) (Some depth) rest in subnode_loop fuel fdt o (default 0 d) name)
  = Some (sub_scan name (size_of pre) depth rest).
Proof.
  intros E Hin Hd Hf Hn Hl. revert fuel pre depth E Hin Hd Hf.
  induction rest as [|t rest IH]; intros fuel pre depth E Hin Hd Hf; [by apply elem_of_nil in Hin|].
  cbn [length] in Hf. destruct fuel as [|fuel]; [lia|]. pose proof (size_pos pre) as Hp.
  assert (ts = (pre ++ [t]) ++ rest) as E' by (by rewrite E, <-app_assoc).
  destruct t as [n pad| |nameoff val pad| |]; cbn [scan sub_scan]; rewrite <-?size_snoc.
  - cbn [fmap option_fmap option_map subnode_loop from_option id].
    rewrite (proj2 (Z.leb_le 0 _)), (proj2 (Z.leb_le 0 (depth + 1))) by lia. cbn [andb negb].
    destruct (Z.eqb_spec (depth + 1) 1) as [E1|E1]; cbn [andb].
    + rewrite (nodename_eq_spec _ _ _ _ name E Hn Hl). cbn [mbind option_bind]. destruct (name_matches n name); [done|].
      rewrite (next_node_spec _ _ _ _ _ E) by (by eapply fin_tail). cbn [mbind option_bind].
      rewrite <-(IH fuel (pre ++ [TBegin n pad]) (depth + 1) E') by (by eapply fin_tail || lia). by destruct (scan _ _ rest).
    + cbn [mbind option_bind]. rewrite (next_node_spec _ _ _ _ _ E) by (by eapply fin_tail). cbn [mbind option_bind].
      rewrite <-(IH fuel (pre ++ [TBegin n pad]) (depth + 1) E') by (by eapply fin_tail || lia). by destruct (scan _ _ rest).
  - destruct (Z.ltb_spec (depth - 1) 0).
    + cbn [subnode_loop from_option id]. rewrite (proj2 (Z.leb_gt 0 (depth - 1))), andb_false_r by lia. cbn [negb].
      by rewrite (proj2 (Z.ltb_lt _ 0)) by lia.
    + apply (IH (S fuel) (pre ++ [TEnd]) (depth - 1) E'); [by eapply fin_tail|lia|lia].
  - apply (IH (S fuel) _ _ E'); [by eapply fin_tail|lia|lia].
  - apply (IH (S fuel) _ _ E'); [by eapply fin_tail|lia|lia].
  - cbn [subnode_loop from_option id]. rewrite (proj2 (Z.leb_gt 0 (- FDT_ERR_NOTFOUND))) by done. cbn [andb negb].
    by rewrite (proj2 (Z.ltb_ge depth 0)) by lia.
Qed.

End tokens.

Lemma subnode_offset_scan {fdt base ts} (HB : blob fdt base ts) pre n pad post name :
  ts = pre ++ TBegin n pad :: post -> TFin ∈ post ->
  Forall (λ c, c <> 0) name -> Z.of_nat (length name) + 1 < 2 ^ 31 ->
  fdt_subnode_offset_namelen fdt (size_of pre) name = Some (sub_scan name (size_of (pre ++ [TBegin n pad])) 0 post).
Proof.
  intros E Hin Hn Hl. unfold fdt_subnode_offset_namelen. rewrite (with_header_ok HB). change (2 + length fdt)%nat with (S (S (length fdt))).
  cbn [subnode_loop]. pose proof (size_pos pre). rewrite (proj2 (Z.leb_le 0 _)) by done. cbn [andb negb Z.leb Z.compare Z.eqb mbind option_bind].
  rewrite (next_node_spec HB _ _ _ _ _ E Hin). cbn [mbind option_bind].
  rewrite <-(sub_scan_spec HB (S (length fdt)) _ _ 0 name); [by destruct (scan _ _ post)|by rewrite E, <-app_assoc|done|done| |done|done].
  pose proof (rest_bound HB _ _ E) as Hb. cbn [length] in Hb. lia.
Qed.
Lemma fin_in l post : TFin ∈ post -> TFin ∈ l ++ TEnd :: post.
Proof. intros H. apply elem_of_app. right. by apply elem_of_cons; right. Qed.

(** ** Trees *)

(** What is between the beginning and the end of a node. *)
Inductive items :=
  | Nil
  | Nop (rest : items)
  | Property (nameoff : Z) (val pad : list Z) (rest : items)
  | Node (name pad : list Z) (body rest : items).

Fixpoint toks (b : items) : list token :=
  match b with
  | Nil => []
  | Nop rest => TNop :: toks rest
  | Property nameoff val pad rest => TProp nameoff val pad :: toks rest
  | Node name pad body rest => TBegin name pad :: toks body ++ TEnd :: toks rest
  end.

(** The first child with a matching name: its offset, when the items begin at
    [off], its name and what it contains. *)
Fixpoint find_child (s : cstr) (off : Z) (b : items) : option (Z * (cstr * items)) :=
  match b with
  | Nil => None
  | Nop rest => find_child s (off + 4) rest
  | Property nameoff val pad rest => find_child s (off + Z.of_nat (length (enc (TProp nameoff val pad)))) rest
  | Node name pad body rest =>
      if name_matches name s then Some (off, (name, body))
      else find_child s (off + Z.of_nat (length (enc (TBegin name pad))) + size_of (toks body) + 4) rest
  end.

(** Below a child there are only deeper nodes. *)
Lemma sub_scan_inside s off depth b k :
  1 <= depth -> sub_scan s off depth (toks b ++ k) = sub_scan s (off + size_of (toks b)) depth k.
Proof.
  revert off depth k. induction b as [|rest IH|nameoff val pad rest IH|name pad body IHb rest IHr]; intros off depth k Hd;
    cbn [toks app]; rewrite ?size_of_nil, ?size_of_cons, ?Z.add_0_r; [done| | |]; cbn [sub_scan].
  - rewrite IH by done. f_equal. lia.
  - rewrite IH by done. f_equal. lia.
  - rewrite (proj2 (Z.eqb_neq (depth + 1) 1)) by lia. cbn [andb]. rewrite <-app_assoc, IHb by lia. cbn [app sub_scan].
    rewrite (proj2 (Z.ltb_ge _ 0)) by lia. rewrite IHr by lia. rewrite size_of_app, size_of_cons. f_equal; lia.
Qed.

Lemma sub_scan_children s off b k :
  sub_scan s off 0 (toks b ++ TEnd :: k)
  = match find_child s off b with Some (o, _) => o | None => - FDT_ERR_NOTFOUND end.
Proof.
  revert off. induction b as [|rest IH|nameoff val pad rest IH|name pad body IHb rest IHr]; intros off; cbn [toks app sub_scan find_child].
  - done.
  - apply IH.
  - apply IH.
  - change (0 + 1 =? 1) with true. cbn [andb]. destruct (name_matches name s); [done|].
    rewrite <-app_assoc, sub_scan_inside by done. cbn [app sub_scan]. change (0 + 1 - 1 <? 0) with false. cbv iota. apply IHr.
Qed.

(** A node of the tree, at an offset. *)
Definition node_at (ts : list token) (off : Z) (name : cstr) (body : items) : Prop :=
  ∃ pre pad post, ts = pre ++ TBegin name pad :: toks body ++ TEnd :: post /\ TFin ∈ post /\ off = size_of pre.

(** The contents of one node are replaced; everything else stays. *)
Definition replaced (ts : list token) (off : Z) (name : cstr) (b : items) (ts' : list token) (b' : items) : Prop :=
  ∃ pre pad post, ts = pre ++ TBegin name pad :: toks b ++ TEnd :: post /\ TFin ∈ post /\ off = size_of pre
    /\ ts' = pre ++ TBegin name pad :: toks b' ++ TEnd :: post.

Lemma replaced_at ts off name b ts' b' : replaced ts off name b ts' b' -> node_at ts' off name b'.
Proof. intros (pre & pad & post & _ & Hin & -> & ->). by exists pre, pad, post. Qed.

(** The blob of a tree: its root has no name in practice. *)
Definition tree_toks (name pad : cstr) (body : items) : list token := TBegin name pad :: toks body ++ [TEnd; TFin].

Lemma root_at name pad body : node_at (tree_toks name pad body) 0 name body.
Proof. exists [], pad, [TFin]. split_and!; [done|by apply list_elem_of_singleton|done]. Qed.

(** A child that was found is a node. *)
Lemma find_child_at s b pre post ts o n body :
  ts = pre ++ toks b ++ TEnd :: post -> TFin ∈ post -> find_child s (size_of pre) b = Some (o, (n, body)) ->
  node_at ts o n body /\ name_matches n s.
Proof.
  revert pre post. induction b as [|rest IH|nameoff val pad rest IH|name pad b IHb rest IHr]; intros pre post E Hin Hf; cbn [toks find_child app] in *.
  - done.
  - apply (IH (pre ++ [TNop]) post); [by rewrite E, <-app_assoc|done|]. by rewrite size_of_app.
  - apply (IH (pre ++ [TProp nameoff val pad]) post); [by rewrite E, <-app_assoc|done|]. by rewrite size_of_app, size_of_cons, size_of_nil, Z.add_0_r.
  - destruct (name_matches name s) eqn:Hm.
    + injection Hf as <- <- <-. split; [|by rewrite Hm]. exists pre, pad, (toks rest ++ TEnd :: post). split_and!; [by rewrite E, <-app_assoc|by apply fin_in|done].
    + apply (IHr (pre ++ TBegin name pad :: toks b ++ [TEnd]) post); [|done|].
      * rewrite E. rewrite <-!app_assoc. cbn [app]. by rewrite <-!app_assoc.
      * rewrite size_of_app, size_of_cons, size_of_app, size_of_cons, size_of_nil. rewrite <-Hf. f_equal. change (Z.of_nat (length (enc TEnd))) with 4. lia.
Qed.

(** ** Properties *)

(** The name of a property, by its offset in the strings block. *)
Definition prop_name (fdt : list Z) (nameoff : Z) : option cstr :=
  base ← fdt_off_dt_strings fdt; string_at fdt (base + nameoff).

(** The first property of the name: the offset of the property and its value.
    Properties come before the children. *)
Fixpoint find_prop (fdt : list Z) (name : cstr) (off : Z) (b : items) : option (Z * list Z) :=
  match b with
  | Nil | Node _ _ _ _ => None
  | Nop rest => find_prop fdt name (off + 4) rest
  | Property nameoff val pad rest =>
      if bool_decide (prop_name fdt nameoff = Some name) then Some (off, val)
      else find_prop fdt name (off + Z.of_nat (length (enc (TProp nameoff val pad)))) rest
  end.

(** Every property of a node has a name in the strings block. *)
Fixpoint named (fdt : list Z) (b : items) : Prop :=
  match b with
  | Nil => True
  | Nop rest => named fdt rest
  | Property nameoff _ _ rest => nameoff < 2 ^ 31 /\ is_Some (prop_name fdt nameoff) /\ named fdt rest
  | Node _ _ body rest => named fdt body /\ named fdt rest
  end.

Lemma string_from_inv l s : string_from l = Some s -> Forall (λ c, c <> 0) s /\ ∃ tail, l = s ++ 0 :: tail.
Proof.
  revert s. induction l as [|c l IH]; intros s H; cbn [string_from] in H; [done|].
  destruct (Z.eqb_spec c 0) as [->|Hc]; [injection H as <-; split; [done|by eexists]|].
  destruct (string_from l) as [s'|]; [|done]. injection H as <-. destruct (IH s' eq_refl) as (Hs & tail & ->).
  split; [by constructor|by exists tail].
Qed.

Lemma string_at_inv fdt p s : string_at fdt p = Some s -> holds fdt p (s ++ [0]) /\ Forall (λ c, c <> 0) s.
Proof.
  unfold string_at. case_decide; [|done]. intros (Hs & tail & E)%string_from_inv.
  split; [|done]. split; [done|]. exists tail. by rewrite E, <-app_assoc.
Qed.

Lemma string_eq_spec fdt nameoff n s :
  prop_name fdt nameoff = Some n -> Forall (λ c, c <> 0) s -> _fdt_string_eq fdt nameoff s = Some (bool_decide (n = s)).
Proof.
  unfold prop_name, _fdt_string_eq, fdt_string. intros H Hs. destruct (fdt_off_dt_strings fdt) as [sb|]; [|done]. cbn [mbind option_bind] in *.
  apply string_at_inv in H as [H Hn]. rewrite (strnlen_at_holds _ _ _ n H Hn). cbn [mbind option_bind].
  destruct (Nat.eqb_spec (Nat.min (length s + 1) (length n)) (length s)) as [El|El]; cbn [negb].
  - rewrite (eq_at_string _ _ n s H Hs). by rewrite take_ge by lia.
  - rewrite bool_decide_false; [done|]. intros ->. lia.
Qed.

Section properties.
Context {fdt : list Z} {base : Z} {ts : list token} (HB : structure fdt base ts).

(** [_nextprop] on tokens. *)
Fixpoint next_prop (off : Z) (rest : list token) : Z :=
  match rest with
  | TNop :: rest => next_prop (off + 4) rest
  | TProp _ _ _ :: _ => off
  | TFin :: _ => - FDT_ERR_BADSTRUCTURE
  | _ => - FDT_ERR_NOTFOUND
  end.

Lemma nextprop_loop_spec fuel pre rest :
  ts = pre ++ rest -> rest <> [] -> TFin ∈ rest -> (length rest <= fuel)%nat ->
  nextprop_loop fuel fdt (size_of pre) = Some (next_prop (size_of pre) rest).
Proof.
  revert fuel pre. induction rest as [|t rest IH]; intros fuel pre E _ Hin Hf; [by apply elem_of_nil in Hin|].
  destruct fuel as [|fuel]; cbn [length] in Hf; [lia|]. cbn [nextprop_loop]. rewrite (next_tag_spec HB _ _ _ E). cbn [mbind option_bind].
  destruct t; cbn [tag_of next_prop Z.eqb Pos.eqb FDT_END_NODE FDT_BEGIN_NODE FDT_PROP FDT_END FDT_NOP]; try done.
  - assert (TFin ∈ rest) as Hin' by (by eapply fin_tail).
    rewrite (IH fuel (pre ++ [TNop])); [by rewrite size_snoc|by rewrite E, <-app_assoc| |done|lia]. intros ->. by apply elem_of_nil in Hin'.
  - by rewrite (proj2 (Z.leb_le _ _)) by apply size_pos.
Qed.

Lemma nextprop_spec pre rest :
  ts = pre ++ rest -> TFin ∈ rest -> _nextprop fdt (size_of pre) = Some (next_prop (size_of pre) rest).
Proof.
  intros E Hin. apply nextprop_loop_spec; [done| |done|].
  - intros ->. by apply elem_of_nil in Hin.
  - pose proof (rest_bound HB _ _ E). lia.
Qed.

Lemma check_prop_ok pre nameoff val pad post :
  ts = pre ++ TProp nameoff val pad :: post ->
  _fdt_check_prop_offset fdt (size_of pre) = Some (size_of (pre ++ [TProp nameoff val pad])).
Proof.
  intros E. unfold _fdt_check_prop_offset. assert (Forall tok_ok pre) as Hp.
  { pose proof (blob_toks _ _ _ HB) as Ht. rewrite E in Ht. by apply Forall_app in Ht as [? _]. }
  rewrite (size_of_mod pre Hp), (proj2 (Z.ltb_ge _ 0)) by apply size_pos. cbn [orb negb Z.eqb].
  rewrite (next_tag_spec HB _ _ _ E). done.
Qed.

(** The fields of a property. *)
Lemma prop_holds pre nameoff val pad post :
  ts = pre ++ TProp nameoff val pad :: post ->
  rd32 fdt (base + size_of pre + 4) = Some (Z.of_nat (length val))
  /\ rd32 fdt (base + size_of pre + 8) = Some nameoff
  /\ holds fdt (base + size_of pre + 12) val
  /\ size_of pre + 12 + Z.of_nat (length val) <= size_of ts.
Proof.
  intros E. pose proof (token_holds HB _ _ _ E) as H. destruct (token_ok HB _ _ _ E) as (Hw & _ & _).
  pose proof (token_fits HB _ _ _ E) as Hf. cbn [enc] in H, Hf. rewrite !length_app, !be_bytes4_length in Hf.
  pose proof (blob_small _ _ _ HB) as Hsm. pose proof (size_pos pre) as Hsp.
  apply holds_app in H as [_ H]. apply holds_app in H as [H1 H]. apply holds_app in H as [H2 H]. apply holds_app in H as [H3 _].
  rewrite !be_bytes4_length in *. change (Z.of_nat 4) with 4 in *.
  split; [apply rd32_holds; [done|unfold word; lia]|]. rewrite <-Z.add_assoc in H2, H3. rewrite <-!Z.add_assoc in H3.
  split; [apply rd32_holds; [by rewrite <-!Z.add_assoc in *|done]|]. split; [by rewrite <-!Z.add_assoc in *|lia].
Qed.

Lemma property_by_offset_ok pre nameoff val pad post :
  ts = pre ++ TProp nameoff val pad :: post ->
  fdt_get_property_by_offset fdt (size_of pre) = Some (inr (base + size_of pre, Z.of_nat (length val))).
Proof.
  intros E. unfold fdt_get_property_by_offset. rewrite (check_prop_ok _ _ _ _ _ E). cbn [mbind option_bind].
  rewrite (proj2 (Z.ltb_ge _ 0)) by apply size_pos. rewrite (offset_ptr_ok HB). cbn [mbind option_bind].
  destruct (prop_holds _ _ _ _ _ E) as (-> & _ & _ & Hf). cbn [mbind option_bind].
  pose proof (blob_small _ _ _ HB) as Hsm. pose proof (size_pos pre) as Hsp. unfold s32, swrap. rewrite Z.mod_small by lia. do 4 f_equal. lia.
Qed.

(** The loop over the properties of a node. *)
Lemma property_loop_spec fuel pre b post name :
  ts = pre ++ toks b ++ TEnd :: post -> TFin ∈ post -> named fdt b -> Forall (λ c, c <> 0) name ->
  (length (toks b) < fuel)%nat ->
  property_loop fuel fdt (next_prop (size_of pre) (toks b ++ TEnd :: post)) name
  = Some (match find_prop fdt name (size_of pre) b with
          | Some (o, val) => inr (base + o, Z.of_nat (length val))
          | None => inl (- FDT_ERR_NOTFOUND)
          end).
Proof.
  intros E Hin Hnm Hs Hf. revert fuel pre E Hnm Hf.
  induction b as [|rest IH|nameoff val pad rest IH|n pad body _ rest _]; intros fuel pre E Hnm Hf;
    (destruct fuel as [|fuel]; [lia|]); cbn [toks app next_prop find_prop named length] in *.
  - done.
  - replace (size_of pre + 4) with (size_of (pre ++ [TNop])) by apply size_snoc.
    apply IH; [by rewrite E, <-app_assoc|done|lia].
  - destruct Hnm as (Hno & [n Hn] & Hnm). pose proof (size_pos pre) as Hp. cbn [property_loop].
    rewrite (proj2 (Z.ltb_ge (size_of pre) 0)) by done. rewrite (property_by_offset_ok _ _ _ _ _ E). cbn [mbind option_bind].
    destruct (prop_holds _ _ _ _ _ E) as (_ & -> & _). cbn [mbind option_bind].
    destruct (token_ok HB _ _ _ E) as ([Hw _] & _ & _).
    replace (s32 nameoff) with nameoff by (unfold s32, swrap; rewrite Z.mod_small by lia; lia).
    rewrite (string_eq_spec _ _ _ name Hn Hs). cbn [mbind option_bind]. rewrite Hn.
    destruct (bool_decide (n = name)) eqn:Hb.
    + apply bool_decide_eq_true in Hb as ->. by rewrite bool_decide_true.
    + apply bool_decide_eq_false in Hb. rewrite bool_decide_false by congruence.
      unfold fdt_next_property_offset. rewrite (check_prop_ok _ _ _ _ _ E). cbn [mbind option_bind].
      rewrite (proj2 (Z.ltb_ge _ 0)) by apply size_pos.
      assert (ts = (pre ++ [TProp nameoff val pad]) ++ toks rest ++ TEnd :: post) as E' by (by rewrite E, <-app_assoc).
      rewrite (nextprop_spec _ _ E' (fin_in _ _ Hin)). cbn [mbind option_bind].
      rewrite <-size_snoc. apply IH; [done|done|lia].
  - done.
Qed.
End properties.

(** ** The reading functions on trees *)

(** The value of a property, and a child with what it contains. *)
Definition prop_value (fdt : list Z) (name : cstr) (b : items) : option (list Z) := snd <$> find_prop fdt name 0 b.
Definition child (s : cstr) (b : items) : option (cstr * items) := snd <$> find_child s 0 b.

Lemma find_prop_shift fdt name off b : snd <$> find_prop fdt name off b = prop_value fdt name b.
Proof.
  unfold prop_value. generalize 0. revert off.
  induction b as [|rest IH|nameoff val pad rest IH|]; intros o1 o2; cbn [find_prop]; [done|apply IH| |done].
  case_bool_decide; [done|apply IH].
Qed.

Lemma find_child_shift s off b : snd <$> find_child s off b = child s b.
Proof.
  unfold child. generalize 0. revert off.
  induction b as [|rest IH|nameoff val pad rest IH|name pad body _ rest IH]; intros o1 o2; cbn [find_child]; [done|apply IH|apply IH|].
  destruct (name_matches name s); [done|apply IH].
Qed.

Section trees.
Context {fdt : list Z} {base : Z} {ts : list token} (HB : blob fdt base ts).

Lemma find_prop_token name pre b post o val :
  ts = pre ++ toks b ++ post -> find_prop fdt name (size_of pre) b = Some (o, val) ->
  ∃ pre' nameoff pad post', ts = pre' ++ TProp nameoff val pad :: post' /\ o = size_of pre'.
Proof.
  revert pre. induction b as [|rest IH|nameoff v pad rest IH|]; intros pre E H; cbn [find_prop toks app] in *; [done| | |done].
  - apply (IH (pre ++ [TNop])); [by rewrite E, <-app_assoc|by rewrite size_snoc].
  - destruct (bool_decide _); [injection H as <- <-; by eexists _, _, _, _|].
    apply (IH (pre ++ [TProp nameoff v pad])); [by rewrite E, <-app_assoc|by rewrite size_snoc].
Qed.

Lemma get_property_tree pre n pad b post name :
  ts = pre ++ TBegin n pad :: toks b ++ TEnd :: post -> TFin ∈ post -> named fdt b -> Forall (λ c, c <> 0) name ->
  fdt_get_property fdt (size_of pre) name
  = Some (match find_prop fdt name (size_of (pre ++ [TBegin n pad])) b with
          | Some (o, val) => inr (base + o, Z.of_nat (length val))
          | None => inl (- FDT_ERR_NOTFOUND)
          end).
Proof.
  intros E Hin Hnm Hs. unfold fdt_get_property, fdt_get_property_namelen, fdt_first_property_offset.
  rewrite (check_node_ok HB _ _ _ _ E). cbn [mbind option_bind]. rewrite (proj2 (Z.ltb_ge _ 0)) by apply size_pos.
  assert (ts = (pre ++ [TBegin n pad]) ++ toks b ++ TEnd :: post) as E' by (by rewrite E, <-app_assoc).
  rewrite (nextprop_spec HB _ _ E' (fin_in _ _ Hin)). cbn [mbind option_bind].
  apply (property_loop_spec HB _ _ _ _ _ E' Hin Hnm Hs).
  pose proof (rest_bound HB _ _ E') as Hb. rewrite length_app in Hb. lia.
Qed.

Lemma getprop_tree off n b name :
  node_at ts off n b -> named fdt b -> Forall (λ c, c <> 0) name ->
  match prop_value fdt name b with
  | Some val => ∃ p, fdt_getprop fdt off name = Some (inr (p, Z.of_nat (length val))) /\ holds fdt p val
  | None => fdt_getprop fdt off name = Some (inl (- FDT_ERR_NOTFOUND))
  end.
Proof.
  intros (pre & pad & post & E & Hin & ->) Hnm Hs. unfold fdt_getprop, fdt_getprop_namelen.
  pose proof (get_property_tree _ _ _ _ _ _ E Hin Hnm Hs) as Hg. unfold fdt_get_property in Hg. rewrite Hg. clear Hg.
  assert (ts = (pre ++ [TBegin n pad]) ++ toks b ++ TEnd :: post) as E' by (by rewrite E, <-app_assoc).
  cbn [mbind option_bind]. rewrite <-(find_prop_shift fdt name (size_of (pre ++ [TBegin n pad]))).
  destruct (find_prop fdt name _ b) as [[o val]|] eqn:Hf; cbn [fmap option_fmap option_map snd]; [|done].
  destruct (find_prop_token _ _ _ _ _ _ E' Hf) as (pre' & nameoff & pad' & post' & E'' & ->).
  eexists. split; [done|]. by destruct (prop_holds HB _ _ _ _ _ E'') as (_ & _ & ? & _).
Qed.

Lemma subnode_tree off n b s :
  node_at ts off n b -> Forall (λ c, c <> 0) s -> Z.of_nat (length s) + 1 < 2 ^ 31 ->
  match child s b with
  | Some (n', b') => ∃ off', fdt_subnode_offset_namelen fdt off s = Some off' /\ node_at ts off' n' b' /\ name_matches n' s
  | None => fdt_subnode_offset_namelen fdt off s = Some (- FDT_ERR_NOTFOUND)
  end.
Proof.
  intros (pre & pad & post & E & Hin & ->) Hs Hl.
  rewrite (subnode_offset_scan HB _ _ _ _ s E (fin_in _ _ Hin) Hs Hl).
  rewrite sub_scan_children, <-(find_child_shift s (size_of (pre ++ [TBegin n pad]))).
  destruct (find_child s _ b) as [[o [n' b']]|] eqn:Hf; cbn [fmap option_fmap option_map snd]; [|done].
  exists o. split; [done|]. apply (find_child_at s b (pre ++ [TBegin n pad]) post); [by rewrite E, <-app_assoc|done|done].
Qed.

Lemma node_at_pos off n b : node_at ts off n b -> 0 <= off.
Proof. intros (pre & pad & post & _ & _ & ->). apply size_pos. Qed.

Lemma named_child s b n' b' : named fdt b -> child s b = Some (n', b') -> named fdt b'.
Proof.
  unfold child. generalize 0. induction b as [|rest IH|nameoff val pad rest IH|name pad body _ rest IH]; intros o Hnm Hf; cbn [find_child named] in *.
  - done.
  - exact (IH _ Hnm Hf).
  - destruct Hnm as (_ & _ & Hnm). exact (IH _ Hnm Hf).
  - destruct Hnm as [Hb Hr]. destruct (name_matches name s); [by injection Hf as _ <-|exact (IH _ Hr Hf)].
Qed.
End trees.

(** ** Paths *)

Definition component_ok (s : cstr) : Prop :=
  s <> [] /\ Forall (λ c, c <> 0 /\ c <> 47 /\ c <> 58) s /\ Z.of_nat (length s) + 1 < 2 ^ 31.

(** [/name1/name2/...] *)
Definition path_text (cs : list cstr) : cstr := concat (map (cons 47) cs).

(** The node that the components lead to. *)
Fixpoint descend (cs : list cstr) (nb : cstr * items) : option (cstr * items) :=
  match cs with
  | [] => Some nb
  | c :: cs => nb' ← child c (snd nb); descend cs nb'
  end.

Lemma next_seperator_app s q :
  Forall (λ c, c <> 0 /\ c <> 47 /\ c <> 58) s -> (q = [] \/ head q = Some 47) -> fdt_path_next_seperator (s ++ q) = (s, q).
Proof.
  intros Hs Hq. induction Hs as [|c s (_ & H47 & H58) Hs IH]; cbn [app fdt_path_next_seperator].
  - destruct Hq as [->|Hq]; [done|]. destruct q as [|c q]; [done|]. injection Hq as ->. done.
  - rewrite (proj2 (Z.eqb_neq c 47)), (proj2 (Z.eqb_neq c 58)) by done. cbn [orb]. by rewrite IH.
Qed.

Section paths.
Context {fdt : list Z} {base : Z} {ts : list token} (HB : blob fdt base ts).

Lemma path_loop_spec fuel cs off n b :
  node_at ts off n b -> Forall component_ok cs -> (length (path_text cs) < fuel)%nat ->
  match descend cs (n, b) with
  | Some (n', b') => ∃ off', path_loop fuel fdt off (path_text cs) = Some off' /\ node_at ts off' n' b'
  | None => path_loop fuel fdt off (path_text cs) = Some (- FDT_ERR_NOTFOUND)
  end.
Proof.
  intros Hat Hcs. revert fuel off n b Hat. induction Hcs as [|c cs (Hne & Hc & Hlen) Hcs IH]; intros fuel off n b Hat Hf;
    (destruct fuel as [|fuel]; [cbn in Hf; lia|]).
  - cbn [descend path_text map concat path_loop]. by exists off.
  - unfold path_text in *. cbn [map concat descend snd]. set (q := concat (map (cons 47) cs)) in *.
    assert (q = [] \/ head q = Some 47) as Hq by (subst q; destruct cs; [by left|by right]).
    cbn [app path_loop]. change (47 =? 47) with true. cbn [skip_slashes]. change (47 =? 47) with true. cbv iota.
    assert (Forall (λ c, c <> 0) c) as Hc0 by (eapply Forall_impl; [exact Hc|by intros ? (? & _)]).
    destruct c as [|x c]; [done|]. pose proof Hc as Hx. apply Forall_cons in Hx as [(_ & H47 & H58) _].
    cbn [app skip_slashes]. rewrite (proj2 (Z.eqb_neq x 47)) by done. rewrite (proj2 (Z.eqb_neq x 58)) by done.
    change (x :: c ++ q) with ((x :: c) ++ q). rewrite (next_seperator_app _ _ Hc Hq).
    pose proof (subnode_tree HB off n b (x :: c) Hat Hc0 Hlen) as Hsub.
    destruct (child (x :: c) b) as [[n' b']|]; cbn [mbind option_bind].
    + destruct Hsub as (off' & -> & Hat' & _). cbn [mbind option_bind].
      rewrite (proj2 (Z.ltb_ge off' 0)) by (by eapply node_at_pos). apply IH; [done|].
      cbn [map concat app length] in Hf. rewrite length_app in Hf. subst q. lia.
    + rewrite Hsub. done.
Qed.
End paths.

(** C16. Paths are resolved as in the tree: on a blob of a tree, [fdt_path_offset]
    of [/name1/name2/...] is the offset of the node that the names lead to, each
    of them being the first child with that name (a name without a unit
    address also matches one with it), and [-FDT_ERR_NOTFOUND] if there is none. *)
Theorem fdt_path_offset_tree fdt base rootname pad body cs :
  blob fdt base (tree_toks rootname pad body) -> cs <> [] -> Forall component_ok cs ->
  match descend cs (rootname, body) with
  | Some (n, b) => ∃ off, fdt_path_offset fdt (path_text cs) = Some off /\ node_at (tree_toks rootname pad body) off n b
  | None => fdt_path_offset fdt (path_text cs) = Some (- FDT_ERR_NOTFOUND)
  end.
Proof.
  intros HB Hne Hcs. assert (head (path_text cs) = Some 47) as Hh by (by destruct cs).
  unfold fdt_path_offset. cbn [path_offset]. rewrite bool_decide_true by done.
  unfold absolute_path_offset. rewrite (with_header_ok HB).
  apply (path_loop_spec HB _ cs 0 rootname body (root_at _ _ _) Hcs). lia.
Qed.

(** Properties are read as in the tree: at a node, [fdt_getprop] finds the
    first property of the name before the children, its length is that of the
    value and the pointer is to its bytes; without such a property the result
    is NULL with [-FDT_ERR_NOTFOUND]. *)
Theorem fdt_getprop_tree fdt base ts off n b name :
  blob fdt base ts -> node_at ts off n b -> named fdt b -> Forall (λ c, c <> 0) name ->
  match prop_value fdt name b with
  | Some val => ∃ p, fdt_getprop fdt off name = Some (inr (p, Z.of_nat (length val))) /\ holds fdt p val
  | None => fdt_getprop fdt off name = Some (inl (- FDT_ERR_NOTFOUND))
  end.
Proof. intros HB. apply (getprop_tree HB). Qed.

(** ** Blobs that nobody checked *)

(** Only the structure block is known to be inside of the blob. *)
Record bounded (fdt : list Z) (base size : Z) : Prop := {
  bounded_version : ∃ v, fdt_version fdt = Some v /\ 0x11 <= v;
  bounded_base : fdt_off_dt_struct fdt = Some base;
  bounded_size : fdt_size_dt_struct fdt = Some size;
  bounded_range : 0 <= base /\ 0 <= size < 2 ^ 31 - 8;
  bounded_length : base + size <= Z.of_nat (length fdt);
  bounded_bytes : Forall byte fdt
}.

Section hostile.
Context {fdt : list Z} {base size : Z} (HB : bounded fdt base size).

Lemma bounded_offset_ptr offset len :
  fdt_offset_ptr fdt offset len
  = Some (if (u32 (offset + len) <? u32 offset) || (size <? u32 (offset + len)) then None else Some (base + offset)).
Proof.
  unfold fdt_offset_ptr. destruct (bounded_version _ _ _ HB) as (v & -> & Hv). rewrite (bounded_size _ _ _ HB). cbn [mbind option_bind].
  rewrite (proj2 (Z.leb_le _ v)) by done. cbn [mbind option_bind]. destruct (_ || _); [done|].
  unfold _fdt_offset_ptr. by rewrite (bounded_base _ _ _ HB).
Qed.

Lemma bounded_rd32 p : 0 <= p -> p + 4 <= Z.of_nat (length fdt) -> ∃ w, rd32 fdt p = Some w /\ 0 <= w < 2 ^ 32.
Proof.
  intros Hp Hl. unfold rd32. rewrite decide_True by lia. eexists. split; [done|].
  pose proof (be32_range (take 4 (drop (Z.to_nat p) fdt))) as H. rewrite length_take, length_drop, Nat.min_l in H by lia.
  apply H, Forall_take, Forall_drop. exact (bounded_bytes _ _ _ HB).
Qed.

Lemma bounded_aget p : 0 <= p < Z.of_nat (length fdt) -> is_Some (aget fdt p).
Proof. intros Hp. apply aget_is_Some. lia. Qed.

Lemma skip_name_total fuel o :
  0 <= o <= size -> size - o < Z.of_nat fuel ->
  ∃ r, skip_name fuel fdt o = Some r /\ (∀ o', r = Some o' -> o < o' <= size).
Proof.
  destruct (bounded_range _ _ _ HB) as [Hb Hs]. pose proof (bounded_length _ _ _ HB) as Hlen.
  revert o. induction fuel as [|fuel IH]; intros o Ho Hf; [lia|]. cbn [skip_name]. rewrite bounded_offset_ptr.
  rewrite !u32_small by lia. rewrite (proj2 (Z.ltb_ge (o + 1) o)) by lia. cbn [orb mbind option_bind].
  destruct (Z.ltb_spec size (o + 1)); [by eexists|].
  destruct (bounded_aget (base + o)) as [c Hc]; [lia|]. rewrite Hc. cbn [mbind option_bind].
  destruct (c =? 0); [eexists; split; [done|]; intros o' [= <-]; lia|].
  destruct (IH (o + 1)) as (r & -> & Hr); [lia|lia|]. eexists. split; [done|]. intros o' ->. specialize (Hr o' eq_refl). lia.
Qed.

Lemma tagalign_bounds n : 0 <= n < 2 ^ 31 - 8 -> n <= FDT_TAGALIGN n <= n + 3.
Proof.
  intros Hn. unfold FDT_TAGALIGN. rewrite align4_land.
  unfold s32, swrap. rewrite Z.mod_small by (Z.to_euclidean_division_equations; lia).
  Z.to_euclidean_division_equations. lia.
Qed.
End hostile.

(** [fdt_next_tag] is safe on any blob whose structure block lies in memory,
    whatever the block contains and at any offset, negative ones included: it
    returns and reads nothing outside, and the next offset is not before the
    tag and at most the rounded end of the block; it moves on for every tag but
    a property. *)
Theorem fdt_next_tag_safe fdt base size offset :
  bounded fdt base size -> - 2 ^ 31 <= offset < 2 ^ 31 ->
  ∃ tag next, fdt_next_tag fdt offset = Some (tag, next)
    /\ (tag <> FDT_END -> 0 <= offset <= next /\ next <= size + 3 /\ (tag <> FDT_PROP -> offset + 4 <= next)).
Proof.
  intros HB Ho. destruct (bounded_range _ _ _ HB) as [Hb Hs]. pose proof (bounded_length _ _ _ HB) as Hlen.
  unfold fdt_next_tag. rewrite (bounded_offset_ptr HB offset 4).
  destruct (_ || _) eqn:Hc; cbn [mbind option_bind]; [by eexists _, _|].
  apply orb_false_iff in Hc as [Hc1%Z.ltb_ge Hc2%Z.ltb_ge].
  assert (0 <= offset /\ offset + 4 <= size) as [Ho0 Ho4].
  { unfold u32, wrap in Hc1, Hc2. Z.to_euclidean_division_equations. lia. }
  clear Hc1 Hc2. destruct (bounded_rd32 HB (base + offset)) as (tag & -> & Htag); [lia|lia|]. cbn [mbind option_bind].
  assert (∀ o, - 2 ^ 31 <= o < 2 ^ 31 -> (tag <> FDT_PROP -> offset + 4 <= o) -> ∃ t next,
    (p ← fdt_offset_ptr fdt offset (u32 (o - offset));
     match p with None => Some (FDT_END, - FDT_ERR_BADSTRUCTURE) | Some _ => Some (tag, FDT_TAGALIGN o) end) = Some (t, next)
    /\ (t <> FDT_END -> 0 <= offset <= next /\ next <= size + 3 /\ (t <> FDT_PROP -> offset + 4 <= next))) as Hfin.
  { intros o Hor Hmove. rewrite (bounded_offset_ptr HB). destruct (_ || _) eqn:Hc; cbn [mbind option_bind]; [by eexists _, _|].
    apply orb_false_iff in Hc as [Hc1%Z.ltb_ge Hc2%Z.ltb_ge]. eexists _, _. split; [done|]. intros Ht.
    assert (offset <= o <= size) as Hos by (unfold u32, wrap in Hc1, Hc2; Z.to_euclidean_division_equations; lia).
    pose proof (tagalign_bounds o ltac:(lia)). lia. }
  destruct (tag =? FDT_BEGIN_NODE) eqn:E1.
  { destruct (skip_name_total HB (S (length fdt)) (offset + 4)) as (r & -> & Hr); [lia|lia|]. cbn [mbind option_bind].
    destruct r as [o|]; [|by eexists _, _]. specialize (Hr o eq_refl). apply Hfin; lia. }
  destruct (Z.eqb_spec tag FDT_PROP) as [->|E2].
  { rewrite (bounded_offset_ptr HB). destruct (_ || _) eqn:Hc; cbn [mbind option_bind]; [by eexists _, _|].
    apply orb_false_iff in Hc as [_ Hc2%Z.ltb_ge]. rewrite u32_small in Hc2 by lia.
    destruct (bounded_rd32 HB (base + (offset + 4))) as (len & -> & Hl); [lia|lia|]. cbn [mbind option_bind].
    apply Hfin; [|done]. unfold s32, swrap. Z.to_euclidean_division_equations. lia. }
  destruct (_ || _); [apply Hfin; lia|by eexists _, _].
Qed.

(** A property with the length [0xFFFFFFF4] makes every walk over the tree
    loop forever: the next tag is the same property again. *)
Theorem fdt_next_node_hangs fdt base size offset depth :
  bounded fdt base size -> 0 <= offset -> offset mod 4 = 0 -> offset + 8 <= size ->
  rd32 fdt (base + offset) = Some FDT_PROP -> rd32 fdt (base + offset + 4) = Some 0xFFFFFFF4 ->
  fdt_next_tag fdt offset = Some (FDT_PROP, offset) /\ ∀ fuel, next_node_loop fuel fdt offset depth = None.
Proof.
  intros HB Ho Hm Hs Htag Hlen. destruct (bounded_range _ _ _ HB) as [Hb Hsz].
  assert (fdt_next_tag fdt offset = Some (FDT_PROP, offset)) as Hnext.
  { unfold fdt_next_tag. rewrite (bounded_offset_ptr HB offset 4). rewrite !u32_small by lia.
    rewrite (proj2 (Z.ltb_ge (offset + 4) offset)), (proj2 (Z.ltb_ge size (offset + 4))) by lia. cbn [orb mbind option_bind].
    rewrite Htag. cbn [mbind option_bind]. change (FDT_PROP =? FDT_BEGIN_NODE) with false. change (FDT_PROP =? FDT_PROP) with true. cbv iota.
    rewrite (bounded_offset_ptr HB (offset + 4) 4). rewrite !u32_small by lia.
    rewrite (proj2 (Z.ltb_ge (offset + 4 + 4) (offset + 4))), (proj2 (Z.ltb_ge size (offset + 4 + 4))) by lia. cbn [orb mbind option_bind].
    rewrite Z.add_assoc, Hlen. cbn [mbind option_bind].
    replace (s32 (offset + 4 + 8 + 4294967284)) with offset by (unfold s32, swrap; Z.to_euclidean_division_equations; lia).
    rewrite Z.sub_diag. change (u32 0) with 0. rewrite (bounded_offset_ptr HB), Z.add_0_r. rewrite !u32_small by lia.
    rewrite Z.ltb_irrefl, (proj2 (Z.ltb_ge size offset)) by lia. cbn [orb mbind option_bind]. do 2 f_equal.
    rewrite (tagalign_spec offset 0%nat); rewrite ?Z.add_0_r; done || lia. }
  split; [done|]. intros fuel. induction fuel as [|fuel IH]; [done|]. cbn [next_node_loop]. rewrite Hnext. cbn [mbind option_bind]. exact IH.
Qed.

(** ** An example *)

(** A root with a property [a] and a node [cpu@0] with an empty property [b]. *)
Definition ex_body : items :=
  Property 0 [1; 2; 3] [0] (Nop (Node (chars "cpu@0") [0; 0] (Property 2 [] [] Nil) Nil)).
Definition ex_toks : list token := tree_toks [] [0; 0; 0] ex_body.

Definition ex_header (total strings nstrings nstruct : Z) : list Z :=
  concat (map be_bytes4 [FDT_MAGIC; total; 56; strings; 40; 17; 16; 0; nstrings; nstruct]).

Definition ex_fdt : list Z :=
  ex_header 124 120 4 64 ++ replicate 16 0 ++ encs ex_toks ++ [97; 0; 98; 0].

Lemma ex_blob : blob ex_fdt 56 ex_toks.
Proof.
  split; [vm_compute; reflexivity|exists 16; split; [vm_compute; reflexivity|lia]|split].
  - vm_compute. reflexivity.
  - vm_compute. reflexivity.
  - vm_compute. reflexivity.
  - split; [lia|]. exists [97; 0; 98; 0]. vm_compute. reflexivity.
  - vm_compute. reflexivity.
  - repeat constructor; vm_compute; (done || lia || (repeat constructor; lia)).
Qed.

(** [/cpu] is the node with the unit address. *)
Lemma fdt_path_offset_tree_witness :
  ∃ off, fdt_path_offset ex_fdt (path_text [chars "cpu"]) = Some off
    /\ node_at ex_toks off (chars "cpu@0") (Property 2 [] [] Nil).
Proof.
  apply (fdt_path_offset_tree ex_fdt 56 [] [0; 0; 0] ex_body [chars "cpu"]).
  - exact ex_blob.
  - done.
  - repeat constructor; vm_compute; done || discriminate.
Defined.

Lemma fdt_getprop_tree_witness :
  ∃ p, fdt_getprop ex_fdt 0 (chars "a") = Some (inr (p, 3)) /\ holds ex_fdt p [1; 2; 3].
Proof.
  apply (fdt_getprop_tree ex_fdt 56 ex_toks 0 [] ex_body (chars "a")).
  - exact ex_blob.
  - exact (root_at [] [0; 0; 0] ex_body).
  - cbn [named ex_body]. split_and!; try lia; try done; eexists; vm_compute; reflexivity.
  - repeat constructor; discriminate.
Defined.

(** A structure block with one property of the fatal length. *)
Definition ex_hang : list Z := ex_header 68 68 0 12 ++ replicate 16 0 ++ concat (map be_bytes4 [FDT_PROP; 0xFFFFFFF4; 0]).

Lemma ex_hang_bounded : bounded ex_hang 56 12.
Proof.
  split.
  - exists 17. split; [vm_compute; reflexivity|lia].
  - vm_compute. reflexivity.
  - vm_compute. reflexivity.
  - lia.
  - vm_compute. discriminate.
  - by apply all_bytes.
Qed.

Lemma fdt_next_tag_safe_witness :
  ∃ tag next, fdt_next_tag ex_hang (-4) = Some (tag, next)
    /\ (tag <> FDT_END -> 0 <= -4 <= next /\ next <= 12 + 3 /\ (tag <> FDT_PROP -> -4 + 4 <= next)).
Proof. apply (fdt_next_tag_safe ex_hang 56 12 (-4)); [exact ex_hang_bounded|lia]. Defined.

Lemma fdt_next_node_hangs_witness :
  fdt_next_tag ex_hang 0 = Some (FDT_PROP, 0) /\ ∀ fuel, next_node_loop fuel ex_hang 0 (Some 0) = None.
Proof.
  apply (fdt_next_node_hangs ex_hang 56 12 0 (Some 0)).
  - exact ex_hang_bounded.
  - lia.
  - reflexivity.
  - lia.
  - vm_compute. reflexivity.
  - vm_compute. reflexivity.
Defined.
