(* ===== verification/FdtWip.v ===== *)
(** * Changing a blob in place, and regions to hash ([lib/libfdt/fdt_wip.c])

    The functions that write return the new blob with their result. *)

From S2P Require Import Prelude Crc Bytes Ctype Cstring Hashtable Fdt.

(** [memcpy] into the blob. *)
Definition poke (fdt : list Z) (p : Z) (l : list Z) : option (list Z) :=
  if decide (0 <= p /\ p + Z.of_nat (length l) <= Z.of_nat (length fdt))
  then Some (take (Z.to_nat p) fdt ++ l ++ drop (Z.to_nat p + length l) fdt) else None.

Definition fdt_setprop_inplace (fdt : list Z) (nodeoffset : Z) (name : cstr) (val : list Z) : option (Z * list Z) :=
  propval ← fdt_getprop fdt nodeoffset name;
  match propval with
  | inl proplen => Some (proplen, fdt)
  | inr (p, proplen) =>
      if negb (proplen =? Z.of_nat (length val)) then Some (- FDT_ERR_NOSPACE, fdt)
      else fdt ← poke fdt p val; Some (0, fdt)
  end.

(** Whole words from [start] while the word begins before the end. *)
Definition _fdt_nop_region (fdt : list Z) (start len : Z) : option (list Z) :=
  poke fdt start (concat (replicate (Z.to_nat ((len + 3) / 4)) (be_bytes4 FDT_NOP))).

Definition fdt_nop_property (fdt : list Z) (nodeoffset : Z) (name : cstr) : option (Z * list Z) :=
  prop ← fdt_get_property fdt nodeoffset name;
  match prop with
  | inl len => Some (len, fdt)
  | inr (p, len) => fdt ← _fdt_nop_region fdt p (len + 12); Some (0, fdt)
  end.

Fixpoint node_end_loop (fuel : nat) (fdt : list Z) (offset depth : Z) : option Z :=
  match fuel with
  | O => None
  | S fuel =>
      if (0 <=? offset) && (0 <=? depth) then
        '(offset, depth) ← fdt_next_node fdt offset (Some depth); node_end_loop fuel fdt offset (default 0 depth)
      else Some offset
  end.

Definition _fdt_node_end_offset (fdt : list Z) (offset : Z) : option Z := node_end_loop (2 + length fdt) fdt offset 0.

(** [fdt_offset_ptr_w] is NULL for an offset that is out of the block. *)
Definition fdt_nop_node (fdt : list Z) (nodeoffset : Z) : option (Z * list Z) :=
  endoffset ← _fdt_node_end_offset fdt nodeoffset;
  if endoffset <? 0 then Some (endoffset, fdt)
  else
    start ← fdt_offset_ptr fdt nodeoffset 0;
    start ← start;
    fdt ← _fdt_nop_region fdt start (endoffset - nodeoffset);
    Some (0, fdt).

(** ** Regions *)

Definition FDT_MAX_DEPTH : Z := 32.

Definition str_in_list (str : cstr) (l : list cstr) : bool := existsb (λ s, strcmp_list s str =? 0) l.

(** [while (end > path && *--end != '/')]: the path is cut at its last slash. *)
Definition pop_component (path : cstr) : cstr :=
  reverse (drop 1 ((fix cut (l : cstr) := match l with c :: l' => if c =? 47 then l else cut l' | [] => [] end) (reverse path))).

(** The variables of the loop; [stack] is the used part of the array, its last
    element first. *)
Record walk := Walk { path : cstr; stack : list Z; start : Z; want : Z; count : Z; regions : list (Z * Z) }.

Section regions.
Context (fdt : list Z) (inc exc_prop : list cstr) (max_regions path_len base : Z).

(** The [switch]: [include], [stop_at] and the new variables; an error. *)
Definition visit (w : walk) (tag offset nextoffset : Z) : option (Z + bool * Z * walk) :=
  if tag =? FDT_PROP then
    r ← fdt_get_property_by_offset fdt offset;
    match r with
    | inl _ => None
    | inr (prop, _) =>
        nameoff ← rd32 fdt (prop + 8);
        p ← fdt_string fdt (s32 nameoff);
        str ← string_at fdt p;
        Some (inr ((2 <=? want w) && negb (str_in_list str exc_prop), offset, w))
    end
  else if tag =? FDT_NOP then Some (inr (2 <=? want w, offset, w))
  else if tag =? FDT_BEGIN_NODE then
    if Z.of_nat (length (stack w)) =? FDT_MAX_DEPTH then Some (inl (- FDT_ERR_BADSTRUCTURE))
    else
      r ← fdt_get_name fdt offset;
      match r with
      | inl _ => None
      | inr name =>
          if path_len <=? Z.of_nat (length (path w)) + 2 + Z.of_nat (length name) then Some (inl (- FDT_ERR_NOSPACE))
          else
            let path := path w ++ (if (length (path w) =? 1)%nat then [] else [47]) ++ name in
            let stop_at := if want w =? 1 then offset else nextoffset in
            let '(want', stop_at) :=
              if str_in_list path inc then (2, stop_at)
              else if negb (want w =? 0) then (want w - 1, stop_at)
              else (want w, offset) in
            Some (inr (negb (want' =? 0), stop_at, Walk path (want w :: stack w) (start w) want' (count w) (regions w)))
      end
  else if tag =? FDT_END_NODE then
    match stack w with
    | [] => None
    | want' :: stack =>
        Some (inr (negb (want w =? 0), nextoffset, Walk (pop_component (path w)) stack (start w) want' (count w) (regions w)))
    end
  else Some (inr (true, nextoffset, w)).

(** [region[i] = ...]; the array has [max_regions] elements. *)
Definition set_region (rs : list (Z * Z)) (i : Z) (r : Z * Z) : list (Z * Z) := take (Z.to_nat i) rs ++ [r].

(** The two conditions at the end of a turn: a region is opened or closed. *)
Definition open_region (include : bool) (offset : Z) (w : walk) : option walk :=
  if include && (start w =? -1) then
    if negb (count w =? 0) && (count w <=? max_regions) then
      '(o, s) ← aget (regions w) (count w - 1);
      Some (if offset =? o + s - base then Walk (path w) (stack w) (o - base) (want w) (count w - 1) (regions w)
            else Walk (path w) (stack w) offset (want w) (count w) (regions w))
    else Some (Walk (path w) (stack w) offset (want w) (count w) (regions w))
  else Some w.

Definition close_region (include : bool) (stop_at : Z) (w : walk) : walk :=
  if negb include && negb (start w =? -1) then
    let rs := if count w <? max_regions then set_region (regions w) (count w) (base + start w, stop_at - start w)
              else regions w in
    Walk (path w) (stack w) (-1) (want w) (count w + 1) rs
  else w.

(** The loop; the result is the last offset. *)
Fixpoint regions_loop (fuel : nat) (w : walk) (offset : Z) : option (Z + Z * walk) :=
  match fuel with
  | O => None
  | S fuel =>
      '(tag, nextoffset) ← fdt_next_tag fdt offset;
      v ← visit w tag offset nextoffset;
      match v with
      | inl e => Some (inl e)
      | inr (include, stop_at, w) =>
          w ← open_region include offset w;
          let w := close_region include stop_at w in
          if tag =? FDT_END then Some (inr (nextoffset, w)) else regions_loop fuel w nextoffset
      end
  end.
End regions.

(** The result is the count, and the regions. *)
Definition fdt_find_regions (fdt : list Z) (inc exc_prop : list cstr) (max_regions path_len : Z) (add_string_tab : bool)
    : option (Z * list (Z * Z)) :=
  base ← fdt_off_dt_struct fdt;
  r ← regions_loop fdt inc exc_prop max_regions path_len base (S (length fdt)) (Walk [] [] (-1) 0 0 []) 0;
  match r with
  | inl e => Some (e, [])
  | inr (nextoffset, w) =>
      size ← fdt_size_dt_struct fdt;
      if negb (u32 nextoffset =? size) then Some (- FDT_ERR_BADLAYOUT, regions w)
      else
        strings ← fdt_size_dt_strings fdt;
        let last := nextoffset - start w + (if add_string_tab then strings else 0) in
        let rs := if count w <? max_regions then set_region (regions w) (count w) (base + start w, last) else regions w in
        Some (count w + 1, rs)
  end.
