(* ===== verification/FdtEdit.v ===== *)
(** * In-place changes on trees ([lib/libfdt/fdt_wip.c])

    What [FdtWip] writes into a blob, as changes of its tokens: a property with
    another value, a property or a whole node replaced by NOP tags. *)

From S2P Require Import Prelude Crc Bytes Ctype Cstring Hashtable Fdt FdtTree FdtWip.

(** The header of a blob is in front of the structure block. *)
Definition header_apart (base : Z) : Prop := 40 <= base.

Lemma rd32_app a b q : q + 4 <= Z.of_nat (length a) -> rd32 (a ++ b) q = rd32 a q.
Proof.
  intros Hq. unfold rd32. rewrite length_app. destruct (decide (0 <= q)) as [H0|H0].
  - rewrite !decide_True by lia. do 2 f_equal. rewrite drop_app_le by lia. by rewrite take_app_le by (rewrite length_drop; lia).
  - by rewrite !decide_False by lia.
Qed.

Lemma encs_nonempty t l : tok_ok t -> (0 < length (encs (t :: l)))%nat.
Proof. intros Ht. destruct (enc_length t Ht). unfold encs. cbn [map concat]. rewrite length_app. lia. Qed.

(** Where the tokens [t :: mid] are in the blob. *)
Lemma blob_split fdt base pre t mid post :
  blob fdt base (pre ++ (t :: mid) ++ post) ->
  ∃ front tail, fdt = front ++ encs (t :: mid) ++ encs post ++ tail /\ Z.of_nat (length front) = base + size_of pre
    /\ drop (Z.to_nat base) front = encs pre.
Proof.
  intros HB. pose proof (blob_struct _ _ _ HB) as (Hb & tail & Hs). rewrite !encs_app in Hs.
  assert (tok_ok t) as Ht by (eapply (token_ok HB); done).
  exists (take (Z.to_nat base) fdt ++ encs pre), tail.
  assert (Z.to_nat base <= length fdt)%nat as Hlb.
  { pose proof (encs_nonempty t mid Ht). apply (f_equal length) in Hs. rewrite length_drop, !length_app in Hs. lia. }
  split_and!.
  - rewrite <-(take_drop (Z.to_nat base) fdt) at 1. rewrite Hs, <-!app_assoc. done.
  - rewrite length_app, length_take, Nat.min_l by lia. unfold size_of. lia.
  - by rewrite drop_app_length' by (rewrite length_take; lia).
Qed.

(** Replacing tokens by others that take the same room: the new blob has the
    new tokens, and what is behind the block is as before. *)
Lemma poke_blob fdt base pre t mid mid' post :
  blob fdt base (pre ++ (t :: mid) ++ post) -> header_apart base ->
  length (encs mid') = length (encs (t :: mid)) -> Forall tok_ok mid' ->
  ∃ fdt', poke fdt (base + size_of pre) (encs mid') = Some fdt' /\ blob fdt' base (pre ++ mid' ++ post)
    /\ (∀ q, base + size_of (pre ++ (t :: mid) ++ post) <= q -> drop (Z.to_nat q) fdt' = drop (Z.to_nat q) fdt)
    /\ (∀ q, q + 4 <= base -> rd32 fdt' q = rd32 fdt q).
Proof.
  intros HB Hbase Hl Hok. destruct (blob_split _ _ _ _ _ _ HB) as (front & tail & Hfdt & Hfront & Hpre).
  unfold header_apart in Hbase. pose proof (size_pos pre) as Hsp.
  assert (poke fdt (base + size_of pre) (encs mid') = Some (front ++ encs mid' ++ encs post ++ tail)) as Hpoke.
  { unfold poke. rewrite decide_True by (rewrite Hfdt, !length_app; lia). f_equal.
    assert (Z.to_nat (base + size_of pre) = length front) as -> by lia. rewrite Hfdt.
    rewrite take_app_length. do 2 f_equal. rewrite <-drop_drop, drop_app_length, Hl. by rewrite drop_app_length. }
  eexists. split; [exact Hpoke|].
  assert (∀ q, q + 4 <= base -> rd32 (front ++ encs mid' ++ encs post ++ tail) q = rd32 fdt q) as Hrd.
  { intros q Hq. rewrite Hfdt, !rd32_app by lia. done. }
  assert (size_of (pre ++ mid' ++ post) = size_of (pre ++ (t :: mid) ++ post)) as Hsize by (rewrite !size_of_app; unfold size_of; lia).
  split_and!.
  - unfold fdt_magic, fdt_version, fdt_last_comp_version, fdt_off_dt_struct, fdt_size_dt_struct in *.
    split; [| |split]; unfold fdt_magic, fdt_version, fdt_last_comp_version, fdt_off_dt_struct, fdt_size_dt_struct.
    + rewrite Hrd by lia. apply HB.
    + rewrite Hrd by lia. apply HB.
    + rewrite Hrd by lia. apply HB.
    + rewrite Hrd by lia. apply HB.
    + rewrite Hrd, Hsize by lia. apply HB.
    + split; [lia|]. exists tail. rewrite drop_app_le by lia. by rewrite Hpre, !encs_app, <-!app_assoc.
    + rewrite Hsize. apply HB.
    + pose proof (blob_toks _ _ _ HB) as Ht. rewrite !Forall_app in *. tauto.
  - intros q Hq. rewrite Hfdt. rewrite !size_of_app in Hq. unfold size_of in Hq at 2 3.
    rewrite !app_assoc. rewrite !drop_app_ge by (rewrite !length_app; lia). f_equal. rewrite !length_app. lia.
  - exact Hrd.
Qed.

(** ** Parts of a node *)

Fixpoint app_items (b1 b2 : items) : items :=
  match b1 with
  | Nil => b2
  | Nop rest => Nop (app_items rest b2)
  | Property nameoff val pad rest => Property nameoff val pad (app_items rest b2)
  | Node name pad body rest => Node name pad body (app_items rest b2)
  end.

Fixpoint nops (k : nat) (b : items) : items := match k with O => b | S k => Nop (nops k b) end.

Lemma toks_app b1 b2 : toks (app_items b1 b2) = toks b1 ++ toks b2.
Proof. induction b1 as [|r IH|? ? ? r IH|? ? b _ r IH]; cbn [app_items toks app]; rewrite ?IH; [done..|]. by rewrite <-app_assoc. Qed.

Lemma toks_nops k b : toks (nops k b) = replicate k TNop ++ toks b.
Proof. induction k as [|k IH]; cbn [nops toks replicate app]; [done|by rewrite IH]. Qed.

Lemma child_app s b1 b2 : child s (app_items b1 b2) = match child s b1 with Some c => Some c | None => child s b2 end.
Proof.
  unfold child. generalize 0 at 1 2. induction b1 as [|r IH|? ? ? r IH|n pad b _ r IH]; intros o; cbn [app_items find_child].
  - cbn [fmap option_fmap option_map]. by rewrite !find_child_shift.
  - apply IH.
  - apply IH.
  - destruct (name_matches n s); [done|apply IH].
Qed.

Lemma child_nops s k b : child s (nops k b) = child s b.
Proof. induction k as [|k IH]; [done|]. rewrite <-IH. unfold child at 1. cbn [nops find_child]. apply find_child_shift. Qed.

Lemma prop_value_nops fdt m b1 k b2 : prop_value fdt m (app_items b1 (nops k b2)) = prop_value fdt m (app_items b1 b2).
Proof.
  unfold prop_value.
  enough (∀ o1 o2, snd <$> find_prop fdt m o1 (app_items b1 (nops k b2)) = snd <$> find_prop fdt m o2 (app_items b1 b2)) as H by apply H.
  induction b1 as [|r IH|? ? ? r IH|]; intros o1 o2; cbn [app_items find_prop]; [|apply IH| |done].
  - rewrite !find_prop_shift. induction k as [|k IH]; [done|]. rewrite <-IH. unfold prop_value at 1. cbn [nops find_prop]. apply find_prop_shift.
  - case_bool_decide; [done|apply IH].
Qed.

(** The node without its first child with a matching name. *)
Fixpoint remove_child (s : cstr) (b : items) : items :=
  match b with
  | Nil => Nil
  | Nop rest => Nop (remove_child s rest)
  | Property nameoff val pad rest => Property nameoff val pad (remove_child s rest)
  | Node name pad body rest => if name_matches name s then rest else Node name pad body (remove_child s rest)
  end.

(** The node without the first property of a name. *)
Fixpoint remove_prop (fdt : list Z) (name : cstr) (b : items) : items :=
  match b with
  | Nop rest => Nop (remove_prop fdt name rest)
  | Property nameoff val pad rest =>
      if bool_decide (prop_name fdt nameoff = Some name) then rest else Property nameoff val pad (remove_prop fdt name rest)
  | _ => b
  end.

Lemma child_split s off b o n body :
  find_child s off b = Some (o, (n, body)) ->
  ∃ b1 pad b2, b = app_items b1 (Node n pad body b2) /\ o = off + size_of (toks b1) /\ remove_child s b = app_items b1 b2.
Proof.
  revert off. induction b as [|r IH|no v pd r IH|m pd b _ r IH]; intros off H; cbn [find_child remove_child] in *; [done| | |].
  - destruct (IH _ H) as (b1 & pad & b2 & -> & -> & ->). exists (Nop b1), pad, b2. cbn [app_items toks]. rewrite size_of_cons.
    split_and!; [done|cbn [enc]; rewrite be_bytes4_length; lia|done].
  - destruct (IH _ H) as (b1 & pad & b2 & -> & -> & ->). exists (Property no v pd b1), pad, b2. cbn [app_items toks]. rewrite size_of_cons.
    split_and!; [done|lia|done].
  - destruct (name_matches m s).
    + injection H as <- <- <-. exists Nil, pd, r. split_and!; [done|cbn [toks]; rewrite size_of_nil; lia|done].
    + destruct (IH _ H) as (b1 & pad & b2 & -> & -> & ->). exists (Node m pd b b1), pad, b2. cbn [app_items toks].
      rewrite size_of_cons, size_of_app, size_of_cons. split_and!; [done|cbn [enc]; rewrite !be_bytes4_length; lia|done].
Qed.

Lemma prop_split fdt name off b o val :
  find_prop fdt name off b = Some (o, val) ->
  ∃ b1 nameoff pad b2, b = app_items b1 (Property nameoff val pad b2) /\ o = off + size_of (toks b1)
    /\ prop_name fdt nameoff = Some name /\ remove_prop fdt name b = app_items b1 b2 /\ prop_value fdt name b1 = None.
Proof.
  revert off. induction b as [|r IH|no v pd r IH|]; intros off H; cbn [find_prop remove_prop] in *; [done| | |done].
  - destruct (IH _ H) as (b1 & nameoff & pad & b2 & -> & -> & Hn & -> & Hv). exists (Nop b1), nameoff, pad, b2. cbn [app_items toks]. rewrite size_of_cons.
    split_and!; [done|cbn [enc]; rewrite be_bytes4_length; lia|done|done|]. unfold prop_value. cbn [find_prop]. by rewrite find_prop_shift.
  - case_bool_decide as Hn.
    + injection H as <- <-. exists Nil, no, pd, r. split_and!; [done|cbn [toks]; rewrite size_of_nil; lia|done|done|done].
    + destruct (IH _ H) as (b1 & nameoff & pad & b2 & -> & -> & Hn' & -> & Hv). exists (Property no v pd b1), nameoff, pad, b2. cbn [app_items toks]. rewrite size_of_cons.
      split_and!; [done|lia|done|done|]. unfold prop_value. cbn [find_prop]. rewrite bool_decide_false by done. by rewrite find_prop_shift.
Qed.

(** ** NOP tags *)

Lemma encs_nops k : encs (replicate k TNop) = concat (replicate k (be_bytes4 FDT_NOP)).
Proof. unfold encs. f_equal. induction k as [|k IH]; [done|]. cbn [replicate map]. by rewrite IH. Qed.

Lemma encs_nops_length k : length (encs (replicate k TNop)) = (4 * k)%nat.
Proof. rewrite encs_nops. induction k as [|k IH]; [done|]. cbn [replicate concat]. rewrite length_app, IH, be_bytes4_length. lia. Qed.

(** Whole tokens are overwritten by NOP tags. *)
Lemma nop_region_blob fdt base pre t mid post len :
  blob fdt base (pre ++ (t :: mid) ++ post) -> header_apart base ->
  (len + 3) / 4 * 4 = size_of (t :: mid) ->
  ∃ fdt', _fdt_nop_region fdt (base + size_of pre) len = Some fdt'
    /\ blob fdt' base (pre ++ replicate (Z.to_nat ((len + 3) / 4)) TNop ++ post)
    /\ (∀ q, base + size_of (pre ++ (t :: mid) ++ post) <= q -> drop (Z.to_nat q) fdt' = drop (Z.to_nat q) fdt)
    /\ (∀ q, q + 4 <= base -> rd32 fdt' q = rd32 fdt q).
Proof.
  intros HB Hbase Hlen. unfold _fdt_nop_region. rewrite <-encs_nops. apply (poke_blob fdt base pre t mid); [done|done| |].
  - rewrite encs_nops_length. pose proof (size_pos (t :: mid)) as Hp. unfold size_of in *. lia.
  - apply Forall_replicate. exact I.
Qed.

(** ** Strings *)

(** The strings block is behind the structure block. *)
Definition strings_apart (fdt : list Z) (base : Z) (ts : list token) : Prop :=
  ∃ s, fdt_off_dt_strings fdt = Some s /\ base + size_of ts <= s.

Lemma prop_name_kept fdt fdt' base ts nameoff :
  header_apart base -> strings_apart fdt base ts -> 0 <= nameoff ->
  (∀ q, base + size_of ts <= q -> drop (Z.to_nat q) fdt' = drop (Z.to_nat q) fdt) ->
  (∀ q, q + 4 <= base -> rd32 fdt' q = rd32 fdt q) ->
  prop_name fdt' nameoff = prop_name fdt nameoff.
Proof.
  intros Hb (s & Hs & Hle) Hn Hd Hr. unfold header_apart in Hb. unfold prop_name, fdt_off_dt_strings in *. rewrite Hr, Hs by lia. cbn [mbind option_bind].
  unfold string_at. rewrite Hd by lia. done.
Qed.

Lemma prop_value_kept fdt fdt' base ts m b :
  header_apart base -> strings_apart fdt base ts -> Forall tok_ok (toks b) ->
  (∀ q, base + size_of ts <= q -> drop (Z.to_nat q) fdt' = drop (Z.to_nat q) fdt) ->
  (∀ q, q + 4 <= base -> rd32 fdt' q = rd32 fdt q) ->
  prop_value fdt' m b = prop_value fdt m b.
Proof.
  intros Hb Hs Hok Hd Hr. unfold prop_value. generalize 0.
  induction b as [|r IH|no v pd r IH|]; intros o; cbn [find_prop toks] in *; [done| | |done]; inversion Hok as [|? ? Ht Hok']; subst; [by apply IH|].
  destruct Ht as ([Hw _] & _ & _). rewrite (prop_name_kept fdt fdt' base ts no Hb Hs Hw Hd Hr). case_bool_decide; [done|by apply IH].
Qed.

(** ** The end of a node *)

(** The offset behind the end tag that closes depth [d]. *)
Fixpoint close (off d : Z) (rest : list token) : option Z :=
  match rest with
  | [] | TFin :: _ => None
  | t :: rest' =>
      let next := off + Z.of_nat (length (enc t)) in
      match t with
      | TBegin _ _ => close next (d + 1) rest'
      | TEnd => if d - 1 <? 0 then Some next else close next (d - 1) rest'
      | _ => close next d rest'
      end
  end.

Lemma close_toks off d b k : 0 <= d -> close off d (toks b ++ k) = close (off + size_of (toks b)) d k.
Proof.
  revert off d k. induction b as [|r IH|no v pd r IH|n pad b IHb r IHr]; intros off d k Hd; cbn [toks app close];
    rewrite ?size_of_nil, ?size_of_cons, ?Z.add_0_r; [done| | |].
  - rewrite IH by done. f_equal. lia.
  - rewrite IH by done. f_equal. lia.
  - rewrite <-app_assoc, IHb by lia. cbn [app close]. rewrite (proj2 (Z.ltb_ge _ 0)) by lia. rewrite IHr by lia.
    rewrite size_of_app, size_of_cons. f_equal; lia.
Qed.

(** One turn of the loop: the end is found, or a node inside that is one deeper. *)
Lemma scan_close off d rest e :
  0 <= d -> close off d rest = Some e ->
  scan off (Some d) rest = (e, Some (-1))
  \/ ∃ mid n pad rest' d', rest = mid ++ TBegin n pad :: rest' /\ (TFin ∉ mid) /\ 0 <= d'
     /\ scan off (Some d) rest = (off + size_of mid, Some d')
     /\ close (off + size_of (mid ++ [TBegin n pad])) d' rest' = Some e.
Proof.
  revert off d. induction rest as [|t rest IH]; intros off d Hd H; cbn [close] in H; [done|].
  assert (∀ d1, t <> TFin -> 0 <= d1 -> scan off (Some d) (t :: rest) = scan (off + Z.of_nat (length (enc t))) (Some d1) rest ->
    close (off + Z.of_nat (length (enc t))) d1 rest = Some e ->
    scan off (Some d) (t :: rest) = (e, Some (-1))
    \/ ∃ mid n pad rest' d', t :: rest = mid ++ TBegin n pad :: rest' /\ (TFin ∉ mid) /\ 0 <= d'
       /\ scan off (Some d) (t :: rest) = (off + size_of mid, Some d')
       /\ close (off + size_of (mid ++ [TBegin n pad])) d' rest' = Some e) as Hstep.
  { intros d1 Ht Hd1 Hs Hc. destruct (IH _ _ Hd1 Hc) as [Hl|(mid & n & pad & rest' & d' & -> & Hfin & Hd' & Hsc & Hcl)].
    - left. by rewrite Hs.
    - right. exists (t :: mid), n, pad, rest', d'. rewrite Hs, Hsc. cbn [app]. rewrite !size_of_cons, !Z.add_assoc, not_elem_of_cons. done. }
  destruct t as [n pad| | | |].
  - right. exists [], n, pad, rest, (d + 1). cbn [scan fmap option_fmap option_map app]. rewrite size_of_cons, !size_of_nil, !Z.add_0_r.
    split_and!; [done|apply not_elem_of_nil|lia|done|done].
  - destruct (d - 1 <? 0) eqn:E.
    + left. cbn [scan]. rewrite E. injection H as <-. apply Z.ltb_lt in E. do 2 f_equal. lia.
    + apply Z.ltb_ge in E. apply (Hstep (d - 1)); [done|lia| |done]. cbn [scan]. by rewrite (proj2 (Z.ltb_ge _ 0)) by lia.
  - by apply (Hstep d).
  - by apply (Hstep d).
  - done.
Qed.

Lemma close_pos off d rest e : 0 <= off -> close off d rest = Some e -> 0 <= e.
Proof.
  revert off d. induction rest as [|t rest IH]; intros off d Ho H; cbn [close] in H; [done|].
  destruct t; try (eapply IH; [|exact H]; lia); [|done].
  case_test_in H; [injection H as <-; lia|eapply IH; [|exact H]; lia].
Qed.

Lemma node_end_spec {fdt base ts} (HB : blob fdt base ts) fuel pre n pad rest d e :
  ts = pre ++ TBegin n pad :: rest -> TFin ∈ rest -> 0 <= d -> (1 + length rest < fuel)%nat ->
  close (size_of (pre ++ [TBegin n pad])) d rest = Some e -> node_end_loop fuel fdt (size_of pre) d = Some e.
Proof.
  revert pre n pad rest d. induction fuel as [|fuel IH]; intros pre n pad rest d E Hin Hd Hf Hc; [lia|].
  cbn [node_end_loop]. rewrite (proj2 (Z.leb_le 0 _)), (proj2 (Z.leb_le 0 d)) by (done || apply size_pos). cbn [andb].
  rewrite (next_node_spec HB _ _ _ _ _ E Hin). cbn [mbind option_bind].
  destruct (scan_close _ _ _ _ Hd Hc) as [->|(mid & n' & pad' & rest' & d' & Hr & Hfin & Hd' & -> & Hcl)]; cbn [default from_option].
  - destruct fuel as [|fuel]; [lia|]. cbn [node_end_loop id]. by rewrite andb_false_r.
  - cbn [id]. rewrite <-size_of_app in *. subst rest. apply (IH _ n' pad' rest').
    + by rewrite E, <-!app_assoc.
    + rewrite elem_of_app, elem_of_cons in Hin. by destruct Hin as [Hm|[?|?]].
    + done.
    + rewrite length_app in Hf. cbn [length] in Hf. lia.
    + by rewrite <-app_assoc.
Qed.

(** ** Whole nodes *)

Lemma node_end_tree {fdt base ts} (HB : blob fdt base ts) pre n pad b post :
  ts = pre ++ TBegin n pad :: toks b ++ TEnd :: post -> TFin ∈ post ->
  _fdt_node_end_offset fdt (size_of pre) = Some (size_of pre + size_of (TBegin n pad :: toks b ++ [TEnd])).
Proof.
  intros E Hin. apply (node_end_spec HB _ pre n pad (toks b ++ TEnd :: post)); [done|by apply fin_in|done| |].
  - pose proof (rest_bound HB _ _ E) as Hb. cbn [length] in Hb. lia.
  - rewrite close_toks by done. cbn [close]. change (0 - 1 <? 0) with true. cbv iota. f_equal.
    rewrite size_of_app, !size_of_cons, size_of_app, size_of_cons, size_of_nil. lia.
Qed.

Lemma nop_node_blob {fdt base ts} (HB : blob fdt base ts) pre n pad b post :
  ts = pre ++ TBegin n pad :: toks b ++ TEnd :: post -> TFin ∈ post -> header_apart base ->
  ∃ fdt' k, fdt_nop_node fdt (size_of pre) = Some (0, fdt') /\ blob fdt' base (pre ++ replicate k TNop ++ post)
    /\ (∀ q, base + size_of ts <= q -> drop (Z.to_nat q) fdt' = drop (Z.to_nat q) fdt)
    /\ (∀ q, q + 4 <= base -> rd32 fdt' q = rd32 fdt q).
Proof.
  intros E Hin Hb. set (node := TBegin n pad :: toks b ++ [TEnd]).
  assert (ts = pre ++ node ++ post) as E' by (rewrite E; subst node; cbn [app]; by rewrite <-app_assoc).
  pose proof (size_pos pre) as Hp. pose proof (size_pos node) as Hn.
  assert (size_of ts = size_of pre + size_of node + size_of post) as Hsz by (rewrite E', !size_of_app; lia).
  pose proof (size_pos post) as Hpo.
  unfold fdt_nop_node. rewrite (node_end_tree HB _ _ _ _ _ E Hin). fold node. cbn [mbind option_bind].
  rewrite (proj2 (Z.ltb_ge _ 0)) by lia. rewrite (offset_ptr_in HB) by lia. cbn [mbind option_bind].
  replace (size_of pre + size_of node - size_of pre) with (size_of node) by lia.
  destruct (nop_region_blob fdt base pre (TBegin n pad) (toks b ++ [TEnd]) post (size_of node)) as (fdt' & Hr & HB' & Hd & H32).
  - fold node. by rewrite <-E'.
  - done.
  - fold node. assert (Forall tok_ok node) as Hok.
    { pose proof (blob_toks _ _ _ HB) as Ht. rewrite E', !Forall_app in Ht. tauto. }
    pose proof (size_of_mod _ Hok). Z.div_mod_to_equations. lia.
  - fold node in Hd, HB'. rewrite Hr. cbn [mbind option_bind]. eexists _, _. split_and!; [done|exact HB'|by rewrite E'|done].
Qed.

(** Removing a node: when [fdt_subnode_offset] finds a child of a node and
    [fdt_nop_node] is called there, it succeeds, the result is a blob again, and
    the parent is the same node without that child: every look-up of a child or
    of a property in it answers as for the tree from which the child was taken
    out (so a second child that matches the name is found afterwards), and what is behind
    the structure block is unchanged. *)
Theorem fdt_nop_node_tree fdt base ts off n b s n' b' :
  blob fdt base ts -> header_apart base -> strings_apart fdt base ts -> node_at ts off n b ->
  Forall (λ c, c <> 0) s -> Z.of_nat (length s) + 1 < 2 ^ 31 -> child s b = Some (n', b') ->
  ∃ off' fdt' ts' b1,
    fdt_subnode_offset_namelen fdt off s = Some off' /\ fdt_nop_node fdt off' = Some (0, fdt')
    /\ blob fdt' base ts' /\ replaced ts off n b ts' b1
    /\ (∀ s', child s' b1 = child s' (remove_child s b))
    /\ (∀ m, prop_value fdt' m b1 = prop_value fdt m (remove_child s b))
    /\ (∀ q, base + size_of ts <= q -> drop (Z.to_nat q) fdt' = drop (Z.to_nat q) fdt).
Proof.
  intros HB Hb Hstr (pre & pad & post & E & Hin & ->) Hs Hl Hc.
  rewrite (subnode_offset_scan HB _ _ _ _ s E (fin_in _ _ Hin) Hs Hl), sub_scan_children.
  rewrite <-(find_child_shift s (size_of (pre ++ [TBegin n pad]))) in Hc.
  destruct (find_child s _ b) as [[o [n2 b2]]|] eqn:Hf; cbn [fmap option_fmap option_map snd] in Hc; [injection Hc as -> ->|done].
  destruct (child_split _ _ _ _ _ _ Hf) as (c1 & cpad & c2 & -> & -> & Hrm). rewrite Hrm. rewrite toks_app in E. cbn [toks] in E.
  set (pre' := pre ++ TBegin n pad :: toks c1).
  assert (ts = pre' ++ TBegin n' cpad :: toks b' ++ TEnd :: toks c2 ++ TEnd :: post) as E'.
  { rewrite E. subst pre'. by repeat (rewrite <-?app_assoc; cbn [app]). }
  assert (size_of (pre ++ [TBegin n pad]) + size_of (toks c1) = size_of pre') as ->.
  { subst pre'. rewrite !size_of_app, !size_of_cons, size_of_nil. lia. }
  destruct (nop_node_blob HB _ _ _ _ _ E' (fin_in _ _ Hin) Hb) as (fdt' & k & Hn & HB' & Hd & Hr).
  assert (Forall tok_ok (toks (app_items c1 c2))) as Hok.
  { pose proof (blob_toks _ _ _ HB) as Ht. rewrite E in Ht. rewrite toks_app.
    repeat (rewrite ?Forall_app, ?Forall_cons in Ht). rewrite Forall_app. tauto. }
  eexists _, fdt', _, (app_items c1 (nops k c2)). split_and!; [done|exact Hn|exact HB'| | | |exact Hd].
  - exists pre, pad, post. split_and!; [by rewrite E, toks_app|done|done|]. rewrite toks_app, toks_nops. subst pre'. by repeat (rewrite <-?app_assoc; cbn [app]).
  - intros s'. by rewrite !child_app, child_nops.
  - intros m. rewrite prop_value_nops. by apply (prop_value_kept fdt fdt' base ts).
Qed.

(** ** Properties *)

(** The first property of a name, and where it is. *)
Lemma property_found {fdt base ts} (HB : blob fdt base ts) off n b name val :
  node_at ts off n b -> named fdt b -> Forall (λ c, c <> 0) name -> prop_value fdt name b = Some val ->
  ∃ pre pad post b1 nameoff vpad b2,
    ts = (pre ++ TBegin n pad :: toks b1) ++ [TProp nameoff val vpad] ++ toks b2 ++ TEnd :: post /\ off = size_of pre /\ TFin ∈ post
    /\ b = app_items b1 (Property nameoff val vpad b2) /\ remove_prop fdt name b = app_items b1 b2 /\ prop_name fdt nameoff = Some name
    /\ prop_value fdt name b1 = None /\ Forall tok_ok (toks b)
    /\ fdt_get_property fdt off name = Some (inr (base + size_of (pre ++ TBegin n pad :: toks b1), Z.of_nat (length val))).
Proof.
  intros (pre & pad & post & E & Hin & ->) Hnm Hs Hv.
  pose proof (get_property_tree HB _ _ _ _ _ _ E Hin Hnm Hs) as Hg.
  rewrite <-(find_prop_shift fdt name (size_of (pre ++ [TBegin n pad]))) in Hv.
  destruct (find_prop fdt name _ b) as [[o v]|] eqn:Hf; cbn [fmap option_fmap option_map snd] in Hv; [injection Hv as ->|done].
  destruct (prop_split _ _ _ _ _ _ Hf) as (b1 & nameoff & vpad & b2 & Hb & -> & Hpn & Hrm & Hfirst).
  exists pre, pad, post, b1, nameoff, vpad, b2. split_and!; try done.
  - rewrite E, Hb, toks_app. cbn [toks]. by repeat (rewrite <-?app_assoc; cbn [app]).
  - pose proof (blob_toks _ _ _ HB) as Ht. rewrite E in Ht. repeat (rewrite ?Forall_app, ?Forall_cons in Ht). tauto.
  - rewrite Hg. do 4 f_equal. rewrite !size_of_app, !size_of_cons, size_of_nil. lia.
Qed.

(** Removing a property: [fdt_nop_property] of a property that the node has
    succeeds, the result is a blob again, and the node has the properties and
    the children it had before, except for the first property of that name; without
    such a property the result is [-FDT_ERR_NOTFOUND] and the blob is unchanged. *)
Theorem fdt_nop_property_tree fdt base ts off n b name :
  blob fdt base ts -> header_apart base -> strings_apart fdt base ts -> node_at ts off n b -> named fdt b ->
  Forall (λ c, c <> 0) name ->
  match prop_value fdt name b with
  | None => fdt_nop_property fdt off name = Some (- FDT_ERR_NOTFOUND, fdt)
  | Some _ => ∃ fdt' ts' b1, fdt_nop_property fdt off name = Some (0, fdt') /\ blob fdt' base ts' /\ replaced ts off n b ts' b1
      /\ (∀ s, child s b1 = child s b)
      /\ (∀ m, prop_value fdt' m b1 = prop_value fdt m (remove_prop fdt name b))
      /\ (∀ q, base + size_of ts <= q -> drop (Z.to_nat q) fdt' = drop (Z.to_nat q) fdt)
  end.
Proof.
  intros HB Hb Hstr Hat Hnm Hs. unfold fdt_nop_property. destruct (prop_value fdt name b) as [val|] eqn:Hv.
  - destruct (property_found HB _ _ _ _ _ Hat Hnm Hs Hv) as (pre & pad & post & b1 & no & vpad & b2 & E & -> & Hin & Hbb & -> & _ & _ & Hok & ->).
    cbn [mbind option_bind].
    assert (tok_ok (TProp no val vpad)) as (Hw & Hp & Hm) by (eapply (token_ok HB); exact E).
    destruct (nop_region_blob fdt base (pre ++ TBegin n pad :: toks b1) (TProp no val vpad) [] (toks b2 ++ TEnd :: post) (Z.of_nat (length val) + 12)) as (fdt' & Hr & HB' & Hd & H32).
    + rewrite <-E. exact HB.
    + done.
    + rewrite size_of_cons, size_of_nil. cbn [enc]. rewrite !length_app, !be_bytes4_length.
      apply nat_mod4 in Hm. rewrite Nat2Z.inj_add in Hm. Z.div_mod_to_equations. lia.
    + rewrite Hr. cbn [mbind option_bind]. cbn [app] in E, Hd. rewrite <-E in Hd.
      eexists fdt', _, (app_items b1 (nops _ b2)). split_and!; [done|exact HB'| | | |exact Hd].
      * exists pre, pad, post. rewrite toks_app, toks_nops. split_and!; [by rewrite E, Hbb, toks_app; repeat (rewrite <-?app_assoc; cbn [app toks])|done|done|]. by repeat (rewrite <-?app_assoc; cbn [app]).
      * intros s. rewrite Hbb, !child_app, child_nops. destruct (child s b1); [done|]. unfold child at 2. cbn [find_child]. by rewrite find_child_shift.
      * intros m. rewrite prop_value_nops. apply (prop_value_kept fdt fdt' base ts); [done|done| |done|done].
        rewrite Hbb in Hok. rewrite toks_app in Hok |- *. cbn [toks] in Hok. rewrite Forall_app, Forall_cons in Hok. rewrite Forall_app. tauto.
  - destruct Hat as (pre & pad & post & E & Hin & ->). rewrite (get_property_tree HB _ _ _ _ _ _ E Hin Hnm Hs).
    rewrite <-(find_prop_shift fdt name (size_of (pre ++ [TBegin n pad]))) in Hv.
    by destruct (find_prop fdt name _ b) as [[o v]|].
Qed.

(** Writing a part of what is there is writing all of it with that part changed. *)
Lemma poke_within fdt p a v c v' :
  holds fdt p (a ++ v ++ c) -> length v' = length v -> (0 < length a)%nat ->
  poke fdt (p + Z.of_nat (length a)) v' = poke fdt p (a ++ v' ++ c).
Proof.
  intros H Hl Ha. assert (a ++ v ++ c <> []) as Hne by (destruct a; [cbn in Ha; lia|done]).
  destruct (holds_length _ _ _ H Hne) as [Hp0 Hp]. destruct H as (_ & tail & Hd). rewrite !length_app in Hp.
  unfold poke. rewrite !decide_True by (rewrite ?length_app; lia). f_equal.
  assert (fdt = take (Z.to_nat p) fdt ++ (a ++ v ++ c) ++ tail) as E by (by rewrite <-Hd, take_drop).
  assert (length (take (Z.to_nat p) fdt) = Z.to_nat p) as Hlt by (rewrite length_take; lia).
  set (front := take (Z.to_nat p) fdt) in *. clearbody front. subst fdt.
  replace (Z.to_nat (p + Z.of_nat (length a))) with (length (front ++ a)) by (rewrite length_app; lia).
  assert (take (length (front ++ a)) (front ++ (a ++ v ++ c) ++ tail) = front ++ a) as ->.
  { rewrite <-!app_assoc, (app_assoc front a). apply take_app_length. }
  assert (drop (length (front ++ a) + length v') (front ++ (a ++ v ++ c) ++ tail) = c ++ tail) as ->.
  { rewrite Hl, <-!app_assoc, (app_assoc front a), <-drop_drop, drop_app_length. apply drop_app_length. }
  assert (drop (Z.to_nat p + length (a ++ v' ++ c)) (front ++ (a ++ v ++ c) ++ tail) = tail) as ->.
  { rewrite <-Hlt, <-drop_drop, drop_app_length, !length_app, Hl, <-!length_app. apply drop_app_length. }
  by rewrite <-!app_assoc.
Qed.

Lemma prop_value_set fdt name nameoff m b1 v v' pad b2 :
  prop_name fdt nameoff = Some name -> prop_value fdt name b1 = None ->
  prop_value fdt name (app_items b1 (Property nameoff v pad b2)) = Some v ->
  prop_value fdt m (app_items b1 (Property nameoff v' pad b2))
  = if bool_decide (m = name) then Some v' else prop_value fdt m (app_items b1 (Property nameoff v pad b2)).
Proof.
  intros Hn. induction b1 as [|r IH|no w pd r IH|]; intros H1 H2; cbn [app_items] in *; unfold prop_value in *; cbn [find_prop] in *;
    rewrite ?find_prop_shift in *; [|by apply IH| |done].
  - rewrite Hn. repeat case_bool_decide; try congruence; by rewrite ?find_prop_shift.
  - repeat case_bool_decide; try congruence; rewrite ?find_prop_shift in *; rewrite ?IH by done; rewrite ?bool_decide_true by done; try done.
Qed.

(** Writing a property in place: with a value of the length that the property
    has, [fdt_setprop_inplace] succeeds, the result is a blob again, the property
    of the node has the new value, and every other property and every child is
    as before; another length is refused with [-FDT_ERR_NOSPACE] and a property that is not
    there with [-FDT_ERR_NOTFOUND], both without a change. *)
Theorem fdt_setprop_inplace_tree fdt base ts off n b name val :
  blob fdt base ts -> header_apart base -> strings_apart fdt base ts -> node_at ts off n b -> named fdt b ->
  Forall (λ c, c <> 0) name ->
  match prop_value fdt name b with
  | None => fdt_setprop_inplace fdt off name val = Some (- FDT_ERR_NOTFOUND, fdt)
  | Some old =>
      if (length val =? length old)%nat then
        ∃ fdt' ts' b1, fdt_setprop_inplace fdt off name val = Some (0, fdt') /\ blob fdt' base ts' /\ replaced ts off n b ts' b1
          /\ (∀ s, child s b1 = child s b)
          /\ (∀ m, prop_value fdt' m b1 = if bool_decide (m = name) then Some val else prop_value fdt m b)
          /\ (∀ q, base + size_of ts <= q -> drop (Z.to_nat q) fdt' = drop (Z.to_nat q) fdt)
      else fdt_setprop_inplace fdt off name val = Some (- FDT_ERR_NOSPACE, fdt)
  end.
Proof.
  intros HB Hb Hstr Hat Hnm Hs. unfold fdt_setprop_inplace, fdt_getprop, fdt_getprop_namelen. destruct (prop_value fdt name b) as [old|] eqn:Hv.
  - destruct (property_found HB _ _ _ _ _ Hat Hnm Hs Hv) as (pre & pad & post & b1 & no & vpad & b2 & E & -> & Hin & Hbb & _ & Hpn & Hfirst & Hok & Hg).
    unfold fdt_get_property in Hg. rewrite Hg. clear Hg. cbn [mbind option_bind]. set (pre' := pre ++ TBegin n pad :: toks b1) in *.
    destruct (length val =? length old)%nat eqn:Hlen.
    2: { apply Nat.eqb_neq in Hlen. rewrite (proj2 (Z.eqb_neq _ _)) by lia. done. }
    apply Nat.eqb_eq in Hlen. rewrite (proj2 (Z.eqb_eq _ _)) by lia. cbn [negb].
    assert (tok_ok (TProp no old vpad)) as (Hw & Hp & Hm) by (eapply (token_ok HB); exact E).
    pose proof (token_holds HB pre' _ _ E) as Hh. cbn [enc] in Hh. rewrite <-Hlen, !app_assoc, <-app_assoc in Hh.
    replace (base + size_of pre' + 12) with (base + size_of pre' + Z.of_nat (length ((be_bytes4 FDT_PROP ++ be_bytes4 (Z.of_nat (length val))) ++ be_bytes4 no))) by done.
    rewrite (poke_within _ _ _ _ _ val Hh Hlen) by (cbn; lia).
    destruct (poke_blob fdt base pre' (TProp no old vpad) [] [TProp no val vpad] (toks b2 ++ TEnd :: post)) as (fdt' & Hr & HB' & Hd & H32).
    + rewrite <-E. exact HB.
    + done.
    + unfold encs. cbn [map concat enc]. rewrite !length_app, Hlen. done.
    + apply Forall_singleton. cbn [tok_ok]. by rewrite Hlen.
    + cbn [app] in E, Hd. rewrite <-E in Hd. unfold encs in Hr. cbn [map concat enc] in Hr. rewrite app_nil_r, !app_assoc, <-app_assoc in Hr.
      rewrite Hr. cbn [mbind option_bind].
      eexists fdt', _, (app_items b1 (Property no val vpad b2)). split_and!; [done|exact HB'| | | |exact Hd].
      * exists pre, pad, post. rewrite toks_app. subst pre'. split_and!; [by rewrite E, Hbb, toks_app; repeat (rewrite <-?app_assoc; cbn [app toks])|done|done|]. by repeat (rewrite <-?app_assoc; cbn [app toks]).
      * intros s. rewrite Hbb, !child_app. destruct (child s b1); [done|]. unfold child. cbn [find_child]. by rewrite !find_child_shift.
      * intros m. rewrite (prop_value_kept fdt fdt' base ts); [|done|done| |done|done].
        -- rewrite Hbb in Hv |- *. by apply prop_value_set.
        -- rewrite Hbb in Hok. rewrite toks_app in Hok |- *. cbn [toks] in *. rewrite Forall_app, Forall_cons in *. cbn [tok_ok] in *. rewrite Hlen. tauto.
  - destruct Hat as (pre & pad & post & E & Hin & ->). pose proof (get_property_tree HB _ _ _ _ _ _ E Hin Hnm Hs) as Hg. 
    unfold fdt_get_property in Hg. rewrite Hg. rewrite <-(find_prop_shift fdt name (size_of (pre ++ [TBegin n pad]))) in Hv.
    by destruct (find_prop fdt name _ b) as [[o v]|].
Qed.

(** ** The example *)

Lemma ex_apart : header_apart 56 /\ strings_apart ex_fdt 56 ex_toks.
Proof. split; [unfold header_apart; lia|]. exists 120. split; vm_compute; [reflexivity|discriminate]. Qed.

Lemma ex_named : named ex_fdt ex_body.
Proof. cbn [named ex_body]. split_and!; try lia; try done; eexists; vm_compute; reflexivity. Qed.

(** [cpu] is removed; the root has no such child afterwards. *)
Lemma fdt_nop_node_tree_witness :
  ∃ off' fdt' ts' b1,
    fdt_subnode_offset_namelen ex_fdt 0 (chars "cpu") = Some off' /\ fdt_nop_node ex_fdt off' = Some (0, fdt')
    /\ blob fdt' 56 ts' /\ replaced ex_toks 0 [] ex_body ts' b1
    /\ (∀ s', child s' b1 = child s' (remove_child (chars "cpu") ex_body))
    /\ (∀ m, prop_value fdt' m b1 = prop_value ex_fdt m (remove_child (chars "cpu") ex_body))
    /\ (∀ q, 56 + size_of ex_toks <= q -> drop (Z.to_nat q) fdt' = drop (Z.to_nat q) ex_fdt).
Proof.
  apply (fdt_nop_node_tree ex_fdt 56 ex_toks 0 [] ex_body (chars "cpu") (chars "cpu@0") (Property 2 [] [] Nil)).
  - exact ex_blob.
  - apply ex_apart.
  - apply ex_apart.
  - exact (root_at [] [0; 0; 0] ex_body).
  - repeat constructor; discriminate.
  - cbn. lia.
  - vm_compute. reflexivity.
Defined.

Lemma fdt_nop_property_tree_witness :
  ∃ fdt' ts' b1, fdt_nop_property ex_fdt 0 (chars "a") = Some (0, fdt') /\ blob fdt' 56 ts' /\ replaced ex_toks 0 [] ex_body ts' b1
    /\ (∀ s, child s b1 = child s ex_body)
    /\ (∀ m, prop_value fdt' m b1 = prop_value ex_fdt m (remove_prop ex_fdt (chars "a") ex_body))
    /\ (∀ q, 56 + size_of ex_toks <= q -> drop (Z.to_nat q) fdt' = drop (Z.to_nat q) ex_fdt).
Proof.
  apply (fdt_nop_property_tree ex_fdt 56 ex_toks 0 [] ex_body (chars "a")).
  - exact ex_blob.
  - apply ex_apart.
  - apply ex_apart.
  - exact (root_at [] [0; 0; 0] ex_body).
  - exact ex_named.
  - repeat constructor; discriminate.
Defined.

Lemma fdt_setprop_inplace_tree_witness :
  ∃ fdt' ts' b1, fdt_setprop_inplace ex_fdt 0 (chars "a") [7; 8; 9] = Some (0, fdt') /\ blob fdt' 56 ts' /\ replaced ex_toks 0 [] ex_body ts' b1
    /\ (∀ s, child s b1 = child s ex_body)
    /\ (∀ m, prop_value fdt' m b1 = if bool_decide (m = chars "a") then Some [7; 8; 9] else prop_value ex_fdt m ex_body)
    /\ (∀ q, 56 + size_of ex_toks <= q -> drop (Z.to_nat q) fdt' = drop (Z.to_nat q) ex_fdt).
Proof.
  apply (fdt_setprop_inplace_tree ex_fdt 56 ex_toks 0 [] ex_body (chars "a") [7; 8; 9]).
  - exact ex_blob.
  - apply ex_apart.
  - apply ex_apart.
  - exact (root_at [] [0; 0; 0] ex_body).
  - exact ex_named.
  - repeat constructor; discriminate.
Defined.
