(* ===== verification/FdtRw.v ===== *)
(** * Changing the size of a blob ([lib/libfdt/fdt_rw.c])

    Insertions and deletions move what is behind them.  The functions return
    their result and the new blob; a pointer into the blob is the position of
    the byte, as in [Fdt]. *)

From S2P Require Import Prelude Crc Bytes Ctype Cstring Hashtable Fdt FdtWip.

Definition FDT_ERR_EXISTS : Z := 2.

(** ** Memory *)

(** A word is written. *)
Definition wr32 (fdt : list Z) (p v : Z) : option (list Z) := poke fdt p (be_bytes4 (u32 v)).

(** [n] bytes from a position. *)
Definition slice (fdt : list Z) (p n : Z) : option (list Z) :=
  if decide (0 <= p /\ 0 <= n /\ p + n <= Z.of_nat (length fdt)) then Some (take (Z.to_nat n) (drop (Z.to_nat p) fdt)) else None.

(** [memmove(fdt + dst, fdt + src, n)] *)
Definition move (fdt : list Z) (dst src n : Z) : option (list Z) := l ← slice fdt src n; poke fdt dst l.

(** [cpu_to_fdt64] *)
Definition be_bytes8 (v : Z) : list Z := be_bytes4 (u32 (v ≫ 32)) ++ be_bytes4 (u32 v).

Definition fdt_boot_cpuid_phys (fdt : list Z) : option Z := rd32 fdt 28.

Definition fdt_set_magic (fdt : list Z) (v : Z) := wr32 fdt 0 v.
Definition fdt_set_totalsize (fdt : list Z) (v : Z) := wr32 fdt 4 v.
Definition fdt_set_off_dt_struct (fdt : list Z) (v : Z) := wr32 fdt 8 v.
Definition fdt_set_off_dt_strings (fdt : list Z) (v : Z) := wr32 fdt 12 v.
Definition fdt_set_off_mem_rsvmap (fdt : list Z) (v : Z) := wr32 fdt 16 v.
Definition fdt_set_version (fdt : list Z) (v : Z) := wr32 fdt 20 v.
Definition fdt_set_last_comp_version (fdt : list Z) (v : Z) := wr32 fdt 24 v.
Definition fdt_set_boot_cpuid_phys (fdt : list Z) (v : Z) := wr32 fdt 28 v.
Definition fdt_set_size_dt_strings (fdt : list Z) (v : Z) := wr32 fdt 32 v.
Definition fdt_set_size_dt_struct (fdt : list Z) (v : Z) := wr32 fdt 36 v.

(** ** The header *)

Definition _fdt_blocks_misordered (fdt : list Z) (mem_rsv_size struct_size : Z) : option bool :=
  rsv ← fdt_off_mem_rsvmap fdt;
  struct ← fdt_off_dt_struct fdt;
  strings ← fdt_off_dt_strings fdt;
  size ← fdt_size_dt_strings fdt;
  total ← fdt_totalsize fdt;
  Some ((rsv <? 40) || (struct <? u32 (rsv + mem_rsv_size)) || (strings <? u32 (struct + struct_size)) || (total <? u32 (strings + size))).

Definition _fdt_rw_check_header (fdt : list Z) : option (Z * list Z) :=
  with_header fdt (λ e, (e, fdt))
    (version ← fdt_version fdt;
     if version <? 17 then Some (- FDT_ERR_BADVERSION, fdt)
     else
       size ← fdt_size_dt_struct fdt;
       bad ← _fdt_blocks_misordered fdt 16 size;
       if bad : bool then Some (- FDT_ERR_BADLAYOUT, fdt)
       else if 17 <? version then fdt ← fdt_set_version fdt 17; Some (0, fdt)
       else Some (0, fdt)).

(** [FDT_RW_CHECK_HEADER]; in general, the rest runs when the first result is 0. *)
Definition on_success {A} (r : option (Z * list Z)) (fail : Z -> list Z -> A) (k : list Z -> option A) : option A :=
  '(err, fdt) ← r; if err =? 0 then k fdt else Some (fail err fdt).

(** ** Splicing *)

Definition _fdt_data_size (fdt : list Z) : option Z :=
  strings ← fdt_off_dt_strings fdt; size ← fdt_size_dt_strings fdt; Some (s32 (strings + size)).

(** The [oldlen] bytes at [p] become [newlen] bytes. *)
Definition _fdt_splice (fdt : list Z) (p oldlen newlen : Z) : option (Z * list Z) :=
  end_ ← _fdt_data_size fdt;
  if (p + oldlen <? p) || (end_ <? p + oldlen) then Some (- FDT_ERR_BADOFFSET, fdt)
  else
    total ← fdt_totalsize fdt;
    if total <? end_ - oldlen + newlen then Some (- FDT_ERR_NOSPACE, fdt)
    else fdt ← move fdt (p + newlen) (p + oldlen) (end_ - p - oldlen); Some (0, fdt).

Definition _fdt_splice_mem_rsv (fdt : list Z) (p oldn newn : Z) : option (Z * list Z) :=
  let delta := (newn - oldn) * 16 in
  on_success (_fdt_splice fdt p (oldn * 16) (newn * 16)) pair
    (λ fdt, struct ← fdt_off_dt_struct fdt;
            fdt ← fdt_set_off_dt_struct fdt (struct + delta);
            strings ← fdt_off_dt_strings fdt;
            fdt ← fdt_set_off_dt_strings fdt (strings + delta);
            Some (0, fdt)).

Definition _fdt_splice_struct (fdt : list Z) (p oldlen newlen : Z) : option (Z * list Z) :=
  let delta := newlen - oldlen in
  on_success (_fdt_splice fdt p oldlen newlen) pair
    (λ fdt, size ← fdt_size_dt_struct fdt;
            fdt ← fdt_set_size_dt_struct fdt (size + delta);
            strings ← fdt_off_dt_strings fdt;
            fdt ← fdt_set_off_dt_strings fdt (strings + delta);
            Some (0, fdt)).

Definition _fdt_splice_string (fdt : list Z) (newlen : Z) : option (Z * list Z) :=
  strings ← fdt_off_dt_strings fdt;
  size ← fdt_size_dt_strings fdt;
  on_success (_fdt_splice fdt (strings + size) 0 newlen) pair
    (λ fdt, size ← fdt_size_dt_strings fdt;
            fdt ← fdt_set_size_dt_strings fdt (size + newlen);
            Some (0, fdt)).

(** The offset of the string in the strings block, or an error. *)
Definition _fdt_find_add_string (fdt : list Z) (s : cstr) : option (Z * list Z) :=
  strtab ← fdt_off_dt_strings fdt;
  size ← fdt_size_dt_strings fdt;
  p ← _fdt_find_string fdt strtab (s32 size) s;
  match p with
  | Some p => Some (p - strtab, fdt)
  | None =>
      let new := strtab + size in
      on_success (_fdt_splice_string fdt (Z.of_nat (length s) + 1)) pair
        (λ fdt, fdt ← poke fdt new (s ++ [0]); Some (new - strtab, fdt))
  end.

(** ** The reservation map *)

Definition fdt_add_mem_rsv (fdt : list Z) (address size : Z) : option (Z * list Z) :=
  on_success (_fdt_rw_check_header fdt) pair
    (λ fdt, n ← fdt_num_mem_rsv fdt;
            re ← _fdt_mem_rsv fdt n;
            on_success (_fdt_splice_mem_rsv fdt re 0 1) pair
              (λ fdt, fdt ← poke fdt re (be_bytes8 address); fdt ← poke fdt (re + 8) (be_bytes8 size); Some (0, fdt))).

Definition fdt_del_mem_rsv (fdt : list Z) (n : Z) : option (Z * list Z) :=
  re ← _fdt_mem_rsv fdt n;
  on_success (_fdt_rw_check_header fdt) pair
    (λ fdt, num ← fdt_num_mem_rsv fdt;
            if num <=? n then Some (- FDT_ERR_NOTFOUND, fdt) else _fdt_splice_mem_rsv fdt re 1 0).

(** ** Properties *)

(** The result, the blob and [*prop]. *)
Definition _fdt_resize_property (fdt : list Z) (nodeoffset : Z) (name : cstr) (len : Z) : option (Z * list Z * Z) :=
  r ← fdt_get_property fdt nodeoffset name;
  match r with
  | inl oldlen => Some (oldlen, fdt, 0)
  | inr (prop, oldlen) =>
      on_success (_fdt_splice_struct fdt (prop + 12) (FDT_TAGALIGN oldlen) (FDT_TAGALIGN len)) (λ err fdt, (err, fdt, prop))
        (λ fdt, fdt ← wr32 fdt (prop + 4) len; Some (0, fdt, prop))
  end.

Definition _fdt_add_property (fdt : list Z) (nodeoffset : Z) (name : cstr) (len : Z) : option (Z * list Z * Z) :=
  nextoffset ← _fdt_check_node_offset fdt nodeoffset;
  if nextoffset <? 0 then Some (nextoffset, fdt, 0)
  else
    '(namestroff, fdt) ← _fdt_find_add_string fdt name;
    if namestroff <? 0 then Some (namestroff, fdt, 0)
    else
      prop ← _fdt_offset_ptr fdt nextoffset;
      let proplen := s32 (12 + FDT_TAGALIGN len) in
      on_success (_fdt_splice_struct fdt prop 0 proplen) (λ err fdt, (err, fdt, prop))
        (λ fdt, fdt ← wr32 fdt prop FDT_PROP;
                fdt ← wr32 fdt (prop + 8) namestroff;
                fdt ← wr32 fdt (prop + 4) len;
                Some (0, fdt, prop)).

Definition fdt_set_name (fdt : list Z) (nodeoffset : Z) (name : cstr) : option (Z * list Z) :=
  on_success (_fdt_rw_check_header fdt) pair
    (λ fdt, r ← fdt_get_name fdt nodeoffset;
            match r with
            | inl oldlen => Some (oldlen, fdt)
            | inr old =>
                nh ← _fdt_offset_ptr fdt nodeoffset;
                let namep := nh + 4 in
                on_success (_fdt_splice_struct fdt namep (FDT_TAGALIGN (Z.of_nat (length old) + 1))
                              (FDT_TAGALIGN (Z.of_nat (length name) + 1))) pair
                  (λ fdt, fdt ← poke fdt namep (name ++ [0]); Some (0, fdt))
            end).

Definition fdt_setprop (fdt : list Z) (nodeoffset : Z) (name : cstr) (val : list Z) : option (Z * list Z) :=
  let len := Z.of_nat (length val) in
  on_success (_fdt_rw_check_header fdt) pair
    (λ fdt, '(err, fdt, prop) ← _fdt_resize_property fdt nodeoffset name len;
            '(err, fdt, prop) ← (if err =? - FDT_ERR_NOTFOUND then _fdt_add_property fdt nodeoffset name len
                                 else Some (err, fdt, prop));
            if negb (err =? 0) then Some (err, fdt)
            else fdt ← poke fdt (prop + 12) val; Some (0, fdt)).

Definition fdt_appendprop (fdt : list Z) (nodeoffset : Z) (name : cstr) (val : list Z) : option (Z * list Z) :=
  let len := Z.of_nat (length val) in
  on_success (_fdt_rw_check_header fdt) pair
    (λ fdt, r ← fdt_get_property fdt nodeoffset name;
            match r with
            | inr (prop, oldlen) =>
                let newlen := s32 (len + oldlen) in
                on_success (_fdt_splice_struct fdt (prop + 12) (FDT_TAGALIGN oldlen) (FDT_TAGALIGN newlen)) pair
                  (λ fdt, fdt ← wr32 fdt (prop + 4) newlen;
                          fdt ← poke fdt (prop + 12 + oldlen) val;
                          Some (0, fdt))
            | inl _ =>
                '(err, fdt, prop) ← _fdt_add_property fdt nodeoffset name len;
                if negb (err =? 0) then Some (err, fdt)
                else fdt ← poke fdt (prop + 12) val; Some (0, fdt)
            end).

Definition fdt_delprop (fdt : list Z) (nodeoffset : Z) (name : cstr) : option (Z * list Z) :=
  on_success (_fdt_rw_check_header fdt) pair
    (λ fdt, r ← fdt_get_property fdt nodeoffset name;
            match r with
            | inl len => Some (len, fdt)
            | inr (prop, len) => _fdt_splice_struct fdt prop (s32 (12 + FDT_TAGALIGN len)) 0
            end).

(** ** Nodes *)

(** The first tag that is neither a property nor a NOP. *)
Fixpoint after_props (fuel : nat) (fdt : list Z) (nextoffset : Z) : option Z :=
  match fuel with
  | O => None
  | S fuel =>
      '(tag, next) ← fdt_next_tag fdt nextoffset;
      if (tag =? FDT_PROP) || (tag =? FDT_NOP) then after_props fuel fdt next else Some nextoffset
  end.

Definition fdt_add_subnode_namelen (fdt : list Z) (parentoffset : Z) (name : cstr) : option (Z * list Z) :=
  let namelen := Z.of_nat (length name) in
  on_success (_fdt_rw_check_header fdt) pair
    (λ fdt, offset ← fdt_subnode_offset_namelen fdt parentoffset name;
            if 0 <=? offset then Some (- FDT_ERR_EXISTS, fdt)
            else if negb (offset =? - FDT_ERR_NOTFOUND) then Some (offset, fdt)
            else
              '(_, nextoffset) ← fdt_next_tag fdt parentoffset;
              offset ← after_props (S (length fdt)) fdt nextoffset;
              nh ← _fdt_offset_ptr fdt offset;
              let nodelen := s32 (4 + FDT_TAGALIGN (namelen + 1) + 4) in
              on_success (_fdt_splice_struct fdt nh 0 nodelen) pair
                (λ fdt, fdt ← wr32 fdt nh FDT_BEGIN_NODE;
                        fdt ← poke fdt (nh + 4) (replicate (Z.to_nat (FDT_TAGALIGN (namelen + 1))) 0);
                        fdt ← poke fdt (nh + 4) name;
                        fdt ← wr32 fdt (nh + nodelen - 4) FDT_END_NODE;
                        Some (offset, fdt))).

Definition fdt_add_subnode (fdt : list Z) (parentoffset : Z) (name : cstr) : option (Z * list Z) :=
  fdt_add_subnode_namelen fdt parentoffset name.

Definition fdt_del_node (fdt : list Z) (nodeoffset : Z) : option (Z * list Z) :=
  on_success (_fdt_rw_check_header fdt) pair
    (λ fdt, endoffset ← _fdt_node_end_offset fdt nodeoffset;
            if endoffset <? 0 then Some (endoffset, fdt)
            else p ← _fdt_offset_ptr fdt nodeoffset; _fdt_splice_struct fdt p (endoffset - nodeoffset) 0).

(** ** Moving the blocks *)

(** [old] and [new] are positions in one memory, since the areas may overlap. *)
Definition _fdt_packblocks (mem : list Z) (old new mem_rsv_size struct_size : Z) : option (list Z) :=
  let mem_rsv_off := 40 in
  let struct_off := s32 (mem_rsv_off + mem_rsv_size) in
  let strings_off := s32 (struct_off + struct_size) in
  off ← rd32 mem (old + 16);
  mem ← move mem (new + mem_rsv_off) (old + off) mem_rsv_size;
  mem ← wr32 mem (new + 16) mem_rsv_off;
  off ← rd32 mem (old + 8);
  mem ← move mem (new + struct_off) (old + off) struct_size;
  mem ← wr32 mem (new + 8) struct_off;
  mem ← wr32 mem (new + 36) struct_size;
  off ← rd32 mem (old + 12);
  size ← rd32 mem (old + 32);
  mem ← move mem (new + strings_off) (old + off) size;
  mem ← wr32 mem (new + 12) strings_off;
  size ← rd32 mem (old + 32);
  wr32 mem (new + 32) size.

(** The size of the structure block of an old version. *)
Fixpoint struct_size_loop (fuel : nat) (fdt : list Z) (struct_size : Z) : option Z :=
  match fuel with
  | O => None
  | S fuel =>
      '(tag, next) ← fdt_next_tag fdt struct_size;
      if tag =? FDT_END then Some next else struct_size_loop fuel fdt next
  end.

(** [buf] of [mem] at the position becomes [l]. *)
Definition at_buf (mem : list Z) (buf : Z) (f : list Z -> option (Z * list Z)) : option (Z * list Z) :=
  if decide (0 <= buf <= Z.of_nat (length mem)) then
    '(err, l) ← f (drop (Z.to_nat buf) mem); Some (err, take (Z.to_nat buf) mem ++ l)
  else None.

(** The blob is at [fdt] and the buffer at [buf] of one memory.  The second
    half of the function, when the blocks have to be put in order: *)
Definition reorder_into (mem : list Z) (fdt buf bufsize mem_rsv_size struct_size : Z) : option (Z * list Z) :=
  strings ← rd32 mem (fdt + 32);
  total ← rd32 mem (fdt + 4);
  let fdtend := fdt + total in
  let newsize := s32 (40 + mem_rsv_size + struct_size + strings) in
  if bufsize <? newsize then Some (- FDT_ERR_NOSPACE, mem)
  else
    let overlaps := (fdt <? buf + newsize) && (buf <? fdtend) in
    let tmp := if overlaps then fdtend else buf in
    if overlaps && (buf + bufsize <? tmp + newsize) then Some (- FDT_ERR_NOSPACE, mem)
    else
      mem ← _fdt_packblocks mem fdt tmp mem_rsv_size struct_size;
      mem ← move mem buf tmp newsize;
      mem ← wr32 mem buf FDT_MAGIC;
      mem ← wr32 mem (buf + 4) bufsize;
      mem ← wr32 mem (buf + 20) 17;
      mem ← wr32 mem (buf + 24) 16;
      cpu ← rd32 mem (fdt + 28);
      mem ← wr32 mem (buf + 28) cpu;
      Some (0, mem).

Definition fdt_open_into (mem : list Z) (fdt buf bufsize : Z) : option (Z * list Z) :=
  let blob := drop (Z.to_nat fdt) mem in
  with_header blob (λ e, (e, mem))
    (num ← fdt_num_mem_rsv blob;
     let mem_rsv_size := s32 ((num + 1) * 16) in
     version ← fdt_version blob;
     struct_size ← (if 17 <=? version then size ← fdt_size_dt_struct blob; Some (s32 size)
                    else struct_size_loop (S (length blob)) blob 0);
     if negb (17 <=? version) && (struct_size <? 0) then Some (struct_size, mem)
     else
       bad ← _fdt_blocks_misordered blob mem_rsv_size struct_size;
       if negb bad then
         at_buf mem buf
           (λ b, on_success (fdt_move blob b bufsize) pair
                   (λ b, b ← fdt_set_version b 17;
                         b ← fdt_set_size_dt_struct b struct_size;
                         b ← fdt_set_totalsize b bufsize;
                         Some (0, b)))
       else reorder_into mem fdt buf bufsize mem_rsv_size struct_size).

Definition fdt_pack (fdt : list Z) : option (Z * list Z) :=
  on_success (_fdt_rw_check_header fdt) pair
    (λ fdt, num ← fdt_num_mem_rsv fdt;
            let mem_rsv_size := s32 ((num + 1) * 16) in
            size ← fdt_size_dt_struct fdt;
            fdt ← _fdt_packblocks fdt 0 0 mem_rsv_size (s32 size);
            total ← _fdt_data_size fdt;
            fdt ← fdt_set_totalsize fdt total;
            Some (0, fdt)).
