(* ===== verification/FdtSw.v ===== *)
(** * Building a blob ([lib/libfdt/fdt_sw.c], [fdt_empty_tree.c], [fdt_addresses.c])

    The structure grows upwards behind the reservation map, the strings grow
    downwards from the end of the buffer; [fdt_finish] joins them.  The
    functions return their result and the new buffer. *)

From S2P Require Import Prelude Crc Bytes Ctype Cstring Hashtable Fdt FdtWip FdtRw.

Definition FDT_ERR_BADNCELLS : Z := 14.
Definition FDT_MAX_NCELLS : Z := 4.

Definition _fdt_sw_check_header (fdt : list Z) : option Z :=
  magic ← fdt_magic fdt; Some (if magic =? FDT_SW_MAGIC then 0 else - FDT_ERR_BADMAGIC).

(** [FDT_SW_CHECK_HEADER] *)
Definition with_sw_header (fdt : list Z) (k : option (Z * list Z)) : option (Z * list Z) :=
  err ← _fdt_sw_check_header fdt; if err =? 0 then k else Some (err, fdt).

(** The pointer, or NULL.  [spaceleft] is an [int] that is compared with a
    [size_t]. *)
Definition _fdt_grab_space (fdt : list Z) (len : Z) : option (option Z * list Z) :=
  size ← fdt_size_dt_struct fdt;
  total ← fdt_totalsize fdt;
  struct ← fdt_off_dt_struct fdt;
  strings ← fdt_size_dt_strings fdt;
  let offset := s32 size in
  let spaceleft := s32 (total - struct - strings) in
  if (u64 (offset + len) <? u64 offset) || (u64 spaceleft <? u64 (offset + len)) then Some (None, fdt)
  else
    fdt ← fdt_set_size_dt_struct fdt (offset + len);
    p ← _fdt_offset_ptr fdt offset;
    Some (Some p, fdt).

(** A NULL pointer ends the function with [-FDT_ERR_NOSPACE]. *)
Definition grab (fdt : list Z) (len : Z) (k : list Z -> Z -> option (Z * list Z)) : option (Z * list Z) :=
  '(p, fdt) ← _fdt_grab_space fdt len;
  match p with None => Some (- FDT_ERR_NOSPACE, fdt) | Some p => k fdt p end.

Definition fdt_create (buf : list Z) (bufsize : Z) : option (Z * list Z) :=
  if u64 bufsize <? 40 then Some (- FDT_ERR_NOSPACE, buf)
  else if decide (0 <= bufsize) then
    fdt ← poke buf 0 (replicate (Z.to_nat bufsize) 0);
    fdt ← fdt_set_magic fdt FDT_SW_MAGIC;
    fdt ← fdt_set_version fdt FDT_LAST_SUPPORTED_VERSION;
    fdt ← fdt_set_last_comp_version fdt FDT_FIRST_SUPPORTED_VERSION;
    fdt ← fdt_set_totalsize fdt bufsize;
    fdt ← fdt_set_off_mem_rsvmap fdt 48;
    rsv ← fdt_off_mem_rsvmap fdt;
    fdt ← fdt_set_off_dt_struct fdt rsv;
    fdt ← fdt_set_off_dt_strings fdt bufsize;
    Some (0, fdt)
  else None.

(** Both areas are in one memory, since they may overlap. *)
Definition fdt_resize (mem : list Z) (fdt buf bufsize : Z) : option (Z * list Z) :=
  err ← _fdt_sw_check_header (drop (Z.to_nat fdt) mem);
  if negb (err =? 0) then Some (err, mem)
  else
    headsize ← rd32 mem (fdt + 8);
    tailsize ← rd32 mem (fdt + 32);
    if u64 bufsize <? headsize + tailsize then Some (- FDT_ERR_NOSPACE, mem)
    else
      total ← rd32 mem (fdt + 4);
      let oldtail := fdt + total - tailsize in
      let newtail := buf + bufsize - tailsize in
      mem ← (if buf <=? fdt then mem ← move mem buf fdt headsize; move mem newtail oldtail tailsize
             else mem ← move mem newtail oldtail tailsize; move mem buf fdt headsize);
      mem ← wr32 mem (buf + 12) bufsize;
      mem ← wr32 mem (buf + 4) bufsize;
      Some (0, mem).

Definition fdt_add_reservemap_entry (fdt : list Z) (addr size : Z) : option (Z * list Z) :=
  with_sw_header fdt
    (struct_size ← fdt_size_dt_struct fdt;
     if negb (struct_size =? 0) then Some (- FDT_ERR_BADSTATE, fdt)
     else
       struct ← fdt_off_dt_struct fdt;
       total ← fdt_totalsize fdt;
       let offset := s32 struct in
       if total <? u64 (offset + 16) then Some (- FDT_ERR_NOSPACE, fdt)
       else
         fdt ← poke fdt offset (be_bytes8 addr);
         fdt ← poke fdt (offset + 8) (be_bytes8 size);
         fdt ← fdt_set_off_dt_struct fdt (offset + 16);
         Some (0, fdt)).

Definition fdt_finish_reservemap (fdt : list Z) : option (Z * list Z) := fdt_add_reservemap_entry fdt 0 0.

Definition fdt_begin_node (fdt : list Z) (name : cstr) : option (Z * list Z) :=
  let namelen := Z.of_nat (length name) + 1 in
  with_sw_header fdt
    (grab fdt (4 + FDT_TAGALIGN namelen)
       (λ fdt nh, fdt ← wr32 fdt nh FDT_BEGIN_NODE; fdt ← poke fdt (nh + 4) (name ++ [0]); Some (0, fdt))).

Definition fdt_end_node (fdt : list Z) : option (Z * list Z) :=
  with_sw_header fdt (grab fdt 4 (λ fdt en, fdt ← wr32 fdt en FDT_END_NODE; Some (0, fdt))).

(** The offset of the string from the end of the buffer, or 0. *)
Definition sw_find_add_string (fdt : list Z) (s : cstr) : option (Z * list Z) :=
  strtab ← fdt_totalsize fdt;
  size ← fdt_size_dt_strings fdt;
  let strtabsize := s32 size in
  let len := Z.of_nat (length s) + 1 in
  p ← _fdt_find_string fdt (strtab - strtabsize) strtabsize s;
  match p with
  | Some p => Some (p - strtab, fdt)
  | None =>
      let offset := - strtabsize - len in
      struct ← fdt_off_dt_struct fdt;
      struct_size ← fdt_size_dt_struct fdt;
      let struct_top := s32 (struct + struct_size) in
      if u32 (strtab + offset) <? u32 struct_top then Some (0, fdt)
      else
        fdt ← poke fdt (strtab + offset) (s ++ [0]);
        fdt ← fdt_set_size_dt_strings fdt (strtabsize + len);
        Some (offset, fdt)
  end.

Definition fdt_property (fdt : list Z) (name : cstr) (val : list Z) : option (Z * list Z) :=
  let len := Z.of_nat (length val) in
  with_sw_header fdt
    ('(nameoff, fdt) ← sw_find_add_string fdt name;
     if nameoff =? 0 then Some (- FDT_ERR_NOSPACE, fdt)
     else
       grab fdt (12 + FDT_TAGALIGN len)
         (λ fdt prop, fdt ← wr32 fdt prop FDT_PROP;
                      fdt ← wr32 fdt (prop + 8) nameoff;
                      fdt ← wr32 fdt (prop + 4) len;
                      fdt ← poke fdt (prop + 12) val;
                      Some (0, fdt))).

(** The loop that corrects the offsets of the names: the last [nextoffset] and
    the new blob. *)
Fixpoint fix_names (fuel : nat) (fdt : list Z) (offset : Z) : option (Z * list Z) :=
  match fuel with
  | O => None
  | S fuel =>
      '(tag, nextoffset) ← fdt_next_tag fdt offset;
      if tag =? FDT_END then Some (nextoffset, fdt)
      else
        fdt ← (if tag =? FDT_PROP then
                 prop ← _fdt_offset_ptr fdt offset;
                 nameoff ← rd32 fdt (prop + 8);
                 size ← fdt_size_dt_strings fdt;
                 wr32 fdt (prop + 8) (s32 (s32 nameoff + size))
               else Some fdt);
        fix_names fuel fdt nextoffset
  end.

Definition fdt_finish (fdt : list Z) : option (Z * list Z) :=
  with_sw_header fdt
    (grab fdt 4
       (λ fdt end_,
          fdt ← wr32 fdt end_ FDT_END;
          total ← fdt_totalsize fdt;
          strings ← fdt_size_dt_strings fdt;
          struct ← fdt_off_dt_struct fdt;
          size ← fdt_size_dt_struct fdt;
          let oldstroffset := s32 (total - strings) in
          let newstroffset := s32 (struct + size) in
          fdt ← move fdt newstroffset oldstroffset strings;
          fdt ← fdt_set_off_dt_strings fdt newstroffset;
          '(nextoffset, fdt) ← fix_names (S (length fdt)) fdt 0;
          if nextoffset <? 0 then Some (nextoffset, fdt)
          else
            strings ← fdt_size_dt_strings fdt;
            fdt ← fdt_set_totalsize fdt (newstroffset + strings);
            fdt ← fdt_set_magic fdt FDT_MAGIC;
            Some (0, fdt))).

Definition fdt_create_empty_tree (buf : list Z) (bufsize : Z) : option (Z * list Z) :=
  on_success (fdt_create buf bufsize) pair (λ buf,
  on_success (fdt_finish_reservemap buf) pair (λ buf,
  on_success (fdt_begin_node buf []) pair (λ buf,
  on_success (fdt_end_node buf) pair (λ buf,
  on_success (fdt_finish buf) pair (λ buf,
  fdt_open_into buf 0 0 bufsize))))).

(** ** The sizes of addresses *)

Definition cells (fdt : list Z) (nodeoffset : Z) (name : cstr) (least : Z) : option Z :=
  r ← fdt_getprop fdt nodeoffset name;
  match r with
  | inl _ => Some 2
  | inr (p, len) =>
      if negb (len =? 4) then Some (- FDT_ERR_BADNCELLS)
      else
        v ← rd32 fdt p;
        let val := s32 v in
        Some (if (val <? least) || (FDT_MAX_NCELLS <? val) then - FDT_ERR_BADNCELLS else val)
  end.

Definition fdt_address_cells (fdt : list Z) (nodeoffset : Z) : option Z := cells fdt nodeoffset (chars "#address-cells") 1.
Definition fdt_size_cells (fdt : list Z) (nodeoffset : Z) : option Z := cells fdt nodeoffset (chars "#size-cells") 0.

(** A whole tree in a buffer, as a test. *)
Example fdt_create_empty_tree_100 :
  match fdt_create_empty_tree (replicate 100 7) 100 with
  | Some (0, fdt) => (fdt_totalsize fdt, fdt_get_name fdt 0, fdt_first_subnode fdt 0, fdt_num_mem_rsv fdt)
  | _ => (None, None, None, None)
  end = (Some 100, Some (inr []), Some (- FDT_ERR_NOTFOUND), Some 0).
Proof. vm_compute. reflexivity. Qed.
