(* ===== verification/FdtImage.v ===== *)
(** * Blobs with room to grow

    A blob as [fdt_rw.c] and [fdt_sw.c] see it: header, reservation map,
    structure, strings and free space in one buffer.  What the splicing
    functions of [FdtRw] do to it. *)

From S2P Require Import Prelude Crc Bytes Ctype Cstring Hashtable Fdt FdtTree FdtWip FdtRw.

(** ** Writing in the middle of a list *)

Lemma poke_mid pre old l post p :
  p = Z.of_nat (length pre) -> length l = length old -> poke (pre ++ old ++ post) p l = Some (pre ++ l ++ post).
Proof.
  intros -> Hl. unfold poke. rewrite decide_True by (rewrite !length_app; lia). f_equal.
  rewrite Nat2Z.id, take_app_length, <-drop_drop, drop_app_length, Hl, drop_app_length. done.
Qed.

Lemma slice_mid pre l post p n :
  p = Z.of_nat (length pre) -> n = Z.of_nat (length l) -> slice (pre ++ l ++ post) p n = Some l.
Proof.
  intros -> ->. unfold slice. rewrite decide_True by (rewrite !length_app; lia). f_equal.
  rewrite !Nat2Z.id, drop_app_length. apply take_app_length.
Qed.

(** A list of known length in two parts. *)
Lemma split_length {A} (l : list A) n : (n <= length l)%nat -> ∃ l1 l2, l = l1 ++ l2 /\ length l1 = n.
Proof. intros H. exists (take n l), (drop n l). by rewrite take_drop, length_take, Nat.min_l. Qed.

(** ** Header words *)

Definition hdr (ws : list Z) : list Z := concat (map be_bytes4 ws).

Lemma hdr_app ws1 ws2 : hdr (ws1 ++ ws2) = hdr ws1 ++ hdr ws2.
Proof. unfold hdr. by rewrite map_app, concat_app. Qed.

Lemma hdr_length ws : length (hdr ws) = (4 * length ws)%nat.
Proof. induction ws as [|w ws IH]; [done|]. unfold hdr in *. cbn [map concat length]. rewrite length_app, IH, be_bytes4_length. lia. Qed.

Lemma rd32_hdr ws rest i w p :
  Forall word ws -> ws !! i = Some w -> p = 4 * Z.of_nat i -> rd32 (hdr ws ++ rest) p = Some w.
Proof.
  intros Hws Hi ->. apply rd32_holds; [|by eapply Forall_lookup_1]. split; [lia|].
  rewrite <-(take_drop_middle ws i w Hi), hdr_app, <-app_assoc.
  apply lookup_lt_Some in Hi. assert (length (hdr (take i ws)) = (4 * i)%nat) as Hl by (rewrite hdr_length, length_take; lia).
  replace (Z.to_nat (4 * Z.of_nat i)) with (length (hdr (take i ws))) by lia.
  rewrite drop_app_length. unfold hdr at 1. cbn [map concat]. rewrite <-app_assoc. by eexists.
Qed.

Lemma wr32_hdr ws rest i v p :
  (i < length ws)%nat -> p = 4 * Z.of_nat i -> wr32 (hdr ws ++ rest) p v = Some (hdr (<[i:=u32 v]> ws) ++ rest).
Proof.
  intros Hi ->. unfold wr32. destruct (lookup_lt_is_Some_2 ws i Hi) as [w Hw].
  rewrite <-(take_drop_middle ws i w Hw) at 1. rewrite insert_take_drop by done. rewrite !hdr_app.
  change (w :: drop (S i) ws) with ([w] ++ drop (S i) ws). change (u32 v :: drop (S i) ws) with ([u32 v] ++ drop (S i) ws).
  rewrite !hdr_app. unfold hdr at 2 6. cbn [map concat]. rewrite !app_nil_r, <-!app_assoc. apply poke_mid; [|done].
  rewrite hdr_length, length_take. lia.
Qed.

(** ** Images *)

(** What the structure block does not change: the total size, the offset of the
    reservation map, the last compatible version, the boot processor, the bytes between header
    and structure, those between structure and strings, and the strings. *)
Record frame := Frame { total : Z; rsvoff : Z; last : Z; cpu : Z; rsv : list Z; gap : list Z; strs : list Z }.

Definition base (fr : frame) : Z := 40 + Z.of_nat (length (rsv fr)).

Definition words_of (fr : frame) (n : Z) : list Z :=
  [FDT_MAGIC; total fr; base fr; base fr + n + Z.of_nat (length (gap fr)); rsvoff fr; 17; last fr; cpu fr;
   Z.of_nat (length (strs fr)); n].

(** The buffer with the bytes [S] of the structure block and the free space. *)
Definition image (fr : frame) (S tail : list Z) : list Z :=
  hdr (words_of fr (Z.of_nat (length S))) ++ rsv fr ++ S ++ gap fr ++ strs fr ++ tail.

(** The end of the used part. *)
Definition data_end (fr : frame) (S : list Z) : Z :=
  base fr + Z.of_nat (length S) + Z.of_nat (length (gap fr)) + Z.of_nat (length (strs fr)).

Record image_ok (fr : frame) (S tail : list Z) : Prop := {
  ok_rsvoff : 40 <= rsvoff fr /\ rsvoff fr + 16 <= base fr;
  ok_last : 0 <= last fr <= 17;
  ok_cpu : word (cpu fr);
  ok_total : data_end fr S <= total fr <= data_end fr S + Z.of_nat (length tail);
  ok_small : data_end fr S + Z.of_nat (length tail) < 2 ^ 31
}.

Section image.
Context {fr : frame} {S tail : list Z} (Hok : image_ok fr S tail).

Lemma words_words : Forall word (words_of fr (Z.of_nat (length S))).
Proof.
  destruct Hok as [[? ?] ? Hcpu ? ?]. unfold words_of, data_end, base, word, FDT_MAGIC in *.
  repeat (apply Forall_cons; split; [lia|]). by apply Forall_nil.
Qed.

Lemma field i w p :
  words_of fr (Z.of_nat (length S)) !! i = Some w -> p = 4 * Z.of_nat i -> rd32 (image fr S tail) p = Some w.
Proof. apply rd32_hdr, words_words. Qed.

Lemma image_length : Z.of_nat (length (image fr S tail)) = data_end fr S + Z.of_nat (length tail).
Proof. unfold image, data_end, base. rewrite !length_app, hdr_length. cbn [length words_of]. lia. Qed.

Lemma image_header : _fdt_rw_check_header (image fr S tail) = Some (0, image fr S tail).
Proof.
  unfold _fdt_rw_check_header, with_header, fdt_check_header, fdt_magic, fdt_version, fdt_last_comp_version, fdt_size_dt_struct,
    _fdt_blocks_misordered, fdt_off_mem_rsvmap, fdt_off_dt_struct, fdt_off_dt_strings, fdt_size_dt_strings, fdt_totalsize.
  rewrite (field 0 _ 0 eq_refl), (field 5 _ 20 eq_refl), (field 6 _ 24 eq_refl), (field 9 _ 36 eq_refl), (field 4 _ 16 eq_refl), (field 2 _ 8 eq_refl),
    (field 3 _ 12 eq_refl), (field 8 _ 32 eq_refl), (field 1 _ 4 eq_refl) by done. cbn [mbind option_bind].
  destruct Hok as [[? ?] ? Hcpu ? ?]. unfold word, data_end, base in *.
  change (FDT_MAGIC =? FDT_MAGIC) with true. cbv iota. change (17 <? FDT_FIRST_SUPPORTED_VERSION) with false. cbv iota.
  rewrite (proj2 (Z.ltb_ge FDT_LAST_SUPPORTED_VERSION (last fr))) by (unfold FDT_LAST_SUPPORTED_VERSION; lia). cbn [mbind option_bind].
  change (0 =? 0) with true. change (17 <? 17) with false. cbv iota.
  rewrite !u32_small by (unfold base; lia). rewrite !(proj2 (Z.ltb_ge _ _)) by (unfold base; lia). done.
Qed.
End image.

Lemma image_blob fr ts tail : image_ok fr (encs ts) tail -> Forall tok_ok ts -> blob (image fr (encs ts) tail) (base fr) ts.
Proof.
  intros Hok Ht. destruct (Hok) as [[? ?] ? Hcpu ? ?]. unfold word, data_end, base in *.
  split; [| |split]; unfold fdt_magic, fdt_version, fdt_last_comp_version, fdt_off_dt_struct, fdt_size_dt_struct.
  - by rewrite (field Hok 0 _ 0 eq_refl).
  - rewrite (field Hok 6 _ 24 eq_refl) by done. eexists. split; [done|lia].
  - by rewrite (field Hok 5 _ 20 eq_refl).
  - by rewrite (field Hok 2 _ 8 eq_refl).
  - by rewrite (field Hok 9 _ 36 eq_refl).
  - split; [lia|]. unfold image. rewrite app_assoc. rewrite drop_app_length' by (rewrite length_app, hdr_length; cbn [length words_of]; lia). by eexists.
  - unfold size_of. lia.
  - done.
Qed.

(** Updating the list of words. *)
Lemma words_struct fr n d :
  <[3%nat := base fr + n + Z.of_nat (length (gap fr)) + d]> (<[9%nat := n + d]> (words_of fr n)) = words_of fr (n + d).
Proof. unfold words_of. cbn. do 4 f_equal. lia. Qed.

(** ** Splicing *)

(** The bytes [x] become [newlen] bytes and what is behind them moves; only the
    used part and what it grows into is written. *)
Lemma splice_bytes fdt front x back tail newlen tot :
  fdt = front ++ x ++ back ++ tail ->
  _fdt_data_size fdt = Some (Z.of_nat (length (front ++ x ++ back))) -> fdt_totalsize fdt = Some tot ->
  tot <= Z.of_nat (length fdt) -> 0 <= newlen ->
  let need := Z.of_nat (length (front ++ back)) + newlen in
  (tot < need /\ _fdt_splice fdt (Z.of_nat (length front)) (Z.of_nat (length x)) newlen = Some (- FDT_ERR_NOSPACE, fdt))
  \/ (need <= tot /\ ∃ x' tail',
       _fdt_splice fdt (Z.of_nat (length front)) (Z.of_nat (length x)) newlen = Some (0, front ++ x' ++ back ++ tail')
       /\ Z.of_nat (length x') = newlen /\ (length x' + length tail' = length x + length tail)%nat
       /\ take (length x) x' = take (length x') x
       /\ drop (Z.to_nat tot - length (front ++ x' ++ back)) tail' = drop (Z.to_nat tot) fdt).
Proof.
  intros E Hsize Htot Hle Hn need. subst need. unfold _fdt_splice. rewrite Hsize, Htot. cbn [mbind option_bind]. rewrite !length_app.
  rewrite !(proj2 (Z.ltb_ge _ _)) by lia. cbn [orb]. destruct (Z.ltb_spec tot (Z.of_nat (length front + (length x + length back)) - Z.of_nat (length x) + newlen)) as [Hlt|Hge].
  - left. split; [lia|done].
  - right. split; [lia|]. exists (take (Z.to_nat newlen) (x ++ back ++ tail)), (drop (Z.to_nat newlen + length back) (x ++ back ++ tail)).
    assert (length fdt = length front + (length x + (length back + length tail)))%nat as Hlen by (by rewrite E, !length_app).
    unfold move. rewrite E at 1. rewrite (app_assoc front x), (slice_mid (front ++ x) back tail) by (rewrite ?length_app; lia).
    cbn [mbind option_bind]. unfold poke. rewrite decide_True by lia. cbn [mbind option_bind].
    assert (length (take (Z.to_nat newlen) (x ++ back ++ tail)) = Z.to_nat newlen) as Hl' by (rewrite length_take, !length_app; lia).
    split_and!; [|lia| | |].
    + do 2 f_equal. rewrite E. replace (Z.to_nat (Z.of_nat (length front) + newlen)) with (length front + Z.to_nat newlen)%nat by lia.
      rewrite take_app_add, <-!app_assoc, <-Nat.add_assoc, <-drop_drop, drop_app_length. done.
    + rewrite Hl', length_drop, !length_app. lia.
    + by rewrite Hl', take_take, Nat.min_comm, <-take_take, take_app_length.
    + rewrite E, drop_drop, !length_app, Hl', (drop_app_ge front) by lia. f_equal. lia.
Qed.

Lemma image_data_size {fr S tail} (Hok : image_ok fr S tail) : _fdt_data_size (image fr S tail) = Some (data_end fr S).
Proof.
  unfold _fdt_data_size, fdt_off_dt_strings, fdt_size_dt_strings. rewrite (field Hok 3 _ 12 eq_refl), (field Hok 8 _ 32 eq_refl) by done.
  cbn [mbind option_bind]. f_equal. destruct Hok as [[? ?] ? ? ? ?]. unfold data_end, base in *.
  unfold s32, swrap. rewrite Z.mod_small by lia. lia.
Qed.

(** What is behind the total size stays. *)
Definition kept (fr : frame) (fdt fdt' : list Z) : Prop :=
  drop (Z.to_nat (total fr)) fdt' = drop (Z.to_nat (total fr)) fdt /\ length fdt' = length fdt.

Lemma splice_struct_image fr A X B tail newlen :
  image_ok fr (A ++ X ++ B) tail -> 0 <= newlen ->
  let fdt := image fr (A ++ X ++ B) tail in
  let r := _fdt_splice_struct fdt (base fr + Z.of_nat (length A)) (Z.of_nat (length X)) newlen in
  (total fr < data_end fr (A ++ B) + newlen /\ r = Some (- FDT_ERR_NOSPACE, fdt))
  \/ (data_end fr (A ++ B) + newlen <= total fr /\ ∃ X' tail',
        r = Some (0, image fr (A ++ X' ++ B) tail') /\ Z.of_nat (length X') = newlen /\ take (length X) X' = take (length X') X
        /\ image_ok fr (A ++ X' ++ B) tail' /\ kept fr fdt (image fr (A ++ X' ++ B) tail')).
Proof.
  intros Hok Hn fdt r. subst r. set (ws := words_of fr (Z.of_nat (length (A ++ X ++ B)))).
  pose proof (words_words Hok) as Hws. fold ws in Hws. pose proof Hok as [[? ?] ? ? Htot Hsm]. unfold data_end, base in *. rewrite !length_app in Htot, Hsm.
  assert (length (hdr ws) = 40%nat) as Hh by (by rewrite hdr_length).
  assert (fdt = (hdr ws ++ rsv fr ++ A) ++ X ++ (B ++ gap fr ++ strs fr) ++ tail) as E.
  { subst fdt ws. unfold image. by rewrite <-!app_assoc. }
  destruct (splice_bytes fdt _ _ _ _ newlen (total fr) E) as [[Hlt Hs]|(Hge & X' & tail' & Hs & Hx & Hl & Htk & Hd)].
  - subst fdt. rewrite (image_data_size Hok). f_equal. unfold data_end, base. rewrite !length_app, Hh. lia.
  - subst fdt. by apply (field Hok 1).
  - subst fdt. rewrite (image_length). unfold data_end, base. rewrite !length_app. lia.
  - done.
  - left. rewrite !length_app, Hh in Hlt. split; [rewrite !length_app; lia|].
    unfold _fdt_splice_struct. replace (40 + Z.of_nat (length (rsv fr)) + Z.of_nat (length A)) with (Z.of_nat (length (hdr ws ++ rsv fr ++ A))) by (rewrite !length_app, Hh; lia).
    by rewrite Hs.
  - right. rewrite !length_app, Hh in Hge. split; [rewrite !length_app; lia|]. exists X', tail'.
    assert (image_ok fr (A ++ X' ++ B) tail') as Hok'.
    { split; [done|done|done| |]; unfold data_end, base; rewrite !length_app; lia. }
    assert (_fdt_splice_struct fdt (40 + Z.of_nat (length (rsv fr)) + Z.of_nat (length A)) (Z.of_nat (length X)) newlen = Some (0, image fr (A ++ X' ++ B) tail')) as Hr.
    { unfold _fdt_splice_struct. replace (40 + Z.of_nat (length (rsv fr)) + Z.of_nat (length A)) with (Z.of_nat (length (hdr ws ++ rsv fr ++ A))) by (rewrite !length_app, Hh; lia).
      rewrite Hs. cbn [on_success mbind option_bind]. change (0 =? 0) with true. cbv iota. rewrite <-!(app_assoc (hdr ws)).
      unfold fdt_size_dt_struct, fdt_off_dt_strings, fdt_set_size_dt_struct, fdt_set_off_dt_strings.
      rewrite (rd32_hdr ws _ 9 _ _ Hws eq_refl eq_refl). cbn [mbind option_bind]. rewrite (wr32_hdr _ _ 9) by (done || cbn; lia). cbn [mbind option_bind].
      rewrite u32_small by (rewrite !length_app; lia).
      rewrite (rd32_hdr _ _ 3 (base fr + Z.of_nat (length (A ++ X ++ B)) + Z.of_nat (length (gap fr)))); [|apply Forall_insert; [done|unfold word; rewrite !length_app; lia]|done|done].
      cbn [mbind option_bind]. rewrite (wr32_hdr _ _ 3) by (done || (rewrite length_insert; cbn; lia)). cbn [mbind option_bind].
      rewrite u32_small by (unfold base; rewrite !length_app; lia). unfold ws. rewrite words_struct. unfold image. do 2 f_equal.
      rewrite <-!app_assoc. do 3 f_equal. rewrite !length_app. lia. }
    split_and!; [exact Hr|done|done|done|]. split.
    + rewrite <-Hd. unfold image. rewrite !app_assoc, drop_app_ge by (rewrite !length_app, !hdr_length; cbn [length words_of]; lia).
      f_equal.
    + rewrite E. unfold image. rewrite !length_app, Hh, !hdr_length. cbn [length words_of]. lia.
Qed.

(** The strings grow by [l]. *)
Definition add_strs (fr : frame) (l : list Z) : frame :=
  Frame (total fr) (rsvoff fr) (last fr) (cpu fr) (rsv fr) (gap fr) (strs fr ++ l).

Lemma splice_string_image fr S tail l :
  image_ok fr S tail -> l <> [] ->
  let fdt := image fr S tail in
  let r := on_success (_fdt_splice_string fdt (Z.of_nat (length l))) pair
             (λ fdt, fdt ← poke fdt (data_end fr S) l; Some (Z.of_nat (length (strs fr)), fdt)) in
  (total fr < data_end fr S + Z.of_nat (length l) /\ r = Some (- FDT_ERR_NOSPACE, fdt))
  \/ (data_end fr S + Z.of_nat (length l) <= total fr /\ ∃ tail',
        r = Some (Z.of_nat (length (strs fr)), image (add_strs fr l) S tail')
        /\ image_ok (add_strs fr l) S tail' /\ kept fr fdt (image (add_strs fr l) S tail')).
Proof.
  intros Hok Hne fdt r. subst r. set (ws := words_of fr (Z.of_nat (length S))).
  pose proof (words_words Hok) as Hws. fold ws in Hws. pose proof Hok as [[? ?] ? ? Htot Hsm]. unfold data_end, base in *.
  assert (length (hdr ws) = 40%nat) as Hh by (by rewrite hdr_length).
  assert (fdt = (hdr ws ++ rsv fr ++ S ++ gap fr ++ strs fr) ++ [] ++ [] ++ tail) as E.
  { subst fdt ws. unfold image. by rewrite <-!app_assoc. }
  unfold _fdt_splice_string, fdt_off_dt_strings, fdt_size_dt_strings.
  assert (rd32 fdt 12 = Some (base fr + Z.of_nat (length S) + Z.of_nat (length (gap fr)))) as -> by (by apply (field Hok 3)).
  assert (rd32 fdt 32 = Some (Z.of_nat (length (strs fr)))) as -> by (by apply (field Hok 8)). cbn [mbind option_bind].
  assert (base fr + Z.of_nat (length S) + Z.of_nat (length (gap fr)) + Z.of_nat (length (strs fr))
          = Z.of_nat (length (hdr ws ++ rsv fr ++ S ++ gap fr ++ strs fr))) as -> by (rewrite !length_app, Hh; unfold base; lia).
  destruct (splice_bytes fdt _ _ _ _ (Z.of_nat (length l)) (total fr) E) as [[Hlt Hs]|(Hge & X' & tail' & Hs & Hx & Hl & Htk & Hd)].
  - subst fdt. rewrite (image_data_size Hok). f_equal. unfold data_end, base. rewrite !length_app, Hh. cbn [length]. lia.
  - subst fdt. by apply (field Hok 1).
  - subst fdt. rewrite (image_length). unfold data_end, base. lia.
  - lia.
  - left. rewrite !length_app, Hh in Hlt. split; [cbn [length] in Hlt; lia|]. cbn [length] in Hs. change (Z.of_nat 0) with 0 in Hs. by rewrite Hs.
  - right. rewrite !length_app, Hh in Hge. cbn [length] in Hge, Hl, Hs. change (Z.of_nat 0) with 0 in Hs. split; [lia|]. exists tail'.
    assert (image_ok (add_strs fr l) S tail') as Hok'.
    { split; [done|done|done| |]; unfold data_end, base; cbn [rsv gap strs add_strs total]; rewrite !length_app; lia. }
    split_and!; [|done|].
    + rewrite Hs. cbn [on_success mbind option_bind app]. change (0 =? 0) with true. cbv iota. rewrite <-!(app_assoc (hdr ws)).
      unfold fdt_size_dt_strings, fdt_set_size_dt_strings. rewrite (rd32_hdr ws _ 8 _ _ Hws eq_refl eq_refl). cbn [mbind option_bind].
      rewrite (wr32_hdr _ _ 8) by (done || cbn; lia). cbn [mbind option_bind on_success]. change (0 =? 0) with true. cbv iota.
      rewrite u32_small by lia. rewrite app_assoc. rewrite (poke_mid _ X' l tail'); [|rewrite !length_app, !hdr_length; unfold base; cbn; lia|lia].
      cbn [mbind option_bind]. unfold image, add_strs. cbn [rsv gap strs]. rewrite <-!app_assoc. do 3 f_equal.
      unfold ws, words_of. cbn. by rewrite length_app, Nat2Z.inj_add.
    + split.
      * rewrite <-Hd. unfold image. rewrite !app_assoc, drop_app_ge by (rewrite !length_app, !hdr_length; cbn [length words_of add_strs rsv gap strs]; rewrite ?length_app; lia).
        f_equal. rewrite !length_app, Hh, !hdr_length. cbn [length words_of add_strs rsv gap strs]. rewrite !length_app. lia.
      * rewrite E. unfold image. rewrite !length_app, Hh, !hdr_length. cbn [length words_of add_strs rsv gap strs]. rewrite !length_app. lia.
Qed.

(** ** Names in the strings block *)

Lemma string_at_app l k o s : string_at l o = Some s -> string_at (l ++ k) o = Some s.
Proof.
  intros H. pose proof H as ((H0 & tl & E) & Hs)%string_at_inv. apply string_at_holds; [|done]. split; [done|].
  assert (Z.to_nat o <= length l)%nat as Hl by (apply (f_equal length) in E; rewrite length_drop, !length_app in E; cbn in E; lia).
  exists (tl ++ k). rewrite drop_app_le by lia. by rewrite E, <-!app_assoc.
Qed.

Lemma string_at_prefix pre l o s : string_at l o = Some s -> string_at (pre ++ l) (Z.of_nat (length pre) + o) = Some s.
Proof.
  intros H. pose proof H as ((H0 & tl & E) & Hs)%string_at_inv. apply string_at_holds; [|done]. split; [lia|].
  exists tl. rewrite drop_app_ge by lia. rewrite <-E. f_equal. lia.
Qed.

Lemma find_string_at_spec n fdt p l s :
  holds fdt p l -> (n + length s <= length l)%nat -> Forall (λ c, c <> 0) s ->
  find_string_at n fdt p s = Some None
  \/ ∃ k, find_string_at n fdt p s = Some (Some (p + k)) /\ 0 <= k < Z.of_nat n /\ string_at l k = Some s.
Proof.
  revert p l. induction n as [|n IH]; intros p l H Hl Hs; [by left|]. cbn [find_string_at].
  rewrite (eq_at_holds fdt p l (s ++ [0])) by (done || (rewrite length_app; cbn; lia)). cbn [mbind option_bind].
  case_bool_decide as Heq.
  - right. exists 0. rewrite Z.add_0_r. split; [done|]. split; [lia|]. apply string_at_holds; [|done]. split; [done|].
    exists (drop (length (s ++ [0])) l). rewrite drop_0. rewrite <-Heq at 1. by rewrite take_drop.
  - destruct l as [|c l]; [cbn in Hl; lia|]. apply holds_cons in H as [_ H].
    destruct (IH (p + 1) l H) as [Hn|(k & Hk & Hk0 & Hat)]; [cbn in Hl; lia|done|by left|].
    right. exists (k + 1). rewrite Hk. split; [do 2 f_equal; lia|]. split; [lia|].
    replace (k + 1) with (Z.of_nat (length [c]) + k) by (cbn; lia). by apply (string_at_prefix [c] l).
Qed.

Lemma image_strings {fr S tail} (Hok : image_ok fr S tail) :
  holds (image fr S tail) (base fr + Z.of_nat (length S) + Z.of_nat (length (gap fr))) (strs fr).
Proof.
  split; [unfold base; lia|]. exists tail. unfold image. rewrite !app_assoc. rewrite <-(app_assoc _ (strs fr) tail).
  apply drop_app_length'. rewrite !length_app, hdr_length. cbn [length words_of]. unfold base. lia.
Qed.

Lemma prop_name_image {fr S tail} (Hok : image_ok fr S tail) o s :
  string_at (strs fr) o = Some s -> prop_name (image fr S tail) o = Some s.
Proof.
  intros H. unfold prop_name, fdt_off_dt_strings. rewrite (field Hok 3 _ 12 eq_refl) by done. cbn [mbind option_bind].
  apply (string_at_app _ tail), (string_at_prefix (hdr (words_of fr (Z.of_nat (length S))) ++ rsv fr ++ S ++ gap fr)) in H.
  rewrite <-H. unfold image. rewrite <-!app_assoc. f_equal. rewrite !length_app, hdr_length. cbn [length words_of]. unfold base. lia.
Qed.

(** The name is found, or put behind the strings, or there is no room. *)
Lemma find_add_string_image fr S tail s :
  image_ok fr S tail -> Forall (λ c, c <> 0) s ->
  let fdt := image fr S tail in
  (total fr < data_end fr S + Z.of_nat (length s) + 1 /\ _fdt_find_add_string fdt s = Some (- FDT_ERR_NOSPACE, fdt))
  \/ ∃ o l tail', _fdt_find_add_string fdt s = Some (o, image (add_strs fr l) S tail') /\ 0 <= o < 2 ^ 31
     /\ string_at (strs fr ++ l) o = Some s /\ image_ok (add_strs fr l) S tail' /\ kept fr fdt (image (add_strs fr l) S tail')
     /\ (length l <= length s + 1)%nat.
Proof.
  intros Hok Hs fdt. pose proof Hok as [[? ?] ? ? Htot Hsm]. unfold data_end, base in *.
  unfold _fdt_find_add_string, fdt_off_dt_strings, fdt_size_dt_strings, _fdt_find_string. subst fdt.
  rewrite (field Hok 3 _ 12 eq_refl), (field Hok 8 _ 32 eq_refl) by done. cbn [mbind option_bind].
  assert (s32 (Z.of_nat (length (strs fr))) = Z.of_nat (length (strs fr))) as -> by (unfold s32, swrap; rewrite Z.mod_small by lia; lia).
  set (n := Z.to_nat (Z.of_nat (length (strs fr)) - Z.of_nat (length s))).
  destruct (decide (n = 0%nat)) as [Hn0|Hn0].
  1: assert (find_string_at n (image fr S tail) (base fr + Z.of_nat (length S) + Z.of_nat (length (gap fr))) s = Some None) as Hnone by (by rewrite Hn0).
  2: destruct (find_string_at_spec n _ _ _ s (image_strings Hok)) as [Hnone|(k & -> & Hk & Hat)]; [lia|done| |].
  3: { right. exists k, [], tail. cbn [mbind option_bind]. unfold add_strs. rewrite !app_nil_r. destruct fr. cbn [strs] in *.
       split_and!; [do 2 f_equal; lia|lia|lia|done|done|done|cbn; lia]. }
  all: rewrite Hnone; cbn [mbind option_bind];
    replace (base fr + Z.of_nat (length S) + Z.of_nat (length (gap fr)) + Z.of_nat (length (strs fr)) - (base fr + Z.of_nat (length S) + Z.of_nat (length (gap fr))))
      with (Z.of_nat (length (strs fr))) by lia;
    destruct (splice_string_image fr S tail (s ++ [0]) Hok) as [[Hlt Hr]|(Hge & tail' & Hr & Hok' & Hk)]; [by destruct s| |];
    replace (Z.of_nat (length (s ++ [0]))) with (Z.of_nat (length s) + 1) in * by (rewrite length_app; cbn; lia);
    unfold data_end in *; rewrite Hr; [left; split; [unfold base in *; lia|done]|];
    right; exists (Z.of_nat (length (strs fr))), (s ++ [0]), tail'; split_and!; try done; try lia;
    [|rewrite length_app; cbn; lia]; apply string_at_holds; [|done]; split; [lia|]; exists []; rewrite Nat2Z.id, drop_app_length, app_nil_r; done.
Qed.
