(* ===== verification/FdtUpdate.v ===== *)
(** * Insertions and deletions on trees ([lib/libfdt/fdt_rw.c])

    What [FdtRw] does to the tree of a blob: properties and nodes are set,
    added and removed; everything else keeps its contents, whatever moves. *)

From S2P Require Import Prelude Crc Bytes Ctype Cstring Hashtable Fdt FdtTree FdtWip FdtEdit FdtRw FdtImage.

(** ** Names *)

(** Every name of a property ends inside of the strings block. *)
Fixpoint names_in (strs : list Z) (b : items) : Prop :=
  match b with
  | Nil => True
  | Nop rest => names_in strs rest
  | Property nameoff _ _ rest => nameoff < 2 ^ 31 /\ is_Some (string_at strs nameoff) /\ names_in strs rest
  | Node _ _ body rest => names_in strs body /\ names_in strs rest
  end.

Lemma names_in_app strs l b : names_in strs b -> names_in (strs ++ l) b.
Proof.
  induction b as [|r IH|no v pd r IH|n pd b IHb r IHr]; cbn [names_in]; [done|done| |by intros [? ?]; auto].
  intros (? & [s Hs] & ?). split_and!; [done| |auto]. exists s. by apply string_at_app.
Qed.

Lemma names_named {fr S tail} (Hok : image_ok fr S tail) b : names_in (strs fr) b -> named (image fr S tail) b.
Proof.
  induction b as [|r IH|no v pd r IH|n pd b IHb r IHr]; cbn [names_in named]; [done|done| |by intros [? ?]; auto].
  intros (? & [s Hs] & ?). split_and!; [done| |auto]. exists s. by apply prop_name_image.
Qed.

(** Values of properties do not depend on where the blocks are. *)
Lemma prop_value_images {fr S tail fr' S' tail' l} m b :
  image_ok fr S tail -> image_ok fr' S' tail' -> strs fr' = strs fr ++ l -> names_in (strs fr) b ->
  prop_value (image fr' S' tail') m b = prop_value (image fr S tail) m b.
Proof.
  intros Hok Hok' Hstr Hn. unfold prop_value. generalize 0. induction b as [|r IH|no v pd r IH|]; intros o; cbn [names_in find_prop] in *; [done|by apply IH| |done].
  destruct Hn as (_ & [s Hs] & Hn). rewrite (prop_name_image Hok _ _ Hs).
  rewrite (prop_name_image Hok' no s) by (rewrite Hstr; by apply string_at_app). case_bool_decide; [done|by apply IH].
Qed.

(** ** Writing into the structure block *)

Lemma poke_image fr A old B tail l p :
  length l = length old -> p = base fr + Z.of_nat (length A) ->
  poke (image fr (A ++ old ++ B) tail) p l = Some (image fr (A ++ l ++ B) tail).
Proof.
  intros Hl ->. unfold image. rewrite !length_app, Hl.
  replace (length A + (length old + length B))%nat with (length (A ++ old ++ B)) by (rewrite !length_app; lia).
  set (h := hdr _). replace (h ++ rsv fr ++ (A ++ old ++ B) ++ gap fr ++ strs fr ++ tail)
    with ((h ++ rsv fr ++ A) ++ old ++ (B ++ gap fr ++ strs fr ++ tail)) by (by rewrite <-!app_assoc).
  rewrite poke_mid; [by rewrite <-!app_assoc| |done].
  subst h. rewrite !length_app, hdr_length. cbn [length words_of]. unfold base. lia.
Qed.

Lemma wr32_image fr A old B tail v p :
  length old = 4%nat -> p = base fr + Z.of_nat (length A) ->
  wr32 (image fr (A ++ old ++ B) tail) p v = Some (image fr (A ++ be_bytes4 (u32 v) ++ B) tail).
Proof. intros Hl ->. apply poke_image; [by rewrite Hl|done]. Qed.

Lemma tagalign_pad n : 0 <= n -> n + 4 < 2 ^ 31 ->
  ∃ pad : nat, FDT_TAGALIGN n = n + Z.of_nat pad /\ (pad < 4)%nat /\ (n + Z.of_nat pad) mod 4 = 0.
Proof.
  intros H0 Hn. exists (Z.to_nat ((- n) mod 4)). pose proof (Z.mod_pos_bound (- n) 4 ltac:(lia)).
  assert ((n + Z.of_nat (Z.to_nat ((- n) mod 4))) mod 4 = 0) as Hm by (rewrite Z2Nat.id by lia; rewrite Z.add_mod_idemp_r by lia; by rewrite Z.add_opp_diag_r).
  split; [|split; [lia|done]]. apply tagalign_spec; [done|done|lia|done].
Qed.

Lemma enc_prop no val pad Q :
  encs (TProp no val pad :: Q) = be_bytes4 FDT_PROP ++ be_bytes4 (Z.of_nat (length val)) ++ be_bytes4 no ++ val ++ pad ++ encs Q.
Proof. unfold encs. cbn [map concat enc]. by rewrite <-!app_assoc. Qed.

Lemma prop_aligned no val pad : tok_ok (TProp no val pad) -> Z.of_nat (length val) + 4 < 2 ^ 31 ->
  FDT_TAGALIGN (Z.of_nat (length val)) = Z.of_nat (length (val ++ pad)).
Proof.
  intros (_ & Hp & Hm) Hl. rewrite length_app, Nat2Z.inj_add. apply tagalign_spec; [lia|lia|lia|].
  apply nat_mod4 in Hm. by rewrite Nat2Z.inj_add in Hm.
Qed.

(** ** Values of another length *)

(** The value of a property gets the room of [len] bytes. *)
Lemma resize_splice fr P no old opad Q tail len :
  let S := encs (P ++ TProp no old opad :: Q) in
  let fdt := image fr S tail in
  let prop := base fr + size_of P in
  let front := encs P ++ be_bytes4 FDT_PROP ++ be_bytes4 (Z.of_nat (length old)) ++ be_bytes4 no in
  image_ok fr S tail -> tok_ok (TProp no old opad) -> 0 <= len -> len + 4 < 2 ^ 31 ->
  let r := _fdt_splice_struct fdt (prop + 12) (FDT_TAGALIGN (Z.of_nat (length old))) (FDT_TAGALIGN len) in
  (total fr < data_end fr S + len + 4 /\ r = Some (- FDT_ERR_NOSPACE, fdt))
  \/ ∃ X tail', r = Some (0, image fr (front ++ X ++ encs Q) tail') /\ Z.of_nat (length X) = FDT_TAGALIGN len
     /\ take (length (old ++ opad)) X = take (length X) (old ++ opad)
     /\ image_ok fr (front ++ X ++ encs Q) tail' /\ kept fr fdt (image fr (front ++ X ++ encs Q) tail').
Proof.
  intros S fdt prop front Hok Ht H0 Hlen r. destruct (tagalign_pad len H0 Hlen) as (pad & Hp & Hp4 & _).
  assert (S = front ++ (old ++ opad) ++ encs Q) as ES.
  { subst S front. rewrite encs_app, enc_prop, <-!app_assoc. done. }
  assert (Z.of_nat (length old) + 4 < 2 ^ 31) as Hold.
  { pose proof (ok_small _ _ _ Hok) as Hs. unfold data_end in Hs. rewrite ES in Hs. subst front. rewrite !length_app, !be_bytes4_length in Hs. unfold base in Hs. lia. }
  assert (base fr + size_of P + 12 = base fr + Z.of_nat (length front)) as Epos.
  { subst front. rewrite !length_app, !be_bytes4_length. unfold size_of. lia. }
  subst r. rewrite (prop_aligned _ _ _ Ht Hold). subst prop. rewrite Epos. subst fdt. rewrite ES in *.
  destruct (splice_struct_image fr front (old ++ opad) (encs Q) tail (FDT_TAGALIGN len) Hok) as [[Hlt Hr]|(_ & X & tail' & Hr & HX & Htk & Hok' & Hk)].
  - lia.
  - left. split; [|done]. unfold data_end in *. rewrite !length_app in *. lia.
  - right. by exists X, tail'.
Qed.

(** The words of the property are written and its bytes form a token again. *)
Lemma finish_property fr P (l1 l2 l3 : list Z) no X Q tail val i :
  length l1 = 4%nat -> length l2 = 4%nat -> length l3 = 4%nat -> word no ->
  Z.of_nat (length X) = FDT_TAGALIGN (Z.of_nat i + Z.of_nat (length val)) -> Z.of_nat i + Z.of_nat (length val) + 4 < 2 ^ 31 ->
  image_ok fr ((encs P ++ l1 ++ l2 ++ l3) ++ X ++ encs Q) tail ->
  ∃ pad, tok_ok (TProp no (take i X ++ val) pad) /\ length (take i X) = i
    /\ poke (image fr ((encs P ++ be_bytes4 FDT_PROP ++ be_bytes4 (Z.of_nat i + Z.of_nat (length val)) ++ be_bytes4 no) ++ X ++ encs Q) tail)
         (base fr + size_of P + 12 + Z.of_nat i) val
       = Some (image fr (encs (P ++ TProp no (take i X ++ val) pad :: Q)) tail)
    /\ image_ok fr (encs (P ++ TProp no (take i X ++ val) pad :: Q)) tail.
Proof.
  intros H1 H2 H3 Hno HX Hsm Hok. destruct (tagalign_pad (Z.of_nat i + Z.of_nat (length val))) as (k & Hk & Hk4 & Hmod); [lia|lia|].
  destruct (split_length X i) as (X1 & X2 & -> & Hl1); [lia|]. rewrite take_app_length' by done. rewrite length_app in HX.
  destruct (split_length X2 (length val)) as (X3 & pad & -> & Hl3); [lia|]. rewrite length_app in HX. exists pad.
  assert (tok_ok (TProp no (X1 ++ val) pad)) as Ht.
  { split; [done|]. split; [lia|]. apply Nat2Z.inj. rewrite Nat2Z.inj_mod, !length_app. etrans; [|exact Hmod]. f_equal. lia. }
  split; [done|]. split; [done|].
  assert (encs (P ++ TProp no (X1 ++ val) pad :: Q)
          = (encs P ++ be_bytes4 FDT_PROP ++ be_bytes4 (Z.of_nat i + Z.of_nat (length val)) ++ be_bytes4 no ++ X1) ++ val ++ pad ++ encs Q) as ->.
  { rewrite encs_app, enc_prop, length_app, Hl1, Nat2Z.inj_add. by rewrite <-!app_assoc. }
  split.
  - match goal with |- poke (image fr ?S0 tail) _ _ = _ => replace S0 with
      ((encs P ++ be_bytes4 FDT_PROP ++ be_bytes4 (Z.of_nat i + Z.of_nat (length val)) ++ be_bytes4 no ++ X1) ++ X3 ++ pad ++ encs Q) by (by rewrite <-!app_assoc) end.
    apply poke_image; [by rewrite Hl3|]. rewrite !length_app, !be_bytes4_length. unfold size_of. lia.
  - destruct Hok as [? ? ? Htot ?]. split; try done; unfold data_end in *; rewrite !length_app, ?be_bytes4_length in *; lia.
Qed.

Lemma kept_trans fr f1 f2 f3 : kept fr f1 f2 -> kept fr f2 f3 -> kept fr f1 f3.
Proof. intros [? ?] [? ?]. split; congruence. Qed.

Lemma image_drop {fr S tail} (Hok : image_ok fr S tail) :
  drop (Z.to_nat (total fr)) (image fr S tail) = drop (Z.to_nat (total fr - data_end fr S)) tail.
Proof.
  destruct Hok as [[? ?] ? ? ? ?]. unfold image, data_end, base in *. rewrite !app_assoc, drop_app_ge by (rewrite !length_app, hdr_length; cbn [length words_of]; lia).
  f_equal. rewrite !length_app, hdr_length. cbn [length words_of]. lia.
Qed.

Lemma kept_same fr S S' tail : image_ok fr S tail -> length S' = length S -> kept fr (image fr S tail) (image fr S' tail).
Proof.
  intros Hok Hl. assert (image_ok fr S' tail) as Hok' by (destruct Hok; split; try done; unfold data_end in *; by rewrite Hl).
  split; [|unfold image; by rewrite !length_app, !hdr_length, Hl]. rewrite (image_drop Hok), (image_drop Hok'). unfold data_end. by rewrite Hl.
Qed.

(** ** New properties *)

(** The three words in front of the value are written. *)
Lemma write_prop_words fr A l1 l2 l3 Y tail no len :
  length l1 = 4%nat -> length l2 = 4%nat -> length l3 = 4%nat -> word no -> 0 <= len < 2 ^ 31 ->
  (fdt ← wr32 (image fr (A ++ l1 ++ l2 ++ l3 ++ Y) tail) (base fr + Z.of_nat (length A)) FDT_PROP;
   fdt ← wr32 fdt (base fr + Z.of_nat (length A) + 8) no;
   fdt ← wr32 fdt (base fr + Z.of_nat (length A) + 4) len;
   Some (0, fdt, base fr + Z.of_nat (length A)))
  = Some (0, image fr (A ++ be_bytes4 FDT_PROP ++ be_bytes4 len ++ be_bytes4 no ++ Y) tail, base fr + Z.of_nat (length A)).
Proof.
  intros H1 H2 H3 Hno Hlen. rewrite (wr32_image fr A l1) by done. cbn [mbind option_bind].
  change (u32 FDT_PROP) with FDT_PROP. rewrite (app_assoc A), (app_assoc _ l2).
  rewrite (wr32_image fr _ l3) by (done || (rewrite !length_app, H2, be_bytes4_length; lia)). cbn [mbind option_bind].
  rewrite <-(app_assoc _ l2). rewrite (wr32_image fr _ l2) by (done || (rewrite !length_app, be_bytes4_length; lia)). cbn [mbind option_bind].
  unfold word in Hno. rewrite !u32_small by lia. by rewrite <-!app_assoc.
Qed.

Lemma add_property_image fr pre n npad rest tail name len :
  let ts := pre ++ TBegin n npad :: rest in
  let P := pre ++ [TBegin n npad] in
  let fdt := image fr (encs ts) tail in
  image_ok fr (encs ts) tail -> Forall tok_ok ts -> Forall (λ c, c <> 0) name -> 0 <= len -> len + 20 < 2 ^ 31 ->
  ∃ l tail', kept fr fdt (image (add_strs fr l) (encs ts) tail') /\ image_ok (add_strs fr l) (encs ts) tail' /\
  ((∃ p, _fdt_add_property fdt (size_of pre) name len = Some (- FDT_ERR_NOSPACE, image (add_strs fr l) (encs ts) tail', p)
    /\ total fr < data_end fr (encs ts) + len + Z.of_nat (length name) + 16)
  \/ ∃ no X tail'',
     let S := (encs P ++ be_bytes4 FDT_PROP ++ be_bytes4 len ++ be_bytes4 no) ++ X ++ encs rest in
     _fdt_add_property fdt (size_of pre) name len = Some (0, image (add_strs fr l) S tail'', base fr + size_of P)
     /\ Z.of_nat (length X) = FDT_TAGALIGN len /\ 0 <= no < 2 ^ 31 /\ string_at (strs fr ++ l) no = Some name
     /\ image_ok (add_strs fr l) S tail'' /\ kept fr fdt (image (add_strs fr l) S tail'')).
Proof.
  intros ts P fdt Hok Ht Hname H0 Hlen. pose proof (image_blob _ _ _ Hok Ht) as HB.
  unfold _fdt_add_property. subst fdt. rewrite (check_node_ok HB _ _ _ _ eq_refl). cbn [mbind option_bind]. fold P.
  rewrite (proj2 (Z.ltb_ge _ 0)) by apply size_pos.
  destruct (find_add_string_image _ _ _ name Hok Hname) as [[Hlt Hr]|(no & l & tail1 & Hr & Hno & Hat & Hok1 & Hk1 & Hll)]; rewrite Hr; cbn [mbind option_bind].
  { exists [], tail. unfold add_strs. rewrite app_nil_r. destruct fr as [a1 a2 a3 a4 a5 a6 a7]. cbn [total rsvoff last cpu rsv gap strs] in *. split; [done|]. split; [done|].
    left. exists 0. change (- FDT_ERR_NOSPACE <? 0) with true. split; [done|lia]. }
  exists l, tail1. split; [done|]. split; [done|]. rewrite (proj2 (Z.ltb_ge no 0)) by lia.
  unfold _fdt_offset_ptr, fdt_off_dt_struct. rewrite (field Hok1 2 _ 8 eq_refl) by done. cbn [mbind option_bind].
  destruct (tagalign_pad len) as (k & Hk & Hk4 & _); [lia|lia|].
  assert (s32 (12 + FDT_TAGALIGN len) = 12 + FDT_TAGALIGN len) as -> by (unfold s32, swrap; rewrite Z.mod_small by lia; lia).
  assert (encs ts = encs P ++ [] ++ encs rest) as ES by (subst ts P; change (TBegin n npad :: rest) with ([TBegin n npad] ++ rest); by rewrite !encs_app, <-app_assoc).
  change (size_of P) with (Z.of_nat (length (encs P))). rewrite ES in *.
  destruct (splice_struct_image (add_strs fr l) (encs P) [] (encs rest) tail1 (12 + FDT_TAGALIGN len) Hok1) as [[Hlt Hs]|(_ & X' & tail2 & Hs & HX & _ & Hok2 & Hk2)];
    [lia| |]; cbn [length] in Hs; change (Z.of_nat 0) with 0 in Hs; unfold on_success; rewrite Hs; cbn [mbind option_bind].
  - left. eexists. split; [done|]. unfold data_end, add_strs, base in *. cbn [total rsv gap strs] in *. rewrite !length_app in *. cbn [length] in *. lia.
  - right. change (0 =? 0) with true. cbv iota.
    destruct (split_length X' 4) as (l1 & X1 & -> & Hl1); [lia|]. rewrite length_app in HX.
    destruct (split_length X1 4) as (l2 & X2 & -> & Hl2); [lia|]. rewrite length_app in HX.
    destruct (split_length X2 4) as (l3 & X & -> & Hl3); [lia|]. rewrite length_app in HX.
    exists no, X, tail2. rewrite <-!app_assoc. change (base fr) with (base (add_strs fr l)). rewrite write_prop_words by (done || unfold word; lia).
    assert (image_ok (add_strs fr l) (encs P ++ be_bytes4 FDT_PROP ++ be_bytes4 len ++ be_bytes4 no ++ X ++ encs rest) tail2) as Hok3.
    { destruct Hok2. split; try done; unfold data_end in *; rewrite !length_app, ?be_bytes4_length in *; lia. }
    split_and!; [done|lia|lia|lia|done|done|]. apply (kept_trans _ _ _ _ Hk1). apply (kept_trans _ _ _ _ Hk2).
    apply (kept_same (add_strs fr l)); [done|]. rewrite !length_app, !be_bytes4_length. lia.
Qed.

(** ** Setting a property *)

(** The outcome of a change of the node at [off]: a well-formed blob in the same
    buffer, nothing written behind its total size, and either the tree is as before and
    there was less room than [room], or the contents of that node changed as
    [Q] says and nothing else did. *)
Definition updated (fr : frame) (ts : list token) (tail : list Z) (off : Z) (n : cstr) (b : items) (room : Z)
  (Q : list Z -> items -> Prop) (r : option (Z * list Z)) : Prop :=
  ∃ err l ts' tail',
    let fdt' := image (add_strs fr l) (encs ts') tail' in
    r = Some (err, fdt') /\ image_ok (add_strs fr l) (encs ts') tail' /\ Forall tok_ok ts'
    /\ kept fr (image fr (encs ts) tail) fdt'
    /\ ((err = - FDT_ERR_NOSPACE /\ ts' = ts /\ total fr < data_end fr (encs ts) + room)
        \/ (err = 0 /\ ∃ b', replaced ts off n b ts' b' /\ names_in (strs fr ++ l) b' /\ Q fdt' b')).

(** The node has the value [val] for the property [name], and is unchanged
    otherwise. *)
Definition has_value (fdt : list Z) (b : items) (name : cstr) (val : list Z) (fdt' : list Z) (b' : items) : Prop :=
  (∀ s, child s b' = child s b)
  /\ (∀ m, prop_value fdt' m b' = if bool_decide (m = name) then Some val else prop_value fdt m b).

Lemma add_strs_nil fr : add_strs fr [] = fr.
Proof. destruct fr. unfold add_strs. cbn. by rewrite app_nil_r. Qed.

Lemma names_in_value strs b1 no v pad v' pad' b2 :
  names_in strs (app_items b1 (Property no v pad b2)) -> names_in strs (app_items b1 (Property no v' pad' b2)).
Proof. induction b1 as [|r IH|? ? ? r IH|? ? b IHb r IHr]; cbn [app_items names_in]; [done|done| |]; intuition. Qed.

Lemma child_property s no v pad b : child s (Property no v pad b) = child s b.
Proof. unfold child at 1. cbn [find_child]. apply find_child_shift. Qed.

Lemma prop_value_pad fdt m b1 no v pad pad' b2 :
  prop_value fdt m (app_items b1 (Property no v pad b2)) = prop_value fdt m (app_items b1 (Property no v pad' b2)).
Proof.
  induction b1 as [|r IH|no1 w pd r IH|]; cbn [app_items] in *; unfold prop_value in *; cbn [find_prop] in *; rewrite ?find_prop_shift in *; [|done| |done];
    case_bool_decide; rewrite ?find_prop_shift; done.
Qed.

Section setprop.
Context {fr : frame} {ts : list token} {tail : list Z} (Hok : image_ok fr (encs ts) tail) (Ht : Forall tok_ok ts).
Context {off : Z} {n : cstr} {b : items} {name : cstr} (Hat : node_at ts off n b) (Hnames : names_in (strs fr) b) (Hname : Forall (λ c, c <> 0) name).

(** A property that is there gets another value, of which the first [i] bytes
    are those it had. *)
Lemma set_existing old val i :
  prop_value (image fr (encs ts) tail) name b = Some old -> (i <= length old)%nat -> (i = 0 \/ i = length old)%nat ->
  Z.of_nat i + Z.of_nat (length val) + 4 < 2 ^ 31 ->
  let newlen := Z.of_nat i + Z.of_nat (length val) in
  ∃ prop, fdt_get_property (image fr (encs ts) tail) off name = Some (inr (prop, Z.of_nat (length old))) /\
    updated fr ts tail off n b (newlen + 4) (has_value (image fr (encs ts) tail) b name (take i old ++ val))
      (on_success (_fdt_splice_struct (image fr (encs ts) tail) (prop + 12) (FDT_TAGALIGN (Z.of_nat (length old))) (FDT_TAGALIGN newlen)) pair
         (λ fdt, fdt ← wr32 fdt (prop + 4) newlen; fdt ← poke fdt (prop + 12 + Z.of_nat i) val; Some (0, fdt))).
Proof.
  intros Hv Hi Hi2 Hlen newlen. pose proof (image_blob _ _ _ Hok Ht) as HB.
  destruct (property_found HB _ _ _ _ _ Hat (names_named Hok _ Hnames) Hname Hv) as (pre & pad & post & b1 & no & vpad & b2 & E & Hoff & Hin & Hbb & _ & Hpn & Hfirst & _ & Hg).
  set (P := pre ++ TBegin n pad :: toks b1) in *. set (Q := toks b2 ++ TEnd :: post) in *. cbn [app] in E.
  exists (base fr + size_of P). split; [done|].
  assert (tok_ok (TProp no old vpad)) as Htok by (eapply (token_ok HB); exact E). pose proof Htok as (Hw & _ & _).
  assert (word (Z.of_nat (length old))) as Hwo.
  { destruct (prop_holds HB _ _ _ _ _ E) as (_ & _ & _ & Hb). pose proof (blob_small _ _ _ HB). pose proof (size_pos P). unfold word. lia. }
  pose proof Hok as Hok0. rewrite E in Hok0.
  destruct (resize_splice fr P no old vpad Q tail newlen Hok0 Htok) as [[Hlt Hr]|(X & tail' & Hr & HX & Htk & Hok1 & Hk1)]; [lia|lia| |].
  all: rewrite <-E in Hr; unfold on_success; rewrite Hr; cbn [mbind option_bind].
  { exists (- FDT_ERR_NOSPACE), [], ts, tail. rewrite add_strs_nil. split_and!; try done. left. rewrite <-E in Hlt. split_and!; [done|done|lia]. }
  change (0 =? 0) with true. cbv iota. replace (base fr + size_of P + 4) with (base fr + Z.of_nat (length (encs P ++ be_bytes4 FDT_PROP)))
    by (rewrite length_app, be_bytes4_length; unfold size_of; lia).
  destruct (finish_property fr P (be_bytes4 FDT_PROP) (be_bytes4 (Z.of_nat (length old))) (be_bytes4 no) no X Q tail' val i) as (vpad' & Htok' & Hli & Hp & Hok2); try done.
  match goal with |- context [wr32 (image fr ?S0 tail')] => replace S0 with
    ((encs P ++ be_bytes4 FDT_PROP) ++ be_bytes4 (Z.of_nat (length old)) ++ (be_bytes4 no ++ X ++ encs Q)) by (by rewrite <-!app_assoc) end.
  rewrite (wr32_image fr _ (be_bytes4 (Z.of_nat (length old)))) by done. cbn [mbind option_bind]. rewrite u32_small by lia.
  match type of Hp with poke (image fr ?S0 _) _ _ = _ => match goal with |- context [poke (image fr ?S1 tail')] => replace S1 with S0 by (by rewrite <-!app_assoc) end end.
  rewrite Hp. cbn [mbind option_bind].
  assert (take i X = take i old) as Htake.
  { destruct Hi2 as [->| ->]; [done|]. rewrite length_take in Hli. apply (f_equal (take (length old))) in Htk.
    rewrite !take_take, Nat.min_l, Nat.min_l in Htk by (rewrite ?length_app; lia). rewrite Htk. by rewrite take_app_length, firstn_all. }
  rewrite Htake in *. set (val' := take i old ++ val) in *.
  exists 0, [], (P ++ TProp no val' vpad' :: Q), tail'. rewrite add_strs_nil.
  assert (Forall tok_ok (P ++ TProp no val' vpad' :: Q)) as Hts.
  { rewrite E, Forall_app, Forall_cons in Ht. rewrite Forall_app, Forall_cons. tauto. }
  split_and!; [done|done|done| |].
  { rewrite <-E in Hk1. apply (kept_trans _ _ _ _ Hk1), (kept_same fr _ _ tail' Hok1). rewrite encs_app, enc_prop, !length_app, !be_bytes4_length.
    assert (length val' = i + length val)%nat as Hlv by (subst val'; rewrite length_app; lia).
    pose proof (prop_aligned _ _ _ Htok') as Hpa. rewrite length_app, Hlv, Nat2Z.inj_add in Hpa. unfold newlen in HX. lia. }
  right. split; [done|]. exists (app_items b1 (Property no val' vpad' b2)). rewrite app_nil_r. split_and!.
  - exists pre, pad, post. split_and!; [rewrite E, Hbb|done|done|]; rewrite toks_app; cbn [toks]; subst P Q; by repeat (rewrite <-?app_assoc; cbn [app]).
  - rewrite Hbb in Hnames. by apply (names_in_value _ _ _ old vpad).
  - split.
    + intros s. rewrite Hbb, !child_app. destruct (child s b1); [done|]. by rewrite !child_property.
    + intros m. rewrite (prop_value_images (l := []) m _ Hok Hok2); [|by rewrite app_nil_r|rewrite Hbb in Hnames; by apply (names_in_value _ _ _ old vpad)].
      rewrite Hbb in Hv |- *. by rewrite (prop_value_pad _ _ _ _ _ _ vpad); apply prop_value_set.
Qed.

(** A property that is not there becomes the first of the node. *)
Lemma set_new val :
  prop_value (image fr (encs ts) tail) name b = None -> Z.of_nat (length val) + 20 < 2 ^ 31 ->
  updated fr ts tail off n b (Z.of_nat (length val) + Z.of_nat (length name) + 16) (has_value (image fr (encs ts) tail) b name val)
    ('(err, fdt, prop) ← _fdt_add_property (image fr (encs ts) tail) off name (Z.of_nat (length val));
     if negb (err =? 0) then Some (err, fdt) else fdt ← poke fdt (prop + 12) val; Some (0, fdt)).
Proof.
  intros Hv Hlen. destruct Hat as (pre & pad & post & E & Hin & Hoff). set (Q := toks b ++ TEnd :: post) in *. set (P := pre ++ [TBegin n pad]).
  pose proof Hok as Hok0. pose proof Ht as Ht0. rewrite E in Hok0, Ht0.
  destruct (add_property_image fr pre n pad Q tail name (Z.of_nat (length val)) Hok0 Ht0 Hname)
    as (l & tail1 & Hk1 & Hok1 & [(p & Hr & Hlt)|(no & X & tail2 & Hr & HX & Hno & Hs & Hok2 & Hk2)]); [lia|lia| |].
  all: rewrite <-E in Hr, Hk1, Hok1; rewrite <-Hoff in Hr; rewrite Hr; cbn [mbind option_bind].
  - rewrite <-E in Hlt. exists (- FDT_ERR_NOSPACE), l, ts, tail1. split_and!; try done. left. split_and!; [done|done|lia].
  - rewrite <-E in Hk2. change (0 =? 0) with true. cbn [negb]. fold P in Hok2, Hk2 |- *.
    destruct (finish_property (add_strs fr l) P (be_bytes4 FDT_PROP) (be_bytes4 (Z.of_nat (length val))) (be_bytes4 no) no X Q tail2 val 0) as (vpad & Htok & _ & Hp & Hok3);
      try done; [unfold word; lia|lia|].
    rewrite take_0 in Htok, Hp, Hok3. cbn [app] in Htok, Hp, Hok3. rewrite Z.add_0_l, Z.add_0_r in Hp. change (base (add_strs fr l)) with (base fr) in Hp. rewrite Hp. cbn [mbind option_bind].
    exists 0, l, (P ++ TProp no val vpad :: Q), tail2.
    assert (Forall tok_ok (P ++ TProp no val vpad :: Q)) as Hts.
    { subst P. rewrite Forall_app, Forall_cons in Ht0. rewrite !Forall_app, !Forall_cons. pose proof (Forall_nil_2 tok_ok). tauto. }
    split_and!; [done|done|done| |].
    { apply (kept_trans _ _ _ _ Hk2), (kept_same (add_strs fr l) _ _ tail2 Hok2). rewrite encs_app, enc_prop, !length_app, !be_bytes4_length.
      pose proof (prop_aligned _ _ _ Htok) as Hpa. rewrite length_app in Hpa. lia. }
    assert (names_in (strs fr ++ l) (Property no val vpad b)) as Hn'.
    { split_and!; [lia|by eexists|by apply names_in_app]. }
    right. split; [done|]. exists (Property no val vpad b). split_and!; [|done|split].
    + exists pre, pad, post. split_and!; [done|done|done|]. subst P Q. cbn [toks]. by repeat (rewrite <-?app_assoc; cbn [app]).
    + intros s. apply child_property.
    + intros m. unfold prop_value at 1. cbn [find_prop]. rewrite (prop_name_image Hok3 no name Hs).
      destruct (decide (m = name)) as [->|Hne]; [by rewrite !bool_decide_true|]. rewrite !bool_decide_false by congruence.
      rewrite find_prop_shift. by apply (prop_value_images (l := l) m _ Hok Hok3).
Qed.
End setprop.

Lemma updated_room fr ts tail off n b room room' Q r :
  room <= room' -> updated fr ts tail off n b room Q r -> updated fr ts tail off n b room' Q r.
Proof.
  intros Hle (err & l & ts' & tail' & H1 & H2 & H3 & H4 & [(H5 & H6 & H7)|H]); exists err, l, ts', tail'; split_and!; try done; [|by right].
  left. split_and!; [done|done|lia].
Qed.

Lemma get_property_none fr ts tail off n b name :
  image_ok fr (encs ts) tail -> Forall tok_ok ts -> node_at ts off n b -> names_in (strs fr) b -> Forall (λ c, c <> 0) name ->
  prop_value (image fr (encs ts) tail) name b = None ->
  fdt_get_property (image fr (encs ts) tail) off name = Some (inl (- FDT_ERR_NOTFOUND)).
Proof.
  intros Hok Ht (pre & pad & post & E & Hin & ->) Hnm Hs Hv. pose proof (image_blob _ _ _ Hok Ht) as HB.
  rewrite (get_property_tree HB _ _ _ _ _ _ E Hin (names_named Hok _ Hnm) Hs).
  rewrite <-(find_prop_shift _ name (size_of (pre ++ [TBegin n pad]))) in Hv. by destruct (find_prop _ name _ b) as [[? ?]|].
Qed.

Lemma splice_struct_error fdt p oldlen newlen err fdt' :
  _fdt_splice_struct fdt p oldlen newlen = Some (err, fdt') -> err = 0 \/ err = - FDT_ERR_NOSPACE \/ err = - FDT_ERR_BADOFFSET.
Proof.
  unfold _fdt_splice_struct, on_success. intros H. destruct (_fdt_splice fdt p oldlen newlen) as [[e f]|] eqn:Hs; [|done]. cbn [mbind option_bind] in H.
  destruct (Z.eqb_spec e 0) as [->|Hne].
  - left. destruct (fdt_size_dt_struct f); [|done]. cbn [mbind option_bind] in H. destruct (fdt_set_size_dt_struct f _) as [f'|]; [|done]. cbn [mbind option_bind] in H.
    destruct (fdt_off_dt_strings f'); [|done]. cbn [mbind option_bind] in H. destruct (fdt_set_off_dt_strings f' _); [|done]. by injection H.
  - injection H as <- <-. unfold _fdt_splice in Hs. destruct (_fdt_data_size fdt); [|done]. cbn [mbind option_bind] in Hs. case_test_in Hs; [injection Hs as <- _; auto|].
    destruct (fdt_totalsize fdt); [|done]. cbn [mbind option_bind] in Hs. case_test_in Hs; [injection Hs as <- _; auto|]. destruct (move _ _ _ _); [|done]. by injection Hs as <- _.
Qed.

(** C18. [fdt_setprop] sets the property: afterwards the node has the value,
    whether the property was there (its value may grow or shrink) or not (a name
    that is new is put into the strings block), and everything else in the tree is as before; when
    there is not enough room the result is [-FDT_ERR_NOSPACE] and the tree is
    unchanged.  The blob stays well formed and nothing behind its total size is
    written. *)
Theorem fdt_setprop_tree fr ts tail off n b name val :
  image_ok fr (encs ts) tail -> Forall tok_ok ts -> node_at ts off n b -> names_in (strs fr) b ->
  Forall (λ c, c <> 0) name -> Z.of_nat (length val) + 20 < 2 ^ 31 ->
  updated fr ts tail off n b (Z.of_nat (length val) + Z.of_nat (length name) + 16)
    (has_value (image fr (encs ts) tail) b name val) (fdt_setprop (image fr (encs ts) tail) off name val).
Proof.
  intros Hok Ht Hat Hnm Hs Hlen. unfold fdt_setprop, on_success. rewrite (image_header Hok). cbn [mbind option_bind]. change (0 =? 0) with true. cbv iota.
  unfold _fdt_resize_property. destruct (prop_value (image fr (encs ts) tail) name b) as [old|] eqn:Hv.
  - destruct (set_existing Hok Ht Hat Hnm Hs old val 0 Hv) as (prop & -> & HR); [lia|by left|lia|]. cbn [mbind option_bind].
    rewrite Z.add_0_r in HR. revert HR. unfold on_success.
    destruct (_fdt_splice_struct _ _ _ _) as [[err fdt]|] eqn:Hsp; [|by intros (? & ? & ? & ? & ? & _)]. cbn [mbind option_bind].
    apply splice_struct_error in Hsp. rewrite Z.add_0_l. destruct (Z.eqb_spec err 0) as [->|Hne].
    + destruct (wr32 fdt _ _); [|by intros (? & ? & ? & ? & ? & _)]. cbn [mbind option_bind Z.eqb negb FDT_ERR_NOTFOUND Z.opp]. apply updated_room. lia.
    + cbn [mbind option_bind]. rewrite (proj2 (Z.eqb_neq err (- FDT_ERR_NOTFOUND))) by (destruct Hsp as [?|[?|?]]; subst; done).
      cbn [mbind option_bind]. rewrite (proj2 (Z.eqb_neq err 0)) by done. cbn [negb].
      apply updated_room. lia.
  - rewrite (get_property_none _ _ _ _ _ _ _ Hok Ht Hat Hnm Hs Hv). cbn [mbind option_bind]. change (- FDT_ERR_NOTFOUND =? - FDT_ERR_NOTFOUND) with true. cbv iota.
    apply (set_new Hok Ht Hat Hnm Hs val Hv). lia.
Qed.

(** [fdt_appendprop] appends: a property that is there gets the new bytes
    behind its value, one that is not becomes a property with them; otherwise as
    for [fdt_setprop]. *)
Theorem fdt_appendprop_tree fr ts tail off n b name val :
  image_ok fr (encs ts) tail -> Forall tok_ok ts -> node_at ts off n b -> names_in (strs fr) b ->
  Forall (λ c, c <> 0) name ->
  let old := default [] (prop_value (image fr (encs ts) tail) name b) in
  Z.of_nat (length old) + Z.of_nat (length val) + 20 < 2 ^ 31 ->
  updated fr ts tail off n b (Z.of_nat (length old) + Z.of_nat (length val) + Z.of_nat (length name) + 16)
    (has_value (image fr (encs ts) tail) b name (old ++ val)) (fdt_appendprop (image fr (encs ts) tail) off name val).
Proof.
  intros Hok Ht Hat Hnm Hs. unfold fdt_appendprop, on_success at 1. rewrite (image_header Hok). cbn [mbind option_bind]. change (0 =? 0) with true. cbv iota.
  destruct (prop_value (image fr (encs ts) tail) name b) as [old|] eqn:Hv; cbn [default from_option id]; intros Hlen.
  - destruct (set_existing Hok Ht Hat Hnm Hs old val (length old) Hv) as (prop & -> & HR); [lia|by right|lia|]. cbn [mbind option_bind].
    rewrite firstn_all in HR. assert (s32 (Z.of_nat (length val) + Z.of_nat (length old)) = Z.of_nat (length old) + Z.of_nat (length val)) as ->
      by (unfold s32, swrap; rewrite Z.mod_small by lia; lia).
    eapply updated_room; [|exact HR]. lia.
  - rewrite (get_property_none _ _ _ _ _ _ _ Hok Ht Hat Hnm Hs Hv). cbn [mbind option_bind length] in *. cbn [app].
    eapply updated_room; [|apply (set_new Hok Ht Hat Hnm Hs val Hv)]; lia.
Qed.

(** ** An example *)

(** The tree of [FdtTree], in a buffer with room. *)
Definition ex_frame : frame := Frame 200 40 16 0 (replicate 16 0) [] [97; 0; 98; 0].
Definition ex_image : list Z := image ex_frame (encs ex_toks) (replicate 100 0).

Lemma ex_image_ok : image_ok ex_frame (encs ex_toks) (replicate 100 0).
Proof. split; vm_compute; intuition discriminate. Qed.

Lemma ex_toks_ok : Forall tok_ok ex_toks.
Proof. exact (blob_toks _ _ _ ex_blob). Qed.

Lemma ex_names : names_in (strs ex_frame) ex_body.
Proof. cbn [names_in ex_body]. split_and!; try lia; try done; eexists; vm_compute; reflexivity. Qed.

(** The property [a] of the root grows. *)
Lemma fdt_setprop_tree_witness :
  updated ex_frame ex_toks (replicate 100 0) 0 [] ex_body 22 (has_value ex_image ex_body (chars "a") [1; 2; 3; 4; 5])
    (fdt_setprop ex_image 0 (chars "a") [1; 2; 3; 4; 5]).
Proof.
  apply (fdt_setprop_tree ex_frame ex_toks (replicate 100 0) 0 [] ex_body (chars "a") [1; 2; 3; 4; 5]).
  - exact ex_image_ok.
  - exact ex_toks_ok.
  - exact (root_at [] [0; 0; 0] ex_body).
  - exact ex_names.
  - repeat constructor; discriminate.
  - cbn. lia.
Defined.

(** The property [c] is new. *)
Lemma fdt_appendprop_tree_witness :
  updated ex_frame ex_toks (replicate 100 0) 0 [] ex_body 18 (has_value ex_image ex_body (chars "c") [9])
    (fdt_appendprop ex_image 0 (chars "c") [9]).
Proof.
  apply (fdt_appendprop_tree ex_frame ex_toks (replicate 100 0) 0 [] ex_body (chars "c") [9]).
  - exact ex_image_ok.
  - exact ex_toks_ok.
  - exact (root_at [] [0; 0; 0] ex_body).
  - exact ex_names.
  - repeat constructor; discriminate.
  - vm_compute. reflexivity.
Defined.
