(* ===== verification/FdtNodes.v ===== *)
(** * Adding and removing nodes ([lib/libfdt/fdt_rw.c])

    The rest of [fdt_rw.c] on trees: deletions, new nodes and new names. *)

From S2P Require Import Prelude Crc Bytes Ctype Cstring Hashtable Fdt FdtTree FdtWip FdtEdit FdtRw FdtImage FdtUpdate.

(** ** Deletions *)

(** Whole tokens are cut out. *)
Lemma cut_tokens fr P M Q tail p :
  image_ok fr (encs (P ++ M ++ Q)) tail -> p = base fr + size_of P ->
  ∃ tail', _fdt_splice_struct (image fr (encs (P ++ M ++ Q)) tail) p (size_of M) 0 = Some (0, image fr (encs (P ++ Q)) tail')
    /\ image_ok fr (encs (P ++ Q)) tail' /\ kept fr (image fr (encs (P ++ M ++ Q)) tail) (image fr (encs (P ++ Q)) tail').
Proof.
  intros Hok ->. rewrite !encs_app in *. unfold size_of.
  destruct (splice_struct_image fr (encs P) (encs M) (encs Q) tail 0 Hok) as [[Hlt _]|(_ & X & tail' & Hr & HX & _ & Hok' & Hk)]; [lia| |].
  - destruct Hok as [_ _ _ Htot _]. unfold data_end in *. rewrite !length_app in *. lia.
  - destruct X; [|cbn in HX; lia]. cbn [app] in *. by exists tail'.
Qed.

(** A deletion: the contents of one node change and nothing else does. *)
Definition deleted (fr : frame) (ts : list token) (tail : list Z) (off : Z) (n : cstr) (b b' : items) (r : option (Z * list Z)) : Prop :=
  ∃ ts' tail', r = Some (0, image fr (encs ts') tail') /\ image_ok fr (encs ts') tail' /\ Forall tok_ok ts'
    /\ kept fr (image fr (encs ts) tail) (image fr (encs ts') tail') /\ replaced ts off n b ts' b'.

(** [fdt_delprop] removes exactly the first property of the name from the
    node, or reports that there is none and changes nothing; it never fails for
    lack of room, and nothing behind the total size is written. *)
Theorem fdt_delprop_tree fr ts tail off n b name :
  image_ok fr (encs ts) tail -> Forall tok_ok ts -> node_at ts off n b -> names_in (strs fr) b -> Forall (λ c, c <> 0) name ->
  let fdt := image fr (encs ts) tail in
  match prop_value fdt name b with
  | None => fdt_delprop fdt off name = Some (- FDT_ERR_NOTFOUND, fdt)
  | Some _ => deleted fr ts tail off n b (remove_prop fdt name b) (fdt_delprop fdt off name)
  end.
Proof.
  intros Hok Ht Hat Hnm Hs fdt. unfold fdt_delprop, on_success. subst fdt. rewrite (image_header Hok). cbn [mbind option_bind]. change (0 =? 0) with true. cbv iota.
  pose proof (image_blob _ _ _ Hok Ht) as HB. destruct (prop_value (image fr (encs ts) tail) name b) as [val|] eqn:Hv.
  - destruct (property_found HB _ _ _ _ _ Hat (names_named Hok _ Hnm) Hs Hv) as (pre & pad & post & b1 & no & vpad & b2 & E & Hoff & Hin & Hbb & Hrm & _ & _ & _ & ->).
    cbn [mbind option_bind]. set (P := pre ++ TBegin n pad :: toks b1) in *. set (Q := toks b2 ++ TEnd :: post) in *.
    assert (tok_ok (TProp no val vpad)) as Htok by (eapply (token_ok HB); exact E).
    destruct (prop_holds HB _ _ _ _ _ E) as (_ & _ & _ & Hb). pose proof (blob_small _ _ _ HB). pose proof (size_pos P).
    rewrite (prop_aligned _ _ _ Htok) by lia.
    assert (s32 (12 + Z.of_nat (length (val ++ vpad))) = size_of [TProp no val vpad]) as ->.
    { pose proof (token_fits HB _ _ _ E) as Hf. rewrite size_of_cons, size_of_nil. cbn [enc] in *. rewrite !length_app, !be_bytes4_length in *. unfold s32, swrap. rewrite Z.mod_small by lia. lia. }
    pose proof Hok as Hok0. rewrite E in Hok0. destruct (cut_tokens fr P _ Q tail _ Hok0 eq_refl) as (tail' & Hr & Hok' & Hk). rewrite <-E in Hr, Hk.
    exists (P ++ Q), tail'. split_and!; [done|done| |done|].
    + rewrite E in Ht. rewrite !Forall_app in *. tauto.
    + exists pre, pad, post. rewrite Hrm, toks_app. subst P Q. split_and!; [rewrite E, Hbb, toks_app; cbn [toks]|done|done|]; by repeat (rewrite <-?app_assoc; cbn [app]).
  - by rewrite (get_property_none _ _ _ _ _ _ _ Hok Ht Hat Hnm Hs Hv).
Qed.

(** C20. [fdt_del_node] at a child that was found removes exactly that child, with
    all it contains; it always succeeds, and nothing behind the total size is
    written. *)
Theorem fdt_del_node_tree fr ts tail off n b s n' b' :
  image_ok fr (encs ts) tail -> Forall tok_ok ts -> node_at ts off n b ->
  Forall (λ c, c <> 0) s -> Z.of_nat (length s) + 1 < 2 ^ 31 -> child s b = Some (n', b') ->
  let fdt := image fr (encs ts) tail in
  ∃ off', fdt_subnode_offset_namelen fdt off s = Some off'
    /\ deleted fr ts tail off n b (remove_child s b) (fdt_del_node fdt off').
Proof.
  intros Hok Ht (pre & pad & post & E & Hin & ->) Hs Hl Hc fdt. subst fdt. pose proof (image_blob _ _ _ Hok Ht) as HB.
  rewrite (subnode_offset_scan HB _ _ _ _ s E (fin_in _ _ Hin) Hs Hl), sub_scan_children.
  rewrite <-(find_child_shift s (size_of (pre ++ [TBegin n pad]))) in Hc.
  destruct (find_child s _ b) as [[o [n2 b2]]|] eqn:Hf; cbn [fmap option_fmap option_map snd] in Hc; [injection Hc as -> ->|done].
  destruct (child_split _ _ _ _ _ _ Hf) as (c1 & cpad & c2 & Hb & -> & Hrm). eexists. split; [done|].
  set (P := pre ++ TBegin n pad :: toks c1). set (M := TBegin n' cpad :: toks b' ++ [TEnd]). set (Q := toks c2 ++ TEnd :: post).
  assert (ts = P ++ M ++ Q) as E2 by (rewrite E, Hb, toks_app; cbn [toks]; subst P M Q; by repeat (rewrite <-?app_assoc; cbn [app])).
  assert (ts = P ++ TBegin n' cpad :: toks b' ++ TEnd :: Q) as E3 by (rewrite E2; subst M; by repeat (rewrite <-?app_assoc; cbn [app])).
  assert (size_of (pre ++ [TBegin n pad]) + size_of (toks c1) = size_of P) as -> by (subst P; rewrite !size_of_app, !size_of_cons, size_of_nil; lia).
  unfold fdt_del_node, on_success. rewrite (image_header Hok). cbn [mbind option_bind]. change (0 =? 0) with true. cbv iota.
  rewrite (node_end_tree HB _ _ _ _ _ E3) by (by apply fin_in). fold M. cbn [mbind option_bind].
  pose proof (size_pos P). pose proof (size_pos M). rewrite (proj2 (Z.ltb_ge _ 0)) by lia.
  rewrite (offset_ptr_ok HB). cbn [mbind option_bind]. replace (size_of P + size_of M - size_of P) with (size_of M) by lia.
  pose proof Hok as Hok0. rewrite E2 in Hok0. destruct (cut_tokens fr P M Q tail _ Hok0 eq_refl) as (tail' & Hr & Hok' & Hk). rewrite <-E2 in Hr, Hk.
  exists (P ++ Q), tail'. split_and!; [done|done| |done|].
  - rewrite E2 in Ht. rewrite !Forall_app in *. tauto.
  - exists pre, pad, post. rewrite Hrm, toks_app. subst P Q. split_and!; [done|done|done|]. by repeat (rewrite <-?app_assoc; cbn [app]).
Qed.

(** ** New nodes *)

(** The properties of a node, and what follows them. *)
Fixpoint props_of (b : items) : items :=
  match b with
  | Nop rest => Nop (props_of rest)
  | Property nameoff val pad rest => Property nameoff val pad (props_of rest)
  | _ => Nil
  end.

Fixpoint nodes_of (b : items) : items :=
  match b with Nop rest | Property _ _ _ rest => nodes_of rest | _ => b end.

Lemma props_nodes b : app_items (props_of b) (nodes_of b) = b.
Proof. induction b as [|r IH|? ? ? r IH|]; cbn [props_of nodes_of app_items]; congruence. Qed.

Lemma child_props s b : child s (props_of b) = None.
Proof.
  induction b as [|r IH|? ? ? r IH|]; [done| | |done]; rewrite <-IH; unfold child at 1; cbn [props_of find_child]; apply find_child_shift.
Qed.

(** Nodes do not change what comes before them. *)
Lemma prop_value_props fdt m b name pad body :
  prop_value fdt m (app_items (props_of b) (Node name pad body (nodes_of b))) = prop_value fdt m (app_items (props_of b) (nodes_of b)).
Proof.
  induction b as [|r IH|no v pd r IH|]; cbn [props_of nodes_of app_items] in *; unfold prop_value in *; cbn [find_prop] in *; rewrite ?find_prop_shift in *; [done|done| |done].
  case_bool_decide; rewrite ?find_prop_shift; done.
Qed.

Lemma names_in_items strs b1 b2 : names_in strs (app_items b1 b2) <-> names_in strs b1 /\ names_in strs b2.
Proof. induction b1 as [|r IH|? ? ? r IH|? ? b _ r IH]; cbn [app_items names_in]; rewrite ?IH; tauto. Qed.

Lemma after_props_spec {fdt bs ts} (HB : blob fdt bs ts) fuel pre b post :
  ts = pre ++ toks b ++ TEnd :: post -> (length (toks b) < fuel)%nat ->
  after_props fuel fdt (size_of pre) = Some (size_of (pre ++ toks (props_of b))).
Proof.
  revert fuel pre. induction b as [|r IH|no v pd r IH|n pad body _ r _]; intros fuel pre E Hf; (destruct fuel as [|fuel]; [lia|]); cbn [after_props toks app props_of length] in *;
    rewrite (next_tag_spec HB _ _ _ E); cbn [mbind option_bind tag_of].
  - by rewrite app_nil_r.
  - cbn [Z.eqb Pos.eqb FDT_NOP FDT_PROP orb]. rewrite (IH fuel (pre ++ [TNop])); [by rewrite <-app_assoc|by rewrite E, <-app_assoc|lia].
  - cbn [Z.eqb Pos.eqb FDT_NOP FDT_PROP orb]. rewrite (IH fuel (pre ++ [TProp no v pd])); [by rewrite <-app_assoc|by rewrite E, <-app_assoc|lia].
  - by rewrite app_nil_r.
Qed.

(** The bytes of an empty node are written. *)
Lemma write_node fr A l1 Y l3 B tail name k (o : Z) :
  length l1 = 4%nat -> length l3 = 4%nat -> length Y = (length name + k)%nat -> (0 < k)%nat ->
  let nh := base fr + Z.of_nat (length A) in
  (fdt ← wr32 (image fr (A ++ (l1 ++ Y ++ l3) ++ B) tail) nh FDT_BEGIN_NODE;
   fdt ← poke fdt (nh + 4) (replicate (length name + k) 0);
   fdt ← poke fdt (nh + 4) name;
   fdt ← wr32 fdt (nh + (4 + Z.of_nat (length name + k) + 4) - 4) FDT_END_NODE;
   Some (o, fdt))
  = Some (o, image fr (A ++ encs [TBegin name (replicate (k - 1) 0); TEnd] ++ B) tail).
Proof.
  intros H1 H3 HY Hk nh. subst nh. rewrite <-!app_assoc. rewrite (wr32_image fr A l1) by done. cbn [mbind option_bind].
  rewrite (app_assoc A). rewrite (poke_image fr _ Y) by (rewrite ?length_replicate, ?length_app, ?be_bytes4_length; lia). cbn [mbind option_bind].
  rewrite replicate_add, <-(app_assoc (replicate (length name) 0)).
  rewrite (poke_image fr _ (replicate (length name) 0)) by (rewrite ?length_replicate, ?length_app, ?be_bytes4_length; lia). cbn [mbind option_bind].
  rewrite (app_assoc (A ++ _) name), (app_assoc _ (replicate k 0)).
  rewrite (wr32_image fr _ l3) by (done || (rewrite !length_app, length_replicate, be_bytes4_length; lia)).
  cbn [mbind option_bind]. destruct k as [|k]; [lia|]. cbn [replicate]. rewrite Nat.sub_succ, Nat.sub_0_r. unfold encs. cbn [map concat enc]. rewrite app_nil_r.
  change (u32 FDT_BEGIN_NODE) with FDT_BEGIN_NODE. change (u32 FDT_END_NODE) with FDT_END_NODE. by repeat (rewrite <-?app_assoc; cbn [app]).
Qed.

(** An empty node is inserted between tokens. *)
Lemma insert_node fr P Q tail name (o : Z) :
  let fdt := image fr (encs (P ++ Q)) tail in
  let nh := base fr + size_of P in
  let len := FDT_TAGALIGN (Z.of_nat (length name) + 1) in
  let nodelen := s32 (4 + len + 4) in
  let r := on_success (_fdt_splice_struct fdt nh 0 nodelen) pair
    (λ fdt, fdt ← wr32 fdt nh FDT_BEGIN_NODE; fdt ← poke fdt (nh + 4) (replicate (Z.to_nat len) 0); fdt ← poke fdt (nh + 4) name;
            fdt ← wr32 fdt (nh + nodelen - 4) FDT_END_NODE; Some (o, fdt)) in
  image_ok fr (encs (P ++ Q)) tail -> Forall tok_ok (P ++ Q) -> Forall (λ c, c <> 0) name -> Z.of_nat (length name) + 20 < 2 ^ 31 ->
  (r = Some (- FDT_ERR_NOSPACE, fdt) /\ total fr < data_end fr (encs (P ++ Q)) + Z.of_nat (length name) + 12)
  \/ ∃ pad tail', let ts' := P ++ [TBegin name pad; TEnd] ++ Q in
       r = Some (o, image fr (encs ts') tail') /\ image_ok fr (encs ts') tail' /\ Forall tok_ok ts' /\ kept fr fdt (image fr (encs ts') tail').
Proof.
  intros fdt nh len nodelen r Hok Ht Hs Hlen. subst r nodelen len nh fdt.
  destruct (tagalign_pad (Z.of_nat (length name) + 1)) as (k & Hk & Hk4 & Hmod); [lia|lia|].
  assert (FDT_TAGALIGN (Z.of_nat (length name) + 1) = Z.of_nat (length name + (k + 1))) as Hal by lia. rewrite Hal, Nat2Z.id.
  assert (s32 (4 + Z.of_nat (length name + (k + 1)) + 4) = 4 + Z.of_nat (length name + (k + 1)) + 4) as -> by (unfold s32, swrap; rewrite Z.mod_small by lia; lia).
  rewrite encs_app in Hok |- *. unfold on_success.
  destruct (splice_struct_image fr (encs P) [] (encs Q) tail (4 + Z.of_nat (length name + (k + 1)) + 4) Hok) as [[Hlt Hr]|(_ & X & tail' & Hr & HX & _ & Hok' & Hk')]; [lia| |];
    cbn [length app] in Hr; change (Z.of_nat 0) with 0 in Hr; change (size_of P) with (Z.of_nat (length (encs P))); rewrite Hr; cbn [mbind option_bind].
  - left. split; [done|]. lia.
  - right. change (0 =? 0) with true. cbv iota.
    destruct (split_length X 4) as (l1 & X1 & -> & Hl1); [lia|]. rewrite length_app in HX.
    destruct (split_length X1 (length name + (k + 1))) as (Y & l3 & -> & HY); [lia|]. rewrite length_app in HX.
    rewrite write_node by (done || lia). rewrite Nat.add_sub. exists (replicate k 0), tail'. set (M := [TBegin name (replicate k 0); TEnd]). rewrite <-!encs_app.
    assert (length (encs M) = length (l1 ++ Y ++ l3)) as HM.
    { subst M. unfold encs. cbn [map concat enc]. rewrite !length_app, !be_bytes4_length, length_replicate, HY. cbn [length]. lia. }
    split_and!; [done| | |].
    + destruct Hok' as [? ? ? Ht1 Ht2]. unfold data_end in Ht1, Ht2. rewrite !length_app in HM. rewrite !length_app in Ht1. rewrite !length_app in Ht2.
      split; try done; unfold data_end; rewrite !encs_app, !length_app, HM; lia.
    + rewrite Forall_app in Ht. rewrite !Forall_app. split_and!; [tauto| |tauto]. subst M. apply Forall_cons. split; [|apply Forall_cons; split; [done|by apply Forall_nil]].
      cbn [tok_ok]. rewrite length_replicate. split_and!; [done|lia|]. apply Nat2Z.inj. rewrite Nat2Z.inj_mod. etrans; [|exact Hmod]. f_equal. lia.
    + cbn [app] in Hk'. rewrite <-(encs_app P Q) in Hk'. apply (kept_trans _ _ _ _ Hk'), (kept_same fr _ _ tail' Hok'). rewrite !encs_app, !length_app, HM, !length_app. lia.
Qed.

(** C19. [fdt_add_subnode] adds an empty node: if no child matches the name, the
    result is the offset of a new node that has the name and is empty; it is
    found by its name from then on, and the other children and the properties are as
    before.  If a child matches, the result is [-FDT_ERR_EXISTS]; without enough
    room it is [-FDT_ERR_NOSPACE]; in both cases the tree is unchanged. *)
Theorem fdt_add_subnode_tree fr ts tail off n b name :
  image_ok fr (encs ts) tail -> Forall tok_ok ts -> node_at ts off n b -> names_in (strs fr) b ->
  Forall (λ c, c <> 0) name -> Z.of_nat (length name) + 20 < 2 ^ 31 ->
  let fdt := image fr (encs ts) tail in
  match child name b with
  | Some _ => fdt_add_subnode fdt off name = Some (- FDT_ERR_EXISTS, fdt)
  | None =>
      (fdt_add_subnode fdt off name = Some (- FDT_ERR_NOSPACE, fdt) /\ total fr < data_end fr (encs ts) + Z.of_nat (length name) + 12)
      \/ ∃ off' ts' tail' b',
           let fdt' := image fr (encs ts') tail' in
           fdt_add_subnode fdt off name = Some (off', fdt') /\ image_ok fr (encs ts') tail' /\ Forall tok_ok ts' /\ kept fr fdt fdt'
           /\ replaced ts off n b ts' b' /\ node_at ts' off' name Nil
           /\ (∀ s, child s b' = if name_matches name s then Some (name, Nil) else child s b)
           /\ (∀ m, prop_value fdt' m b' = prop_value fdt m b)
  end.
Proof.
  intros Hok Ht Hat Hnm Hs Hlen fdt. pose proof (image_blob _ _ _ Hok Ht) as HB. fold fdt in HB.
  pose proof (subnode_tree HB off n b name Hat Hs ltac:(lia)) as Hsub.
  assert (_fdt_rw_check_header fdt = Some (0, fdt)) as Hh by apply (image_header Hok).
  unfold fdt_add_subnode, fdt_add_subnode_namelen, on_success. rewrite Hh. cbn [mbind option_bind]. change (0 =? 0) with true. cbv iota. clear Hh.
  destruct (child name b) as [[n1 b1]|] eqn:Hc.
  { destruct Hsub as (o & -> & Ho & _). cbn [mbind option_bind]. by rewrite (proj2 (Z.leb_le 0 o)) by (by eapply node_at_pos). }
  rewrite Hsub. cbn [mbind option_bind]. change (0 <=? - FDT_ERR_NOTFOUND) with false. change (negb (- FDT_ERR_NOTFOUND =? - FDT_ERR_NOTFOUND)) with false. cbv iota.
  destruct Hat as (pre & pad & post & E & Hin & ->). rewrite (next_tag_spec HB _ _ _ E). cbn [mbind option_bind].
  rewrite (after_props_spec HB _ (pre ++ [TBegin n pad]) b post); [|by rewrite E, <-app_assoc|].
  2: { pose proof (rest_bound HB _ _ E) as Hb. cbn [length] in Hb. rewrite length_app in Hb. lia. }
  cbn [mbind option_bind]. rewrite (offset_ptr_ok HB). cbn [mbind option_bind].
  set (P := (pre ++ [TBegin n pad]) ++ toks (props_of b)). set (Q := toks (nodes_of b) ++ TEnd :: post).
  assert (ts = P ++ Q) as E2.
  { rewrite E. rewrite <-(props_nodes b) at 1. rewrite toks_app. subst P Q. by repeat (rewrite <-?app_assoc; cbn [app]). }
  rewrite E2 in Hok, Ht. destruct (insert_node fr P Q tail name (size_of P) Hok Ht Hs Hlen) as [[Hr Hroom]|(pad' & tail' & Hr & Hok2 & Ht2 & Hk2)];
    rewrite <-E2 in *; unfold on_success in Hr; fold fdt in Hr; rewrite Hr; [by left|right].
  set (b' := app_items (props_of b) (Node name pad' Nil (nodes_of b))).
  exists (size_of P), (P ++ [TBegin name pad'; TEnd] ++ Q), tail', b'. split_and!; [done|done|done|done| | | |].
  - exists pre, pad, post. subst b'. rewrite toks_app. cbn [toks app]. split_and!; [done|done|done|]. subst P Q. by repeat (rewrite <-?app_assoc; cbn [app]).
  - exists P, pad', Q. split_and!; [done|by apply fin_in|done].
  - intros s. subst b'. rewrite child_app, child_props. unfold child at 1. cbn [find_child]. destruct (name_matches name s); [done|]. rewrite find_child_shift.
    rewrite <-(props_nodes b) at 2. by rewrite child_app, child_props.
  - intros m. subst fdt. rewrite (prop_value_images (l := []) m b' Hok Hok2); [|by rewrite app_nil_r|].
    + subst b'. rewrite <-(props_nodes b) at 3. apply prop_value_props.
    + subst b'. rewrite <-(props_nodes b) in Hnm. rewrite names_in_items in *. cbn [names_in]. tauto.
Qed.

(** ** New names *)

Lemma get_name_tree {fdt bs ts} (HB : blob fdt bs ts) pre n pad post :
  ts = pre ++ TBegin n pad :: post -> fdt_get_name fdt (size_of pre) = Some (inr n).
Proof.
  intros E. destruct (token_ok HB _ _ _ E) as (Hn & _ & _).
  unfold fdt_get_name, with_header. rewrite (header_ok HB). cbn [mbind option_bind]. change (0 =? 0) with true. cbv iota.
  rewrite (offset_ptr_ok HB). cbn [mbind option_bind]. rewrite (check_node_ok HB _ _ _ _ E). cbn [mbind option_bind].
  rewrite (proj2 (Z.ltb_ge _ 0)) by apply size_pos. pose proof (token_holds HB _ _ _ E) as Hh. cbn [enc] in Hh.
  apply holds_app in Hh as [_ Hh]. apply holds_app in Hh as [Hh _]. rewrite be_bytes4_length in Hh. change (Z.of_nat 4) with 4 in Hh.
  by rewrite (string_at_holds _ _ _ Hh Hn).
Qed.

(** [fdt_set_name] gives the node at an offset the new name and changes
    nothing else in the tree; without room for it the tree is unchanged. *)
Theorem fdt_set_name_tree fr pre old opad post tail name :
  let ts := pre ++ TBegin old opad :: post in
  let fdt := image fr (encs ts) tail in
  image_ok fr (encs ts) tail -> Forall tok_ok ts -> Forall (λ c, c <> 0) name -> Z.of_nat (length name) + 20 < 2 ^ 31 ->
  (fdt_set_name fdt (size_of pre) name = Some (- FDT_ERR_NOSPACE, fdt) /\ total fr < data_end fr (encs ts) + Z.of_nat (length name) + 4)
  \/ ∃ pad tail', let ts' := pre ++ TBegin name pad :: post in
       fdt_set_name fdt (size_of pre) name = Some (0, image fr (encs ts') tail') /\ image_ok fr (encs ts') tail' /\ Forall tok_ok ts'
       /\ kept fr fdt (image fr (encs ts') tail').
Proof.
  intros ts fdt Hok Ht Hn Hlen. pose proof (image_blob _ _ _ Hok Ht) as HB. fold fdt in HB.
  assert (_fdt_rw_check_header fdt = Some (0, fdt)) as Hh by apply (image_header Hok).
  unfold fdt_set_name, on_success. rewrite Hh. cbn [mbind option_bind]. change (0 =? 0) with true. cbv iota. clear Hh.
  rewrite (get_name_tree HB _ _ _ _ eq_refl). cbn [mbind option_bind]. rewrite (offset_ptr_ok HB). cbn [mbind option_bind].
  destruct (token_ok HB pre _ _ eq_refl) as (_ & Hop & Hom).
  set (A := encs pre ++ be_bytes4 FDT_BEGIN_NODE). set (X := (old ++ [0]) ++ opad).
  assert (encs ts = A ++ X ++ encs post) as ES.
  { subst ts A X. rewrite encs_app. unfold encs at 2. cbn [map concat enc]. by rewrite <-!app_assoc. }
  assert (Z.of_nat (length X) + 60 < 2 ^ 31) as HXs.
  { pose proof (ok_small _ _ _ Hok) as Hs. unfold data_end in Hs. rewrite ES in Hs. rewrite !length_app in Hs. unfold A, base in Hs. rewrite length_app, be_bytes4_length in Hs. destruct Hok as [[? ?] _ _ _ _]. unfold base in *. lia. }
  assert (FDT_TAGALIGN (Z.of_nat (length old) + 1) = Z.of_nat (length X)) as ->.
  { subst X. rewrite !length_app in *. cbn [length] in *. replace (Z.of_nat (length old + 1 + length opad)) with (Z.of_nat (length old) + 1 + Z.of_nat (length opad)) by lia.
    apply tagalign_spec; [lia|lia|lia|]. apply nat_mod4 in Hom. etrans; [|exact Hom]. f_equal. lia. }
  destruct (tagalign_pad (Z.of_nat (length name) + 1)) as (k & Hk & Hk4 & Hmod); [lia|lia|].
  assert (base fr + size_of pre + 4 = base fr + Z.of_nat (length A)) as -> by (subst A; rewrite length_app, be_bytes4_length; unfold size_of; lia).
  subst fdt. rewrite ES in *.
  destruct (splice_struct_image fr A X (encs post) tail (FDT_TAGALIGN (Z.of_nat (length name) + 1)) Hok) as [[Hlt Hr]|(_ & X' & tail' & Hr & HX & _ & Hok' & Hk')]; [lia| |];
    rewrite Hr; cbn [mbind option_bind].
  - left. split; [done|]. unfold data_end in *. rewrite !length_app in *. lia.
  - right. change (0 =? 0) with true. cbv iota. destruct (split_length X' (length name + 1)) as (Y & pad & -> & HY); [lia|]. rewrite length_app in HX.
    rewrite <-(app_assoc Y). rewrite (poke_image fr A Y) by (done || (rewrite length_app; cbn; lia)). cbn [mbind option_bind].
    exists pad, tail'. assert (encs (pre ++ TBegin name pad :: post) = A ++ (name ++ [0]) ++ pad ++ encs post) as ES'.
    { subst A. rewrite encs_app. unfold encs at 2. cbn [map concat enc]. by rewrite <-!app_assoc. }
    assert (length ((name ++ [0]) ++ pad ++ encs post) = length ((Y ++ pad) ++ encs post)) as HL by (rewrite !length_app, HY; cbn [length]; lia).
    rewrite ES'. split_and!; [done| | |].
    + destruct Hok' as [? ? ? Ht1 Ht2]. split; try done; unfold data_end in *; rewrite (length_app A), HL, <-length_app; done.
    + subst ts. rewrite Forall_app, Forall_cons in *. split_and!; try tauto. cbn [tok_ok]. split_and!; [done|lia|].
      apply Nat2Z.inj. rewrite Nat2Z.inj_mod. etrans; [|exact Hmod]. f_equal. lia.
    + apply (kept_trans _ _ _ _ Hk'), (kept_same fr _ _ tail' Hok'). by rewrite (length_app A), HL, <-length_app.
Qed.

(** ** The example *)

Lemma fdt_delprop_tree_witness :
  deleted ex_frame ex_toks (replicate 100 0) 0 [] ex_body (remove_prop ex_image (chars "a") ex_body) (fdt_delprop ex_image 0 (chars "a")).
Proof.
  apply (fdt_delprop_tree ex_frame ex_toks (replicate 100 0) 0 [] ex_body (chars "a")).
  - exact ex_image_ok.
  - exact ex_toks_ok.
  - exact (root_at [] [0; 0; 0] ex_body).
  - exact ex_names.
  - repeat constructor; discriminate.
Defined.

Lemma fdt_del_node_tree_witness :
  ∃ off', fdt_subnode_offset_namelen ex_image 0 (chars "cpu") = Some off'
    /\ deleted ex_frame ex_toks (replicate 100 0) 0 [] ex_body (remove_child (chars "cpu") ex_body) (fdt_del_node ex_image off').
Proof.
  apply (fdt_del_node_tree ex_frame ex_toks (replicate 100 0) 0 [] ex_body (chars "cpu") (chars "cpu@0") (Property 2 [] [] Nil)).
  - exact ex_image_ok.
  - exact ex_toks_ok.
  - exact (root_at [] [0; 0; 0] ex_body).
  - repeat constructor; discriminate.
  - cbn. lia.
  - vm_compute. reflexivity.
Defined.

Lemma fdt_add_subnode_tree_witness :
  (fdt_add_subnode ex_image 0 (chars "chosen") = Some (- FDT_ERR_NOSPACE, ex_image) /\ total ex_frame < data_end ex_frame (encs ex_toks) + 6 + 12)
  \/ ∃ off' ts' tail' b',
       let fdt' := image ex_frame (encs ts') tail' in
       fdt_add_subnode ex_image 0 (chars "chosen") = Some (off', fdt') /\ image_ok ex_frame (encs ts') tail' /\ Forall tok_ok ts'
       /\ kept ex_frame ex_image fdt' /\ replaced ex_toks 0 [] ex_body ts' b' /\ node_at ts' off' (chars "chosen") Nil
       /\ (∀ s, child s b' = if name_matches (chars "chosen") s then Some (chars "chosen", Nil) else child s ex_body)
       /\ (∀ m, prop_value fdt' m b' = prop_value ex_image m ex_body).
Proof.
  apply (fdt_add_subnode_tree ex_frame ex_toks (replicate 100 0) 0 [] ex_body (chars "chosen")).
  - exact ex_image_ok.
  - exact ex_toks_ok.
  - exact (root_at [] [0; 0; 0] ex_body).
  - exact ex_names.
  - repeat constructor; discriminate.
  - cbn. lia.
Defined.

(** The root of the example gets a name. *)
Lemma fdt_set_name_tree_witness :
  (fdt_set_name ex_image 0 (chars "board") = Some (- FDT_ERR_NOSPACE, ex_image) /\ total ex_frame < data_end ex_frame (encs ex_toks) + 5 + 4)
  \/ ∃ pad tail', let ts' := TBegin (chars "board") pad :: toks ex_body ++ [TEnd; TFin] in
       fdt_set_name ex_image 0 (chars "board") = Some (0, image ex_frame (encs ts') tail') /\ image_ok ex_frame (encs ts') tail' /\ Forall tok_ok ts'
       /\ kept ex_frame ex_image (image ex_frame (encs ts') tail').
Proof.
  apply (fdt_set_name_tree ex_frame [] [] [0; 0; 0] (toks ex_body ++ [TEnd; TFin]) (replicate 100 0) (chars "board")).
  - exact ex_image_ok.
  - exact ex_toks_ok.
  - repeat constructor; discriminate.
  - cbn. lia.
Defined.

(** ** More room *)

Definition with_total (fr : frame) (n : Z) : frame := Frame n (rsvoff fr) (last fr) (cpu fr) (rsv fr) (gap fr) (strs fr).

(** [fdt_open_into] of a blob onto itself, with the size of the buffer: the tree
    and everything else stay, only the total size grows (or shrinks to no less
    than it was).  [num] is the number of reservations. *)
Theorem fdt_open_into_grows fr S tail bufsize num :
  image_ok fr S tail -> fdt_num_mem_rsv (image fr S tail) = Some num -> 0 <= num -> rsvoff fr + 16 * (num + 1) <= base fr ->
  total fr <= bufsize <= data_end fr S + Z.of_nat (length tail) ->
  fdt_open_into (image fr S tail) 0 0 bufsize = Some (0, image (with_total fr bufsize) S tail) /\ image_ok (with_total fr bufsize) S tail.
Proof.
  intros Hok Hnum Hn0 Hrsv Hbuf. pose proof Hok as [[Ho1 Ho2] Hl Hc Ht Hs].
  assert (image_ok (with_total fr bufsize) S tail) as Hok'.
  { split; [done|done|done| |done]. unfold data_end, FdtImage.base in *. cbn [with_total total rsv gap strs]. lia. }
  split; [|done]. unfold fdt_open_into. change (Z.to_nat 0) with 0%nat. rewrite drop_0. unfold with_header at 1.
  pose proof (image_header Hok) as Hh. unfold _fdt_rw_check_header, with_header in Hh.
  destruct (fdt_check_header (image fr S tail)) as [err|] eqn:Hch; [|done]. cbn [mbind option_bind] in *. destruct (err =? 0) eqn:E; [|injection Hh as ->; done]. clear Hh.
  rewrite Hnum. cbn [mbind option_bind]. unfold fdt_version, fdt_size_dt_struct. rewrite (field Hok 5 _ 20 eq_refl), (field Hok 9 _ 36 eq_refl) by done. cbn [mbind option_bind Z.leb Z.compare Pos.compare Pos.compare_cont negb andb].
  unfold data_end, FdtImage.base in *.
  assert (s32 ((num + 1) * 16) = (num + 1) * 16) as -> by (unfold s32, swrap; rewrite Z.mod_small by lia; lia).
  assert (s32 (Z.of_nat (length S)) = Z.of_nat (length S)) as -> by (unfold s32, swrap; rewrite Z.mod_small by lia; lia).
  unfold _fdt_blocks_misordered, fdt_off_mem_rsvmap, fdt_off_dt_struct, fdt_off_dt_strings, fdt_size_dt_strings, fdt_totalsize.
  rewrite (field Hok 4 _ 16 eq_refl), (field Hok 2 _ 8 eq_refl), (field Hok 3 _ 12 eq_refl), (field Hok 8 _ 32 eq_refl), (field Hok 1 _ 4 eq_refl) by done. cbn [mbind option_bind].
  unfold FdtImage.base. rewrite !u32_small by lia. rewrite !(proj2 (Z.ltb_ge _ _)) by lia. cbn [orb negb].
  unfold at_buf. rewrite decide_True by lia. change (Z.to_nat 0) with 0%nat. rewrite drop_0, take_0.
  unfold on_success, fdt_move, with_header, fdt_totalsize. rewrite Hch. cbn [mbind option_bind]. rewrite E. rewrite (field Hok 1 _ 4 eq_refl) by done. cbn [mbind option_bind].
  pose proof (@image_length fr S tail) as Hil. unfold data_end, FdtImage.base in Hil.
  rewrite u32_small, (proj2 (Z.ltb_ge _ _)) by lia. rewrite (proj2 (Nat.ltb_ge _ _)) by lia. cbn [orb mbind option_bind]. change (0 =? 0) with true. cbv iota. rewrite take_drop.
  unfold fdt_set_version, fdt_set_size_dt_struct, fdt_set_totalsize, image. rewrite (wr32_hdr _ _ 5) by (done || cbn; lia). cbn [mbind option_bind].
  rewrite (wr32_hdr _ _ 9) by (done || cbn; lia). cbn [mbind option_bind]. rewrite (wr32_hdr _ _ 1) by (done || cbn; lia). cbn [mbind option_bind app].
  rewrite !(u32_small (Z.of_nat _)), (u32_small bufsize) by lia. done.
Qed.

Lemma fdt_open_into_grows_witness :
  fdt_open_into ex_image 0 0 220 = Some (0, image (with_total ex_frame 220) (encs ex_toks) (replicate 100 0))
  /\ image_ok (with_total ex_frame 220) (encs ex_toks) (replicate 100 0).
Proof.
  apply (fdt_open_into_grows ex_frame (encs ex_toks) (replicate 100 0) 220 0).
  - exact ex_image_ok.
  - vm_compute. reflexivity.
  - lia.
  - vm_compute. discriminate.
  - vm_compute. split; discriminate.
Defined.

(** When the blocks have to be put in order and the buffer is the blob itself,
    the number of the boot processor is read after the header was overwritten:
    here it was 5 and becomes what lay behind the blob. *)
Lemma fdt_open_into_loses_cpu :
  let words := [FDT_MAGIC; 88; 60; 40; 44; 17; 16; 5; 4; 28] in
  let blob := hdr words ++ [97; 0; 98; 0] ++ replicate 16 0 ++ encs [TBegin [] [0; 0; 0]; TProp 0 [] []; TEnd] ++ encs [TFin] in
  (r ← fdt_open_into (blob ++ replicate 200 255) 0 0 250;
   cpu ← fdt_boot_cpuid_phys (snd r);
   Some (fst r, fdt_boot_cpuid_phys blob, cpu)) = Some (0, Some 5, 0xffffffff).
Proof. vm_compute. reflexivity. Qed.
