(* ===== verification/FdtBuild.v ===== *)
(** * Building and reading back ([lib/libfdt/fdt_sw.c])

    A tree that is written with the functions of [FdtSw] is the tree that the
    functions of [Fdt] read. *)

From S2P Require Import Prelude Crc Bytes Ctype Cstring Hashtable Fdt FdtTree FdtWip FdtEdit FdtRw FdtImage FdtUpdate FdtSw.

(** ** Trees and how they are written *)

Inductive dtree :=
  | DNil
  | DProp (name : cstr) (val : list Z) (rest : dtree)
  | DNode (name : cstr) (body rest : dtree).

(** The calls that write what is inside of a node. *)
Fixpoint emit (d : dtree) (fdt : list Z) : option (Z * list Z) :=
  match d with
  | DNil => Some (0, fdt)
  | DProp name val rest => on_success (fdt_property fdt name val) pair (emit rest)
  | DNode name body rest =>
      on_success (fdt_begin_node fdt name) pair (λ fdt,
      on_success (emit body fdt) pair (λ fdt,
      on_success (fdt_end_node fdt) pair (emit rest)))
  end.

Fixpoint reserve (rs : list (Z * Z)) (fdt : list Z) : option (Z * list Z) :=
  match rs with
  | [] => fdt_finish_reservemap fdt
  | (addr, size) :: rs => on_success (fdt_add_reservemap_entry fdt addr size) pair (reserve rs)
  end.

(** A whole blob: the reservations, then the root. *)
Definition build (buf : list Z) (bufsize : Z) (rs : list (Z * Z)) (d : dtree) : option (Z * list Z) :=
  on_success (fdt_create buf bufsize) pair (λ fdt,
  on_success (reserve rs fdt) pair (λ fdt,
  on_success (emit (DNode [] d DNil) fdt) pair fdt_finish)).

Fixpoint wf (d : dtree) : Prop :=
  match d with
  | DNil => True
  | DProp name val rest => Forall (λ c, c <> 0) name /\ wf rest
  | DNode name body rest => Forall (λ c, c <> 0) name /\ wf body /\ wf rest
  end.

(** Room that is enough, with a string for every property. *)
Fixpoint cost (d : dtree) : Z :=
  match d with
  | DNil => 0
  | DProp name val rest => 16 + Z.of_nat (length val) + Z.of_nat (length name) + cost rest
  | DNode name body rest => 12 + Z.of_nat (length name) + cost body + cost rest
  end.

Lemma cost_pos d : 0 <= cost d.
Proof. induction d; cbn [cost]; lia. Qed.

(** ** Buffers that are being filled *)

Definition raw (ws rsv S rest : list Z) : list Z := hdr ws ++ rsv ++ S ++ rest.

Lemma poke_raw ws rsv A old B rest l p :
  length ws = 10%nat -> length l = length old -> p = 40 + Z.of_nat (length rsv) + Z.of_nat (length A) ->
  poke (raw ws rsv (A ++ old ++ B) rest) p l = Some (raw ws rsv (A ++ l ++ B) rest).
Proof.
  intros Hw Hl ->. unfold raw. replace (hdr ws ++ rsv ++ (A ++ old ++ B) ++ rest) with ((hdr ws ++ rsv ++ A) ++ old ++ (B ++ rest)) by (by rewrite <-!app_assoc).
  rewrite poke_mid; [by rewrite <-!app_assoc| |done]. rewrite !length_app, hdr_length, Hw. lia.
Qed.

Lemma wr32_raw ws rsv A old B rest v p :
  length ws = 10%nat -> length old = 4%nat -> p = 40 + Z.of_nat (length rsv) + Z.of_nat (length A) ->
  wr32 (raw ws rsv (A ++ old ++ B) rest) p v = Some (raw ws rsv (A ++ be_bytes4 (u32 v) ++ B) rest).
Proof. intros Hw Hl ->. apply poke_raw; [done|by rewrite Hl|done]. Qed.

(** Between [fdt_create] and [fdt_finish]: the words of the header, the map, the
    structure, the room that is left, the strings, and what is behind the buffer. *)
Definition sw_words (tot bs nstr n : Z) : list Z := [FDT_SW_MAGIC; tot; bs; tot; 48; 17; 16; 0; nstr; n].

Definition sw_total (rsv S free strs : list Z) : Z := 40 + Z.of_nat (length (rsv ++ S ++ free ++ strs)).

Definition sw (rsv S free strs tail : list Z) : list Z :=
  raw (sw_words (sw_total rsv S free strs) (40 + Z.of_nat (length rsv)) (Z.of_nat (length strs)) (Z.of_nat (length S))) rsv S (free ++ strs ++ tail).

Definition sw_ok (rsv S free strs tail : list Z) : Prop := (8 <= length rsv)%nat /\ sw_total rsv S free strs + Z.of_nat (length tail) < 2 ^ 31.

Section sw.
Context {rsv S free strs tail : list Z} (Hok : sw_ok rsv S free strs tail).

Lemma sw_field i w p :
  sw_words (sw_total rsv S free strs) (40 + Z.of_nat (length rsv)) (Z.of_nat (length strs)) (Z.of_nat (length S)) !! i = Some w ->
  p = 4 * Z.of_nat i -> rd32 (sw rsv S free strs tail) p = Some w.
Proof.
  apply rd32_hdr. destruct Hok as [H8 Hs]. unfold sw_total, sw_words, word, FDT_SW_MAGIC in *. rewrite !length_app in *.
  repeat (apply Forall_cons; split; [lia|]). by apply Forall_nil.
Qed.

Lemma sw_header k : with_sw_header (sw rsv S free strs tail) k = k.
Proof. unfold with_sw_header, _fdt_sw_check_header, fdt_magic. by rewrite (sw_field 0 _ 0 eq_refl). Qed.
End sw.

Lemma sw_set_size rsv S g free strs tail :
  sw_ok rsv S (g ++ free) strs tail ->
  fdt_set_size_dt_struct (sw rsv S (g ++ free) strs tail) (Z.of_nat (length S) + Z.of_nat (length g)) = Some (sw rsv (S ++ g) free strs tail).
Proof.
  intros [H8 Hs]. unfold fdt_set_size_dt_struct, sw, raw. rewrite (wr32_hdr _ _ 9) by (done || cbn; lia).
  unfold sw_total in *. rewrite !length_app in Hs. rewrite u32_small by lia. f_equal. rewrite <-!app_assoc. f_equal.
  unfold sw_words. cbn. rewrite !length_app. rewrite !Nat2Z.inj_add. by rewrite <-?Z.add_assoc.
Qed.

(** Room is taken from the front of what is left. *)
Lemma sw_grab rsv S g free strs tail len k :
  sw_ok rsv S (g ++ free) strs tail -> Z.of_nat (length g) = len ->
  grab (sw rsv S (g ++ free) strs tail) len k = k (sw rsv (S ++ g) free strs tail) (40 + Z.of_nat (length rsv) + Z.of_nat (length S)).
Proof.
  intros Hok <-. unfold grab, _fdt_grab_space, fdt_size_dt_struct, fdt_totalsize, fdt_off_dt_struct, fdt_size_dt_strings, _fdt_offset_ptr.
  rewrite (sw_field Hok 9 _ 36 eq_refl), (sw_field Hok 1 _ 4 eq_refl), (sw_field Hok 2 _ 8 eq_refl), (sw_field Hok 8 _ 32 eq_refl) by done.
  cbn [mbind option_bind]. pose proof Hok as [H8 Hs].
  assert (sw_total rsv S (g ++ free) strs = 40 + Z.of_nat (length rsv) + Z.of_nat (length S) + Z.of_nat (length g) + Z.of_nat (length free) + Z.of_nat (length strs)) as Htot
    by (unfold sw_total; rewrite !length_app; lia).
  assert (s32 (Z.of_nat (length S)) = Z.of_nat (length S)) as -> by (unfold s32, swrap; rewrite Z.mod_small by lia; lia).
  match goal with |- context [s32 ?x] => assert (s32 x = Z.of_nat (length S) + Z.of_nat (length g) + Z.of_nat (length free)) as -> by (unfold s32, swrap; rewrite Z.mod_small by lia; lia) end.
  rewrite !u64_small by lia. rewrite !(proj2 (Z.ltb_ge _ _)) by lia. cbn [orb].
  rewrite (sw_set_size _ _ _ _ _ _ Hok). cbn [mbind option_bind]. unfold fdt_off_dt_struct.
  assert (sw_ok rsv (S ++ g) free strs tail) as Hok' by (split; [done|]; unfold sw_total in *; rewrite !length_app in *; lia).
  by rewrite (sw_field Hok' 2 _ 8 eq_refl).
Qed.

(** ** Writing tokens *)

Lemma sw_total_eq rsv S free strs :
  sw_total rsv S free strs = 40 + Z.of_nat (length rsv) + Z.of_nat (length S) + Z.of_nat (length free) + Z.of_nat (length strs).
Proof. unfold sw_total. rewrite !length_app. lia. Qed.

(** Moving bytes between the parts does not change the buffer. *)
Lemma sw_ok_shift rsv S free strs tail S' free' strs' :
  sw_ok rsv S free strs tail -> (length S' + length free' + length strs' = length S + length free + length strs)%nat -> sw_ok rsv S' free' strs' tail.
Proof. intros [H8 Hs] Hl. split; [done|]. rewrite !sw_total_eq in *. lia. Qed.

Lemma sw_poke rsv A old B free strs tail l p :
  length l = length old -> p = 40 + Z.of_nat (length rsv) + Z.of_nat (length A) ->
  poke (sw rsv (A ++ old ++ B) free strs tail) p l = Some (sw rsv (A ++ l ++ B) free strs tail).
Proof.
  intros Hl Hp. unfold sw. rewrite (poke_raw _ _ A old B) by (done || lia).
  assert (length (A ++ l ++ B) = length (A ++ old ++ B)) as E by (rewrite !length_app, Hl; done). rewrite !sw_total_eq, E. done.
Qed.

Lemma sw_wr32 rsv A old B free strs tail v p :
  length old = 4%nat -> p = 40 + Z.of_nat (length rsv) + Z.of_nat (length A) ->
  wr32 (sw rsv (A ++ old ++ B) free strs tail) p v = Some (sw rsv (A ++ be_bytes4 (u32 v) ++ B) free strs tail).
Proof. intros Hl Hp. apply sw_poke; [by rewrite Hl|done]. Qed.

Lemma encs_snoc ts t : encs (ts ++ [t]) = encs ts ++ enc t.
Proof. rewrite encs_app. unfold encs at 2. cbn [map concat]. by rewrite app_nil_r. Qed.

(** A string is put in front of the strings. *)
Lemma sw_add_string rsv S free g strs tail l p n :
  sw_ok rsv S (free ++ g) strs tail -> length l = length g -> p = 40 + Z.of_nat (length rsv) + Z.of_nat (length S) + Z.of_nat (length free) ->
  n = Z.of_nat (length strs) + Z.of_nat (length l) ->
  ∃ fdt, poke (sw rsv S (free ++ g) strs tail) p l = Some fdt /\ fdt_set_size_dt_strings fdt n = Some (sw rsv S free (l ++ strs) tail).
Proof.
  intros [H8 Hs] Hl -> ->. rewrite sw_total_eq, length_app in Hs. unfold sw, raw. set (ws := sw_words _ _ _ _).
  replace (hdr ws ++ rsv ++ S ++ (free ++ g) ++ strs ++ tail) with ((hdr ws ++ rsv ++ S ++ free) ++ g ++ strs ++ tail) by (by rewrite <-!app_assoc).
  rewrite poke_mid; [|rewrite !length_app, hdr_length; cbn [length sw_words ws]; lia|done]. eexists. split; [done|].
  unfold fdt_set_size_dt_strings. rewrite <-app_assoc, (wr32_hdr _ _ 8) by (done || cbn; lia). rewrite u32_small by lia. f_equal. rewrite <-!app_assoc. f_equal.
  subst ws. apply (f_equal hdr). assert (sw_total rsv S (free ++ g) strs = sw_total rsv S free (l ++ strs)) as -> by (rewrite !sw_total_eq, !length_app, Hl; lia).
  replace (Z.of_nat (length (l ++ strs))) with (Z.of_nat (length strs) + Z.of_nat (length l)) by (rewrite length_app; lia). done.
Qed.

Section tokens.
Context {rsv : list Z} {ts : list token} {free strs tail : list Z} (Hok : sw_ok rsv (encs ts) free strs tail).

Lemma begin_node_spec name :
  Forall (λ c, c <> 0) name -> 8 + Z.of_nat (length name) <= Z.of_nat (length free) ->
  ∃ pad free', fdt_begin_node (sw rsv (encs ts) free strs tail) name = Some (0, sw rsv (encs (ts ++ [TBegin name pad])) free' strs tail)
    /\ tok_ok (TBegin name pad) /\ (length (enc (TBegin name pad)) + length free' = length free)%nat.
Proof.
  intros Hn Hroom. pose proof Hok as [H8 Hs]. rewrite sw_total_eq in Hs.
  destruct (tagalign_pad (Z.of_nat (length name) + 1)) as (k & Hk & Hk4 & Hmod); [lia|lia|].
  unfold fdt_begin_node. rewrite (sw_header Hok).
  destruct (split_length free (4 + (length name + 1) + k)) as (g & free' & -> & Hg); [lia|]. rewrite (sw_grab _ _ _ _ _ _ _ _ Hok) by lia.
  destruct (split_length g 4) as (l1 & g1 & -> & Hl1); [lia|]. rewrite length_app in Hg. destruct (split_length g1 (length name + 1)) as (l2 & pad & -> & Hl2); [lia|]. rewrite length_app in Hg.
  rewrite (sw_wr32 rsv _ l1) by done. cbn [mbind option_bind]. rewrite (app_assoc (encs ts)).
  rewrite (sw_poke rsv _ l2) by (rewrite ?length_app, ?be_bytes4_length; cbn [length]; lia). cbn [mbind option_bind].
  exists pad, free'. rewrite encs_snoc. cbn [enc]. change (u32 FDT_BEGIN_NODE) with FDT_BEGIN_NODE. split_and!.
  - by rewrite <-!app_assoc.
  - split; [done|]. split; [lia|]. apply Nat2Z.inj. rewrite Nat2Z.inj_mod. etrans; [|exact Hmod]. f_equal. lia.
  - rewrite !length_app, be_bytes4_length. cbn [length]. lia.
Qed.

Lemma end_node_spec t k :
  length (enc t) = 4%nat -> enc t = be_bytes4 (u32 k) -> (4 <= length free)%nat ->
  ∃ free', (∀ cont, grab (sw rsv (encs ts) free strs tail) 4 (λ fdt en, fdt ← wr32 fdt en k; cont fdt) = cont (sw rsv (encs (ts ++ [t])) free' strs tail))
    /\ (4 + length free' = length free)%nat.
Proof.
  intros Ht Hk Hroom. destruct (split_length free 4) as (g & free' & -> & Hg); [lia|]. exists free'. rewrite length_app. split; [|lia].
  intros cont. rewrite (sw_grab _ _ _ _ _ _ _ _ Hok) by lia. rewrite <-(app_nil_r g), (sw_wr32 rsv _ g) by done. cbn [mbind option_bind].
  by rewrite encs_snoc, Hk, app_nil_r.
Qed.

(** Strings are found by their distance from the end. *)
Lemma sw_find_add_string_spec s :
  Forall (λ c, c <> 0) s -> Z.of_nat (length s) + 1 <= Z.of_nat (length free) ->
  ∃ o l free', sw_find_add_string (sw rsv (encs ts) free strs tail) s = Some (o, sw rsv (encs ts) free' (l ++ strs) tail)
    /\ - Z.of_nat (length (l ++ strs)) <= o < 0 /\ string_at (l ++ strs) (o + Z.of_nat (length (l ++ strs))) = Some s
    /\ (length free' + length l = length free)%nat /\ (length l <= length s + 1)%nat.
Proof.
  intros Hs Hroom. pose proof Hok as [H8 Hsm]. rewrite sw_total_eq in Hsm.
  unfold sw_find_add_string, fdt_totalsize, fdt_size_dt_strings, fdt_off_dt_struct, fdt_size_dt_struct, _fdt_find_string.
  rewrite (sw_field Hok 1 _ 4 eq_refl), (sw_field Hok 8 _ 32 eq_refl), (sw_field Hok 2 _ 8 eq_refl), (sw_field Hok 9 _ 36 eq_refl) by done. cbn [mbind option_bind].
  assert (s32 (Z.of_nat (length strs)) = Z.of_nat (length strs)) as -> by (unfold s32, swrap; rewrite Z.mod_small by lia; lia).
  set (n := Z.to_nat (Z.of_nat (length strs) - Z.of_nat (length s))). rewrite !sw_total_eq.
  assert (holds (sw rsv (encs ts) free strs tail)
    (40 + Z.of_nat (length rsv) + Z.of_nat (length (encs ts)) + Z.of_nat (length free) + Z.of_nat (length strs) - Z.of_nat (length strs)) strs) as Hh.
  { split; [lia|]. exists tail. unfold sw, raw. rewrite !app_assoc. rewrite <-(app_assoc _ strs tail). apply drop_app_length'.
    rewrite !length_app, hdr_length. cbn [length sw_words]. lia. }
  assert (∃ r, find_string_at n (sw rsv (encs ts) free strs tail)
     (40 + Z.of_nat (length rsv) + Z.of_nat (length (encs ts)) + Z.of_nat (length free) + Z.of_nat (length strs) - Z.of_nat (length strs)) s = Some r
     /\ (r = None \/ ∃ k, r = Some (40 + Z.of_nat (length rsv) + Z.of_nat (length (encs ts)) + Z.of_nat (length free) + Z.of_nat (length strs) - Z.of_nat (length strs) + k)
           /\ 0 <= k < Z.of_nat n /\ string_at strs k = Some s)) as (r & -> & Hr).
  { destruct (decide (n = 0%nat)) as [->|Hn]; [exists None; split; [done|by left]|].
    destruct (find_string_at_spec n _ _ _ s Hh) as [->|(k & -> & Hk & Hat)]; [lia|done|exists None; split; [done|by left]|]. eexists. split; [done|]. right. by exists k. }
  cbn [mbind option_bind]. destruct Hr as [->|(k & -> & Hk & Hat)].
  - destruct (split_length free (length free - (length s + 1))) as (free' & g & -> & Hf); [lia|]. rewrite length_app in *.
    assert (s32 (40 + Z.of_nat (length rsv) + Z.of_nat (length (encs ts))) = 40 + Z.of_nat (length rsv) + Z.of_nat (length (encs ts))) as -> by (unfold s32, swrap; rewrite Z.mod_small by lia; lia).
    rewrite !u32_small by lia. rewrite (proj2 (Z.ltb_ge _ _)) by lia.
    exists (- Z.of_nat (length strs) - (Z.of_nat (length s) + 1)), (s ++ [0]), free'.
    destruct (sw_add_string rsv (encs ts) free' g strs tail (s ++ [0])
      (40 + Z.of_nat (length rsv) + Z.of_nat (length (encs ts)) + Z.of_nat (length free' + length g) + Z.of_nat (length strs) + (- Z.of_nat (length strs) - (Z.of_nat (length s) + 1)))
      (Z.of_nat (length strs) + (Z.of_nat (length s) + 1)) Hok) as (fdt & -> & Hset); [rewrite length_app; cbn; lia|lia|rewrite length_app; cbn; lia|].
    cbn [mbind option_bind]. rewrite Hset. cbn [mbind option_bind]. rewrite !length_app. cbn [length].
    split_and!; [done|lia|lia| |lia|lia]. apply string_at_holds; [|done]. split; [lia|]. exists strs. by replace (Z.to_nat _) with 0%nat by lia.
  - exists (k - Z.of_nat (length strs)), [], free. split_and!; [do 2 f_equal; lia|cbn [app]; lia|lia| |cbn [length]; lia|cbn [length]; lia].
    cbn [app]. rewrite <-Hat. f_equal. lia.
Qed.
End tokens.

(** The name of a property that is being written. *)
Definition sw_name (strs : list Z) (no : Z) : option cstr :=
  if s32 no <? 0 then string_at strs (s32 no + Z.of_nat (length strs)) else None.

Lemma sw_name_app l strs no s : sw_name strs no = Some s -> sw_name (l ++ strs) no = Some s.
Proof.
  unfold sw_name. destruct (s32 no <? 0); [|done]. intros H. apply (string_at_prefix l) in H. rewrite <-H, length_app. f_equal. lia.
Qed.

Lemma s32_u32 o : - 2 ^ 31 <= o < 0 -> s32 (u32 o) = o /\ word (u32 o).
Proof. intros H. unfold s32, u32, swrap, wrap, word. split; Z.div_mod_to_equations; lia. Qed.

Lemma property_spec {rsv ts free strs tail} (Hok : sw_ok rsv (encs ts) free strs tail) name val :
  Forall (λ c, c <> 0) name -> 16 + Z.of_nat (length val) + Z.of_nat (length name) <= Z.of_nat (length free) ->
  ∃ no pad l free', fdt_property (sw rsv (encs ts) free strs tail) name val = Some (0, sw rsv (encs (ts ++ [TProp no val pad])) free' (l ++ strs) tail)
    /\ tok_ok (TProp no val pad) /\ sw_name (l ++ strs) no = Some name
    /\ (length (enc (TProp no val pad)) + length free' + length l = length free)%nat /\ (length l <= length name + 1)%nat.
Proof.
  intros Hn Hroom. pose proof Hok as [H8 Hs]. rewrite sw_total_eq in Hs.
  unfold fdt_property. rewrite (sw_header Hok).
  destruct (sw_find_add_string_spec Hok name Hn) as (o & l & free1 & -> & Ho & Hat & Hl & Hll); [lia|]. cbn [mbind option_bind].
  rewrite (proj2 (Z.eqb_neq o 0)) by lia.
  assert (sw_ok rsv (encs ts) free1 (l ++ strs) tail) as Hok1 by (eapply sw_ok_shift; [exact Hok|rewrite length_app; lia]).
  destruct (tagalign_pad (Z.of_nat (length val))) as (k & Hk & Hk4 & Hmod); [lia|lia|].
  destruct (split_length free1 (12 + length val + k)) as (g & free' & -> & Hg); [lia|]. rewrite length_app in Hl.
  rewrite (sw_grab _ _ _ _ _ _ _ _ Hok1) by lia.
  destruct (split_length g 4) as (l1 & g1 & -> & Hl1); [lia|]. rewrite length_app in Hg. destruct (split_length g1 4) as (l2 & g2 & -> & Hl2); [lia|]. rewrite length_app in Hg.
  destruct (split_length g2 4) as (l3 & g3 & -> & Hl3); [lia|]. rewrite length_app in Hg. destruct (split_length g3 (length val)) as (v & pad & -> & Hv); [lia|]. rewrite length_app in Hg.
  rewrite (sw_wr32 rsv _ l1) by done. cbn [mbind option_bind]. rewrite (app_assoc (encs ts)), (app_assoc _ l2).
  rewrite (sw_wr32 rsv _ l3) by (done || (rewrite !length_app, be_bytes4_length; lia)). cbn [mbind option_bind]. rewrite <-(app_assoc _ l2).
  rewrite (sw_wr32 rsv _ l2) by (done || (rewrite !length_app, be_bytes4_length; lia)). cbn [mbind option_bind]. rewrite (app_assoc _ (be_bytes4 (u32 (Z.of_nat _)))), (app_assoc _ (be_bytes4 (u32 o))).
  rewrite (sw_poke rsv _ v) by (done || (rewrite !length_app, !be_bytes4_length; lia)). cbn [mbind option_bind].
  rewrite length_app in Ho. destruct (s32_u32 o) as [Hso Hwo]; [lia|]. exists (u32 o), pad, l, free'.
  change (u32 FDT_PROP) with FDT_PROP. rewrite u32_small by lia. split_and!.
  - rewrite encs_snoc. cbn [enc]. by rewrite <-!app_assoc.
  - split; [done|]. split; [lia|]. apply Nat2Z.inj. rewrite Nat2Z.inj_mod. etrans; [|exact Hmod]. f_equal. lia.
  - unfold sw_name. by rewrite Hso, (proj2 (Z.ltb_lt o 0)) by lia.
  - cbn [enc]. rewrite !length_app, !be_bytes4_length in *. lia.
  - done.
Qed.

(** ** Trees *)

(** The items of a structure block are those of a tree, with names looked up by
    a function. *)
Fixpoint represents (nm : Z -> option cstr) (b : items) (d : dtree) : Prop :=
  match b, d with
  | Nil, DNil => True
  | Property no val _ b, DProp name val' d => nm no = Some name /\ val = val' /\ represents nm b d
  | Node n _ body b, DNode n' body' d => n = n' /\ represents nm body body' /\ represents nm b d
  | _, _ => False
  end.

Lemma represents_mono (nm nm' : Z -> option cstr) b d :
  (∀ no s, nm no = Some s -> nm' no = Some s) -> represents nm b d -> represents nm' b d.
Proof.
  intros H. revert d. induction b as [|r IH|no v pd r IH|n pd body IHb r IHr]; intros d; destruct d; cbn [represents]; try done.
  - intros (Hn & -> & Hr). auto.
  - intros (-> & Hb & Hr). auto.
Qed.

Lemma emit_spec rsv tail d : ∀ ts free strs,
  sw_ok rsv (encs ts) free strs tail -> wf d -> cost d <= Z.of_nat (length free) ->
  ∃ b l free', emit d (sw rsv (encs ts) free strs tail) = Some (0, sw rsv (encs (ts ++ toks b)) free' (l ++ strs) tail)
    /\ represents (sw_name (l ++ strs)) b d /\ Forall tok_ok (toks b)
    /\ Z.of_nat (length free) <= Z.of_nat (length free') + cost d
    /\ (length (encs (toks b)) + length free' + length l = length free)%nat.
Proof.
  induction d as [|name val rest IH|name body IHb rest IHr]; intros ts free strs Hok Hwf Hcost; cbn [emit wf cost] in *.
  - exists Nil, [], free. cbn [toks app]. rewrite app_nil_r. split_and!; try done; lia.
  - pose proof (cost_pos rest). destruct Hwf as [Hn Hwf].
    destruct (property_spec Hok name val Hn) as (no & pad & l1 & free1 & Hp & Htok & Hnm & Hl1 & Hll); [lia|].
    unfold on_success. rewrite Hp. cbn [mbind option_bind]. change (0 =? 0) with true. cbv iota.
    assert (12 <= length (enc (TProp no val pad)) <= 15 + length val)%nat as Henc.
    { cbn [enc]. rewrite !length_app, !be_bytes4_length. destruct Htok as (_ & Hpad & _). lia. }
    destruct (IH (ts ++ [TProp no val pad]) free1 (l1 ++ strs)) as (b & l & free' & He & Hrep & Hok' & Hc & Hlen); [|done|lia|].
    { eapply sw_ok_shift; [exact Hok|]. rewrite encs_snoc, !length_app. lia. }
    exists (Property no val pad b), (l ++ l1), free'. rewrite He, <-!app_assoc. cbn [toks app represents]. split_and!; try done.
    + by apply sw_name_app.
    + by apply Forall_cons.
    + lia.
    + change (TProp no val pad :: toks b) with ([TProp no val pad] ++ toks b). rewrite encs_app, !length_app. unfold encs at 1. cbn [map concat]. rewrite app_nil_r. lia.
  - pose proof (cost_pos rest). pose proof (cost_pos body). destruct Hwf as (Hn & Hwfb & Hwfr).
    destruct (begin_node_spec Hok name Hn) as (pad & free1 & Hb & Htok & Hl1); [lia|].
    unfold on_success at 1. rewrite Hb. cbn [mbind option_bind]. change (0 =? 0) with true. cbv iota.
    assert (length (enc (TBegin name pad)) <= 8 + length name)%nat as Henc.
    { cbn [enc]. rewrite !length_app, be_bytes4_length. cbn [length]. destruct Htok as (_ & Hpad & _). lia. }
    assert (sw_ok rsv (encs (ts ++ [TBegin name pad])) free1 strs tail) as Hok1 by (eapply sw_ok_shift; [exact Hok|]; rewrite encs_snoc, !length_app; lia).
    destruct (IHb _ _ _ Hok1 Hwfb) as (bb & l2 & free2 & He & Hrep & Hokb & Hc & Hlen); [lia|].
    unfold on_success at 1. rewrite He. cbn [mbind option_bind]. change (0 =? 0) with true. cbv iota.
    assert (sw_ok rsv (encs ((ts ++ [TBegin name pad]) ++ toks bb)) free2 (l2 ++ strs) tail) as Hok2 by (eapply sw_ok_shift; [exact Hok1|]; rewrite (encs_app _ (toks bb)), !length_app; lia).
    destruct (end_node_spec Hok2 TEnd FDT_END_NODE) as (free3 & Hend & Hl3); [done|done|lia|].
    unfold fdt_end_node at 1. rewrite (sw_header Hok2), Hend. cbn [on_success mbind option_bind]. unfold on_success. cbn [mbind option_bind]. change (0 =? 0) with true. cbv iota.
    destruct (IHr (((ts ++ [TBegin name pad]) ++ toks bb) ++ [TEnd]) free3 (l2 ++ strs)) as (br & l4 & free4 & He4 & Hrep4 & Hok4 & Hc4 & Hlen4); [|done|lia|].
    { eapply sw_ok_shift; [exact Hok2|]. rewrite encs_snoc, !length_app. cbn [enc]. rewrite be_bytes4_length. lia. }
    exists (Node name pad bb br), (l4 ++ l2), free4. rewrite He4. rewrite <-!(app_assoc l4). cbn [toks represents]. split_and!; try done.
    + do 3 f_equal. by repeat (rewrite <-?app_assoc; cbn [app]).
    + eapply represents_mono; [|exact Hrep]. intros. by apply sw_name_app.
    + apply Forall_cons. split; [done|]. rewrite Forall_app, Forall_cons. done.
    + lia.
    + change (TBegin name pad :: toks bb ++ TEnd :: toks br) with ([TBegin name pad] ++ toks bb ++ [TEnd] ++ toks br). rewrite !encs_app, !length_app.
      unfold encs at 1 3. cbn [map concat]. rewrite !app_nil_r. cbn [enc]. rewrite be_bytes4_length. cbn [enc] in *. lia.
Qed.

(** ** The end *)

Lemma raw_structure ws rsv ts rest :
  Forall word ws -> length ws = 10%nat -> ws !! 5%nat = Some 17 -> ws !! 2%nat = Some (40 + Z.of_nat (length rsv)) -> ws !! 9%nat = Some (size_of ts) ->
  size_of ts + 4 < 2 ^ 31 -> Forall tok_ok ts -> structure (raw ws rsv (encs ts) rest) (40 + Z.of_nat (length rsv)) ts.
Proof.
  intros Hw Hl H5 H2 H9 Hsm Ht. split; unfold fdt_version, fdt_off_dt_struct, fdt_size_dt_struct, raw; try done.
  - by apply (rd32_hdr _ _ 5).
  - by apply (rd32_hdr _ _ 2).
  - by apply (rd32_hdr _ _ 9).
  - split; [lia|]. exists rest. rewrite app_assoc. apply drop_app_length'. rewrite length_app, hdr_length, Hl. lia.
Qed.

(** The offset of a name from the beginning of [n] bytes of strings. *)
Definition fix_token (n : Z) (t : token) : token :=
  match t with TProp no val pad => TProp (s32 no + n) val pad | _ => t end.

Definition fixable (n : Z) (t : token) : Prop :=
  match t with TProp no _ _ => 0 <= s32 no + n < 2 ^ 31 | _ => True end.

Lemma fix_token_length n t : length (enc (fix_token n t)) = length (enc t).
Proof. destruct t; [done|done| |done|done]. cbn [fix_token enc]. by rewrite !length_app, !be_bytes4_length. Qed.

Lemma fix_token_ok n t : fixable n t -> tok_ok t -> tok_ok (fix_token n t).
Proof. destruct t; cbn [fix_token fixable tok_ok]; try done. intros ? (_ & ?). split; [unfold word; lia|done]. Qed.

Section fix_names.
Context (ws rsv R : list Z) (n : Z) (Hw : Forall word ws) (Hl : length ws = 10%nat)
  (H5 : ws !! 5%nat = Some 17) (H2 : ws !! 2%nat = Some (40 + Z.of_nat (length rsv))) (H8 : ws !! 8%nat = Some n).

Lemma fix_names_spec fuel done rest :
  ws !! 9%nat = Some (size_of (done ++ rest ++ [TFin])) -> size_of (done ++ rest ++ [TFin]) + 4 < 2 ^ 31 ->
  Forall tok_ok (done ++ rest ++ [TFin]) -> Forall (fixable n) rest -> TFin ∉ rest -> (length rest < fuel)%nat ->
  fix_names fuel (raw ws rsv (encs (done ++ rest ++ [TFin])) R) (size_of done)
  = Some (size_of (done ++ map (fix_token n) rest ++ [TFin]), raw ws rsv (encs (done ++ map (fix_token n) rest ++ [TFin])) R).
Proof.
  revert fuel done. induction rest as [|t rest IH]; intros fuel done H9 Hsm Ht Hfx Hnf Hfuel; (destruct fuel as [|fuel]; [cbn in Hfuel; lia|]); cbn [fix_names app map length] in *.
  - rewrite (next_tag_spec (raw_structure _ _ _ _ Hw Hl H5 H2 H9 Hsm Ht) done TFin []) by done. done.
  - rewrite (next_tag_spec (raw_structure _ _ _ _ Hw Hl H5 H2 H9 Hsm Ht) done t (rest ++ [TFin])) by done. cbn [mbind option_bind].
    apply not_elem_of_cons in Hnf as [Hne Hnf]. apply Forall_cons in Hfx as [Hft Hfx].
    assert ((tag_of t =? FDT_END) = false) as -> by (by destruct t).
    assert (size_of (done ++ [t]) = size_of (done ++ [fix_token n t])) as Hsz by (rewrite !size_snoc, fix_token_length; done).
    assert (size_of ((done ++ [fix_token n t]) ++ rest ++ [TFin]) = size_of (done ++ t :: rest ++ [TFin])) as Hsz2.
    { rewrite (size_of_app (done ++ _)), <-Hsz, <-size_of_app, <-app_assoc. done. }
    assert (Forall tok_ok ((done ++ [fix_token n t]) ++ rest ++ [TFin])) as Ht'.
    { rewrite <-app_assoc. cbn [app]. rewrite Forall_app, Forall_cons in *. destruct Ht as (? & ? & ?). split_and!; [done|by apply fix_token_ok|done]. }
    assert ((if tag_of t =? FDT_PROP then
               prop ← _fdt_offset_ptr (raw ws rsv (encs (done ++ t :: rest ++ [TFin])) R) (size_of done);
               nameoff ← rd32 (raw ws rsv (encs (done ++ t :: rest ++ [TFin])) R) (prop + 8);
               size ← fdt_size_dt_strings (raw ws rsv (encs (done ++ t :: rest ++ [TFin])) R);
               wr32 (raw ws rsv (encs (done ++ t :: rest ++ [TFin])) R) (prop + 8) (s32 (s32 nameoff + size))
             else Some (raw ws rsv (encs (done ++ t :: rest ++ [TFin])) R))
            = Some (raw ws rsv (encs ((done ++ [fix_token n t]) ++ rest ++ [TFin])) R)) as ->.
    { rewrite <-app_assoc. cbn [app]. destruct t as [| |no val pad| |]; try done. cbn [tag_of Z.eqb Pos.eqb FDT_PROP fix_token fixable] in *.
      pose proof (raw_structure _ _ _ R Hw Hl H5 H2 H9 Hsm Ht) as HS. rewrite (offset_ptr_ok HS). cbn [mbind option_bind].
      destruct (prop_holds HS done no val pad (rest ++ [TFin]) eq_refl) as (_ & -> & _). cbn [mbind option_bind].
      unfold fdt_size_dt_strings. assert (∀ S, rd32 (raw ws rsv S R) 32 = Some n) as -> by (intros S; by apply (rd32_hdr ws _ 8)). cbn [mbind option_bind].
      assert (s32 (s32 no + n) = s32 no + n) as -> by (unfold s32 at 1, swrap at 1; rewrite Z.mod_small by lia; lia).
      assert (∀ m, encs (done ++ TProp m val pad :: rest ++ [TFin])
        = (encs done ++ be_bytes4 FDT_PROP ++ be_bytes4 (Z.of_nat (length val))) ++ be_bytes4 m ++ (val ++ pad ++ encs (rest ++ [TFin]))) as Hm
        by (intros m; rewrite encs_app, enc_prop; by rewrite <-!app_assoc).
      rewrite !Hm, (wr32_raw ws rsv _ (be_bytes4 no)); [|done|done|rewrite !length_app, !be_bytes4_length; unfold size_of; lia]. by rewrite u32_small by lia. }
    cbn [mbind option_bind]. rewrite Hsz. rewrite (IH fuel (done ++ [fix_token n t])); [by rewrite <-!app_assoc|by rewrite Hsz2|by rewrite Hsz2|done|done|done|lia].
Qed.
End fix_names.

(** The header and the blocks of a finished blob. *)
Definition done_frame (rsv strs : list Z) (n : Z) : frame :=
  Frame (40 + Z.of_nat (length rsv) + n + Z.of_nat (length strs)) 48 16 0 rsv [] strs.

Lemma poke_front front y l :
  (length l <= length y)%nat -> poke (front ++ y) (Z.of_nat (length front)) l = Some (front ++ l ++ drop (length l) y).
Proof.
  intros Hl. destruct (split_length y (length l)) as (y1 & y2 & -> & H1); [done|]. rewrite poke_mid by done. by rewrite drop_app_length' by done.
Qed.

Lemma map_fix_size n ts : size_of (map (fix_token n) ts) = size_of ts.
Proof. induction ts as [|t ts IH]; [done|]. cbn [map]. rewrite !size_of_cons, IH, fix_token_length. done. Qed.

(** The strings are moved behind the structure. *)
Lemma move_strings ws rsv S free strs tail :
  length ws = 10%nat ->
  move (raw ws rsv S (free ++ strs ++ tail)) (40 + Z.of_nat (length rsv) + Z.of_nat (length S))
    (40 + Z.of_nat (length rsv) + Z.of_nat (length S) + Z.of_nat (length free)) (Z.of_nat (length strs))
  = Some (raw ws rsv S (strs ++ drop (length strs) (free ++ strs ++ tail))).
Proof.
  intros Hw. unfold move. assert (length (hdr ws) = 40%nat) as Hh by (rewrite hdr_length; lia).
  assert (slice (raw ws rsv S (free ++ strs ++ tail)) (40 + Z.of_nat (length rsv) + Z.of_nat (length S) + Z.of_nat (length free)) (Z.of_nat (length strs)) = Some strs) as ->.
  { unfold raw. replace (hdr ws ++ rsv ++ S ++ free ++ strs ++ tail) with ((hdr ws ++ rsv ++ S ++ free) ++ strs ++ tail) by (by rewrite <-!app_assoc).
    apply slice_mid; [rewrite !length_app, Hh; lia|done]. }
  cbn [mbind option_bind]. unfold raw.
  replace (40 + Z.of_nat (length rsv) + Z.of_nat (length S)) with (Z.of_nat (length (hdr ws ++ rsv ++ S))) by (rewrite !length_app, Hh; lia).
  replace (hdr ws ++ rsv ++ S ++ free ++ strs ++ tail) with ((hdr ws ++ rsv ++ S) ++ free ++ strs ++ tail) by (by rewrite <-!app_assoc).
  rewrite poke_front by (rewrite !length_app; lia). by rewrite <-!app_assoc.
Qed.

Lemma sw_finish_spec rsv ts free strs tail :
  sw_ok rsv (encs ts) free strs tail -> (24 <= length rsv)%nat -> (4 <= length free)%nat -> Forall tok_ok ts ->
  Forall (fixable (Z.of_nat (length strs))) ts -> TFin ∉ ts ->
  let ts' := map (fix_token (Z.of_nat (length strs))) ts ++ [TFin] in
  ∃ tail', fdt_finish (sw rsv (encs ts) free strs tail) = Some (0, image (done_frame rsv strs (size_of ts')) (encs ts') tail')
    /\ image_ok (done_frame rsv strs (size_of ts')) (encs ts') tail' /\ Forall tok_ok ts'
    /\ Z.of_nat (length (image (done_frame rsv strs (size_of ts')) (encs ts') tail')) = sw_total rsv (encs ts) free strs + Z.of_nat (length tail).
Proof.
  intros Hok H24 H4 Ht Hfx Hnf ts'. unfold fdt_finish. rewrite (sw_header Hok).
  destruct (end_node_spec Hok TFin FDT_END) as (free' & -> & Hf); [done|done|done|].
  assert (sw_ok rsv (encs (ts ++ [TFin])) free' strs tail) as Hok1.
  { eapply sw_ok_shift; [exact Hok|]. rewrite encs_snoc, !length_app. cbn [enc]. rewrite be_bytes4_length. lia. }
  unfold fdt_totalsize, fdt_size_dt_strings, fdt_off_dt_struct, fdt_size_dt_struct.
  rewrite (sw_field Hok1 1 _ 4 eq_refl), (sw_field Hok1 8 _ 32 eq_refl), (sw_field Hok1 2 _ 8 eq_refl), (sw_field Hok1 9 _ 36 eq_refl) by done. cbn [mbind option_bind].
  pose proof Hok1 as [_ Hs]. rewrite sw_total_eq in Hs |- *.
  match goal with |- context [move _ (s32 ?a) (s32 ?b) _] =>
    assert (s32 a = 40 + Z.of_nat (length rsv) + Z.of_nat (length (encs (ts ++ [TFin])))) as -> by (unfold s32, swrap; rewrite Z.mod_small by lia; lia);
    assert (s32 b = 40 + Z.of_nat (length rsv) + Z.of_nat (length (encs (ts ++ [TFin]))) + Z.of_nat (length free')) as -> by (unfold s32, swrap; rewrite Z.mod_small by lia; lia) end.
  unfold sw at 1. rewrite move_strings by done. cbn [mbind option_bind]. unfold fdt_set_off_dt_strings, raw at 1. rewrite (wr32_hdr _ _ 3) by (done || cbn; lia). cbn [mbind option_bind].
  set (R := strs ++ drop (length strs) (free' ++ strs ++ tail)). rewrite u32_small by lia. set (n := Z.of_nat (length (encs (ts ++ [TFin])))) in *.
  set (ws := <[3%nat := _]> (sw_words _ _ _ _)). fold (raw ws rsv (encs (ts ++ [TFin])) R).
  assert (size_of ts' = n) as Hn by (subst ts' n; by rewrite size_of_app, map_fix_size, <-size_of_app).
  assert (Forall word ws) as Hws.
  { subst ws. apply Forall_insert; [|unfold word; lia]. unfold sw_words, word, FDT_SW_MAGIC. rewrite sw_total_eq. repeat (apply Forall_cons; split; [lia|]). by apply Forall_nil. }
  assert (Forall tok_ok ts') as Ht'.
  { subst ts'. apply Forall_app. split; [|apply Forall_cons; split; [done|by apply Forall_nil]]. apply Forall_map. rewrite Forall_forall in *. intros t Hin. apply fix_token_ok; auto. }
  assert (Forall tok_ok (ts ++ [TFin])) as Ht1 by (apply Forall_app; split; [done|apply Forall_cons; split; [done|by apply Forall_nil]]).
  pose proof (encs_bound _ Ht1) as Hb. rewrite length_app in Hb.
  pose proof (fix_names_spec ws rsv R (Z.of_nat (length strs)) Hws eq_refl eq_refl eq_refl eq_refl (S (length (raw ws rsv (encs (ts ++ [TFin])) R))) [] ts) as Hfix.
  cbn [app] in Hfix. rewrite size_of_nil in Hfix. rewrite Hfix; try done.
  2: { change (size_of (ts ++ [TFin])) with n. lia. }
  2: { unfold raw. rewrite !length_app. cbn [length] in Hb. lia. }
  fold ts'. cbn [mbind option_bind]. rewrite (proj2 (Z.ltb_ge _ 0)) by apply size_pos.
  exists (drop (length strs) (free' ++ strs ++ tail)).
  assert (image_ok (done_frame rsv strs (size_of ts')) (encs ts') (drop (length strs) (free' ++ strs ++ tail))) as Hok2.
  { split; unfold done_frame, data_end, FdtImage.base, word; cbn [FdtImage.rsv gap FdtImage.strs total rsvoff last cpu length]; rewrite ?length_drop, ?length_app;
      change (Z.of_nat (length (encs ts'))) with (size_of ts'); rewrite ?Hn; lia. }
  split_and!; [|done|done|].
  2: { rewrite image_length. unfold data_end, FdtImage.base. cbn [done_frame FdtImage.rsv gap FdtImage.strs]. change (Z.of_nat (length (encs ts'))) with (size_of ts').
       rewrite Hn, sw_total_eq, length_drop, !length_app. subst n. rewrite encs_snoc, length_app. cbn [enc length]. rewrite be_bytes4_length. lia. }
  assert (rd32 (raw ws rsv (encs ts') R) 32 = Some (Z.of_nat (length strs))) as -> by (by apply (rd32_hdr ws _ 8)). cbn [mbind option_bind].
  unfold fdt_set_totalsize, fdt_set_magic, raw. rewrite (wr32_hdr _ _ 1) by (done || cbn; lia). cbn [mbind option_bind]. rewrite (wr32_hdr _ _ 0) by (done || cbn; lia). cbn [mbind option_bind].
  change (u32 FDT_MAGIC) with FDT_MAGIC. rewrite u32_small by lia. unfold image. subst R. cbn [done_frame FdtImage.rsv gap FdtImage.strs app]. do 3 f_equal.
  apply (f_equal hdr). change (Z.of_nat (length (encs ts'))) with (size_of ts'). rewrite Hn. unfold ws, words_of, done_frame, FdtImage.base. cbn. by rewrite Z.add_0_r.
Qed.

(** ** The beginning *)

Lemma create_spec buf bufsize :
  48 <= bufsize -> bufsize <= Z.of_nat (length buf) -> Z.of_nat (length buf) < 2 ^ 31 ->
  fdt_create buf bufsize
  = Some (0, sw (replicate 8 0) [] (replicate (Z.to_nat (bufsize - 48)) 0) [] (drop (Z.to_nat bufsize) buf)).
Proof.
  intros H48 Hb Hs. unfold fdt_create. rewrite u64_small by lia. rewrite (proj2 (Z.ltb_ge bufsize 40)), decide_True by lia.
  assert (poke buf 0 (replicate (Z.to_nat bufsize) 0) = Some (hdr (replicate 10 0) ++ replicate 8 0 ++ replicate (Z.to_nat (bufsize - 48)) 0 ++ drop (Z.to_nat bufsize) buf)) as ->.
  { unfold poke. rewrite decide_True by (rewrite length_replicate; lia). f_equal. change (Z.to_nat 0) with 0%nat. rewrite take_0, length_replicate. cbn [app Nat.add].
    replace (Z.to_nat bufsize) with (40 + (8 + Z.to_nat (bufsize - 48)))%nat at 1 by lia. rewrite !replicate_add, <-!app_assoc. done. }
  cbn [mbind option_bind]. unfold fdt_set_magic, fdt_set_version, fdt_set_last_comp_version, fdt_set_totalsize, fdt_set_off_mem_rsvmap, fdt_off_mem_rsvmap, fdt_set_off_dt_struct, fdt_set_off_dt_strings.
  rewrite (wr32_hdr _ _ 0) by (done || cbn; lia). cbn [mbind option_bind]. rewrite (wr32_hdr _ _ 5) by (done || cbn; lia). cbn [mbind option_bind].
  rewrite (wr32_hdr _ _ 6) by (done || cbn; lia). cbn [mbind option_bind]. rewrite (wr32_hdr _ _ 1) by (done || cbn; lia). cbn [mbind option_bind].
  rewrite (wr32_hdr _ _ 4) by (done || cbn; lia). cbn [mbind option_bind]. rewrite (u32_small bufsize) by lia.
  set (ws := <[4%nat := _]> _). assert (rd32 (hdr ws ++ replicate 8 0 ++ replicate (Z.to_nat (bufsize - 48)) 0 ++ drop (Z.to_nat bufsize) buf) 16 = Some 48) as ->.
  { apply (rd32_hdr ws _ 4); [|done|done]. subst ws. unfold word. cbn. repeat (apply Forall_cons; split; [lia || (vm_compute; intuition discriminate)|]). by apply Forall_nil. }
  cbn [mbind option_bind]. rewrite (wr32_hdr _ _ 2) by (done || cbn; lia). cbn [mbind option_bind]. rewrite (wr32_hdr _ _ 3) by (done || cbn; lia). cbn [mbind option_bind].
  rewrite (u32_small bufsize) by lia. unfold sw, raw. cbn [app]. do 3 f_equal. apply (f_equal hdr). rewrite sw_total_eq, !length_replicate. cbn [length].
  replace (40 + Z.of_nat 8 + Z.of_nat 0 + Z.of_nat (Z.to_nat (bufsize - 48)) + Z.of_nat 0) with bufsize by lia. done.
Qed.

Lemma reserve_entry_spec rsv free tail addr size :
  sw_ok rsv [] free [] tail -> (16 <= length free)%nat ->
  let l := be_bytes8 addr ++ be_bytes8 size in
  ∃ free', fdt_add_reservemap_entry (sw rsv [] free [] tail) addr size = Some (0, sw (rsv ++ l) [] free' [] tail)
    /\ (16 + length free' = length free)%nat /\ sw_ok (rsv ++ l) [] free' [] tail.
Proof.
  intros Hok H16 l. pose proof Hok as [H8 Hs]. rewrite sw_total_eq in Hs. cbn [length] in Hs. unfold fdt_add_reservemap_entry. rewrite (sw_header Hok).
  unfold fdt_size_dt_struct, fdt_off_dt_struct, fdt_totalsize. rewrite (sw_field Hok 9 _ 36 eq_refl), (sw_field Hok 2 _ 8 eq_refl), (sw_field Hok 1 _ 4 eq_refl) by done.
  cbn [mbind option_bind length]. change (negb (Z.of_nat 0 =? 0)) with false. cbv iota.
  assert (s32 (40 + Z.of_nat (length rsv)) = 40 + Z.of_nat (length rsv)) as -> by (unfold s32, swrap; rewrite Z.mod_small by lia; lia).
  rewrite u64_small by lia. rewrite sw_total_eq, (proj2 (Z.ltb_ge _ _)) by (cbn [length]; lia).
  destruct (split_length free 8) as (g1 & f1 & -> & Hg1); [lia|]. rewrite length_app in *. destruct (split_length f1 8) as (g2 & free' & -> & Hg2); [lia|]. rewrite length_app in *.
  assert (length l = 16%nat) as Hl by done. exists free'. unfold sw, raw. cbn [app].
  set (ws := sw_words _ _ _ _). assert (length (hdr ws) = 40%nat) as Hh by (by rewrite hdr_length).
  replace (hdr ws ++ rsv ++ (g1 ++ g2 ++ free') ++ tail) with ((hdr ws ++ rsv) ++ g1 ++ (g2 ++ free' ++ tail)) by (by rewrite <-!app_assoc).
  rewrite poke_mid by (rewrite ?length_app, ?Hh, ?Hg1; done || lia). cbn [mbind option_bind]. rewrite (app_assoc (hdr ws ++ rsv)).
  rewrite poke_mid by (rewrite ?length_app, ?Hh, ?Hg2; cbn [length be_bytes8 be_bytes4 app]; done || lia). cbn [mbind option_bind].
  unfold fdt_set_off_dt_struct. rewrite <-!app_assoc, (wr32_hdr _ _ 2) by (done || cbn; lia). cbn [mbind option_bind]. rewrite u32_small by lia.
  split_and!; [|lia|].
  - do 2 f_equal. subst l. rewrite <-!app_assoc. f_equal. apply (f_equal hdr). subst ws. rewrite !sw_total_eq, !length_app. cbn [length].
    unfold sw_words. cbn [insert list_insert]. change (length (be_bytes8 _)) with 8%nat. do 2 f_equal; [lia|]. f_equal; [lia|]. f_equal. lia.
  - split; [rewrite length_app; lia|]. rewrite sw_total_eq, length_app. cbn [length]. lia.
Qed.

(** The bytes of the reservation map, with the entry that ends it. *)
Definition rsv_bytes (rs : list (Z * Z)) : list Z := concat (map (λ '(a, s), be_bytes8 a ++ be_bytes8 s) rs).

Lemma rsv_bytes_length rs : length (rsv_bytes rs) = (16 * length rs)%nat.
Proof. unfold rsv_bytes. induction rs as [|[a s] rs IH]; [done|]. cbn [map concat length]. rewrite length_app, IH. change (length (be_bytes8 a ++ be_bytes8 s)) with 16%nat. lia. Qed.

Lemma reserve_spec rs : ∀ rsv free tail,
  sw_ok rsv [] free [] tail -> (16 * (length rs + 1) <= length free)%nat ->
  ∃ free', reserve rs (sw rsv [] free [] tail) = Some (0, sw (rsv ++ rsv_bytes (rs ++ [(0, 0)])) [] free' [] tail)
    /\ (16 * (length rs + 1) + length free' = length free)%nat /\ sw_ok (rsv ++ rsv_bytes (rs ++ [(0, 0)])) [] free' [] tail.
Proof.
  induction rs as [|[a s] rs IH]; intros rsv free tail Hok Hlen; cbn [length reserve app] in *.
  - unfold fdt_finish_reservemap. destruct (reserve_entry_spec rsv free tail 0 0 Hok) as (free' & -> & Hl & Hok'); [lia|]. exists free'. split_and!; [done|lia|done].
  - destruct (reserve_entry_spec rsv free tail a s Hok) as (free1 & Hr & Hl & Hok1); [lia|].
    unfold on_success. rewrite Hr. cbn [mbind option_bind]. change (0 =? 0) with true. cbv iota.
    destruct (IH _ _ _ Hok1) as (free' & -> & Hl' & Hok'); [lia|]. exists free'. unfold rsv_bytes in *. cbn [map concat]. rewrite <-!app_assoc in *. split_and!; [done|lia|done].
Qed.

(** ** Reading what was written *)

Fixpoint fix_items (n : Z) (b : items) : items :=
  match b with
  | Nil => Nil
  | Nop r => Nop (fix_items n r)
  | Property no val pad r => Property (s32 no + n) val pad (fix_items n r)
  | Node m pad body r => Node m pad (fix_items n body) (fix_items n r)
  end.

Lemma toks_fix n b : toks (fix_items n b) = map (fix_token n) (toks b).
Proof. induction b as [|r IH|? ? ? r IH|? ? b IHb r IHr]; cbn [fix_items toks map fix_token]; rewrite ?IH; try done. by rewrite map_app, IHb, IHr. Qed.

Lemma string_at_length l o s : string_at l o = Some s -> 0 <= o < Z.of_nat (length l).
Proof. intros [Hh _]%string_at_inv. destruct (holds_length _ _ _ Hh) as [? Hl]; [by destruct s|]. rewrite length_app in Hl. cbn in Hl. lia. Qed.

Lemma sw_name_at strs no s : sw_name strs no = Some s -> string_at strs (s32 no + Z.of_nat (length strs)) = Some s.
Proof. unfold sw_name. by destruct (s32 no <? 0). Qed.

Lemma represents_fix strs b d :
  Z.of_nat (length strs) < 2 ^ 31 -> represents (sw_name strs) b d ->
  represents (string_at strs) (fix_items (Z.of_nat (length strs)) b) d /\ Forall (fixable (Z.of_nat (length strs))) (toks b) /\ (TFin ∉ toks b).
Proof.
  intros Hs. revert d. induction b as [|r IH|no v pd r IH|n pd body IHb r IHr]; intros d H; destruct d; cbn [represents fix_items toks] in *; try done.
  - split_and!; [done|by apply Forall_nil|apply not_elem_of_nil].
  - destruct H as (Hn & -> & Hr). destruct (IH _ Hr) as (? & ? & ?). apply sw_name_at in Hn. pose proof (string_at_length _ _ _ Hn).
    split_and!; try done; [|by apply not_elem_of_cons]. apply Forall_cons. split; [cbn [fixable]; lia|done].
  - destruct H as (-> & Hb & Hr). destruct (IHb _ Hb) as (? & ? & ?), (IHr _ Hr) as (? & ? & ?). split_and!; try done.
    + apply Forall_cons. split; [done|]. apply Forall_app. split; [done|]. by apply Forall_cons.
    + rewrite not_elem_of_cons, not_elem_of_app, not_elem_of_cons. done.
Qed.

(** The first property of a name and the first child with a matching name, in
    the description of a tree. *)
Fixpoint dprop (m : cstr) (d : dtree) : option (list Z) :=
  match d with DProp name val rest => if bool_decide (name = m) then Some val else dprop m rest | _ => None end.

Fixpoint dchild (s : cstr) (d : dtree) : option dtree :=
  match d with
  | DNil => None
  | DProp _ _ rest => dchild s rest
  | DNode name body rest => if name_matches name s then Some body else dchild s rest
  end.

Fixpoint ddescend (cs : list cstr) (d : dtree) : option dtree :=
  match cs with [] => Some d | c :: cs => d' ← dchild c d; ddescend cs d' end.

Lemma represents_prop fr S tail b d m :
  image_ok fr S tail -> represents (string_at (strs fr)) b d -> prop_value (image fr S tail) m b = dprop m d.
Proof.
  intros Hok. unfold prop_value. generalize 0. revert d. induction b as [|r IH|no v pd r IH|n pd body _ r _]; intros d o H; destruct d; cbn [represents find_prop dprop] in *; try done.
  destruct H as (Hn & -> & Hr). rewrite (prop_name_image Hok _ _ Hn). rewrite (bool_decide_ext (Some name = Some m) (name = m)) by (split; congruence).
  case_bool_decide; [done|by apply IH].
Qed.

Lemma represents_child nm b d s :
  represents nm b d -> match child s b with Some (_, b') => ∃ d', dchild s d = Some d' /\ represents nm b' d' | None => dchild s d = None end.
Proof.
  unfold child. generalize 0. revert d. induction b as [|r IH|no v pd r IH|n pd body _ r IH]; intros d o H; destruct d; cbn [represents find_child dchild] in *; try done.
  - destruct H as (_ & -> & Hr). by apply IH.
  - destruct H as (-> & Hb & Hr). destruct (name_matches name s); [by exists d1|by apply IH].
Qed.

Lemma represents_descend nm cs : ∀ n b d, represents nm b d ->
  match descend cs (n, b) with Some (_, b') => ∃ d', ddescend cs d = Some d' /\ represents nm b' d' | None => ddescend cs d = None end.
Proof.
  induction cs as [|c cs IH]; intros n b d H; cbn [descend ddescend snd]; [by exists d|].
  pose proof (represents_child _ _ _ c H) as Hc. destruct (child c b) as [[n' b']|]; cbn [mbind option_bind]; [|by rewrite Hc].
  destruct Hc as (d' & -> & Hr). cbn [mbind option_bind]. by apply IH.
Qed.

(** The blob that is built. *)
Lemma build_spec buf bufsize rs d :
  wf d -> bufsize <= Z.of_nat (length buf) -> Z.of_nat (length buf) < 2 ^ 31 -> 80 + 16 * Z.of_nat (length rs) + cost d <= bufsize ->
  ∃ fr pad b tail, build buf bufsize rs d = Some (0, image fr (encs (tree_toks [] pad b)) tail)
    /\ image_ok fr (encs (tree_toks [] pad b)) tail /\ Forall tok_ok (tree_toks [] pad b)
    /\ represents (string_at (strs fr)) b d
    /\ rsv fr = replicate 8 0 ++ rsv_bytes (rs ++ [(0, 0)]) /\ rsvoff fr = 48
    /\ length (image fr (encs (tree_toks [] pad b)) tail) = length buf.
Proof.
  intros Hwf Hb Hs Hroom. pose proof (cost_pos d). unfold build, on_success. rewrite create_spec by lia. cbn [mbind option_bind]. change (0 =? 0) with true. cbv iota.
  assert (sw_ok (replicate 8 0) [] (replicate (Z.to_nat (bufsize - 48)) 0) [] (drop (Z.to_nat bufsize) buf)) as Hok0.
  { split; [done|]. rewrite sw_total_eq, !length_replicate, length_drop. cbn [length]. lia. }
  destruct (reserve_spec rs _ _ _ Hok0) as (free1 & -> & Hl1 & Hok1); [rewrite length_replicate; lia|]. rewrite length_replicate in Hl1.
  cbn [mbind option_bind]. change (0 =? 0) with true. cbv iota. set (rv := replicate 8 0 ++ rsv_bytes (rs ++ [(0, 0)])) in *.
  destruct (emit_spec rv (drop (Z.to_nat bufsize) buf) (DNode [] d DNil) [] free1 [] Hok1) as (bb & l & free2 & Hem & Hrep & Hok2 & Hc & Hlen);
    [split_and!; [by apply Forall_nil|done|done]|cbn [cost length]; lia|].
  change (encs []) with ([] : list Z) in Hem. rewrite Hem. cbn [mbind option_bind]. change (0 =? 0) with true. cbv iota. clear Hem.
  cbn [app cost length] in *. rewrite app_nil_r in *.
  assert (sw_ok rv (encs (toks bb)) free2 l (drop (Z.to_nat bufsize) buf)) as Hok3 by (eapply sw_ok_shift; [exact Hok1|]; cbn [length]; lia).
  destruct (represents_fix l bb (DNode [] d DNil)) as (Hrep' & Hfx & Hnf); [destruct Hok3 as [_ Ht]; rewrite sw_total_eq in Ht; lia|done|].
  destruct bb as [| | |n pad b br]; cbn [represents] in Hrep'; try done. destruct Hrep' as (-> & Hrb & Hrr). destruct br; try done.
  destruct (sw_finish_spec rv _ free2 l _ Hok3) as (tail' & Hfin & Hokf & Htf & Hlf); [|lia|done|done|done|].
  { subst rv. rewrite length_app, length_replicate, rsv_bytes_length, length_app. cbn [length]. lia. }
  rewrite <-toks_fix in *. cbn [fix_items toks app] in *. rewrite <-app_assoc in *. cbn [app] in *.
  eexists _, pad, (fix_items (Z.of_nat (length l)) b), tail'. split_and!; [exact Hfin|exact Hokf|exact Htf|exact Hrb|done|done|].
  apply Nat2Z.inj. unfold tree_toks. rewrite Hlf, sw_total_eq, length_drop. subst rv. rewrite length_app, length_replicate, rsv_bytes_length, length_app. cbn [length]. lia.
Qed.

Lemma be_bytes8_spec v : 0 <= v < 2 ^ 64 -> be32 (be_bytes8 v) = v.
Proof.
  intros H. unfold be_bytes8. rewrite be32_app. change (256 ^ Z.of_nat (length (be_bytes4 (u32 v)))) with (2 ^ 32).
  assert (word (u32 v) /\ word (u32 (v ≫ 32))) as [H1 H2] by (unfold word, u32, wrap; split; apply Z.mod_pos_bound; lia).
  destruct (be_bytes4_spec _ H1) as (_ & _ & ->), (be_bytes4_spec _ H2) as (_ & _ & ->). unfold u32, wrap. rewrite Z.shiftr_div_pow2 by lia. Z.div_mod_to_equations. lia.
Qed.

Lemma rd64_image fr S tail a v c p :
  rsv fr = a ++ be_bytes8 v ++ c -> p = 40 + Z.of_nat (length a) -> 0 <= v < 2 ^ 64 -> rd64 (image fr S tail) p = Some v.
Proof.
  intros E -> Hv. unfold rd64, image. rewrite E. set (h := hdr _). assert (length h = 40%nat) as Hh by (subst h; by rewrite hdr_length).
  rewrite decide_True by (rewrite !length_app, Hh; change (length (be_bytes8 v)) with 8%nat; lia). f_equal.
  replace (h ++ (a ++ be_bytes8 v ++ c) ++ S ++ gap fr ++ strs fr ++ tail) with ((h ++ a) ++ be_bytes8 v ++ (c ++ S ++ gap fr ++ strs fr ++ tail)) by (by rewrite <-!app_assoc).
  rewrite drop_app_length' by (rewrite length_app, Hh; lia). rewrite take_app_length' by done. by apply be_bytes8_spec.
Qed.

Lemma mem_rsv_image fr S tail rs i a s :
  image_ok fr S tail -> rsv fr = replicate 8 0 ++ rsv_bytes rs -> rsvoff fr = 48 -> rs !! i = Some (a, s) -> 0 <= a < 2 ^ 64 -> 0 <= s < 2 ^ 64 ->
  fdt_get_mem_rsv (image fr S tail) (Z.of_nat i) = Some (inr (a, s)).
Proof.
  intros Hok Hr Ho Hi Ha Hs. unfold fdt_get_mem_rsv, _fdt_mem_rsv, with_header.
  pose proof (image_header Hok) as Hh. unfold _fdt_rw_check_header, with_header in Hh.
  destruct (fdt_check_header (image fr S tail)) as [err|]; [|done]. cbn [mbind option_bind] in *. destruct (err =? 0) eqn:E; [|injection Hh as ->; done]. clear Hh.
  unfold fdt_off_mem_rsvmap. rewrite (field Hok 4 _ 16 eq_refl) by done. cbn [mbind option_bind]. rewrite Ho.
  rewrite <-(take_drop_middle rs i _ Hi) in Hr. unfold rsv_bytes in Hr. rewrite map_app, concat_app in Hr. cbn [map concat] in Hr.
  fold (rsv_bytes (take i rs)) (rsv_bytes (drop (Datatypes.S i) rs)) in Hr. apply lookup_lt_Some in Hi.
  assert (length (rsv_bytes (take i rs)) = 16 * i)%nat as Hl by (rewrite rsv_bytes_length, length_take; lia).
  rewrite (rd64_image fr S tail (replicate 8 0 ++ rsv_bytes (take i rs)) a (be_bytes8 s ++ rsv_bytes (drop (Datatypes.S i) rs)) (48 + 16 * Z.of_nat i)); [|by rewrite Hr, <-!app_assoc|rewrite length_app, length_replicate, Hl; lia|done].
  cbn [mbind option_bind].
  rewrite (rd64_image fr S tail ((replicate 8 0 ++ rsv_bytes (take i rs)) ++ be_bytes8 a) s (rsv_bytes (drop (Datatypes.S i) rs)) (48 + 16 * Z.of_nat i + 8)); [done|by rewrite Hr, <-!app_assoc| |done].
  rewrite !length_app, length_replicate, Hl. change (length (be_bytes8 a)) with 8%nat. lia.
Qed.

Lemma represents_names strs b d : Z.of_nat (length strs) < 2 ^ 31 -> represents (string_at strs) b d -> names_in strs b.
Proof.
  intros Hs. revert d. induction b as [|r IH|no v pd r IH|n pd body IHb r IHr]; intros d H; destruct d; cbn [represents names_in] in *; try done.
  - destruct H as (Hn & -> & Hr). pose proof (string_at_length _ _ _ Hn). split_and!; [lia|by eexists|by eapply IH].
  - destruct H as (-> & Hb & Hr). split; [by eapply IHb|by eapply IHr].
Qed.

(** C17. Building and reading agree: if the buffer has room for the reservations,
    the nodes, the properties and their names, the calls [fdt_create],
    [fdt_add_reservemap_entry], [fdt_begin_node], [fdt_property], [fdt_end_node]
    and [fdt_finish] all succeed, and in the result every path
    leads where it leads in the tree that was written, every property has the
    value that was written ([-FDT_ERR_NOTFOUND] when none was), and the
    reservations are those that were added. *)
Theorem fdt_build_read buf bufsize rs d :
  wf d -> bufsize <= Z.of_nat (length buf) -> Z.of_nat (length buf) < 2 ^ 31 -> 80 + 16 * Z.of_nat (length rs) + cost d <= bufsize ->
  Forall (λ '(a, s), 0 <= a < 2 ^ 64 /\ 0 <= s < 2 ^ 64) rs ->
  ∃ fdt, build buf bufsize rs d = Some (0, fdt) /\ length fdt = length buf
    /\ (∀ i r, rs !! i = Some r -> fdt_get_mem_rsv fdt (Z.of_nat i) = Some (inr r))
    /\ ∀ cs name, cs <> [] -> Forall component_ok cs -> Forall (λ c, c <> 0) name ->
       match ddescend cs d with
       | None => fdt_path_offset fdt (path_text cs) = Some (- FDT_ERR_NOTFOUND)
       | Some d' => ∃ off, fdt_path_offset fdt (path_text cs) = Some off
           /\ match dprop name d' with
              | Some val => ∃ p, fdt_getprop fdt off name = Some (inr (p, Z.of_nat (length val))) /\ holds fdt p val
              | None => fdt_getprop fdt off name = Some (inl (- FDT_ERR_NOTFOUND))
              end
       end.
Proof.
  intros Hwf Hb Hs Hroom Hrs. destruct (build_spec buf bufsize rs d Hwf Hb Hs Hroom) as (fr & pad & b & tail & Hbuild & Hok & Ht & Hrep & Hrsv & Ho & Hlen).
  pose proof (image_blob _ _ _ Hok Ht) as HB. eexists. split; [exact Hbuild|]. split; [exact Hlen|]. split.
  - intros i [a s] Hi. pose proof (Forall_lookup_1 _ _ _ _ Hrs Hi) as [Ha Hsz]. apply (mem_rsv_image fr _ _ (rs ++ [(0, 0)])); try done. by apply lookup_app_l_Some.
  - intros cs name Hne Hcs Hn.
    assert (head (path_text cs) = Some 47) as Hh by (by destruct cs). unfold fdt_path_offset. cbn [path_offset]. rewrite bool_decide_true by done.
    unfold absolute_path_offset. rewrite (with_header_ok HB).
    pose proof (path_loop_spec HB (S (length (path_text cs))) cs 0 [] b (root_at _ _ _) Hcs ltac:(lia)) as Hpath. pose proof (represents_descend _ cs [] b d Hrep) as Hd.
    destruct (descend cs ([], b)) as [[n' b']|]; [|by rewrite Hd]. destruct Hd as (d' & -> & Hr), Hpath as (off & Hp & Hat).
    exists off. split; [exact Hp|]. rewrite <-(represents_prop _ _ _ _ _ name Hok Hr). apply (getprop_tree HB _ _ _ _ Hat); [|done].
    apply (names_named Hok). eapply represents_names; [|exact Hr]. pose proof (ok_small _ _ _ Hok) as Hsm. unfold data_end, FdtImage.base in Hsm. lia.
Qed.

(** ** Examples *)

Definition ex_tree : dtree :=
  DProp (chars "model") (chars "EAIDK-610") (DNode (chars "cpu@0") (DProp (chars "reg") [0; 0; 0; 0] DNil) (DNode (chars "chosen") DNil DNil)).

(** A blob is built in 256 bytes, of which 240 are given to [fdt_create]. *)
Lemma fdt_build_read_witness :
  ∃ fdt, build (replicate 256 255) 240 [(0x200000, 0x1000)] ex_tree = Some (0, fdt) /\ length fdt = length (replicate 256 255)
    /\ (∀ i r, [(0x200000, 0x1000)] !! i = Some r -> fdt_get_mem_rsv fdt (Z.of_nat i) = Some (inr r))
    /\ ∀ cs name, cs <> [] -> Forall component_ok cs -> Forall (λ c, c <> 0) name ->
       match ddescend cs ex_tree with
       | None => fdt_path_offset fdt (path_text cs) = Some (- FDT_ERR_NOTFOUND)
       | Some d' => ∃ off, fdt_path_offset fdt (path_text cs) = Some off
           /\ match dprop name d' with
              | Some val => ∃ p, fdt_getprop fdt off name = Some (inr (p, Z.of_nat (length val))) /\ holds fdt p val
              | None => fdt_getprop fdt off name = Some (inl (- FDT_ERR_NOTFOUND))
              end
       end.
Proof.
  apply (fdt_build_read (replicate 256 255) 240 [(0x200000, 0x1000)] ex_tree).
  - cbn [wf ex_tree]. split_and!; repeat constructor; discriminate.
  - vm_compute. discriminate.
  - vm_compute. reflexivity.
  - vm_compute. discriminate.
  - apply Forall_cons. split; [lia|by apply Forall_nil].
Defined.

(** In 100 bytes at 0 a node is begun; [fdt_resize] then moves the work to 120
    bytes at 120.  It succeeds, but the structure block is not copied: the
    word where the tag was is what the new area contained. *)
Lemma fdt_resize_loses_structure :
  (r ← fdt_create (replicate 240 255) 100;
   r ← fdt_finish_reservemap (snd r);
   r ← fdt_begin_node (snd r) [];
   before ← fdt_next_tag (snd r) 0;
   r ← fdt_resize (snd r) 0 120 120;
   let buf := drop 120 (snd r) in
   size ← fdt_size_dt_struct buf;
   p ← _fdt_offset_ptr buf 0;
   tag ← rd32 buf p;
   Some (fst r, fst before, size, tag)) = Some (0, FDT_BEGIN_NODE, 8, 0xffffffff).
Proof. vm_compute. reflexivity. Qed.

(** [fdt_create] accepts 44 bytes, which is less than the offset of the
    structure block; the room left is then negative, counts as huge, and
    [fdt_begin_node] writes outside of the buffer. *)
Lemma fdt_begin_node_overflows :
  (r ← fdt_create (replicate 44 0) 44; Some (fst r)) = Some 0 /\ (r ← fdt_create (replicate 44 0) 44; fdt_begin_node (snd r) []) = None.
Proof. split; vm_compute; reflexivity. Qed.
