(* ===== verification/RsaVerify.v ===== *)
(** * The keys of a signature ([lib/rsa/rsa-verify.c], [lib/fdtdec_common.c])

    [rsa_verify] reads public keys from the control device tree with [libfdt]
    and looks for one that accepts the signature of an image. *)

From S2P Require Import Prelude Crc Bytes Ctype Cstring Hashtable Fdt FdtTree Rsa.

Definition fdtdec_get_int (blob : list Z) (node : Z) (prop_name : cstr) (default_val : Z) : option Z :=
  cell ← fdt_getprop blob node prop_name;
  match cell with
  | inr (p, len) => if 4 <=? len then v ← rd32 blob p; Some (s32 v) else Some default_val
  | inl _ => Some default_val
  end.

(** The words of a property; [rsa_convert_big_endian] reads as many as it needs. *)
Definition key_words (blob : list Z) (p : Z) (words : nat) : option (list Z) :=
  rsa_convert_big_endian (drop (Z.to_nat p) blob) words.

(** The key of a node, or the error. *)
Definition read_key (blob : list Z) (node : Z) : option (Z + rsa_public_key) :=
  n0 ← fdt_getprop blob node (chars "rsa,n0-inverse");
  match n0 with
  | inl _ => Some (inl (- EFAULT))
  | inr _ =>
      bits ← fdtdec_get_int blob node (chars "rsa,num-bits") 0;
      n0inv ← fdtdec_get_int blob node (chars "rsa,n0-inverse") 0;
      public_exponent ← fdt_getprop blob node (chars "rsa,exponent");
      e ← match public_exponent with
          | inr (p, length) => if length <? 8 then Some RSA_DEFAULT_PUBEXP else rd64 blob p
          | inl _ => Some RSA_DEFAULT_PUBEXP
          end;
      modulus ← fdt_getprop blob node (chars "rsa,modulus");
      rr ← fdt_getprop blob node (chars "rsa,r-squared");
      match modulus, rr with
      | inr (m, _), inr (r, _) =>
          let len := u32 bits in
          if len =? 0 then Some (inl (- EFAULT))
          else if (RSA_MAX_KEY_BITS <? len) || (len <? RSA_MIN_KEY_BITS) then Some (inl (- EFAULT))
          else
            let words := Z.to_nat (len / 32) in
            key1 ← key_words blob m words;
            key2 ← key_words blob r words;
            Some (inr (Key (u32 n0inv) key1 key2 e))
      | _, _ => Some (inl (- EFAULT))
      end
  end.

Definition rsa_verify_with_keynode (blob : list Z) (algo : checksum_algo) (hash sig : list Z)
    (sig_len node : Z) : option Z :=
  if node <? 0 then Some (- EBADF)
  else
    r ← read_key blob node;
    match r with
    | inl e => Some e
    | inr key => rsa_verify_key key sig sig_len hash algo
    end.

(** [keyname] is NULL for an image without a hint; [checksum] is the one of
    [info->algo]. *)
Record image_sign_info := Info {
  keyname : option cstr;
  fit : list Z;
  checksum : checksum_algo;
  fdt_blob : list Z;
  required_keynode : Z
}.

(** [snprintf(name, sizeof(name), "key-%s", info->keyname)] with 100 bytes. *)
Definition key_node_name (keyname : option cstr) : cstr :=
  take 99 (chars "key-" ++ default (chars "<NULL>") keyname).

(** The loop over the other keys, with the result so far.  It walks [info->fit]. *)
Fixpoint try_keys (fuel : nat) (info : image_sign_info) (hash sig : list Z) (sig_len node noffset ndepth ret : Z)
    : option Z :=
  match fuel with
  | O => None
  | S fuel =>
      if negb ((0 <=? noffset) && (0 <? ndepth)) then Some ret
      else
        let tried := (ndepth =? 1) && negb (noffset =? node) in
        ret ← (if tried then rsa_verify_with_keynode (fdt_blob info) (checksum info) hash sig sig_len noffset
               else Some ret);
        if tried && (ret =? 0) then Some ret
        else
          '(noffset, ndepth) ← fdt_next_node (fit info) noffset (Some ndepth);
          try_keys fuel info hash sig sig_len node noffset (default 0 ndepth) ret
  end.

Definition rsa_verify (info : image_sign_info) (region : list (list Z)) (sig : list Z) (sig_len : Z) : option Z :=
  if pad_len (checksum info) <? checksum_len (checksum info) then Some (- EINVAL)
  else
    sig_node ← fdt_subnode_offset (fdt_blob info) 0 (chars "signature");
    if sig_node <? 0 then Some (- ENOENT)
    else
      let hash := calculate (checksum info) region in
      let verify := rsa_verify_with_keynode (fdt_blob info) (checksum info) hash sig sig_len in
      r0 ← (if required_keynode info =? -1 then Some (-1) else verify (required_keynode info));
      if r0 =? 0 then Some 0
      else
        node ← fdt_subnode_offset (fdt_blob info) sig_node (key_node_name (keyname info));
        ret ← verify node;
        if ret =? 0 then Some ret
        else
          '(noffset, ndepth) ← fdt_next_node (fit info) sig_node (Some 0);
          try_keys (S (length (fit info))) info hash sig sig_len node noffset (default 0 ndepth) ret.

(** ** Soundness *)

Lemma try_keys_sound fuel info hash sig n node noffset ndepth ret :
  ret <> 0 -> try_keys fuel info hash sig n node noffset ndepth ret = Some 0 ->
  ∃ k, rsa_verify_with_keynode (fdt_blob info) (checksum info) hash sig n k = Some 0.
Proof.
  revert noffset ndepth ret. induction fuel as [|fuel IH]; intros noffset ndepth ret Hr H; cbn [try_keys] in H; [done|].
  case_test_in H; [by injection H|]. destruct ((ndepth =? 1) && negb (noffset =? node)); cbn [andb] in H.
  - bind_inv H. destruct (Z.eqb_spec z 0) as [->|Hz]; [by exists noffset|]. bind_inv H. destruct p as [o d]. by eapply IH.
  - cbn [mbind option_bind] in H. bind_inv H. destruct p as [o d]. by eapply IH.
Qed.

(** An accepted signature was accepted by a key of the control tree. *)
Lemma rsa_verify_key_found info region sig n :
  rsa_verify info region sig n = Some 0 ->
  ∃ k, rsa_verify_with_keynode (fdt_blob info) (checksum info) (calculate (checksum info) region) sig n k = Some 0.
Proof.
  unfold rsa_verify. intros H. case_test_in H; [done|]. bind_inv H. case_test_in H; [done|]. bind_inv H.
  destruct (Z.eqb_spec z0 0) as [->|Hz]; [case_test_in Hb0; [done|]; by eexists|].
  bind_inv H. bind_inv H. destruct (Z.eqb_spec z2 0) as [->|Hz2]; [by eexists|].
  bind_inv H. destruct p as [o d]. by eapply try_keys_sound.
Qed.

(** ** What an accepted signature proves *)

(** Keys that [pow_mod] computes with, of one of the two sizes. *)
Record valid_key (key : rsa_public_key) : Prop := {
  valid_ok : key_ok key;
  valid_full : full_length key;
  valid_length : length (modulus key) = 64%nat \/ length (modulus key) = 128%nat;
  valid_exponent : 1 < exponent key < 2 ^ 33;
  valid_odd : Z.odd (exponent key) = true
}.

(** [sig ^ e mod n] is the number with these bytes. *)
Definition signed_by (key : rsa_public_key) (sig message : list Z) : Prop :=
  be32 sig ^ exponent key mod wval (modulus key) = be32 message.

(** The padding and the hash of an algorithm fill a signature. *)
Record algo_ok (a : checksum_algo) (hash : list Z) : Prop := {
  algo_pad_len : pad_len a = 256 \/ pad_len a = 512;
  algo_sum_len : 0 < checksum_len a <= 64;
  algo_padding_len : Z.of_nat (length (rsa_padding a)) = pad_len a - checksum_len a;
  algo_hash_len : Z.of_nat (length hash) = checksum_len a;
  algo_padding_bytes : Forall byte (rsa_padding a);
  algo_hash_bytes : Forall byte hash
}.

(** A signature is only accepted when its length is the one of the algorithm. *)
Lemma rsa_verify_key_length key sig n hash a :
  valid_key key -> algo_ok a hash -> Forall byte sig -> rsa_verify_key key sig n hash a = Some 0 ->
  n = pad_len a /\ n = 4 * key_len key /\ n <= Z.of_nat (length sig).
Proof.
  intros Hk Ha Hs H. unfold rsa_verify_key in H. case_test_in H; [done|]. case_test_in H; [done|]. case_test_in H; [done|].
  apply negb_false_iff, Z.eqb_eq in E. apply Z.ltb_ge in E1. unfold key_len in *.
  destruct (pow_mod_main key (take (Z.to_nat n) sig) (valid_ok _ Hk) (valid_full _ Hk)) as (out & Ho & _ & Hol & _);
    [destruct (valid_length _ Hk); lia|exact (valid_exponent _ Hk)|exact (valid_odd _ Hk)|by apply Forall_take|rewrite length_take; lia|].
  rewrite Ho in H. cbn [mbind option_bind] in H. bind_inv H. case_test_in H; [done|]. subst. bind_inv H. case_test_in H; [done|]. subst.
  apply differs_false in Hb, Hb0. rewrite length_drop in Hb0. rewrite length_take in Hol.
  destruct Ha as [Hp Hc Hpl Hhl _ _]. destruct (valid_length _ Hk) as [Hl|Hl]; lia.
Qed.

(** Only the first [n] bytes are read. *)
Lemma rsa_verify_key_take key sig n hash a :
  0 <= n <= Z.of_nat (length sig) -> rsa_verify_key key sig n hash a = rsa_verify_key key (take (Z.to_nat n) sig) n hash a.
Proof.
  intros Hn. unfold rsa_verify_key. rewrite take_take, Nat.min_id, length_take.
  by rewrite (proj2 (Z.ltb_ge (Z.of_nat (length sig)) n)), (proj2 (Z.ltb_ge (Z.of_nat _) n)) by lia.
Qed.

Lemma rsa_verify_key_sound key sig n hash a :
  valid_key key -> algo_ok a hash -> Forall byte sig -> rsa_verify_key key sig n hash a = Some 0 ->
  signed_by key (take (Z.to_nat n) sig) (rsa_padding a ++ hash).
Proof.
  intros Hk Ha Hs H. destruct (rsa_verify_key_length _ _ _ _ _ Hk Ha Hs H) as (Hn & Hn4 & Hle). unfold key_len in Hn4.
  assert (length (take (Z.to_nat n) sig) = Z.to_nat n) as Ht by (rewrite length_take; lia).
  destruct (rsa_verify_key_main key (take (Z.to_nat n) sig) hash a (valid_ok _ Hk) (valid_full _ Hk)) as (ret & Hr & Hiff);
    [destruct (valid_length _ Hk); lia|exact (valid_exponent _ Hk)|exact (valid_odd _ Hk)|by apply Forall_take|lia
    |exact (algo_padding_bytes _ _ Ha)|exact (algo_hash_bytes _ _ Ha)| | | |].
  - destruct Ha as [[|] ? _ _ _ _]; lia.
  - exact (algo_padding_len _ _ Ha).
  - rewrite length_app, Ht. pose proof (algo_padding_len _ _ Ha). pose proof (algo_hash_len _ _ Ha). lia.
  - apply Hiff. rewrite Ht in Hr. rewrite Z2Nat.id in Hr by lia.
    rewrite (rsa_verify_key_take key sig n) in H by lia. congruence.
Qed.

Lemma read_key_error blob node e : read_key blob node = Some (inl e) -> e = - EFAULT.
Proof.
  unfold read_key. intros H. bind_inv H. destruct s as [e0|p0]; [by injection H|]. do 5 bind_inv H.
  bind_inv H. destruct s0 as [|[m ?]]; [by injection H|]. destruct s1 as [|[r ?]]; [by injection H|].
  cbv zeta in H. case_test_in H; [by injection H|]. case_test_in H; [by injection H|]. by do 2 bind_inv H.
Qed.

Lemma rsa_verify_accepted info region sig n :
  let a := checksum info in
  rsa_verify info region sig n = Some 0 -> algo_ok a (calculate a region) -> Forall byte sig ->
  (∀ k key, read_key (fdt_blob info) k = Some (inr key) -> valid_key key) ->
  n = pad_len a /\ ∃ k key, read_key (fdt_blob info) k = Some (inr key)
    /\ signed_by key (take (Z.to_nat n) sig) (rsa_padding a ++ calculate a region).
Proof.
  intros a H Ha Hs Hkeys. apply rsa_verify_key_found in H as [k H]. unfold rsa_verify_with_keynode in H.
  case_test_in H; [by injection H|]. bind_inv H. destruct s as [e|key].
  - injection H as ->. by apply read_key_error in Hb.
  - pose proof (Hkeys _ _ Hb) as Hk. split; [by eapply rsa_verify_key_length|].
    exists k, key. split; [done|]. by apply rsa_verify_key_sound.
Qed.

(** An accepted signature proves the hash: when [rsa_verify] accepts and all
    keys that can be read from the control tree are valid, then under one of
    these keys the public operation turns the signature into the padding and
    the hash of the regions. *)
Theorem rsa_verify_sound info region sig n :
  let a := checksum info in
  rsa_verify info region sig n = Some 0 -> algo_ok a (calculate a region) -> Forall byte sig ->
  (∀ k key, read_key (fdt_blob info) k = Some (inr key) -> valid_key key) ->
  n = pad_len a /\ ∃ k key, read_key (fdt_blob info) k = Some (inr key)
    /\ signed_by key (take (Z.to_nat n) sig) (rsa_padding a ++ calculate a region).
Proof. apply rsa_verify_accepted. Qed.

(** C15. The required key is not required: when it rejects the signature, a key
    of the hinted name that accepts it is enough. *)
Theorem rsa_verify_required_key_bypassed info region sig n ret sig_node node :
  let verify := rsa_verify_with_keynode (fdt_blob info) (checksum info) (calculate (checksum info) region) sig n in
  checksum_len (checksum info) <= pad_len (checksum info) ->
  fdt_subnode_offset (fdt_blob info) 0 (chars "signature") = Some sig_node -> 0 <= sig_node ->
  required_keynode info <> -1 -> verify (required_keynode info) = Some ret -> ret <> 0 ->
  fdt_subnode_offset (fdt_blob info) sig_node (key_node_name (keyname info)) = Some node -> verify node = Some 0 ->
  rsa_verify info region sig n = Some 0.
Proof.
  intros verify Hlen Hsig Hnode Hreq Hret Hne Hhint Hok. unfold rsa_verify.
  rewrite (proj2 (Z.ltb_ge _ _)) by lia. rewrite Hsig. cbn [mbind option_bind]. rewrite (proj2 (Z.ltb_ge sig_node 0)) by lia.
  cbn zeta. fold verify. rewrite (proj2 (Z.eqb_neq (required_keynode info) (-1))) by done. rewrite Hret. cbn [mbind option_bind].
  rewrite (proj2 (Z.eqb_neq ret 0)) by done. rewrite Hhint. cbn [mbind option_bind]. rewrite Hok. done.
Qed.

(** The key of the hinted name is tried first when none is required. *)
Lemma rsa_verify_hinted info region sig n sig_node node key :
  let hash := calculate (checksum info) region in
  checksum_len (checksum info) <= pad_len (checksum info) ->
  fdt_subnode_offset (fdt_blob info) 0 (chars "signature") = Some sig_node -> 0 <= sig_node -> required_keynode info = -1 ->
  fdt_subnode_offset (fdt_blob info) sig_node (key_node_name (keyname info)) = Some node -> 0 <= node ->
  read_key (fdt_blob info) node = Some (inr key) -> rsa_verify_key key sig n hash (checksum info) = Some 0 ->
  rsa_verify info region sig n = Some 0.
Proof.
  intros hash Hlen Hsig Hnode Hreq Hhint Hn Hkey Hok. unfold rsa_verify.
  rewrite (proj2 (Z.ltb_ge _ _)) by lia. rewrite Hsig. cbn [mbind option_bind]. rewrite (proj2 (Z.ltb_ge sig_node 0)) by lia.
  cbn zeta. fold hash. rewrite Hreq. cbn [Z.eqb Pos.eqb mbind option_bind]. rewrite Hhint. cbn [mbind option_bind].
  unfold rsa_verify_with_keynode at 1. rewrite (proj2 (Z.ltb_ge node 0)) by lia. rewrite Hkey. cbn [mbind option_bind]. by rewrite Hok.
Qed.

(** ** An example *)

(** A control tree with the key [dev]: the modulus [2 ^ 2048 - 1] and the
    exponent 3, under which the number 1 is its own signature; the node
    [key-req] has no key. *)
Definition key_props (rest : items) : items :=
  Property 0 [0; 0; 0; 1] [] (Property 15 [0; 0; 8; 0] []
    (Property 28 [0; 0; 0; 0; 0; 0; 0; 3] [] (Property 41 (replicate 256 255) []
      (Property 53 (replicate 255 0 ++ [1]) [] rest)))).

Definition ctl_strings : list Z :=
  concat (map (λ s, chars s ++ [0])
    ["rsa,n0-inverse"; "rsa,num-bits"; "rsa,exponent"; "rsa,modulus"; "rsa,r-squared"; "required"]%string).

Definition ctl_body : items :=
  Node (chars "signature") [0; 0]
    (Node (chars "key-dev") [] (key_props (Property 67 (chars "image" ++ [0]) [0; 0] Nil))
      (Node (chars "key-req") [] Nil Nil)) Nil.

Definition ctl_toks : list token := tree_toks [] [0; 0; 0] ctl_body.

Definition ctl_fdt : list Z :=
  ex_header (56 + size_of ctl_toks + 76) (56 + size_of ctl_toks) 76 (size_of ctl_toks)
  ++ replicate 16 0 ++ encs ctl_toks ++ ctl_strings.

Definition ex_info : image_sign_info :=
  Info (Some (chars "dev")) [] (Algo 4 256 (replicate 252 0) (λ _, [0; 0; 0; 1])) ctl_fdt 648.

Definition ex_sig : list Z := replicate 255 0 ++ [1].

Lemma rsa_verify_required_key_bypassed_witness : rsa_verify ex_info [] ex_sig 256 = Some 0.
Proof.
  apply (rsa_verify_required_key_bypassed ex_info [] ex_sig 256 (- EFAULT) 8 24).
  - vm_compute. discriminate.
  - vm_compute. reflexivity.
  - lia.
  - discriminate.
  - vm_compute. reflexivity.
  - discriminate.
  - vm_compute. reflexivity.
  - vm_compute. reflexivity.
Defined.

(** Behind the blob there is nothing to read. *)
Lemma next_tag_far fdt o : (∃ base, fdt_off_dt_struct fdt = Some base /\ 0 <= base) -> Z.of_nat (length fdt) <= o ->
  fdt_next_tag fdt o = None \/ ∃ n, fdt_next_tag fdt o = Some (FDT_END, n).
Proof.
  intros (base & Hb & Hp) Ho. unfold fdt_next_tag. destruct (fdt_offset_ptr fdt o 4) as [[p|]|] eqn:E; cbn [mbind option_bind]; [|by eauto|by left].
  assert (p = base + o) as ->.
  { unfold fdt_offset_ptr in E. bind_inv E. bind_inv E. case_test_in E; [done|]. unfold _fdt_offset_ptr in E. rewrite Hb in E. by injection E. }
  assert (rd32 fdt (base + o) = None) as -> by (unfold rd32; by rewrite decide_False by lia). by left.
Qed.

Lemma read_key_far blob k key :
  (∃ base, fdt_off_dt_struct blob = Some base /\ 0 <= base) -> ~ 0 <= k < Z.of_nat (length blob) -> read_key blob k <> Some (inr key).
Proof.
  intros Hb Hk. assert (fdt_getprop blob k (chars "rsa,n0-inverse") = None \/ ∃ e, fdt_getprop blob k (chars "rsa,n0-inverse") = Some (inl e)) as Hg.
  { assert (_fdt_check_node_offset blob k = None \/ _fdt_check_node_offset blob k = Some (- FDT_ERR_BADOFFSET)) as Hc.
    { unfold _fdt_check_node_offset. destruct (Z.ltb_spec k 0); [by right|]. cbn [orb]. case_test; [by right|].
      destruct (next_tag_far blob k Hb) as [->|[n ->]]; [lia|by left|by right]. }
    unfold fdt_getprop, fdt_getprop_namelen, fdt_get_property_namelen, fdt_first_property_offset.
    destruct Hc as [->| ->]; [by left|]. right. by eexists. }
  unfold read_key. by destruct Hg as [->|[e ->]].
Qed.

Definition ctl_key : rsa_public_key := Key 1 (replicate 64 (2 ^ 32 - 1)) (1 :: replicate 63 0) 3.

Lemma ctl_key_valid : valid_key ctl_key.
Proof.
  split.
  - split; try done; try (by repeat constructor). exists (- wval (modulus ctl_key) - 2). vm_compute. done.
  - vm_compute. discriminate.
  - by left.
  - vm_compute. by split.
  - done.
Qed.

#[export] Instance rsa_public_key_eq_dec : EqDecision rsa_public_key.
Proof. solve_decision. Defined.

(** Checking that a blob has one key. *)
Definition only_key (blob : list Z) (key : rsa_public_key) (k : Z) : bool :=
  match read_key blob k with Some (inr key') => bool_decide (key' = key) | _ => true end.

Lemma only_key_spec blob key k key' :
  (∃ base, fdt_off_dt_struct blob = Some base /\ 0 <= base) ->
  forallb (only_key blob key) (Z.of_nat <$> seq 0 (length blob)) = true -> read_key blob k = Some (inr key') -> key' = key.
Proof.
  intros Hb Ha H. destruct (decide (0 <= k < Z.of_nat (length blob))) as [Hk|Hk].
  - rewrite forallb_forall in Ha. specialize (Ha k). unfold only_key in Ha. rewrite H in Ha.
    apply (bool_decide_eq_true (key' = key)), Ha. apply in_map_iff. exists (Z.to_nat k). split; [lia|]. apply in_seq. lia.
  - exfalso. revert H. by apply read_key_far.
Qed.

Lemma ctl_keys k key : read_key ctl_fdt k = Some (inr key) -> valid_key key.
Proof.
  intros H. apply (only_key_spec ctl_fdt ctl_key) in H as ->; [exact ctl_key_valid| |vm_compute; reflexivity].
  exists 56. split; [vm_compute; reflexivity|lia].
Qed.

Lemma rsa_verify_sound_witness :
  256 = pad_len (checksum ex_info) /\ ∃ k key, read_key (fdt_blob ex_info) k = Some (inr key)
    /\ signed_by key (take (Z.to_nat 256) ex_sig) (rsa_padding (checksum ex_info) ++ calculate (checksum ex_info) []).
Proof.
  apply (rsa_verify_sound ex_info [] ex_sig 256).
  - vm_compute. reflexivity.
  - split; [by left|cbn; lia|reflexivity|reflexivity|by apply all_bytes|by apply all_bytes].
  - by apply all_bytes.
  - exact ctl_keys.
Defined.
