(* ===== verification/ImageSig.v ===== *)
(** * Signatures of images and configurations ([common/image-sig.c])

    The nodes named [signature] of a FIT image hold an algorithm, a key name hint
    and a signature; the control device tree says which keys are required. *)

From S2P Require Import Prelude Crc Bytes Ctype Cstring Hashtable Fdt FdtTree FdtWip Rsa RsaVerify HashStream Sha256 Sha1.

Definition EPERM : Z := 1.
Definition IMAGE_MAX_HASHED_NODES : Z := 100.

(** ** PKCS #1 paddings ([lib/rsa/rsa-checksum.c]) *)

Definition padding_sha256_rsa2048 : list Z :=
  [0; 1] ++ replicate 202 255 ++ [0; 48; 49; 48; 13; 6; 9; 96; 134; 72; 1; 101; 3; 4; 2; 1; 5; 0; 4; 32].

Definition padding_sha1_rsa2048 : list Z :=
  [0; 1] ++ replicate 218 255 ++ [0; 48; 33; 48; 9; 6; 5; 43; 14; 3; 2; 26; 5; 0; 4; 20].

Definition padding_sha256_rsa4096 : list Z :=
  [0; 1] ++ replicate 458 255 ++ [0; 48; 49; 48; 13; 6; 9; 96; 134; 72; 1; 101; 3; 4; 2; 1; 5; 0; 4; 32].

Section verification.
(** What the buffer of a hash context on the stack holds, and [gd_fdt_blob()]. *)
Context (buffer gd_blob : list Z).

(** ** Algorithms *)

Definition checksum_algos : list checksum_algo :=
  [Algo 20 256 padding_sha1_rsa2048 (sha1_calculate buffer);
   Algo 32 256 padding_sha256_rsa2048 (sha256_calculate buffer);
   Algo 32 512 padding_sha256_rsa4096 (sha256_calculate buffer)].

(** Names with their checksum algorithms. *)
Definition image_sig_algos : list (cstr * checksum_algo) :=
  zip [chars "sha1,rsa2048"; chars "sha256,rsa2048"; chars "sha256,rsa4096"] checksum_algos.

Fixpoint find_algo (l : list (cstr * checksum_algo)) (name : cstr) : option checksum_algo :=
  match l with
  | [] => None
  | (n, a) :: l => if strcmp_list n name =? 0 then Some a else find_algo l name
  end.

Definition image_get_sig_algo (name : cstr) : option checksum_algo := find_algo image_sig_algos name.

(** ** Images *)

(** The bytes of a region of the image. *)
Definition bytes_in (fit : list Z) (p len : Z) : option (list Z) :=
  if decide (0 <= p /\ 0 <= len /\ p + len <= Z.of_nat (length fit))
  then Some (take (Z.to_nat len) (drop (Z.to_nat p) fit)) else None.

Definition fit_region_make_list (fit : list Z) (fdt_regions : list (Z * Z)) : option (list (list Z)) :=
  mapM (λ '(offset, size), bytes_in fit offset size) fdt_regions.

(** [fit_image_hash_get_algo] and [fit_image_hash_get_value] of
    [common/image-fit.c]. *)
Definition fit_image_hash_get_algo (fit : list Z) (noffset : Z) : option (option cstr) :=
  r ← fdt_getprop fit noffset (chars "algo");
  match r with inl _ => Some None | inr (p, _) => s ← string_at fit p; Some (Some s) end.

Definition fit_image_hash_get_value (fit : list Z) (noffset : Z) : option (option (Z * Z)) :=
  r ← fdt_getprop fit noffset (chars "value");
  Some (match r with inl _ => None | inr v => Some v end).

(** [None] is the error [-1]. *)
Definition fit_image_setup_verify (fit : list Z) (noffset required_keynode : Z) : option (option image_sign_info) :=
  algo_name ← fit_image_hash_get_algo fit noffset;
  match algo_name with
  | None => Some None
  | Some algo_name =>
      hint ← fdt_getprop fit noffset (chars "key-name-hint");
      keyname ← match hint with inl _ => Some None | inr (p, _) => s ← string_at fit p; Some (Some s) end;
      Some (match image_get_sig_algo algo_name with
            | None => None
            | Some a => Some (Info keyname fit a gd_blob required_keynode)
            end)
  end.

(** [info.algo->verify(&info, region, count, fit_value, fit_value_len)]; the
    signature is read from the image. *)
Definition verify_regions (info : image_sign_info) (fit : list Z) (region : list (list Z)) (value : Z * Z) : option Z :=
  let '(p, len) := value in
  ret ← rsa_verify info region (drop (Z.to_nat p) fit) (u32 len);
  Some (if ret =? 0 then 0 else -1).

Definition fit_image_check_sig (fit : list Z) (noffset : Z) (data : list Z) (required_keynode : Z) : option Z :=
  info ← fit_image_setup_verify fit noffset required_keynode;
  match info with
  | None => Some (-1)
  | Some info =>
      value ← fit_image_hash_get_value fit noffset;
      match value with
      | None => Some (-1)
      | Some value => verify_regions info fit [data] value
      end
  end.

(** [!strncmp(name, s, strlen(s))] *)
Definition has_prefix (s name : cstr) : bool := bool_decide (take (length s) name = s).

(** The loops of [fit_image_verify_sig] and [fit_config_verify_sig] over the
    signatures of a node: the last offset, and whether one was accepted. *)
Fixpoint verify_sig_loop (fuel : nat) (fit : list Z) (check : Z -> option Z) (noffset : Z) : option (Z * bool) :=
  match fuel with
  | O => None
  | S fuel =>
      if noffset <? 0 then Some (noffset, false)
      else
        r ← fdt_get_name fit noffset;
        match r with
        | inl _ => None
        | inr name =>
            ret ← (if has_prefix (chars "signature") name then check noffset else Some (-1));
            if ret =? 0 then Some (noffset, true)
            else noffset ← fdt_next_subnode fit noffset; verify_sig_loop fuel fit check noffset
        end
  end.

Definition verify_sig (fit : list Z) (check : Z -> option Z) (node : Z) : option Z :=
  noffset ← fdt_first_subnode fit node;
  '(noffset, verified) ← verify_sig_loop (S (length fit)) fit check noffset;
  Some (if (noffset =? - FDT_ERR_TRUNCATED) || (noffset =? - FDT_ERR_BADSTRUCTURE) then -1
        else if verified : bool then 0 else - EPERM).

Definition fit_image_verify_sig (fit : list Z) (image_noffset : Z) (data : list Z) : option Z :=
  verify_sig fit (λ noffset, fit_image_check_sig fit noffset data (-1)) image_noffset.

(** The loops over the keys of the control tree: [verify] is called for those
    that are required for [what].  The result is the error or 0, and how many
    were verified. *)
Fixpoint required_loop (fuel : nat) (sig_blob : list Z) (what : cstr) (verify : Z -> option Z) (noffset verify_count : Z)
    : option (Z * Z) :=
  match fuel with
  | O => None
  | S fuel =>
      if noffset <? 0 then Some (0, verify_count)
      else
        required ← fdt_getprop sig_blob noffset (chars "required");
        wanted ← match required with
                 | inl _ => Some false
                 | inr (p, _) => s ← string_at sig_blob p; Some (strcmp_list s what =? 0)
                 end;
        ret ← (if wanted : bool then verify noffset else Some 0);
        if negb (ret =? 0) then Some (ret, verify_count)
        else
          noffset ← fdt_next_subnode sig_blob noffset;
          required_loop fuel sig_blob what verify noffset (if wanted : bool then verify_count + 1 else verify_count)
  end.

(** The result and [*no_sigsp]. *)
Definition fit_image_verify_required_sigs (fit : list Z) (image_noffset : Z) (data sig_blob : list Z) : option (Z * Z) :=
  sig_node ← fdt_subnode_offset sig_blob 0 (chars "signature");
  if sig_node <? 0 then Some (0, 1)
  else
    noffset ← fdt_first_subnode sig_blob sig_node;
    '(ret, verify_count) ← required_loop (S (length sig_blob)) sig_blob (chars "image")
                            (λ _, fit_image_verify_sig fit image_noffset data) noffset 0;
    Some (if negb (ret =? 0) then (ret, 1) else (0, if verify_count =? 0 then 1 else 0)).

(** ** Configurations *)

(** The strings of a property. *)
Fixpoint node_names (n : nat) (l : list Z) : option (list cstr) :=
  match n with
  | O => Some []
  | S n =>
      match l with
      | [] => Some []
      | _ => s ← string_from l; r ← node_names n (drop (length s + 1) l); Some (s :: r)
      end
  end.

Definition fit_config_check_sig (fit : list Z) (noffset required_keynode : Z) : option Z :=
  info ← fit_image_setup_verify fit noffset required_keynode;
  match info with
  | None => Some (-1)
  | Some info =>
      value ← fit_image_hash_get_value fit noffset;
      match value with
      | None => Some (-1)
      | Some value =>
          r ← fdt_getprop fit noffset (chars "hashed-nodes");
          prop ← match r with inl _ => Some [] | inr (p, prop_len) => bytes_in fit p prop_len end;
          let count := Z.of_nat (length (filter (λ c, c = 0) prop)) in
          if count =? 0 then Some (-1)
          else if IMAGE_MAX_HASHED_NODES <? count then Some (-1)
          else
            node_inc ← node_names (length prop) prop;
            let max_regions := 20 + count * 7 in
            '(count, fdt_regions) ← fdt_find_regions fit node_inc [chars "data"] (max_regions - 1) 200 false;
            if count <? 0 then Some (-1)
            else if count =? 0 then Some (-1)
            else if max_regions - 1 <=? count then Some (-1)
            else
              strings ← fdt_getprop fit noffset (chars "hashed-strings");
              fdt_regions ← match strings with
                            | inl _ => Some fdt_regions
                            | inr (p, _) =>
                                base ← fdt_off_dt_strings fit;
                                o ← rd32 fit p; s ← rd32 fit (p + 4);
                                Some (fdt_regions ++ [(s32 (base + o), s32 s)])
                            end;
              region ← fit_region_make_list fit fdt_regions;
              verify_regions info fit region value
      end
  end.

Definition fit_config_verify_sig (fit : list Z) (conf_noffset sig_offset : Z) : option Z :=
  verify_sig fit (λ noffset, fit_config_check_sig fit noffset sig_offset) conf_noffset.

Definition fit_config_verify_required_sigs (fit : list Z) (conf_noffset : Z) (sig_blob : list Z) : option Z :=
  sig_node ← fdt_subnode_offset sig_blob 0 (chars "signature");
  if sig_node <? 0 then Some 0
  else
    noffset ← fdt_first_subnode sig_blob sig_node;
    '(ret, _) ← required_loop (S (length sig_blob)) sig_blob (chars "conf")
                  (λ noffset, fit_config_verify_sig fit conf_noffset noffset) noffset 0;
    Some ret.

Definition fit_config_verify (fit : list Z) (conf_noffset : Z) : option Z :=
  fit_config_verify_required_sigs fit conf_noffset gd_blob.
End verification.

(** ** What an accepted image proves *)

(** The paddings with the hashes that go with them. *)
Definition schemes : list (list Z * (list Z -> list Z)) :=
  [(padding_sha1_rsa2048, fips_sha1); (padding_sha256_rsa2048, fips_sha256); (padding_sha256_rsa4096, fips_sha256)].

(** Some key of the control tree signed the message in one of the schemes. *)
Definition authentic (gd_blob fit message : list Z) : Prop :=
  ∃ padding H k key p n, (padding, H) ∈ schemes /\ read_key gd_blob k = Some (inr key)
    /\ signed_by key (take n (drop p fit)) (padding ++ H message).

Section soundness.
Context (buffer gd_blob : list Z) (Hbuf : length buffer = 64%nat)
  (Hkeys : ∀ k key, read_key gd_blob k = Some (inr key) -> valid_key key).

Lemma sha256_digest_ok m : Forall byte (fips_sha256 m) /\ length (fips_sha256 m) = 32%nat.
Proof. unfold fips_sha256, Sha256.digest. split; [repeat apply Forall_app_2; apply put_be32_bytes|done]. Qed.

Lemma sha1_digest_ok m : Forall byte (fips_sha1 m) /\ length (fips_sha1 m) = 20%nat.
Proof. unfold fips_sha1. split; [apply Sha1.digest_bytes|done]. Qed.

(** An algorithm that was found is one of the schemes. *)
Lemma sig_algo_scheme name a region :
  image_get_sig_algo buffer name = Some a -> Forall (λ r, Z.of_nat (length r) < 2 ^ 32) region ->
  Forall byte (concat region) -> Z.of_nat (length (concat region)) < 2 ^ 61 ->
  algo_ok a (calculate a region) /\ ∃ H, (rsa_padding a, H) ∈ schemes /\ calculate a region = H (concat region).
Proof.
  intros Ha Hr Hb Hl. unfold image_get_sig_algo, image_sig_algos, checksum_algos in Ha. cbn [zip zip_with find_algo] in Ha.
  destruct (sha1_digest_ok (concat region)) as [H1b H1l]. destruct (sha256_digest_ok (concat region)) as [H2b H2l].
  repeat (case_test_in Ha; [injection Ha as <-; cbn [calculate rsa_padding]|]); [..|done];
    rewrite ?sha1_regions, ?sha256_regions by done.
  - split; [|exists fips_sha1; split; [by repeat constructor|done]].
    split; [by left|cbn; lia|reflexivity|cbn [checksum_len]; lia|by apply all_bytes|done].
  - split; [|exists fips_sha256; split; [by apply elem_of_cons; right; constructor|done]].
    split; [by left|cbn; lia|reflexivity|cbn [checksum_len]; lia|by apply all_bytes|done].
  - split; [|exists fips_sha256; split; [by do 2 (apply elem_of_cons; right); constructor|done]].
    split; [by right|cbn; lia|reflexivity|cbn [checksum_len]; lia|by apply all_bytes|done].
Qed.

Lemma setup_verify_info fit noffset req info :
  fit_image_setup_verify buffer gd_blob fit noffset req = Some (Some info) ->
  fdt_blob info = gd_blob /\ ∃ name, image_get_sig_algo buffer name = Some (checksum info).
Proof.
  unfold fit_image_setup_verify. intros H. bind_inv H. destruct o as [name|]; [|done]. bind_inv H. bind_inv H.
  destruct (image_get_sig_algo buffer name) as [a|] eqn:Ha; [|done]. injection H as <-. split; [done|]. by exists name.
Qed.

(** One signature over some regions. *)
Lemma verify_regions_sound fit noffset req info region value :
  fit_image_setup_verify buffer gd_blob fit noffset req = Some (Some info) ->
  verify_regions info fit region value = Some 0 -> Forall byte fit ->
  Forall (λ r, Z.of_nat (length r) < 2 ^ 32) region -> Forall byte (concat region) -> Z.of_nat (length (concat region)) < 2 ^ 61 ->
  authentic gd_blob fit (concat region).
Proof.
  intros Hi Hv Hf Hr Hb Hl. apply setup_verify_info in Hi as [Hblob [name Hname]]. destruct value as [p len].
  unfold verify_regions in Hv. bind_inv Hv. case_test_in Hv; [|done]. apply Z.eqb_eq in E as ->.
  destruct (sig_algo_scheme name (checksum info) region Hname Hr Hb Hl) as (Hok & H & Hin & Hh).
  destruct (rsa_verify_accepted info region (drop (Z.to_nat p) fit) (u32 len) Hb0 Hok) as (_ & k & key & Hk & Hs);
    [by apply Forall_drop|rewrite Hblob; exact Hkeys|].
  rewrite Hblob in Hk. rewrite Hh in Hs. by exists (rsa_padding (checksum info)), H, k, key, (Z.to_nat p), (Z.to_nat (u32 len)).
Qed.

Lemma verify_sig_loop_sound fuel fit check noffset last :
  verify_sig_loop fuel fit check noffset = Some (last, true) -> ∃ o, check o = Some 0.
Proof.
  revert noffset. induction fuel as [|fuel IH]; intros noffset H; cbn [verify_sig_loop] in H; [done|].
  case_test_in H; [done|]. bind_inv H. destruct s as [|name]; [done|]. bind_inv H. destruct (Z.eqb_spec z 0) as [->|Hz].
  - case_test_in Hb0; [by exists noffset|done].
  - bind_inv H. by eapply IH.
Qed.

Lemma verify_sig_sound fit check node : verify_sig fit check node = Some 0 -> ∃ o, check o = Some 0.
Proof.
  unfold verify_sig. intros H. bind_inv H. bind_inv H. destruct p as [last v]. case_test_in H; [done|].
  destruct v; [by eapply verify_sig_loop_sound|done].
Qed.

(** The count goes up only for a key whose [verify] succeeded. *)
Lemma required_loop_sound fuel sig_blob what verify noffset c c' :
  required_loop fuel sig_blob what verify noffset c = Some (0, c') -> c' = c \/ ∃ k, verify k = Some 0.
Proof.
  revert noffset c. induction fuel as [|fuel IH]; intros noffset c H; cbn [required_loop] in H; [done|].
  case_test_in H; [injection H as ->; by left|]. bind_inv H. bind_inv H. bind_inv H.
  case_test_in H; [injection H as -> _; discriminate|]. apply negb_false_iff, Z.eqb_eq in E0 as ->.
  bind_inv H. destruct b; [by right; exists noffset|]. by eapply IH.
Qed.
End soundness.


(** ** Accepting an image *)

Section acceptance.
Context (buffer gd_blob fit : list Z).

Lemma check_sig_accepts noffset data req name hint a p len :
  fit_image_hash_get_algo fit noffset = Some (Some name) ->
  match hint with
  | Some s => ∃ q l, fdt_getprop fit noffset (chars "key-name-hint") = Some (inr (q, l)) /\ string_at fit q = Some s
  | None => ∃ e, fdt_getprop fit noffset (chars "key-name-hint") = Some (inl e)
  end ->
  image_get_sig_algo buffer name = Some a -> fit_image_hash_get_value fit noffset = Some (Some (p, len)) ->
  rsa_verify (Info hint fit a gd_blob req) [data] (drop (Z.to_nat p) fit) (u32 len) = Some 0 ->
  fit_image_check_sig buffer gd_blob fit noffset data req = Some 0.
Proof.
  intros Hn Hh Ha Hv Hr. unfold fit_image_check_sig, fit_image_setup_verify. rewrite Hn. cbn [mbind option_bind].
  assert (∃ r, fdt_getprop fit noffset (chars "key-name-hint") = Some r
    /\ match r with inl _ => Some None | inr (p, _) => s ← string_at fit p; Some (Some s) end = Some hint) as (r & -> & E).
  { destruct hint as [s|]; [destruct Hh as (q & l & -> & Hs); exists (inr (q, l)); split; [done|]; by rewrite Hs|].
    destruct Hh as (e & ->). by eexists. }
  cbn [mbind option_bind]. rewrite E. cbn [mbind option_bind]. rewrite Ha, Hv. cbn [mbind option_bind verify_regions]. by rewrite Hr.
Qed.

Lemma verify_sig_first check node o name :
  fdt_first_subnode fit node = Some o -> 0 <= o -> fdt_get_name fit o = Some (inr name) ->
  has_prefix (chars "signature") name = true -> check o = Some 0 -> verify_sig fit check node = Some 0.
Proof.
  intros Hf Ho Hn Hp Hc. unfold verify_sig. rewrite Hf. cbn [mbind option_bind verify_sig_loop].
  rewrite (proj2 (Z.ltb_ge o 0)) by done. rewrite Hn. cbn [mbind option_bind]. rewrite Hp, Hc. cbn [mbind option_bind Z.eqb].
  by rewrite (proj2 (Z.eqb_neq o (- FDT_ERR_TRUNCATED))), (proj2 (Z.eqb_neq o (- FDT_ERR_BADSTRUCTURE)))
    by (unfold FDT_ERR_TRUNCATED, FDT_ERR_BADSTRUCTURE; lia).
Qed.

(** One required key. *)
Lemma required_one image_noffset data sig_blob sig_node k p l :
  fdt_subnode_offset sig_blob 0 (chars "signature") = Some sig_node -> 0 <= sig_node ->
  fdt_first_subnode sig_blob sig_node = Some k -> 0 <= k ->
  fdt_getprop sig_blob k (chars "required") = Some (inr (p, l)) -> string_at sig_blob p = Some (chars "image") ->
  fdt_next_subnode sig_blob k = Some (- FDT_ERR_NOTFOUND) ->
  fit_image_verify_sig buffer gd_blob fit image_noffset data = Some 0 ->
  fit_image_verify_required_sigs buffer gd_blob fit image_noffset data sig_blob = Some (0, 0).
Proof.
  intros Hs Hs0 Hk Hk0 Hr Hstr Hnext Hv. unfold fit_image_verify_required_sigs. rewrite Hs. cbn [mbind option_bind].
  rewrite (proj2 (Z.ltb_ge sig_node 0)) by done. rewrite Hk. cbn [mbind option_bind required_loop].
  rewrite (proj2 (Z.ltb_ge k 0)) by done. rewrite Hr. cbn [mbind option_bind]. rewrite Hstr. cbn [mbind option_bind].
  change (strcmp_list (chars "image") (chars "image") =? 0) with true. cbv iota. rewrite Hv. cbn [mbind option_bind negb Z.eqb].
  rewrite Hnext. cbn [mbind option_bind]. destruct (length sig_blob) as [|n] eqn:E; [|done].
  destruct sig_blob; [done|done].
Qed.
End acceptance.

(** ** An example: a signed image *)

(** The bytes of words. *)
Definition word_bytes (ws : list Z) : list Z := concat (map be_bytes4 ws).

(** A 2048-bit key, and the signature of the image [kernel]; the most significant
    word is the first. *)
Definition fit_modulus : list Z :=
  [0xb39aebc7; 0xc17d3cd1; 0x99fc3020; 0x59fce084; 0x56d0525d; 0xfb60a4ff;
   0xc1b3de9e; 0x1815d098; 0xd82814a7; 0x2589768d; 0x665ad05d; 0xd40f9b8f;
   0x672f9ea9; 0x67b733db; 0xb76a8c68; 0x2c44e5b4; 0xaac0b198; 0xe5e1e214;
   0x6ff67b7e; 0xdd3e079d; 0x58f40bf9; 0x4c56ae59; 0x78aec103; 0x484bdd86;
   0xaa52dd78; 0x72c38ed2; 0xb15f4a8f; 0xd4252df9; 0x42e78a14; 0xc8bacb9f;
   0x18df4a7c; 0x7fc59a79; 0x8c801d74; 0x1f03b994; 0x1a9b08ed; 0xae2dc2fe;
   0x9e6ed522; 0xd83c9764; 0x1fba97e8; 0xa6fbd98b; 0x83f8de3f; 0x4081e0d6;
   0x075a2c5f; 0xd34d8ce0; 0x4093b883; 0xf8a5f41b; 0x28f4e83c; 0x9b843d83;
   0x354d049f; 0x1fe4427c; 0x63e84727; 0xd43c665c; 0x969077a1; 0xb0d7d09e;
   0xf26aee45; 0x7d75c397; 0x8d21882a; 0xd7e83e51; 0xc7cadefa; 0xa320ed69;
   0x9c007ef0; 0x0ec89756; 0x2d1dabe9; 0xbcea1c51].

Definition fit_rr : list Z :=
  [0x8089b5c0; 0xc4a745d0; 0x4124b1e4; 0xe3a38a3b; 0xa8634b3e; 0xb03e0c23;
   0xa25bfc78; 0x28d28a6e; 0x5e661343; 0xa29880cb; 0xe29e56f4; 0xc44dc297;
   0xb2dd97a3; 0x19a02797; 0xb03790de; 0x253b6ec3; 0x2c1ee5fa; 0x15a1aabd;
   0x3ea9ec3c; 0x28996c2c; 0x41bde5a8; 0x048c8bc1; 0x18eb42a5; 0x9972ce48;
   0x2d0316eb; 0x34bc1c18; 0x4e3f6db3; 0xdf6e0936; 0xbab9355a; 0x0e5e51f0;
   0x47878684; 0x80a7daa7; 0x663b297f; 0x6ae9d1b2; 0x8c536a45; 0xf5edf13f;
   0xf75f6ea2; 0x261152e0; 0x0230cbcc; 0xb0a59346; 0xd28f7dd1; 0xf1b31cce;
   0x0fb3c300; 0x0a4b5bd2; 0x17661bf6; 0x0f7b9d2b; 0xcad250f2; 0x9fb5146f;
   0x5835e088; 0x940f1546; 0xe9bc2fd5; 0x28ada5f2; 0xd60f3756; 0xd6c6aaa1;
   0x137eb4c5; 0x385a43f3; 0xdbbd28c7; 0x04265a38; 0xb3e1b859; 0xc13d9641;
   0x57700da8; 0x2e020645; 0x44b220af; 0x026b0648].

Definition fit_signature : list Z :=
  [0x98d0c719; 0x453bd189; 0x180ca039; 0x1bb39471; 0x50db13c9; 0xbff3fa0e;
   0x7be686a3; 0x688fa37c; 0xc6a8bc11; 0x1f88302e; 0xcabab76f; 0xbdfaf7e0;
   0x0537d92a; 0x5eece1a6; 0x9d66a882; 0x4a6d0f2c; 0xe2719e95; 0x18593006;
   0x1123241d; 0xe1feb44f; 0xfa828abb; 0x09d13905; 0xf0144938; 0x074d77e6;
   0xd013d76f; 0x1d322aac; 0x8659365b; 0x565960be; 0xe8a88459; 0x2cc3aca6;
   0xad49827e; 0xb2016465; 0xfaaaeb69; 0x72f63871; 0xad6304a2; 0xed1c8648;
   0x9ab89340; 0x185bed7e; 0x90960ab1; 0xd73e3ad3; 0x52a69696; 0x8f279dd9;
   0x154f39d5; 0x77540a43; 0xe6238a1f; 0xc2c66da6; 0x202bffe8; 0x1fb29c2f;
   0x1c89c2a7; 0xafd2caaf; 0xbdd01de8; 0x68144449; 0x52888ae0; 0x2dd89216;
   0xe0643d68; 0x5924a4f5; 0x49e0ba95; 0x73a47783; 0xf5e44eba; 0x30d18195;
   0x76d76fdb; 0xecfc7b1f; 0x11029ec2; 0x478c7bfb].

Definition fit_key : rsa_public_key := Key 0x35a3534f (reverse fit_modulus) (reverse fit_rr) 3.

Definition blob_of (body : items) (strings : list Z) : list Z :=
  let ts := tree_toks [] [0; 0; 0] body in
  let n := Z.of_nat (length strings) in
  ex_header (56 + size_of ts + n) (56 + size_of ts) n (size_of ts) ++ replicate 16 0 ++ encs ts ++ strings.

Definition fit_ctl : list Z :=
  blob_of
    (Node (chars "signature") [0; 0]
      (Node (chars "key-dev") []
        (Property 0 (be_bytes4 0x35a3534f) [] (Property 15 [0; 0; 8; 0] []
          (Property 28 [0; 0; 0; 0; 0; 0; 0; 3] [] (Property 41 (word_bytes fit_modulus) [] (Property 53 (word_bytes fit_rr) []
            (Property 67 (chars "image" ++ [0]) [0; 0] Nil)))))) Nil) Nil)
    ctl_strings.

Definition fit_image : list Z :=
  blob_of
    (Node (chars "kernel") [0]
      (Node (chars "signature@1") []
        (Property 0 (chars "sha256,rsa2048" ++ [0]) [0] (Property 5 (word_bytes fit_signature) []
          (Property 11 (chars "dev" ++ [0]) [] Nil))) Nil) Nil)
    (chars "algo" ++ [0] ++ chars "value" ++ [0] ++ chars "key-name-hint" ++ [0]).

(** Quotients, so that the checks below need no division. *)
Definition fit_rr_quotient : Z := Eval vm_compute in (wval (reverse fit_rr) - 2 ^ 4096) / wval (reverse fit_modulus).
Definition fit_n : Z := Eval vm_compute in wval (reverse fit_modulus).
Definition fit_s : Z := Eval vm_compute in be32 (word_bytes fit_signature).
Definition fit_sig_quotient : Z := Eval vm_compute in fit_s ^ 3 / fit_n.
Definition fit_m : Z := Eval vm_compute in fit_s ^ 3 mod fit_n.

Lemma fit_key_valid : valid_key fit_key.
Proof.
  split.
  - split.
    + apply all_words. vm_compute. reflexivity.
    + apply all_words. vm_compute. reflexivity.
    + vm_compute. reflexivity.
    + discriminate.
    + vm_compute. reflexivity.
    + exists fit_rr_quotient. vm_compute. reflexivity.
  - vm_compute. discriminate.
  - left. reflexivity.
  - vm_compute. by split.
  - reflexivity.
Qed.

Lemma fit_ctl_keys k key : read_key fit_ctl k = Some (inr key) -> valid_key key.
Proof.
  intros H. apply (only_key_spec fit_ctl fit_key) in H as ->; [exact fit_key_valid| |vm_compute; reflexivity].
  exists 56. split; [vm_compute; reflexivity|lia].
Qed.

(** The image is accepted; the RSA operation is not run but follows from the
    numbers. *)
Definition fit_algo : checksum_algo := Algo 32 256 padding_sha256_rsa2048 (sha256_calculate (replicate 64 0)).
Definition fit_info : image_sign_info := Info (Some (chars "dev")) fit_image fit_algo fit_ctl (-1).
Definition fit_digest : list Z := Eval vm_compute in sha256_calculate (replicate 64 0) [chars "kernel"].

Lemma fit_digest_eq : calculate fit_algo [chars "kernel"] = fit_digest.
Proof. vm_compute. reflexivity. Qed.

Lemma fit_numbers :
  wval (reverse fit_modulus) = fit_n /\ be32 (word_bytes fit_signature) = fit_s
  /\ be32 (rsa_padding fit_algo ++ fit_digest) = fit_m.
Proof. split_and!; vm_compute; reflexivity. Qed.

Lemma fit_power : fit_s ^ 3 mod fit_n = fit_m.
Proof.
  symmetry. apply (Z.mod_unique_pos _ _ fit_sig_quotient); [vm_compute; split; [discriminate|reflexivity]|vm_compute; reflexivity].
Qed.

Lemma fit_signature_bytes : Forall byte (word_bytes fit_signature) /\ Forall byte (rsa_padding fit_algo) /\ Forall byte fit_digest.
Proof. split_and!; apply all_bytes; vm_compute; reflexivity. Qed.

Lemma fit_signature_at : take (Z.to_nat 256) (drop 132 fit_image) = word_bytes fit_signature /\ length fit_image = 445%nat.
Proof. split; vm_compute; reflexivity. Qed.

Lemma fit_accepted : rsa_verify_key fit_key (drop 132 fit_image) 256 fit_digest fit_algo = Some 0.
Proof.
  destruct fit_signature_at as [Hat Hlen]. rewrite rsa_verify_key_take by (rewrite length_drop, Hlen; lia). rewrite Hat.
  destruct fit_signature_bytes as (Hs & Hp & Hd). destruct fit_numbers as (Hn & Hv & Hm).
  destruct (rsa_verify_key_main fit_key (word_bytes fit_signature) fit_digest fit_algo
              (valid_ok _ fit_key_valid) (valid_full _ fit_key_valid)) as (ret & Hr & Hiff).
  - cbn. lia.
  - split; reflexivity.
  - reflexivity.
  - exact Hs.
  - reflexivity.
  - exact Hp.
  - exact Hd.
  - discriminate.
  - reflexivity.
  - reflexivity.
  - assert (Z.of_nat (length (word_bytes fit_signature)) = 256) as E by (vm_compute; reflexivity).
    rewrite E in Hr. rewrite Hr. f_equal. apply Hiff. cbn [exponent modulus fit_key]. rewrite Hn, Hv, Hm. exact fit_power.
Qed.

Lemma fit_key_read : read_key fit_ctl 24 = Some (inr fit_key).
Proof. vm_compute. reflexivity. Qed.

Lemma fit_rsa_verify : rsa_verify fit_info [chars "kernel"] (drop 132 fit_image) 256 = Some 0.
Proof.
  apply (rsa_verify_hinted fit_info [chars "kernel"] (drop 132 fit_image) 256 8 24 fit_key).
  - discriminate.
  - vm_compute. reflexivity.
  - lia.
  - reflexivity.
  - vm_compute. reflexivity.
  - lia.
  - exact fit_key_read.
  - cbn [checksum fit_info]. rewrite fit_digest_eq. exact fit_accepted.
Qed.

Lemma fit_check_sig : fit_image_check_sig (replicate 64 0) fit_ctl fit_image 20 (chars "kernel") (-1) = Some 0.
Proof.
  apply (check_sig_accepts _ _ _ _ _ _ (chars "sha256,rsa2048") (Some (chars "dev")) fit_algo 132 256).
  - vm_compute. reflexivity.
  - exists 400, 4. vm_compute. split; reflexivity.
  - reflexivity.
  - vm_compute. reflexivity.
  - exact fit_rsa_verify.
Qed.

Lemma fit_required_sigs :
  fit_image_verify_required_sigs (replicate 64 0) fit_ctl fit_image 8 (chars "kernel") fit_ctl = Some (0, 0).
Proof.
  apply (required_one _ _ _ _ _ _ 8 24 692 6).
  - vm_compute. reflexivity.
  - lia.
  - vm_compute. reflexivity.
  - lia.
  - vm_compute. reflexivity.
  - vm_compute. reflexivity.
  - vm_compute. reflexivity.
  - unfold fit_image_verify_sig.
    apply (verify_sig_first fit_image
             (λ noffset, fit_image_check_sig (replicate 64 0) fit_ctl fit_image noffset (chars "kernel") (-1))
             8 20 (chars "signature@1")).
    + vm_compute. reflexivity.
    + lia.
    + vm_compute. reflexivity.
    + reflexivity.
    + cbv beta. exact fit_check_sig.
Qed.

