(* ===== verification/RkLoader.v ===== *)
(** * Copies between memory and the boot medium

    [StorageReadLba], [StorageWriteLba] and [StorageEraseBlock] of
    [storage/storage.c], the chunked copies of [rkloader/rkloader.c], and the
    loading of a kernel image by [rkloader/rkimage.c].  The driver behind
    [gpMemFun] is an instance of [MemFun]; [MemFunLaws] says what a medium
    promises.  A copy in chunks is one write of all its sectors. *)

From S2P Require Import Prelude Mem Crc RkParam.

(** ** The driver of the medium *)

(** The operations of [gpMemFun] used here; an operation the driver does not
    have is [None].  [M] is the state of the medium. *)
Class MemFun (M : Type) := {
  mf_ReadLba : option (Z -> Z -> M -> Z * list Z);
  mf_WriteLba : option (Z -> list Z -> Z -> Z -> M -> Z * M);
  mf_Erase : option (Z -> Z -> Z -> M -> Z * M)
}.

Definition FTL_ERROR : Z := -1.
Definition FTL_OK : Z := 0.

Section storage.
Context {M : Type} `{!MemFun M}.

(** The bytes read, beside the result. *)
Definition StorageReadLba (LBA nSec : Z) (m : M) : Z * list Z :=
  match mf_ReadLba with
  | Some f => f (u32 LBA) (u32 nSec) m
  | None => (FTL_ERROR, [])
  end.

(** [pbuf] is the memory from the pointer on. *)
Definition StorageWriteLba (LBA : Z) (pbuf : list Z) (nSec mode : Z) (m : M) : Z * M :=
  match mf_WriteLba with
  | Some f => f (u32 LBA) pbuf (u32 nSec) (u16 mode) m
  | None => (FTL_ERROR, m)
  end.

Definition StorageEraseBlock (SecureBootLock : bool) (blkIndex nblk mod_ : Z) (m : M) : Z * M :=
  match mf_Erase with
  | Some f => if SecureBootLock then (FTL_OK, m) else f (u32 blkIndex) (u32 nblk) (u8 mod_) m
  | None => (FTL_OK, m)
  end.

(** ** Copies *)

Definition MaxFlashReadSize : Z := 128.

Fixpoint f2m_loop (fuel : nat) (pSdram LBA remain_sec : Z) (dev : M) (m : mem) : option (Z * mem) :=
  if remain_sec <=? 0 then Some (0, m)
  else match fuel with
  | O => None
  | S fuel =>
      let sec := u16 (if MaxFlashReadSize <? remain_sec then MaxFlashReadSize else remain_sec) in
      let '(rc, buf) := StorageReadLba LBA sec dev in
      if negb (rc =? 0) then Some (-1, m)
      else
        m ← store_n m pSdram (take (Z.to_nat (RK_BLK_SIZE * sec)) buf);
        f2m_loop fuel (pSdram + sec * RK_BLK_SIZE) (u32 (LBA + sec)) (u32 (remain_sec - sec)) dev m
  end.

Definition rkloader_CopyFlash2Memory (dest_addr src_addr total_sec : Z) (dev : M) (m : mem) : option (Z * mem) :=
  f2m_loop (Z.to_nat (u32 total_sec)) (u32 dest_addr) (u32 src_addr) (u32 total_sec) dev m.

Fixpoint m2f_loop (fuel : nat) (src_addr dest_offset remain_sec : Z) (m : mem) (dev : M) : option (Z * M) :=
  if remain_sec <=? 0 then Some (0, dev)
  else match fuel with
  | O => None
  | S fuel =>
      let sec := u16 (if 32 <? remain_sec then 32 else remain_sec) in
      buf ← load_n (Z.to_nat (512 * sec)) m src_addr;
      let '(rc, dev) := StorageWriteLba dest_offset buf sec 0 dev in
      if negb (rc =? 0) then Some (-2, dev)
      else m2f_loop fuel (u32 (src_addr + sec * 512)) (u32 (dest_offset + sec)) (u32 (remain_sec - sec)) m dev
  end.

Definition rkloader_CopyMemory2Flash (src_addr dest_offset sectors : Z) (m : mem) (dev : M) : option (Z * M) :=
  m2f_loop (Z.to_nat (u32 sectors)) (u32 src_addr) (u32 dest_offset) (u32 sectors) m dev.

(** ** Loading an image *)

Definition TAG_KERNEL : Z := 0x4C4E524B.

Definition DIV_ROUND_UP (n d : Z) : Z := Z.quot (n + d - 1) d.

(** The result, [*image_size] (when it was set) and the memory.  [buf] holds
    one sector, so that [image->image] is what follows the first eight bytes. *)
Definition rkimg_load_image (offset load_addr : Z) (dev : M) (m : mem) : option (Z * option Z * mem) :=
  let head_offset := 8 in
  let '(rc, buf) := StorageReadLba offset 1 dev in
  if negb (rc =? 0) then Some (-1, None, m)
  else if negb (le_value (take 4 buf) =? TAG_KERNEL) then Some (-1, None, m)
  else
    let image_size := le_value (take 4 (drop 4 buf)) in
    m ← store_n m load_addr (take (Z.to_nat (RK_BLK_SIZE - head_offset)) (drop 8 buf));
    let blocks := u32 (DIV_ROUND_UP (u64 (image_size + (8 + 4))) RK_BLK_SIZE) in
    '(rc, m) ← rkloader_CopyFlash2Memory (u32 load_addr + RK_BLK_SIZE - head_offset) (offset + 1) (blocks - 1) dev m;
    Some (if negb (rc =? 0) then -1 else 0, Some image_size, m).

(** [rkimage_load_image] with neither [CONFIG_DOUBLE_OSBOOT] nor
    [CONFIG_RM_RAMDISK_LOAD]: the sizes it stores in the header are returned. *)
Definition rkimage_load_image (ramdisk_addr kernel_addr : Z) (boot_ptn kernel_ptn : option disk_partition)
    (dev : M) (m : mem) : option (Z * option Z * option Z * mem) :=
  match boot_ptn, kernel_ptn with
  | Some boot, Some kernel =>
      '(rc, size, m) ← rkimg_load_image (start boot) ramdisk_addr dev m;
      if negb (rc =? 0) then Some (-1, None, None, m)
      else
        '(rc, ksize, m) ← rkimg_load_image (start kernel) kernel_addr dev m;
        if negb (rc =? 0) then Some (-1, option_map u32 size, None, m)
        else Some (0, option_map u32 size, option_map u32 ksize, m)
  | _, _ => Some (-1, None, None, m)
  end.

Definition rkimage_partition_erase (lock : bool) (ptn : option disk_partition) (dev : M) : Z * M :=
  match ptn with
  | None => (-1, dev)
  | Some p => StorageEraseBlock lock (start p) (psize p) 1 dev
  end.
End storage.

(** ** What a medium promises *)

(** [n] sectors cut from a buffer. *)
Fixpoint chop (n : nat) (buf : list Z) : list (list Z) :=
  match n with
  | O => []
  | S n => take 512 buf :: chop n (drop 512 buf)
  end.

(** The contents after the sectors of [l] were put from [lba] on; [None] leaves
    a sector as it was. *)
Definition overlay (f : Z -> list Z) (lba : Z) (l : list (option (list Z))) (k : Z) : list Z :=
  if lba <=? k then
    match l !! Z.to_nat (k - lba) with
    | Some (Some s) => s
    | _ => f k
    end
  else f k.

(** The sectors from [lba] on, as bytes. *)
Fixpoint sectors (f : Z -> list Z) (lba : Z) (n : nat) : list Z :=
  match n with
  | O => []
  | S n => f lba ++ sectors f (lba + 1) n
  end.

Class MemFunLaws (M : Type) `{!MemFun M} := {
  sector : M -> Z -> list Z;
  capacity : Z;
  capacity_bound : capacity < 2 ^ 32;
  sector_length : ∀ d k, length (sector d k) = 512%nat;
  read_law : ∀ d lba (n : nat), 0 <= lba -> lba + Z.of_nat n <= capacity ->
    StorageReadLba lba (Z.of_nat n) d = (0, sectors (sector d) lba n);
  write_law : ∀ d lba buf (n : nat) mode, 0 <= lba -> lba + Z.of_nat n <= capacity ->
    (512 * n <= length buf)%nat ->
    ∃ d', StorageWriteLba lba buf (Z.of_nat n) mode d = (0, d') /\
      ∀ k, sector d' k = overlay (sector d) lba (Some <$> chop n buf) k
}.

(** ** Lemmas on cutting and putting *)

Lemma chop_length n buf : length (chop n buf) = n.
Proof. revert buf. induction n as [|n IH]; intros buf; [done|]. cbn. by rewrite IH. Qed.

Lemma chop_add a b buf : chop (a + b) buf = chop a buf ++ chop b (drop (512 * a) buf).
Proof.
  revert buf. induction a as [|a IH]; intros buf; [done|].
  cbn [Nat.add chop app]. rewrite IH, drop_drop. do 4 f_equal. lia.
Qed.

Lemma chop_prefix n a b : (512 * n <= length a)%nat -> chop n (a ++ b) = chop n a.
Proof.
  revert a. induction n as [|n IH]; intros a H; [done|]. cbn [chop].
  rewrite take_app_le, drop_app_le by lia. f_equal. apply IH. rewrite length_drop. lia.
Qed.

Lemma chop_take n a k : (512 * n <= k)%nat -> chop n (take k a) = chop n a.
Proof.
  intros H. rewrite <-(take_drop k a) at 2. destruct (decide (512 * n <= length (take k a))%nat) as [|Hs].
  - by rewrite chop_prefix.
  - rewrite length_take in Hs. by rewrite (drop_ge a), app_nil_r by lia.
Qed.

Lemma overlay_ext f g lba l k : (∀ i, f i = g i) -> overlay f lba l k = overlay g lba l k.
Proof. intros H. unfold overlay. by rewrite !H. Qed.

Lemma overlay_nil f lba k : overlay f lba [] k = f k.
Proof. unfold overlay. by destruct (lba <=? k). Qed.

Lemma overlay_app f lba l1 l2 k :
  overlay (overlay f lba l1) (lba + Z.of_nat (length l1)) l2 k = overlay f lba (l1 ++ l2) k.
Proof.
  unfold overlay. destruct (Z.leb_spec lba k), (Z.leb_spec (lba + Z.of_nat (length l1)) k); try lia; try done.
  - rewrite (lookup_ge_None_2 l1) by lia. rewrite lookup_app_r by lia.
    by replace (Z.to_nat (k - (lba + Z.of_nat (length l1)))) with (Z.to_nat (k - lba) - length l1)%nat by lia.
  - by rewrite lookup_app_l by lia.
Qed.

(** A stretch that is left as it was. *)
Lemma overlay_skip f lba n k : overlay f lba (replicate n None) k = f k.
Proof.
  unfold overlay. destruct (lba <=? k); [|done].
  destruct (replicate n None !! _) as [o|] eqn:E; [|done]. apply lookup_replicate in E as [-> _]. done.
Qed.

Lemma sectors_add f lba a b : sectors f lba (a + b) = sectors f lba a ++ sectors f (lba + Z.of_nat a) b.
Proof.
  revert lba. induction a as [|a IH]; intros lba; cbn [Nat.add sectors]; [by rewrite Z.add_0_r|].
  rewrite IH, <-app_assoc. do 3 f_equal. lia.
Qed.

Lemma sectors_ext f g lba n : (∀ k, lba <= k < lba + Z.of_nat n -> f k = g k) -> sectors f lba n = sectors g lba n.
Proof.
  revert lba. induction n as [|n IH]; intros lba H; [done|]. cbn [sectors].
  rewrite H by lia. f_equal. apply IH. intros k Hk. apply H. lia.
Qed.

(** Reading back sectors that were put. *)
Lemma sectors_overlay f lba n buf :
  (512 * n <= length buf)%nat -> sectors (overlay f lba (Some <$> chop n buf)) lba n = take (512 * n) buf.
Proof.
  intros Hl.
  assert (∀ l g k, (∀ i, (i < length l)%nat -> l !! i = Some (g (k + Z.of_nat i))) -> sectors g k (length l) = concat l) as Hgen.
  { induction l as [|s l IH]; intros g k H; [done|]. cbn [length sectors concat]. rewrite (IH g (k + 1)).
    - pose proof (H 0%nat ltac:(cbn; lia)) as H0. rewrite Z.add_0_r in H0. cbn in H0. by simplify_eq.
    - intros i Hi. specialize (H (S i) ltac:(cbn; lia)). change ((s :: l) !! S i) with (l !! i) in H. rewrite H. do 2 f_equal. lia. }
  rewrite <-(chop_length n buf) at 2. rewrite Hgen.
  - clear Hgen. revert buf Hl. induction n as [|n IH]; intros buf Hl; [done|]. cbn [chop concat].
    rewrite IH by (rewrite length_drop; lia). replace (512 * S n)%nat with (512 + 512 * n)%nat by lia.
    rewrite <-(take_drop 512 buf) at 3. rewrite take_app, length_take, Nat.min_l by lia. f_equal.
    + rewrite take_take. f_equal. lia.
    + f_equal. lia.
  - intros i Hi. unfold overlay. destruct (Z.leb_spec lba (lba + Z.of_nat i)); [|lia].
    replace (Z.to_nat (lba + Z.of_nat i - lba)) with i by lia. rewrite list_lookup_fmap.
    destruct (chop n buf !! i) as [s|] eqn:E; [done|]. apply lookup_ge_None in E. lia.
Qed.

Section copies.
Context {M : Type} `{!MemFun M} `{!MemFunLaws M}.

Lemma sectors_length (d : M) lba n : length (sectors (sector d) lba n) = (512 * n)%nat.
Proof.
  revert lba. induction n as [|n IH]; intros lba; [done|]. cbn [sectors].
  rewrite length_app, sector_length, IH. lia.
Qed.

Lemma m2f_loop_spec fuel src dst n m buf (d : M) :
  (n <= fuel)%nat -> bytes_at m src buf -> (512 * n <= length buf)%nat ->
  0 <= src -> src + 512 * Z.of_nat n < 2 ^ 32 -> 0 <= dst -> dst + Z.of_nat n <= capacity ->
  ∃ d', m2f_loop fuel src dst (Z.of_nat n) m d = Some (0, d') /\
    ∀ k, sector d' k = overlay (sector d) dst (Some <$> chop n buf) k.
Proof.
  pose proof capacity_bound as Hcap.
  revert src dst n buf d. induction fuel as [|fuel IH]; intros src dst n buf d Hf Hb Hl Hs Hs' Hd Hd'; cbn [m2f_loop].
  all: destruct (Z.leb_spec (Z.of_nat n) 0) as [Hn|Hn].
  1,3: exists d; split; [done|]; intros k; assert (n = 0%nat) as -> by lia; by rewrite overlay_nil.
  { lia. }
  set (c := Nat.min n 32).
  replace (u16 (if 32 <? Z.of_nat n then 32 else Z.of_nat n)) with (Z.of_nat c)
    by (destruct (Z.ltb_spec 32 (Z.of_nat n)); rewrite u16_small by lia; lia).
  assert (length (take (512 * c) buf) = 512 * c)%nat as Hlt by (rewrite length_take; lia).
  rewrite <-(take_drop (512 * c) buf) in Hb. apply bytes_at_app in Hb as [Hb1 Hb2]. rewrite Hlt in Hb2.
  replace (Z.to_nat (512 * Z.of_nat c)) with (length (take (512 * c) buf)) by lia.
  rewrite load_n_spec by done. cbn [mbind option_bind].
  destruct (write_law d dst (take (512 * c) buf) c 0) as (d1 & -> & Hd1); [lia..|]. cbn.
  rewrite !u32_small by lia.
  replace (Z.of_nat n - Z.of_nat c) with (Z.of_nat (n - c)) by lia.
  destruct (IH (src + Z.of_nat c * 512) (dst + Z.of_nat c) (n - c)%nat (drop (512 * c) buf) d1)
    as (d2 & -> & Hd2); try lia.
  { by replace (src + Z.of_nat c * 512) with (src + Z.of_nat (512 * c)) by lia. }
  { rewrite length_drop. lia. }
  exists d2. split; [done|]. intros k. rewrite Hd2, (overlay_ext _ _ _ _ _ Hd1).
  rewrite chop_take by lia. replace n with (c + (n - c))%nat at 2 by lia.
  rewrite chop_add, fmap_app, <-overlay_app, length_fmap, chop_length. done.
Qed.

(** A chunked copy to the medium is one write of all its sectors. *)
Lemma rkloader_CopyMemory2Flash_spec src dst n m buf (d : M) :
  bytes_at m src buf -> (512 * n <= length buf)%nat ->
  0 <= src -> src + 512 * Z.of_nat n < 2 ^ 32 -> 0 <= dst -> dst + Z.of_nat n <= capacity ->
  ∃ d', rkloader_CopyMemory2Flash src dst (Z.of_nat n) m d = Some (0, d') /\
    ∀ k, sector d' k = overlay (sector d) dst (Some <$> chop n buf) k.
Proof.
  intros. pose proof capacity_bound. unfold rkloader_CopyMemory2Flash. rewrite !u32_small by lia.
  apply m2f_loop_spec; try done. lia.
Qed.

Lemma f2m_loop_spec fuel dst src n m (d : M) :
  (n <= fuel)%nat -> mapped m dst (512 * Z.of_nat n) -> 0 <= src -> src + Z.of_nat n <= capacity ->
  ∃ m', f2m_loop fuel dst src (Z.of_nat n) d m = Some (0, m') /\
    bytes_at m' dst (sectors (sector d) src n) /\ same_outside m m' dst (512 * Z.of_nat n).
Proof.
  pose proof capacity_bound as Hcap.
  revert dst src n m. induction fuel as [|fuel IH]; intros dst src n m Hf Hm Hs Hs'; cbn [f2m_loop].
  all: destruct (Z.leb_spec (Z.of_nat n) 0) as [Hn|Hn].
  1,3: exists m; assert (n = 0%nat) as -> by lia; split_and!; [done|apply bytes_at_nil|done].
  { lia. }
  set (c := Nat.min n 128).
  replace (u16 (if MaxFlashReadSize <? Z.of_nat n then MaxFlashReadSize else Z.of_nat n)) with (Z.of_nat c)
    by (unfold MaxFlashReadSize; destruct (Z.ltb_spec 128 (Z.of_nat n)); rewrite u16_small by lia; lia).
  rewrite read_law by lia. cbn [Z.eqb negb].
  assert (length (sectors (sector d) src c) = 512 * c)%nat as Hlc by apply sectors_length.
  rewrite take_ge by (unfold RK_BLK_SIZE; lia).
  destruct (store_n_spec m dst (sectors (sector d) src c)) as (m1 & -> & Hb1 & Ho1).
  { intros b Hb. apply Hm. lia. }
  cbn [mbind option_bind]. rewrite !u32_small by lia. rewrite Hlc in Ho1.
  replace (Z.of_nat n - Z.of_nat c) with (Z.of_nat (n - c)) by lia.
  destruct (IH (dst + Z.of_nat c * RK_BLK_SIZE) (src + Z.of_nat c) (n - c)%nat m1) as (m2 & -> & Hb2 & Ho2); try lia.
  { unfold RK_BLK_SIZE. intros b Hb. rewrite Ho1 by lia. apply Hm. lia. }
  unfold RK_BLK_SIZE in *.
  exists m2. split; [done|]. split.
  - replace n with (c + (n - c))%nat by lia. rewrite sectors_add. apply bytes_at_app. split.
    + eapply bytes_at_outside; [exact Ho2| |done]. lia.
    + replace (dst + Z.of_nat (length (sectors (sector d) src c))) with (dst + Z.of_nat c * 512) by lia. done.
  - intros b Hb. rewrite Ho2, Ho1 by lia. done.
Qed.

Lemma rkloader_CopyFlash2Memory_spec dst src n m (d : M) :
  0 <= dst < 2 ^ 32 -> mapped m dst (512 * Z.of_nat n) -> 0 <= src -> src + Z.of_nat n <= capacity ->
  ∃ m', rkloader_CopyFlash2Memory dst src (Z.of_nat n) d m = Some (0, m') /\
    bytes_at m' dst (sectors (sector d) src n) /\ same_outside m m' dst (512 * Z.of_nat n).
Proof.
  intros. pose proof capacity_bound. unfold rkloader_CopyFlash2Memory. rewrite !u32_small by lia.
  apply f2m_loop_spec; try done. lia.
Qed.

(** An image as the packing tool lays it out: tag, size, contents, and a
    checksum that the loader does not look at. *)
Definition kernel_image (img tail : list Z) : list Z :=
  le_bytes4 TAG_KERNEL ++ le_bytes4 (Z.of_nat (length img)) ++ img ++ tail.

Definition image_blocks (img : list Z) : nat := Z.to_nat ((Z.of_nat (length img) + 12 + 511) / 512).

Lemma kernel_image_fields img tail s rest :
  Z.of_nat (length img) < 2 ^ 32 -> length s = 512%nat -> s ++ rest = kernel_image img tail ->
  le_value (take 4 s) = TAG_KERNEL /\ le_value (take 4 (drop 4 s)) = Z.of_nat (length img) /\
  drop 8 s ++ rest = img ++ tail.
Proof.
  intros Hl Hs E.
  assert (take 4 s = le_bytes4 TAG_KERNEL) as ->.
  { apply (f_equal (take 4)) in E. by rewrite take_app_le in E by lia. }
  assert (take 4 (drop 4 s) = le_bytes4 (Z.of_nat (length img))) as ->.
  { apply (f_equal (λ l, take 4 (drop 4 l))) in E. rewrite drop_app_le, take_app_le in E by (rewrite ?length_drop; lia).
    exact E. }
  rewrite !le_value_bytes by (unfold in_word, TAG_KERNEL; lia). split_and!; [done..|].
  apply (f_equal (drop 8)) in E. by rewrite drop_app_le in E by lia.
Qed.

Lemma image_blocks_spec img : Z.of_nat (length img) < 2 ^ 32 ->
  u32 (DIV_ROUND_UP (u64 (Z.of_nat (length img) + (8 + 4))) RK_BLK_SIZE) = Z.of_nat (image_blocks img) /\
  (1 <= image_blocks img)%nat /\ Z.of_nat (length img) + 12 <= 512 * Z.of_nat (image_blocks img).
Proof.
  intros Hl. unfold DIV_ROUND_UP, RK_BLK_SIZE, image_blocks. rewrite u64_small by lia.
  rewrite Z.quot_div_nonneg by lia.
  replace (Z.of_nat (length img) + (8 + 4) + 512 - 1) with (Z.of_nat (length img) + 12 + 511) by lia.
  pose proof (Z.div_mod (Z.of_nat (length img) + 12 + 511) 512 ltac:(lia)).
  pose proof (Z.mod_pos_bound (Z.of_nat (length img) + 12 + 511) 512 ltac:(lia)).
  rewrite Z2Nat.id by lia. split; [apply u32_small; lia|]. split; lia.
Qed.

Lemma rkimg_load_image_spec offset load img tail m (d : M) :
  let n := image_blocks img in
  Z.of_nat (length img) < 2 ^ 32 ->
  sectors (sector d) offset n = kernel_image img tail ->
  0 <= offset -> offset + Z.of_nat n <= capacity ->
  0 <= load -> load + 504 < 2 ^ 32 -> mapped m load (512 * Z.of_nat n - 8) ->
  ∃ m', rkimg_load_image offset load d m = Some (0, Some (Z.of_nat (length img)), m') /\
    bytes_at m' load img /\ same_outside m m' load (512 * Z.of_nat n - 8).
Proof.
  intros n Hl Hs Ho Hc Ha Ha' Hm. pose proof capacity_bound.
  destruct (image_blocks_spec img Hl) as (Hblk & Hn1 & Hn2). fold n in Hblk, Hn1, Hn2.
  replace n with (1 + (n - 1))%nat in Hs by lia. rewrite sectors_add in Hs. cbn [sectors] in Hs. rewrite app_nil_r in Hs.
  destruct (kernel_image_fields img tail _ _ Hl (sector_length d offset) Hs) as (Htag & Hsz & Hdat).
  unfold rkimg_load_image. rewrite (read_law d offset 1) by lia. cbn [sectors]. rewrite app_nil_r, Htag, Hsz.
  rewrite !Z.eqb_refl. cbn [negb].
  assert (length (drop 8 (sector d offset)) = 504)%nat as Hl8 by (rewrite length_drop, sector_length; done).
  rewrite take_ge by (rewrite Hl8; done).
  destruct (store_n_spec m load (drop 8 (sector d offset))) as (m1 & -> & Hb1 & Ho1); rewrite Hl8 in *.
  { intros b Hb. apply Hm. lia. }
  cbn [mbind option_bind]. rewrite Hblk, (u32_small load) by lia.
  replace (Z.of_nat n - 1) with (Z.of_nat (n - 1)) by lia.
  replace (load + RK_BLK_SIZE - 8) with (load + 504) by (unfold RK_BLK_SIZE; lia).
  destruct (rkloader_CopyFlash2Memory_spec (load + 504) (offset + 1) (n - 1) m1 d) as (m2 & -> & Hb2 & Ho2); try lia.
  { intros b Hb. rewrite Ho1 by lia. apply Hm. lia. }
  cbn [mbind option_bind Z.eqb negb]. exists m2. split; [done|]. split.
  - assert (bytes_at m2 load (img ++ tail)) as Hall; [|by apply bytes_at_app in Hall as [? _]].
    rewrite <-Hdat. apply bytes_at_app. rewrite Hl8. split; [|done].
    eapply bytes_at_outside; [exact Ho2| |done]. lia.
  - intros b Hb. rewrite Ho2, Ho1 by lia. done.
Qed.
End copies.
