(* ===== verification/Sparse.v ===== *)
(** * Storing downloaded images

    The images that fastboot receives, in [rkloader/rkimage.c] and
    [common/cmd_fastboot.c].  A legacy download is stored from memory at its end
    ([rkimg_store_image], [unsparse]); an accelerated one is written while it
    arrives, a buffer at a time, with what does not fill a sector or a chunk
    header kept for the next buffer ([rkimage_handleDownload]).  Sparse images
    are a header and chunks that are written or skipped. *)

From S2P Require Import Prelude Mem Crc RkParam RkLoader.

Definition SPARSE_HEADER_MAGIC : Z := 0xed26ff3a.
Definition SPARSE_HEADER_MAJOR_VER : Z := 1.
Definition CHUNK_TYPE_RAW : Z := 0xCAC1.
Definition CHUNK_TYPE_DONT_CARE : Z := 0xCAC3.
Definition USB_MAX_TRANS_SIZE : Z := 0x20000.

(** ** Headers *)

Record sparse_header_t := SparseHeader {
  magic : Z;
  major_version : Z;
  minor_version : Z;
  file_hdr_sz : Z;
  chunk_hdr_sz : Z;
  blk_sz : Z;
  total_blks : Z;
  total_chunks : Z;
  image_checksum : Z
}.

Record chunk_header_t := ChunkHeader {
  chunk_type : Z;
  reserved1 : Z;
  chunk_sz : Z;
  total_sz : Z
}.

(** [n] bytes at [off], least significant first. *)
Definition le_field (off n : nat) (b : list Z) : Z := le_value (take n (drop off b)).

(** The structures as they lie in memory: 28 and 12 bytes. *)
Definition sparse_header (b : list Z) : sparse_header_t :=
  SparseHeader (le_field 0 4 b) (le_field 4 2 b) (le_field 6 2 b) (le_field 8 2 b) (le_field 10 2 b)
    (le_field 12 4 b) (le_field 16 4 b) (le_field 20 4 b) (le_field 24 4 b).

Definition chunk_header (b : list Z) : chunk_header_t :=
  ChunkHeader (le_field 0 2 b) (le_field 2 2 b) (le_field 4 4 b) (le_field 8 4 b).

Section images.
Context {M : Type} `{!MemFun M}.

(** ** From memory *)

(** The loop of [unsparse] over the chunks from [source] on. *)
Fixpoint unsparse_loop (n : nat) (header : sparse_header_t) (source sector outlen section_size : Z)
    (m : mem) (dev : M) : option (Z * M) :=
  match n with
  | O => Some (0, dev)
  | S n =>
      b ← load_n 12 m source;
      let chunk := chunk_header b in
      let source := source + 12 in
      let clen := u64 (chunk_sz chunk * blk_sz header) in
      if chunk_type chunk =? CHUNK_TYPE_RAW then
        if negb (total_sz chunk =? u64 (clen + 12)) then Some (1, dev)
        else
          let outlen := u64 (outlen + clen) in
          if section_size <? outlen then Some (1, dev)
          else
            let blkcnt := clen / RK_BLK_SIZE in
            '(rc, dev) ← rkloader_CopyMemory2Flash source sector (s32 blkcnt) m dev;
            if negb (rc =? 0) then Some (1, dev)
            else unsparse_loop n header (source + clen) (u64 (sector + clen / RK_BLK_SIZE)) outlen section_size m dev
      else if chunk_type chunk =? CHUNK_TYPE_DONT_CARE then
        if negb (total_sz chunk =? 12) then Some (1, dev)
        else
          let outlen := u64 (outlen + clen) in
          if section_size <? outlen then Some (1, dev)
          else unsparse_loop n header source (u64 (sector + clen / RK_BLK_SIZE)) outlen section_size m dev
      else Some (1, dev)
  end.

Definition unsparse (source sector size_kb : Z) (m : mem) (dev : M) : option (Z * M) :=
  b ← load_n 28 m source;
  let header := sparse_header b in
  let section_size := u64 (size_kb ≪ 10) in
  if negb (magic header =? SPARSE_HEADER_MAGIC) then Some (1, dev)
  else if section_size <? u64 (total_blks header * blk_sz header) then Some (1, dev)
  else if negb (major_version header =? SPARSE_HEADER_MAJOR_VER) || negb (file_hdr_sz header =? 28)
       || negb (chunk_hdr_sz header =? 12) then Some (1, dev)
  else unsparse_loop (Z.to_nat (total_chunks header)) header (source + file_hdr_sz header) sector 0 section_size m dev.

(** [image_start_ptr] is [None] for a null pointer. *)
Definition rkimg_store_image (lock : bool) (ptn : option disk_partition) (image_start_ptr : option Z) (d_bytes : Z)
    (m : mem) (dev : M) : option (Z * M) :=
  match ptn, image_start_ptr with
  | None, _ => Some (-1, dev)
  | Some p, None => Some (rkimage_partition_erase lock ptn dev)
  | Some p, Some src =>
      b ← load_n 4 m src;
      if le_value b =? SPARSE_HEADER_MAGIC then
        unsparse src (start p) (u64 (psize p * blksz p) ≫ 10) m dev
      else
        rkloader_CopyMemory2Flash src (start p) (s32 (u32 (DIV_ROUND_UP d_bytes RK_BLK_SIZE))) m dev
  end.

(** ** While it arrives *)

(** The fields of [cmd_fastboot_interface] that a download uses. *)
Record fastboot := Fastboot {
  pending_ptn : option disk_partition;
  transfer_buffer_size : Z;
  d_legacy : bool;
  d_size : Z;
  d_bytes : Z;
  d_status : Z;
  d_direct_size : Z;
  d_direct_offset : Z;
  d_cache : list Z;
  d_cache_pos : Z;
  flag_sparse : bool;
  sp_header : sparse_header_t;
  sparse_cur_chunk : Z
}.

Definition set_direct (size offset : Z) (p : fastboot) : fastboot :=
  Fastboot (pending_ptn p) (transfer_buffer_size p) (d_legacy p) (d_size p) (d_bytes p) (d_status p)
    size offset (d_cache p) (d_cache_pos p) (flag_sparse p) (sp_header p) (sparse_cur_chunk p).
Definition set_status (s : Z) (p : fastboot) : fastboot :=
  Fastboot (pending_ptn p) (transfer_buffer_size p) (d_legacy p) (d_size p) (d_bytes p) s
    (d_direct_size p) (d_direct_offset p) (d_cache p) (d_cache_pos p) (flag_sparse p) (sp_header p) (sparse_cur_chunk p).
Definition set_cache (c : list Z) (pos : Z) (p : fastboot) : fastboot :=
  Fastboot (pending_ptn p) (transfer_buffer_size p) (d_legacy p) (d_size p) (d_bytes p) (d_status p)
    (d_direct_size p) (d_direct_offset p) c pos (flag_sparse p) (sp_header p) (sparse_cur_chunk p).
Definition set_sparse (f : bool) (h : sparse_header_t) (cur : Z) (p : fastboot) : fastboot :=
  Fastboot (pending_ptn p) (transfer_buffer_size p) (d_legacy p) (d_size p) (d_bytes p) (d_status p)
    (d_direct_size p) (d_direct_offset p) (d_cache p) (d_cache_pos p) f h cur.
Definition set_transfer (size bytes : Z) (p : fastboot) : fastboot :=
  Fastboot (pending_ptn p) (transfer_buffer_size p) (d_legacy p) size bytes (d_status p)
    (d_direct_size p) (d_direct_offset p) (d_cache p) (d_cache_pos p) (flag_sparse p) (sp_header p) (sparse_cur_chunk p).

Definition ptn_start (p : fastboot) : Z := from_option start 0 (pending_ptn p).

(** The number of bytes written, or -1.  [buffer] is the memory from the pointer
    on; the last sector of an image is written whole, with what follows. *)
Definition rkimg_handleDirectDownload (buffer : list Z) (length : Z) (priv : fastboot) (dev : M) : Z * fastboot * M :=
  let size := s32 (d_direct_size priv) in
  let write_len := if size <=? length then size else Z.quot length RK_BLK_SIZE * RK_BLK_SIZE in
  let blocks := DIV_ROUND_UP write_len RK_BLK_SIZE in
  let '(rc, dev) :=
    if blocks =? 0 then (0, dev)
    else StorageWriteLba (u64 (d_direct_offset priv + ptn_start priv)) buffer blocks 0 dev in
  if negb (rc =? 0) then (-1, priv, dev)
  else (write_len, set_direct (u64 (d_direct_size priv - write_len)) (u64 (d_direct_offset priv + blocks)) priv, dev).

(** The bytes that are left go to the front of [d_cache]; the buffer may itself
    lie further back in [d_cache], where copying upwards is right. *)
Definition rkimg_noBuffer (buffer : list Z) (length : Z) (priv : fastboot) : option fastboot :=
  if length =? 0 then Some priv
  else
    let n := Z.to_nat length in
    if decide ((n <= List.length buffer)%nat /\ (n <= List.length (d_cache priv))%nat /\ 0 < length) then
      Some (set_cache (take n buffer ++ drop n (d_cache priv)) length priv)
    else None.

(** [CONSUMED] on the two locals. *)
Definition consumed (buffer : list Z) (length size : Z) : list Z * Z := (drop (Z.to_nat size) buffer, length - size).

Definition rkimg_ImageDownload (buffer : list Z) (length : Z) (priv : fastboot) (dev : M) : option (Z * fastboot * M) :=
  if d_direct_size priv =? 0 then Some (0, priv, dev)
  else
    let '(ret, priv, dev) := rkimg_handleDirectDownload buffer length priv dev in
    if ret <? 0 then Some (0, set_status (-1) priv, dev)
    else
      let '(buffer, length) := consumed buffer length ret in
      if negb (d_direct_size priv =? 0) then
        priv ← rkimg_noBuffer buffer length priv; Some (1, priv, dev)
      else Some (0, set_status 1 priv, dev).

(** The loop over chunk headers; every round consumes twelve bytes. *)
Fixpoint sparse_loop (fuel : nat) (buffer : list Z) (length : Z) (priv : fastboot) (dev : M)
    : option (Z * fastboot * M) :=
  let header := sp_header priv in
  if total_chunks header <=? u32 (sparse_cur_chunk priv) then Some (0, set_status 1 priv, dev)
  else if u64 length <? 12 then priv ← rkimg_noBuffer buffer length priv; Some (1, priv, dev)
  else match fuel with
  | O => None
  | S fuel =>
      let priv := set_sparse (flag_sparse priv) header (sparse_cur_chunk priv + 1) priv in
      let chunk := chunk_header (take 12 buffer) in
      let '(buffer, length) := consumed buffer length 12 in
      let clen := u64 (chunk_sz chunk * blk_sz header) in
      if chunk_type chunk =? CHUNK_TYPE_RAW then
        if negb (total_sz chunk =? u64 (clen + 12)) then Some (0, set_status (-1) priv, dev)
        else
          let priv := set_direct clen (d_direct_offset priv) priv in
          let '(ret, priv, dev) := rkimg_handleDirectDownload buffer length priv dev in
          if ret <? 0 then Some (0, set_status (-1) priv, dev)
          else
            let '(buffer, length) := consumed buffer length ret in
            if negb (d_direct_size priv =? 0) then
              priv ← rkimg_noBuffer buffer length priv; Some (1, priv, dev)
            else sparse_loop fuel buffer length priv dev
      else if chunk_type chunk =? CHUNK_TYPE_DONT_CARE then
        if negb (total_sz chunk =? 12) then Some (0, set_status (-1) priv, dev)
        else
          sparse_loop fuel buffer length
            (set_direct (d_direct_size priv) (u64 (d_direct_offset priv + clen / RK_BLK_SIZE)) priv) dev
      else Some (0, set_status (-1) priv, dev)
  end.

Definition rkimg_handleSparseDownload (buffer : list Z) (length : Z) (priv : fastboot) (dev : M)
    : option (Z * fastboot * M) :=
  if negb (d_direct_size priv =? 0) then
    let '(ret, priv, dev) := rkimg_handleDirectDownload buffer length priv dev in
    if ret <? 0 then Some (0, set_status (-1) priv, dev)
    else
      let '(buffer, length) := consumed buffer length ret in
      if negb (d_direct_size priv =? 0) then
        priv ← rkimg_noBuffer buffer length priv; Some (1, priv, dev)
      else sparse_loop (S (Z.to_nat length)) buffer length priv dev
  else sparse_loop (S (Z.to_nat length)) buffer length priv dev.

Definition rkimg_startDownload (buffer : list Z) (length : Z) (priv : fastboot) (dev : M)
    : option (Z * fastboot * M) :=
  let header := sparse_header (take 28 buffer) in
  let priv := set_cache (d_cache priv) 0 (set_sparse false header 0 (set_direct 0 0 (set_status 0 priv))) in
  if decide (List.length buffer < 28)%nat then None
  else if (magic header =? SPARSE_HEADER_MAGIC) && (major_version header =? SPARSE_HEADER_MAJOR_VER)
       && (file_hdr_sz header =? 28) && (chunk_hdr_sz header =? 12) then
    let '(buffer, length) := consumed buffer length 28 in
    rkimg_handleSparseDownload buffer length (set_sparse true header 0 priv) dev
  else rkimg_ImageDownload buffer length (set_direct (d_size priv) 0 priv) dev.

Definition d_cache_size : Z := USB_MAX_TRANS_SIZE + RK_BLK_SIZE.

Definition rkimage_handleDownload (buffer : list Z) (length : Z) (priv : fastboot) (dev : M)
    : option (Z * fastboot * M) :=
  match pending_ptn priv with
  | None => Some (0, set_status (-1) priv, dev)
  | Some p =>
      if start p =? 0 then Some (0, set_status (-1) priv, dev)
      else if (u64 (length + d_bytes priv) <? d_size priv) && (u64 length <? transfer_buffer_size priv) then
        Some (1, priv, dev)
      else if negb (d_status priv =? 0) then Some (0, priv, dev)
      else if d_bytes priv =? 0 then rkimg_startDownload buffer length priv dev
      else if d_cache_size <? u64 (length + d_cache_pos priv) then Some (0, set_status (-1) priv, dev)
      else
        '(buffer, length, priv) ←
          (if negb (d_cache_pos priv =? 0) then
             let n := Z.to_nat length in
             let pos := Z.to_nat (d_cache_pos priv) in
             if decide (n <= List.length buffer)%nat then
               let cache := take pos (d_cache priv) ++ take n buffer ++ drop (pos + n) (d_cache priv) in
               Some (cache, length + d_cache_pos priv, set_cache cache 0 priv)
             else None
           else Some (buffer, length, priv));
        if flag_sparse priv then rkimg_handleSparseDownload buffer length priv dev
        else rkimg_ImageDownload buffer length priv dev
  end.

(** The data phase of [fbt_rx_process]: whether the download goes on, and when
    it has ended the answer to the host. *)
Inductive rx_result := RxMore | RxFail | RxOkay.

Definition fbt_rx_data (buffer : list Z) (length : Z) (priv : fastboot) (dev : M)
    : option (rx_result * fastboot * M) :=
  let length := if transfer_buffer_size priv <? u64 length then s32 (transfer_buffer_size priv) else length in
  '(priv, dev) ←
    (if d_legacy priv then Some (priv, dev)
     else '(_, priv, dev) ← rkimage_handleDownload buffer length priv dev; Some (priv, dev));
  let priv := set_transfer (d_size priv) (u64 (d_bytes priv + length)) priv in
  if (d_bytes priv <? d_size priv) && (d_status priv =? 0) then Some (RxMore, priv, dev)
  else if (d_status priv <? 0) && (d_bytes priv <? d_size priv) then
    Some (RxMore, set_transfer (d_size priv) (u64 (d_bytes priv + length)) priv, dev)
  else Some (if d_status priv <? 0 then RxFail else RxOkay, set_transfer 0 (d_bytes priv) priv, dev).

(** The buffers of one download, in order, until an answer is given. *)
Fixpoint fbt_receive (pieces : list (list Z * Z)) (priv : fastboot) (dev : M) : option (rx_result * fastboot * M) :=
  match pieces with
  | [] => Some (RxMore, priv, dev)
  | (buffer, length) :: pieces =>
      '(r, priv, dev) ← fbt_rx_data buffer length priv dev;
      match r with
      | RxMore => fbt_receive pieces priv dev
      | _ => Some (r, priv, dev)
      end
  end.
End images.

(** ** Sparse images *)

(** A chunk: sectors to write, or a number of sectors to skip. *)
Inductive chunk := Raw (b : list Z) | Skip (n : nat).

(** The sectors a chunk stands for. *)
Definition expand (c : chunk) : list (option (list Z)) :=
  match c with
  | Raw b => Some <$> chop (length b / 512) b
  | Skip n => replicate n None
  end.

(** The bytes of a chunk, for blocks of [blk] bytes.  Contents are whole
    sectors, and their length is an [int]. *)
Inductive encodes (blk : Z) : chunk -> list Z -> Prop :=
| encodes_raw h b k :
    length h = 12%nat -> chunk_type (chunk_header h) = CHUNK_TYPE_RAW ->
    chunk_sz (chunk_header h) * blk = Z.of_nat (length b) ->
    total_sz (chunk_header h) = Z.of_nat (length b) + 12 ->
    length b = (512 * k)%nat -> Z.of_nat (length b) < 2 ^ 31 ->
    encodes blk (Raw b) (h ++ b)
| encodes_skip h n :
    length h = 12%nat -> chunk_type (chunk_header h) = CHUNK_TYPE_DONT_CARE ->
    chunk_sz (chunk_header h) * blk = 512 * Z.of_nat n -> total_sz (chunk_header h) = 12 ->
    Z.of_nat n < 2 ^ 32 -> encodes blk (Skip n) h.

Inductive encoding (blk : Z) : list chunk -> list Z -> Prop :=
| encoding_nil : encoding blk [] []
| encoding_cons c cs b bs : encodes blk c b -> encoding blk cs bs -> encoding blk (c :: cs) (b ++ bs).

(** A header that both ways of storing accept. *)
Record header_ok (h : sparse_header_t) (cs : list chunk) : Prop := {
  ho_magic : magic h = SPARSE_HEADER_MAGIC;
  ho_major : major_version h = SPARSE_HEADER_MAJOR_VER;
  ho_file : file_hdr_sz h = 28;
  ho_chunk : chunk_hdr_sz h = 12;
  ho_count : total_chunks h = Z.of_nat (length cs);
  ho_bound : total_chunks h < 2 ^ 31
}.

Definition expand_all (cs : list chunk) : list (option (list Z)) := cs ≫= expand.

Lemma expand_all_cons c cs : expand_all (c :: cs) = expand c ++ expand_all cs.
Proof. done. Qed.

Lemma encodes_length blk c b : encodes blk c b -> (12 <= length b)%nat.
Proof. destruct 1; rewrite ?length_app; lia. Qed.

Section streaming.
Context {M : Type} `{!MemFun M} `{!MemFunLaws M}.
Context (p : disk_partition) (base : Z -> list Z) (Hstart : 0 <= start p).

(** ** One buffer of sectors *)

(** The medium holds [done] from the start of the partition on. *)
Definition holds (dev : M) (done : list (option (list Z))) : Prop :=
  ∀ k, sector dev k = overlay base (start p) done k.

(** One buffer of an image of [size] bytes still to be written. *)
Lemma direct_raw buffer len size priv (dev : M) done w :
  0 <= len -> len < 2 ^ 31 -> pending_ptn priv = Some p ->
  d_direct_size priv = size -> 0 <= size < 2 ^ 31 ->
  d_direct_offset priv = Z.of_nat (length done) -> holds dev done ->
  w = (if size <=? len then size else len / 512 * 512) ->
  let n := Z.to_nat ((w + 511) / 512) in
  (512 * n <= length buffer)%nat -> start p + Z.of_nat (length done + n) <= capacity ->
  ∃ dev', rkimg_handleDirectDownload buffer len priv dev =
      (w, set_direct (size - w) (Z.of_nat (length done + n)) priv, dev') /\
    holds dev' (done ++ (Some <$> chop n buffer)).
Proof.
  intros Hl Hl' Hp Hds Hsz Hoff Hh Hw n Hbuf Hcap. pose proof capacity_bound as Hc.
  unfold rkimg_handleDirectDownload, DIV_ROUND_UP, RK_BLK_SIZE.
  rewrite Hds, Hoff, s32_small, (Z.quot_div_nonneg len) by lia. rewrite <-Hw.
  pose proof (Z.div_mod len 512 ltac:(lia)). pose proof (Z.mod_pos_bound len 512 ltac:(lia)).
  assert (0 <= w <= size) as Hws by (destruct (Z.leb_spec size len); lia).
  rewrite Z.quot_div_nonneg by lia. replace (w + 512 - 1) with (w + 511) by lia.
  pose proof (Z.div_pos (w + 511) 512 ltac:(lia) ltac:(lia)).
  replace ((w + 511) / 512) with (Z.of_nat n) by lia.
  assert (∃ dev', (if Z.of_nat n =? 0 then (0, dev) else
      StorageWriteLba (u64 (Z.of_nat (length done) + ptn_start priv)) buffer (Z.of_nat n) 0 dev) = (0, dev') /\
      holds dev' (done ++ (Some <$> chop n buffer))) as (dev' & -> & Hd').
  { unfold ptn_start. rewrite Hp. cbn [from_option]. rewrite u64_small by lia.
    destruct (Z.eqb_spec (Z.of_nat n) 0) as [Hz|Hz].
    - exists dev. split; [done|]. replace n with 0%nat by lia. cbn. by rewrite app_nil_r.
    - destruct (write_law dev (Z.of_nat (length done) + start p) buffer n 0) as (d' & -> & Hd'); [lia..|].
      exists d'. split; [done|]. intros i. rewrite Hd', (overlay_ext _ _ _ _ _ Hh).
      rewrite Z.add_comm. apply overlay_app. }
  cbn [Z.eqb negb]. exists dev'. split; [|done]. rewrite !u64_small by lia. repeat f_equal; lia.
Qed.
(** Writing what is there of [k] sectors. *)
Lemma direct_spec buffer len k priv (dev : M) done :
  0 <= len <= Z.of_nat (length buffer) -> len < 2 ^ 31 ->
  pending_ptn priv = Some p ->
  d_direct_size priv = 512 * Z.of_nat k -> 512 * Z.of_nat k < 2 ^ 31 ->
  d_direct_offset priv = Z.of_nat (length done) -> holds dev done ->
  start p + Z.of_nat (length done + k) <= capacity ->
  let w := Nat.min k (Z.to_nat len / 512) in
  ∃ dev', rkimg_handleDirectDownload buffer len priv dev =
      (512 * Z.of_nat w, set_direct (512 * Z.of_nat (k - w)) (Z.of_nat (length done + w)) priv, dev') /\
    holds dev' (done ++ (Some <$> chop w buffer)).
Proof.
  intros Hlen Hlen' Hp Hds Hk Hoff Hh Hcap w.
  assert (Z.of_nat (Z.to_nat len / 512) = len / 512) as Hdiv by (rewrite Nat2Z.inj_div; f_equal; lia).
  pose proof (Z.div_mod len 512 ltac:(lia)). pose proof (Z.mod_pos_bound len 512 ltac:(lia)).
  assert (Z.to_nat ((512 * Z.of_nat w + 511) / 512) = w) as Hn.
  { replace ((512 * Z.of_nat w + 511) / 512) with (Z.of_nat w) by (apply Z.div_unique with 511; lia). lia. }
  destruct (direct_raw buffer len (512 * Z.of_nat k) priv dev done (512 * Z.of_nat w)) as (dev' & He & Hd');
    rewrite ?Hn; try done; try lia.
  { subst w. destruct (Z.leb_spec (512 * Z.of_nat k) len); lia. }
  rewrite Hn in He, Hd'. exists dev'. split; [|done]. rewrite He. repeat f_equal; lia.
Qed.

(** ** Between two buffers *)

(** What an unfinished call leaves alone. *)
Record same_transfer (priv priv' : fastboot) : Prop := {
  st_ptn : pending_ptn priv' = pending_ptn priv;
  st_size : transfer_buffer_size priv' = transfer_buffer_size priv;
  st_legacy : d_legacy priv' = d_legacy priv;
  st_dsize : d_size priv' = d_size priv;
  st_bytes : d_bytes priv' = d_bytes priv;
  st_flag : flag_sparse priv' = flag_sparse priv;
  st_header : sp_header priv' = sp_header priv;
  st_cache : length (d_cache priv') = length (d_cache priv)
}.

Lemma same_transfer_refl priv : same_transfer priv priv.
Proof. by constructor. Qed.

Lemma same_transfer_trans a b c : same_transfer a b -> same_transfer b c -> same_transfer a c.
Proof. intros [] []. constructor; congruence. Qed.

(** A call with [len] bytes in [buffer] and [future] still to come: [done] is on
    the medium, [k] sectors [data] are left of the chunk being written, and the
    chunks [cs] with the bytes [body] follow. *)
Record ready (cs0 : list chunk) (priv : fastboot) (dev : M) (buffer : list Z) (len : Z) (future : list Z)
    (done : list (option (list Z))) (data : list Z) (k : nat) (cs : list chunk) (body : list Z) : Prop := {
  r_ptn : pending_ptn priv = Some p;
  r_all : expand_all cs0 = done ++ (Some <$> chop k data) ++ expand_all cs;
  r_room : start p + Z.of_nat (length (expand_all cs0)) <= capacity;
  r_len : length data = (512 * k)%nat;
  r_int : 512 * Z.of_nat k < 2 ^ 31;
  r_enc : encoding (blk_sz (sp_header priv)) cs body;
  r_stream : take (Z.to_nat len) buffer ++ future = data ++ body;
  r_buf : 0 <= len <= Z.of_nat (length buffer);
  r_lenint : len < 2 ^ 31;
  r_direct : d_direct_size priv = 512 * Z.of_nat k;
  r_offset : d_direct_offset priv = Z.of_nat (length done);
  r_holds : holds dev done;
  r_cur : sparse_cur_chunk priv = total_chunks (sp_header priv) - Z.of_nat (length cs);
  r_nonneg : 0 <= sparse_cur_chunk priv;
  r_total : total_chunks (sp_header priv) < 2 ^ 31;
  r_status : d_status priv = 0;
  r_pos : d_cache_pos priv = 0;
  r_cache : Z.of_nat (length (d_cache priv)) = d_cache_size
}.

(** Between two calls, [left] was received but not used and waits in the cache. *)
Inductive waiting (cs0 : list chunk) (priv : fastboot) (dev : M) (future : list Z) : Prop :=
| Waiting left done data k cs body :
    future <> [] -> (length left < 512)%nat -> d_cache_pos priv = Z.of_nat (length left) ->
    take (length left) (d_cache priv) = left ->
    ready cs0 (set_cache (d_cache priv) 0 priv) dev left (Z.of_nat (length left)) future done data k cs body ->
    waiting cs0 priv dev future.

(** How a call ends: the image is complete, or more bytes are needed. *)
Inductive outcome (cs0 : list chunk) (priv : fastboot) (future : list Z) : Z -> fastboot -> M -> Prop :=
| OutDone priv' dev' :
    future = [] -> same_transfer priv priv' -> d_status priv' = 1 -> holds dev' (expand_all cs0) ->
    outcome cs0 priv future 0 priv' dev'
| OutMore priv' dev' :
    same_transfer priv priv' -> waiting cs0 priv' dev' future -> outcome cs0 priv future 1 priv' dev'.

Lemma outcome_same cs0 priv priv' future r p' d' :
  same_transfer priv priv' -> outcome cs0 priv' future r p' d' -> outcome cs0 priv future r p' d'.
Proof.
  intros Hs [q dev ? ? ? ?|q dev ? ?].
  - apply OutDone; [done|by eapply same_transfer_trans|done..].
  - apply OutMore; [by eapply same_transfer_trans|done].
Qed.

(** Keeping the rest of the buffer for the next call. *)
Lemma noBuffer_waiting cs0 priv (dev : M) buffer len future done data k cs body :
  ready cs0 priv dev buffer len future done data k cs body -> future <> [] -> len < 512 ->
  ∃ priv', rkimg_noBuffer buffer len priv = Some priv' /\ outcome cs0 priv future 1 priv' dev.
Proof.
  intros [] Hf Hl. unfold rkimg_noBuffer.
  set (left := take (Z.to_nat len) buffer) in *.
  assert (Z.of_nat (length left) = len) as Hll by (subst left; rewrite length_take; lia).
  assert (take (length left) left = left) as Hself by (apply take_ge; lia).
  destruct (Z.eqb_spec len 0) as [->|Hn].
  - exists priv. split; [done|]. apply OutMore; [apply same_transfer_refl|].
    apply (Waiting _ _ _ _ [] done data k cs body); [done|cbn; lia|done|done|].
    constructor; try done; cbn; lia.
  - unfold d_cache_size, USB_MAX_TRANS_SIZE, RK_BLK_SIZE in *. rewrite decide_True by (subst left; lia).
    eexists. split; [done|]. fold left. apply OutMore.
    + constructor; try done. cbn. rewrite length_app, length_drop. lia.
    + apply (Waiting _ _ _ _ left done data k cs body); [done|lia|cbn; lia| |].
      * cbn. by rewrite take_app_length.
      * rewrite Hll. constructor; try done; cbn; try lia.
        -- replace (Z.to_nat len) with (length left) by lia. by rewrite Hself.
        -- unfold d_cache_size, USB_MAX_TRANS_SIZE, RK_BLK_SIZE. rewrite length_app, length_drop. lia.
Qed.

(** Writing what there is of the current chunk, and going on with [K] when it
    is complete: the step that the three callers share. *)
Lemma direct_then (K : list Z -> Z -> fastboot -> M -> option (Z * fastboot * M))
    cs0 priv (dev : M) buffer len future done data k cs body :
  ready cs0 priv dev buffer len future done data k cs body ->
  (∀ buffer' len' priv' dev',
     ready cs0 priv' dev' buffer' len' future (done ++ (Some <$> chop k data)) [] 0 cs body -> len' <= len ->
     same_transfer priv priv' ->
     ∃ r p' d', K buffer' len' priv' dev' = Some (r, p', d') /\ outcome cs0 priv' future r p' d') ->
  ∃ r p' d',
    (let '(ret, priv, dev) := rkimg_handleDirectDownload buffer len priv dev in
     if ret <? 0 then Some (0, set_status (-1) priv, dev)
     else
       let '(buffer, length) := consumed buffer len ret in
       if negb (d_direct_size priv =? 0) then
         priv ← rkimg_noBuffer buffer length priv; Some (1, priv, dev)
       else K buffer length priv dev) = Some (r, p', d') /\ outcome cs0 priv future r p' d'.
Proof.
  intros HR HK. pose proof HR as []. set (w := Nat.min k (Z.to_nat len / 512)).
  assert (length (done ++ (Some <$> chop k data)) <= length (expand_all cs0))%nat as Hroom
    by (rewrite r_all0, !length_app; lia).
  rewrite length_app, length_fmap, chop_length in Hroom.
  pose proof (Nat.div_mod_eq (Z.to_nat len) 512) as Hdiv.
  pose proof (Nat.mod_upper_bound (Z.to_nat len) 512 ltac:(lia)) as Hmod.
  destruct (direct_spec buffer len k priv dev done) as (dev' & -> & Hd'); try done; [lia|]. fold w in Hd' |- *.
  destruct (Z.ltb_spec (512 * Z.of_nat w) 0); [lia|]. unfold consumed.
  assert (take (512 * w) buffer = take (512 * w) data) as Hpre.
  { apply (f_equal (take (512 * w))) in r_stream0. rewrite take_app_le, take_take in r_stream0 by (rewrite length_take; lia).
    rewrite Nat.min_l in r_stream0 by lia. rewrite r_stream0. apply take_app_le. lia. }
  assert (chop w buffer = chop w data) as Hch
    by (rewrite <-(chop_take w buffer (512 * w)), Hpre, chop_take by lia; done).
  replace (Z.to_nat (512 * Z.of_nat w)) with (512 * w)%nat by lia.
  set (priv1 := set_direct (512 * Z.of_nat (k - w)) (Z.of_nat (length done + w)) priv).
  assert (ready cs0 priv1 dev' (drop (512 * w) buffer) (len - 512 * Z.of_nat w) future
            (done ++ (Some <$> chop w data)) (drop (512 * w) data) (k - w) cs body) as HR1.
  { rewrite Hch in Hd'. constructor; try done; cbn -[Nat.mul]; rewrite ?length_drop, ?length_app, ?length_fmap, ?chop_length; try lia.
    - rewrite r_all0. replace k with (w + (k - w))%nat at 1 by lia. by rewrite chop_add, fmap_app, <-!app_assoc.
    - apply (f_equal (drop (512 * w))) in r_stream0. rewrite !drop_app_le in r_stream0 by (rewrite ?length_take; lia).
      rewrite <-r_stream0. f_equal. rewrite take_drop_commute. do 2 f_equal. lia. }
  change (d_direct_size priv1) with (512 * Z.of_nat (k - w)).
  destruct (Z.eqb_spec (512 * Z.of_nat (k - w)) 0) as [Hz|Hz]; cbn [negb].
  - assert (w = k) as Hwk by lia. rewrite Hwk, Nat.sub_diag, (drop_ge data) in HR1 by lia.
    destruct (HK _ _ _ _ HR1) as (r & p' & d' & HKe & Ho); [lia|by constructor|].
    rewrite Hwk in *. exists r, p', d'. split; [done|]. eapply outcome_same; [|exact Ho]. by constructor.
  - destruct (noBuffer_waiting _ _ _ _ _ _ _ _ _ _ _ HR1) as (priv' & -> & Ho).
    + intros ->. pose proof (r_stream _ _ _ _ _ _ _ _ _ _ _ HR1) as Hs. apply (f_equal length) in Hs.
      rewrite app_nil_r, length_take, length_app, !length_drop in Hs. lia.
    + lia.
    + cbn [mbind option_bind]. exists 1, priv', dev'. split; [done|]. eapply outcome_same; [|exact Ho]. by constructor.
Qed.

(** ** Chunks *)

Lemma ready_header cs0 priv (dev : M) buffer len future done h rest cs body n :
  ready cs0 priv dev buffer len future done [] 0 cs body -> body = h ++ rest -> length h = n -> Z.of_nat n <= len ->
  take n buffer = h /\ take (Z.to_nat (len - Z.of_nat n)) (drop n buffer) ++ future = rest.
Proof.
  intros [] -> Hn Hl. cbn [app] in r_stream0. split.
  - apply (f_equal (take n)) in r_stream0. rewrite take_app_le, take_take, Nat.min_l in r_stream0 by (rewrite ?length_take; lia).
    rewrite r_stream0, take_app_le, take_ge by lia. done.
  - apply (f_equal (drop n)) in r_stream0. rewrite drop_app_le, (drop_app_length' h) in r_stream0 by (rewrite ?length_take; lia).
    rewrite <-r_stream0. f_equal. rewrite take_drop_commute. do 2 f_equal. lia.
Qed.

Lemma skip_end (dev : M) done n : holds dev done -> holds dev (done ++ replicate n None).
Proof. intros H i. rewrite H, <-overlay_app. by rewrite overlay_skip. Qed.

(** The state after the header of the next chunk. *)
Lemma ready_raw cs0 priv (dev : M) buffer len future done h b k cs bs :
  ready cs0 priv dev buffer len future done [] 0 (Raw b :: cs) ((h ++ b) ++ bs) -> length h = 12%nat -> 12 <= len ->
  length b = (512 * k)%nat -> Z.of_nat (length b) < 2 ^ 31 -> encoding (blk_sz (sp_header priv)) cs bs ->
  ready cs0 (set_direct (512 * Z.of_nat k) (d_direct_offset priv)
               (set_sparse (flag_sparse priv) (sp_header priv) (sparse_cur_chunk priv + 1) priv))
    dev (drop 12 buffer) (len - 12) future done b k cs bs.
Proof.
  intros HR Hh Hl Hb Hi Henc. pose proof HR as [].
  destruct (ready_header _ _ _ _ _ _ _ h (b ++ bs) _ _ 12 HR) as [_ Hs]; [by rewrite <-app_assoc|done|done|].
  cbn [length] in *.
  constructor; cbn -[Nat.mul]; rewrite ?length_drop; try done; try lia.
  rewrite r_all0. cbn [expand_all mbind list_bind expand]. rewrite Hb, (Nat.mul_comm 512), Nat.div_mul by lia. done.
Qed.

Lemma ready_skip cs0 priv (dev : M) buffer len future done h n cs bs :
  ready cs0 priv dev buffer len future done [] 0 (Skip n :: cs) (h ++ bs) -> length h = 12%nat -> 12 <= len ->
  encoding (blk_sz (sp_header priv)) cs bs ->
  ready cs0 (set_direct (d_direct_size priv) (Z.of_nat (length done + n))
               (set_sparse (flag_sparse priv) (sp_header priv) (sparse_cur_chunk priv + 1) priv))
    dev (drop 12 buffer) (len - 12) future (done ++ replicate n None) [] 0 cs bs.
Proof.
  intros HR Hh Hl Henc. pose proof HR as [].
  destruct (ready_header _ _ _ _ _ _ _ h bs _ _ 12 HR) as [_ Hs]; [done..|].
  cbn [length] in *.
  constructor; cbn -[Nat.mul]; rewrite ?length_drop, ?length_app, ?length_replicate; try done; try lia.
  - rewrite r_all0. cbn. by rewrite <-!app_assoc.
  - by apply skip_end.
Qed.

Lemma sparse_loop_spec fuel cs0 priv (dev : M) buffer len future done cs body :
  ready cs0 priv dev buffer len future done [] 0 cs body -> (Z.to_nat len < fuel)%nat ->
  ∃ r p' d', sparse_loop fuel buffer len priv dev = Some (r, p', d') /\ outcome cs0 priv future r p' d'.
Proof.
  revert priv dev buffer len done cs body. induction fuel as [|fuel IH]; intros priv dev buffer len done cs body HR Hf; [lia|].
  pose proof HR as []. pose proof capacity_bound. cbn [sparse_loop]. rewrite u32_small by lia.
  destruct r_enc0 as [|c cs b bs Hc Hcs].
  { destruct (Z.leb_spec (total_chunks (sp_header priv)) (sparse_cur_chunk priv)); [|cbn in *; lia].
    eexists _, _, _. split; [done|]. apply app_eq_nil in r_stream0 as [_ ->].
    apply OutDone; [done|by constructor|done|]. cbn in r_all0. rewrite app_nil_r in r_all0. by rewrite r_all0. }
  cbn [length] in r_cur0.
  destruct (Z.leb_spec (total_chunks (sp_header priv)) (sparse_cur_chunk priv)); [lia|].
  rewrite u64_small by lia. pose proof (encodes_length _ _ _ Hc) as Hlb.
  destruct (Z.ltb_spec len 12).
  { destruct (noBuffer_waiting _ _ _ _ _ _ _ _ _ _ _ HR) as (priv' & -> & Ho); [|lia|].
    - intros ->. apply (f_equal length) in r_stream0. rewrite app_nil_r, length_take, !length_app in r_stream0. cbn in *. lia.
    - cbn [mbind option_bind]. eauto. }
  unfold consumed. change (Z.to_nat 12) with 12%nat.
  destruct Hc as [h b k Hh Ht Hcl Htot Hbk Hbi|h n Hh Ht Hcl Htot Hn].
  - destruct (ready_header _ _ _ _ _ _ _ h (b ++ bs) _ _ 12 HR) as [-> _]; [by rewrite <-app_assoc|done|lia|].
    rewrite Ht, Hcl, Z.eqb_refl, (u64_small (Z.of_nat (length b))), u64_small, Htot, Z.eqb_refl by lia. cbn [negb].
    replace (Z.of_nat (length b)) with (512 * Z.of_nat k) by lia.
    destruct (direct_then (sparse_loop fuel) _ _ _ _ _ _ _ _ _ _ _
      (ready_raw _ _ _ _ _ _ _ h b k cs bs HR Hh ltac:(lia) Hbk Hbi Hcs)) as (r & p' & d' & He & Ho).
    + intros buffer' len' priv' dev' HR' Hle _. eapply IH; [exact HR'|lia].
    + exists r, p', d'. split; [exact He|]. eapply outcome_same; [|exact Ho]. by constructor.
  - destruct (ready_header _ _ _ _ _ _ _ h bs _ _ 12 HR) as [-> _]; [done..|].
    rewrite Ht, Hcl, Htot, Z.eqb_refl. change (CHUNK_TYPE_DONT_CARE =? CHUNK_TYPE_RAW) with false. cbn [negb].
    rewrite (u64_small (512 * Z.of_nat n)) by lia. unfold RK_BLK_SIZE. rewrite (Z.mul_comm 512), Z.div_mul by lia.
    pose proof (ready_skip _ _ _ _ _ _ _ h n cs bs HR Hh ltac:(lia) Hcs) as HR'.
    assert (u64 (d_direct_offset priv + Z.of_nat n) = Z.of_nat (length done + n)) as Eo
      by (rewrite r_offset0, u64_small; [lia|]; rewrite r_all0, !length_app, expand_all_cons, length_app in r_room0;
          cbn [expand] in r_room0; rewrite length_replicate in r_room0; lia).
    cbn [d_direct_size d_direct_offset set_sparse] in *. rewrite Eo.
    destruct (IH _ _ _ _ _ _ _ HR') as (r & p' & d' & He & Ho); [lia|].
    exists r, p', d'. split; [exact He|]. eapply outcome_same; [|exact Ho]. by constructor.
Qed.

Lemma rkimg_handleSparseDownload_spec cs0 priv (dev : M) buffer len future done data k cs body :
  ready cs0 priv dev buffer len future done data k cs body ->
  ∃ r p' d', rkimg_handleSparseDownload buffer len priv dev = Some (r, p', d') /\ outcome cs0 priv future r p' d'.
Proof.
  intros HR. pose proof HR as []. unfold rkimg_handleSparseDownload. rewrite r_direct0.
  destruct (Z.eqb_spec (512 * Z.of_nat k) 0) as [Hz|Hz]; cbn [negb].
  - assert (k = 0%nat) as -> by lia. destruct data; [|discriminate]. eapply sparse_loop_spec; [done|lia].
  - apply (direct_then (λ b l, sparse_loop (S (Z.to_nat l)) b l) _ _ _ _ _ _ _ _ _ _ _ HR).
    intros. eapply sparse_loop_spec; [done|lia].
Qed.

(** ** Buffers *)

(** What the host interface guarantees about a buffer that arrives: it is as
    large as a transfer, or it ends the download. *)
Definition arrives (priv : fastboot) (buffer : list Z) (len : Z) (future : list Z) : Prop :=
  0 < len <= Z.of_nat (length buffer) /\ len <= USB_MAX_TRANS_SIZE /\
  (len = USB_MAX_TRANS_SIZE \/ future = []) /\ transfer_buffer_size priv = USB_MAX_TRANS_SIZE /\
  d_bytes priv + len + Z.of_nat (length future) = d_size priv /\ d_size priv < 2 ^ 32 /\ 0 <= d_bytes priv.

Lemma arrives_handled priv buffer len future :
  arrives priv buffer len future ->
  (u64 (len + d_bytes priv) <? d_size priv) && (u64 len <? transfer_buffer_size priv) = false.
Proof.
  unfold USB_MAX_TRANS_SIZE. intros (H1 & H2 & H3 & H4 & H5 & H6 & H7). unfold USB_MAX_TRANS_SIZE in *. rewrite H4. rewrite !u64_small by lia.
  apply andb_false_iff. destruct H3 as [->| ->]; [right; apply Z.ltb_ge; lia|left; apply Z.ltb_ge; cbn in *; lia].
Qed.

(** The cache in front of the new buffer. *)
Lemma cache_stream (left piece future cache : list Z) :
  (length left + length piece <= length cache)%nat -> take (length left) cache = left ->
  take (length left + length piece) (take (length left) cache ++ piece ++ drop (length left + length piece) cache) ++ future
  = left ++ piece ++ future.
Proof.
  intros Hl ->. rewrite (assoc_L (++)), take_app_le by (rewrite length_app; lia).
  rewrite take_ge by (rewrite length_app; lia). by rewrite <-app_assoc.
Qed.

Lemma rkimage_handleDownload_continue cs0 priv (dev : M) buffer len future :
  start p <> 0 -> flag_sparse priv = true -> d_bytes priv <> 0 -> arrives priv buffer len future ->
  waiting cs0 priv dev (take (Z.to_nat len) buffer ++ future) ->
  ∃ r p' d', rkimage_handleDownload buffer len priv dev = Some (r, p', d') /\ outcome cs0 priv future r p' d'.
Proof.
  intros Hst Hfl Hb Harr Hw. pose proof (arrives_handled _ _ _ _ Harr) as Hgo.
  destruct Harr as (Hlen & Hmax & _). destruct Hw as [left done data k cs body Hne Hsmall Hpos Hcache HR].
  pose proof HR as []. cbn [set_cache pending_ptn d_status d_cache d_direct_size d_direct_offset sp_header sparse_cur_chunk] in *.
  unfold rkimage_handleDownload. rewrite r_ptn0, Hgo, r_status0. cbn [Z.eqb negb].
  destruct (Z.eqb_spec (start p) 0); [done|]. destruct (Z.eqb_spec (d_bytes priv) 0); [done|].
  unfold USB_MAX_TRANS_SIZE in Hmax. unfold d_cache_size, USB_MAX_TRANS_SIZE, RK_BLK_SIZE in *. rewrite Hpos.
  rewrite u64_small by lia. destruct (Z.ltb_spec (0x20000 + 512) (len + Z.of_nat (length left))); [lia|].
  rewrite Nat2Z.id, take_ge in r_stream0 by lia.
  destruct (Z.eqb_spec (Z.of_nat (length left)) 0) as [Hz|Hz]; cbn [negb].
  - cbn [mbind option_bind]. rewrite Hfl. destruct left; [|discriminate]. cbn in r_stream0.
    apply (rkimg_handleSparseDownload_spec _ _ _ _ _ _ done data k cs body).
    constructor; unfold d_cache_size, USB_MAX_TRANS_SIZE, RK_BLK_SIZE; try done; lia.
  - rewrite decide_True by lia. cbn [mbind option_bind]. cbn [flag_sparse set_cache]. rewrite Hfl, Nat2Z.id.
    set (cache := take _ (d_cache priv) ++ _).
    set (piece := take (Z.to_nat len) buffer) in *.
    assert (Z.of_nat (length piece) = len) as Hpl by (subst piece; rewrite length_take; lia).
    assert (length cache = length (d_cache priv)) as Hcl
      by (subst cache; rewrite !length_app, length_drop, length_take; lia).
    destruct (rkimg_handleSparseDownload_spec cs0 (set_cache cache 0 priv) dev cache (len + Z.of_nat (length left)) future
      done data k cs body) as (r & p' & d' & He & Ho).
    { constructor; unfold d_cache_size, USB_MAX_TRANS_SIZE, RK_BLK_SIZE; try done; cbn; try lia.
      rewrite <-r_stream0. replace (Z.to_nat (len + Z.of_nat (length left))) with (length left + length piece)%nat by lia.
      subst cache. replace (length left + Z.to_nat len)%nat with (length left + length piece)%nat by lia.
      apply cache_stream; [lia|done]. }
    exists r, p', d'. split; [exact He|]. eapply outcome_same; [|exact Ho]. by constructor.
Qed.

(** The bytes of a download cut into the buffers of the host interface; a
    buffer's memory may extend past what was received. *)
Inductive pieces : list (list Z * Z) -> list Z -> Prop :=
| pieces_last buf len :
    0 < len <= Z.of_nat (length buf) -> len <= USB_MAX_TRANS_SIZE -> pieces [(buf, len)] (take (Z.to_nat len) buf)
| pieces_more buf ps future :
    USB_MAX_TRANS_SIZE <= Z.of_nat (length buf) -> pieces ps future ->
    pieces ((buf, USB_MAX_TRANS_SIZE) :: ps) (take (Z.to_nat USB_MAX_TRANS_SIZE) buf ++ future).

Lemma pieces_not_nil ps data : pieces ps data -> data <> [].
Proof.
  destruct 1 as [buf len Hl Hm|buf ps future Hl Hp]; intros E; apply (f_equal length) in E;
    rewrite ?length_app, length_take in E; unfold USB_MAX_TRANS_SIZE in *; cbn [length] in E; lia.
Qed.

(** Between two buffers of a sparse download. *)
Record downloading (cs0 : list chunk) (priv : fastboot) (dev : M) (future : list Z) : Prop := {
  dl_flag : flag_sparse priv = true;
  dl_legacy : d_legacy priv = false;
  dl_size : transfer_buffer_size priv = USB_MAX_TRANS_SIZE;
  dl_bytes : 0 < d_bytes priv;
  dl_total : d_bytes priv + Z.of_nat (length future) = d_size priv;
  dl_int : d_size priv < 2 ^ 32;
  dl_wait : waiting cs0 priv dev future
}.

Lemma waiting_transfer cs0 priv (dev : M) future size bytes :
  waiting cs0 priv dev future -> waiting cs0 (set_transfer size bytes priv) dev future.
Proof.
  intros [left done data k cs body ? ? ? ? HR].
  apply (Waiting _ _ _ _ left done data k cs body); [done..|]. by destruct HR; constructor.
Qed.

(** One buffer: [fbt_rx_data] around a handler call that ends as it should. *)
Lemma fbt_rx_data_spec cs0 priv (dev : M) buffer len future :
  d_legacy priv = false -> arrives priv buffer len future ->
  (∃ r p' d', rkimage_handleDownload buffer len priv dev = Some (r, p', d') /\
     outcome cs0 (set_sparse true (sp_header p') (sparse_cur_chunk priv) priv) future r p' d') ->
  ∃ r p' d', fbt_rx_data buffer len priv dev = Some (r, p', d') /\
    (future = [] /\ r = RxOkay /\ holds d' (expand_all cs0) \/
     r = RxMore /\ downloading cs0 p' d' future).
Proof.
  intros Hleg Harr (r & p' & d' & Hh & Ho). destruct Harr as (Hlen & Hmax & _ & Htbs & Htot & Hint & Hb).
  unfold fbt_rx_data. rewrite Htbs. unfold USB_MAX_TRANS_SIZE in *. rewrite (u64_small len) by lia.
  destruct (Z.ltb_spec 0x20000 len); [lia|]. rewrite Hleg, Hh. cbn [mbind option_bind].
  destruct Ho as [q e -> Hs Hst Hd|q e Hs Hw]; destruct Hs; cbn -[Nat.mul] in *.
  - rewrite Hst, st_bytes0, st_dsize0, u64_small by lia.
    destruct (Z.ltb_spec (d_bytes priv + len) (d_size priv)); [lia|]. cbn.
    eexists _, _, _. split; [done|]. by left.
  - pose proof Hw as [left done data k cs body Hne _ _ _ [] ]. cbn -[Nat.mul] in *.
    rewrite r_status0, st_bytes0, st_dsize0, u64_small by lia.
    assert (0 < length future)%nat by (destruct future; [done|cbn; lia]).
    destruct (Z.ltb_spec (d_bytes priv + len) (d_size priv)); [|lia]. cbn.
    eexists _, _, _. split; [done|]. right. split; [done|].
    constructor; cbn; unfold USB_MAX_TRANS_SIZE; try congruence; try lia. exact (waiting_transfer cs0 q e future _ _ Hw).
Qed.

Lemma fbt_rx_data_continue cs0 priv (dev : M) buffer len future :
  start p <> 0 -> 0 < len <= Z.of_nat (length buffer) -> len <= USB_MAX_TRANS_SIZE ->
  (len = USB_MAX_TRANS_SIZE \/ future = []) ->
  downloading cs0 priv dev (take (Z.to_nat len) buffer ++ future) ->
  ∃ r p' d', fbt_rx_data buffer len priv dev = Some (r, p', d') /\
    (future = [] /\ r = RxOkay /\ holds d' (expand_all cs0) \/
     r = RxMore /\ downloading cs0 p' d' future).
Proof.
  intros Hst Hl Hm Hor []. rewrite length_app, length_take in dl_total0.
  assert (arrives priv buffer len future) as Harr by (unfold arrives; split_and!; [lia..|done|done|lia|lia|lia]).
  apply fbt_rx_data_spec; [done..|].
  destruct (rkimage_handleDownload_continue cs0 priv dev buffer len future) as (r & p' & d' & He & Ho); [done|done|lia|done..|].
  exists r, p', d'. split; [done|]. eapply outcome_same; [|exact Ho].
  assert (sp_header p' = sp_header priv) by (by destruct Ho as [? ? ? []|? ? []]).
  constructor; cbn; congruence.
Qed.

Lemma fbt_receive_continue ps data cs0 priv (dev : M) :
  start p <> 0 -> pieces ps data -> downloading cs0 priv dev data ->
  ∃ p' d', fbt_receive ps priv dev = Some (RxOkay, p', d') /\ holds d' (expand_all cs0).
Proof.
  intros Hst Hp. revert priv dev. induction Hp as [buf len Hl Hm|buf ps future Hl Hp IH]; intros priv dev Hd; cbn [fbt_receive].
  - destruct (fbt_rx_data_continue cs0 priv dev buf len []) as (r & p' & d' & -> & Ho); [done..|by right|by rewrite app_nil_r|].
    cbn [mbind option_bind]. destruct Ho as [(_ & -> & Hh)|(-> & Hd')]; [eauto|].
    by destruct (dl_wait _ _ _ _ Hd').
  - destruct (fbt_rx_data_continue cs0 priv dev buf USB_MAX_TRANS_SIZE future) as (r & p' & d' & -> & Ho);
      [done|unfold USB_MAX_TRANS_SIZE in *; lia|done|by left|done|].
    cbn [mbind option_bind]. destruct Ho as [(-> & _ & _)|(-> & Hd')]; [|by apply IH].
    by apply pieces_not_nil in Hp.
Qed.

(** ** The first buffer *)

(** The state in which a download begins. *)
Record fresh (priv : fastboot) (size : nat) : Prop := {
  fr_ptn : pending_ptn priv = Some p;
  fr_size : transfer_buffer_size priv = USB_MAX_TRANS_SIZE;
  fr_legacy : d_legacy priv = false;
  fr_dsize : d_size priv = Z.of_nat size;
  fr_bytes : d_bytes priv = 0;
  fr_status : d_status priv = 0;
  fr_cache : Z.of_nat (length (d_cache priv)) = d_cache_size;
  fr_int : Z.of_nat size < 2 ^ 32
}.

(** A sparse image: a header of 28 bytes and its chunks. *)
Record sparse_image (hb body : list Z) (cs : list chunk) : Prop := {
  si_len : length hb = 28%nat;
  si_header : header_ok (sparse_header hb) cs;
  si_body : encoding (blk_sz (sparse_header hb)) cs body
}.

Lemma first_bytes priv buffer len future (hb body : list Z) :
  arrives priv buffer len future -> take (Z.to_nat len) buffer ++ future = hb ++ body -> length hb = 28%nat ->
  28 <= len /\ take 28 buffer = hb /\ take (Z.to_nat (len - 28)) (drop 28 buffer) ++ future = body.
Proof.
  intros (Hl & Hm & Hor & _) Hs Hh.
  assert (28 <= len) as H28.
  { destruct Hor as [->| ->]; [done|]. apply (f_equal length) in Hs. rewrite app_nil_r, length_take, length_app in Hs. lia. }
  split; [done|]. split.
  - apply (f_equal (take 28)) in Hs. rewrite take_app_le, take_take, Nat.min_l in Hs by (rewrite ?length_take; lia).
    by rewrite Hs, take_app_le, take_ge by lia.
  - apply (f_equal (drop 28)) in Hs. rewrite drop_app_le, (drop_app_length' hb) in Hs by (rewrite ?length_take; lia).
    rewrite <-Hs. f_equal. rewrite take_drop_commute. do 2 f_equal. lia.
Qed.

Lemma rkimage_handleDownload_start cs hb body priv size (dev : M) buffer len future :
  start p <> 0 -> fresh priv size -> arrives priv buffer len future -> sparse_image hb body cs ->
  start p + Z.of_nat (length (expand_all cs)) <= capacity -> (∀ k, sector dev k = base k) ->
  take (Z.to_nat len) buffer ++ future = hb ++ body ->
  ∃ r p' d', rkimage_handleDownload buffer len priv dev = Some (r, p', d') /\
    outcome cs (set_sparse true (sp_header p') (sparse_cur_chunk priv) priv) future r p' d'.
Proof.
  intros Hst [] Harr [Hhl Hho Henc] Hroom Hbase Hs. pose proof (arrives_handled _ _ _ _ Harr) as Hgo.
  destruct (first_bytes _ _ _ _ _ _ Harr Hs Hhl) as (H28 & Hb & Hrest). destruct Harr as (Hlen & Hmax & _).
  unfold rkimage_handleDownload. rewrite fr_ptn0, Hgo, fr_status0, fr_bytes0. cbn [Z.eqb negb].
  destruct (Z.eqb_spec (start p) 0); [done|]. unfold rkimg_startDownload. rewrite decide_False by lia.
  rewrite Hb. pose proof Hho as []. rewrite ho_magic0, ho_major0, ho_file0, ho_chunk0. cbn [Z.eqb Pos.eqb andb].
  rewrite !Z.eqb_refl. cbn [andb]. unfold consumed. change (Z.to_nat 28) with 28%nat.
  set (h := sparse_header hb) in *. set (priv1 := set_sparse true h 0 _).
  destruct (rkimg_handleSparseDownload_spec cs priv1 dev (drop 28 buffer) (len - 28) future [] [] 0 cs body)
    as (r & p' & d' & He & Ho).
  { unfold USB_MAX_TRANS_SIZE in Hmax. constructor; cbn; try done; try lia.
    - rewrite length_drop. lia.
    - intros k. rewrite overlay_nil. apply Hbase.
    - change (0 = total_chunks h - Z.of_nat (length cs)). lia. }
  exists r, p', d'. split; [exact He|]. eapply outcome_same; [|exact Ho].
  assert (sp_header p' = h) as -> by (by destruct Ho as [? ? ? []|? ? []]). by constructor.
Qed.

(** Streaming a sparse image, whatever the buffers. *)
Lemma sparse_download cs hb body ps priv (dev : M) :
  start p <> 0 -> fresh priv (length (hb ++ body)) -> pieces ps (hb ++ body) -> sparse_image hb body cs ->
  start p + Z.of_nat (length (expand_all cs)) <= capacity -> (∀ k, sector dev k = base k) ->
  ∃ p' d', fbt_receive ps priv dev = Some (RxOkay, p', d') /\ holds d' (expand_all cs).
Proof.
  intros Hst Hf Hp Hi Hroom Hbase. remember (hb ++ body) as data eqn:Ed. pose proof Hf as [].
  destruct Hp as [buf len Hl Hm|buf ps future Hl Hp]; cbn [fbt_receive].
  - assert (arrives priv buf len []) as Harr.
    { unfold arrives. rewrite length_take in *. split_and!; try done; cbn [length]; try lia. by right. }
    destruct (fbt_rx_data_spec cs priv dev buf len [] fr_legacy0 Harr) as (r & p' & d' & -> & Ho).
    { eapply rkimage_handleDownload_start; try done. by rewrite app_nil_r. }
    cbn [mbind option_bind]. destruct Ho as [(_ & -> & Hh)|(-> & Hd')]; [eauto|].
    by destruct (dl_wait _ _ _ _ Hd').
  - assert (arrives priv buf USB_MAX_TRANS_SIZE future) as Harr.
    { unfold arrives, USB_MAX_TRANS_SIZE in *. rewrite length_app, length_take in *. split_and!; try done; lia. }
    destruct (fbt_rx_data_spec cs priv dev buf USB_MAX_TRANS_SIZE future fr_legacy0 Harr) as (r & p' & d' & -> & Ho).
    { eapply rkimage_handleDownload_start; done. }
    cbn [mbind option_bind]. destruct Ho as [(-> & _ & _)|(-> & Hd')].
    + by apply pieces_not_nil in Hp.
    + by eapply fbt_receive_continue.
Qed.

(** ** The same image from memory *)

Lemma expand_length_raw b k : length b = (512 * k)%nat -> expand (Raw b) = Some <$> chop k b.
Proof. intros H. cbn [expand]. by rewrite H, (Nat.mul_comm 512), Nat.div_mul by lia. Qed.

Lemma unsparse_loop_spec header cs body source outlen section_size m (dev : M) done :
  encoding (blk_sz header) cs body -> bytes_at m source body ->
  0 <= source -> source + Z.of_nat (length body) < 2 ^ 32 ->
  0 <= outlen -> outlen + 512 * Z.of_nat (length (expand_all cs)) <= section_size -> section_size < 2 ^ 64 ->
  start p + Z.of_nat (length (done ++ expand_all cs)) <= capacity -> holds dev done ->
  ∃ dev', unsparse_loop (length cs) header source (start p + Z.of_nat (length done)) outlen section_size m dev
      = Some (0, dev') /\ holds dev' (done ++ expand_all cs).
Proof.
  intros Henc. pose proof capacity_bound as Hcap. revert source outlen dev done.
  induction Henc as [|c cs b bs Hc Hcs IH]; intros source outlen dev done Hb Hs Hs' Ho Ho' Hsec Hroom Hh.
  { exists dev. split; [done|]. cbn. by rewrite app_nil_r. }
  rewrite expand_all_cons in *. rewrite !length_app in *.
  destruct Hc as [h b k Hhl Ht Hcl Htot Hbk Hbi|h n Hhl Ht Hcl Htot Hn]; cbn [length unsparse_loop].
  all: rewrite <-?app_assoc in Hb; apply bytes_at_app in Hb as [Hb1 Hb2]; rewrite Hhl in *.
  all: rewrite <-Hhl, (load_n_spec _ _ _ Hb1) by done; cbn [mbind option_bind]; rewrite Ht, Hcl, Htot.
  - rewrite Z.eqb_refl, (u64_small (Z.of_nat (length b))) by lia. rewrite (u64_small (Z.of_nat (length b) + 12)), Z.eqb_refl by lia.
    rewrite (expand_length_raw b k Hbk), length_fmap, chop_length in *. cbn [negb].
    rewrite !length_app in Hs'. apply bytes_at_app in Hb2 as [Hb2 Hb3].
    rewrite (u64_small (outlen + _)) by lia. destruct (Z.ltb_spec section_size (outlen + Z.of_nat (length b))); [lia|].
    replace (Z.of_nat (length b) / RK_BLK_SIZE) with (Z.of_nat k) by (unfold RK_BLK_SIZE; apply Z.div_unique with 0; lia).
    rewrite s32_small by lia.
    destruct (rkloader_CopyMemory2Flash_spec (source + 12) (start p + Z.of_nat (length done)) k m b dev) as (d1 & -> & Hd1);
      try lia; [done|]. cbn [mbind option_bind Z.eqb negb].
    rewrite u64_small by lia. replace (start p + Z.of_nat (length done) + Z.of_nat k)
      with (start p + Z.of_nat (length (done ++ (Some <$> chop k b)))) by (rewrite length_app, length_fmap, chop_length; lia).
    destruct (IH (source + 12 + Z.of_nat (length b)) (outlen + Z.of_nat (length b)) d1 (done ++ (Some <$> chop k b)))
      as (d2 & -> & Hd2); rewrite ?length_app, ?length_fmap, ?chop_length; try lia.
    { exact Hb3. }
    { intros i. rewrite Hd1, (overlay_ext _ _ _ _ _ Hh). apply overlay_app. }
    exists d2. split; [done|]. by rewrite <-app_assoc in Hd2.
  - change (CHUNK_TYPE_DONT_CARE =? CHUNK_TYPE_RAW) with false. rewrite Z.eqb_refl. cbn [negb Z.eqb Pos.eqb].
    cbn [expand] in *. rewrite length_replicate in *. rewrite (u64_small (512 * Z.of_nat n)), (u64_small (outlen + _)) by lia.
    destruct (Z.ltb_spec section_size (outlen + 512 * Z.of_nat n)); [lia|].
    unfold RK_BLK_SIZE. rewrite (Z.mul_comm 512 (Z.of_nat n)), Z.div_mul, u64_small by lia.
    replace (start p + Z.of_nat (length done) + Z.of_nat n)
      with (start p + Z.of_nat (length (done ++ replicate n (@None (list Z))))) by (rewrite length_app, length_replicate; lia).
    destruct (IH (source + 12) (outlen + Z.of_nat n * 512) dev (done ++ replicate n None))
      as (d2 & -> & Hd2); rewrite ?length_app, ?length_replicate; try lia.
    { exact Hb2. }
    { by apply skip_end. }
    exists d2. split; [done|]. by rewrite <-app_assoc in Hd2.
Qed.

(** ** Images that are not sparse *)

Lemma chop_exact n a b : length a = (512 * n)%nat -> ∀ k, chop (n + k) (a ++ b) = chop n a ++ chop k b.
Proof. intros H k. by rewrite chop_add, chop_prefix, (drop_app_length' a) by lia. Qed.

(** Between two buffers of an image that is not sparse: [len] bytes are to come,
    and what is written are the sectors of [sofar]. *)
Record plain (priv : fastboot) (dev : M) (sofar : list Z) (len : nat) : Prop := {
  pl_ptn : pending_ptn priv = Some p;
  pl_flag : flag_sparse priv = false;
  pl_legacy : d_legacy priv = false;
  pl_tbs : transfer_buffer_size priv = USB_MAX_TRANS_SIZE;
  pl_bytes : d_bytes priv = Z.of_nat (length sofar);
  pl_total : d_size priv = Z.of_nat (length sofar + len);
  pl_int : d_size priv < 2 ^ 31;
  pl_status : d_status priv = 0;
  pl_pos : d_cache_pos priv = 0;
  pl_direct : d_direct_size priv = Z.of_nat len;
  pl_whole : length sofar = (512 * (length sofar / 512))%nat;
  pl_offset : d_direct_offset priv = Z.of_nat (length sofar / 512);
  pl_holds : holds dev (Some <$> chop (length sofar / 512) sofar)
}.

(** How many sectors [n] bytes take. *)
Definition nsec (n : nat) : nat := Z.to_nat ((Z.of_nat n + 511) / 512).

Lemma nsec_bound n : Z.of_nat n <= 512 * Z.of_nat (nsec n) < Z.of_nat n + 512.
Proof.
  unfold nsec. pose proof (Z.div_mod (Z.of_nat n + 511) 512 ltac:(lia)).
  pose proof (Z.mod_pos_bound (Z.of_nat n + 511) 512 ltac:(lia)).
  assert (0 <= (Z.of_nat n + 511) / 512) by (apply Z.div_pos; lia). lia.
Qed.

(** The last buffer: what follows the image in it fills the last sector. *)
Lemma plain_last buffer len priv (dev : M) done :
  0 < len -> len <= USB_MAX_TRANS_SIZE -> pending_ptn priv = Some p -> d_direct_size priv = len ->
  d_direct_offset priv = Z.of_nat (length done) -> holds dev done ->
  (512 * nsec (Z.to_nat len) <= length buffer)%nat ->
  start p + Z.of_nat (length done + nsec (Z.to_nat len)) <= capacity ->
  ∃ p' d', rkimg_ImageDownload buffer len priv dev = Some (0, p', d') /\ same_transfer priv p' /\ d_status p' = 1 /\
    holds d' (done ++ (Some <$> chop (nsec (Z.to_nat len)) buffer)).
Proof.
  intros Hl Hm Hp Hds Hoff Hh Hbuf Hcap. unfold rkimg_ImageDownload, USB_MAX_TRANS_SIZE in *. rewrite Hds.
  destruct (Z.eqb_spec len 0); [lia|].
  assert (nsec (Z.to_nat len) = Z.to_nat ((len + 511) / 512)) as Hns by (unfold nsec; by rewrite Z2Nat.id by lia).
  rewrite Hns in *.
  destruct (direct_raw buffer len len priv dev done len) as (d' & -> & Hd'); try done; try lia.
  { by rewrite Z.leb_refl. }
  destruct (Z.ltb_spec len 0); [lia|]. unfold consumed. cbn [set_direct d_direct_size]. rewrite Z.sub_diag. cbn.
  eexists _, d'. split; [done|]. split; [by constructor|]. by split.
Qed.

(** A buffer of an image that goes on. *)
Lemma plain_more buffer future priv (dev : M) done :
  pending_ptn priv = Some p -> (0 < future)%nat ->
  d_direct_size priv = USB_MAX_TRANS_SIZE + Z.of_nat future -> d_direct_size priv < 2 ^ 31 ->
  d_direct_offset priv = Z.of_nat (length done) -> holds dev done -> d_status priv = 0 -> d_cache_pos priv = 0 ->
  USB_MAX_TRANS_SIZE <= Z.of_nat (length buffer) -> start p + Z.of_nat (length done + 256) <= capacity ->
  ∃ d', rkimg_ImageDownload buffer USB_MAX_TRANS_SIZE priv dev =
      Some (1, set_direct (Z.of_nat future) (Z.of_nat (length done + 256)) priv, d') /\
    holds d' (done ++ (Some <$> chop 256 buffer)).
Proof.
  intros Hp Hf Hds Hint Hoff Hh Hst Hpos Hbuf Hcap. unfold rkimg_ImageDownload, USB_MAX_TRANS_SIZE in *.
  destruct (Z.eqb_spec (d_direct_size priv) 0); [lia|].
  assert (Z.to_nat ((0x20000 + 511) / 512) = 256%nat) as E by done.
  destruct (direct_raw buffer 0x20000 (0x20000 + Z.of_nat future) priv dev done 0x20000) as (d' & -> & Hd');
    rewrite ?E in *; try done; try lia.
  { destruct (Z.leb_spec (0x20000 + Z.of_nat future) 0x20000); [lia|done]. }
  cbn [Z.ltb Z.compare]. unfold consumed.
  cbn [set_direct d_direct_size].
  replace (0x20000 + Z.of_nat future - 0x20000) with (Z.of_nat future) by lia.
  destruct (Z.eqb_spec (Z.of_nat future) 0); [lia|]. cbn [negb Z.sub Z.add Z.opp Pos.eqb Z.eqb].
  unfold rkimg_noBuffer. cbn [Z.sub Z.eqb Z.pos_sub mbind option_bind]. eauto.
Qed.

(** The sectors of an image of [data], its last sector filled with what was in
    the buffer. *)
Definition written (dev : M) (data : list Z) : Prop :=
  ∃ pad, (512 * nsec (length data) <= length (data ++ pad))%nat /\
    holds dev (Some <$> chop (nsec (length data)) (data ++ pad)).

Lemma nsec_app (a b : list Z) : length a = (512 * (length a / 512))%nat ->
  nsec (length (a ++ b)) = (length a / 512 + nsec (length b))%nat.
Proof.
  intros H. pose proof (nsec_bound (length (a ++ b))). pose proof (nsec_bound (length b)).
  rewrite length_app in *. lia.
Qed.

Lemma rx_plain_last buffer len priv priv1 (dev : M) sofar :
  rkimage_handleDownload buffer len priv dev = rkimg_ImageDownload buffer len priv1 dev ->
  d_legacy priv = false -> transfer_buffer_size priv = USB_MAX_TRANS_SIZE ->
  0 < len -> len <= USB_MAX_TRANS_SIZE -> USB_MAX_TRANS_SIZE <= Z.of_nat (length buffer) ->
  plain priv1 dev sofar (Z.to_nat len) ->
  start p + Z.of_nat (nsec (length (sofar ++ take (Z.to_nat len) buffer))) <= capacity ->
  ∃ p' d', fbt_rx_data buffer len priv dev = Some (RxOkay, p', d') /\ written d' (sofar ++ take (Z.to_nat len) buffer).
Proof.
  intros Hh Hleg Htbs Hl Hm Hbuf [] Hcap. rewrite nsec_app in Hcap by done.
  unfold USB_MAX_TRANS_SIZE in *. rewrite length_take, Nat.min_l in Hcap by lia.
  pose proof (nsec_bound (Z.to_nat len)) as Hns.
  destruct (plain_last buffer len priv1 dev (Some <$> chop (length sofar / 512) sofar)) as (p' & d' & He & [] & Hst & Hd');
    rewrite ?length_fmap, ?chop_length; unfold USB_MAX_TRANS_SIZE; try done; try lia.
  unfold fbt_rx_data. rewrite Htbs, (u64_small len) by lia.
  destruct (Z.ltb_spec 0x20000 len); [lia|]. rewrite Hleg, Hh, He. cbn [mbind option_bind]. cbn.
  rewrite Hst, st_bytes0, st_dsize0, pl_bytes0, pl_total0, u64_small by lia.
  destruct (Z.ltb_spec (Z.of_nat (length sofar) + len) (Z.of_nat (length sofar + Z.to_nat len))); [lia|]. cbn.
  eexists _, d'. split; [done|]. exists (drop (Z.to_nat len) buffer).
  assert (length (take (Z.to_nat len) buffer) = Z.to_nat len) as Hlt by (rewrite length_take; lia).
  rewrite nsec_app, Hlt, <-app_assoc, take_drop by done. split; [rewrite length_app; lia|].
  rewrite chop_exact by done. by rewrite fmap_app.
Qed.

Lemma rx_plain_more buffer priv priv1 (dev : M) sofar (future : nat) :
  rkimage_handleDownload buffer USB_MAX_TRANS_SIZE priv dev = rkimg_ImageDownload buffer USB_MAX_TRANS_SIZE priv1 dev ->
  d_legacy priv = false -> transfer_buffer_size priv = USB_MAX_TRANS_SIZE ->
  USB_MAX_TRANS_SIZE <= Z.of_nat (length buffer) -> (0 < future)%nat ->
  plain priv1 dev sofar (Z.to_nat USB_MAX_TRANS_SIZE + future) ->
  start p + Z.of_nat (nsec (length sofar + Z.to_nat USB_MAX_TRANS_SIZE + future)) <= capacity ->
  let sofar' := sofar ++ take (Z.to_nat USB_MAX_TRANS_SIZE) buffer in
  ∃ p' d', fbt_rx_data buffer USB_MAX_TRANS_SIZE priv dev = Some (RxMore, p', d') /\ plain p' d' sofar' future.
Proof.
  intros Hh Hleg Htbs Hbuf Hf HP Hcap sofar'.
  assert (Z.of_nat (Z.to_nat USB_MAX_TRANS_SIZE) = 131072) as HT by (by apply Z2Nat.id).
  revert HP Hcap sofar'. generalize dependent (Z.to_nat USB_MAX_TRANS_SIZE). intros T HT [] Hcap sofar'.
  pose proof (nsec_bound (length sofar + T + future)) as Hns.
  assert (length sofar' = length sofar + T)%nat as Hs'
    by (subst sofar'; rewrite length_app, length_take; unfold USB_MAX_TRANS_SIZE in *; lia).
  assert (length sofar' / 512 = length sofar / 512 + 256)%nat as Hd5
    by (rewrite Hs'; replace T with (256 * 512)%nat by lia; apply Nat.div_add; lia).
  destruct (plain_more buffer future priv1 dev (Some <$> chop (length sofar / 512) sofar)) as (d' & He & Hd');
    rewrite ?length_fmap, ?chop_length in *; unfold USB_MAX_TRANS_SIZE in *; try done; try lia.
  unfold fbt_rx_data. rewrite Htbs, u64_small, Z.ltb_irrefl, Hleg, Hh, He by lia. cbn -[Nat.mul Nat.div].
  rewrite pl_status0, pl_bytes0, pl_total0, u64_small by lia.
  destruct (Z.ltb_spec (Z.of_nat (length sofar) + 131072) (Z.of_nat (length sofar + (T + future)))); [|lia]. cbn -[Nat.mul Nat.div].
  eexists _, d'. split; [done|].
  constructor; cbn -[Nat.mul Nat.div]; rewrite ?Hd5, ?Hs'; try done; try lia.
  subst sofar'. rewrite chop_exact, fmap_app by done. rewrite chop_take by lia. done.
Qed.

Definition big_buffers (ps : list (list Z * Z)) : Prop :=
  Forall (λ '(b, _), USB_MAX_TRANS_SIZE <= Z.of_nat (length b)) ps.

(** A buffer that goes on with an image that is not sparse. *)
Lemma handle_plain buffer len priv (dev : M) sofar n :
  start p <> 0 -> (0 < length sofar)%nat -> plain priv dev sofar n ->
  (len = USB_MAX_TRANS_SIZE \/ len = Z.of_nat n) -> 0 < len -> len <= USB_MAX_TRANS_SIZE ->
  rkimage_handleDownload buffer len priv dev = rkimg_ImageDownload buffer len priv dev.
Proof.
  intros Hst Hs [] Hor Hl Hm. unfold rkimage_handleDownload, USB_MAX_TRANS_SIZE in *.
  rewrite pl_ptn0, pl_status0, pl_bytes0, pl_tbs0, pl_total0, pl_pos0. rewrite !u64_small by lia.
  destruct (Z.eqb_spec (start p) 0); [done|]. destruct (Z.eqb_spec (Z.of_nat (length sofar)) 0); [lia|].
  assert ((len + Z.of_nat (length sofar) <? Z.of_nat (length sofar + n)) && (len <? 0x20000) = false) as ->.
  { apply andb_false_iff. destruct Hor; [right|left]; apply Z.ltb_ge; lia. }
  unfold d_cache_size, USB_MAX_TRANS_SIZE, RK_BLK_SIZE. cbn [negb Z.eqb].
  destruct (Z.ltb_spec (0x20000 + 512) (len + 0)); [lia|]. cbn [mbind option_bind]. by rewrite pl_flag0.
Qed.

Lemma pieces_len ps data : pieces ps data -> big_buffers ps -> (0 < length data)%nat.
Proof. intros H _. apply pieces_not_nil in H. destruct data; [done|cbn; lia]. Qed.

Lemma receive_plain ps data priv (dev : M) sofar :
  start p <> 0 -> (0 < length sofar)%nat -> pieces ps data -> big_buffers ps -> plain priv dev sofar (length data) ->
  start p + Z.of_nat (nsec (length (sofar ++ data))) <= capacity ->
  ∃ p' d', fbt_receive ps priv dev = Some (RxOkay, p', d') /\ written d' (sofar ++ data).
Proof.
  intros Hst Hs Hp Hb. revert priv dev sofar Hs.
  induction Hp as [buf len Hl Hm|buf ps future Hl Hp IH]; intros priv dev sofar Hs HP Hcap; cbn [fbt_receive].
  - apply Forall_cons in Hb as [Hb _]. rewrite length_take, Nat.min_l in HP by lia.
    destruct (rx_plain_last buf len priv priv dev sofar) as (p' & d' & -> & Hw); try done; try lia; try apply HP.
    { eapply handle_plain; [done| |exact HP|right|..]; lia. }
    cbn [mbind option_bind]. eauto.
  - apply Forall_cons in Hb as [Hb Hbs]. pose proof (pieces_len _ _ Hp Hbs) as Hf.
    assert (length (take (Z.to_nat USB_MAX_TRANS_SIZE) buf) = Z.to_nat USB_MAX_TRANS_SIZE) as Hlt
      by (rewrite length_take; lia).
    rewrite length_app, Hlt in HP. rewrite !length_app, Hlt in Hcap.
    destruct (rx_plain_more buf priv priv dev sofar (length future)) as (p' & d' & -> & HP'); try done; try apply HP.
    { eapply handle_plain; [done| |exact HP|by left|done..]. lia. }
    { by rewrite <-Nat.add_assoc. }
    cbn [mbind option_bind]. destruct (IH Hbs p' d' (sofar ++ take (Z.to_nat USB_MAX_TRANS_SIZE) buf)) as (q & e & -> & Hw);
      [rewrite length_app; lia|exact HP'|..].
    { by rewrite !length_app, Hlt, <-Nat.add_assoc. }
    exists q, e. split; [done|]. by rewrite <-app_assoc in Hw.
Qed.

Definition start_plain (buffer : list Z) (priv : fastboot) : fastboot :=
  set_direct (d_size priv) 0
    (set_cache (d_cache priv) 0 (set_sparse false (sparse_header (take 28 buffer)) 0 (set_direct 0 0 (set_status 0 priv)))).

Lemma handle_plain_start buffer len priv (dev : M) n :
  start p <> 0 -> fresh priv n -> 0 < len -> len <= USB_MAX_TRANS_SIZE ->
  (len = USB_MAX_TRANS_SIZE \/ len = Z.of_nat n) -> USB_MAX_TRANS_SIZE <= Z.of_nat (length buffer) ->
  le_value (take 4 buffer) <> SPARSE_HEADER_MAGIC ->
  rkimage_handleDownload buffer len priv dev = rkimg_ImageDownload buffer len (start_plain buffer priv) dev.
Proof.
  intros Hst [] Hl Hm Hor Hb Hmag. unfold rkimage_handleDownload, USB_MAX_TRANS_SIZE in *.
  rewrite fr_ptn0, fr_status0, fr_bytes0, fr_size0, fr_dsize0. rewrite !u64_small by lia.
  destruct (Z.eqb_spec (start p) 0); [done|]. cbn [negb Z.eqb].
  assert ((len + 0 <? Z.of_nat n) && (len <? 0x20000) = false) as ->.
  { apply andb_false_iff. destruct Hor; [right|left]; apply Z.ltb_ge; lia. }
  unfold rkimg_startDownload. rewrite decide_False by lia.
  assert (magic (sparse_header (take 28 buffer)) = le_value (take 4 buffer)) as ->.
  { unfold sparse_header, le_field. cbn [magic]. by rewrite drop_0, take_take. }
  destruct (Z.eqb_spec (le_value (take 4 buffer)) SPARSE_HEADER_MAGIC); [done|]. done.
Qed.

Lemma start_plain_plain buffer priv (dev : M) n :
  fresh priv n -> Z.of_nat n < 2 ^ 31 -> (∀ k, sector dev k = base k) -> plain (start_plain buffer priv) dev [] n.
Proof.
  intros [] Hn Hb. constructor; try done; cbn; try lia. intros k. rewrite overlay_nil. apply Hb.
Qed.

Lemma raw_download ps data priv (dev : M) :
  start p <> 0 -> fresh priv (length data) -> Z.of_nat (length data) < 2 ^ 31 -> pieces ps data -> big_buffers ps ->
  (4 <= length data)%nat -> le_value (take 4 data) <> SPARSE_HEADER_MAGIC ->
  start p + Z.of_nat (nsec (length data)) <= capacity -> (∀ k, sector dev k = base k) ->
  ∃ p' d', fbt_receive ps priv dev = Some (RxOkay, p', d') /\ written d' data.
Proof.
  intros Hst Hf Hint Hp Hb H4 Hmag Hcap Hbase. pose proof Hf as [].
  destruct Hp as [buf len Hl Hm|buf ps future Hl Hp]; cbn [fbt_receive]; apply Forall_cons in Hb as [Hb Hbs].
  - rewrite length_take, Nat.min_l in * by lia. rewrite take_take, Nat.min_l in Hmag by lia.
    destruct (rx_plain_last buf len priv (start_plain buf priv) dev []) as (p' & d' & -> & Hw); try done; try lia.
    { eapply (handle_plain_start _ _ _ _ (Z.to_nat len)); try done; lia. }
    { by apply start_plain_plain. }
    { cbn [app]. by rewrite length_take, Nat.min_l by lia. }
    cbn [mbind option_bind]. eauto.
  - pose proof (pieces_len _ _ Hp Hbs) as Hfu.
    assert (length (take (Z.to_nat USB_MAX_TRANS_SIZE) buf) = Z.to_nat USB_MAX_TRANS_SIZE) as Hlt
      by (rewrite length_take; lia).
    rewrite take_app_le, take_take, Nat.min_l in Hmag by (rewrite ?Hlt; unfold USB_MAX_TRANS_SIZE; lia).
    rewrite length_app, Hlt in *.
    destruct (rx_plain_more buf priv (start_plain buf priv) dev [] (length future)) as (p' & d' & -> & HP');
      [|assumption..| | |].
    { eapply handle_plain_start; [assumption|exact Hf|done|done|by left|assumption..]. }
    { apply start_plain_plain; assumption. }
    { change (length []) with 0%nat. by rewrite Nat.add_0_l. }
    cbn [mbind option_bind]. rewrite app_nil_l in HP'. eapply receive_plain; [assumption| |exact Hp|exact Hbs|exact HP'|].
    + rewrite Hlt. assert (0 < USB_MAX_TRANS_SIZE) by done. lia.
    + rewrite length_app, Hlt. exact Hcap.
Qed.
End streaming.

(** ** Theorems *)

(** The bytes of a partition, as [rkimg_store_image] and [unsparse] compute them. *)
Definition section_bytes (p : disk_partition) : Z := u64 ((u64 (psize p * blksz p) ≫ 10) ≪ 10).

(** The image fits into the partition. *)
Definition fits_partition (p : disk_partition) (hb : list Z) (cs : list chunk) : Prop :=
  u64 (total_blks (sparse_header hb) * blk_sz (sparse_header hb)) <= section_bytes p /\
  512 * Z.of_nat (length (expand_all cs)) <= section_bytes p.

Section stored.
Context {M : Type} `{!MemFun M} `{!MemFunLaws M}.

Lemma load_header m src hb :
  length hb = 28%nat -> bytes_at m src hb ->
  load_n 28 m src = Some hb /\ load_n 4 m src = Some (take 4 hb) /\ le_value (take 4 hb) = magic (sparse_header hb).
Proof.
  intros Hl Hb. split_and!; [by rewrite <-Hl; apply load_n_spec| |done].
  replace 4%nat with (length (take 4 hb)) at 1 by (rewrite length_take; lia). apply load_n_spec.
  rewrite <-(take_drop 4 hb) in Hb. by apply bytes_at_app in Hb as [? _].
Qed.

Lemma store_sparse p hb body cs lock src size m (dev : M) :
  0 < start p -> sparse_image hb body cs -> fits_partition p hb cs ->
  start p + Z.of_nat (length (expand_all cs)) <= capacity ->
  bytes_at m src (hb ++ body) -> 0 <= src -> src + Z.of_nat (length (hb ++ body)) < 2 ^ 32 ->
  ∃ d', rkimg_store_image lock (Some p) (Some src) size m dev = Some (0, d') /\
    ∀ k, sector d' k = overlay (sector dev) (start p) (expand_all cs) k.
Proof.
  intros Hst [Hhl Hho Henc] [Hf1 Hf2] Hcap Hb Hs Hs'. apply bytes_at_app in Hb as [Hb1 Hb2]. rewrite Hhl in Hb2.
  rewrite length_app, Hhl in Hs'. pose proof Hho as []. unfold rkimg_store_image.
  destruct (load_header m src hb Hhl Hb1) as (H28 & H4 & Hmg).
  unfold unsparse. rewrite H4, H28. cbn [mbind option_bind]. rewrite Hmg, ho_magic0, Z.eqb_refl.
  rewrite ?ho_magic0, ho_major0, ho_file0, ho_chunk0, ?Z.eqb_refl. cbn [negb orb Z.eqb Pos.eqb]. fold (section_bytes p).
  destruct (Z.ltb_spec (section_bytes p) (u64 (total_blks (sparse_header hb) * blk_sz (sparse_header hb)))); [lia|].
  cbn [negb orb]. rewrite ho_count0, Nat2Z.id.
  destruct (unsparse_loop_spec p (sector dev) ltac:(lia) (sparse_header hb) cs body (src + 28) 0 (section_bytes p) m dev [])
    as (d' & He & Hd'); try done; try lia.
  { apply u64_range. }
  { intros k. by rewrite overlay_nil. }
  cbn [length] in He. rewrite Z.add_0_r in He. exists d'. by split.
Qed.


(** An image that is larger than its partition is refused when it is
    expanded from memory, but the download that writes while it receives has no
    such check: it reports success, and every sector of the image is on the
    medium, those past the end of the partition included. *)
Theorem sparse_download_past_end p hb body cs ps priv lock src size m (dev : M) i s :
  0 < start p -> sparse_image hb body cs ->
  section_bytes p < u64 (total_blks (sparse_header hb) * blk_sz (sparse_header hb)) ->
  start p + Z.of_nat (length (expand_all cs)) <= capacity ->
  fresh p priv (length (hb ++ body)) -> pieces ps (hb ++ body) -> bytes_at m src (hb ++ body) ->
  expand_all cs !! i = Some (Some s) ->
  rkimg_store_image lock (Some p) (Some src) size m dev = Some (1, dev) /\
  ∃ priv' d1, fbt_receive ps priv dev = Some (RxOkay, priv', d1) /\ sector d1 (start p + Z.of_nat i) = s.
Proof.
  intros Hst Hi Hf Hcap Hfr Hp Hb Hs. split.
  - destruct Hi as [Hhl Hho Henc]. apply bytes_at_app in Hb as [Hb1 Hb2]. pose proof Hho as []. unfold rkimg_store_image.
    destruct (load_header m src hb Hhl Hb1) as (H28 & H4 & Hmg).
    unfold unsparse. rewrite H4, H28. cbn [mbind option_bind]. rewrite Hmg, ho_magic0, Z.eqb_refl.
    rewrite ?ho_magic0, ?Z.eqb_refl. cbn [negb]. fold (section_bytes p).
    by destruct (Z.ltb_spec (section_bytes p) (u64 (total_blks (sparse_header hb) * blk_sz (sparse_header hb)))); [|lia].
  - destruct (sparse_download p (sector dev) ltac:(lia) cs hb body ps priv dev) as (priv' & d1 & H1 & E1); try done; [lia|].
    exists priv', d1. split; [done|]. rewrite E1. unfold overlay. destruct (Z.leb_spec (start p) (start p + Z.of_nat i)); [|lia].
    replace (Z.to_nat (start p + Z.of_nat i - start p)) with i by lia. by rewrite Hs.
Qed.

Lemma sectors_written p (dev d' : M) data :
  written p (sector dev) d' data ->
  ∃ pad, sectors (sector d') (start p) (nsec (length data)) = data ++ pad.
Proof.
  intros (pad & Hl & Hh). rewrite (sectors_ext _ _ _ _ (λ k _, Hh k)), sectors_overlay by done.
  pose proof (nsec_bound (length data)). rewrite take_app, take_ge by lia. eauto.
Qed.

(** C38. A kernel image that fastboot writes while it receives it is the image
    that the boot code loads: same size, same bytes, whatever the buffers. *)
Theorem kernel_download_load p img crc ps priv load m (dev : M) :
  let data := kernel_image img crc in
  0 < start p -> length crc = 4%nat -> Z.of_nat (length data) < 2 ^ 31 ->
  start p + Z.of_nat (image_blocks img) <= capacity ->
  fresh p priv (length data) -> pieces ps data -> big_buffers ps ->
  0 <= load -> load + 504 < 2 ^ 32 -> mapped m load (512 * Z.of_nat (image_blocks img) - 8) ->
  ∃ priv' d' m', fbt_receive ps priv dev = Some (RxOkay, priv', d') /\
    rkimg_load_image (start p) load d' m = Some (0, Some (Z.of_nat (length img)), m') /\
    bytes_at m' load img /\ same_outside m m' load (512 * Z.of_nat (image_blocks img) - 8).
Proof.
  intros data Hst Hcrc Hlen Hcap Hfr Hp Hbig Hl Hl' Hm.
  assert (length data = length img + 12)%nat as Hld by (subst data; unfold kernel_image; rewrite !length_app; cbn; lia).
  assert (nsec (length data) = image_blocks img) as Hn.
  { unfold nsec, image_blocks. rewrite Hld. do 3 f_equal. lia. }
  destruct (raw_download p (sector dev) ltac:(lia) ps data priv dev) as (priv' & d' & H1 & Hw); try done; try lia.
  destruct (sectors_written p dev d' data Hw) as (pad & Hsec). rewrite Hn in Hsec.
  unfold data, kernel_image in Hsec. rewrite <-!app_assoc in Hsec.
  destruct (rkimg_load_image_spec (start p) load img (crc ++ pad) m d') as (m' & H2 & Hb & Ho); try done; try lia.
  exists priv', d', m'. by split_and!.
Qed.
End stored.

(** ** Where the streaming download does not do what it means to *)

Section limits.
Context {M : Type} `{!MemFun M}.

(** A buffer that is neither full nor the last is counted as received, but
    its bytes are not used: the handler expects the caller to keep them and the
    caller does not. *)
Lemma fbt_rx_data_short_dropped buffer len priv (dev : M) q :
  pending_ptn priv = Some q -> start q <> 0 -> d_legacy priv = false -> d_status priv = 0 ->
  0 < len < transfer_buffer_size priv -> transfer_buffer_size priv < 2 ^ 31 ->
  0 <= d_bytes priv -> d_bytes priv + len < d_size priv -> d_size priv < 2 ^ 64 ->
  fbt_rx_data buffer len priv dev = Some (RxMore, set_transfer (d_size priv) (d_bytes priv + len) priv, dev).
Proof.
  intros Hp Hq Hleg Hst Hl Ht Hb Hs Hs'. unfold fbt_rx_data. rewrite (u64_small len) by lia.
  destruct (Z.ltb_spec (transfer_buffer_size priv) len); [lia|]. rewrite Hleg. unfold rkimage_handleDownload.
  rewrite Hp. destruct (Z.eqb_spec (start q) 0); [done|]. rewrite (u64_small (len + _)), (u64_small len) by lia.
  destruct (Z.ltb_spec (len + d_bytes priv) (d_size priv)), (Z.ltb_spec len (transfer_buffer_size priv)); try lia.
  cbn. rewrite u64_small, Hst by lia. by destruct (Z.ltb_spec (d_bytes priv + len) (d_size priv)); [|lia].
Qed.

(** A chunk of 2 GiB or more has a negative [int] size: the write is asked for
    a number of sectors near 2^32, and even when the driver accepts that the
    download is given up. *)
Lemma direct_negative buffer len priv (dev : M) :
  2 ^ 31 <= d_direct_size priv < 2 ^ 32 - 1024 -> 0 <= len ->
  let size := d_direct_size priv - 2 ^ 32 in
  let '(rc, d1) := StorageWriteLba (u64 (d_direct_offset priv + ptn_start priv)) buffer (Z.quot (size + 511) 512) 0 dev in
  (rkimg_handleDirectDownload buffer len priv dev).1.1 = (if negb (rc =? 0) then -1 else size) /\ size < 0 /\
  u32 (Z.quot (size + 511) 512) = 2 ^ 32 + Z.quot (size + 511) 512.
Proof.
  intros Hd Hl size. unfold rkimg_handleDirectDownload, DIV_ROUND_UP, RK_BLK_SIZE.
  assert (s32 (d_direct_size priv) = size) as ->.
  { unfold s32, swrap. change (2 ^ (32 - 1)) with (2 ^ 31). subst size.
    rewrite <-(Z.mod_unique (d_direct_size priv + 2 ^ 31) (2 ^ 32) 1 (d_direct_size priv - 2 ^ 31)); lia. }
  destruct (Z.leb_spec size len); [|lia].
  replace (size + 512 - 1) with (size + 511) by lia.
  assert (Z.quot (size + 511) 512 < 0 /\ - 2 ^ 23 <= Z.quot (size + 511) 512) as [Hq1 Hq2].
  { replace (size + 511) with (- (- size - 511)) by lia. rewrite Z.quot_opp_l by lia. rewrite Z.quot_div_nonneg by lia.
    split; [apply Z.opp_neg_pos, Z.div_str_pos; lia|].
    assert ((- size - 511) / 512 <= 2 ^ 23) by (apply Z.div_le_upper_bound; lia). lia. }
  destruct (Z.eqb_spec (Z.quot (size + 511) 512) 0); [lia|].
  destruct (StorageWriteLba _ _ _ _ _) as [rc d1]. destruct (rc =? 0); cbn; split_and!; try done; try lia.
  all: unfold u32, wrap; symmetry; apply Z.mod_unique with (-1); lia.
Qed.
End limits.

(** ** A medium in memory, and an image *)

Definition ram_pad (s : list Z) : list Z := take 512 (s ++ replicate 512 0).

#[export] Instance ram_fun : MemFun (Z -> list Z) := {|
  mf_ReadLba := Some (λ lba n d, (0, sectors (λ k, ram_pad (d k)) lba (Z.to_nat n)));
  mf_WriteLba := Some (λ lba buf n _ d, (0, overlay d lba (Some <$> chop (Z.to_nat n) buf)));
  mf_Erase := None
|}.

Lemma chop_all n buf s : (512 * n <= length buf)%nat -> s ∈ chop n buf -> length s = 512%nat.
Proof.
  revert buf. induction n as [|n IH]; intros buf Hl Hs; cbn in Hs; [by apply elem_of_nil in Hs|].
  apply elem_of_cons in Hs as [->|Hs]; [rewrite length_take; lia|]. eapply IH; [|done]. rewrite length_drop. lia.
Qed.

Lemma ram_pad_length s : length (ram_pad s) = 512%nat.
Proof. unfold ram_pad. rewrite length_take, length_app, length_replicate. lia. Qed.

#[export] Program Instance ram_laws : MemFunLaws (Z -> list Z) := {|
  sector := λ d k, ram_pad (d k);
  capacity := 65536
|}.
Next Obligation. done. Qed.
Next Obligation. intros. apply ram_pad_length. Qed.
Next Obligation.
  intros d lba n Hl Hc. unfold StorageReadLba. cbn. rewrite !u32_small by lia. by rewrite Nat2Z.id.
Qed.
Next Obligation.
  intros d lba buf n mode Hl Hc Hb. unfold StorageWriteLba. cbn. rewrite !u32_small, Nat2Z.id by lia.
  eexists. split; [done|]. intros k. unfold overlay. destruct (lba <=? k); [|done].
  rewrite list_lookup_fmap. destruct (chop n buf !! _) as [s|] eqn:E; [|done]. cbn.
  apply list_elem_of_lookup_2, chop_all in E; [|done]. unfold ram_pad. rewrite take_app_le, take_ge by lia. done.
Qed.

Definition ex_cache : list Z := replicate (Z.to_nat d_cache_size) 0.
Definition ex_ptn (size : Z) : disk_partition := Part 8 size 512 [] [] 0.
Definition ex_priv (size : nat) (sectors : Z) : fastboot :=
  Fastboot (Some (ex_ptn sectors)) USB_MAX_TRANS_SIZE false (Z.of_nat size) 0 0 0 0 ex_cache 0 false
    (SparseHeader 0 0 0 0 0 0 0 0 0) 0.

Lemma ex_fresh n k : Z.of_nat n < 2 ^ 32 -> fresh (ex_ptn k) (ex_priv n k) n.
Proof. 
  intros H. constructor; [done..| |done].
  change (d_cache (ex_priv n k)) with ex_cache. unfold ex_cache. rewrite length_replicate. by apply Z2Nat.id.
Qed.

(** Blocks of 512 bytes: one to write, two to skip. *)
Definition ex_hdr : list Z :=
  le_bytes4 SPARSE_HEADER_MAGIC ++ [1; 0; 0; 0; 28; 0; 12; 0] ++ le_bytes4 512 ++ le_bytes4 3 ++ le_bytes4 2 ++ le_bytes4 0.
Definition ex_block : list Z := replicate 512 7.
Definition ex_raw_hdr : list Z := [0xC1; 0xCA; 0; 0] ++ le_bytes4 1 ++ le_bytes4 524.
Definition ex_skip_hdr : list Z := [0xC3; 0xCA; 0; 0] ++ le_bytes4 2 ++ le_bytes4 12.
Definition ex_body : list Z := (ex_raw_hdr ++ ex_block) ++ ex_skip_hdr ++ [].
Definition ex_chunks : list chunk := [Raw ex_block; Skip 2].

Lemma ex_image : sparse_image ex_hdr ex_body ex_chunks.
Proof.
  constructor; [done|by constructor|].
  apply encoding_cons; [by apply encodes_raw with 1%nat|].
  apply encoding_cons; [by apply encodes_skip|constructor].
Qed.

Lemma ex_pieces : pieces [(ex_hdr ++ ex_body, 564)] (ex_hdr ++ ex_body).
Proof. apply (pieces_last (ex_hdr ++ ex_body) 564); vm_compute; intuition discriminate. Qed.


Lemma sparse_download_past_end_witness :
  rkimg_store_image false (Some (ex_ptn 0)) (Some 4096) 564 (mem_of 4096 (ex_hdr ++ ex_body)) (λ _, []) = Some (1, λ _, []) /\
  ∃ priv' d1, fbt_receive [(ex_hdr ++ ex_body, 564)] (ex_priv 564 0) (λ _, []) = Some (RxOkay, priv', d1) /\
    sector d1 8 = ex_block.
Proof.
  apply (sparse_download_past_end (ex_ptn 0) ex_hdr ex_body ex_chunks _ (ex_priv 564 0) _ _ _ _ _ 0).
  - done.
  - apply ex_image.
  - by vm_compute.
  - by vm_compute.
  - by apply ex_fresh.
  - apply ex_pieces.
  - apply load_n_bytes_at. by vm_compute.
  - by vm_compute.
Defined.

Definition ex_kernel : list Z := kernel_image [1; 2; 3] [0; 0; 0; 0].
Definition ex_buffer : list Z := ex_kernel ++ replicate (Z.to_nat USB_MAX_TRANS_SIZE) 0.

Lemma ex_kernel_pieces : pieces [(ex_buffer, 15)] ex_kernel.
Proof.
  replace ex_kernel with (take (Z.to_nat 15) ex_buffer) by (unfold ex_buffer; by rewrite take_app_le, take_ge by (cbn; lia)).
  apply pieces_last; [|done]. unfold ex_buffer. rewrite length_app. change (length ex_kernel) with 15%nat. lia.
Qed.

Lemma kernel_download_load_witness :
  ∃ priv' d' m', fbt_receive [(ex_buffer, 15)] (ex_priv 15 4) (λ _, []) = Some (RxOkay, priv', d') /\
    rkimg_load_image 8 4096 d' (mem_of 4096 (replicate 504 0)) = Some (0, Some 3, m') /\
    bytes_at m' 4096 [1; 2; 3] /\ same_outside (mem_of 4096 (replicate 504 0)) m' 4096 504.
Proof.
  apply (kernel_download_load (ex_ptn 4) [1; 2; 3] [0; 0; 0; 0] _ (ex_priv 15 4)); [done..| | | |done|done|].
  - by apply ex_fresh.
  - apply ex_kernel_pieces.
  - constructor; [|constructor]. unfold ex_buffer. rewrite length_app, length_replicate. lia.
  - apply (load_n_mapped _ _ 504 (replicate 504 0)). by vm_compute.
Defined.
