(* ===== verification/RkImage.v ===== *)
(** * Flashing by name, and the parameter block

    [rkimage_store_image] of [rkloader/rkimage.c] decides what becomes of a
    downloaded image.  The parameter block is built around its text in the
    transfer buffer and written eight times; [RkParam] reads it at the next
    start.  The theorems compose the two. *)

From S2P Require Import Prelude Mem Ctype Crc RkParam RkLoader Sparse.

Definition PARAMETER_HEAD_OFFSET : Z := 8.

(** The four bytes of [crc] behind the text. *)
Fixpoint put_crc (n : nat) (a crc : Z) (m : mem) : option mem :=
  match n with
  | O => Some m
  | S n => m ← store m a (crc .& 255); put_crc n (a + 1) (crc ≫ 8) m
  end.

(** [parameter] is the address of the buffer; the result is the length to write. *)
Definition rkimg_buildParameter (parameter len : Z) (m : mem) : option (Z * mem) :=
  t ← load_n (Z.to_nat len) m parameter;
  crc ← crc32_rk 0 t;
  m ← put_crc 4 (parameter + len) crc m;
  b ← load_n (Z.to_nat (len + 4)) m parameter;
  m ← store_n m (parameter + PARAMETER_HEAD_OFFSET) b;
  m ← store_n m parameter (le_bytes4 PARM_TAG);
  m ← store_n m (parameter + 4) (le_bytes4 (u32 len));
  Some (len + PARAMETER_HEAD_OFFSET, m).

Section store.
Context {M : Type} `{!MemFun M}.

(** The loop over the copies: whether one of the writes succeeded. *)
Fixpoint write_copies (n : nat) (i nsec : Z) (buf : list Z) (ret : Z) (dev : M) : Z * M :=
  match n with
  | O => (ret, dev)
  | S n =>
      let '(rc, dev) := StorageWriteLba (i * PARAMETER_OFFSET) buf nsec 0 dev in
      write_copies n (i + 1) nsec buf (if rc =? 0 then 0 else ret) dev
  end.

(** What the function calls outside of this file: the checks of signed images
    and the update of the loader, which also gets the downloaded bytes. *)
Record store_env := StoreEnv {
  SecureModeVerifyBootImage : mem -> Z -> bool;
  SecureModeVerifyUbootImage : mem -> Z -> bool;
  make_loader_data : mem -> Z -> option mem;
  rkidb_update_loader : mem -> M -> Z * mem * M;
  SecureBootLock : bool
}.

(** [transfer_buffer] is an address.  [None]: an access out of bounds, among them
    that of [pending_ptn->name] when there is no pending partition. *)
Definition rkimage_store_image (env : store_env) (name : list Z) (ptn : option disk_partition) (priv : fastboot)
    (transfer_buffer : Z) (m : mem) (dev : M) : option (Z * mem * M) :=
  if bool_decide (name = text "parameter") then
    '(len, m) ← rkimg_buildParameter transfer_buffer (s32 (d_bytes priv)) m;
    let nsec := DIV_ROUND_UP len RK_BLK_SIZE in
    buf ← load_n (Z.to_nat (512 * nsec)) m transfer_buffer;
    let '(ret, dev) := write_copies PARAMETER_NUM 0 nsec buf (-1) dev in
    Some (if ret =? 0 then 0 else -1, m, dev)
  else if bool_decide (name = text "loader") then
    match make_loader_data env m transfer_buffer with
    | None => Some (-1, m, dev)
    | Some m =>
        let '(rc, m, dev) := rkidb_update_loader env m dev in
        Some (if rc =? 0 then 0 else -1, m, dev)
    end
  else if negb (d_legacy priv) then
    match pending_ptn priv with
    | None => Some (-1, m, dev)
    | Some q =>
        pn ← array_str (pname q);
        Some (if bool_decide (pn = name) && (0 <? d_status priv) then 0 else -1, m, dev)
    end
  else
    q ← pending_ptn priv;
    pn ← array_str (pname q);
    let ok :=
      if bool_decide (pn = text "recovery") || bool_decide (pn = text "boot") then
        SecureModeVerifyBootImage env m transfer_buffer
      else if bool_decide (pn = text "uboot") then SecureModeVerifyUbootImage env m transfer_buffer
      else true in
    if negb ok then Some (-1, m, dev)
    else match ptn with
    | None => Some (-1, m, dev)
    | Some _ =>
        '(rc, dev) ← rkimg_store_image (SecureBootLock env) ptn (Some transfer_buffer) (d_bytes priv) m dev;
        Some (if rc =? 0 then 0 else -1, m, dev)
    end.
End store.

(** ** The block in memory *)

Lemma put_crc_store_n n a crc m l :
  l = (λ i, (crc ≫ (8 * Z.of_nat i)) .& 255) <$> seq 0 n -> put_crc n a crc m = store_n m a l.
Proof.
  revert a crc m l. induction n as [|n IH]; intros a crc m l ->; [done|]. cbn [put_crc seq fmap list_fmap store_n].
  rewrite Z.mul_0_r, Z.shiftr_0_r. destruct (store m a (crc .& 255)) as [m'|]; [|done]. cbn [mbind option_bind].
  rewrite (IH (a + 1) (crc ≫ 8) m' _ eq_refl). f_equal. rewrite <-fmap_S_seq, <-list_fmap_compose.
  apply list_fmap_ext. intros i x Hx. cbn. rewrite Z.shiftr_shiftr by lia. do 2 f_equal. lia.
Qed.

Lemma put_crc_bytes a crc m : put_crc 4 a crc m = store_n m a (le_bytes4 crc).
Proof.
  apply put_crc_store_n. unfold le_bytes4. cbn [fmap list_fmap seq].
  change 255 with (Z.ones 8). rewrite !Z.land_ones by lia. done.
Qed.

Lemma mapped_sub m a n b k : mapped m a n -> a <= b -> b + k <= a + n -> mapped m b k.
Proof. intros H ? ? c Hc. apply H. lia. Qed.

Lemma rkimg_buildParameter_spec a t m :
  Forall byte t -> t <> [] -> bytes_at m a t -> Z.of_nat (length t) < 2 ^ 31 -> mapped m a (Z.of_nat (length t) + 12) ->
  ∃ m', rkimg_buildParameter a (Z.of_nat (length t)) m = Some (Z.of_nat (length t) + 8, m') /\
    bytes_at m' a (block t) /\ same_outside m m' a (Z.of_nat (length t) + 12).
Proof.
  intros Hby Hne Hb Hl Hm. unfold rkimg_buildParameter, PARAMETER_HEAD_OFFSET. set (n := Z.of_nat (length t)) in *.
  assert (∀ v, length (le_bytes4 v) = 4%nat) as H4 by done.
  replace (Z.to_nat n) with (length t) by lia. rewrite load_n_spec by done. cbn [mbind option_bind].
  rewrite crc32_rk_spec by done. cbn [mbind option_bind]. set (crc := crc_msb 32 poly_rk 0 t). rewrite put_crc_bytes.
  destruct (store_n_spec m (a + n) (le_bytes4 crc)) as (m1 & -> & Hb1 & Ho1); [by eapply mapped_sub; [exact Hm|rewrite ?H4; lia..]|].
  rewrite H4 in Ho1. cbn [mbind option_bind].
  assert (bytes_at m1 a (t ++ le_bytes4 crc)) as Ht1.
  { apply bytes_at_app. split; [|done]. eapply bytes_at_outside; [exact Ho1|lia|done]. }
  assert (length (t ++ le_bytes4 crc) = length t + 4)%nat as Hlt by (rewrite length_app; done).
  replace (Z.to_nat (n + 4)) with (length (t ++ le_bytes4 crc)) by lia. rewrite load_n_spec by done. cbn [mbind option_bind].
  assert (mapped m1 a (n + 12)) as Hm1.
  { eapply same_outside_mapped; [exact Ho1| |exact Hm]. apply bytes_at_mapped in Hb1. by rewrite H4 in Hb1. }
  destruct (store_n_spec m1 (a + 8) (t ++ le_bytes4 crc)) as (m2 & -> & Hb2 & Ho2); [by eapply mapped_sub; [exact Hm1|lia..]|].
  cbn [mbind option_bind].
  assert (mapped m2 a 8) as Hm2. { intros b Hbb. rewrite Ho2 by lia. apply Hm1. lia. }
  destruct (store_n_spec m2 a (le_bytes4 PARM_TAG)) as (m3 & -> & Hb3 & Ho3); [by eapply mapped_sub; [exact Hm2|rewrite ?H4; lia..]|].
  cbn [mbind option_bind]. rewrite H4 in Ho3. rewrite u32_small by lia.
  destruct (store_n_spec m3 (a + 4) (le_bytes4 n)) as (m4 & -> & Hb4 & Ho4).
  { intros b Hbb. rewrite H4 in Hbb. rewrite Ho3 by lia. apply Hm2. lia. }
  cbn [mbind option_bind]. rewrite H4 in Ho4. exists m4. split; [done|]. split.
  - unfold block. apply bytes_at_app. split; [eapply bytes_at_outside; [exact Ho4|rewrite H4; lia|done]|].
    apply bytes_at_app. rewrite !H4. split; [exact Hb4|].
    replace (a + Z.of_nat 4 + Z.of_nat 4) with (a + 8) by lia.
    eapply bytes_at_outside; [exact Ho4|lia|]. eapply bytes_at_outside; [exact Ho3|lia|done].
  - intros b Hbb. rewrite Ho4, Ho3, Ho2, Ho1 by lia. done.
Qed.

(** ** Flashing the parameter block *)

Lemma bytes_at_prefix m a l1 l2 :
  bytes_at m a l1 -> bytes_at m a l2 -> (length l1 <= length l2)%nat -> l1 = take (length l1) l2.
Proof.
  intros H1 H2 Hl. apply list_eq. intros i. destruct (decide (i < length l1)%nat) as [Hi|Hi].
  - rewrite lookup_take_lt by done. rewrite <-H1, H2 by lia. done.
  - rewrite !lookup_ge_None_2; [done| |lia]. rewrite length_take. lia.
Qed.

Section parameter.
Context {M : Type} `{!MemFun M} `{!MemFunLaws M}.

Lemma write_copies_spec n i (k : nat) buf ret (dev : M) :
  (512 * k <= length buf)%nat -> Z.of_nat k <= 1024 -> 0 <= i ->
  (i + Z.of_nat n - 1) * 1024 + Z.of_nat k <= capacity ->
  ∃ d', write_copies n i (Z.of_nat k) buf ret dev = (if decide (n = 0%nat) then ret else 0, d') /\
    ∀ j, j < i * 1024 -> sector d' j = sector dev j.
Proof.
  intros Hb Hk. revert i ret dev. induction n as [|n IH]; intros i ret dev Hi Hc; cbn [write_copies].
  { exists dev. by split. }
  destruct (write_law dev (i * PARAMETER_OFFSET) buf k 0) as (d1 & -> & Hd1); unfold PARAMETER_OFFSET in *; [lia|lia|done|].
  rewrite Z.eqb_refl. destruct (IH (i + 1) 0 d1) as (d2 & -> & Hd2); [lia|lia|].
  exists d2. split; [by destruct n|]. intros j Hj. rewrite Hd2, Hd1 by lia. unfold overlay.
  by destruct (Z.leb_spec (i * 1024) j); [lia|].
Qed.

Lemma write_copies_S n i k buf ret (dev : M) :
  write_copies (S n) i k buf ret dev =
  let '(rc, dev) := StorageWriteLba (i * PARAMETER_OFFSET) buf k 0 dev in
  write_copies n (i + 1) k buf (if rc =? 0 then 0 else ret) dev.
Proof. done. Qed.

(** The sectors a text needs, as the length that is returned counts them: tag, length and text,
    but not the checksum. *)
Definition text_sectors (t : list Z) : nat := nsec (length t + 8).

(** What [rkimage_store_image] leaves on the medium for a text. *)
Lemma store_parameter env ptn priv tb t m (dev : M) :
  Forall byte t -> t <> [] -> bytes_at m tb t -> Z.of_nat (length t) <= MAX_LOADER_PARAM - 12 ->
  d_bytes priv = Z.of_nat (length t) -> mapped m tb (Z.of_nat (length t) + 524) ->
  (Z.of_nat PARAMETER_NUM - 1) * 1024 + 129 <= capacity ->
  ∃ m' d' b, rkimage_store_image env (text "parameter") ptn priv tb m dev = Some (0, m', d') /\
    length b = (512 * text_sectors t)%nat /\ (block t `prefix_of` b \/ b `prefix_of` block t) /\
    ∀ k, k < 1024 -> sector d' k = overlay (sector dev) 0 (Some <$> chop (text_sectors t) b) k.
Proof.
  intros Hby Hne Hb Hl Hd Hm Hcap. unfold rkimage_store_image, MAX_LOADER_PARAM in *.
  rewrite bool_decide_true, Hd, s32_small by (done || lia).
  destruct (rkimg_buildParameter_spec tb t m) as (m' & -> & Hb' & Ho); try done; [lia|by eapply mapped_sub; [exact Hm|lia..]|].
  cbn [mbind option_bind]. pose proof (nsec_bound (length t + 8)) as Hns. fold (text_sectors t) in Hns.
  set (k := text_sectors t) in *.
  assert (DIV_ROUND_UP (Z.of_nat (length t) + 8) RK_BLK_SIZE = Z.of_nat k) as ->.
  { unfold DIV_ROUND_UP, RK_BLK_SIZE. rewrite Z.quot_div_nonneg by lia. symmetry.
    apply Z.div_unique with (Z.of_nat (length t) + 8 + 511 - 512 * Z.of_nat k); lia. }
  assert (length (block t) = length t + 12)%nat as Hlb by (unfold block; rewrite !length_app; cbn [length le_bytes4]; lia).
  assert (mapped m' tb (512 * Z.of_nat k)) as Hm'.
  { intros c Hc. destruct (decide (c < tb + (Z.of_nat (length t) + 12))).
    - apply (bytes_at_mapped m' tb (block t) Hb'). lia.
    - rewrite Ho by lia. apply Hm. lia. }
  destruct (mapped_bytes m' tb (512 * k)) as (b & Hlen & Hbb); [by replace (Z.of_nat (512 * k)) with (512 * Z.of_nat k) by lia|].
  replace (Z.to_nat (512 * Z.of_nat k)) with (length b) by lia. rewrite load_n_spec by done. cbn [mbind option_bind].
  change (Z.of_nat PARAMETER_NUM) with 8 in Hcap. unfold PARAMETER_NUM. rewrite write_copies_S.
  destruct (write_law dev (0 * PARAMETER_OFFSET) b k 0) as (d1 & -> & Hd1); [lia|lia|lia|]. rewrite Z.eqb_refl.
  destruct (write_copies_spec 7 (0 + 1) k b 0 d1) as (d2 & -> & Hd2); [lia..|].
  exists m', d2, b. split_and!; [done|lia| |].
  - destruct (decide (length b <= length (block t))%nat).
    + right. rewrite (bytes_at_prefix m' tb b (block t)) by done. apply prefix_take.
    + left. rewrite (bytes_at_prefix m' tb (block t) b) by (done || lia). apply prefix_take.
  - intros j Hj. rewrite Hd2 by lia. apply Hd1.
Qed.

(** The driver's reads, as [RkParam] wants them. *)
Definition medium_read (d : M) (lba n : Z) : Z * list Z := StorageReadLba lba n d.

Lemma read_flashed (d d' : M) b (k : nat) :
  (∀ i, i < 1024 -> sector d' i = overlay (sector d) 0 (Some <$> chop k b) i) ->
  length b = (512 * k)%nat -> (k <= 128)%nat -> 128 <= capacity ->
  medium_read d' 0 128 = (0, b ++ sectors (sector d) (Z.of_nat k) (128 - k)).
Proof.
  intros Hd Hb Hk Hc. unfold medium_read. change 128 with (Z.of_nat 128). rewrite read_law by lia. f_equal.
  replace 128%nat with (k + (128 - k))%nat at 1 by lia. rewrite sectors_add. f_equal.
  - rewrite (sectors_ext _ (overlay (sector d) 0 (Some <$> chop k b))) by (intros i Hi; apply Hd; lia).
    rewrite sectors_overlay by lia. apply take_ge. lia.
  - apply sectors_ext. intros i Hi. rewrite Hd by lia. unfold overlay. destruct (Z.leb_spec 0 i); [|done].
    rewrite lookup_ge_None_2; [done|]. rewrite length_fmap, chop_length. lia.
Qed.


Lemma CheckParam_bad_crc t b4 rest :
  Forall byte t -> t <> [] -> Z.of_nat (length t) <= MAX_LOADER_PARAM - 12 -> length b4 = 4%nat ->
  le_value b4 <> crc_msb 32 poly_rk 0 t ->
  CheckParam (le_bytes4 PARM_TAG ++ le_bytes4 (Z.of_nat (length t)) ++ t ++ b4 ++ rest) = Some (-4).
Proof.
  intros Hb Hne Hl H4 Hcrc. unfold MAX_LOADER_PARAM in *. unfold CheckParam.
  set (buf := le_bytes4 PARM_TAG ++ _).
  assert (load32 buf = PARM_TAG) as -> by done.
  assert (param_length buf = Z.of_nat (length t)) as ->.
  { unfold param_length, load32, buf. rewrite (drop_app_length' (le_bytes4 PARM_TAG)) by done.
    rewrite take_app_length' by done. apply le_value_bytes. split; lia. }
  assert (param_text buf = t ++ b4 ++ rest) as -> by done.
  rewrite Z.eqb_refl. cbn [negb]. destruct (Z.ltb_spec (MAX_LOADER_PARAM - 12) (Z.of_nat (length t))); [unfold MAX_LOADER_PARAM in *; lia|].
  rewrite app_assoc, take_app_length' by (rewrite length_app; lia).
  unfold CRC_32CheckBuffer. rewrite length_app, H4.
  assert (0 < length t)%nat by (destruct t; [done|cbn; lia]).
  rewrite (proj2 (Nat.leb_gt _ 4)) by lia. replace (length t + 4 - 4)%nat with (length t) by lia.
  rewrite take_app_length, drop_app_length, crc32_rk_spec by done. cbn [mbind option_bind].
  by destruct (Z.eqb_spec (crc_msb 32 poly_rk 0 t) (le_value b4)); [congruence|].
Qed.

(** The length that [rkimg_buildParameter] returns leaves the checksum out,
    so that it is not written when tag, length and text fill their last sector:
    flashing reports success, and the next start finds the old bytes of the
    following sector in place of the checksum and refuses the block. *)
Theorem parameter_flash_truncated env ptn priv tb t m (dev : M) info :
  Forall byte t -> t <> [] -> Z.of_nat (length t) <= MAX_LOADER_PARAM - 12 ->
  (length t + 8 = 512 * text_sectors t)%nat ->
  bytes_at m tb t -> mapped m tb (Z.of_nat (length t) + 524) -> d_bytes priv = Z.of_nat (length t) ->
  (Z.of_nat PARAMETER_NUM - 1) * 1024 + 129 <= capacity ->
  le_value (take 4 (sector dev (Z.of_nat (text_sectors t)))) <> crc_msb 32 poly_rk 0 t ->
  ∃ m' d', rkimage_store_image env (text "parameter") ptn priv tb m dev = Some (0, m', d') /\
    load_disk_partitions (Some (medium_read d')) info = Some (-1, info).
Proof.
  intros Hby Hne Hl Hfull Hb Hm Hd Hcap Hold. pose proof Hl as Hl'. unfold MAX_LOADER_PARAM in Hl.
  destruct (store_parameter env ptn priv tb t m dev) as (m' & d' & b & E & Hlb & Hpre & Hsec); try done.
  exists m', d'. split; [done|].
  set (hdr := le_bytes4 PARM_TAG ++ le_bytes4 (Z.of_nat (length t)) ++ t).
  assert (b = hdr) as ->.
  { assert (length b = length hdr) as Hlh by (subst hdr; rewrite !length_app; cbn [length le_bytes4]; lia).
    assert (block t = hdr ++ le_bytes4 (crc_msb 32 poly_rk 0 t)) as Hbk by (unfold block, hdr; by rewrite <-!app_assoc).
    destruct Hpre as [[pad Hp]|[pad Hp]]; rewrite Hbk in Hp.
    - apply (f_equal length) in Hp. rewrite !length_app in Hp. cbn [length le_bytes4] in Hp. lia.
    - symmetry in Hp. by apply app_inj_1 in Hp as [? _]. }
  change (Z.of_nat PARAMETER_NUM) with 8 in Hcap. set (k := text_sectors t) in *.
  pose proof (read_flashed dev d' hdr k Hsec Hlb ltac:(lia) ltac:(lia)) as Hread.
  unfold load_disk_partitions, GetParam, RkParam.StorageReadLba, PARAMETER_NUM. cbn [mbind option_bind].
  change (u32 (0 + 0 * PARAMETER_OFFSET)) with 0. change (MAX_LOADER_PARAM ≫ 9) with 128. rewrite Hread. cbn [Z.eqb].
  replace (128 - k)%nat with (S (127 - k)) by lia. cbn [sectors].
  rewrite <-(take_drop 4 (sector dev (Z.of_nat k))). subst hdr. rewrite <-!app_assoc.
  rewrite CheckParam_bad_crc; [done..| |done]. by rewrite length_take, sector_length.
Qed.
End parameter.

(** ** Examples *)

Definition ex_env : @store_env (Z -> list Z) :=
  StoreEnv (λ _ _, true) (λ _ _, true) (λ _ _, None) (λ m d, (0, m, d)) false.

Definition ex_text_mem (t : list Z) : mem := mem_of 4096 (t ++ replicate 524 0).

Lemma ex_text_at t : bytes_at (ex_text_mem t) 4096 (t ++ replicate 524 0) -> bytes_at (ex_text_mem t) 4096 t.
Proof. intros H. by apply bytes_at_app in H as [? _]. Qed.

Lemma ex_text_mapped t : bytes_at (ex_text_mem t) 4096 (t ++ replicate 524 0) ->
  mapped (ex_text_mem t) 4096 (Z.of_nat (length t) + 524).
Proof.
  intros H. apply bytes_at_mapped in H. rewrite length_app, length_replicate in H.
  by rewrite Nat2Z.inj_add in H.
Qed.

Lemma ex_text_bytes t :
  load_n (length (t ++ replicate 524 0)) (ex_text_mem t) 4096 = Some (t ++ replicate 524 0) ->
  bytes_at (ex_text_mem t) 4096 (t ++ replicate 524 0).
Proof. apply load_n_bytes_at. Qed.

Definition ex_flash (t : list Z) : fastboot := set_transfer 0 (Z.of_nat (length t)) (ex_priv 0 4).


(** A text that fills its sector. *)
Definition ex_full : list Z := replicate 504 65.

Lemma parameter_flash_truncated_witness :
  ∃ m' d', rkimage_store_image ex_env (text "parameter") None (ex_flash ex_full) 4096 (ex_text_mem ex_full) (λ _, [])
      = Some (0, m', d') /\
    load_disk_partitions (Some (medium_read d')) (ex_info []) = Some (-1, ex_info []).
Proof.
  assert (bytes_at (ex_text_mem ex_full) 4096 (ex_full ++ replicate 524 0)) as Hb by (apply ex_text_bytes; by vm_compute).
  apply (parameter_flash_truncated ex_env None (ex_flash ex_full) 4096 ex_full).
  - by_decide.
  - discriminate.
  - by vm_compute.
  - by vm_compute.
  - by apply ex_text_at.
  - by apply ex_text_mapped.
  - done.
  - by vm_compute.
  - by vm_compute.
Defined.
