(* ===== verification/Rc4.v ===== *)
(** * RC4

    The stream cipher of [platform/rc4_enc.c] that hides the sectors of the ID
    block and of the loader.  The two routines differ in where the key comes
    from.  Applying one twice gives the bytes back; the state array stays a
    permutation of the bytes. *)

From S2P Require Import Prelude Crc.

(** [S[i] = (unsigned char)i] and [K[i] = key[j]] with [j &= 0x0f]. *)
Fixpoint rc4_fill (n : nat) (i j : Z) (key Sb K : list Z) : option (list Z * list Z) :=
  match n with
  | O => Some (Sb, K)
  | S n =>
      Sb ← aset Sb i (u8 i);
      let j := j .& 15 in
      k ← aget key j;
      K ← aset K i k;
      rc4_fill n (i + 1) (u16 (j + 1)) key Sb K
  end.

(** [temp = S[i]; S[i] = S[j]; S[j] = temp] *)
Definition swap_S (Sb : list Z) (i j : Z) : option (list Z) :=
  temp ← aget Sb i;
  sj ← aget Sb j;
  Sb ← aset Sb i sj;
  aset Sb j temp.

Fixpoint rc4_schedule (n : nat) (i j : Z) (Sb K : list Z) : option (list Z) :=
  match n with
  | O => Some Sb
  | S n =>
      si ← aget Sb i;
      k ← aget K i;
      let j := (j + si + k) mod 256 in
      Sb ← swap_S Sb i j;
      rc4_schedule n (i + 1) j Sb K
  end.

(** The loop over the bytes of [buf]; [n] of them are changed. *)
Fixpoint rc4_stream (n : nat) (i j : Z) (Sb buf : list Z) : option (list Z) :=
  match n, buf with
  | O, _ => Some buf
  | _, [] => None
  | S n, b :: buf =>
      let i := (i + 1) mod 256 in
      si ← aget Sb i;
      let j := (j + si) mod 256 in
      Sb ← swap_S Sb i j;
      si ← aget Sb i;
      sj ← aget Sb j;
      let t := (si + sj mod 256) mod 256 in
      st ← aget Sb t;
      buf ← rc4_stream n i j Sb buf;
      Some (b .^ st :: buf)
  end.

Definition rc4_key (key buf : list Z) (len : Z) : option (list Z) :=
  '(Sb, K) ← rc4_fill 256 0 0 key (replicate 256 0) (replicate 256 0);
  Sb ← rc4_schedule 256 0 0 Sb K;
  rc4_stream (Z.to_nat (u16 len)) 0 0 Sb buf.

Definition P_RC4_key : list Z := [124; 78; 3; 4; 85; 5; 9; 7; 45; 44; 123; 56; 23; 13; 23; 17].

Definition P_RC4 (buf : list Z) (len : Z) : option (list Z) := rc4_key P_RC4_key buf len.

(** The key is taken from the word behind the data. *)
Definition P_RC4_ext (buf : list Z) (len : Z) : option (list Z) :=
  let value := le_value (take 4 (drop (Z.to_nat (u16 len)) buf)) in
  if decide (Z.of_nat (length buf) < u16 len + 4) then None
  else rc4_key ((λ i, 255 .& (value ≫ (2 * Z.of_nat i))) <$> seq 0 16) buf len.

(** ** The state *)

(** 256 bytes, every one of them once. *)
Definition state_ok (Sb : list Z) : Prop := Sb ≡ₚ seqZ 0 256.

Lemma state_length Sb : state_ok Sb -> length Sb = 256%nat.
Proof. intros H. apply Permutation_length in H. by rewrite H, length_seqZ. Qed.

Lemma state_get Sb i : state_ok Sb -> 0 <= i < 256 -> ∃ v, aget Sb i = Some v /\ byte v.
Proof.
  intros H Hi. destruct (aget_is_Some Sb i) as [v Hv]; [rewrite state_length by done; lia|].
  exists v. split; [done|]. apply aget_Some in Hv as [_ Hv]. apply list_elem_of_lookup_2 in Hv.
  unfold state_ok in H. rewrite H in Hv. apply elem_of_seqZ in Hv. unfold byte. lia.
Qed.

Lemma swap_perm (Sb : list Z) (i j : nat) a b :
  Sb !! i = Some a -> Sb !! j = Some b -> <[j := a]> (<[i := b]> Sb) ≡ₚ Sb.
Proof.
  intros Hi Hj. destruct (decide (i = j)) as [->|Hne].
  { simplify_eq. rewrite list_insert_insert_eq. by rewrite list_insert_id. }
  apply Permutation_inj. split; [by rewrite !length_insert|].
  exists (λ k, if decide (k = i) then j else if decide (k = j) then i else k). split.
  - intros x y. repeat case_decide; lia.
  - intros k. repeat case_decide; subst.
    + rewrite list_lookup_insert_ne, list_lookup_insert_eq by (eauto using lookup_lt_Some || lia). done.
    + rewrite list_lookup_insert_eq by (rewrite length_insert; eauto using lookup_lt_Some). done.
    + by rewrite !list_lookup_insert_ne by lia.
Qed.

Lemma swap_S_ok Sb i j :
  state_ok Sb -> 0 <= i < 256 -> 0 <= j < 256 -> ∃ Sb', swap_S Sb i j = Some Sb' /\ state_ok Sb'.
Proof.
  intros H Hi Hj. unfold swap_S. pose proof (state_length _ H) as Hl.
  destruct (state_get Sb i H Hi) as (a & Ha & _), (state_get Sb j H Hj) as (b & Hb & _).
  rewrite Ha, Hb. cbn [mbind option_bind]. rewrite aset_Some by lia. cbn [mbind option_bind].
  rewrite aset_Some by (rewrite length_insert; lia). eexists. split; [done|].
  apply aget_Some in Ha as [_ Ha], Hb as [_ Hb]. unfold state_ok. by rewrite (swap_perm Sb _ _ a b).
Qed.

Lemma rc4_fill_ok n : forall i j key Sb K,
  length key = 16%nat -> Forall byte key -> length Sb = 256%nat -> length K = 256%nat -> Forall byte K -> 0 <= j ->
  0 <= i -> i + Z.of_nat n = 256 -> take (Z.to_nat i) Sb = seqZ 0 i ->
  ∃ Sb' K', rc4_fill n i j key Sb K = Some (Sb', K') /\ Sb' = seqZ 0 256 /\ length K' = 256%nat /\ Forall byte K'.
Proof.
  induction n as [|n IH]; intros i j key Sb K Hkey Hby HS HK HKb Hj Hi Hin Hpre; cbn [rc4_fill].
  - exists Sb, K. split; [done|]. split; [|done]. replace i with 256 in Hpre by lia.
    by rewrite take_ge in Hpre by lia.
  - rewrite aset_Some by lia. cbn [mbind option_bind].
    assert (0 <= j .& 15 < 16) as Hj'.
    { change 15 with (Z.ones 4). rewrite Z.land_ones by lia. apply Z.mod_pos_bound. lia. }
    destruct (aget_is_Some key (j .& 15)) as [k Hk]; [lia|]. rewrite Hk. cbn [mbind option_bind].
    rewrite aset_Some by lia. cbn [mbind option_bind].
    apply IH; rewrite ?length_insert; try done; try lia.
    + apply Forall_insert; [done|]. apply aget_Some in Hk as [_ Hk]. exact (Forall_lookup_1 _ _ _ _ Hby Hk).
    + rewrite u16_small by lia. lia.
    + replace (Z.to_nat (i + 1)) with (S (Z.to_nat i)) by lia.
      rewrite (take_S_r _ _ (u8 i)) by (apply list_lookup_insert_eq; lia).
      rewrite take_insert_ge, Hpre by lia. rewrite u8_small by lia. replace (i + 1) with (i + Z.of_nat 1) by lia.
      rewrite seqZ_app by lia. done.
Qed.

Lemma rc4_schedule_ok n : forall i j Sb K,
  state_ok Sb -> length K = 256%nat -> Forall byte K -> 0 <= i -> i + Z.of_nat n = 256 ->
  ∃ Sb', rc4_schedule n i j Sb K = Some Sb' /\ state_ok Sb'.
Proof.
  induction n as [|n IH]; intros i j Sb K HS HK HKb Hi Hin; cbn [rc4_schedule]; [eauto|].
  destruct (state_get Sb i HS) as (si & -> & Hsi); [lia|]. cbn [mbind option_bind].
  destruct (aget_is_Some K i) as [k ->]; [lia|]. cbn [mbind option_bind].
  destruct (swap_S_ok Sb i ((j + si + k) mod 256)) as (Sb' & -> & HS'); [done|lia|apply Z.mod_pos_bound; lia|].
  cbn [mbind option_bind]. apply IH; [done..|lia|lia].
Qed.

(** ** The stream *)

(** The bytes that the data is combined with. *)
Fixpoint keystream (n : nat) (i j : Z) (Sb : list Z) : list Z :=
  match n with
  | O => []
  | S n =>
      let i := (i + 1) mod 256 in
      match aget Sb i with
      | Some si =>
          let j := (j + si) mod 256 in
          match swap_S Sb i j with
          | Some Sb =>
              match aget Sb i, aget Sb j with
              | Some si, Some sj =>
                  match aget Sb ((si + sj mod 256) mod 256) with
                  | Some st => st :: keystream n i j Sb
                  | None => []
                  end
              | _, _ => []
              end
          | None => []
          end
      | None => []
      end
  end.

Lemma rc4_stream_keystream n : forall i j Sb buf,
  state_ok Sb -> (n <= length buf)%nat ->
  let ks := keystream n i j Sb in
  rc4_stream n i j Sb buf = Some (zip_with Z.lxor (take n buf) ks ++ drop n buf) /\ length ks = n /\ Forall byte ks.
Proof.
  induction n as [|n IH]; intros i j Sb buf HS Hl; cbn [rc4_stream keystream].
  { split; [done|]. by split. }
  destruct buf as [|b buf]; [cbn in Hl; lia|].
  assert (0 <= (i + 1) mod 256 < 256) as Hi by (apply Z.mod_pos_bound; lia).
  destruct (state_get Sb _ HS Hi) as (si & -> & _). cbn [mbind option_bind].
  assert (0 <= (j + si) mod 256 < 256) as Hj by (apply Z.mod_pos_bound; lia).
  destruct (swap_S_ok Sb _ _ HS Hi Hj) as (Sb' & -> & HS'). cbn [mbind option_bind].
  destruct (state_get Sb' _ HS' Hi) as (a & -> & _), (state_get Sb' _ HS' Hj) as (c & -> & _). cbn [mbind option_bind].
  destruct (state_get Sb' ((a + c mod 256) mod 256) HS') as (st & -> & Hst); [apply Z.mod_pos_bound; lia|]. cbn [mbind option_bind].
  destruct (IH ((i + 1) mod 256) ((j + si) mod 256) Sb' buf HS') as (-> & Hlen & Hby); [cbn in Hl; lia|].
  cbn [mbind option_bind take drop zip_with app length]. split; [done|]. split; [lia|by constructor].
Qed.

Lemma lxor_twice (l ks : list Z) : length l = length ks -> zip_with Z.lxor (zip_with Z.lxor l ks) ks = l.
Proof.
  revert ks. induction l as [|x l IH]; intros [|k ks] H; try done. cbn. rewrite IH by (cbn in H; lia).
  f_equal. by rewrite Z.lxor_assoc, Z.lxor_nilpotent, Z.lxor_0_r.
Qed.

(** The result is the data combined with a stream that depends on the key alone. *)
Lemma rc4_key_spec key : length key = 16%nat -> Forall byte key ->
  ∃ ks : nat -> list Z, (∀ n, length (ks n) = n /\ Forall byte (ks n)) /\
    ∀ buf len, 0 <= len <= Z.of_nat (length buf) -> len < 65536 ->
      let n := Z.to_nat len in
      rc4_key key buf len = Some (zip_with Z.lxor (take n buf) (ks n) ++ drop n buf).
Proof.
  intros Hk Hby. unfold rc4_key.
  destruct (rc4_fill_ok 256 0 0 key (replicate 256 0) (replicate 256 0)) as (Sb & K & HF & HS & HK & HKb); try done.
  { by apply Forall_replicate. }
  assert (state_ok Sb) as HSok by (subst Sb; unfold state_ok; reflexivity).
  destruct (rc4_schedule_ok 256 0 0 Sb K HSok HK HKb) as (S1 & HSch & HS1); [lia..|].
  exists (λ n, keystream n 0 0 S1). split.
  - intros n. destruct (rc4_stream_keystream n 0 0 S1 (replicate n 0) HS1) as (_ & H1 & H2); [rewrite length_replicate; lia|done].
  - intros buf len Hl Hl'. rewrite HF. cbn [mbind option_bind]. rewrite HSch. cbn [mbind option_bind].
    rewrite u16_small by lia. apply rc4_stream_keystream; [done|lia].
Qed.

Lemma rc4_key_twice key buf len :
  length key = 16%nat -> Forall byte key -> 0 <= len <= Z.of_nat (length buf) -> len < 65536 ->
  ∃ out, rc4_key key buf len = Some out /\ length out = length buf /\
    drop (Z.to_nat len) out = drop (Z.to_nat len) buf /\ rc4_key key out len = Some buf.
Proof.
  intros Hk Hby Hl Hl'. destruct (rc4_key_spec key Hk Hby) as (ks & Hks & H).
  set (n := Z.to_nat len). destruct (Hks n) as [Hn _].
  assert (length (zip_with Z.lxor (take n buf) (ks n)) = n) as Hz by (rewrite length_zip_with, length_take, Hn; lia).
  assert (length (zip_with Z.lxor (take n buf) (ks n) ++ drop n buf) = length buf) as Ho
    by (rewrite length_app, Hz, length_drop; lia).
  exists (zip_with Z.lxor (take n buf) (ks n) ++ drop n buf). split; [by apply H|]. split; [done|].
  split; [by rewrite drop_app_length'|]. rewrite H by (rewrite ?Ho; lia). fold n.
  rewrite take_app_length', drop_app_length' by done. rewrite lxor_twice by (rewrite length_take; lia).
  by rewrite take_drop.
Qed.

(** ** Encrypting and decrypting *)

(** Both routines are their own inverse: they run without leaving their
    arrays, change only the [len] bytes they are given, and a second call
    restores them.  The key of [P_RC4_ext] lies behind these bytes and is not
    changed by the call. *)
Theorem rc4_involutive buf len :
  0 <= len <= Z.of_nat (length buf) -> len < 65536 ->
  (∃ out, P_RC4 buf len = Some out /\ length out = length buf /\
     drop (Z.to_nat len) out = drop (Z.to_nat len) buf /\ P_RC4 out len = Some buf) /\
  (len + 4 <= Z.of_nat (length buf) ->
   ∃ out, P_RC4_ext buf len = Some out /\ length out = length buf /\
     drop (Z.to_nat len) out = drop (Z.to_nat len) buf /\ P_RC4_ext out len = Some buf).
Proof.
  intros Hl Hl'. split.
  - apply rc4_key_twice; [reflexivity|by repeat constructor|exact Hl|exact Hl'].
  - intros H4. unfold P_RC4_ext. rewrite u16_small by lia. rewrite decide_False by lia.
    set (key := _ <$> seq 0 16).
    destruct (rc4_key_twice key buf len) as (out & E1 & Ho & Hd & E2); [reflexivity| |exact Hl|exact Hl'|].
    { subst key. apply Forall_fmap, Forall_true. intros i. unfold byte. cbn.
      rewrite Z.land_comm. change 255 with (Z.ones 8). rewrite Z.land_ones by lia. apply Z.mod_pos_bound. lia. }
    exists out. split; [exact E1|]. split; [exact Ho|]. split; [exact Hd|].
    rewrite decide_False by lia. rewrite Hd. exact E2.
Qed.

Lemma rc4_involutive_witness :
  (∃ out, P_RC4 [1; 2; 3; 4; 5; 6] 2 = Some out /\ length out = 6%nat /\
     drop 2 out = [3; 4; 5; 6] /\ P_RC4 out 2 = Some [1; 2; 3; 4; 5; 6]) /\
  (2 + 4 <= 6 ->
   ∃ out, P_RC4_ext [1; 2; 3; 4; 5; 6] 2 = Some out /\ length out = 6%nat /\
     drop 2 out = [3; 4; 5; 6] /\ P_RC4_ext out 2 = Some [1; 2; 3; 4; 5; 6]).
Proof. exact (rc4_involutive [1; 2; 3; 4; 5; 6] 2 ltac:(cbn; lia) ltac:(lia)). Defined.

Lemma P_RC4_spec : ∃ ks, length ks = 512%nat /\ Forall byte ks /\
  ∀ buf, length buf = 512%nat -> P_RC4 buf 512 = Some (zip_with Z.lxor buf ks).
Proof.
  destruct (rc4_key_spec P_RC4_key) as (ks & Hks & H); [done|by repeat constructor|].
  exists (ks 512%nat). destruct (Hks 512%nat). split; [done|]. split; [done|].
  intros buf Hb. unfold P_RC4. rewrite H by lia. change (Z.to_nat 512) with 512%nat.
  by rewrite take_ge, drop_ge, app_nil_r by lia.
Qed.
