(* ===== verification/IdBlock.v ===== *)
(** * The ID block and the update of the loader

    [rkloader/idblock.c].  The boot ROM finds the first-stage loader in an ID
    block, of which the medium has up to five copies.  An update reads one of
    them, puts the new loader in, and rewrites the copies one after the other,
    checking each by reading it back.  The theorems say when the copies are
    found, that the update always ends, that a copy to start from survives every
    power failure and every failing write, and what the result means. *)

From S2P Require Import Prelude Mem Ctype Crc RkParam RkLoader Sparse Rc4.

Definition MAX_BLOCK_SEARCH : Z := 200.
Definition MAX_WRITE_SECTOR : Z := 20.
Definition IDB_TAG : Z := 0xfcdc8c3b.
Definition ERR_SUCCESS : Z := 0.
Definition SECTOR_OFFSET : Z := 528.

(** The medium by physical sectors of 528 bytes: 512 of data and 16 spare. *)
Class PbaFun (D : Type) := {
  mf_ReadPba : option (Z -> Z -> D -> Z * list Z);
  mf_WritePba : option (Z -> list Z -> Z -> D -> Z * D);
  mf_ErasePba : option (Z -> Z -> Z -> D -> Z * D)
}.

(** ** Finding the copies *)

(** The loop of [FindSerialBlocks]; the state is [iBegin], [iIndex], [iCount]. *)
Fixpoint serial_loop (fuel : nat) (state : list Z) (len iBegin iIndex iCount iLen : Z) : option (Z * Z) :=
  if len <=? iBegin then Some (iBegin, iIndex)
  else match fuel with
  | O => None
  | S fuel =>
      b ← aget state iBegin;
      let iBegin := iBegin + 1 in
      let '(iCount, iIndex) := if 0 =? b then (iCount + 1, iIndex) else (0, iBegin) in
      if iLen <=? iCount then Some (iBegin, iIndex) else serial_loop fuel state len iBegin iIndex iCount iLen
  end.

Definition FindSerialBlocks (NFBlockState : list Z) (iNFBlockLen iBegin iLen : Z) : option Z :=
  '(iBegin, iIndex) ← serial_loop (Z.to_nat iNFBlockLen) NFBlockState iNFBlockLen iBegin iBegin 0 iLen;
  Some (if iNFBlockLen <=? iBegin then -1 else iIndex).

(** [BuildFlashStateMap]: the map is cleared, and no block is tested. *)
Definition BuildFlashStateMap (BlockState : list Z) : list Z := replicate 200 0 ++ drop 200 BlockState.

Section idblock.
Context {D : Type} `{!PbaFun D}.

Definition StorageReadPba (PBA nSec : Z) (d : D) : Z * list Z :=
  match mf_ReadPba with
  | Some f => f (u32 PBA) (u32 nSec) d
  | None => (FTL_ERROR, [])
  end.

Definition StorageWritePba (PBA : Z) (pbuf : list Z) (nSec : Z) (d : D) : Z * D :=
  match mf_WritePba with
  | Some f => f (u32 PBA) pbuf (u32 nSec) d
  | None => (FTL_ERROR, d)
  end.

Definition EraseBlock (SecureBootLock : bool) (blkIndex nblk mod_ : Z) (d : D) : Z * D :=
  match mf_ErasePba with
  | Some f => if SecureBootLock then (FTL_OK, d) else f (u32 blkIndex) (u32 nblk) (u8 mod_) d
  | None => (FTL_OK, d)
  end.

(** The loop of [FindIDBlock] from block [i] on; the result and [*iPos]. *)
Fixpoint find_loop (fuel : nat) (state : list Z) (bsize i : Z) (d : D) : option (Z * Z) :=
  if (MAX_BLOCK_SEARCH <=? i) || (i <? 0) then Some (-1, 0)
  else match fuel with
  | O => None
  | S fuel =>
      let '(iRet, data) := StorageReadPba (i * bsize) 4 d in
      if (iRet =? ERR_SUCCESS) && (le_value (take 4 data) =? IDB_TAG) then Some (0, i)
      else i ← FindSerialBlocks state MAX_BLOCK_SEARCH (i + 1) 1; find_loop fuel state bsize i d
  end.

Definition FindIDBlock (state : list Z) (bsize iStart : Z) (d : D) : option (Z * Z) :=
  i ← FindSerialBlocks state MAX_BLOCK_SEARCH iStart 1;
  if i <? 0 then Some (-1, 0) else find_loop (Z.to_nat MAX_BLOCK_SEARCH) state bsize i d.

(** The loop of [FindAllIDB]: the addresses found; [g_IDBlockOffset] holds them
    first, and what [memset] with five bytes leaves behind them. *)
Fixpoint find_all (n : nat) (state : list Z) (bsize iStart : Z) (d : D) : option (list Z) :=
  match n with
  | O => Some []
  | S n =>
      '(iRet, iIndex) ← FindIDBlock state bsize iStart d;
      if iRet <? 0 then Some []
      else l ← find_all n state bsize (iIndex + 1) d; Some (u16 iIndex :: l)
  end.

Definition FindAllIDB (state : list Z) (bsize : Z) (d : D) : option (list Z) := find_all 5 state bsize 0 d.

(** ** Writing the copies *)

(** [memcmp] of the 512 data bytes of each sector. *)
Definition sector_data (buf : list Z) (i : nat) : list Z := take 512 (drop (528 * i) buf).
Definition same_data (n : nat) (a b : list Z) : bool :=
  forallb (λ i, bool_decide (sector_data a i = sector_data b i)) (seq 0 n).

(** The inner loop: whether all sectors were written and read back. *)
Fixpoint write_loop (fuel : nat) (addr iCount need : Z) (data : list Z) (d : D) : option (bool * D) :=
  if need <=? 0 then Some (true, d)
  else match fuel with
  | O => None
  | S fuel =>
      let n := if MAX_WRITE_SECTOR <? need then MAX_WRITE_SECTOR else need in
      let writeBuf := drop (Z.to_nat (iCount * MAX_WRITE_SECTOR * 528)) data in
      let pba := u32 (addr + iCount * MAX_WRITE_SECTOR) in
      let '(rc, d) := StorageWritePba pba writeBuf n d in
      if negb (rc =? ERR_SUCCESS) then Some (false, d)
      else
        let '(rc, readBuf) := StorageReadPba pba n d in
        if negb (rc =? ERR_SUCCESS) then Some (false, d)
        else if negb (same_data (Z.to_nat n) writeBuf readBuf) then Some (false, d)
        else write_loop fuel addr (iCount + 1) (need - n) data d
  end.

(** One attempt at one copy. *)
Definition write_one (lock : bool) (bsize blk : Z) (data : list Z) (uiIdSectorNum : Z) (d : D) : option (bool * D) :=
  let '(rc, d) := EraseBlock lock blk 1 1 d in
  if negb (rc =? ERR_SUCCESS) then Some (false, d)
  else write_loop (Z.to_nat uiIdSectorNum) (u32 (blk * bsize)) 0 uiIdSectorNum data d.

(** The outer loop.  After a failure [retry] is toggled, and [i] goes back only
    when it was clear. *)
Fixpoint copies_loop (fuel : nat) (lock : bool) (bsize : Z) (blks : list Z) (count i write_failed : Z) (retry : bool)
    (data : list Z) (uiIdSectorNum : Z) (d : D) : option (Z * Z * D) :=
  if (i <? count) && (1 <? count - write_failed) then
    match fuel with
    | O => None
    | S fuel =>
        blk ← aget blks i;
        '(ok, d) ← write_one lock bsize blk data uiIdSectorNum d;
        if ok : bool then copies_loop fuel lock bsize blks count (i + 1) write_failed retry data uiIdSectorNum d
        else
          let retry := negb retry in
          if retry then copies_loop fuel lock bsize blks count i write_failed retry data uiIdSectorNum d
          else copies_loop fuel lock bsize blks count (i + 1) (write_failed + 1) retry data uiIdSectorNum d
    end
  else Some (i, write_failed, d).

Definition WriteXIDBlock (lock : bool) (bsize : Z) (pSysBlockAddr : list Z) (iIDBCount : Z) (idBlockData : list Z)
    (uiIdSectorNum : Z) (d : D) : option (bool * D) :=
  '(i, _, d) ← copies_loop (2 * Z.to_nat iIDBCount) lock bsize pSysBlockAddr iIDBCount 0 0 false idBlockData uiIdSectorNum d;
  Some (i =? iIDBCount, d).
End idblock.

(** ** What a medium promises *)

Class PbaLaws (D : Type) `{!PbaFun D} (bsize : Z) := {
  contents : D -> Z -> list Z;
  erase_frame : ∀ lock blk d rc d' s, 0 <= blk -> (blk + 1) * bsize < 2 ^ 32 -> EraseBlock lock blk 1 1 d = (rc, d') ->
    s / bsize <> blk -> contents d' s = contents d s;
  write_frame : ∀ pba buf n d rc d' s, 0 <= pba -> 0 <= n -> pba + n < 2 ^ 32 -> StorageWritePba pba buf n d = (rc, d') ->
    ~ (pba <= s < pba + n) -> contents d' s = contents d s;
  read_data : ∀ pba n d buf (i : nat), 0 <= pba -> 0 <= n -> pba + n < 2 ^ 32 -> StorageReadPba pba n d = (ERR_SUCCESS, buf) ->
    Z.of_nat i < n -> sector_data buf i = take 512 (contents d (pba + Z.of_nat i))
}.

(** A medium that records, for every change, the state before it and the block
    that the change is in. *)
Record recorder (D : Type) (bsize : Z) := Rec { now : D; record : list (D * Z) }.
Arguments Rec {D bsize} _ _.
Arguments now {D bsize} _.
Arguments record {D bsize} _.

#[export] Instance recorder_fun (D : Type) `{!PbaFun D} (bsize : Z) : PbaFun (recorder D bsize) := {|
  mf_ReadPba :=
    match mf_ReadPba with Some f => Some (λ pba n r, f pba n (now r)) | None => None end;
  mf_WritePba :=
    match mf_WritePba with
    | Some f => Some (λ pba buf n r,
        let '(rc, d') := f pba buf n (now r) in (rc, Rec d' (record r ++ [(now r, pba / bsize)])))
    | None => None
    end;
  mf_ErasePba :=
    match mf_ErasePba with
    | Some f => Some (λ blk n m r, let '(rc, d') := f blk n m (now r) in (rc, Rec d' (record r ++ [(now r, blk)])))
    | None => None
    end
|}.

Section update.
Context {D : Type} `{!PbaFun D} {bsize : Z} `{!PbaLaws D bsize} (Hbs : 0 < bsize).

(** [t] is [s] except for the block [blk]. *)
Definition outside_block (blk : Z) (s t : D) : Prop := ∀ k, k / bsize <> blk -> contents t k = contents s k.

Lemma outside_refl blk s : outside_block blk s s.
Proof. done. Qed.

Lemma outside_trans blk a b c : outside_block blk a b -> outside_block blk b c -> outside_block blk a c.
Proof. intros H1 H2 k Hk. by rewrite H2, H1. Qed.

(** What a call appends to the record: changes of [blk], from states that differ
    from [d] in that block only. *)
Definition changes (blk : Z) (d : D) (l : list (D * Z)) : Prop :=
  Forall (λ e, e.2 = blk /\ outside_block blk d e.1) l.

(** The copy in [blk] is the new one, or the one of [d0]. *)
Definition holds_new (data : list Z) (num blk : Z) (d : D) : Prop :=
  ∀ i : nat, Z.of_nat i < num -> take 512 (contents d (blk * bsize + Z.of_nat i)) = sector_data data i.
Definition holds_old (d0 : D) (blk : Z) (d : D) : Prop := ∀ k, k / bsize = blk -> contents d k = contents d0 k.

Lemma sector_data_drop data n i : sector_data (drop (528 * n) data) i = sector_data data (n + i).
Proof. unfold sector_data. rewrite drop_drop. do 2 f_equal. lia. Qed.

Lemma same_data_spec n a b i : same_data n a b = true -> (i < n)%nat -> sector_data a i = sector_data b i.
Proof.
  unfold same_data. rewrite forallb_forall. intros H Hi.
  specialize (H i ltac:(apply in_seq; lia)). by apply bool_decide_eq_true in H.
Qed.

Lemma logged_write pba buf n d l :
  StorageWritePba pba buf n (Rec d l : recorder D bsize) =
  match @mf_WritePba D _ with
  | Some _ => let '(rc, d') := StorageWritePba pba buf n d in (rc, Rec d' (l ++ [(d, u32 pba / bsize)]))
  | None => (FTL_ERROR, Rec d l)
  end.
Proof. unfold StorageWritePba. cbn. destruct mf_WritePba as [f|]; [|done]. by destruct (f _ _ _ _). Qed.

Lemma logged_read pba n d l : StorageReadPba pba n (Rec d l : recorder D bsize) = StorageReadPba pba n d.
Proof. unfold StorageReadPba. cbn. by destruct mf_ReadPba. Qed.

(** One write on the recording medium. *)
Lemma logged_write_spec blk pba buf n d l :
  0 <= pba -> 0 <= n -> pba + n < 2 ^ 32 -> blk * bsize <= pba -> pba + n <= (blk + 1) * bsize -> 0 < n ->
  ∃ rc d' l', StorageWritePba pba buf n (Rec d l : recorder D bsize) = (rc, Rec d' (l ++ l')) /\ changes blk d l' /\ outside_block blk d d' /\
    (∀ k, ~ (pba <= k < pba + n) -> contents d' k = contents d k).
Proof.
  intros Hp Hn Hpn Hb Hb' Hn0. rewrite logged_write. destruct (StorageWritePba pba buf n d) as [rc d'] eqn:E.
  destruct (@mf_WritePba D _).
  - exists rc, d', [(d, u32 pba / bsize)]. split; [done|].
    assert (∀ k, ~ (pba <= k < pba + n) -> contents d' k = contents d k) as Hk by (intros k Hk; eapply write_frame; [exact Hp|exact Hn|exact Hpn|exact E|exact Hk]).
    split_and!; [|intros k Hkb; apply Hk|done].
    + constructor; [|constructor]. cbn. split; [|apply outside_refl]. rewrite u32_small by lia.
      symmetry. apply Z.div_unique with (pba - bsize * blk); lia.
    + intros Hr. apply Hkb. symmetry. apply Z.div_unique with (k - bsize * blk); lia.
  - exists FTL_ERROR, d, []. rewrite app_nil_r. split_and!; [done|constructor|apply outside_refl|done].
Qed.

Lemma changes_app blk d d' l1 l2 :
  changes blk d l1 -> outside_block blk d d' -> changes blk d' l2 -> changes blk d (l1 ++ l2).
Proof.
  intros H1 Ho H2. apply Forall_app. split; [done|]. eapply Forall_impl; [exact H2|].
  intros [s b] [Hb Hs]. split; [done|]. by eapply outside_trans.
Qed.

Lemma write_loop_spec fuel blk (c : nat) need num data d l :
  0 <= blk -> (blk + 1) * bsize < 2 ^ 32 -> num <= bsize -> 0 <= need -> num = 20 * Z.of_nat c + need ->
  (Z.to_nat need <= fuel)%nat ->
  (∀ i : nat, (i < 20 * c)%nat -> take 512 (contents d (blk * bsize + Z.of_nat i)) = sector_data data i) ->
  ∃ ok d' l', write_loop fuel (blk * bsize) (Z.of_nat c) need data (Rec d l : recorder D bsize) = Some (ok, Rec d' (l ++ l')) /\
    changes blk d l' /\ outside_block blk d d' /\ (ok = true -> holds_new data num blk d').
Proof.
  intros Hblk Hb32 Hnum. revert c need d l. induction fuel as [|fuel IH]; intros c need d l Hn Hnc Hf Hpre; cbn [write_loop].
  all: destruct (Z.leb_spec need 0) as [H0|H0].
  1,3: exists true, d, []; rewrite app_nil_r; split_and!; [done|constructor|apply outside_refl|]; intros _ i Hi; apply Hpre; lia.
  { lia. }
  unfold MAX_WRITE_SECTOR.
  assert ((if 20 <? need then 20 else need) = Z.min need 20) as -> by (destruct (Z.ltb_spec 20 need); lia).
  set (n := Z.min need 20). set (pba := blk * bsize + Z.of_nat c * 20).
  replace (Z.to_nat (Z.of_nat c * 20 * 528)) with (528 * (20 * c))%nat by lia. set (wbuf := drop (528 * (20 * c)) data).
  assert (0 <= pba /\ pba + n <= (blk + 1) * bsize) as [Hp0 Hp1] by (split; nia).
  rewrite (u32_small pba) by lia.
  destruct (logged_write_spec blk pba wbuf n d l) as (rc & d1 & l1 & -> & Hc1 & Ho1 & Hk1); [lia|lia|lia|lia|lia|lia|].
  destruct (rc =? ERR_SUCCESS); cbn [negb]; [|by exists false, d1, l1].
  rewrite logged_read. destruct (StorageReadPba pba n d1) as [rc2 rbuf] eqn:Er.
  destruct (Z.eqb_spec rc2 ERR_SUCCESS) as [->|]; cbn [negb]; [|by exists false, d1, l1].
  destruct (same_data (Z.to_nat n) wbuf rbuf) eqn:Hsd; cbn [negb]; [|by exists false, d1, l1].
  assert (∀ i : nat, Z.of_nat i < 20 * Z.of_nat c + n ->
    take 512 (contents d1 (blk * bsize + Z.of_nat i)) = sector_data data i) as Hnext.
  { intros i Hi. destruct (decide (i < 20 * c)%nat); [rewrite Hk1 by lia; by apply Hpre|].
    pose proof (same_data_spec _ _ _ (i - 20 * c) Hsd ltac:(lia)) as Hsec.
    unfold wbuf in Hsec. rewrite sector_data_drop in Hsec. replace (20 * c + (i - 20 * c))%nat with i in Hsec by lia.
    rewrite Hsec, (read_data pba n d1 rbuf (i - 20 * c)) by (done || lia). do 2 f_equal. lia. }
  destruct (decide (need <= 20)) as [Hlast|Hmore].
  - assert (need - n = 0) as -> by lia.
    exists true, d1, l1. split; [by destruct fuel|]. split_and!; [done..|]. intros _ i Hi. apply Hnext. lia.
  - replace (Z.of_nat c + 1) with (Z.of_nat (S c)) by lia.
    destruct (IH (S c) (need - n) d1 (l ++ l1)) as (ok & d2 & l2 & -> & Hc2 & Ho2 & Hnew); [lia..|intros i Hi; apply Hnext; lia|].
    exists ok, d2, (l1 ++ l2). rewrite app_assoc. split; [done|]. split; [by eapply changes_app|].
    split; [by eapply outside_trans|done].
Qed.

Lemma write_one_spec lock blk num data d l :
  0 <= blk -> (blk + 1) * bsize < 2 ^ 32 -> 0 <= num <= bsize ->
  ∃ ok d' l', write_one lock bsize blk data num (Rec d l : recorder D bsize) = Some (ok, Rec d' (l ++ l')) /\
    changes blk d l' /\ outside_block blk d d' /\ (ok = true -> holds_new data num blk d').
Proof.
  intros Hblk Hb32 Hnum. unfold write_one.
  assert (∃ rc d1 l1, EraseBlock lock blk 1 1 (Rec d l : recorder D bsize) = (rc, Rec d1 (l ++ l1)) /\
    changes blk d l1 /\ outside_block blk d d1) as (rc & d1 & l1 & -> & Hc1 & Ho1).
  { pose proof (erase_frame lock blk d) as Hfr. unfold EraseBlock in *. cbn.
    destruct (@mf_ErasePba D _) as [f|]; [destruct lock|].
    1,3: exists FTL_OK, d, []; rewrite app_nil_r; split_and!; [done|constructor|apply outside_refl].
    rewrite (u32_small blk) in * by nia. destruct (f blk (u32 1) (u8 1) d) as [rc d'] eqn:E.
    exists rc, d', [(d, blk)]. cbn [now record]. rewrite E. split; [done|]. split; [constructor; [split; [done|apply outside_refl]|constructor]|].
    intros k Hk. eapply Hfr; [lia|lia|reflexivity|exact Hk]. }
  destruct (rc =? ERR_SUCCESS); cbn [negb]; [|by exists false, d1, l1].
  rewrite (u32_small (blk * bsize)) by nia.
  destruct (write_loop_spec (Z.to_nat num) blk 0 num num data d1 (l ++ l1)) as (ok & d2 & l2 & E & Hc2 & Ho2 & Hnew); [lia..|].
  change (Z.of_nat 0) with 0 in E. rewrite E. exists ok, d2, (l1 ++ l2). rewrite app_assoc. split; [done|].
  split; [by eapply changes_app|]. split; [by eapply outside_trans|done].
Qed.

(** ** The copies *)

Lemma holds_new_outside data num blk blk' d d' :
  0 <= num <= bsize -> blk <> blk' -> outside_block blk' d d' -> holds_new data num blk d -> holds_new data num blk d'.
Proof.
  intros Hn Hne Ho H i Hi. rewrite Ho; [by apply H|]. intros Hdiv. apply Hne. rewrite <-Hdiv.
  apply Z.div_unique with (Z.of_nat i); lia.
Qed.

Lemma holds_old_outside d0 blk blk' d d' :
  blk <> blk' -> outside_block blk' d d' -> holds_old d0 blk d -> holds_old d0 blk d'.
Proof. intros Hne Ho H k Hk. rewrite Ho by congruence. by apply H. Qed.

(** An index below [i] that is not in a list of less than [i] indices. *)
Lemma pigeonhole (bad : list nat) (i : nat) :
  (length bad < i)%nat -> ∃ j, (j < i)%nat /\ j ∉ bad.
Proof.
  intros Hl. destruct (decide (Exists (λ j, j ∉ bad) (seq 0 i))) as [He|He].
  - apply Exists_exists in He as (j & Hj & Hn). apply elem_of_seq in Hj. exists j. split; [lia|done].
  - exfalso. apply not_Exists_Forall in He; [|apply _].
    assert (seq 0 i ⊆+ bad) as Hs.
    { apply NoDup_submseteq; [apply NoDup_seq|]. intros j Hj. rewrite Forall_forall in He.
      specialize (He j Hj). by apply dec_stable in He. }
    apply submseteq_length in Hs. rewrite length_seq in Hs. lia.
Qed.

Definition intact (d0 : D) (data : list Z) (num : Z) (blks : list Z) (d : D) : Prop :=
  ∃ blk, blk ∈ blks /\ (holds_new data num blk d \/ holds_old d0 blk d).

(** After the copies below [i]: those not in [bad] are new, those above [i] are
    as they were. *)
Record copied (d0 : D) (data : list Z) (num : Z) (blks : list Z) (bad : list nat) (i : nat) (d : D) : Prop := {
  cp_below : Forall (λ j, (j < i)%nat) bad;
  cp_nodup : NoDup bad;
  cp_new : ∀ j blk, (j < i)%nat -> j ∉ bad -> blks !! j = Some blk -> holds_new data num blk d;
  cp_old : ∀ j blk, (i < j)%nat -> blks !! j = Some blk -> holds_old d0 blk d
}.

(** With one copy being written and [bad] ones lost there is another copy, in
    any state that a failure during a change of that block can leave. *)
Lemma copied_intact d0 data num blks bad i d blk t :
  0 <= num <= bsize -> NoDup blks -> copied d0 data num blks bad i d -> blks !! i = Some blk ->
  (length bad + 1 < length blks)%nat -> outside_block blk d t -> intact d0 data num blks t.
Proof.
  intros Hn Hnd [] Hi Hb Ho. pose proof (lookup_lt_Some _ _ _ Hi) as Hlt.
  destruct (decide (S i < length blks)%nat) as [Hlast|Hlast].
  - destruct (lookup_lt_is_Some_2 blks (length blks - 1)) as [b Hbl]; [lia|].
    exists b. split; [by eapply list_elem_of_lookup_2|]. right.
    eapply holds_old_outside; [|exact Ho|eapply cp_old0; [|exact Hbl]; lia].
    intros ->. pose proof (NoDup_lookup _ _ _ _ Hnd Hi Hbl). lia.
  - destruct (pigeonhole bad i) as (j & Hj & Hjb); [lia|].
    destruct (lookup_lt_is_Some_2 blks j) as [b Hbl]; [lia|].
    exists b. split; [by eapply list_elem_of_lookup_2|]. left.
    eapply holds_new_outside; [done| |exact Ho|by eapply cp_new0].
    intros ->. pose proof (NoDup_lookup _ _ _ _ Hnd Hi Hbl). lia.
Qed.

(** Every state that a failure during a recorded change can leave has a copy to
    start from. *)
Definition survives (d0 : D) (data : list Z) (num : Z) (blks : list Z) (l : list (D * Z)) : Prop :=
  Forall (λ e, ∀ t, outside_block e.2 e.1 t -> intact d0 data num blks t) l.

Definition blocks_ok (blks : list Z) : Prop :=
  NoDup blks /\ Forall (λ blk, 0 <= blk /\ (blk + 1) * bsize < 2 ^ 32) blks.

Lemma copied_next_ok d0 data num blks bad i d d' blk :
  0 <= num <= bsize -> NoDup blks -> copied d0 data num blks bad i d -> blks !! i = Some blk -> outside_block blk d d' ->
  holds_new data num blk d' -> copied d0 data num blks bad (S i) d'.
Proof.
  intros Hn Hnd [] Hi Ho Hnew. constructor; [|done| |].
  - eapply Forall_impl; [exact cp_below0|]. cbn. lia.
  - intros j b Hj Hjb Hbl. destruct (decide (j = i)) as [->|Hne]; [by simplify_eq|].
    eapply holds_new_outside; [done| |exact Ho|eapply cp_new0; [|done|exact Hbl]; lia].
    intros ->. by pose proof (NoDup_lookup _ _ _ _ Hnd Hi Hbl).
  - intros j b Hj Hbl. eapply holds_old_outside; [|exact Ho|eapply cp_old0; [|exact Hbl]; lia].
    intros ->. pose proof (NoDup_lookup _ _ _ _ Hnd Hi Hbl). lia.
Qed.

Lemma copied_retry d0 data num blks bad i d d' blk :
  0 <= num <= bsize -> NoDup blks -> copied d0 data num blks bad i d -> blks !! i = Some blk -> outside_block blk d d' ->
  copied d0 data num blks bad i d'.
Proof.
  intros Hn Hnd [] Hi Ho. constructor; [done|done| |].
  - intros j b Hj Hjb Hbl. eapply holds_new_outside; [done| |exact Ho|by eapply cp_new0].
    intros ->. pose proof (NoDup_lookup _ _ _ _ Hnd Hi Hbl). lia.
  - intros j b Hj Hbl. eapply holds_old_outside; [|exact Ho|by eapply cp_old0].
    intros ->. pose proof (NoDup_lookup _ _ _ _ Hnd Hi Hbl). lia.
Qed.

Lemma copied_lost d0 data num blks bad i d :
  copied d0 data num blks bad i d -> copied d0 data num blks (i :: bad) (S i) d.
Proof.
  intros []. constructor.
  - constructor; [lia|]. eapply Forall_impl; [exact cp_below0|]. cbn. lia.
  - constructor; [|done]. intros Hi. rewrite Forall_forall in cp_below0. apply cp_below0 in Hi. lia.
  - intros j b Hj Hjb Hbl. apply not_elem_of_cons in Hjb as [Hne Hjb]. apply (cp_new0 j b); [lia|done..].
  - intros j b Hj Hbl. apply (cp_old0 j b); [lia|done].
Qed.

Lemma copied_bad_le d0 data num blks bad i d : copied d0 data num blks bad i d -> (length bad <= i)%nat.
Proof.
  intros []. rewrite <-(length_seq i 0). apply submseteq_length, NoDup_submseteq; [done|].
  intros j Hj. rewrite Forall_forall in cp_below0. apply cp_below0 in Hj. apply elem_of_seq. lia.
Qed.

(** How the loop ends: with a new copy when it got to the end, with an old one
    otherwise, and with a copy at every moment. *)
Definition ends (d0 : D) (data : list Z) (num : Z) (blks : list Z) (l : list (D * Z))
    (r : option (Z * Z * recorder D bsize)) : Prop :=
  ∃ i' wf d' l', r = Some (i', wf, Rec d' (l ++ l')) /\ survives d0 data num blks l' /\
    (i' = Z.of_nat (length blks) -> ∃ blk, blk ∈ blks /\ holds_new data num blk d') /\
    (i' <> Z.of_nat (length blks) -> ∃ blk, blk ∈ blks /\ holds_old d0 blk d').

Lemma ends_app d0 data num blks l l1 r :
  survives d0 data num blks l1 -> ends d0 data num blks (l ++ l1) r -> ends d0 data num blks l r.
Proof.
  intros Hs1 (i' & wf & d' & l' & E & Hs & Ht & He). exists i', wf, d', (l1 ++ l'). rewrite app_assoc.
  split; [done|]. split; [by apply Forall_app|done].
Qed.

Lemma ends_new d0 data num blks bad i d l wf :
  copied d0 data num blks bad i d -> i = length blks -> (length bad < length blks)%nat ->
  ends d0 data num blks l (Some (Z.of_nat i, wf, Rec d l)).
Proof.
  intros Hcp -> Hb. exists (Z.of_nat (length blks)), wf, d, []. rewrite app_nil_r. split_and!; [done|constructor| |lia].
  intros _. destruct (pigeonhole bad (length blks)) as (j & Hj & Hjb); [lia|].
  destruct (lookup_lt_is_Some_2 blks j) as [b Hbl]; [lia|].
  exists b. split; [by eapply list_elem_of_lookup_2|by eapply cp_new].
Qed.

Lemma ends_old d0 data num blks (i : nat) d l wf blk :
  blks !! i = Some blk -> holds_old d0 blk d -> ends d0 data num blks l (Some (Z.of_nat i, wf, Rec d l)).
Proof.
  intros Hi Hold. pose proof (lookup_lt_Some _ _ _ Hi). exists (Z.of_nat i), wf, d, []. rewrite app_nil_r.
  split_and!; [done|constructor|lia|]. intros _. exists blk. split; [by eapply list_elem_of_lookup_2|done].
Qed.

Lemma copied_old_next d0 data num blks bad i d d' blk :
  NoDup blks -> copied d0 data num blks bad i d -> blks !! i = Some blk -> outside_block blk d d' ->
  ∀ b, blks !! S i = Some b -> holds_old d0 b d'.
Proof.
  intros Hnd Hcp Hi Ho b Hbl. eapply holds_old_outside; [|exact Ho|eapply cp_old; [exact Hcp| |exact Hbl]; lia].
  intros ->. pose proof (NoDup_lookup _ _ _ _ Hnd Hi Hbl). lia.
Qed.

Lemma copies_loop_spec fuel lock blks bad (i : nat) retry d0 data num d l :
  0 <= num <= bsize -> blocks_ok blks -> copied d0 data num blks bad i d -> (i <= length blks)%nat ->
  (length bad < length blks)%nat -> ((length bad + 1 < length blks)%nat \/ retry = false) ->
  (retry = false -> ∀ blk, blks !! i = Some blk -> holds_old d0 blk d) ->
  (2 * (length blks - i) <= fuel + (if retry then 1 else 0))%nat ->
  ends d0 data num blks l
    (copies_loop fuel lock bsize blks (Z.of_nat (length blks)) (Z.of_nat i) (Z.of_nat (length bad)) retry data num (Rec d l)).
Proof.
  intros Hnum [Hnd Hok]. revert bad i retry d l.
  induction fuel as [|fuel IH]; intros bad i retry d l Hcp Hi Hb Hor Hold Hf; cbn [copies_loop].
  all: destruct (Z.ltb_spec (Z.of_nat i) (Z.of_nat (length blks))) as [Hlt|Hge];
    [destruct (Z.ltb_spec 1 (Z.of_nat (length blks) - Z.of_nat (length bad))) as [Hw|Hw]|]; cbn [andb].
  3,6: eapply ends_new; [exact Hcp|lia|done].
  2,4: destruct (lookup_lt_is_Some_2 blks i) as [b Hbl]; [lia|]; eapply ends_old; [exact Hbl|];
    apply Hold; [destruct Hor; [lia|done]|done].
  { destruct retry; lia. }
  destruct (lookup_lt_is_Some_2 blks i) as [blk Hblk]; [lia|]. rewrite aget_nat, Hblk. cbn [mbind option_bind].
  destruct (Forall_lookup_1 _ _ _ _ Hok Hblk) as [Hb0 Hb1].
  destruct (write_one_spec lock blk num data d l) as (ok & d1 & l1 & -> & Hc1 & Ho1 & Hnew); [done..|]. cbn [mbind option_bind].
  eapply (ends_app _ _ _ _ l l1).
  { eapply Forall_impl; [exact Hc1|]. intros [s b] [Hb' Hs] t Ht. cbn in *. subst b.
    eapply (copied_intact d0 data num blks bad i d blk t); try done; [lia|]. by eapply outside_trans. }
  pose proof (copied_old_next _ _ _ _ _ _ _ _ _ Hnd Hcp Hblk Ho1) as Hnext.
  destruct ok; [|destruct retry; cbn [negb]].
  - replace (Z.of_nat i + 1) with (Z.of_nat (S i)) by lia. apply IH; try done; try lia.
    eapply copied_next_ok; try done. by apply Hnew.
  - replace (Z.of_nat i + 1) with (Z.of_nat (S i)) by lia.
    replace (Z.of_nat (length bad) + 1) with (Z.of_nat (length (i :: bad))) by (cbn; lia).
    apply IH; try done; try (cbn; lia). by eapply copied_lost, copied_retry.
  - apply IH; try done; try lia. by eapply copied_retry.
Qed.

(** The recording medium behaves as the medium it records. *)

Lemma recorder_write_loop fuel addr c need data d l :
  write_loop fuel addr c need data d =
  ('(ok, r) ← write_loop fuel addr c need data (Rec d l : recorder D bsize); Some (ok, now r)).
Proof.
  revert c need d l. induction fuel as [|fuel IH]; intros c need d l; cbn [write_loop]; destruct (need <=? 0); try done.
  rewrite logged_write. unfold StorageWritePba. destruct (@mf_WritePba D _) as [f|]; [|done].
  destruct (f _ _ _ _) as [rc d1]. destruct (rc =? ERR_SUCCESS); [|done]. cbn [negb]. rewrite logged_read.
  destruct (StorageReadPba _ _ d1) as [rc2 rbuf]. destruct (rc2 =? ERR_SUCCESS); [|done]. cbn [negb].
  destruct (same_data _ _ _); [|done]. cbn [negb]. apply IH.
Qed.

Lemma recorder_write_one lock blk data num d l :
  write_one lock bsize blk data num d =
  ('(ok, r) ← write_one lock bsize blk data num (Rec d l : recorder D bsize); Some (ok, now r)).
Proof.
  unfold write_one, EraseBlock. cbn [mf_ErasePba recorder_fun]. destruct (@mf_ErasePba D _) as [f|]; [destruct lock|].
  2: cbn [now record]; destruct (f _ _ _ _) as [rc d1]; destruct (rc =? ERR_SUCCESS); [|done].
  all: apply recorder_write_loop.
Qed.

Lemma recorder_copies_loop fuel lock blks count i wf retry data num d l :
  copies_loop fuel lock bsize blks count i wf retry data num d =
  ('(i, wf, r) ← copies_loop fuel lock bsize blks count i wf retry data num (Rec d l : recorder D bsize); Some (i, wf, now r)).
Proof.
  revert i wf retry d l. induction fuel as [|fuel IH]; intros i wf retry d l; cbn [copies_loop]; destruct ((i <? count) && _); try done.
  destruct (aget blks i) as [blk|]; [|done]. cbn [mbind option_bind]. rewrite (recorder_write_one lock blk data num d l).
  destruct (write_one lock bsize blk data num (Rec d l)) as [[ok [d1 l1]]|]; [|done]. cbn [mbind option_bind now].
  destruct ok; [apply IH|]. destruct (negb retry); apply IH.
Qed.

Lemma recorder_WriteXIDBlock lock blks count data num d l :
  WriteXIDBlock lock bsize blks count data num d =
  ('(ok, r) ← WriteXIDBlock lock bsize blks count data num (Rec d l : recorder D bsize); Some (ok, now r)).
Proof.
  unfold WriteXIDBlock. rewrite (recorder_copies_loop _ _ _ _ _ _ _ _ _ d l).
  by destruct (copies_loop _ _ _ _ _ _ _ _ _ _ (Rec d l)) as [[[i wf] r]|].
Qed.

(** C29. Whatever fails, the rewriting of the ID blocks ends, and a copy to
    start from survives: a change of a block that is cut short in any way
    leaves another copy old or new ([l] records every change with the state
    before it).  The result says whether a new copy was
    written; when none was, an old one is left. *)
Theorem WriteXIDBlock_survives lock blks data num d :
  0 <= num <= bsize -> blocks_ok blks -> blks <> [] ->
  ∃ ok d' l, WriteXIDBlock lock bsize blks (Z.of_nat (length blks)) data num d = Some (ok, d') /\
    WriteXIDBlock lock bsize blks (Z.of_nat (length blks)) data num (Rec d [] : recorder D bsize) = Some (ok, Rec d' l) /\
    Forall (λ e, ∀ t, outside_block e.2 e.1 t -> intact d data num blks t) l /\
    (if ok : bool then ∃ blk, blk ∈ blks /\ holds_new data num blk d' else ∃ blk, blk ∈ blks /\ holds_old d blk d').
Proof.
  intros Hnum Hok Hne. assert (0 < length blks)%nat by (destruct blks; [done|cbn; lia]).
  destruct (copies_loop_spec (2 * Z.to_nat (Z.of_nat (length blks))) lock blks [] 0 false d data num d [])
    as (i & wf & d' & l & E & Hs & Ht & Hf); try done; try lia.
  { constructor; [constructor|constructor|lia|]. by intros. }
  rewrite (recorder_WriteXIDBlock _ _ _ _ _ d []).
  unfold WriteXIDBlock. cbn [length] in E. change (Z.of_nat 0) with 0 in E. rewrite E. cbn [mbind option_bind].
  exists (i =? Z.of_nat (length blks)), d', l. split; [done|]. split; [done|]. split; [exact Hs|].
  destruct (Z.eqb_spec i (Z.of_nat (length blks))); [by apply Ht|by apply Hf].
Qed.
End update.

(** ** Finding the copies on a cleared map *)

Section finding.
Context {D : Type} `{!PbaFun D}.

(** Block [i] can be read and begins with the tag. *)
Definition tagged (bsize : Z) (d : D) (i : Z) : bool :=
  let '(rc, data) := StorageReadPba (i * bsize) 4 d in (rc =? ERR_SUCCESS) && (le_value (take 4 data) =? IDB_TAG).

Definition cleared : list Z := replicate 200 0.

Lemma FindSerialBlocks_cleared i :
  0 <= i -> FindSerialBlocks cleared MAX_BLOCK_SEARCH i 1 = Some (if i <? 199 then i else -1).
Proof.
  intros Hi. unfold FindSerialBlocks, MAX_BLOCK_SEARCH. change (Z.to_nat 200) with 200%nat. cbn [serial_loop].
  destruct (Z.leb_spec 200 i).
  { cbn [mbind option_bind]. destruct (Z.leb_spec 200 i), (Z.ltb_spec i 199); [lia|done|lia..]. }
  assert (aget cleared i = Some 0) as ->.
  { unfold aget, cleared. rewrite decide_True by lia. apply lookup_replicate_2. lia. }
  cbn [mbind option_bind Z.eqb Z.add Z.leb Z.compare]. change (1 <=? 0 + 1) with true. cbn [mbind option_bind].
  by destruct (Z.leb_spec 200 (i + 1)), (Z.ltb_spec i 199); try lia.
Qed.

Lemma seqZ_cons_ge m n : 0 < n -> seqZ m n = m :: seqZ (m + 1) (n - 1).
Proof. intros H. rewrite seqZ_cons by lia. do 2 f_equal; lia. Qed.

Lemma find_id_spec bsize d fuel i :
  0 <= i < 199 -> (Z.to_nat (199 - i) <= fuel)%nat ->
  find_loop fuel cleared bsize i d =
  Some (match filter (λ k, tagged bsize d k = true) (seqZ i (199 - i)) with [] => (-1, 0) | k :: _ => (0, k) end).
Proof.
  revert i. induction fuel as [|fuel IH]; intros i Hi Hf; [lia|]. cbn [find_loop]. unfold MAX_BLOCK_SEARCH at 1.
  destruct (Z.leb_spec 200 i), (Z.ltb_spec i 0); try lia. cbn [orb].
  rewrite seqZ_cons_ge by lia. destruct (StorageReadPba (i * bsize) 4 d) as [rc data] eqn:Er.
  destruct ((rc =? ERR_SUCCESS) && _) eqn:Et;
    (assert (tagged bsize d i = (rc =? ERR_SUCCESS) && (le_value (take 4 data) =? IDB_TAG)) as Ht by (unfold tagged; by rewrite Er));
    rewrite Et in Ht.
  { by rewrite filter_cons_True. }
  rewrite filter_cons_False by congruence. rewrite FindSerialBlocks_cleared by lia. cbn [mbind option_bind].
  destruct (Z.ltb_spec (i + 1) 199).
  - rewrite IH by lia. replace (199 - i - 1) with (199 - (i + 1)) by lia. done.
  - replace (199 - i - 1) with 0 by lia. cbn. by destruct fuel.
Qed.

(** Continuing behind the block that was found. *)
Lemma filter_next (P : Z -> Prop) `{!∀ k, Decision (P k)} i n k l :
  filter P (seqZ i n) = k :: l -> l = filter P (seqZ (k + 1) (i + n - (k + 1))) /\ i <= k < i + n.
Proof.
  remember (Z.to_nat n) as m eqn:Hm. revert i n Hm. induction m as [|m IH]; intros i n Hm HF.
  { by rewrite seqZ_nil in HF by lia. }
  rewrite seqZ_cons_ge, filter_cons in HF by lia. destruct (decide (P i)).
  - injection HF as <- <-. split; [do 2 f_equal; lia|lia].
  - apply IH in HF as [-> ?]; [|lia]. split; [do 2 f_equal; lia|lia].
Qed.

Lemma find_all_spec n bsize d i :
  0 <= i -> find_all n cleared bsize i d = Some (take n (filter (λ k, tagged bsize d k = true) (seqZ i (199 - i)))).
Proof.
  revert i. induction n as [|n IH]; intros i Hi; cbn [find_all take]; [done|]. unfold FindIDBlock.
  rewrite FindSerialBlocks_cleared by done. cbn [mbind option_bind]. destruct (Z.ltb_spec i 199).
  - destruct (Z.ltb_spec i 0); [lia|]. rewrite find_id_spec by (unfold MAX_BLOCK_SEARCH; lia). cbn [mbind option_bind].
    destruct (filter _ (seqZ i (199 - i))) as [|k l] eqn:E; [done|]. apply filter_next in E as [-> Hk]. cbn [Z.ltb Z.compare].
    rewrite IH by lia. cbn [mbind option_bind]. rewrite u16_small by lia.
    by replace (i + (199 - i) - (k + 1)) with (199 - (k + 1)) by lia.
  - cbn. by rewrite seqZ_nil by lia.
Qed.

(** The search finds the first five tagged blocks among the first 199, in
    order; block 199 is within the searched range but never looked at. *)
Lemma FindAllIDB_spec bsize d :
  FindAllIDB cleared bsize d = Some (take 5 (filter (λ k, tagged bsize d k = true) (seqZ 0 199))).
Proof. unfold FindAllIDB. rewrite find_all_spec by lia. done. Qed.
End finding.

(** ** A medium in memory *)

Definition flash_pad (s : list Z) : list Z := take 528 (s ++ replicate 528 255).

Definition flash_bsize : Z := 8.

#[export] Instance flash_fun : PbaFun (Z -> list Z) := {|
  mf_ReadPba := Some (λ pba n d, (0, concat ((λ i, flash_pad (d (pba + i))) <$> seqZ 0 n)));
  mf_WritePba := Some (λ pba buf n d,
    (0, λ s, if (pba <=? s) && (s <? pba + n) then take 528 (drop (528 * Z.to_nat (s - pba)) buf) else d s));
  mf_ErasePba := Some (λ blk _ _ d, (0, λ s, if s / flash_bsize =? blk then [] else d s))
|}.

Lemma flash_pad_length s : length (flash_pad s) = 528%nat.
Proof. unfold flash_pad. rewrite length_take, length_app, length_replicate. lia. Qed.

Lemma concat_sector (l : list (list Z)) i s :
  Forall (λ x, length x = 528%nat) l -> l !! i = Some s -> take 528 (drop (528 * i) (concat l)) = s.
Proof.
  intros Hl. revert i. induction Hl as [|x l Hx Hl IH]; intros i Hi; [done|]. cbn [concat]. destruct i as [|i].
  - injection Hi as ->. rewrite Nat.mul_0_r, drop_0, take_app_length' by done. done.
  - replace (528 * S i)%nat with (528 + 528 * i)%nat by lia. rewrite <-drop_drop, (drop_app_length' x) by done.
    apply (IH i). exact Hi.
Qed.

#[export] Program Instance flash_laws : PbaLaws (Z -> list Z) flash_bsize := {|
  contents := λ d s, flash_pad (d s)
|}.
Next Obligation.
  intros lock blk d rc d' s Hb Hb' E Hs. unfold EraseBlock in E. cbn in E. rewrite u32_small in E by (unfold flash_bsize in *; lia).
  destruct lock; injection E as _ <-; [done|]. by rewrite (proj2 (Z.eqb_neq _ _)).
Qed.
Next Obligation.
  intros pba buf n d rc d' s Hp Hn Hpn E Hs. unfold StorageWritePba in E. cbn in E. rewrite !u32_small in E by lia.
  injection E as _ <-. destruct (Z.leb_spec pba s), (Z.ltb_spec s (pba + n)); try done. lia.
Qed.
Next Obligation.
  intros pba n d buf i Hp Hn Hpn E Hi. unfold StorageReadPba in E. cbn in E. rewrite !u32_small in E by lia.
  injection E as <-. unfold sector_data.
  rewrite <-(concat_sector ((λ i, flash_pad (d (pba + i))) <$> seqZ 0 n) i (flash_pad (d (pba + Z.of_nat i)))).
  - by rewrite take_take.
  - apply Forall_fmap, Forall_true. intros k. apply flash_pad_length.
  - rewrite list_lookup_fmap, lookup_seqZ_lt by lia. cbn. do 3 f_equal.
Qed.

Definition ex_idb : list Z := concat (replicate 4 (replicate 528 9)).

Lemma WriteXIDBlock_survives_witness :
  ∃ ok d' l, WriteXIDBlock false flash_bsize [2; 5] 2 ex_idb 4 (λ _, []) = Some (ok, d') /\
    WriteXIDBlock false flash_bsize [2; 5] 2 ex_idb 4 (Rec (λ _, []) [] : recorder (Z -> list Z) flash_bsize) = Some (ok, Rec d' l) /\
    Forall (λ e, ∀ t, outside_block (bsize := flash_bsize) e.2 e.1 t -> intact (bsize := flash_bsize) (λ _, []) ex_idb 4 [2; 5] t) l /\
    (if ok : bool then ∃ blk, blk ∈ [2; 5] /\ holds_new (bsize := flash_bsize) ex_idb 4 blk d'
     else ∃ blk, blk ∈ [2; 5] /\ holds_old (bsize := flash_bsize) (λ _, []) blk d').
Proof.
  apply (WriteXIDBlock_survives (bsize := flash_bsize) ltac:(done) false [2; 5] ex_idb 4 (λ _, [])).
  - unfold flash_bsize. lia.
  - split; [apply (bool_decide_unpack _); by vm_compute|]. repeat constructor; unfold flash_bsize; lia.
  - discriminate.
Defined.
