(* ===== verification/IdbUpdate.v ===== *)
(** * Generating the ID block, and the update as a whole

    The rest of [rkloader/idblock.c]: the loader taken from the [misc] partition,
    the new ID block built from the old one and the loader, the update that
    composes these with [IdBlock], and the data that the running loader reads
    from its ID block.  Memory is [Mem]'s, with the buffers at addresses. *)

From S2P Require Import Prelude Mem Ctype Cstring Crc RkParam RkLoader Sparse Rc4 IdBlock.

Definition HEADINFO_SIZE : Z := 512.
Definition BOOTSIGN : list Z := text "RK28@Copyright2008Rockchip".
Definition SN_MAX_SIZE : Z := 30.

Definition CALC_UNIT (a b : Z) : Z := if 0 <? a then (a - 1) / b + 1 else a.
Definition BYTE2SECTOR (x : Z) : Z := CALC_UNIT x 512.
Definition PAGEALIGN (x : Z) : Z := CALC_UNIT x 4.
Definition INT2BCD (num : Z) : Z :=
  (num mod 10) .| (((num / 10) mod 10) ≪ 4) .| (((num / 100) mod 10) ≪ 8) .| (((num / 1000) mod 10) ≪ 12).
Definition BCD2INT (num : Z) : Z := ((num ≫ 4) .& 15) * 10 + (num .& 15).

(** ** Memory accesses *)

(** An unsigned field of [n] bytes. *)
Definition field (n : nat) (m : mem) (a : Z) : option Z := b ← load_n n m a; Some (le_value b).
Definition put16 (m : mem) (a v : Z) : option mem := store_n m a [v mod 256; (v ≫ 8) mod 256].
Definition put32 (m : mem) (a v : Z) : option mem := store_n m a (le_bytes4 v).
Definition fill (m : mem) (a : Z) (n : nat) : option mem := store_n m a (replicate n 0).
Definition copy (m : mem) (dst src : Z) (n : nat) : option mem := b ← load_n n m src; store_n m dst b.

(** [P_RC4] on a sector in memory. *)
Definition rc4_at (m : mem) (a : Z) : option mem := b ← load_n 512 m a; b ← P_RC4 b 512; store_n m a b.

(** The sectors 0, 2 and 3 of the ID block, encrypted or decrypted. *)
Definition rc4_sectors (m : mem) (idb : Z) : option mem :=
  m ← rc4_at m idb;
  m ← rc4_at m (idb + 2 * SECTOR_OFFSET);
  rc4_at m (idb + 3 * SECTOR_OFFSET).

(** The loop that moves [n] sectors of the loader from [src] to the sectors of
    the ID block from [first] on; with [rc4] they are decrypted in place first. *)
Fixpoint put_loader (n : nat) (i first : Z) (rc4 : bool) (src idb : Z) (m : mem) : option mem :=
  match n with
  | O => Some m
  | S n =>
      m ← (if rc4 then rc4_at m (src + i * 512) else Some m);
      m ← copy m (idb + SECTOR_OFFSET * (first + i)) (src + i * 512) 512;
      put_loader n (i + 1) first rc4 src idb m
  end.

(** ** The header of a loader

    The offsets of [RK28BOOT_HEAD], a packed structure. *)

Record boot_head := BootHead {
  tm_year : Z; tm_month : Z; tm_date : Z;
  uiMajorVersion : Z; uiMinorVersion : Z;
  uiUsbDataLen : Z; uiUsbBootLen : Z;
  uiFlashDataOffset : Z; uiFlashDataLen : Z;
  uiFlashBootOffset : Z; uiFlashBootLen : Z;
  ucRc4Flag : Z
}.

Definition boot_head_at (m : mem) (a : Z) : option boot_head :=
  y ← field 2 m (a + 48); mo ← field 2 m (a + 50); da ← field 2 m (a + 52);
  ma ← field 4 m (a + 60); mi ← field 4 m (a + 64);
  udl ← field 4 m (a + 72); ubl ← field 4 m (a + 80);
  fdo ← field 4 m (a + 84); fdl ← field 4 m (a + 88);
  fbo ← field 4 m (a + 92); fbl ← field 4 m (a + 96);
  rc4 ← field 1 m (a + 100);
  Some (BootHead y mo da ma mi udl ubl fdo fdl fbo fbl rc4).

(** The string at [a], at most [n] bytes. *)
Definition string_at (m : mem) (a : Z) (n : nat) : option (list Z) := b ← load_n n m a; array_str b.

Section update.
Context {D : Type} `{!PbaFun D} `{!MemFun D}.

(** The new ID block in memory at [idb], and its number of sectors.  [None] in
    the result is [FALSE]; [RK_FLASH_BOOT_EN] is not defined. *)
Definition GenericIDBData (bsize off0 idb loader : Z) (m : mem) (d : D) : option (option (Z * mem)) :=
  m ← fill m idb (4 * 528);
  let '(iRet, data) := StorageReadPba (u32 (off0 * bsize)) 4 d in
  if negb (iRet =? ERR_SUCCESS) then Some None
  else
    m ← store_n m idb (take (4 * 528) data);
    m ← rc4_sectors m idb;
    m ← fill m (idb + SECTOR_OFFSET * 2) 528;
    hdr ← boot_head_at m loader;
    m ← put32 m (idb + 8) (ucRc4Flag hdr);
    let fds := u16 (PAGEALIGN (BYTE2SECTOR (uiFlashDataLen hdr)) * 4) in
    let fbs := u16 (PAGEALIGN (BYTE2SECTOR (uiFlashBootLen hdr)) * 4) in
    m ← put16 m (idb + 506) fds;
    m ← put16 m (idb + 508) fbs;
    let rc4 := negb (ucRc4Flag hdr =? 0) in
    m ← put_loader (Z.to_nat fbs) 0 (4 + fds) rc4 (loader + uiFlashBootOffset hdr) idb m;
    m ← put_loader (Z.to_nat fds) 0 4 rc4 (loader + uiFlashDataOffset hdr) idb m;
    let total := u16 (fbs + fds) in
    m ← put16 m (idb + 508) total;
    m ← put16 m (idb + SECTOR_OFFSET + 18) (u16 (INT2BCD (tm_year hdr)));
    m ← put16 m (idb + SECTOR_OFFSET + 20) (u16 ((INT2BCD (tm_month hdr) ≪ 8) .| INT2BCD (tm_date hdr)));
    m ← put16 m (idb + SECTOR_OFFSET + 22) (u16 ((INT2BCD (uiMajorVersion hdr) ≪ 8) .| INT2BCD (uiMinorVersion hdr)));
    m ← rc4_sectors m idb;
    Some (Some (4 + total, m)).

(** The result, the memory, and [update_boot_bloader_ver] when it was set. *)
Definition get_rk28boot (misc_part : option disk_partition) (pLoader : Z) (dataLoaded : bool) (m : mem) (d : D)
    : option (Z * mem * option Z) :=
  match misc_part with
  | None => Some (-1, m, None)
  | Some misc =>
      '(rc, m) ←
        (if dataLoaded then Some (0, m)
         else let '(rc, data) := StorageReadLba (start misc + 96) 4 d in
              if negb (rc =? 0) then Some (-1, m) else m ← store_n m pLoader (take (4 * 512) data); Some (0, m));
      if negb (rc =? 0) then Some (-1, m, None)
      else
        sign ← string_at m pLoader 32;
        if bool_decide (sign <> BOOTSIGN) then Some (-2, m, None)
        else
          hdr ← boot_head_at m pLoader;
          let nBootSize := s32 (HEADINFO_SIZE + uiUsbDataLen hdr + uiUsbBootLen hdr + uiFlashDataLen hdr + uiFlashBootLen hdr) in
          '(rc, m) ←
            (if dataLoaded then Some (0, m)
             else rkloader_CopyFlash2Memory pLoader (start misc + 96) (BYTE2SECTOR nBootSize) d m);
          if negb (rc =? 0) then Some (-3, m, None)
          else
            hdr ← boot_head_at m pLoader;
            Some (0, m, Some (u16 ((INT2BCD (uiMajorVersion hdr) ≪ 8) .| INT2BCD (uiMinorVersion hdr))))
  end.

(** The addresses of the buffers, and what the update finds in the globals. *)
Record idb_env := IdbEnv {
  g_pLoader : Z;
  g_pIDBlock : Z;
  g_id_block_size : Z;
  BlockState : list Z;
  misc_partition : option disk_partition;
  IntForUpdate : D -> D;
  locked : bool
}.

(** [rkidb_update_loader]; [iRet], the memory and the medium. *)
Definition rkidb_update_loader (env : idb_env) (dataLoaded : bool) (m : mem) (d : D) : option (Z * mem * D) :=
  let d := IntForUpdate env d in
  '(rc, m, _) ← get_rk28boot (misc_partition env) (g_pLoader env) dataLoaded m d;
  if negb (rc =? 0) then Some (-6, m, d)
  else
    blks ← FindAllIDB (BuildFlashStateMap (BlockState env)) (g_id_block_size env) d;
    let iIDBCount := Z.of_nat (length blks) in
    if iIDBCount <=? 0 then Some (-2, m, d)
    else if iIDBCount =? 1 then Some (-3, m, d)
    else
      off0 ← aget blks 0;
      r ← GenericIDBData (g_id_block_size env) off0 (g_pIDBlock env) (g_pLoader env) m d;
      match r with
      | None => Some (-4, m, d)
      | Some (need, m) =>
          data ← load_n (Z.to_nat (528 * need)) m (g_pIDBlock env);
          '(ok, d) ← WriteXIDBlock (locked env) (g_id_block_size env) blks iIDBCount data need d;
          Some (if ok : bool then 0 else -5, m, d)
      end.
End update.

(** ** What the running loader reads

    [gIdDataBuf] is at address [gId]: the 512 data bytes of the first four
    sectors of the ID block, the last two of them decrypted. *)

Definition IDBLOCK_SIZE : Z := 512.
Definition IDBLOCK_SN : Z := 3.

(** Without NAND the buffer was filled when the card was set up. *)
Definition rkidb_get_idblk_data (gId : Z) (m : mem) : option mem :=
  m ← rc4_at m (gId + 2 * 512); rc4_at m (gId + 3 * 512).

Definition rkidb_get_rc4_flag (gId : Z) (m : mem) : option Z :=
  tag ← field 4 m gId;
  if tag =? IDB_TAG then
    b ← load_n 512 m gId;
    b ← P_RC4 b 512;
    Some (s32 (le_field 8 4 b))
  else Some (-1).

(** The year, date and version that the text is printed from; [None] inside is
    the result -1. *)
Definition rkidb_get_bootloader_ver (gId : Z) (m : mem) : option (option (Z * Z * Z)) :=
  tag ← field 4 m gId;
  if tag =? IDB_TAG then
    year ← field 2 m (gId + 512 + 18);
    date ← field 2 m (gId + 512 + 20);
    ver ← field 2 m (gId + 512 + 22);
    Some (Some (year, date, ver))
  else Some None.

(** [false] when there is no serial number. *)
Definition rkidb_get_sn (gId buf : Z) (m : mem) : option (bool * mem) :=
  let pSec3 := gId + IDBLOCK_SIZE * IDBLOCK_SN in
  size ← field 2 m pSec3;
  if (size <=? 0) || (SN_MAX_SIZE <? size) then Some (false, m)
  else
    '(m, _) ← strncpy m buf (pSec3 + 2) (Z.to_nat size);
    m ← store m (buf + size) 0;
    Some (true, m).

Definition rkidb_get_mac_address (gId macaddr : Z) (m : mem) : option (bool * mem) :=
  let pSec3 := gId + IDBLOCK_SIZE * IDBLOCK_SN in
  size ← field 1 m (pSec3 + 35);
  if negb (size =? 6) then Some (false, m)
  else '(m, _) ← strncpy m macaddr (pSec3 + 36) (Z.to_nat size); Some (true, m).

Definition rkidb_get_hdcp_key (gId buf offset size : Z) (m : mem) : option (bool * mem) :=
  let pidbbuf := gId + IDBLOCK_SIZE * IDBLOCK_SN in
  if (size <=? 0) || (IDBLOCK_SIZE <? size) || (offset <=? 0) || (IDBLOCK_SIZE <? offset) then Some (false, m)
  else m ← copy m buf (pidbbuf + offset) (Z.to_nat size); Some (true, m).

(** ** A serial number and an address *)

Lemma field_spec n m a l : bytes_at m a l -> length l = n -> field n m a = Some (le_value l).
Proof. intros H <-. unfold field. by rewrite load_n_spec. Qed.

Lemma ncopied_full s count : Forall char_ok s -> length s = count -> ncopied count s.
Proof.
  intros Hs <-. induction Hs as [|c s Hc Hs IH]; cbn [length]; constructor; [unfold char_ok in Hc; lia|done].
Qed.

Lemma ncopied_nul s count : Forall char_ok s -> (length s < count)%nat -> ncopied count (s ++ [0]).
Proof.
  intros Hs. revert count. induction Hs as [|c s Hc Hs IH]; intros [|count] Hl; cbn [length app] in *; try lia; constructor.
  - unfold char_ok in Hc. lia.
  - apply IH. lia.
Qed.

(** A serial number of at most 30 characters is copied and ended. *)
Lemma rkidb_get_sn_spec gId buf m s :
  let pSec3 := gId + 1536 in
  let n := Z.of_nat (length s) in
  bytes_at m pSec3 ([n; 0] ++ s) -> 0 < n <= 30 -> Forall char_ok s ->
  mapped m buf (n + 1) -> buf + n + 1 <= pSec3 \/ pSec3 + 32 <= buf ->
  ∃ m', rkidb_get_sn gId buf m = Some (true, m') /\ cstr_at m' buf s /\ same_outside m m' buf (n + 1).
Proof.
  intros pSec3 n Hb Hn Hs Hm Hd. unfold rkidb_get_sn, IDBLOCK_SIZE, IDBLOCK_SN, SN_MAX_SIZE.
  change (512 * 3) with 1536. fold pSec3. apply bytes_at_app in Hb as [Hb1 Hb2]. cbn [length] in Hb2.
  rewrite (field_spec 2 m pSec3 [n; 0]) by done.
  assert (le_value [n; 0] = n) as -> by (apply (u32_small n); lia). cbn [mbind option_bind].
  destruct (Z.leb_spec n 0), (Z.ltb_spec 30 n); try lia. cbn [orb]. unfold strncpy.
  destruct (strncpy_loop_spec (Z.to_nat n) s m buf (pSec3 + 2)) as (m1 & -> & Hb' & Ho).
  { apply ncopied_full; [done|lia]. }
  { exact Hb2. }
  { intros b Hbb. apply Hm. lia. }
  { fold n. lia. }
  cbn [mbind option_bind]. destruct (store_spec m1 (buf + n) 0) as (m2 & -> & Hz & Hk).
  { rewrite Ho by lia. apply Hm. lia. }
  cbn [mbind option_bind]. exists m2. split; [done|]. split.
  - split; [|done]. apply bytes_at_app. split; [|apply bytes_at_cons; split; [done|apply bytes_at_nil]].
    intros i Hi. rewrite Hk by lia. by apply Hb'.
  - intros b Hbb. rewrite Hk, Ho by lia. done.
Qed.

(** The hardware address is copied with [strncpy]: it arrives whole only when
    none of its bytes is zero.  Otherwise the copy ends with the first zero
    byte, the bytes behind it are those that were in the caller's buffer, and
    the result is [true] all the same. *)
Theorem rkidb_get_mac_address_truncated gId macaddr m pre post :
  let pSec3 := gId + 1536 in
  bytes_at m (pSec3 + 35) (6 :: pre ++ post) -> length (pre ++ post) = 6%nat -> Forall char_ok pre ->
  (post = [] \/ head post = Some 0) ->
  mapped m macaddr 6 -> macaddr + 6 <= pSec3 \/ pSec3 + 42 <= macaddr ->
  let copied := if bool_decide (post = []) then pre else pre ++ [0] in
  ∃ m', rkidb_get_mac_address gId macaddr m = Some (true, m') /\ bytes_at m' macaddr copied /\
    same_outside m m' macaddr (Z.of_nat (length copied)).
Proof.
  intros pSec3 Hb Hl Hpre Hpost Hm Hd copied.
  apply bytes_at_cons in Hb as [Hb1 Hb2]. replace (pSec3 + 35 + 1) with (pSec3 + 36) in Hb2 by lia.
  unfold rkidb_get_mac_address, IDBLOCK_SIZE, IDBLOCK_SN. change (512 * 3) with 1536. fold pSec3.
  rewrite (field_spec 1 m (pSec3 + 35) [6]) by (done || (apply bytes_at_cons; split; [done|apply bytes_at_nil])).
  cbn [mbind option_bind]. change (le_value [6]) with 6. cbn [Z.eqb Pos.eqb negb]. change (Z.to_nat 6) with 6%nat.
  rewrite length_app in Hl. unfold strncpy.
  assert (ncopied 6 copied /\ bytes_at m (pSec3 + 36) copied /\ (length copied <= 6)%nat) as (Hc & Hbc & Hlc).
  { subst copied. destruct post as [|c post]; cbn [length] in *.
    - rewrite bool_decide_true by done. rewrite app_nil_r in Hb2. split_and!; [by apply ncopied_full; [|lia]|done|lia].
    - rewrite bool_decide_false by done. destruct Hpost as [|Hc]; [done|]. cbn in Hc. injection Hc as ->.
      split_and!; [apply ncopied_nul; [done|lia]| |rewrite length_app; cbn; lia].
      rewrite app_cons_assoc in Hb2. by apply bytes_at_app in Hb2 as [? _]. }
  destruct (strncpy_loop_spec 6 copied m macaddr (pSec3 + 36)) as (m1 & -> & Hb' & Ho); [done..| |lia|].
  { intros b Hbb. apply Hm. lia. }
  cbn [mbind option_bind]. by exists m1.
Qed.

(** An address whose second byte is zero, read into a cleared buffer. *)
Lemma rkidb_get_mac_address_truncated_witness :
  ∃ m', rkidb_get_mac_address 4096 64 (mem_of 64 (replicate 6 0) ∪ mem_of (4096 + 1571) [6; 0x50; 0; 0x11; 0x22; 0x33; 0x44])
      = Some (true, m') /\
    bytes_at m' 64 [0x50; 0] /\
    same_outside (mem_of 64 (replicate 6 0) ∪ mem_of (4096 + 1571) [6; 0x50; 0; 0x11; 0x22; 0x33; 0x44]) m' 64 2.
Proof.
  apply (rkidb_get_mac_address_truncated 4096 64 _ [0x50] [0; 0x11; 0x22; 0x33; 0x44]).
  - apply load_n_bytes_at. by vm_compute.
  - done.
  - repeat constructor.
  - by right.
  - apply (load_n_mapped _ _ 6 (replicate 6 0)). by vm_compute.
  - left. lia.
Defined.

(** The bounds of [rkidb_get_hdcp_key] let a key begin at the end of the last
    sector: all of it is read from behind [gIdDataBuf]. *)
Lemma rkidb_get_hdcp_key_past_end gId buf m :
  rkidb_get_hdcp_key gId buf 512 512 m = (m ← copy m buf (gId + 2048) 512; Some (true, m)).
Proof.
  unfold rkidb_get_hdcp_key, IDBLOCK_SIZE, IDBLOCK_SN. cbn [Z.leb Z.ltb Z.compare Pos.compare Pos.compare_cont orb].
  by replace (gId + 512 * 3 + 512) with (gId + 2048) by lia.
Qed.

(** ** The update as a whole *)

Section safety.
Context {D : Type} `{!PbaFun D} `{!MemFun D} {bsize : Z} `{!PbaLaws D bsize} (Hbs : 0 < bsize).

Lemma found_blocks d blks :
  199 * bsize < 2 ^ 32 -> blks = take 5 (filter (λ k, tagged bsize d k = true) (seqZ 0 199)) -> blocks_ok (bsize := bsize) blks.
Proof.
  intros Hb ->. split.
  - pose proof (NoDup_filter (λ k, tagged bsize d k = true) _ (NoDup_seqZ 0 199)) as H.
    rewrite <-(take_drop 5) in H. by apply NoDup_app in H as [? _].
  - apply Forall_take, Forall_forall. intros k Hk. apply list_elem_of_filter in Hk as [_ Hk].
    apply elem_of_seqZ in Hk. split; [lia|]. nia.
Qed.

(** What the result of an update says about the medium: 0, a copy of the
    ID block that was generated is there, read back and compared; -5, no copy
    could be written and an old one is left; any other value, the medium is as
    it was when the update began. *)
Theorem rkidb_update_loader_result (env : idb_env (D := D)) loaded m d r m' d' :
  g_id_block_size env = bsize -> 199 * bsize < 2 ^ 32 -> length (BlockState env) = 200%nat ->
  (∀ rc m1 v off need m2, get_rk28boot (misc_partition env) (g_pLoader env) loaded m (IntForUpdate env d) = Some (rc, m1, v) ->
     GenericIDBData bsize off (g_pIDBlock env) (g_pLoader env) m1 (IntForUpdate env d) = Some (Some (need, m2)) ->
     0 <= need <= bsize) ->
  rkidb_update_loader env loaded m d = Some (r, m', d') ->
  let d0 := IntForUpdate env d in
  (r = 0 /\ ∃ blk data need, tagged bsize d0 blk = true /\ load_n (Z.to_nat (528 * need)) m' (g_pIDBlock env) = Some data /\
     holds_new (bsize := bsize) data need blk d') \/
  (r = -5 /\ ∃ blk, tagged bsize d0 blk = true /\ holds_old (bsize := bsize) d0 blk d') \/
  (r ∈ [-6; -2; -3; -4] /\ d' = d0).
Proof.
  intros Hsz Hb Hst Hneed H d0. unfold rkidb_update_loader in H. rewrite Hsz in H. fold d0 in H, Hneed.
  bind_inv H. destruct p as [[rc m1] v]. destruct (rc =? 0); cbn [negb] in H;
    [|injection H as <- _ <-; right; right; split; [set_solver|done]].
  assert (BuildFlashStateMap (BlockState env) = cleared) as Hcl
    by (unfold BuildFlashStateMap; rewrite drop_ge by lia; apply app_nil_r).
  rewrite Hcl, FindAllIDB_spec in H. cbn [mbind option_bind] in H.
  remember (take 5 _) as blks eqn:Ebl. pose proof (found_blocks d0 blks Hb Ebl) as Hok.
  assert (∀ blk, blk ∈ blks -> tagged bsize d0 blk = true) as Htag.
  { intros blk Hblk. rewrite Ebl in Hblk. apply elem_of_take in Hblk as (i & Hi & _).
    apply list_elem_of_lookup_2, list_elem_of_filter in Hi as [? _]. done. }
  destruct (Z.leb_spec (Z.of_nat (length blks)) 0); [injection H as <- _ <-; right; right; split; [set_solver|done]|].
  destruct (Z.of_nat (length blks) =? 1); [injection H as <- _ <-; right; right; split; [set_solver|done]|].
  bind_inv H. bind_inv H. destruct o as [[need m2]|]; [|injection H as <- _ <-; right; right; split; [set_solver|done]].
  pose proof (Hneed _ _ _ _ _ _ eq_refl Hb2) as Hn.
  bind_inv H. destruct (WriteXIDBlock_survives Hbs (locked env) blks l need d0) as (ok & d1 & log & E & _ & _ & Hres);
    [done|done|by intros ->|].
  rewrite E in H. cbn [mbind option_bind] in H. destruct ok; injection H as <- <- <-.
  - left. split; [done|]. destruct Hres as (blk & Hblk & Hnew). exists blk, l, need. by eauto.
  - right. left. split; [done|]. destruct Hres as (blk & Hblk & Hold). eauto.
Qed.
End safety.

(** A medium without raw access, and a loader that is in memory. *)
#[export] Instance no_pba : PbaFun unit := {| mf_ReadPba := None; mf_WritePba := None; mf_ErasePba := None |}.
#[export] Instance no_lba : MemFun unit := {| mf_ReadLba := None; mf_WriteLba := None; mf_Erase := None |}.
#[export] Program Instance no_pba_laws : PbaLaws unit 8 := {| contents := λ _ _, [] |}.
Next Obligation. done. Qed.
Next Obligation. done. Qed.
Next Obligation. done. Qed.

Definition ex_loader_mem : mem := mem_of 2112 (BOOTSIGN ++ replicate 80 0).
Definition ex_idb_env : idb_env (D := unit) := IdbEnv 2112 0 8 (replicate 200 0) (Some (ex_ptn 4)) id false.

Lemma rkidb_update_loader_result_witness :
  let r := -2 in
  (r = 0 /\ ∃ blk data need, tagged 8 tt blk = true /\ load_n (Z.to_nat (528 * need)) ex_loader_mem 0 = Some data /\
     holds_new (bsize := 8) data need blk tt) \/
  (r = -5 /\ ∃ blk, tagged 8 tt blk = true /\ holds_old (bsize := 8) tt blk tt) \/
  (r ∈ [-6; -2; -3; -4] /\ tt = tt).
Proof.
  apply (rkidb_update_loader_result (bsize := 8) ltac:(done) ex_idb_env true ex_loader_mem tt (-2) ex_loader_mem tt).
  - done.
  - done.
  - done.
  - intros rc m1 v off need m2 _ HG. unfold GenericIDBData in HG. bind_inv HG. discriminate HG.
  - assert (string_at ex_loader_mem 2112 32 = Some BOOTSIGN) as Es by (by vm_compute).
    assert (boot_head_at ex_loader_mem 2112 = Some (BootHead 0 0 0 0 0 0 0 0 0 0 0 0)) as Eh by (by vm_compute).
    assert (take 5 (filter (λ k, tagged 8 tt k = true) (seqZ 0 199)) = []) as Ef by (by vm_compute).
    unfold rkidb_update_loader, get_rk28boot.
    cbn [misc_partition g_pLoader g_id_block_size IntForUpdate ex_idb_env id mbind option_bind Z.eqb negb]. unfold id.
    rewrite Es. cbn [mbind option_bind]. rewrite bool_decide_false by (intros Hc; by apply Hc).
    rewrite Eh. cbn [mbind option_bind Z.eqb negb]. change (BuildFlashStateMap (BlockState ex_idb_env)) with cleared.
    rewrite FindAllIDB_spec, Ef. reflexivity.
Defined.
