(* ===== verification/Tftp.v ===== *)
(** * TFTP

    The client of [net/tftp.c], configured with [CONFIG_CMD_TFTPPUT] and without
    multicast, [tsize], direct flashing and the server side.  A transfer goes
    block by block: the client answers a block of data with an acknowledgement,
    the server answers that with the next block.  Block numbers have 16 bits and
    wrap.  [TftpNet] puts the client in a network. *)

From S2P Require Import Prelude Mem Ctype Crc Strtoul Vsprintf RkParam.

(** ** Constants *)

Definition WELL_KNOWN_PORT : Z := 69.
Definition TIMEOUT_COUNT : Z := 10.
Definition TFTP_RRQ : Z := 1.
Definition TFTP_WRQ : Z := 2.
Definition TFTP_DATA : Z := 3.
Definition TFTP_ACK : Z := 4.
Definition TFTP_ERROR : Z := 5.
Definition TFTP_OACK : Z := 6.
Definition TFTP_BLOCK_SIZE : Z := 512.
Definition TFTP_SEQUENCE_SIZE : Z := 65536.
Definition MAX_LEN : nat := 128.

(** [TftpState] *)
Inductive tftp_state :=
| STATE_SEND_RRQ | STATE_DATA | STATE_TOO_LARGE | STATE_BAD_MAGIC | STATE_OACK | STATE_RECV_WRQ | STATE_SEND_WRQ.

#[export] Instance tftp_state_eq_dec : EqDecision tftp_state.
Proof. solve_decision. Defined.

(** What [net_set_state] and [NetStartAgain] leave for the network loop. *)
Inductive net_state := NETLOOP_CONTINUE | NETLOOP_RESTART | NETLOOP_SUCCESS | NETLOOP_FAIL.

#[export] Instance net_state_eq_dec : EqDecision net_state.
Proof. solve_decision. Defined.

(** ** The globals *)

Record tftp := Tftp {
  TftpTimeoutMSecs : Z;
  TftpTimeoutCountMax : Z;
  TftpRemotePort : Z;
  TftpOurPort : Z;
  TftpTimeoutCount : Z;
  TftpBlock : Z;
  TftpLastBlock : Z;
  TftpBlockWrap : Z;
  TftpBlockWrapOffset : Z;
  TftpState : tftp_state;
  TftpWriting : bool;
  TftpFinalBlock : bool;
  TftpBlkSize : Z;
  TftpBlkSizeOption : Z;
  tftp_filename : list Z;
  NetBootFileXferSize : Z;
  load_addr : Z;
  save_addr : Z;
  net : net_state;
  ram : mem
}.

Definition set_timeout_count (v : Z) (c : tftp) : tftp :=
  Tftp (TftpTimeoutMSecs c) (TftpTimeoutCountMax c) (TftpRemotePort c) (TftpOurPort c) v (TftpBlock c) (TftpLastBlock c)
    (TftpBlockWrap c) (TftpBlockWrapOffset c) (TftpState c) (TftpWriting c) (TftpFinalBlock c) (TftpBlkSize c)
    (TftpBlkSizeOption c) (tftp_filename c) (NetBootFileXferSize c) (load_addr c) (save_addr c) (net c) (ram c).
Definition set_timeout_max (v : Z) (c : tftp) : tftp :=
  Tftp (TftpTimeoutMSecs c) v (TftpRemotePort c) (TftpOurPort c) (TftpTimeoutCount c) (TftpBlock c) (TftpLastBlock c)
    (TftpBlockWrap c) (TftpBlockWrapOffset c) (TftpState c) (TftpWriting c) (TftpFinalBlock c) (TftpBlkSize c)
    (TftpBlkSizeOption c) (tftp_filename c) (NetBootFileXferSize c) (load_addr c) (save_addr c) (net c) (ram c).
Definition set_block (v : Z) (c : tftp) : tftp :=
  Tftp (TftpTimeoutMSecs c) (TftpTimeoutCountMax c) (TftpRemotePort c) (TftpOurPort c) (TftpTimeoutCount c) v (TftpLastBlock c)
    (TftpBlockWrap c) (TftpBlockWrapOffset c) (TftpState c) (TftpWriting c) (TftpFinalBlock c) (TftpBlkSize c)
    (TftpBlkSizeOption c) (tftp_filename c) (NetBootFileXferSize c) (load_addr c) (save_addr c) (net c) (ram c).
Definition set_wrap (last wrap off : Z) (final : bool) (c : tftp) : tftp :=
  Tftp (TftpTimeoutMSecs c) (TftpTimeoutCountMax c) (TftpRemotePort c) (TftpOurPort c) (TftpTimeoutCount c) (TftpBlock c) last
    wrap off (TftpState c) (TftpWriting c) final (TftpBlkSize c)
    (TftpBlkSizeOption c) (tftp_filename c) (NetBootFileXferSize c) (load_addr c) (save_addr c) (net c) (ram c).
Definition set_state (s : tftp_state) (port : Z) (c : tftp) : tftp :=
  Tftp (TftpTimeoutMSecs c) (TftpTimeoutCountMax c) port (TftpOurPort c) (TftpTimeoutCount c) (TftpBlock c) (TftpLastBlock c)
    (TftpBlockWrap c) (TftpBlockWrapOffset c) s (TftpWriting c) (TftpFinalBlock c) (TftpBlkSize c)
    (TftpBlkSizeOption c) (tftp_filename c) (NetBootFileXferSize c) (load_addr c) (save_addr c) (net c) (ram c).
Definition set_blksize (v : Z) (c : tftp) : tftp :=
  Tftp (TftpTimeoutMSecs c) (TftpTimeoutCountMax c) (TftpRemotePort c) (TftpOurPort c) (TftpTimeoutCount c) (TftpBlock c) (TftpLastBlock c)
    (TftpBlockWrap c) (TftpBlockWrapOffset c) (TftpState c) (TftpWriting c) (TftpFinalBlock c) v
    (TftpBlkSizeOption c) (tftp_filename c) (NetBootFileXferSize c) (load_addr c) (save_addr c) (net c) (ram c).
Definition set_net (n : net_state) (c : tftp) : tftp :=
  Tftp (TftpTimeoutMSecs c) (TftpTimeoutCountMax c) (TftpRemotePort c) (TftpOurPort c) (TftpTimeoutCount c) (TftpBlock c) (TftpLastBlock c)
    (TftpBlockWrap c) (TftpBlockWrapOffset c) (TftpState c) (TftpWriting c) (TftpFinalBlock c) (TftpBlkSize c)
    (TftpBlkSizeOption c) (tftp_filename c) (NetBootFileXferSize c) (load_addr c) (save_addr c) n (ram c).
Definition set_ram (size : Z) (m : mem) (c : tftp) : tftp :=
  Tftp (TftpTimeoutMSecs c) (TftpTimeoutCountMax c) (TftpRemotePort c) (TftpOurPort c) (TftpTimeoutCount c) (TftpBlock c) (TftpLastBlock c)
    (TftpBlockWrap c) (TftpBlockWrapOffset c) (TftpState c) (TftpWriting c) (TftpFinalBlock c) (TftpBlkSize c)
    (TftpBlkSizeOption c) (tftp_filename c) size (load_addr c) (save_addr c) (net c) m.

(** ** Blocks *)

(** [block] is an [int]; the product is computed in [int]. *)
Definition store_block (block : Z) (src : list Z) (c : tftp) : option tftp :=
  let offset := u64 (s32 (block * TftpBlkSize c) + TftpBlockWrapOffset c) in
  let newsize := u64 (offset + Z.of_nat (length src)) in
  m ← store_n (ram c) (u64 (load_addr c + offset)) src;
  Some (set_ram (if NetBootFileXferSize c <? newsize then newsize else NetBootFileXferSize c) m c).

Definition new_transfer (c : tftp) : tftp := set_wrap 0 0 0 false c.

(** The bytes of the block; [block] is unsigned, and [len] an unsigned [int]. *)
Definition load_block (block len : Z) (c : tftp) : option (list Z) :=
  let offset := u64 (u32 ((s32 block - 1) * len) + TftpBlockWrapOffset c) in
  let tosend := Z.min (u64 (NetBootFileXferSize c - offset)) len in
  load_n (Z.to_nat tosend) (ram c) (u64 (save_addr c + offset)).

Definition update_block_number (c : tftp) : tftp :=
  if (TftpBlock c =? 0) && negb (TftpLastBlock c =? 0) then
    set_timeout_count 0
      (set_wrap (TftpLastBlock c) (u64 (TftpBlockWrap c + 1))
         (u64 (TftpBlockWrapOffset c + TftpBlkSize c * TFTP_SEQUENCE_SIZE)) (TftpFinalBlock c) c)
  else c.

Definition tftp_complete (c : tftp) : tftp := set_net NETLOOP_SUCCESS c.

Definition restart (c : tftp) : tftp := set_net NETLOOP_RESTART c.

(** ** Sending *)

(** [htons] and two bytes in memory. *)
Definition be16 (v : Z) : list Z := [(v ≫ 8) mod 256; v mod 256].

(** [sprintf] with ["%lu"] or ["%d"] *)
Definition decimal (v : Z) : list Z := default [] (number v 10 (-1) (-1) 0).

(** The payload that goes to [TftpRemotePort]. *)
Definition TftpSend (c : tftp) : option (tftp * list Z) :=
  match TftpState c with
  | STATE_SEND_RRQ | STATE_SEND_WRQ =>
      Some (c, be16 (if decide (TftpState c = STATE_SEND_RRQ) then TFTP_RRQ else TFTP_WRQ) ++
        tftp_filename c ++ [0] ++ text "octet" ++ [0] ++ text "timeout" ++ [0] ++ decimal (TftpTimeoutMSecs c / 1000) ++ [0] ++
        text "blksize" ++ [0] ++ decimal (TftpBlkSizeOption c) ++ [0])
  | STATE_OACK | STATE_RECV_WRQ | STATE_DATA =>
      if TftpWriting c then
        data ← load_block (TftpBlock c) (TftpBlkSize c) c;
        Some (set_wrap (TftpLastBlock c) (TftpBlockWrap c) (TftpBlockWrapOffset c)
                (Z.of_nat (length data) <? TftpBlkSize c) c,
              be16 TFTP_DATA ++ be16 (TftpBlock c) ++ data)
      else Some (c, be16 TFTP_ACK ++ be16 (TftpBlock c))
  | STATE_TOO_LARGE => Some (c, be16 TFTP_ERROR ++ be16 3 ++ text "File too large" ++ [0])
  | STATE_BAD_MAGIC => Some (c, be16 TFTP_ERROR ++ be16 2 ++ text "File has bad magic" ++ [0])
  end.

(** A packet that goes out, or none. *)
Definition sending (c : tftp) : option (tftp * option (list Z)) := '(c, p) ← TftpSend c; Some (c, Some p).

(** ** Receiving *)

Definition value16 (b : list Z) : Z :=
  match b with
  | h :: l :: _ => h * 256 + l
  | _ => 0
  end.

(** [strcmp(pkt + i, key) == 0] *)
Definition key_at (key pkt : list Z) : bool := bool_decide (take (length key + 1) pkt = key ++ [0]).

(** The loop over the options of an [OACK]; [i] counts down with the fuel. *)
Fixpoint oack_loop (n : nat) (pkt : list Z) (blksize : Z) : Z :=
  match n with
  | O => blksize
  | S n =>
      let blksize := if key_at (text "blksize") pkt then u16 (simple_strtoul (drop 8 pkt) 10).1 else blksize in
      oack_loop n (tail pkt) blksize
  end.

Definition handle_ack (pkt : list Z) (c : tftp) : option (tftp * option (list Z)) :=
  if TftpWriting c then
    if TftpFinalBlock c then Some (tftp_complete c, None)
    else
      let block := value16 pkt in
      let ack_ok := TftpBlock c =? block in
      let c := update_block_number (set_block (u16 (block + 1)) c) in
      if ack_ok then sending c else Some (c, None)
  else Some (c, None).

(** [len] bytes of [pkt] belong to the packet. *)
Definition handle_oack (pkt : list Z) (src len : Z) (c : tftp) : option (tftp * option (list Z)) :=
  let c := set_state STATE_OACK src c in
  let c := set_blksize (oack_loop (Z.to_nat (len - 8)) pkt (TftpBlkSize c)) c in
  let c := if TftpWriting c then set_block (u64 (TftpBlock c + 1)) (set_state STATE_DATA src c) else c in
  sending c.

(** A block that is not the last one again: it is stored and acknowledged. *)
Definition accept_block (data : list Z) (len : Z) (c : tftp) : option (tftp * option (list Z)) :=
  let c := set_timeout_max TIMEOUT_COUNT
             (set_wrap (TftpBlock c) (TftpBlockWrap c) (TftpBlockWrapOffset c) (TftpFinalBlock c) c) in
  c ← store_block (s32 (TftpBlock c - 1)) data c;
  '(c, p) ← sending c;
  Some (if len <? TftpBlkSize c then tftp_complete c else c, p).

Definition handle_data (pkt : list Z) (src len : Z) (c : tftp) : option (tftp * option (list Z)) :=
  if len <? 2 then Some (c, None)
  else
    let len := len - 2 in
    let c := update_block_number (set_block (value16 pkt) c) in
    let first :=
      match TftpState c with STATE_SEND_RRQ | STATE_OACK | STATE_RECV_WRQ => true | _ => false end in
    let c := if first then new_transfer (set_state STATE_DATA src c) else c in
    if first && negb (TftpBlock c =? 1) then Some (restart c, None)
    else if TftpBlock c =? TftpLastBlock c then Some (c, None)
    else accept_block (take (Z.to_nat len) (drop 2 pkt)) len c.

Definition handle_error (pkt : list Z) (c : tftp) : tftp :=
  let code := value16 pkt in
  if (code =? 1) || (code =? 2) then set_net NETLOOP_FAIL c else restart c.

Definition TftpHandler (pkt : list Z) (dest src len : Z) (c : tftp) : option (tftp * option (list Z)) :=
  if negb (dest =? TftpOurPort c) then Some (c, None)
  else if negb (src =? TftpRemotePort c) &&
          match TftpState c with STATE_SEND_RRQ | STATE_RECV_WRQ | STATE_SEND_WRQ => false | _ => true end then Some (c, None)
  else if len <? 2 then Some (c, None)
  else
    let proto := value16 pkt in
    let pkt := drop 2 pkt in
    let len := len - 2 in
    if proto =? TFTP_ACK then handle_ack pkt c
    else if proto =? TFTP_OACK then handle_oack pkt src len c
    else if proto =? TFTP_DATA then handle_data pkt src len c
    else if proto =? TFTP_ERROR then Some (handle_error pkt c, None)
    else Some (c, None).

Definition ICMP_NOT_REACH : Z := 3.
Definition ICMP_NOT_REACH_PORT : Z := 3.

Definition icmp_handler (type code : Z) (c : tftp) : tftp :=
  if (type =? ICMP_NOT_REACH) && (code =? ICMP_NOT_REACH_PORT) then restart c else c.

Definition TftpTimeout (c : tftp) : option (tftp * option (list Z)) :=
  let c := set_timeout_count (TftpTimeoutCount c + 1) c in
  if TftpTimeoutCountMax c <? TftpTimeoutCount c then Some (restart c, None)
  else if decide (TftpState c <> STATE_RECV_WRQ) then sending c
  else Some (c, None).

(** ** Starting *)

(** [strncpy] into [tftp_filename] and the zero behind it *)
Definition set_filename (s : list Z) : list Z := take (MAX_LEN - 1) s.

(** ["%02X"] of a byte of the address *)
Definition hex2 (v : Z) : list Z := default [] (number v 16 2 (-1) ZEROPAD).

Definition default_filename (NetOurIP : Z) : list Z :=
  hex2 (NetOurIP .& 255) ++ hex2 ((NetOurIP ≫ 8) .& 255) ++ hex2 ((NetOurIP ≫ 16) .& 255) ++
  hex2 ((NetOurIP ≫ 24) .& 255) ++ text ".img".

(** The name to ask for: [BootFile] or what follows its colon. *)
Definition boot_filename (BootFile : list Z) (NetOurIP : Z) : list Z :=
  match BootFile with
  | [] => set_filename (default_filename NetOurIP)
  | _ => set_filename (match cut 58 BootFile with Some (_, p) => p | None => BootFile end)
  end.

(** What [TftpStart] takes from the environment and the network loop: the
    variables [tftpblocksize] and [tftptimeout] as numbers, the name, the
    address, the chosen port, and the area to write for [TFTPPUT]. *)
Record tftp_args := TftpArgs {
  a_blocksize : option Z;
  a_timeout : option Z;
  a_BootFile : list Z;
  a_NetOurIP : Z;
  a_port : Z;
  a_put : option (Z * Z)
}.

Definition TftpStart (a : tftp_args) (TftpRRQTimeoutCountMax : Z) (c : tftp) : option (tftp * option (list Z)) :=
  let option := default (TftpBlkSizeOption c) (u16 <$> a_blocksize a) in
  let msecs := default (TftpTimeoutMSecs c) (u64 <$> a_timeout a) in
  let msecs := if msecs <? 1000 then 1000 else msecs in
  let put := match a_put a with Some _ => true | None => false end in
  let c := if put then new_transfer c else c in
  let '(saddr, size) := default (save_addr c, NetBootFileXferSize c) (a_put a) in
  sending (Tftp msecs TftpRRQTimeoutCountMax WELL_KNOWN_PORT (a_port a) 0 0
    (TftpLastBlock c) (TftpBlockWrap c) (TftpBlockWrapOffset c)
    (if put then STATE_SEND_WRQ else STATE_SEND_RRQ) put (TftpFinalBlock c) TFTP_BLOCK_SIZE option
    (boot_filename (a_BootFile a) (a_NetOurIP a)) size (load_addr c) saddr NETLOOP_CONTINUE (ram c)).
