(* ===== verification/TftpNet.v ===== *)
(** * A TFTP read over a lossy network

    The client of [Tftp] and a server that follows RFC 1350 exchange packets
    over two channels that keep their order, lose and duplicate.  The theorems
    say that a transfer that ends in success has the file in memory, whatever
    its length (block numbers wrap after 65535), and that it ends in success
    when at most ten packets are lost. *)

From S2P Require Import Prelude Mem Ctype Crc Strtoul Vsprintf RkParam Tftp.

Lemma value16_be16 v r : value16 (be16 v ++ r) = v mod 65536.
Proof.
  cbn. rewrite Z.shiftr_div_pow2 by lia. change (2 ^ 8) with 256.
  change 65536 with (256 * 256). rewrite Z.rem_mul_r by lia. lia.
Qed.

Lemma oack_loop_again n o b : oack_loop n o (oack_loop n o b) = oack_loop n o b.
Proof.
  revert o b. induction n as [|n IH]; intros o b; [done|]. cbn [oack_loop].
  destruct (key_at (text "blksize") o); [done|apply IH].
Qed.

Lemma drop_be16 v (r : list Z) : drop 2 (be16 v ++ r) = r.
Proof. done. Qed.

Lemma value16_be16' v : value16 (be16 v) = v mod 65536.
Proof. rewrite <-(app_nil_r (be16 v)). apply value16_be16. Qed.

Lemma be16_mod v : be16 (v mod 65536) = be16 v.
Proof.
  unfold be16. rewrite !Z.shiftr_div_pow2 by lia. change (2 ^ 8) with 256. change 65536 with (256 * 256).
  rewrite Z.rem_mul_r, (Z.mul_comm 256 (_ mod _)) by lia. f_equal.
  - rewrite Z.div_add, Z.div_small, Z.add_0_l by (try lia; apply Z.mod_pos_bound; lia). by rewrite Z.mod_mod by lia.
  - by rewrite Z.mod_add, Z.mod_mod by lia.
Qed.

(** A packet from the port that the client listens to. *)
Definition dispatch (p : Z) (r : list Z) (src : Z) (c : tftp) : option (tftp * option (list Z)) :=
  if p =? TFTP_ACK then handle_ack r c else if p =? TFTP_OACK then handle_oack r src (Z.of_nat (length r)) c
  else if p =? TFTP_DATA then handle_data r src (Z.of_nat (length r)) c
  else if p =? TFTP_ERROR then Some (handle_error r c, None) else Some (c, None).

Lemma hear_from our port p r c :
  TftpOurPort c = our ->
  TftpRemotePort c = port \/ match TftpState c with STATE_SEND_RRQ | STATE_RECV_WRQ | STATE_SEND_WRQ => True | _ => False end ->
  value16 (be16 p ++ r) = p ->
  TftpHandler (be16 p ++ r) our port (Z.of_nat (length (be16 p ++ r))) c = dispatch p r port c.
Proof.
  intros Ho Hs Hp. unfold TftpHandler. rewrite Ho, Z.eqb_refl. cbn [negb].
  replace (_ && _) with false.
  2:{ destruct Hs as [-> |Hs]; [by rewrite Z.eqb_refl|]. destruct (TftpState c); done || by rewrite andb_false_r. }
  rewrite Hp, drop_be16, length_app. change (length (be16 p)) with 2%nat.
  replace (Z.of_nat (2 + length r) <? 2) with false by (symmetry; apply Z.ltb_ge; lia).
  by replace (Z.of_nat (2 + length r) - 2) with (Z.of_nat (length r)) by lia.
Qed.

(** ** What the server sends

    Message 0 is the [OACK] with the options [reply], when the server knows
    options; message [i] is block [i] of the file [F]. *)

Section protocol.
Context (F : list Z) (reply : option (list Z)).

Definition first : Z := match reply with Some _ => 0 | None => 1 end.

Definition blksize : Z :=
  match reply with
  | Some o => oack_loop (Z.to_nat (Z.of_nat (length o) - 8)) o TFTP_BLOCK_SIZE
  | None => TFTP_BLOCK_SIZE
  end.

Definition last : Z := Z.of_nat (length F) / blksize + 1.

Definition block (i : Z) : list Z := take (Z.to_nat blksize) (drop (Z.to_nat ((i - 1) * blksize)) F).

Definition message (i : Z) : list Z :=
  if i =? 0 then be16 TFTP_OACK ++ default [] reply else be16 TFTP_DATA ++ be16 i ++ block i.

(** [p] asks for what follows message [s]. *)
Definition asks (s : Z) (p : list Z) : bool :=
  if s =? first - 1 then value16 p =? TFTP_RRQ
  else (value16 p =? TFTP_ACK) && (value16 (drop 2 p) =? s mod 65536).

(** RFC 1350: the acknowledgement of the last message brings the next one, and
    that of the message before brings the last one again. *)
Definition rfc1350 (s : Z) (p : list Z) : Z * list (list Z) :=
  if asks s p then if s <? last then (s + 1, [message (s + 1)]) else (s, [])
  else if (first <=? s) && asks (s - 1) p then (s, [message s])
  else (s, []).

End protocol.

(** A server: its state, the number of its last message, what it does with a
    packet, and its own timeout, which may send the last message again. *)
Class Server (F : list Z) (reply : option (list Z)) := {
  server : Type;
  idle : server;
  sent : server -> Z;
  serve : server -> list Z -> server * list (list Z);
  expire : server -> server * list (list Z);
  sent_idle : sent idle = first reply - 1;
  serve_rfc1350 s p : (sent (serve s p).1, (serve s p).2) = rfc1350 F reply (sent s) p;
  expire_sent s : sent (expire s).1 = sent s;
  expire_last s : (expire s).2 = [] \/ first reply <= sent s /\ (expire s).2 = [message F reply (sent s)]
}.

(** ** The system *)

Record system (F : list Z) (reply : option (list Z)) {S : Server F reply} := System {
  client : tftp;
  srv : server;
  to_client : list (list Z);
  to_server : list (list Z)
}.
Arguments System {F reply S}.
Arguments client {F reply S}.
Arguments srv {F reply S}.
Arguments to_client {F reply S}.
Arguments to_server {F reply S}.

Definition packets (p : option (list Z)) : list (list Z) := match p with Some p => [p] | None => [] end.

Inductive label := Deliver | Answer | Lose | Duplicate | Tick | Expire.

(** The client hears packets for [our] from [port]. *)
Inductive step {F reply} {S : Server F reply} (our port : Z) : label -> system F reply -> system F reply -> Prop :=
| step_deliver c c' s p out cl sv :
    net c = NETLOOP_CONTINUE -> TftpHandler p our port (Z.of_nat (length p)) c = Some (c', out) ->
    step our port Deliver (System c s (p :: cl) sv) (System c' s cl (sv ++ packets out))
| step_answer c s p cl sv :
    step our port Answer (System c s cl (p :: sv)) (System c (serve s p).1 (cl ++ (serve s p).2) sv)
| step_lose_client c s p l1 l2 sv :
    step our port Lose (System c s (l1 ++ p :: l2) sv) (System c s (l1 ++ l2) sv)
| step_lose_server c s p cl l1 l2 :
    step our port Lose (System c s cl (l1 ++ p :: l2)) (System c s cl (l1 ++ l2))
| step_duplicate_client c s p l1 l2 sv :
    step our port Duplicate (System c s (l1 ++ p :: l2) sv) (System c s (l1 ++ p :: p :: l2) sv)
| step_duplicate_server c s p cl l1 l2 :
    step our port Duplicate (System c s cl (l1 ++ p :: l2)) (System c s cl (l1 ++ p :: p :: l2))
| step_tick c c' s out cl sv :
    net c = NETLOOP_CONTINUE -> TftpTimeout c = Some (c', out) ->
    step our port Tick (System c s cl sv) (System c' s cl (sv ++ packets out))
| step_expire c s cl sv :
    step our port Expire (System c s cl sv) (System c (expire s).1 (cl ++ (expire s).2) sv).

(** ** The client at a level

    Level [l] of the client: message [l] is the last one it has taken. *)

Section client.
Context (F : list Z) (reply : option (list Z)) (our port A : Z) (m0 : mem).
#[local] Abbreviation B := (blksize reply).
#[local] Abbreviation size := (Z.of_nat (length F)).
#[local] Abbreviation lo := (first reply).
#[local] Abbreviation hi := (last F reply).

Definition level_state (l : Z) : tftp_state :=
  if l =? lo - 1 then STATE_SEND_RRQ else if l =? 0 then STATE_OACK else STATE_DATA.

Record at_level (l : Z) (c : tftp) : Prop := {
  al_range : lo - 1 <= l <= hi;
  al_our : TftpOurPort c = our;
  al_port : l <> lo - 1 -> TftpRemotePort c = port;
  al_writing : TftpWriting c = false;
  al_state : TftpState c = level_state l;
  al_block : TftpBlock c = Z.max 0 l mod 65536;
  al_last : 1 <= l -> TftpLastBlock c = l mod 65536 /\ TftpBlockWrapOffset c = l / 65536 * (65536 * B);
  al_blksize : TftpBlkSize c = if l =? lo - 1 then TFTP_BLOCK_SIZE else B;
  al_size : NetBootFileXferSize c = Z.min (Z.max 0 l * B) size;
  al_addr : load_addr c = A;
  al_bytes : bytes_at (ram c) A (take (Z.to_nat (Z.max 0 l * B)) F);
  al_outside : same_outside m0 (ram c) A size;
  al_mapped : mapped (ram c) A size;
  al_net : net c <> NETLOOP_FAIL /\ (net c = NETLOOP_SUCCESS <-> l = hi)
}.

(** The packet with which the client answers at level [l]. *)
Definition ack (l : Z) (p : list Z) : Prop :=
  if l =? lo - 1 then value16 p = TFTP_RRQ else p = be16 TFTP_ACK ++ be16 l.

Lemma first_range : 0 <= lo <= 1.
Proof. unfold first. destruct reply; lia. Qed.

Lemma asks_ack l p : lo - 1 <= l -> ack l p -> asks reply l p = true.
Proof.
  unfold ack, asks. intros Hl. destruct (Z.eqb_spec l (lo - 1)); intros H.
  - by rewrite H.
  - subst p. rewrite drop_be16, value16_be16, value16_be16'. by rewrite (Z.eqb_refl (l mod 65536)).
Qed.

Lemma succ_mod16 l : l mod 65536 <> (l + 1) mod 65536.
Proof.
  intros E. assert ((l + 1 - l) mod 65536 = 0) as H1 by (by rewrite Zminus_mod, <-E, Z.sub_diag).
  replace (l + 1 - l) with 1 in H1 by lia. done.
Qed.

Lemma asks_next_ack l p : lo - 1 <= l -> ack l p -> asks reply (l + 1) p = false.
Proof.
  unfold ack, asks. intros Hl. destruct (Z.eqb_spec (l + 1) (lo - 1)); [lia|].
  destruct (Z.eqb_spec l (lo - 1)); intros H.
  - by rewrite H.
  - subst p. rewrite drop_be16, value16_be16, value16_be16'.
    apply andb_false_intro2, Z.eqb_neq, succ_mod16.
Qed.

Hypothesis HB : 1 <= B <= 32768.
Hypothesis HA : 0 <= A /\ A + size < 2 ^ 63.

Lemma last_bounds l : l < hi <-> l * B <= size.
Proof.
  unfold last. split; intros H.
  - pose proof (Z.mul_div_le size B). nia.
  - apply Z.lt_succ_r, Z.div_le_lower_bound; lia.
Qed.

Lemma block_take i : 1 <= i -> take (Z.to_nat (i * B)) F = take (Z.to_nat ((i - 1) * B)) F ++ block F reply i.
Proof.
  intros Hi. replace (Z.to_nat (i * B)) with (Z.to_nat ((i - 1) * B) + Z.to_nat B)%nat
    by (rewrite <-Z2Nat.inj_add by nia; f_equal; lia).
  unfold block. by rewrite take_take_drop.
Qed.

Lemma block_length i : 1 <= i <= hi -> Z.of_nat (length (block F reply i)) = Z.min B (size - (i - 1) * B).
Proof.
  intros Hi. unfold block. rewrite length_take, length_drop.
  pose proof (proj1 (last_bounds (i - 1))). assert (0 <= (i - 1) * B) by nia. lia.
Qed.

(** A block ends the transfer exactly when it is the last. *)
Lemma block_short i : 1 <= i <= hi -> (Z.of_nat (length (block F reply i)) < B <-> i = hi).
Proof.
  intros Hi. rewrite block_length by done. pose proof (last_bounds i). pose proof (last_bounds (i - 1)). nia.
Qed.

(** The offset of block [i], from its 16-bit number and the wraps. *)
Lemma block_offset i :
  1 <= i <= hi -> s32 (s32 (i mod 65536 - 1) * B) + i / 65536 * (65536 * B) = (i - 1) * B.
Proof.
  intros Hi. pose proof (Z.mod_pos_bound i 65536 ltac:(lia)). rewrite (s32_small (_ - _)), s32_small by nia.
  rewrite (Z.mod_eq i 65536) by lia. ring.
Qed.

Lemma store_next i c :
  1 <= i <= hi -> TftpBlkSize c = B -> TftpBlockWrapOffset c = i / 65536 * (65536 * B) -> load_addr c = A ->
  NetBootFileXferSize c = Z.min ((i - 1) * B) size -> bytes_at (ram c) A (take (Z.to_nat ((i - 1) * B)) F) ->
  same_outside m0 (ram c) A size -> mapped (ram c) A size ->
  ∃ m', store_block (s32 (i mod 65536 - 1)) (block F reply i) c = Some (set_ram (Z.min (i * B) size) m' c) /\
    bytes_at m' A (take (Z.to_nat (i * B)) F) /\ same_outside m0 m' A size /\ mapped m' A size.
Proof.
  intros Hi E1 E2 E3 E4 Hb Ho Hm. pose proof (block_length i Hi) as Hlen.
  assert (0 <= (i - 1) * B <= size) as Hs by (split; [nia|]; apply last_bounds; lia).
  unfold store_block. rewrite E1, E2, E3, E4, block_offset by done. change (2 ^ 63) with 9223372036854775808 in HA.
  rewrite (u64_small ((i - 1) * B)), !u64_small by lia.
  destruct (store_n_spec (ram c) (A + (i - 1) * B) (block F reply i)) as (m' & -> & Hb' & Ho').
  { intros x Hx. apply Hm. lia. }
  exists m'. cbn [mbind option_bind]. split; [do 2 f_equal; destruct (Z.ltb_spec (Z.min ((i - 1) * B) size)
    ((i - 1) * B + Z.of_nat (length (block F reply i)))); lia|].
  assert (length (take (Z.to_nat ((i - 1) * B)) F) = Z.to_nat ((i - 1) * B)) as Hl by (rewrite length_take; lia).
  rewrite block_take by lia. split; [|split].
  - apply bytes_at_app. rewrite Hl, Z2Nat.id by lia. split; [|done].
    eapply bytes_at_outside; [exact Ho'|rewrite Hl; lia|done].
  - intros b Hn. rewrite Ho' by lia. by apply Ho.
  - eapply same_outside_mapped; [exact Ho'|by apply bytes_at_mapped|done].
Qed.

(** ** One packet *)

Lemma message_0 : message F reply 0 = be16 TFTP_OACK ++ default [] reply.
Proof. done. Qed.

Lemma message_block i : i <> 0 -> message F reply i = be16 TFTP_DATA ++ be16 i ++ block F reply i.
Proof. intros H. unfold message. by destruct (Z.eqb_spec i 0). Qed.

Lemma hear p l c r :
  at_level l c -> value16 (be16 p ++ r) = p ->
  TftpHandler (be16 p ++ r) our port (Z.of_nat (length (be16 p ++ r))) c = dispatch p r port c.
Proof.
  intros H Hp. apply hear_from; [apply (al_our _ _ H)| |done].
  rewrite (al_state _ _ H). unfold level_state. destruct (Z.eqb_spec l (lo - 1)); [by right|].
  left. by apply (al_port _ _ H).
Qed.

(** What a step leaves of the client besides its level. *)
Definition next (l : Z) (n : net_state) (c c' : tftp) (out : option (list Z)) : Prop :=
  at_level l c' /\ net c' = n /\ (∃ p, out = Some p /\ ack l p) /\
  TftpTimeoutCount c' <= Z.max 0 (TftpTimeoutCount c) /\ TftpTimeoutCountMax c' = TIMEOUT_COUNT.

(** The client when block [i] has been counted and is not yet stored. *)
Record arrived (i : Z) (c : tftp) : Prop := {
  ar_range : 1 <= i <= hi;
  ar_our : TftpOurPort c = our;
  ar_port : TftpRemotePort c = port;
  ar_writing : TftpWriting c = false;
  ar_state : TftpState c = STATE_DATA;
  ar_block : TftpBlock c = i mod 65536;
  ar_wrap : TftpBlockWrapOffset c = i / 65536 * (65536 * B);
  ar_blksize : TftpBlkSize c = B;
  ar_size : NetBootFileXferSize c = Z.min ((i - 1) * B) size;
  ar_addr : load_addr c = A;
  ar_bytes : bytes_at (ram c) A (take (Z.to_nat ((i - 1) * B)) F);
  ar_outside : same_outside m0 (ram c) A size;
  ar_mapped : mapped (ram c) A size;
  ar_net : net c = NETLOOP_CONTINUE
}.

Lemma accept_arrived i c :
  arrived i c -> ∃ c' out, accept_block (block F reply i) (Z.of_nat (length (block F reply i))) c = Some (c', out) /\
    next i (if i =? hi then NETLOOP_SUCCESS else NETLOOP_CONTINUE) c c' out.
Proof.
  intros [Hi ????????????]. pose proof first_range as Hlo. unfold accept_block. cbn [TftpBlock set_timeout_max set_wrap].
  rewrite ar_block0.
  match goal with |- context [store_block _ _ ?d] => set (c1 := d) end.
  destruct (store_next i c1) as (m' & -> & Hb & Ho & Hm); try done. cbn [mbind option_bind].
  unfold sending, TftpSend. cbn [TftpState TftpWriting set_ram c1 set_timeout_max set_wrap].
  rewrite ar_state0, ar_writing0. cbn [mbind option_bind TftpBlkSize TftpBlock set_ram c1 set_timeout_max set_wrap].
  rewrite ar_blksize0. eexists _, _. split; [done|]. destruct (block_short i Hi) as [Hs1 Hs2].
  assert ((i =? lo - 1) = false) as Hne by (apply Z.eqb_neq; lia).
  split; [|split; [|split]].
  - destruct (Z.ltb_spec (Z.of_nat (length (block F reply i))) B); (split; cbn; rewrite ?Hne, ?Z.max_r by lia; try done; try lia).
    all: try (unfold level_state; rewrite Hne; by destruct (Z.eqb_spec i 0); [lia|]).
    + split; [done|]. split; [intros _; auto|done].
    + split; [rewrite ar_net0; done|]. split; [rewrite ar_net0; done|intros ->; lia].
  - destruct (Z.ltb_spec (Z.of_nat (length (block F reply i))) B), (Z.eqb_spec i hi); cbn; try done; lia.
  - eexists. split; [done|]. unfold ack. rewrite Hne. cbn. rewrite ar_block0. by rewrite be16_mod.
  - case_match; cbn; lia.
Qed.

Lemma take_whole {X} (l : list X) : take (Z.to_nat (Z.of_nat (length l))) l = l.
Proof. rewrite Nat2Z.id. apply firstn_all. Qed.

Definition count_block (i : Z) (c : tftp) : tftp := update_block_number (set_block (i mod 65536) c).

(** [handle_data] on message [i]. *)
Lemma handle_block i src c :
  handle_data (be16 i ++ block F reply i) src (Z.of_nat (length (be16 i ++ block F reply i))) c =
  let first := match TftpState (count_block i c) with STATE_SEND_RRQ | STATE_OACK | STATE_RECV_WRQ => true | _ => false end in
  let c := if first then new_transfer (set_state STATE_DATA src (count_block i c)) else count_block i c in
  if first && negb (TftpBlock c =? 1) then Some (restart c, None)
  else if TftpBlock c =? TftpLastBlock c then Some (c, None)
  else accept_block (block F reply i) (Z.of_nat (length (block F reply i))) c.
Proof.
  unfold handle_data. rewrite value16_be16, drop_be16, length_app. change (length (be16 i)) with 2%nat.
  replace (Z.of_nat (2 + length (block F reply i)) <? 2) with false by (symmetry; apply Z.ltb_ge; lia).
  replace (Z.of_nat (2 + length (block F reply i)) - 2) with (Z.of_nat (length (block F reply i))) by lia.
  by rewrite take_whole.
Qed.

(** The first block, from [STATE_SEND_RRQ] or [STATE_OACK]. *)
Lemma first_block c :
  at_level 0 c -> net c = NETLOOP_CONTINUE ->
  ∃ c' out, TftpHandler (message F reply 1) our port (Z.of_nat (length (message F reply 1))) c = Some (c', out) /\
    next 1 (if 1 =? hi then NETLOOP_SUCCESS else NETLOOP_CONTINUE) c c' out.
Proof.
  intros H Hn. rewrite message_block, (hear _ 0 c) by done. unfold dispatch. rewrite handle_block.
  change (count_block 1 c) with (set_block 1 c). change (TftpState (set_block 1 c)) with (TftpState c).
  assert (TftpState c = STATE_SEND_RRQ \/ TftpState c = STATE_OACK) as Hst.
  { rewrite (al_state _ _ H). unfold level_state. case_match; auto. }
  set (c1 := new_transfer (set_state STATE_DATA port (set_block 1 c))).
  destruct (accept_arrived 1 c1) as (c' & out & E & N).
  - destruct H. split; cbn; rewrite ?Z.max_l in * by lia; try done; try lia.
    + pose proof (last_bounds 0). lia.
    + rewrite al_blksize0. unfold blksize. pose proof first_range. unfold first in *.
      destruct reply; [done|]. by case_match.
  - exists c', out. split; [|done]. by destruct Hst as [-> | ->].
Qed.

Lemma succ_div16 l :
  (l + 1) mod 65536 = 0 /\ l mod 65536 <> 0 /\ (l + 1) / 65536 = l / 65536 + 1 \/
  (l + 1) mod 65536 <> 0 /\ (l + 1) / 65536 = l / 65536.
Proof. Z.to_euclidean_division_equations. lia. Qed.

(** Counting a block in [STATE_DATA]: the wrap when its number is 0. *)
Lemma count_next l c :
  at_level l c -> net c = NETLOOP_CONTINUE -> 1 <= l < hi ->
  arrived (l + 1) (count_block (l + 1) c) /\ TftpLastBlock (count_block (l + 1) c) = l mod 65536 /\
  TftpTimeoutCount (count_block (l + 1) c) <= Z.max 0 (TftpTimeoutCount c).
Proof.
  intros H Hn Hl. destruct (al_last _ _ H) as [Hlb Hw]; [lia|]. pose proof (first_range).
  assert (l * B <= size) by (apply last_bounds; lia).
  destruct H. rewrite Z.max_r in * by lia. assert ((l =? lo - 1) = false) as Hne by (apply Z.eqb_neq; lia). rewrite Hne in *.
  unfold level_state in *. rewrite Hne in *. assert ((l =? 0) = false) as Hne0 by (apply Z.eqb_neq; lia). rewrite Hne0 in *.
  unfold count_block, update_block_number. cbn [TftpBlock TftpLastBlock set_block]. rewrite Hlb.
  destruct (succ_div16 l) as [(E1 & E2 & E3)|(E1 & E3)].
  - rewrite E1, (proj2 (Z.eqb_neq _ _) E2). cbn [negb andb Z.eqb].
    split; [split; cbn; rewrite ?Z.add_simpl_r; try done; try lia|].
    + rewrite Hw, al_blksize0, E3. change TFTP_SEQUENCE_SIZE with 65536. rewrite u64_small; [lia|].
      change (2 ^ 63) with 9223372036854775808 in HA. pose proof (Z.mul_div_le l 65536). pose proof (Z.div_pos l 65536). nia.
    + split; [done|cbn; lia].
  - rewrite (proj2 (Z.eqb_neq _ _) E1). cbn [andb].
    split; [split; cbn; rewrite ?Z.add_simpl_r, ?E3; try done; try lia|split; [done|cbn; lia]].
Qed.

(** A later block, in [STATE_DATA]. *)
Lemma later_block l c :
  at_level l c -> net c = NETLOOP_CONTINUE -> 1 <= l < hi ->
  ∃ c' out, TftpHandler (message F reply (l + 1)) our port (Z.of_nat (length (message F reply (l + 1)))) c = Some (c', out) /\
    next (l + 1) (if l + 1 =? hi then NETLOOP_SUCCESS else NETLOOP_CONTINUE) c c' out.
Proof.
  intros H Hn Hl. rewrite message_block, (hear _ l c) by (done || lia). unfold dispatch. rewrite handle_block.
  destruct (count_next l c H Hn Hl) as (Ha & Hlb & Hc).
  destruct (accept_arrived _ _ Ha) as (c' & out & E & N1 & N2 & N3 & N4 & N5).
  exists c', out. rewrite (ar_state _ _ Ha). cbn [andb]. cbv zeta. rewrite (ar_block _ _ Ha), Hlb.
  rewrite (proj2 (Z.eqb_neq ((l + 1) mod 65536) (l mod 65536))) by (apply not_eq_sym, succ_mod16).
  split; [done|]. do 3 (split; [done|]). split; [lia|done].
Qed.

(** The last block again: nothing happens. *)
Lemma same_block l c :
  at_level l c -> 1 <= l -> ∃ c',
  TftpHandler (message F reply l) our port (Z.of_nat (length (message F reply l))) c = Some (c', None) /\
  at_level l c' /\ net c' = net c.
Proof.
  intros H Hl. rewrite message_block, (hear _ l c) by (done || lia). unfold dispatch. rewrite handle_block.
  destruct (al_last _ _ H) as [Hlb Hw]; [lia|]. pose proof first_range.
  assert (TftpState c = STATE_DATA) as Hst.
  { rewrite (al_state _ _ H). unfold level_state. by rewrite !(proj2 (Z.eqb_neq _ _)) by lia. }
  assert (count_block l c = set_block (l mod 65536) c) as ->.
  { unfold count_block, update_block_number. cbn [TftpBlock TftpLastBlock set_block]. rewrite Hlb.
    by destruct (Z.eqb_spec (l mod 65536) 0). }
  exists (set_block (l mod 65536) c). cbn [TftpState set_block]. rewrite Hst. cbn [andb TftpBlock TftpLastBlock set_block].
  rewrite Hlb, (Z.eqb_refl (l mod 65536)). split; [done|]. split; [|done].
  destruct H. split; cbn; try done. by rewrite Z.max_r by lia.
Qed.

(** The options, in [STATE_SEND_RRQ] or again in [STATE_OACK]. *)
Lemma take_options l c :
  at_level l c -> lo = 0 -> l <= 0 ->
  ∃ c' out, TftpHandler (message F reply 0) our port (Z.of_nat (length (message F reply 0))) c = Some (c', out) /\
    at_level 0 c' /\ net c' = net c /\ (∃ p, out = Some p /\ ack 0 p) /\
    TftpTimeoutCount c' = TftpTimeoutCount c /\ TftpTimeoutCountMax c' = TftpTimeoutCountMax c.
Proof.
  intros H Hlo Hl. rewrite message_0, (hear _ l c) by done. unfold dispatch.
  cbn [Z.eqb Pos.eqb TFTP_DATA TFTP_ACK TFTP_OACK TFTP_ERROR]. unfold handle_oack, sending, TftpSend.
  cbn [TftpWriting TftpState set_blksize set_state]. rewrite (al_writing _ _ H). cbn [TftpState set_blksize set_state TftpWriting mbind option_bind].
  rewrite (al_writing _ _ H). eexists _, _. split; [done|].
  split; [|split; [done|split; [|done]]].
  - destruct H. split; cbn; rewrite ?Hlo, ?Z.max_l in * by lia; try done; try lia.
    + pose proof (last_bounds 0). lia.
    + unfold level_state. by rewrite Hlo.
    + rewrite al_blksize0. unfold first, blksize in *. destruct reply as [o|]; [|done]. cbn.
      case_match; [done|]. apply oack_loop_again.
    + split; [tauto|]. pose proof (last_bounds 0). split; [intros E; apply al_net0 in E; lia|intros E; lia].
  - eexists. split; [done|]. unfold ack. rewrite Hlo. cbn. destruct H. rewrite al_block0, Z.max_l by lia. done.
Qed.

Lemma send_level l c :
  at_level l c -> ∃ p, TftpSend c = Some (c, p) /\ ack l p.
Proof.
  intros H. unfold TftpSend, ack. rewrite (al_state _ _ H), (al_writing _ _ H), (al_block _ _ H). unfold level_state.
  destruct (Z.eqb_spec l (lo - 1)) as [->|Hne].
  { eexists. split; [done|]. rewrite decide_True by done. apply value16_be16. }
  pose proof (al_range _ _ H). pose proof first_range. rewrite be16_mod, Z.max_r by lia. destruct (l =? 0); eauto.
Qed.

Lemma tick_level l c :
  at_level l c -> net c = NETLOOP_CONTINUE ->
  ∃ c' out, TftpTimeout c = Some (c', out) /\ at_level l c' /\ (∀ p, out = Some p -> ack l p) /\
    TftpTimeoutCountMax c' = TftpTimeoutCountMax c /\ TftpTimeoutCount c' = TftpTimeoutCount c + 1 /\
    (TftpTimeoutCount c < TftpTimeoutCountMax c -> net c' = NETLOOP_CONTINUE /\ is_Some out).
Proof.
  intros H Hn. unfold TftpTimeout. set (c1 := set_timeout_count (TftpTimeoutCount c + 1) c).
  assert (at_level l c1) as H1 by (destruct H; by split).
  destruct (Z.ltb_spec (TftpTimeoutCountMax c1) (TftpTimeoutCount c1)) as [Hlt|Hge]; cbn in *.
  - exists (restart c1), None. split; [done|]. split; [|repeat split; try done; lia].
    assert (l <> hi) by (intros E; apply (al_net _ _ H) in E; congruence).
    destruct H1. by split.
  - rewrite decide_True. 2:{ rewrite (al_state _ _ H). unfold level_state. repeat case_match; done. }
    destruct (send_level l c1 H1) as (p & Ep & Ha). unfold sending. rewrite Ep. cbn.
    exists c1, (Some p). do 2 (split; [done|]). split; [by intros ? [= <-]|]. do 3 (split; [done|]). by eexists.
Qed.
End client.

(** ** The channels *)

(** A channel holds packets with the numbers [a .. b], in order. *)
Definition carries (R : Z -> list Z -> Prop) (a b : Z) (ch : list (list Z)) : Prop :=
  ∃ js, Forall2 R js ch /\ StronglySorted Z.le js /\ Forall (λ j, a <= j <= b) js.

Section channels.
Context (R : Z -> list Z -> Prop).

Lemma carries_nil a b : carries R a b [].
Proof. exists []. repeat constructor. Qed.

Lemma carries_weaken a a' b b' ch : a' <= a -> b <= b' -> carries R a b ch -> carries R a' b' ch.
Proof. intros Ha Hb (js & H1 & H2 & H3). exists js. do 2 (split; [done|]). eapply Forall_impl; [exact H3|]. cbn. lia. Qed.

Lemma carries_snoc a b p ch : a <= b -> R b p -> carries R a b ch -> carries R a b (ch ++ [p]).
Proof.
  intros Hab Hp (js & H1 & H2 & H3). exists (js ++ [b]). split; [by apply Forall2_app; [|constructor]|].
  split; [|apply Forall_app; split; [done|constructor; [lia|constructor]]].
  apply StronglySorted_app_2; [|done|repeat constructor].
  intros x y Hx Hy. apply list_elem_of_singleton in Hy as ->. rewrite Forall_forall in H3. apply H3 in Hx. lia.
Qed.

Lemma carries_head a b p ch : carries R a b (p :: ch) -> ∃ i, R i p /\ a <= i <= b /\ carries R i b ch.
Proof.
  intros (js & H1 & H2 & H3). inversion H1 as [|i ? js' ? Hi Hjs]; subst. inversion H2; subst. inversion H3; subst.
  exists i. do 2 (split; [done|]). exists js'. do 2 (split; [done|]).
  apply Forall_forall. intros x Hx. rewrite Forall_forall in *. split; [by apply H5|]. by apply H7.
Qed.

Lemma sorted_replicate n (i : Z) : StronglySorted Z.le (replicate n i).
Proof. induction n; cbn; constructor; [done|]. apply Forall_replicate. lia. Qed.

Lemma carries_edit a b l1 p l2 (g : list (list Z)) :
  carries R a b (l1 ++ p :: l2) ->
  (∀ i : Z, R i p -> ∃ n, Forall2 R (replicate n i) g) -> carries R a b (l1 ++ g ++ l2).
Proof.
  intros (js & H1 & H2 & H3) Hg. apply Forall2_app_inv_r in H1 as (j1 & j2 & F1 & F2 & ->).
  inversion F2 as [|i ? j3 ? Hi F3]; subst. destruct (Hg i Hi) as [n Hn].
  exists (j1 ++ replicate n i ++ j3). split; [by repeat apply Forall2_app|].
  apply StronglySorted_app in H2 as (S1 & S2 & S3). inversion S3 as [|? ? S4 S5]; subst.
  apply Forall_app in H3 as [G1 G2]. inversion G2; subst.
  split; [|by repeat apply Forall_app_2; [|apply Forall_replicate|]].
  apply StronglySorted_app_2; [|done|apply StronglySorted_app_2; [|by apply sorted_replicate|done]].
  - intros x y Hx [Hy|Hy]%elem_of_app; apply S1; try done; [|by right].
    apply elem_of_replicate in Hy as [-> _]. by left.
  - intros x y Hx Hy. apply elem_of_replicate in Hx as [-> _]. rewrite Forall_forall in S5. by apply S5.
Qed.

Lemma carries_lose a b l1 p l2 : carries R a b (l1 ++ p :: l2) -> carries R a b (l1 ++ l2).
Proof. intros H. apply (carries_edit a b l1 p l2 [] H). intros i _. by exists O. Qed.

Lemma carries_duplicate a b l1 p l2 : carries R a b (l1 ++ p :: l2) -> carries R a b (l1 ++ p :: p :: l2).
Proof. intros H. apply (carries_edit a b l1 p l2 [p; p] H). intros i Hi. exists 2%nat. by repeat constructor. Qed.
End channels.

(** ** Safety *)

Section safety.
Context (F : list Z) (reply : option (list Z)) (our port A : Z) (m0 : mem) `{S : Server F reply}.
Hypothesis HB : 1 <= blksize reply <= 32768.
Hypothesis HA : 0 <= A /\ A + Z.of_nat (length F) < 2 ^ 63.
#[local] Abbreviation lo := (first reply).
#[local] Abbreviation hi := (last F reply).

Definition is_message (i : Z) (p : list Z) : Prop := lo <= i /\ p = message F reply i.
Definition is_ack (i : Z) (p : list Z) : Prop := lo - 1 <= i /\ ack reply i p.

(** The server is at the client's level or one further; what is under way to
    the client lies between the two, what is under way to the server between
    the server's last message but one and the client's level. *)
Record linked (l : Z) (σ : system F reply) : Prop := {
  lk_client : at_level F reply our port A m0 l (client σ);
  lk_sent : l <= sent (srv σ) <= l + 1;
  lk_hi : sent (srv σ) <= hi;
  lk_to_client : carries is_message l (sent (srv σ)) (to_client σ);
  lk_to_server : carries is_ack (sent (srv σ) - 1) l (to_server σ)
}.

(** A message reaches the client: it is the next one or the last one again. *)
Lemma hear_message l i c :
  at_level F reply our port A m0 l c -> net c = NETLOOP_CONTINUE -> lo <= i -> i = l \/ i = l + 1 -> i <= hi ->
  ∃ c' out, TftpHandler (message F reply i) our port (Z.of_nat (length (message F reply i))) c = Some (c', out) /\
    at_level F reply our port A m0 i c' /\ (∀ p, out = Some p -> ack reply i p) /\
    (i = l + 1 -> is_Some out /\ net c' = (if i =? hi then NETLOOP_SUCCESS else NETLOOP_CONTINUE) /\
       TftpTimeoutCount c' <= Z.max 0 (TftpTimeoutCount c) /\
       Z.min TIMEOUT_COUNT (TftpTimeoutCountMax c) <= TftpTimeoutCountMax c').
Proof.
  intros H Hn Hlo Hi Hhi. pose proof (first_range reply).
  destruct (decide (i = 0)) as [->|Hi0].
  { destruct (take_options F reply our port A m0 HB HA l c) as (c' & out & E & H1 & H2 & (p & -> & Hp) & H3 & H4); [done|lia|lia|].
    exists c', (Some p). do 2 (split; [done|]). split; [by intros ? [= <-]|]. intros Hl. split; [done|].
    rewrite (proj2 (Z.eqb_neq 0 hi)) by (pose proof (last_bounds F reply HB 0); lia). split; [congruence|]. lia. }
  destruct Hi as [->| ->].
  { destruct (same_block F reply our port A m0 l c) as (c' & E & H1 & H2); [done|lia|].
    exists c', None. do 2 (split; [done|]). split; [done|]. intros; lia. }
  assert (∃ c' out, TftpHandler (message F reply (l + 1)) our port (Z.of_nat (length (message F reply (l + 1)))) c = Some (c', out) /\
    next F reply our port A m0 (l + 1) (if l + 1 =? hi then NETLOOP_SUCCESS else NETLOOP_CONTINUE) c c' out)
    as (c' & out & E & H1 & H2 & (p & -> & Hp) & H3 & H4).
  { destruct (decide (l = 0)) as [->|Hl0]; [by apply first_block|]. apply later_block; [done..|]. lia. }
  exists c', (Some p). do 2 (split; [done|]). split; [by intros ? [= <-]|]. intros _. rewrite H4. repeat split; try done; lia.
Qed.

Lemma carries_packets R a b ch out :
  a <= b -> (∀ p, out = Some p -> R b p) -> carries R a b ch -> carries R a b (ch ++ packets out).
Proof.
  intros Hab Hp Hc. destruct out as [p|]; cbn; [|by rewrite app_nil_r]. apply carries_snoc; auto.
Qed.

Lemma linked_deliver l c s p cl sv c' out :
  linked l (System c s (p :: cl) sv) -> net c = NETLOOP_CONTINUE ->
  TftpHandler p our port (Z.of_nat (length p)) c = Some (c', out) ->
  ∃ l', l <= l' /\ linked l' (System c' s cl (sv ++ packets out)).
Proof.
  intros [H1 H2 H3 H4 H5] Hn E. cbn in *. destruct (carries_head _ _ _ _ _ H4) as (i & [Hi1 ->] & Hi2 & H4').
  destruct (hear_message l i c) as (c1 & o1 & E1 & G1 & G2 & _); [done|done|done|lia|lia|].
  rewrite E1 in E. simplify_eq. exists i. split; [lia|]. split; cbn; try done; [lia|].
  apply carries_packets; [lia| |eapply carries_weaken; [..|exact H5]; lia].
  intros p Hp. pose proof (al_range _ _ _ _ _ _ _ _ G1). split; [lia|auto].
Qed.

Lemma linked_answer l c s p cl sv :
  linked l (System c s cl (p :: sv)) -> linked l (System c (serve s p).1 (cl ++ (serve s p).2) sv).
Proof.
  intros [H1 H2 H3 H4 H5]. cbn in *. destruct (carries_head _ _ _ _ _ H5) as (j & [Hj1 Hj3] & Hj2 & H5').
  pose proof (serve_rfc1350 s p) as E. unfold rfc1350 in E.
  assert (j = sent s \/ j = sent s - 1) as [-> | ->] by lia.
  - rewrite asks_ack in E by done. destruct (Z.ltb_spec (sent s) hi); injection E as E1 E2; split; cbn; rewrite ?E1, ?E2, ?app_nil_r; try done; try lia.
    + apply carries_snoc; [lia|split; [lia|done]|]. eapply carries_weaken; [..|exact H4]; lia.
    + eapply carries_weaken; [..|exact H5']; lia.
    + eapply carries_weaken; [..|exact H5']; lia.
  - pose proof (asks_next_ack reply (sent s - 1) p Hj1 Hj3) as E0. replace (sent s - 1 + 1) with (sent s) in E0 by lia.
    rewrite E0, asks_ack, (proj2 (Z.leb_le lo (sent s))) in E by (done || lia). cbn in E. injection E as E1 E2.
    split; cbn; rewrite ?E1, ?E2; try done. apply carries_snoc; [lia|split; [lia|done]|done].
Qed.

Lemma linked_step l lb σ σ' : linked l σ -> step our port lb σ σ' -> ∃ l', l <= l' /\ linked l' σ'.
Proof.
  intros H Hs. destruct Hs.
  - by eapply linked_deliver.
  - exists l. split; [done|]. by apply linked_answer.
  - exists l. split; [done|]. destruct H. split; cbn in *; try done. by eapply carries_lose.
  - exists l. split; [done|]. destruct H. split; cbn in *; try done. by eapply carries_lose.
  - exists l. split; [done|]. destruct H. split; cbn in *; try done. by eapply carries_duplicate.
  - exists l. split; [done|]. destruct H. split; cbn in *; try done. by eapply carries_duplicate.
  - exists l. split; [done|]. destruct H as [K1 K2 K3 K4 K5]. cbn in *.
    destruct (tick_level F reply our port A m0 l c) as (c1 & o1 & E1 & G1 & G2 & _); [done..|].
    simplify_eq. split; cbn; try done. apply carries_packets; [lia| |done].
    intros p Hp. pose proof (al_range _ _ _ _ _ _ _ _ G1). split; [lia|auto].
  - exists l. split; [done|]. destruct H as [K1 K2 K3 K4 K5]. cbn in *.
    split; cbn; rewrite ?expire_sent; try done.
    destruct (expire_last s) as [-> | [Hf ->]]; [by rewrite app_nil_r|]. by apply carries_snoc; [lia| |].
Qed.

(** [TftpStart] leaves the client at the level before the first message. *)
Lemma start_level a n c0 c out :
  a_put a = None -> a_port a = our -> load_addr c0 = A -> ram c0 = m0 -> NetBootFileXferSize c0 = 0 ->
  mapped m0 A (Z.of_nat (length F)) -> TftpStart a n c0 = Some (c, out) ->
  at_level F reply our port A m0 (lo - 1) c /\ (∃ p, out = Some p /\ ack reply (lo - 1) p) /\
  net c = NETLOOP_CONTINUE /\ TftpTimeoutCount c = 0 /\ TftpTimeoutCountMax c = n.
Proof.
  intros Hput <- <- <- H0 Hm E. unfold TftpStart in E. rewrite Hput in E. cbn in E.
  pose proof (first_range reply). pose proof (last_bounds F reply HB 0).
  rewrite decide_True in E by done. injection E as <- <-.
  split; [|split; [|done]].
  - split; cbn; rewrite ?Z.eqb_refl, ?Z.max_l by lia; try done; try lia.
    + unfold level_state. by rewrite Z.eqb_refl.
    + rewrite take_0. apply bytes_at_nil.
    + split; [done|]. split; [done|]. lia.
  - eexists. split; [done|]. unfold ack. rewrite Z.eqb_refl. apply value16_be16.
Qed.

Lemma start_linked c p :
  at_level F reply our port A m0 (lo - 1) c -> ack reply (lo - 1) p -> linked (lo - 1) (System c idle [] [p]).
Proof.
  intros H Hp. pose proof (al_range _ _ _ _ _ _ _ _ H). split; cbn; rewrite ?sent_idle; try done; try lia.
  - apply carries_nil.
  - apply (carries_snoc _ _ _ _ []); [lia|by split|apply carries_nil].
Qed.

Definition any_step (σ σ' : system F reply) : Prop := ∃ lb, step our port lb σ σ'.

Lemma linked_reachable l σ σ' : linked l σ -> rtc any_step σ σ' -> ∃ l', linked l' σ'.
Proof.
  intros H Hr. revert l H. induction Hr as [σ|σ1 σ2 σ3 [lb Hs] _ IH]; intros l H; [eauto|].
  destruct (linked_step _ _ _ _ H Hs) as (l' & _ & H'). eauto.
Qed.

(** Success means that the whole file is there. *)
Lemma success_file l c :
  at_level F reply our port A m0 l c -> net c = NETLOOP_SUCCESS ->
  bytes_at (ram c) A F /\ NetBootFileXferSize c = Z.of_nat (length F).
Proof.
  intros H Hn. apply (al_net _ _ _ _ _ _ _ _ H) in Hn as ->. destruct H.
  assert (Z.of_nat (length F) <= hi * blksize reply).
  { pose proof (last_bounds F reply HB hi). lia. }
  assert (0 <= hi) by (pose proof (last_bounds F reply HB 0); lia).
  rewrite Z.max_r in * by lia. rewrite take_ge in al_bytes0 by lia. split; [done|lia].
Qed.
End safety.


(** ** Liveness *)

Section liveness.
Context (F : list Z) (reply : option (list Z)) (our port A : Z) (m0 : mem) `{S : Server F reply}.
Hypothesis HB : 1 <= blksize reply <= 32768.
Hypothesis HA : 0 <= A /\ A + Z.of_nat (length F) < 2 ^ 63.
#[local] Abbreviation lo := (first reply).
#[local] Abbreviation hi := (last F reply).

(** The runs of [n] steps with [k] losses in which the client times out only
    when nothing is under way, and nothing is duplicated. *)
Inductive run (σ0 : system F reply) : nat -> nat -> system F reply -> Prop :=
| run_start : run σ0 0 0 σ0
| run_deliver n k σ σ' : run σ0 n k σ -> step our port Deliver σ σ' -> run σ0 (Datatypes.S n) k σ'
| run_answer n k σ σ' : run σ0 n k σ -> step our port Answer σ σ' -> run σ0 (Datatypes.S n) k σ'
| run_lose n k σ σ' : run σ0 n k σ -> step our port Lose σ σ' -> run σ0 (Datatypes.S n) (Datatypes.S k) σ'
| run_tick n k σ σ' : run σ0 n k σ -> to_client σ = [] -> to_server σ = [] -> step our port Tick σ σ' ->
    run σ0 (Datatypes.S n) k σ'.

(** What is under way: an acknowledgement, the next message, or nothing, which
    is the end or the consequence of a loss.  [n] counts the steps beyond those
    that the level and the losses pay for. *)
Inductive phase (l k : Z) (σ : system F reply) : Z -> Prop :=
| phase_ack p n : to_client σ = [] -> to_server σ = [p] -> is_ack reply l p ->
    n <= 0 -> TftpTimeoutCount (client σ) <= k -> phase l k σ n
| phase_message n : to_client σ = [message F reply (l + 1)] -> to_server σ = [] -> sent (srv σ) = l + 1 ->
    n <= 1 -> TftpTimeoutCount (client σ) <= k -> phase l k σ n
| phase_lost n : to_client σ = [] -> to_server σ = [] -> l < hi ->
    n <= -1 -> TftpTimeoutCount (client σ) <= k - 1 -> phase l k σ n
| phase_done n : to_client σ = [] -> to_server σ = [] -> l = hi -> n <= 1 -> phase l k σ n.

Record live (n k : Z) (l : Z) (σ : system F reply) : Prop := {
  lv_linked : linked F reply our port A m0 l σ;
  lv_net : l < hi -> net (client σ) = NETLOOP_CONTINUE;
  lv_max : TIMEOUT_COUNT <= TftpTimeoutCountMax (client σ);
  lv_phase : phase l k σ (n - 2 * (l + 1 - lo) - 3 * k);
  lv_k : 0 <= k
}.

Lemma single_app {X} (l1 : list X) p l2 q : l1 ++ p :: l2 = [q] -> l1 = [] /\ p = q /\ l2 = [].
Proof. destruct l1 as [|x [|y l1]]; intros [=]; by subst. Qed.

Lemma empty_app {X} (l1 : list X) p l2 : l1 ++ p :: l2 <> [].
Proof. by destruct l1. Qed.

Lemma linked_lose l σ σ' :
  linked F reply our port A m0 l σ -> step our port Lose σ σ' -> linked F reply our port A m0 l σ'.
Proof. intros H Hs. inversion Hs; subst; destruct H; split; cbn in *; try done; by eapply carries_lose. Qed.

(** Nothing is under way any more. *)
Lemma phase_quiet l k c s n :
  n <= -1 -> TftpTimeoutCount c <= k - 1 -> l <= hi -> phase l k (System c s [] []) n.
Proof. intros. destruct (decide (l = hi)); [apply phase_done|apply phase_lost]; cbn; done || lia. Qed.

Lemma live_lose n k l σ σ' : live n k l σ -> step our port Lose σ σ' -> live (n + 1) (k + 1) l σ'.
Proof.
  intros [H1 H2 H3 H4 H5] Hs. pose proof (linked_lose l σ σ' H1 Hs) as H1'.
  pose proof (al_range _ _ _ _ _ _ _ _ (lk_client _ _ _ _ _ _ _ _ H1)).
  inversion Hs; subst; cbn in *; (split; cbn; [done|done|done| |lia]);
    inversion H4; cbn in *; try (by edestruct (@empty_app (list Z)));
    match goal with E : _ ++ _ :: _ = [_] |- _ => apply single_app in E as (-> & -> & ->) end;
    subst; apply phase_quiet; lia.
Qed.

Lemma live_tick n k l σ σ' :
  live n k l σ -> k <= TIMEOUT_COUNT -> to_client σ = [] -> to_server σ = [] -> step our port Tick σ σ' ->
  live (n + 1) k l σ'.
Proof.
  intros [H1 H2 H3 H4 H5] Hk Hc Hv Hs. inversion Hs as [| | | | | |c c' s out cl sv Hn E|]; subst; cbn in *; subst.
  destruct (tick_level F reply our port A m0 l c) as (c1 & o1 & E1 & G1 & G2 & G3 & G4 & G5); [apply H1|done|].
  rewrite E in E1. simplify_eq.
  assert (l < hi /\ TftpTimeoutCount c <= k - 1 /\ n - 2 * (l + 1 - lo) - 3 * k <= -1) as (Hl & Hcount & Hlen).
  { inversion H4; cbn in *; try done. subst. destruct (al_net _ _ _ _ _ _ _ _ (lk_client _ _ _ _ _ _ _ _ H1)) as [_ [_ Hs']].
    cbn in *. by rewrite Hs' in Hn. }
  destruct G5 as [G5 [p ->]]; [unfold TIMEOUT_COUNT in *; lia|].
  pose proof (al_range _ _ _ _ _ _ _ _ G1).
  split; cbn; [|done|lia| |done].
  - destruct H1. split; cbn in *; try done. apply (carries_snoc _ _ _ _ []); [lia|split; [lia|auto]|apply carries_nil].
  - eapply phase_ack; cbn; [done|done| |lia|lia]. split; [lia|auto].
Qed.

Lemma live_deliver n k l σ σ' :
  live n k l σ -> step our port Deliver σ σ' -> live (n + 1) k (l + 1) σ'.
Proof.
  intros [H1 H2 H3 H4 H5] Hs. inversion Hs as [c c' s p out cl sv Hn E| | | | | | |]; subst; cbn in *.
  inversion H4 as [| |? | ?]; cbn in *; try done. simplify_eq. destruct H1 as [K1 K2 K3 K4 K5]. cbn in *.
  pose proof (al_range _ _ _ _ _ _ _ _ K1). pose proof (first_range reply).
  destruct (hear_message F reply our port A m0 HB HA l (l + 1) c) as (c1 & o1 & E1 & G1 & G2 & G3); [done|done|lia|lia|lia|].
  rewrite E1 in E. simplify_eq. destruct G3 as ([q ->] & G3 & G4 & G5); [done|].
  split; cbn.
  - split; cbn; [done|lia|done|apply carries_nil|]. apply (carries_snoc _ _ _ _ []); [lia|split; [lia|auto]|apply carries_nil].
  - intros Hl. rewrite G3. by rewrite (proj2 (Z.eqb_neq _ _)) by lia.
  - lia.
  - eapply phase_ack; cbn; [done|done|split; [lia|auto]|lia|lia].
  - done.
Qed.

Lemma live_answer n k l σ σ' :
  live n k l σ -> step our port Answer σ σ' -> live (n + 1) k l σ'.
Proof.
  intros [H1 H2 H3 H4 H5] Hs. inversion Hs as [|c s p cl sv| | | | | |]; subst; cbn in *.
  pose proof (linked_answer F reply our port A m0 l _ _ _ _ _ H1) as H1'.
  inversion H4 as [p' ? Ec Es [Ha1 Ha2]| | |]; cbn in *; simplify_eq. destruct H1 as [K1 K2 K3 K4 K5]. cbn in *.
  pose proof (serve_rfc1350 s p') as E. unfold rfc1350 in E.
  split; cbn; [done|done|done| |done].
  destruct (decide (sent s = l)) as [El|Hne].
  - rewrite El, asks_ack in E by done. destruct (Z.ltb_spec l hi); injection E as E1 E2; rewrite E2.
    + apply phase_message; cbn; done || lia.
    + apply phase_done; cbn; done || lia.
  - assert (sent s = l + 1) as El by lia. rewrite El, asks_next_ack in E by done.
    rewrite Z.add_simpl_r, asks_ack, (proj2 (Z.leb_le _ _)) in E by (done || lia).
    injection E as E1 E2. rewrite E2. apply phase_message; cbn; done || lia.
Qed.

Lemma run_live σ0 n k σ :
  live 0 0 (lo - 1) σ0 -> run σ0 n k σ -> Z.of_nat k <= TIMEOUT_COUNT -> ∃ l, live (Z.of_nat n) (Z.of_nat k) l σ.
Proof.
  intros H0 H. induction H as [|n k σ σ' _ IH Hs|n k σ σ' _ IH Hs|n k σ σ' _ IH Hs|n k σ σ' _ IH Hc Hv Hs]; intros Hk.
  - by exists (lo - 1).
  - destruct IH as [l IH]; [done|]. exists (l + 1). rewrite Nat2Z.inj_succ. by eapply live_deliver.
  - destruct IH as [l IH]; [done|]. exists l. rewrite Nat2Z.inj_succ. by eapply live_answer.
  - destruct IH as [l IH]; [lia|]. exists l. rewrite !Nat2Z.inj_succ. by eapply live_lose.
  - destruct IH as [l IH]; [done|]. exists l. rewrite Nat2Z.inj_succ. by eapply live_tick.
Qed.

(** A run that has not succeeded goes on. *)
Lemma live_progress σ0 n k l σ :
  live (Z.of_nat n) (Z.of_nat k) l σ -> Z.of_nat k <= TIMEOUT_COUNT -> run σ0 n k σ ->
  net (client σ) <> NETLOOP_SUCCESS -> ∃ σ', run σ0 (Datatypes.S n) k σ'.
Proof.
  intros [[K1 K2 K3 K4 K5] H2 H3 H4 H5] Hk Hr Hn. destruct σ as [c s cl sv]. cbn in *.
  pose proof (al_range _ _ _ _ _ _ _ _ K1). pose proof (first_range reply).
  assert (l < hi) as Hl. { destruct (al_net _ _ _ _ _ _ _ _ K1) as [_ [_ Hs]]. destruct (decide (l = hi)); [tauto|lia]. }
  inversion H4; cbn in *; subst; [| | |lia].
  - eexists. eapply run_answer; [exact Hr|constructor].
  - destruct (hear_message F reply our port A m0 HB HA l (l + 1) c) as (c1 & o1 & E1 & _); [done|auto|lia|lia|lia|].
    eexists. eapply run_deliver; [exact Hr|]. constructor; [auto|exact E1].
  - destruct (tick_level F reply our port A m0 l c) as (c1 & o1 & E1 & _); [done|auto|].
    eexists. eapply run_tick; [exact Hr|done|done|]. constructor; [auto|exact E1].
Qed.
End liveness.


(** ** A transfer

    Five bytes in blocks of two, from a server that follows the rule and
    repeats its last message when it times out. *)

Definition ex_reply : option (list Z) := Some (text "blksize" ++ [0] ++ text "2" ++ [0]).
Definition ex_file : list Z := [11; 12; 13; 14; 15].

#[export] Instance rfc_server F reply : Server F reply | 10.
Proof.
  refine {| server := Z; idle := first reply - 1; sent s := s; serve := rfc1350 F reply;
            expire s := (s, if decide (first reply <= s) then [message F reply s] else []) |}.
  - done.
  - intros s p. by destruct (rfc1350 F reply s p).
  - done.
  - intros s. cbn. case_decide; auto.
Defined.

Definition ex_args : tftp_args := TftpArgs None None (text "kernel") 0 1024 None.
Definition ex_client : tftp :=
  Tftp 5000 10 0 0 0 0 7 0 0 STATE_SEND_RRQ false false 512 1468 [] 0 4096 0 NETLOOP_CONTINUE
    (list_to_map ((λ i, (4096 + Z.of_nat i, 0)) <$> seq 0 5)).

(** Without losses: the server answers, then the client hears. *)
Definition drive {F reply} {S : Server F reply} (our port : Z) (σ : system F reply) : option (system F reply) :=
  match to_server σ, to_client σ with
  | p :: sv, cl => Some (System (client σ) (serve (srv σ) p).1 (cl ++ (serve (srv σ) p).2) sv)
  | [], p :: cl =>
      if decide (net (client σ) = NETLOOP_CONTINUE) then
        '(c, out) ← TftpHandler p our port (Z.of_nat (length p)) (client σ); Some (System c (srv σ) cl ([] ++ packets out))
      else None
  | [], [] => None
  end.

Fixpoint drive_n {F reply} {S : Server F reply} (our port : Z) (n : nat) (σ : system F reply) : option (system F reply) :=
  match n with
  | O => Some σ
  | Datatypes.S n => σ ← drive_n our port n σ; drive our port σ
  end.

Lemma drive_run F reply `{S : Server F reply} our port n (σ0 σ : system F reply) :
  drive_n our port n σ0 = Some σ -> run F reply our port σ0 n 0 σ.
Proof.
  revert σ. induction n as [|n IH]; intros σ; cbn [drive_n]; [intros [= <-]; constructor|].
  destruct (drive_n our port n σ0) as [[c s cl sv]|]; [|done]. specialize (IH _ eq_refl). cbn.
  unfold drive. cbn. destruct sv as [|p sv].
  - destruct cl as [|p cl]; [done|]. case_decide as Hn; [|done].
    destruct (TftpHandler p our port (Z.of_nat (length p)) c) as [[c' out]|] eqn:E; [|done]. cbn. intros [= <-].
    eapply run_deliver; [exact IH|]. exact (step_deliver our port c c' s p out cl [] Hn E).
  - intros [= <-]. eapply run_answer; [exact IH|]. constructor.
Qed.

Lemma run_any_step F reply `{S : Server F reply} our port σ0 n k (σ : system F reply) :
  run F reply our port σ0 n k σ -> rtc (any_step F reply our port) σ0 σ.
Proof. induction 1; [done|eapply rtc_r; [done|by eexists]..]. Qed.

Definition ex_start : system ex_file ex_reply :=
  match TftpStart ex_args 10 ex_client with
  | Some (c, Some p) => System c idle [] [p]
  | _ => System ex_client idle [] []
  end.

Lemma ex_run : ∃ σ, drive_n 1024 6969 9 ex_start = Some σ /\ net (client σ) = NETLOOP_SUCCESS.
Proof.
  assert ((net ∘ client) <$> drive_n 1024 6969 9 ex_start = Some NETLOOP_SUCCESS) as H by (vm_compute; reflexivity).
  destruct (drive_n 1024 6969 9 ex_start) as [σ|]; [|done]. exists σ. split; [done|]. by injection H.
Qed.

Lemma ex_mapped : mapped (ram ex_client) 4096 5.
Proof.
  intros b Hb. assert (b = 4096 \/ b = 4097 \/ b = 4098 \/ b = 4099 \/ b = 4100) as H by lia.
  destruct H as [->|[->|[->|[->| ->]]]]; by eexists.
Qed.

Lemma ex_blksize : blksize ex_reply = 2.
Proof. by vm_compute. Qed.

Lemma ex_started : ∃ c p, TftpStart ex_args 10 ex_client = Some (c, Some p) /\ ex_start = System c idle [] [p].
Proof.
  unfold ex_start. assert (is_Some (TftpStart ex_args 10 ex_client ≫= snd)) as [p H] by (by eexists).
  destruct (TftpStart ex_args 10 ex_client) as [[c [p'|]]|]; [|done..]. by eexists _, _.
Qed.


