(* ===== verification/TftpPut.v ===== *)
(** * TFTP uploads

    [CONFIG_CMD_TFTPPUT]: the client of [Tftp] sends a memory area.  Files of up
    to 65535 blocks go out block by block to a server that answers the request
    with options.  Without options the request is repeated for ever, and past
    65535 blocks the data comes from the wrong place. *)

From S2P Require Import Prelude Mem Ctype Crc Strtoul Vsprintf RkParam Tftp TftpNet.

(** ** Sequences of events *)

Inductive event :=
| Packet (p : list Z) (dest src : Z)
| Timeout.

Definition handle (e : event) (c : tftp) : option (tftp * option (list Z)) :=
  match e with
  | Packet p dest src => TftpHandler p dest src (Z.of_nat (length p)) c
  | Timeout => TftpTimeout c
  end.

(** The client after the events, and what it has sent; the network loop stops
    when the state is no longer [NETLOOP_CONTINUE]. *)
Fixpoint play (es : list event) (c : tftp) : option (tftp * list (list Z)) :=
  match es with
  | [] => Some (c, [])
  | e :: es =>
      if decide (net c = NETLOOP_CONTINUE) then
        '(c, out) ← handle e c; '(c, sent) ← play es c; Some (c, packets out ++ sent)
      else Some (c, [])
  end.

Lemma play_app es1 es2 c c1 s1 :
  play es1 c = Some (c1, s1) -> net c1 = NETLOOP_CONTINUE ->
  play (es1 ++ es2) c = '(c2, s2) ← play es2 c1; Some (c2, s1 ++ s2).
Proof.
  revert c c1 s1. induction es1 as [|e es1 IH]; intros c c1 s1; cbn [play app].
  { intros [= <- <-] _. by destruct (play es2 c) as [[? ?]|]. }
  case_decide as Hn; [|intros [= <- <-]; congruence].
  destruct (handle e c) as [[c' out]|]; [|done]. cbn [mbind option_bind].
  destruct (play es1 c') as [[c2 s2]|] eqn:E; [|done]. cbn [mbind option_bind]. intros [= <- <-] H.
  rewrite (IH _ _ _ E H). destruct (play es2 c2) as [[c3 s3]|]; [|done]. cbn [mbind option_bind]. by rewrite app_assoc.
Qed.

(** ** Blocks *)

Section upload.
Context (F o : list Z) (our port A : Z) (m0 : mem).
#[local] Abbreviation reply := (Some o).
#[local] Abbreviation B := (blksize (Some o)).
#[local] Abbreviation size := (Z.of_nat (length F)).
#[local] Abbreviation hi := (last F (Some o)).
Hypothesis HB : 1 <= B <= 32768.
Hypothesis HA : 0 <= A /\ A + size < 2 ^ 63.
Hypothesis HF : bytes_at m0 A F.

(** Block [n] has been sent. *)
Record sending_block (n : Z) (c : tftp) : Prop := {
  sb_our : TftpOurPort c = our;
  sb_port : TftpRemotePort c = port;
  sb_writing : TftpWriting c = true;
  sb_state : TftpState c = STATE_DATA;
  sb_block : TftpBlock c = n;
  sb_last : TftpLastBlock c = 0;
  sb_wrap : TftpBlockWrapOffset c = 0;
  sb_blksize : TftpBlkSize c = B;
  sb_size : NetBootFileXferSize c = size;
  sb_addr : save_addr c = A;
  sb_ram : ram c = m0;
  sb_net : net c = NETLOOP_CONTINUE
}.

Lemma load_block_file n c :
  sending_block n c -> 1 <= n <= hi -> n <= 65535 -> load_block n B c = Some (block F reply n).
Proof.
  intros [] Hn Hn'. pose proof (block_length F reply HB n Hn) as Hl.
  assert (0 <= (n - 1) * B <= size) as Hs by (split; [nia|]; apply last_bounds; [done|lia]).
  unfold load_block. rewrite sb_wrap0, sb_size0, sb_addr0, sb_ram0, Z.add_0_r. change (2 ^ 63) with 9223372036854775808 in HA.
  rewrite (s32_small n), (u32_small ((n - 1) * B)), (u64_small ((n - 1) * B)), (u64_small (size - _)), u64_small by nia.
  replace (Z.to_nat _) with (length (block F reply n)) by lia.
  apply load_n_spec. intros i Hi. rewrite <-Z.add_assoc. unfold block in *.
  rewrite lookup_take_lt, lookup_drop by (rewrite length_take in Hi; lia).
  rewrite length_take, length_drop in Hi. rewrite <-HF by lia. f_equal. lia.
Qed.

Lemma send_file n c :
  sending_block n c -> 1 <= n <= hi -> n <= 65535 ->
  ∃ c', TftpSend c = Some (c', message F reply n) /\ sending_block n c' /\ TftpFinalBlock c' = bool_decide (n = hi).
Proof.
  intros H Hn Hn'. pose proof (load_block_file n c H Hn Hn') as Hl. unfold TftpSend.
  rewrite (sb_state _ _ H), (sb_writing _ _ H), (sb_block _ _ H), (sb_blksize _ _ H), Hl. cbn [mbind option_bind].
  rewrite message_block by lia. eexists. split; [done|]. split; [destruct H; by split|]. cbn.
  apply eq_true_iff_eq. rewrite bool_decide_eq_true, Z.ltb_lt. by apply block_short.
Qed.

(** The acknowledgement of block [n] brings block [n + 1]. *)
Lemma next_block n c :
  sending_block n c -> TftpFinalBlock c = false -> 1 <= n < hi -> n < 65535 ->
  ∃ c', handle (Packet (be16 TFTP_ACK ++ be16 n) our port) c = Some (c', Some (message F reply (n + 1))) /\
    sending_block (n + 1) c' /\ TftpFinalBlock c' = bool_decide (n + 1 = hi).
Proof.
  intros H Hf Hn Hn'. cbn [handle]. rewrite hear_from; [|apply H|left; apply H|done].
  unfold dispatch. cbn [Z.eqb Pos.eqb TFTP_ACK]. unfold handle_ack.
  rewrite (sb_writing _ _ H), Hf, (sb_block _ _ H), value16_be16', Z.mod_small, (Z.eqb_refl n), u16_small by lia.
  unfold update_block_number. cbn [TftpBlock TftpLastBlock set_block]. rewrite (sb_last _ _ H), andb_false_r.
  destruct (send_file (n + 1) (set_block (n + 1) c)) as (c' & E & H1 & H2); [destruct H; by split|lia|lia|].
  unfold sending. rewrite E. cbn. eauto.
Qed.

(** The acknowledgement of the last block ends the upload. *)
Lemma final_block n c :
  sending_block n c -> TftpFinalBlock c = true ->
  handle (Packet (be16 TFTP_ACK ++ be16 n) our port) c = Some (tftp_complete c, None).
Proof.
  intros H Hf. cbn [handle]. rewrite hear_from; [|apply H|left; apply H|done].
  unfold dispatch. cbn [Z.eqb Pos.eqb TFTP_ACK]. unfold handle_ack. by rewrite (sb_writing _ _ H), Hf.
Qed.

Definition ack_event (n : nat) : event := Packet (be16 TFTP_ACK ++ be16 (Z.of_nat n)) our port.

Definition data (i : nat) : list Z := message F reply (Z.of_nat i).

Lemma upload_steps k : ∀ n c,
  sending_block (Z.of_nat n) c -> (1 <= n)%nat -> Z.of_nat (n + k) <= hi -> Z.of_nat (n + k) <= 65535 ->
  TftpFinalBlock c = bool_decide (Z.of_nat n = hi) ->
  ∃ c', play (ack_event <$> seq n k) c = Some (c', data <$> seq (Datatypes.S n) k) /\
    sending_block (Z.of_nat (n + k)) c' /\ TftpFinalBlock c' = bool_decide (Z.of_nat (n + k) = hi).
Proof.
  induction k as [|k IH]; intros n c H Hn Ek Ek' Hf; [exists c; by rewrite Nat.add_0_r|].
  rewrite <-(cons_seq k n), fmap_cons. unfold play; fold play. rewrite decide_True by apply H.
  rewrite bool_decide_false in Hf by lia.
  destruct (next_block (Z.of_nat n) c H Hf) as (c' & E & H1 & H2); [lia|lia|].
  rewrite (E : handle (ack_event n) c = _). cbn [mbind option_bind].
  replace (Z.of_nat n + 1) with (Z.of_nat (Datatypes.S n)) in * by lia.
  destruct (IH (Datatypes.S n) c' H1) as (c2 & E2 & H3); [lia|lia|lia|done|].
  rewrite E2. replace (n + Datatypes.S k)%nat with (Datatypes.S n + k)%nat by lia. cbn [mbind option_bind]. by eexists.
Qed.

(** The options bring the first block. *)
Lemma options_event a m c0 c req :
  a_put a = Some (A, size) -> a_port a = our -> ram c0 = m0 -> TftpStart a m c0 = Some (c, req) ->
  net c = NETLOOP_CONTINUE /\
  ∃ c', handle (Packet (be16 TFTP_OACK ++ o) our port) c = Some (c', Some (message F reply 1)) /\
    sending_block 1 c' /\ TftpFinalBlock c' = bool_decide (1 = hi).
Proof.
  intros Hput <- Hm E. unfold TftpStart in E. rewrite Hput in E. cbn in E. injection E as <- <-. split; [done|].
  cbn [handle]. rewrite hear_from; [|done|by right|done]. unfold dispatch. cbn [Z.eqb Pos.eqb TFTP_ACK TFTP_OACK].
  unfold handle_oack. cbn [TftpWriting set_blksize set_state].
  match goal with |- context [sending ?d] => destruct (send_file 1 d) as (c' & E & H1 & H2) end.
  - by split.
  - pose proof (last_bounds F reply HB 0). lia.
  - lia.
  - unfold sending. rewrite E. cbn. eauto.
Qed.

(** The options and the acknowledgements of [n] blocks. *)
Definition answers (n : nat) : list event := Packet (be16 TFTP_OACK ++ o) our port :: (ack_event <$> seq 1 n).

Lemma upload_run n a m c0 c req :
  a_put a = Some (A, size) -> a_port a = our -> ram c0 = m0 -> TftpStart a m c0 = Some (c, req) ->
  Z.of_nat (Datatypes.S n) <= hi -> Z.of_nat (Datatypes.S n) <= 65535 ->
  ∃ c', play (answers n) c = Some (c', data <$> seq 1 (Datatypes.S n)) /\
    sending_block (Z.of_nat (Datatypes.S n)) c' /\ TftpFinalBlock c' = bool_decide (Z.of_nat (Datatypes.S n) = hi).
Proof.
  intros Hput Hour Hm E Hn Hn'. destruct (options_event a m c0 c req Hput Hour Hm E) as (Hc & c1 & E1 & H1 & H2).
  unfold answers, play; fold play. rewrite decide_True, E1 by done. cbn [mbind option_bind].
  destruct (upload_steps n 1 c1) as (c2 & E2 & H3 & H4); [done|lia|lia|lia|done|].
  rewrite E2. cbn [mbind option_bind]. by eexists.
Qed.

Lemma answers_snoc n : answers (Datatypes.S n) = answers n ++ [ack_event (Datatypes.S n)].
Proof. unfold answers. by rewrite seq_S, fmap_app. Qed.
End upload.


(** Block 0 of an upload is looked for below 4 GiB: [(int)block - 1] times an
    unsigned length is an unsigned product of 32 bits. *)
Lemma load_block_0 b c :
  1 <= b <= 32768 -> TftpBlockWrapOffset c = 0 -> 0 <= NetBootFileXferSize c -> NetBootFileXferSize c + b < 4294967296 ->
  0 <= save_addr c /\ save_addr c + 4294967296 < 9223372036854775808 ->
  load_block 0 b c = load_n (Z.to_nat b) (ram c) (save_addr c + 4294967296 - b).
Proof.
  intros Hb Hw H0 Hs HA. unfold load_block. rewrite Hw, Z.add_0_r. change (s32 0) with 0.
  replace (u32 ((0 - 1) * b)) with (4294967296 - b).
  2:{ unfold u32, wrap. apply Z.mod_unique with (-1); lia. }
  rewrite (u64_small (4294967296 - b)) by lia.
  replace (u64 (NetBootFileXferSize c - (4294967296 - b)))
    with (18446744073709551616 + (NetBootFileXferSize c - (4294967296 - b))).
  2:{ unfold u64, wrap. apply Z.mod_unique with (-1); lia. }
  rewrite Z.min_r, u64_small by lia. do 2 f_equal. lia.
Qed.

(** An upload of more than 65535 blocks goes wrong: when block 65535 has
    been acknowledged the wrap is not counted ([TftpLastBlock] is never set in
    an upload), and the next packet, numbered 0, carries memory from just
    below 4 GiB above the area instead of block 65536, or the access
    faults. *)
Theorem tftpput_wraps F o port A a m c0 c req n :
  1 <= blksize (Some o) <= 32768 -> 0 <= A /\ A + 2 ^ 32 < 2 ^ 63 ->
  Z.of_nat (length F) + blksize (Some o) < 2 ^ 32 -> 65535 < last F (Some o) -> Z.of_nat n = 65535 ->
  a_put a = Some (A, Z.of_nat (length F)) -> bytes_at (ram c0) A F -> TftpStart a m c0 = Some (c, req) ->
  match load_n (Z.to_nat (blksize (Some o))) (ram c0) (A + 2 ^ 32 - blksize (Some o)) with
  | Some l => ∃ c', play (answers o (a_port a) port n) c =
                Some (c', (data F o <$> seq 1 n) ++ [be16 TFTP_DATA ++ be16 0 ++ l])
  | None => play (answers o (a_port a) port n) c = None
  end.
Proof.
  intros HB HA Hsz Hhi Hn Hput Hb E. destruct n as [|n]; [lia|].
  change (2 ^ 32) with 4294967296 in *. change (2 ^ 63) with 9223372036854775808 in HA.
  destruct (upload_run F o (a_port a) port A (ram c0) HB ltac:(change (2 ^ 63) with 9223372036854775808; lia) Hb n a m c0 c req)
    as (c1 & E1 & H1 & H2); try done; try lia.
  rewrite answers_snoc. erewrite play_app; [|exact E1|apply H1].
  unfold play. rewrite decide_True by apply H1. rewrite bool_decide_false in H2 by lia.
  unfold ack_event, handle. rewrite Hn in *. destruct H1.
  rewrite hear_from; [|done|by left|done]. unfold dispatch. cbn [Z.eqb Pos.eqb TFTP_ACK]. unfold handle_ack.
  rewrite sb_writing0, H2, sb_block0, value16_be16'. change (65535 mod 65536) with 65535. change (u16 (65535 + 1)) with 0.
  cbn [Z.eqb Pos.eqb]. unfold update_block_number. cbn [TftpBlock TftpLastBlock set_block]. rewrite sb_last0. cbn [Z.eqb negb andb].
  unfold sending, TftpSend. cbn [TftpState TftpWriting TftpBlock TftpBlkSize set_block].
  rewrite sb_state0, sb_writing0, sb_blksize0.
  assert (load_block 0 (blksize (Some o)) (set_block 0 c1) =
    load_n (Z.to_nat (blksize (Some o))) (ram c0) (A + 4294967296 - blksize (Some o))) as ->.
  { rewrite load_block_0; cbn; rewrite ?sb_wrap0, ?sb_size0, ?sb_addr0, ?sb_ram0; done || lia. }
  destruct (load_n _ _ _) as [l|]; [|done]. cbn [mbind option_bind packets app]. by eexists.
Qed.

(** ** A server without options *)

Definition has_options (e : event) : Prop :=
  match e with
  | Packet p _ _ => value16 p = TFTP_OACK \/ value16 p = TFTP_DATA
  | Timeout => False
  end.

(** The request has been sent, and nothing else. *)
Record requesting (req : list Z) (c : tftp) : Prop := {
  rq_state : TftpState c = STATE_SEND_WRQ;
  rq_writing : TftpWriting c = true;
  rq_final : TftpFinalBlock c = false;
  rq_send : TftpSend c = Some (c, req);
  rq_net : net c <> NETLOOP_SUCCESS
}.

Lemma requesting_set req c c' :
  requesting req c -> TftpState c' = TftpState c -> TftpWriting c' = TftpWriting c -> TftpFinalBlock c' = TftpFinalBlock c ->
  net c' <> NETLOOP_SUCCESS -> tftp_filename c' = tftp_filename c -> TftpTimeoutMSecs c' = TftpTimeoutMSecs c ->
  TftpBlkSizeOption c' = TftpBlkSizeOption c -> requesting req c'.
Proof.
  intros [E1 E2 E3 E4 E5] H1 H2 H3 H4 H5 H6 H7. split; try congruence.
  unfold TftpSend in *. rewrite E1 in E4. rewrite H1, H5, H6, H7, E1. injection E4 as <-. done.
Qed.

Lemma requesting_count req v c : requesting req c -> requesting req (update_block_number (set_block v c)).
Proof. intros H. unfold update_block_number. case_match; (eapply (requesting_set _ c); [exact H|done|done|done|apply H|done|done|done]). Qed.

Lemma requesting_restart req c : requesting req c -> requesting req (restart c).
Proof. intros H. by eapply requesting_set. Qed.

(** A step that goes on asking. *)
Definition asking (req : list Z) (r : option (tftp * option (list Z))) : Prop :=
  ∃ c out, r = Some (c, out) /\ requesting req c /\ Forall (eq req) (packets out).

Lemma asking_silent req c : requesting req c -> asking req (Some (c, None)).
Proof. intros H. exists c, None. split; [done|]. split; [done|constructor]. Qed.

Lemma asking_sending req c : requesting req c -> asking req (sending c).
Proof.
  intros H. unfold sending. rewrite (rq_send _ _ H). exists c, (Some req). split; [done|]. split; [done|].
  by repeat constructor.
Qed.

#[local] Hint Resolve requesting_count requesting_restart asking_silent asking_sending : core.

Lemma requesting_handle req e c : requesting req c -> ~ has_options e -> asking req (handle e c).
Proof.
  intros H He. destruct e as [p dest src|]; cbn [handle has_options] in *.
  - unfold TftpHandler. rewrite (rq_state _ _ H), andb_false_r. case_match; [auto|]. case_match; [auto|].
    destruct (Z.eqb_spec (value16 p) TFTP_ACK).
    { unfold handle_ack. rewrite (rq_writing _ _ H), (rq_final _ _ H). case_match; auto. }
    destruct (Z.eqb_spec (value16 p) TFTP_OACK); [tauto|]. destruct (Z.eqb_spec (value16 p) TFTP_DATA); [tauto|].
    case_match; [|auto]. apply asking_silent. unfold handle_error. case_match; [|auto].
    by eapply requesting_set.
  - unfold TftpTimeout. assert (requesting req (set_timeout_count (TftpTimeoutCount c + 1) c)) as H1.
    { eapply (requesting_set _ c); [exact H|done|done|done|apply H|done|done|done]. }
    case_match; [auto|]. case_decide; auto.
Qed.

(** An upload to a server that does not know options, and so answers the
    request with an acknowledgement (RFC 1350), never starts: whatever
    acknowledgements, errors and timeouts come, and in whatever order, every
    packet that the client sends is the request again, and it never reports
    success. *)
Theorem tftpput_asks_forever A size a m c0 c req es :
  a_put a = Some (A, size) -> TftpStart a m c0 = Some (c, Some req) -> Forall (λ e, ~ has_options e) es ->
  ∃ c' sent, play es c = Some (c', sent) /\ Forall (eq req) sent /\ net c' <> NETLOOP_SUCCESS.
Proof.
  intros Hput E Hes. assert (requesting req c) as H.
  { unfold TftpStart in E. rewrite Hput in E. cbn in E. injection E as <- <-. by split. }
  clear E. revert c H. induction Hes as [|e es He _ IH]; intros c H; cbn [play].
  { exists c, []. split; [done|]. split; [constructor|apply H]. }
  case_decide. 2:{ exists c, []. split; [done|]. split; [constructor|apply H]. }
  destruct (requesting_handle req e c H He) as (c1 & out & -> & H1 & H2). cbn [mbind option_bind].
  destruct (IH c1 H1) as (c2 & sent & -> & H3 & H4). cbn [mbind option_bind].
  exists c2, (packets out ++ sent). split; [done|]. split; [by apply Forall_app|done].
Qed.

(** ** Uploads *)

Definition put_options (size : String.string) : list Z := text "blksize" ++ [0] ++ text size ++ [0].
Definition put_client (m : mem) : tftp :=
  Tftp 5000 10 0 0 0 0 7 0 0 STATE_SEND_RRQ false false 512 1468 [] 0 0 4096 NETLOOP_CONTINUE m.
Definition put_args (n : nat) : tftp_args := TftpArgs None None (text "log") 0 1024 (Some (4096, Z.of_nat n)).

Lemma put_started n m :
  ∃ c req, TftpStart (put_args n) 10 (put_client m) = Some (c, Some req).
Proof. by eexists _, _. Qed.


Lemma put_blksize_1 : blksize (Some (put_options "1")) = 1.
Proof. vm_compute. reflexivity. Qed.

(** 65536 blocks of one byte *)
Lemma tftpput_wraps_witness :
  ∃ n c req, Z.of_nat n = 65535 /\ TftpStart (put_args (n + 1)) 10 (put_client (area (n + 1) 9 4096)) = Some (c, Some req) /\
    play (answers (put_options "1") 1024 6969 n) c = None.
Proof.
  assert (∃ n, Z.of_nat n = 65535) as [n Hn]. { exists (Z.to_nat 65535). apply Z2Nat.id. lia. }
  destruct (put_started (n + 1) (area (n + 1) 9 4096)) as (c & req & E). exists n, c, req. split; [done|]. split; [done|].
  assert (last (replicate (n + 1) 9) (Some (put_options "1")) = 65537) as Hl.
  { unfold last. rewrite put_blksize_1, length_replicate, Z.div_1_r. lia. }
  pose proof (tftpput_wraps (replicate (n + 1) 9) (put_options "1") 6969 4096 (put_args (n + 1)) 10
    (put_client (area (n + 1) 9 4096)) c (Some req) n) as H.
  rewrite put_blksize_1, Hl, length_replicate in H. change (load_n (Z.to_nat 1)) with (load_n 1) in H. cbn [load_n] in H.
  change (ram (put_client (area (n + 1) 9 4096))) with (area (n + 1) 9 4096) in H.
  rewrite area_lookup, decide_False in H by lia. cbn [mbind option_bind] in H.
  apply H; [lia|lia|lia|lia|done|reflexivity|apply area_bytes|exact E].
Defined.

Lemma tftpput_asks_forever_witness :
  ∃ c req c' sent, TftpStart (put_args 5) 10 (put_client ∅) = Some (c, Some req) /\
    play [Packet (be16 TFTP_ACK ++ be16 0) 1024 6969; Timeout; Packet (be16 TFTP_ACK ++ be16 0) 1024 6970] c = Some (c', sent) /\
    Forall (eq req) sent /\ net c' <> NETLOOP_SUCCESS.
Proof.
  destruct (put_started 5 ∅) as (c & req & E). exists c, req.
  destruct (tftpput_asks_forever 4096 5 (put_args 5) 10 (put_client ∅) c req
    [Packet (be16 TFTP_ACK ++ be16 0) 1024 6969; Timeout; Packet (be16 TFTP_ACK ++ be16 0) 1024 6970])
    as (c' & sent & H); [reflexivity|exact E| |by exists c', sent].
  repeat constructor; cbn; unfold TFTP_OACK, TFTP_DATA; intuition discriminate.
Defined.
