(* ===== verification/Image.v ===== *)
(** * Images with a legacy header, the ramdisk, and memory for the kernel

    [common/image.c] and the accessors of [include/image.h], configured as the
    board is: legacy images, no FIT, no Android images, no data flash, no raw
    ramdisks, [CONFIG_SYS_BOOT_RAMDISK_HIGH].  Headers and data are in memory;
    the fields are big-endian. *)

From S2P Require Import Prelude Lmb Mem Ctype Cstring Crc Strtoul Vsprintf RkParam Bytes Fdt.

(** ** The header *)

Definition IH_MAGIC : Z := 0x27051956.
Definition IH_OS_LINUX : Z := 5.
Definition IH_TYPE_RAMDISK : Z := 3.
Definition IH_TYPE_MULTI : Z := 4.
Definition IH_TYPE_FLATDT : Z := 8.
Definition IH_COMP_NONE : Z := 0.
Definition CHUNKSZ_CRC32 : nat := 64 * 1024.

Definition image_get_header_size : Z := 64.

(** [image_get_hdr_l] and [image_get_hdr_b]: a field of four bytes or one *)
Definition get_l (m : mem) (a : Z) : option Z := b ← load_n 4 m a; Some (be32 b).
Definition get_b (m : mem) (a : Z) : option Z := m !! a.

Definition image_get_magic (m : mem) (hdr : Z) : option Z := get_l m hdr.
Definition image_get_hcrc (m : mem) (hdr : Z) : option Z := get_l m (hdr + 4).
Definition image_get_size (m : mem) (hdr : Z) : option Z := get_l m (hdr + 12).
Definition image_get_load (m : mem) (hdr : Z) : option Z := get_l m (hdr + 16).
Definition image_get_ep (m : mem) (hdr : Z) : option Z := get_l m (hdr + 20).
Definition image_get_dcrc (m : mem) (hdr : Z) : option Z := get_l m (hdr + 24).
Definition image_get_os (m : mem) (hdr : Z) : option Z := get_b m (hdr + 28).
Definition image_get_arch (m : mem) (hdr : Z) : option Z := get_b m (hdr + 29).
Definition image_get_type (m : mem) (hdr : Z) : option Z := get_b m (hdr + 30).
Definition image_get_comp (m : mem) (hdr : Z) : option Z := get_b m (hdr + 31).

Definition image_get_data_size := image_get_size.
Definition image_get_data (hdr : Z) : Z := u64 (hdr + image_get_header_size).
Definition image_get_image_size (m : mem) (hdr : Z) : option Z :=
  size ← image_get_size m hdr; Some (u32 (size + image_get_header_size)).
Definition image_get_image_end (m : mem) (hdr : Z) : option Z :=
  size ← image_get_image_size m hdr; Some (u64 (hdr + size)).

Definition image_check_magic (m : mem) (hdr : Z) : option bool := v ← image_get_magic m hdr; Some (v =? IH_MAGIC).
Definition image_check_type (m : mem) (hdr type : Z) : option bool := v ← image_get_type m hdr; Some (v =? type).
Definition image_check_arch (m : mem) (hdr arch : Z) : option bool := v ← image_get_arch m hdr; Some (v =? arch).
Definition image_check_os (m : mem) (hdr os : Z) : option bool := v ← image_get_os m hdr; Some (v =? os).

(** [image_set_hcrc] on the copy, which is a local variable and so aligned. *)
Definition image_check_hcrc (m : mem) (hdr : Z) : option bool :=
  b ← load_n 64 m hdr;
  let header := take 4 b ++ be_bytes4 0 ++ drop 8 b in
  hcrc ← image_get_hcrc m hdr;
  Some (crc32 0 0 header =? hcrc).

Definition image_check_dcrc (m : mem) (hdr : Z) : option bool :=
  let data := image_get_data hdr in
  len ← image_get_data_size m hdr;
  buf ← load_n (Z.to_nat len) m data;
  dcrc ← crc32_wd (S (length buf)) data 0 buf CHUNKSZ_CRC32;
  v ← image_get_dcrc m hdr;
  Some (dcrc =? v).

(** ** Images with several components *)

(** The table of sizes ends with a zero word. *)
Fixpoint count_loop (fuel : nat) (m : mem) (size i : Z) : option Z :=
  match fuel with
  | O => None
  | S fuel => v ← get_l m (size + 4 * i); if v =? 0 then Some i else count_loop fuel m size (i + 1)
  end.

Definition image_multi_count (m : mem) (hdr : Z) : option Z := count_loop (S (base.size m)) m (image_get_data hdr) 0.

Fixpoint offset_loop (n : nat) (m : mem) (size i offset : Z) : option Z :=
  match n with
  | O => Some offset
  | S n => v ← get_l m (size + 4 * i); offset_loop n m size (i + 1) (u64 (offset + (u32 (v + 3) .& u32 (Z.lnot 3))))
  end.

(** [*data] and [*len] *)
Definition image_multi_getimg (m : mem) (hdr idx : Z) : option (Z * Z) :=
  count ← image_multi_count m hdr;
  let size := image_get_data hdr in
  let img_data := u64 (image_get_data hdr + (count + 1) * 4) in
  if idx <? count then
    len ← get_l m (size + 4 * idx);
    offset ← offset_loop (Z.to_nat idx) m size 0 0;
    Some (u64 (img_data + offset), len)
  else Some (0, 0).

(** ** Finding a ramdisk *)

(** The memory from [a] to the next address that is not mapped. *)
Fixpoint mem_from (n : nat) (m : mem) (a : Z) : list Z :=
  match n with
  | O => []
  | S n => match m !! a with Some c => c :: mem_from n m (a + 1) | None => [] end
  end.
Definition blob_at (m : mem) (a : Z) : list Z := mem_from (base.size m) m a.

Definition IMAGE_FORMAT_INVALID : Z := 0.
Definition IMAGE_FORMAT_LEGACY : Z := 1.
Definition IMAGE_FORMAT_FIT : Z := 2.

Definition genimg_get_format (m : mem) (img_addr : Z) : option Z :=
  magic ← image_check_magic m img_addr;
  if magic : bool then Some IMAGE_FORMAT_LEGACY
  else
    err ← fdt_check_header (blob_at m img_addr);
    if err =? 0 then Some IMAGE_FORMAT_FIT else Some IMAGE_FORMAT_INVALID.

(** [false] is NULL. *)
Definition image_get_ramdisk (m : mem) (rd_addr arch : Z) (verify : bool) : option bool :=
  magic ← image_check_magic m rd_addr;
  if negb magic then Some false
  else
    hcrc ← image_check_hcrc m rd_addr;
    if negb hcrc then Some false
    else
      dcrc ← (if verify then image_check_dcrc m rd_addr else Some true);
      if negb dcrc then Some false
      else
        os ← image_check_os m rd_addr IH_OS_LINUX;
        ar ← image_check_arch m rd_addr arch;
        ty ← image_check_type m rd_addr IH_TYPE_RAMDISK;
        Some (os && ar && ty).

(** The fields of [bootm_headers_t] that are read here; the copy of the header
    is its bytes. *)
Record bootm_headers := Headers {
  legacy_hdr_os : Z;
  legacy_hdr_os_copy : list Z;
  legacy_hdr_valid : bool;
  verify : bool
}.

Definition copy_is_multi (images : bootm_headers) : option bool :=
  v ← legacy_hdr_os_copy images !! 30%nat; Some (v =? IH_TYPE_MULTI).

(** The result, [*rd_start] and [*rd_end]. *)
Definition boot_get_ramdisk (m : mem) (select : option (list Z)) (images : bootm_headers) (arch : Z) : option (Z * Z * Z) :=
  let found (rd_data rd_len : Z) := if rd_data =? 0 then (0, 0, 0) else (0, rd_data, u64 (rd_data + rd_len)) in
  match select with
  | Some s =>
      if bool_decide (s = text "-") then Some (found 0 0)
      else
        let rd_addr := u64 (simple_strtoul s 16).1 in
        format ← genimg_get_format m rd_addr;
        if format =? IMAGE_FORMAT_LEGACY then
          ok ← image_get_ramdisk m rd_addr arch (verify images);
          if negb ok then Some (1, 0, 0)
          else len ← image_get_data_size m rd_addr; Some (found (image_get_data rd_addr) len)
        else Some (1, 0, 0)
  | None =>
      multi ← (if legacy_hdr_valid images then copy_is_multi images else Some false);
      if multi : bool then '(rd_data, rd_len) ← image_multi_getimg m (legacy_hdr_os images) 1; Some (found rd_data rd_len)
      else Some (found 0 0)
  end.

(** ** Memory for the kernel *)

(** The variables of the environment and the board's RAM that are asked for. *)
Record boot_env := BootEnv {
  initrd_high : option (list Z);
  fdt_high : option (list Z);
  bootm_low : option (list Z);
  bootm_size : option (list Z);
  bootm_mapsize : option (list Z);
  CONFIG_SYS_SDRAM_BASE : Z;
  bi_dram0_size : Z
}.

Definition hex (s : list Z) : Z := u64 (simple_strtoul s 16).1.

Definition getenv_bootm_low (e : boot_env) : Z :=
  match bootm_low e with Some s => hex s | None => CONFIG_SYS_SDRAM_BASE e end.

Definition getenv_bootm_size (e : boot_env) : Z :=
  match bootm_size e with
  | Some s => hex s
  | None => u64 (bi_dram0_size e - match bootm_low e with Some s => hex s | None => 0 end)
  end.

Definition getenv_bootm_mapsize (e : boot_env) : Z :=
  match bootm_mapsize e with Some s => hex s | None => getenv_bootm_size e end.

Definition memmove_wd (m : mem) (to from : Z) (len : nat) : option mem :=
  if to =? from then Some m else '(m, _) ← memmove m to from len; Some m.

(** The result, [*initrd_start], [*initrd_end], the table and the memory; a
    failed allocation leaves 0 in [*initrd_start] and does not write
    [*initrd_end], for which 0 is given here.  The constant [~0] is an [int] that
    becomes an [unsigned long]. *)
Definition boot_ramdisk_high (e : boot_env) (l : lmb) (rd_data rd_len : Z) (m : mem) : option (Z * Z * Z * lmb * mem) :=
  let high := match initrd_high e with Some s => hex s | None => 2 ^ 64 - 1 end in
  let copy_to_ram := match initrd_high e with Some s => negb (hex s =? 2 ^ 64 - 1) | None => true end in
  if rd_data =? 0 then Some (0, 0, 0, l, m)
  else if negb copy_to_ram then
    '(_, l) ← lmb_reserve l rd_data rd_len; Some (0, rd_data, u64 (rd_data + rd_len), l, m)
  else
    '(start, l) ← (if high =? 0 then lmb_alloc l rd_len 0x1000 else lmb_alloc_base l rd_len 0x1000 high);
    if start =? 0 then Some (-1, 0, 0, l, m)
    else
      m ← memmove_wd m start rd_data (Z.to_nat rd_len);
      Some (0, start, u64 (start + rd_len), l, m).

(** ** Moving the ramdisk *)

(** The banks of the table are mapped. *)
Definition banks_mapped (m : mem) (lm : list lmb_property) : Prop := ∀ p, p ∈ lm -> mapped m (Lmb.base p) (size p).

Lemma granted_mapped m lm lr res res' sz k max a :
  banks_mapped m lm -> granted lm lr res res' sz k max a -> mapped m a sz.
Proof.
  intros Hm H. destruct (gr_bank _ _ _ _ _ _ _ _ H) as (p & Hp & H1 & H2). intros b Hb.
  apply (Hm p Hp). unfold prop_end in H2. lia.
Qed.

Lemma memmove_wd_spec m to from l :
  bytes_at m from l -> mapped m to (Z.of_nat (length l)) ->
  ∃ m', memmove_wd m to from (length l) = Some m' /\ bytes_at m' to l /\ same_outside m m' to (Z.of_nat (length l)).
Proof.
  intros Hf Ht. unfold memmove_wd. destruct (Z.eqb_spec to from) as [->|Hne]; [by exists m|].
  destruct (memmove_correct m to from l Hf Ht) as (m' & -> & H1 & H2). by exists m'.
Qed.

(** The limit that is asked for; 0 is no limit. *)
Definition ramdisk_limit (e : boot_env) : Z := match initrd_high e with Some s => hex s | None => 2 ^ 64 - 1 end.


(** ** Components *)

Definition align4 (n : Z) : Z := (n + 3) / 4 * 4.

(** The sizes, the zero, and the components, all but the last padded to words. *)
Fixpoint components (cs : list (list Z)) : list Z :=
  match cs with
  | [] => []
  | [c] => c
  | c :: cs => c ++ replicate (Z.to_nat (align4 (Z.of_nat (length c)) - Z.of_nat (length c))) 0 ++ components cs
  end.
Definition sizes (cs : list (list Z)) : list Z := (λ c, Z.of_nat (length c)) <$> cs.
Definition words (ws : list Z) : list Z := concat (be_bytes4 <$> ws).
Definition multi_image (cs : list (list Z)) : list Z := words (sizes cs ++ [0]) ++ components cs.

Lemma words_length ws : length (words ws) = (4 * length ws)%nat.
Proof. unfold words. induction ws as [|w ws IH]; [done|]. rewrite fmap_cons. cbn [concat length]. rewrite length_app, IH. cbn. lia. Qed.

Lemma get_l_words m a ws rest i w :
  bytes_at m a (words ws ++ rest) -> ws !! i = Some w -> word w -> get_l m (a + 4 * Z.of_nat i) = Some w.
Proof.
  intros H Hi Hw. apply bytes_at_app in H as [H _]. rewrite <-(take_drop_middle ws i w Hi) in H.
  unfold words in H. rewrite fmap_app, concat_app, fmap_cons in H. cbn [concat] in H.
  apply bytes_at_app in H as [_ H]. apply bytes_at_app in H as [H _].
  change (concat (be_bytes4 <$> take i ws)) with (words (take i ws)) in H.
  rewrite words_length, length_take, Nat.min_l in H by (apply lookup_lt_Some in Hi; lia).
  unfold get_l. destruct (be_bytes4_spec w Hw) as (_ & Hl & Hv).
  replace (a + 4 * Z.of_nat i) with (a + Z.of_nat (4 * i)) by lia.
  rewrite <-Hl at 1. rewrite (load_n_spec _ _ _ H). cbn [mbind option_bind]. by rewrite Hv.
Qed.

Lemma u32_align4 v : 0 <= v -> v + 3 < 2 ^ 32 -> u32 (v + 3) .& u32 (Z.lnot 3) = align4 v.
Proof.
  intros H0 H. change (2 ^ 32) with 4294967296 in H. rewrite u32_small by lia. unfold align4.
  assert ((v + 3) .& u32 (Z.lnot 3) = Z.ldiff (v + 3) (Z.ones 2)) as ->.
  { apply Z.bits_inj'. intros i Hi. rewrite Z.land_spec, Z.ldiff_spec. unfold u32. rewrite wrap_testbit by lia.
    rewrite Z.lnot_spec by lia. change 3 with (Z.ones 2) at 2. destruct (Z.ltb_spec i 32); [done|].
    rewrite <-(wrap_small 32 (v + 3)) by (unfold in_word; lia). rewrite wrap_testbit by lia.
    by rewrite (proj2 (Z.ltb_ge i 32)) by lia. }
  rewrite Z.ldiff_ones_r by lia. rewrite Z.shiftr_div_pow2, Z.shiftl_mul_pow2 by lia. done.
Qed.

Lemma align4_bounds n : n <= align4 n <= n + 3.
Proof. unfold align4. Z.to_euclidean_division_equations. lia. Qed.

(** Where component [i] begins. *)
Fixpoint offset_of (i : nat) (cs : list (list Z)) : Z :=
  match i, cs with
  | S i, c :: cs => align4 (Z.of_nat (length c)) + offset_of i cs
  | _, _ => 0
  end.

Lemma components_cons c d cs :
  components (c :: d :: cs) =
  c ++ replicate (Z.to_nat (align4 (Z.of_nat (length c)) - Z.of_nat (length c))) 0 ++ components (d :: cs).
Proof. done. Qed.

Lemma components_at m a cs i c :
  bytes_at m a (components cs) -> cs !! i = Some c -> bytes_at m (a + offset_of i cs) c.
Proof.
  revert a i. induction cs as [|d cs IH]; intros a i H Hi; [done|].
  destruct i as [|i]; cbn [offset_of].
  - injection Hi as ->. rewrite Z.add_0_r. destruct cs; [done|]. cbn [components] in H. by apply bytes_at_app in H as [H _].
  - destruct cs as [|d' cs]; [done|]. rewrite components_cons in H.
    apply bytes_at_app in H as [_ H]. apply bytes_at_app in H as [_ H]. rewrite length_replicate in H.
    apply (IH _ i) in H; [|done]. pose proof (align4_bounds (Z.of_nat (length d))).
    replace (a + (align4 (Z.of_nat (length d)) + offset_of i (d' :: cs)))
      with (a + Z.of_nat (length d) + Z.of_nat (Z.to_nat (align4 (Z.of_nat (length d)) - Z.of_nat (length d))) + offset_of i (d' :: cs)) by lia.
    done.
Qed.

Lemma offset_of_S i cs c : cs !! i = Some c -> offset_of (S i) cs = offset_of i cs + align4 (Z.of_nat (length c)).
Proof.
  revert i. induction cs as [|d cs IH]; intros i Hi; [done|]. destruct i as [|i].
  - injection Hi as ->. cbn. by destruct cs; lia.
  - cbn [offset_of] in *. cbn [lookup list_lookup] in Hi. rewrite (IH i Hi). lia.
Qed.

Lemma offset_of_bound i cs c : cs !! i = Some c -> 0 <= offset_of i cs <= Z.of_nat (length (components cs)).
Proof.
  revert i. induction cs as [|d cs IH]; intros i Hi; [done|]. destruct i as [|i]; cbn [offset_of]; [lia|].
  destruct cs as [|d' cs]; [done|]. rewrite components_cons, !length_app, length_replicate.
  cbn [lookup list_lookup] in Hi. specialize (IH i Hi). pose proof (align4_bounds (Z.of_nat (length d))). lia.
Qed.

Section multi.
Context (m : mem) (a : Z) (cs : list (list Z)).
Hypothesis Hm : bytes_at m a (multi_image cs).
Hypothesis Hcs : Forall (λ c, 0 < Z.of_nat (length c) /\ Z.of_nat (length c) + 3 < 2 ^ 32) cs.

Lemma size_word i c : cs !! i = Some c -> get_l m (a + 4 * Z.of_nat i) = Some (Z.of_nat (length c)).
Proof.
  intros Hi. eapply get_l_words; [exact Hm| |].
  - rewrite lookup_app_l; [|unfold sizes; rewrite length_fmap; by eapply lookup_lt_Some].
    unfold sizes. rewrite list_lookup_fmap, Hi. done.
  - pose proof (Forall_lookup_1 _ _ _ _ Hcs Hi) as H. unfold word. cbn in H. lia.
Qed.

Lemma size_end : get_l m (a + 4 * Z.of_nat (length cs)) = Some 0.
Proof.
  eapply get_l_words; [exact Hm| |unfold word; lia].
  rewrite lookup_app_r by (unfold sizes; rewrite length_fmap; lia). unfold sizes. by rewrite length_fmap, Nat.sub_diag.
Qed.

Lemma count_loop_spec fuel i :
  (i <= length cs)%nat -> (length cs < i + fuel)%nat -> count_loop fuel m a (Z.of_nat i) = Some (Z.of_nat (length cs)).
Proof.
  revert i. induction fuel as [|fuel IH]; intros i Hi Hf; [lia|]. cbn [count_loop].
  destruct (decide (i = length cs)) as [->|Hne]; [by rewrite size_end|].
  destruct (lookup_lt_is_Some_2 cs i) as [c Hc]; [lia|]. rewrite (size_word i c Hc). cbn [mbind option_bind].
  pose proof (Forall_lookup_1 _ _ _ _ Hcs Hc) as [H0 _]. rewrite (proj2 (Z.eqb_neq _ _)) by lia.
  replace (Z.of_nat i + 1) with (Z.of_nat (S i)) by lia. apply IH; lia.
Qed.

Lemma offset_loop_spec n i :
  (i + n < length cs)%nat -> Z.of_nat (length (components cs)) < 2 ^ 64 ->
  offset_loop n m a (Z.of_nat i) (offset_of i cs) = Some (offset_of (i + n) cs).
Proof.
  revert i. induction n as [|n IH]; intros i Hi Hl; cbn [offset_loop]; [by rewrite Nat.add_0_r|].
  destruct (lookup_lt_is_Some_2 cs i) as [c Hc]; [lia|]. rewrite (size_word i c Hc). cbn [mbind option_bind].
  pose proof (Forall_lookup_1 _ _ _ _ Hcs Hc) as [H0 H1]. rewrite u32_align4 by lia. rewrite <-(offset_of_S i cs c Hc).
  destruct (lookup_lt_is_Some_2 cs (S i)) as [c' Hc']; [lia|]. pose proof (offset_of_bound _ _ _ Hc').
  change (2 ^ 64) with 18446744073709551616 in Hl. rewrite u64_small by lia.
  replace (Z.of_nat i + 1) with (Z.of_nat (S i)) by lia. rewrite IH by (done || lia). f_equal. f_equal. lia.
Qed.
End multi.

(** The components of an image with several of them: for an image that is
    laid out as [include/image.h] describes, [image_multi_getimg] gives address
    and length of exactly the requested component, and zeros when there is no
    such component. *)
Theorem image_multi_getimg_spec m hdr cs idx :
  0 <= hdr -> hdr + 64 + Z.of_nat (length (multi_image cs)) < 2 ^ 64 ->
  bytes_at m (hdr + 64) (multi_image cs) ->
  Forall (λ c, 0 < Z.of_nat (length c) /\ Z.of_nat (length c) + 3 < 2 ^ 32) cs ->
  match cs !! idx with
  | Some c => ∃ data, image_multi_getimg m hdr (Z.of_nat idx) = Some (data, Z.of_nat (length c)) /\ bytes_at m data c
  | None => image_multi_getimg m hdr (Z.of_nat idx) = Some (0, 0)
  end.
Proof.
  intros Hh Hlen Hm Hcs. change (2 ^ 64) with 18446744073709551616 in Hlen.
  unfold image_multi_getimg, image_multi_count. assert (image_get_data hdr = hdr + 64) as ->.
  { unfold image_get_data, image_get_header_size. apply u64_small. lia. }
  assert (length (words (sizes cs ++ [0])) = (4 * (length cs + 1))%nat) as Hw.
  { rewrite words_length, length_app. unfold sizes. rewrite length_fmap. done. }
  assert (length (multi_image cs) = (4 * (length cs + 1) + length (components cs))%nat) as Hml.
  { unfold multi_image. by rewrite length_app, Hw. }
  pose proof (count_loop_spec m (hdr + 64) cs Hm Hcs (S (base.size m)) 0) as E. change (Z.of_nat 0) with 0 in E.
  pose proof (bytes_at_length _ _ _ Hm). rewrite E by lia. clear E.
  cbn [mbind option_bind]. destruct (cs !! idx) as [c|] eqn:Hc.
  2:{ apply lookup_ge_None in Hc. by rewrite (proj2 (Z.ltb_ge _ _)) by lia. }
  pose proof (lookup_lt_Some _ _ _ Hc). rewrite (proj2 (Z.ltb_lt _ _)) by lia.
  rewrite (size_word m (hdr + 64) cs Hm Hcs idx c Hc). cbn [mbind option_bind]. rewrite Nat2Z.id.
  pose proof (offset_loop_spec m (hdr + 64) cs Hm Hcs idx 0) as E. change (Z.of_nat 0) with 0 in E. change (offset_of 0 cs) with 0 in E. rewrite E, Nat.add_0_l by lia. clear E.
  cbn [mbind option_bind]. pose proof (offset_of_bound _ _ _ Hc). rewrite (u64_small (hdr + 64 + _)), u64_small by lia.
  eexists. split; [done|]. apply bytes_at_app in Hm as [_ Hm]. rewrite Hw in Hm.
  apply (components_at _ _ cs idx c) in Hm; [|done].
  by replace (hdr + 64 + (Z.of_nat (length cs) + 1) * 4) with (hdr + 64 + Z.of_nat (4 * (length cs + 1))) by lia.
Qed.

(** ** Damage is detected *)

Lemma load_n_slice m a l k n :
  bytes_at m a l -> (k + n <= length l)%nat -> load_n n m (a + Z.of_nat k) = Some (take n (drop k l)).
Proof.
  intros H Hk. rewrite <-(take_drop k l), <-(take_drop n (drop k l)) in H.
  apply bytes_at_app in H as [_ H]. apply bytes_at_app in H as [H _]. rewrite length_take, Nat.min_l in H by lia.
  assert (length (take n (drop k l)) = n) as Hn by (rewrite length_take, length_drop; lia).
  rewrite <-Hn at 1. by apply load_n_spec.
Qed.

Lemma bytes_at_insert m a l i x : (i < length l)%nat -> bytes_at m a l -> bytes_at (<[a + Z.of_nat i := x]> m) a (<[i := x]> l).
Proof.
  intros Hi H j Hj. rewrite length_insert in Hj. destruct (decide (j = i)) as [->|Hne].
  - rewrite lookup_insert_eq, list_lookup_insert_eq by lia. done.
  - rewrite lookup_insert_ne, list_lookup_insert_ne by lia. by apply H.
Qed.

(** The header with its checksum blanked. *)
Definition blanked (h : list Z) : list Z := take 4 h ++ be_bytes4 0 ++ drop 8 h.

Lemma blanked_insert h i x :
  length h = 64%nat -> (i < 64)%nat -> (i < 4 \/ 8 <= i)%nat -> blanked (<[i := x]> h) = <[i := x]> (blanked h).
Proof.
  intros Hh Hi [H|H]; unfold blanked.
  - rewrite take_insert_lt, drop_insert_lt by lia. rewrite insert_app_l; [done|]. rewrite length_take. lia.
  - assert (length (take 4 h) = 4%nat) as Ht by (rewrite length_take, Hh; done).
    rewrite take_insert_ge, drop_insert_ge by lia. rewrite (insert_app_r_alt (take 4 h)), Ht by (rewrite Ht; lia).
    rewrite insert_app_r_alt by (change (length (be_bytes4 0)) with 4%nat; lia). do 3 f_equal.
    change (length (be_bytes4 0)) with 4%nat. lia.
Qed.

Lemma blanked_lookup h i : length h = 64%nat -> (i < 4 \/ 8 <= i)%nat -> blanked h !! i = h !! i.
Proof.
  intros Hh [H|H]; unfold blanked.
  - rewrite lookup_app_l by (rewrite length_take; lia). by rewrite lookup_take_lt.
  - assert (length (take 4 h) = 4%nat) as Ht by (rewrite length_take, Hh; done).
    rewrite (lookup_app_r (take 4 h)), Ht by (rewrite Ht; lia).
    rewrite lookup_app_r by (change (length (be_bytes4 0)) with 4%nat; lia).
    rewrite lookup_drop. f_equal. change (length (be_bytes4 0)) with 4%nat. lia.
Qed.

Lemma blanked_same h i x : length h = 64%nat -> (4 <= i < 8)%nat -> blanked (<[i := x]> h) = blanked h.
Proof. intros Hh Hi. unfold blanked. by rewrite take_insert_ge, drop_insert_lt by lia. Qed.

Lemma crc32_insert addr addr' l i x x' :
  Forall byte l -> l !! i = Some x -> byte x' -> x <> x' -> crc32 addr 0 (<[i := x']> l) <> crc32 addr' 0 l.
Proof.
  intros Hl Hi Hx' Hne. pose proof (lookup_lt_Some _ _ _ Hi). rewrite <-(take_drop_middle l i x Hi) in Hl.
  rewrite insert_take_drop by done. rewrite <-(take_drop_middle l i x Hi) at 3.
  by apply not_eq_sym, crc32_detects.
Qed.

Section damage.
Context (m : mem) (hdr : Z) (h d : list Z).
Hypothesis Hm : bytes_at m hdr (h ++ d).
Hypothesis Hh : length h = 64%nat.

Lemma header_field k : (k + 4 <= 64)%nat -> get_l m (hdr + Z.of_nat k) = Some (be32 (take 4 (drop k h))).
Proof.
  intros Hk. unfold get_l. apply bytes_at_app in Hm as [H _]. rewrite (load_n_slice _ _ _ _ _ H) by lia. done.
Qed.

Lemma check_magic : image_check_magic m hdr = Some (be32 (take 4 h) =? IH_MAGIC).
Proof.
  unfold image_check_magic, image_get_magic. pose proof (header_field 0 ltac:(lia)) as E.
  rewrite Z.add_0_r in E. rewrite E. done.
Qed.

Lemma check_hcrc : image_check_hcrc m hdr = Some (crc32 0 0 (blanked h) =? be32 (take 4 (drop 4 h))).
Proof.
  unfold image_check_hcrc, image_get_hcrc. pose proof (header_field 4 ltac:(lia)) as E. change (Z.of_nat 4) with 4 in E.
  apply bytes_at_app in Hm as [H _]. pose proof (load_n_slice _ _ _ 0 64 H ltac:(lia)) as E'.
  rewrite Z.add_0_r, drop_0, take_ge in E' by lia. rewrite E', E. done.
Qed.

Lemma check_dcrc :
  0 <= hdr -> hdr + 64 < 2 ^ 64 -> Forall byte d -> d <> [] -> be32 (take 4 (drop 12 h)) = Z.of_nat (length d) ->
  image_check_dcrc m hdr = Some (crc32 (hdr + 64) 0 d =? be32 (take 4 (drop 24 h))).
Proof.
  intros H0 H64 Hd Hne Hs. unfold image_check_dcrc, image_get_data_size, image_get_size, image_get_dcrc, image_get_data, image_get_header_size.
  change (2 ^ 64) with 18446744073709551616 in H64. rewrite u64_small by lia.
  pose proof (header_field 12 ltac:(lia)) as E. change (Z.of_nat 12) with 12 in E. rewrite E, Hs. cbn [mbind option_bind].
  pose proof (header_field 24 ltac:(lia)) as E'. change (Z.of_nat 24) with 24 in E'. rewrite E'. 
  pose proof Hm as H. apply bytes_at_app in H as [_ H]. rewrite Hh in H. change (Z.of_nat 64) with 64 in H. rewrite Nat2Z.id, (load_n_spec _ _ _ H). cbn [mbind option_bind].
  rewrite crc32_wd_spec; [|unfold CHUNKSZ_CRC32; lia|done|lia]. destruct d as [|x d']; [done|].
  cbn [mbind option_bind]. unfold crc32. by rewrite crc32_no_comp_spec by done.
Qed.
End damage.

(** A changed header does not match its checksum. *)
Lemma header_detects h i x x' :
  length h = 64%nat -> Forall byte h -> h !! i = Some x -> byte x' -> x <> x' ->
  crc32 0 0 (blanked h) = be32 (take 4 (drop 4 h)) ->
  crc32 0 0 (blanked (<[i := x']> h)) <> be32 (take 4 (drop 4 (<[i := x']> h))).
Proof.
  intros Hh Hb Hi Hx' Hne Heq. pose proof (lookup_lt_Some _ _ _ Hi) as Hlt.
  assert (Forall byte (blanked h)) as Hbl.
  { unfold blanked. apply Forall_app; split; [by apply Forall_take|]. apply Forall_app; split; [|by apply Forall_drop].
    apply (be_bytes4_spec 0). unfold word. lia. }
  destruct (decide (4 <= i < 8)%nat) as [Hr|Hr].
  - rewrite blanked_same, Heq by done. intros E.
    apply be32_inj in E; [|by apply Forall_take, Forall_drop|by apply Forall_take, Forall_drop, Forall_insert
      |by rewrite !length_take, !length_drop, length_insert].
    apply (f_equal (λ l, l !! (i - 4)%nat)) in E. rewrite !lookup_take_lt, !lookup_drop in E by lia.
    replace (4 + (i - 4))%nat with i in E by lia. rewrite Hi, list_lookup_insert_eq in E by lia. congruence.
  - rewrite blanked_insert by lia.
    replace (take 4 (drop 4 (<[i := x']> h))) with (take 4 (drop 4 h)).
    2:{ destruct (decide (i < 4)%nat); [by rewrite drop_insert_lt by lia|]. by rewrite drop_insert_ge, take_insert_ge by lia. }
    rewrite <-Heq. apply (crc32_insert _ _ _ _ x); try done. by rewrite blanked_lookup by (done || lia).
Qed.

(** C25. A ramdisk image that was accepted with its checksums verified is
    refused when any one byte of it is changed, in the header (the checksum
    itself included) or in the data. *)
Theorem image_get_ramdisk_detects m hdr arch h d i x x' :
  bytes_at m hdr (h ++ d) -> length h = 64%nat -> Forall byte (h ++ d) -> 0 <= hdr -> hdr + 64 < 2 ^ 64 ->
  image_get_size m hdr = Some (Z.of_nat (length d)) -> image_get_ramdisk m hdr arch true = Some true ->
  (h ++ d) !! i = Some x -> byte x' -> x <> x' ->
  image_get_ramdisk (<[hdr + Z.of_nat i := x']> m) hdr arch true = Some false.
Proof.
  intros Hm Hh Hb H0 H64 Hs Hok Hi Hx' Hne. pose proof (lookup_lt_Some _ _ _ Hi) as Hlt.
  pose proof (bytes_at_insert _ _ _ i x' Hlt Hm) as Hm'. apply Forall_app in Hb as [Hbh Hbd].
  unfold image_get_size in Hs. pose proof (header_field _ _ _ _ Hm Hh 12 ltac:(lia)) as E12. change (Z.of_nat 12) with 12 in E12.
  rewrite E12 in Hs. injection Hs as Hs.
  unfold image_get_ramdisk in *. rewrite (check_magic _ _ _ _ Hm Hh) in Hok. cbn [mbind option_bind] in Hok.
  destruct (Z.eqb_spec (be32 (take 4 h)) IH_MAGIC) as [Emag|]; [|done]. cbn [negb] in Hok.
  rewrite (check_hcrc _ _ _ _ Hm Hh) in Hok. cbn [mbind option_bind] in Hok.
  destruct (Z.eqb_spec (crc32 0 0 (blanked h)) (be32 (take 4 (drop 4 h)))) as [Ehcrc|]; [|done]. cbn [negb] in Hok.
  destruct (decide (i < 64)%nat) as [Hi64|Hi64].
  - rewrite lookup_app_l in Hi by lia. rewrite insert_app_l in Hm' by lia.
    rewrite (check_magic _ _ _ _ Hm'), (check_hcrc _ _ _ _ Hm') by (by rewrite length_insert). cbn [mbind option_bind].
    case_match; [done|]. rewrite (proj2 (Z.eqb_neq _ _)); [done|]. by apply (header_detects h i x).
  - rewrite lookup_app_r in Hi by lia. rewrite insert_app_r_alt in Hm' by lia. rewrite Hh in *.
    assert (d <> []) as Hd by (by intros ->).
    rewrite (check_magic _ _ _ _ Hm' Hh), (check_hcrc _ _ _ _ Hm' Hh), Emag, Ehcrc, !Z.eqb_refl. cbn [mbind option_bind negb].
    rewrite (check_dcrc _ _ _ _ Hm Hh H0 H64 Hbd Hd Hs) in Hok. cbn [mbind option_bind] in Hok.
    destruct (Z.eqb_spec (crc32 (hdr + 64) 0 d) (be32 (take 4 (drop 24 h)))) as [Edcrc|]; [|done].
    rewrite (check_dcrc _ _ _ _ Hm' Hh H0 H64); [|by apply Forall_insert| |by rewrite length_insert].
    + cbn [mbind option_bind]. rewrite (proj2 (Z.eqb_neq _ _)); [done|]. rewrite <-Edcrc. by apply (crc32_insert _ _ _ _ x).
    + intros E. apply (f_equal length) in E. rewrite length_insert in E. by destruct d.
Qed.

(** ** Examples *)

Definition ex_ram : mem := area (Z.to_nat 1048576) 7 4096.
Definition ex_boot_env : boot_env := BootEnv None None None None None 0 1048576.

Lemma ex_ram_banks : banks_mapped ex_ram ex_mem.
Proof.
  intros p Hp. apply list_elem_of_singleton in Hp as ->. apply area_mapped; cbn [Lmb.base size]; [lia|].
  rewrite Z2Nat.id; lia.
Qed.


Definition ex_components : list (list Z) := [[1; 2; 3; 4; 5]; [6; 7]].

Lemma image_multi_getimg_spec_witness :
  ∃ data, image_multi_getimg (mem_of 4160 (multi_image ex_components)) 4096 1 = Some (data, 2) /\
    bytes_at (mem_of 4160 (multi_image ex_components)) data [6; 7].
Proof.
  apply (image_multi_getimg_spec (mem_of 4160 (multi_image ex_components)) 4096 ex_components 1);
    [lia|vm_compute; reflexivity|apply mem_of_bytes|repeat constructor; cbn; lia].
Defined.

Definition ex_data : list Z := [114; 100; 33].
Definition ex_dcrc : Z := Eval vm_compute in crc32 0 0 ex_data.
Definition ex_header_with (hcrc : Z) : list Z :=
  words [IH_MAGIC; hcrc; 0; 3; 0; 0; ex_dcrc] ++ [IH_OS_LINUX; 22; IH_TYPE_RAMDISK; IH_COMP_NONE] ++ replicate 32 0.
Definition ex_hcrc : Z := Eval vm_compute in crc32 0 0 (ex_header_with 0).
Definition ex_image : list Z := ex_header_with ex_hcrc ++ ex_data.

Lemma image_get_ramdisk_detects_witness :
  image_get_ramdisk (mem_of 4096 ex_image) 4096 22 true = Some true /\
  image_get_ramdisk (<[4096 + Z.of_nat 65 := 101]> (mem_of 4096 ex_image)) 4096 22 true = Some false.
Proof.
  assert (image_get_ramdisk (mem_of 4096 ex_image) 4096 22 true = Some true) as H by (vm_compute; reflexivity).
  split; [exact H|].
  apply (image_get_ramdisk_detects _ 4096 22 (ex_header_with ex_hcrc) ex_data 65 100 101);
    [apply mem_of_bytes|reflexivity|apply all_bytes; vm_compute; reflexivity|lia|lia|vm_compute; reflexivity|exact H
    |vm_compute; reflexivity|unfold byte; lia|lia].
Defined.
