(* ===== verification/ImageFdt.v ===== *)
(** * The device tree for the kernel

    [common/image-fdt.c], with the configuration of [Image]: finding the tree,
    reserving what it reserves, and moving it to memory that is free. *)

From S2P Require Import Prelude Lmb Mem Ctype Cstring Crc Strtoul Vsprintf RkParam Bytes Fdt FdtTree FdtWip FdtEdit FdtRw FdtImage FdtUpdate FdtNodes Image.

Definition CONFIG_SYS_FDT_PAD : Z := 0x3000.

(** [false] is NULL. *)
Definition image_get_fdt (m : mem) (fdt_addr : Z) : option bool :=
  hcrc ← image_check_hcrc m fdt_addr;
  if negb hcrc then Some false
  else
    dcrc ← image_check_dcrc m fdt_addr;
    if negb dcrc then Some false
    else
      ty ← image_check_type m fdt_addr IH_TYPE_FLATDT;
      if negb ty then Some false
      else
        comp ← image_get_comp m fdt_addr;
        if negb (comp =? IH_COMP_NONE) then Some false
        else err ← fdt_check_header (blob_at m (image_get_data fdt_addr)); Some (err =? 0).

(** ** Reservations *)

Fixpoint rsv_loop (n : nat) (i : Z) (blob : list Z) (l : lmb) : option lmb :=
  match n with
  | O => Some l
  | S n =>
      r ← fdt_get_mem_rsv blob i;
      match r with
      | inl _ => rsv_loop n (i + 1) blob l
      | inr (addr, size) => '(_, l) ← lmb_reserve l addr size; rsv_loop n (i + 1) blob l
      end
  end.

Definition boot_fdt_add_mem_rsv_regions (l : lmb) (blob : list Z) : option lmb :=
  err ← fdt_check_header blob;
  if negb (err =? 0) then Some l
  else total ← fdt_num_mem_rsv blob; rsv_loop (Z.to_nat total) 0 blob l.

(** ** Moving *)

(** [f] on the memory from [a] on *)
Definition on_memory (m : mem) (a : Z) (f : list Z -> option (Z * list Z)) : option (Z * mem) :=
  '(r, b) ← f (blob_at m a); m ← store_n m a b; Some (r, m).

(** Where the tree goes: the address, and whether it stays in place. *)
Definition fdt_place (e : boot_env) (l : lmb) (fdt_blob of_len : Z) : option (Z * bool * lmb) :=
  match fdt_high e with
  | Some s =>
      let desired_addr := hex s in
      if desired_addr =? 2 ^ 64 - 1 then '(_, l) ← lmb_reserve l fdt_blob of_len; Some (fdt_blob, true, l)
      else if negb (desired_addr =? 0) then '(a, l) ← lmb_alloc_base l of_len 0x200000 desired_addr; Some (a, false, l)
      else '(a, l) ← lmb_alloc l of_len 0x200000; Some (a, false, l)
  | None =>
      '(a, l) ← lmb_alloc_base l of_len 0x200000 (u64 (getenv_bootm_mapsize e + getenv_bootm_low e)); Some (a, false, l)
  end.

(** The result, [*of_flat_tree], [*of_size], the table and the memory.  The tree
    and the place it goes to are in one mapped area, the RAM. *)
Definition boot_relocate_fdt (e : boot_env) (l : lmb) (of_flat_tree of_size : Z) (m : mem) : option (Z * Z * Z * lmb * mem) :=
  let fdt_blob := of_flat_tree in
  if of_size =? 0 then Some (0, of_flat_tree, of_size, l, m)
  else
    err ← fdt_check_header (blob_at m fdt_blob);
    if negb (err =? 0) then Some (1, of_flat_tree, of_size, l, m)
    else
      let of_len := u64 (of_size + CONFIG_SYS_FDT_PAD) in
      '(of_start, in_place, l) ← fdt_place e l fdt_blob of_len;
      if of_start =? 0 then Some (1, of_flat_tree, of_size, l, m)
      else if in_place : bool then
        '(_, m) ← on_memory m of_start (λ b, b ← fdt_set_totalsize b of_len; Some (0, b));
        Some (0, of_start, of_len, l, m)
      else
        let lo := Z.min fdt_blob of_start in
        '(err, m) ← on_memory m lo (λ b, fdt_open_into b (fdt_blob - lo) (of_start - lo) (s32 of_len));
        if negb (err =? 0) then Some (1, of_flat_tree, of_size, l, m) else Some (0, of_start, of_len, l, m).

(** ** Finding *)

(** What a legacy image at [fdt_addr] gives: [None] inside is an error; the
    address is what [fdt_addr] is after the [switch]. *)
Definition fdt_from_legacy (m : mem) (fdt_addr : Z) : option (option (Z * mem)) :=
  ok ← image_get_fdt m fdt_addr;
  if negb ok then Some None
  else
    let image_start := fdt_addr in
    let image_data := image_get_data fdt_addr in
    image_end ← image_get_image_end m fdt_addr;
    load ← image_get_load m fdt_addr;
    size ← image_get_data_size m fdt_addr;
    let load_end := u64 (load + size) in
    if (load =? image_start) || (load =? image_data) then Some (Some (fdt_addr, m))
    else if (load <? image_end) && (image_start <? load_end) then Some None
    else '(m, _) ← memmove m load image_data (Z.to_nat size); Some (Some (load, m)).

(** The result, [*of_flat_tree], [*of_size] and the memory.  The value that
    [fdt_blob] gets inside of the [switch] is overwritten after it. *)
Definition boot_get_fdt (m : mem) (select : option (list Z)) (images : bootm_headers) : option (Z * Z * Z * mem) :=
  let found (fdt_blob : Z) (m : mem) := size ← fdt_totalsize (blob_at m fdt_blob); Some (0, fdt_blob, size, m) in
  match select with
  | Some s =>
      let fdt_addr := hex s in
      format ← genimg_get_format m fdt_addr;
      if format =? IMAGE_FORMAT_LEGACY then
        r ← fdt_from_legacy m fdt_addr;
        match r with
        | None => Some (1, 0, 0, m)
        | Some (fdt_addr, m) => found fdt_addr m
        end
      else if format =? IMAGE_FORMAT_FIT then found fdt_addr m
      else Some (1, 0, 0, m)
  | None =>
      multi ← (if legacy_hdr_valid images then copy_is_multi images else Some false);
      if multi : bool then
        '(fdt_data, fdt_len) ← image_multi_getimg m (legacy_hdr_os images) 2;
        if fdt_len =? 0 then Some (0, 0, 0, m)
        else
          let blob := blob_at m fdt_data in
          err ← fdt_check_header blob;
          if negb (err =? 0) then Some (1, 0, 0, m)
          else
            size ← fdt_totalsize blob;
            if negb (size =? fdt_len) then Some (1, 0, 0, m) else found fdt_data m
      else Some (0, 0, 0, m)
  end.

(** ** A tree with memory behind it *)

Section behind.
Context {fr : frame} {S tail : list Z} (rest : list Z) (Hok : image_ok fr S tail).

Lemma field_behind i w p :
  words_of fr (Z.of_nat (length S)) !! i = Some w -> p = 4 * Z.of_nat i -> rd32 (image fr S (tail ++ rest)) p = Some w.
Proof. apply rd32_hdr, (words_words Hok). Qed.

Lemma header_behind : fdt_check_header (image fr S (tail ++ rest)) = Some 0.
Proof.
  unfold fdt_check_header, fdt_magic, fdt_version, fdt_last_comp_version.
  rewrite (field_behind 0 _ 0 eq_refl), (field_behind 5 _ 20 eq_refl), (field_behind 6 _ 24 eq_refl) by done.
  cbn [mbind option_bind]. destruct Hok. change (FDT_MAGIC =? FDT_MAGIC) with true. cbv iota.
  change (17 <? FDT_FIRST_SUPPORTED_VERSION) with false. cbv iota.
  by rewrite (proj2 (Z.ltb_ge FDT_LAST_SUPPORTED_VERSION (last fr))) by (unfold FDT_LAST_SUPPORTED_VERSION; lia).
Qed.

Lemma ordered_behind num :
  0 <= num -> rsvoff fr + 16 * (num + 1) <= base fr ->
  _fdt_blocks_misordered (image fr S (tail ++ rest)) ((num + 1) * 16) (Z.of_nat (length S)) = Some false.
Proof.
  intros H0 Hn. unfold _fdt_blocks_misordered, fdt_off_mem_rsvmap, fdt_off_dt_struct, fdt_off_dt_strings, fdt_size_dt_strings, fdt_totalsize.
  rewrite (field_behind 4 _ 16 eq_refl), (field_behind 2 _ 8 eq_refl), (field_behind 3 _ 12 eq_refl), (field_behind 8 _ 32 eq_refl),
    (field_behind 1 _ 4 eq_refl) by done. cbn [mbind option_bind].
  destruct Hok as [[? ?] ? ? ? ?]. unfold data_end, FdtImage.base in *.
  rewrite !u32_small by lia. rewrite !(proj2 (Z.ltb_ge _ _)) by lia. done.
Qed.

(** [fdt_open_into] copies a tree that lies at [fdt] to [buf], with its new
    total size. *)
Lemma fdt_open_into_moves w fdt buf bufsize num :
  data_end fr S + Z.of_nat (length tail) = total fr -> drop (Z.to_nat fdt) w = image fr S (tail ++ rest) ->
  fdt_num_mem_rsv (image fr S (tail ++ rest)) = Some num -> 0 <= num -> rsvoff fr + 16 * (num + 1) <= base fr ->
  total fr <= bufsize < 2 ^ 31 -> 0 <= buf -> buf + bufsize <= Z.of_nat (length w) ->
  fdt_open_into w fdt buf bufsize =
  Some (0, take (Z.to_nat buf) w ++ image (with_total fr bufsize) S (tail ++ drop (Z.to_nat (buf + total fr)) w)).
Proof.
  intros Htot Hw Hnum Hn0 Hrsv Hbuf Hb0 Hlen. pose proof Hok as [[Ho1 Ho2] Hl Hc Ht Hs].
  unfold fdt_open_into. rewrite Hw. unfold with_header at 1. rewrite header_behind. cbn [mbind option_bind]. change (0 =? 0) with true. cbv iota.
  rewrite Hnum. cbn [mbind option_bind]. unfold fdt_version, fdt_size_dt_struct.
  rewrite (field_behind 5 _ 20 eq_refl), (field_behind 9 _ 36 eq_refl) by done. cbn [mbind option_bind Z.leb Z.compare Pos.compare Pos.compare_cont negb andb].
  assert (base fr = 40 + Z.of_nat (length (rsv fr))) as Hbase by done. unfold data_end in *.
  rewrite (s32_small ((num + 1) * 16)), (s32_small (Z.of_nat (length S))) by lia.
  rewrite ordered_behind by done. cbn [mbind option_bind negb].
  unfold at_buf. rewrite decide_True by lia.
  unfold on_success, fdt_move, with_header, fdt_totalsize. rewrite header_behind. cbn [mbind option_bind]. change (0 =? 0) with true. cbv iota.
  rewrite (field_behind 1 _ 4 eq_refl) by done. cbn [mbind option_bind].
  pose proof (@image_length fr S (tail ++ rest)) as Hil. rewrite length_app in Hil. unfold data_end in Hil.
  rewrite u32_small, (proj2 (Z.ltb_ge _ _)) by lia. rewrite !(proj2 (Nat.ltb_ge _ _)) by (rewrite ?length_drop; lia).
  cbn [orb mbind option_bind]. change (0 =? 0) with true. cbv iota.
  assert (take (Z.to_nat (total fr)) (image fr S (tail ++ rest)) = image fr S tail) as ->.
  { unfold image. rewrite !app_assoc. apply take_app_length'. rewrite !length_app, hdr_length. cbn [length words_of]. lia. }
  rewrite drop_drop. replace (Z.to_nat buf + Z.to_nat (total fr))%nat with (Z.to_nat (buf + total fr)) by lia.
  unfold image. rewrite <-!app_assoc.
  unfold fdt_set_version, fdt_set_size_dt_struct, fdt_set_totalsize. rewrite (wr32_hdr _ _ 5) by (done || cbn; lia). cbn [mbind option_bind].
  rewrite (wr32_hdr _ _ 9) by (done || cbn; lia). cbn [mbind option_bind]. rewrite (wr32_hdr _ _ 1) by (done || cbn; lia). cbn [mbind option_bind app].
  rewrite !(u32_small (Z.of_nat _)), (u32_small bufsize) by lia. done.
Qed.
End behind.

(** ** Memory as a list *)

Lemma mem_from_bytes n m a : bytes_at m a (mem_from n m a).
Proof.
  revert a. induction n as [|n IH]; intros a; cbn [mem_from]; [apply bytes_at_nil|].
  destruct (m !! a) eqn:E; [|apply bytes_at_nil]. by apply bytes_at_cons.
Qed.

Lemma mem_from_end n m a : (length (mem_from n m a) < n)%nat -> m !! (a + Z.of_nat (length (mem_from n m a))) = None.
Proof.
  revert a. induction n as [|n IH]; intros a H; cbn [mem_from] in *; [lia|].
  destruct (m !! a) eqn:E; cbn [length] in *; [|by rewrite Z.add_0_r].
  rewrite <-(IH (a + 1)) by lia. f_equal. lia.
Qed.

Lemma mem_from_char n m a l :
  bytes_at m a l -> m !! (a + Z.of_nat (length l)) = None -> (length l <= n)%nat -> mem_from n m a = l.
Proof.
  revert n a. induction l as [|c l IH]; intros n a H He Hn.
  - cbn in He. rewrite Z.add_0_r in He. destruct n; cbn; [done|]. by rewrite He.
  - destruct n as [|n]; cbn [length] in *; [lia|]. apply bytes_at_cons in H as [Hc H]. cbn [mem_from]. rewrite Hc. f_equal.
    apply IH; [done| |lia]. rewrite <-He. f_equal. lia.
Qed.

Lemma blob_at_bytes m a : bytes_at m a (blob_at m a).
Proof. apply mem_from_bytes. Qed.

Lemma blob_at_end m a : m !! (a + Z.of_nat (length (blob_at m a))) = None.
Proof.
  pose proof (bytes_at_length _ _ _ (blob_at_bytes m a)) as Hl. unfold blob_at in *.
  destruct (decide (length (mem_from (base.size m) m a) < base.size m)%nat); [by apply mem_from_end|].
  destruct (m !! (a + Z.of_nat (length (mem_from (base.size m) m a)))) as [c|] eqn:E; [|done].
  assert (bytes_at m a (mem_from (base.size m) m a ++ [c])) as H.
  { apply bytes_at_app. split; [apply mem_from_bytes|]. apply bytes_at_cons. split; [done|apply bytes_at_nil]. }
  apply bytes_at_length in H. rewrite length_app in H. cbn in H. lia.
Qed.

Lemma blob_at_char m a l : bytes_at m a l -> m !! (a + Z.of_nat (length l)) = None -> blob_at m a = l.
Proof. intros H He. apply mem_from_char; [done|done|]. by eapply bytes_at_length. Qed.

Lemma blob_at_drop m a k :
  (k <= length (blob_at m a))%nat -> drop k (blob_at m a) = blob_at m (a + Z.of_nat k).
Proof.
  intros Hk. symmetry. pose proof (blob_at_bytes m a) as H. rewrite <-(take_drop k (blob_at m a)) in H.
  apply bytes_at_app in H as [_ H]. rewrite length_take, Nat.min_l in H by lia. apply blob_at_char; [done|].
  rewrite <-(blob_at_end m a), length_drop. f_equal. lia.
Qed.

Lemma blob_at_prefix m a l : bytes_at m a l -> ∃ rest, blob_at m a = l ++ rest.
Proof.
  intros H. exists (drop (length l) (blob_at m a)).
  assert (length l <= length (blob_at m a))%nat as Hle.
  { destruct (decide (length l <= length (blob_at m a))%nat) as [|Hn]; [done|].
    pose proof (H (length (blob_at m a)) ltac:(lia)) as E. rewrite blob_at_end in E.
    symmetry in E. apply lookup_ge_None in E. lia. }
  rewrite <-(take_drop (length l) (blob_at m a)) at 1. f_equal. apply list_eq_same_length with (length l); [done|rewrite length_take; lia|].
  intros i x y Hi Hx Hy. pose proof (H i ltac:(lia)) as E1. pose proof (blob_at_bytes m a i ltac:(lia)) as E2.
  rewrite lookup_take_lt in Hx by done. congruence.
Qed.

Lemma blob_at_mapped m a n : 0 <= n -> mapped m a n -> n <= Z.of_nat (length (blob_at m a)).
Proof.
  intros Hn H. destruct (decide (n <= Z.of_nat (length (blob_at m a)))) as [|Hlt]; [done|].
  destruct (H (a + Z.of_nat (length (blob_at m a)))) as [c Hc]; [lia|]. by rewrite blob_at_end in Hc.
Qed.

(** ** Moving the tree *)

Definition fdt_limit (e : boot_env) : Z :=
  match fdt_high e with Some s => hex s | None => u64 (getenv_bootm_mapsize e + getenv_bootm_low e) end.

Lemma fdt_place_limit e l fdt len :
  (∀ s, fdt_high e = Some s -> hex s <> 2 ^ 64 - 1) ->
  fdt_place e l fdt len = '(a, l) ← lmb_alloc_base l len (2 ^ 21) (fdt_limit e); Some (a, false, l).
Proof.
  intros Hhigh. unfold fdt_place, fdt_limit. destruct (fdt_high e) as [s|]; [|done].
  rewrite (proj2 (Z.eqb_neq _ _) (Hhigh s eq_refl)). by destruct (Z.eqb_spec (hex s) 0) as [->|].
Qed.

(** The memory after [fdt_open_into] has run on it from [lo] on. *)
Lemma moved_memory fr S tail rest m lo buf fdt num bufsize :
  image_ok fr S tail -> data_end fr S + Z.of_nat (length tail) = total fr ->
  0 <= fdt -> drop (Z.to_nat fdt) (blob_at m lo) = image fr S (tail ++ rest) ->
  fdt_num_mem_rsv (image fr S (tail ++ rest)) = Some num -> 0 <= num -> rsvoff fr + 16 * (num + 1) <= base fr ->
  total fr <= bufsize < 2 ^ 31 -> 0 <= buf -> buf + bufsize <= Z.of_nat (length (blob_at m lo)) ->
  ∃ m' pad, on_memory m lo (λ b, fdt_open_into b fdt buf bufsize) = Some (0, m') /\
    Z.of_nat (length pad) = bufsize - total fr /\
    bytes_at m' (lo + buf) (image (with_total fr bufsize) S (tail ++ pad)) /\
    same_outside m m' (lo + buf) bufsize.
Proof.
  intros Hok Htot Hf0 Hw Hnum Hn0 Hrsv Hbuf Hb0 Hlen. pose proof (blob_at_bytes m lo) as Hbl. unfold on_memory.
  set (w := blob_at m lo) in *. rewrite (fdt_open_into_moves rest Hok w fdt buf bufsize num) by done. cbn [mbind option_bind].
  assert (0 <= total fr) as Ht0 by (unfold data_end, FdtImage.base in Htot; lia).
  set (t := Z.to_nat (buf + total fr)). set (n := Z.to_nat (bufsize - total fr)).
  assert (image (with_total fr bufsize) S (tail ++ drop t w) = image (with_total fr bufsize) S (tail ++ take n (drop t w)) ++ drop (t + n) w) as Himg.
  { rewrite <-(take_drop n (drop t w)) at 1. rewrite drop_drop. unfold image. by rewrite <-!app_assoc. }
  assert (length (take n (drop t w)) = n) as Hn by (rewrite length_take, length_drop; lia).
  assert (Z.of_nat (length (image (with_total fr bufsize) S (tail ++ take n (drop t w)))) = bufsize) as Hil.
  { rewrite image_length, length_app, Hn. change (data_end (with_total fr bufsize) S) with (data_end fr S). lia. }
  rewrite Himg. set (X := image (with_total fr bufsize) S (tail ++ take n (drop t w))) in *. rewrite app_assoc.
  set (b' := (take (Z.to_nat buf) w ++ X) ++ drop (t + n) w).
  assert (length (take (Z.to_nat buf) w) = Z.to_nat buf) as Htk by (rewrite length_take; lia).
  assert (length b' = length w) as Hb' by (unfold b'; rewrite !length_app, Htk, length_drop; lia).
  destruct (store_n_spec m lo b') as (m' & -> & Hm1 & Hm2); [rewrite Hb'; by apply bytes_at_mapped|]. cbn [mbind option_bind].
  exists m', (take n (drop t w)). split; [done|]. split; [lia|]. split.
  - unfold b' in Hm1. apply bytes_at_app in Hm1 as [Hm1 _]. apply bytes_at_app in Hm1 as [_ Hm1]. rewrite Htk in Hm1.
    by rewrite Z2Nat.id in Hm1 by lia.
  - intros b Hb. destruct (decide (lo <= b < lo + Z.of_nat (length b'))) as [Hin|Hout]; [|by apply Hm2].
    assert (b = lo + Z.of_nat (Z.to_nat (b - lo))) as -> by lia. set (j := Z.to_nat (b - lo)) in *.
    rewrite Hm1, Hbl by lia. unfold b'. destruct (decide (j < Z.to_nat buf)%nat) as [Hj|Hj].
    + rewrite !lookup_app_l, lookup_take_lt by (rewrite ?length_app; lia). done.
    + rewrite lookup_app_r, lookup_drop, length_app by (rewrite length_app; lia). f_equal. lia.
Qed.


(** ** Reservations of the tree *)

(** The reservations [rs] of a blob, as blocks. *)
Definition reservations (blob : list Z) (rs : list lmb_property) : Prop :=
  fdt_check_header blob = Some 0 /\ fdt_num_mem_rsv blob = Some (Z.of_nat (length rs)) /\
  ∀ i r, rs !! i = Some r -> fdt_get_mem_rsv blob (Z.of_nat i) = Some (inr (Lmb.base r, size r)).

Lemma rsv_loop_spec blob rs i l lr :
  (∀ j r, rs !! j = Some r -> fdt_get_mem_rsv blob (i + Z.of_nat j) = Some (inr (Lmb.base r, size r))) ->
  rep (reserved l) lr -> Forall prop_ok rs -> ForallOrdPairs disjoint_blocks rs ->
  (∀ n q, n ∈ rs -> q ∈ lr -> disjoint_blocks n q) -> cnt (reserved l) + Z.of_nat (length rs) <= 8 ->
  ∃ l' lr', rsv_loop (length rs) i blob l = Some l' /\ memory l' = memory l /\ rep (reserved l') lr' /\
    cover lr' ≡ cover lr ∪ cover rs.
Proof.
  revert i l lr. induction rs as [|n rs IH]; intros i l lr Hget Hrep Hok Hp Hd Hroom; cbn [rsv_loop length].
  { exists l, lr. split_and!; [done..|]. rewrite cover_nil. set_solver. }
  apply Forall_cons in Hok as [Hn Hok]. inversion Hp as [|? ? Hnp Hp']; subst. cbn [length] in Hroom.
  pose proof (Hget 0%nat n eq_refl) as E. rewrite Z.add_0_r in E. rewrite E. cbn [mbind option_bind]. unfold lmb_reserve.
  destruct (lmb_add_region_spec _ _ _ Hrep Hn) as (r & rgn & lr1 & Hadd & Hrep1 & Hres); [intros q Hq; apply Hd; set_solver|].
  destruct (lmb_add_region_total _ (Lmb.base n) (size n) (rep_table_ok _ _ Hrep)) as (? & ? & Hadd' & _ & Hcnt).
  rewrite Hadd in Hadd'. injection Hadd' as <- <-. rewrite Hadd. cbn [mbind option_bind].
  destruct Hres as [[_ Hcov]|(_ & _ & _ & Hfull)]; [|apply rep_cnt in Hrep; lia].
  destruct (IH (i + 1) (Lmb (memory l) rgn) lr1) as (l' & lr' & E1 & Hmem & Hrep' & Hcov'); try done.
  - intros j q Hj. rewrite <-(Hget (S j) q Hj). f_equal. lia.
  - intros q q' Hq. revert q'. assert (prop_ok q) as Hqok by (by rewrite Forall_forall in Hok; apply Hok).
    apply disjoint_cover; [done|by intros ? ?; apply (rep_prop_ok _ _ _ Hrep1)|]. intros a Ha. rewrite Hcov. apply not_elem_of_union. split.
    + revert a Ha. apply disjoint_cover; [done|by intros ? ?; apply (rep_prop_ok _ _ _ Hrep)|]. intros. apply Hd; set_solver.
    + rewrite Forall_forall in Hnp. destruct (Hnp q Hq) as [Hb|Hb]; unfold before in Hb;
        rewrite elem_of_brange in *; lia.
  - cbn [reserved]. lia.
  - exists l', lr'. split_and!; [done..|]. rewrite Hcov', Hcov, cover_cons. set_solver.
Qed.


(** ** Trees in legacy images *)

Lemma get_l_blob m a k w : mapped m a 8 -> (k = 0 \/ k = 4) -> get_l m (a + k) = Some w -> rd32 (blob_at m a) k = Some w.
Proof.
  intros Hm Hk H. pose proof (blob_at_mapped m a 8 ltac:(lia) Hm) as Hl. unfold rd32. rewrite decide_True by lia.
  unfold get_l in H. pose proof (load_n_slice m a (blob_at m a) (Z.to_nat k) 4 (blob_at_bytes m a) ltac:(lia)) as E.
  rewrite Z2Nat.id in E by lia. by rewrite E in H.
Qed.

(** What the checks of [image_get_fdt] and of the magic number leave. *)
Record legacy_fdt (m : mem) (a : Z) (h d : list Z) (load total : Z) : Prop := LegacyFdt {
  lf_bytes : bytes_at m a (h ++ d);
  lf_header : length h = 64%nat;
  lf_addr : 0 <= a /\ a + 64 + Z.of_nat (length d) < 2 ^ 64;
  lf_magic : image_check_magic m a = Some true;
  lf_good : image_get_fdt m a = Some true;
  lf_size : image_get_size m a = Some (Z.of_nat (length d));
  lf_small : Z.of_nat (length d) + 64 < 2 ^ 32;
  lf_load : image_get_load m a = Some load;
  lf_word : 0 <= load < 2 ^ 32;
  lf_total : fdt_totalsize d = Some total
}.

Section legacy.
Context (m : mem) (s h d : list Z) (load total : Z) (images : bootm_headers).
#[local] Abbreviation a := (hex s).
Context (H : legacy_fdt m a h d load total).

Lemma lf_from : fdt_from_legacy m a =
  if (load =? a) || (load =? a + 64) then Some (Some (a, m))
  else if (load <? a + 64 + Z.of_nat (length d)) && (a <? load + Z.of_nat (length d)) then Some None
  else '(m, _) ← memmove m load (a + 64) (length d); Some (Some (load, m)).
Proof.
  destruct H as [Hb Hh Ha _ Hg Hs Hsm Hl Hw _]. change (2 ^ 64) with 18446744073709551616 in *. change (2 ^ 32) with 4294967296 in *.
  unfold fdt_from_legacy, image_get_image_end, image_get_image_size, image_get_data_size, image_get_data, image_get_header_size.
  rewrite Hg, Hs, Hl. cbn [mbind option_bind negb]. rewrite (u32_small (_ + 64)), !u64_small, Nat2Z.id by lia.
  by replace (a + (Z.of_nat (length d) + 64)) with (a + 64 + Z.of_nat (length d)) by lia.
Qed.

Lemma lf_boot : boot_get_fdt m (Some s) images =
  r ← fdt_from_legacy m a;
  match r with
  | None => Some (1, 0, 0, m)
  | Some (fdt_addr, m) => size ← fdt_totalsize (blob_at m fdt_addr); Some (0, fdt_addr, size, m)
  end.
Proof. unfold boot_get_fdt, genimg_get_format. by rewrite (lf_magic _ _ _ _ _ _ H). Qed.
End legacy.

(** A device tree in a legacy image whose load address is elsewhere: the
    tree is copied to the load address and that address and the size of the
    tree are the result, or, when the two ranges overlap, the image is refused
    and nothing is changed. *)
Theorem boot_get_fdt_loads m s h d load total images :
  legacy_fdt m (hex s) h d load total -> load <> hex s -> load <> hex s + 64 -> d <> [] ->
  mapped m load (Z.of_nat (length d)) ->
  (boot_get_fdt m (Some s) images = Some (1, 0, 0, m) <->
     load < hex s + 64 + Z.of_nat (length d) /\ hex s < load + Z.of_nat (length d)) /\
  (load + Z.of_nat (length d) <= hex s \/ hex s + 64 + Z.of_nat (length d) <= load ->
   ∃ m', boot_get_fdt m (Some s) images = Some (0, load, total, m') /\ bytes_at m' load d /\
     same_outside m m' load (Z.of_nat (length d))).
Proof.
  intros H H1 H2 Hd Hmap. rewrite (lf_boot _ _ _ _ _ _ _ H), (lf_from _ _ _ _ _ _ H).
  rewrite (proj2 (Z.eqb_neq _ _) H1), (proj2 (Z.eqb_neq _ _) H2). cbn [orb].
  pose proof (lf_bytes _ _ _ _ _ _ H) as Hb. apply bytes_at_app in Hb as [_ Hb].
  rewrite (lf_header _ _ _ _ _ _ H) in Hb. change (Z.of_nat 64) with 64 in Hb.
  assert (0 < Z.of_nat (length d)) as Hpos by (destruct d; [done|cbn; lia]).
  destruct (memmove_correct m load (hex s + 64) d Hb Hmap) as (m' & -> & Hb' & Ho').
  destruct (blob_at_prefix m' load d Hb') as [rest Hrest]. cbn [mbind option_bind].
  assert (fdt_totalsize (blob_at m' load) = Some total) as Ht.
  { rewrite Hrest. pose proof (lf_total _ _ _ _ _ _ H) as Ht. unfold fdt_totalsize in *. rewrite <-Ht. apply rd32_app.
    unfold rd32 in Ht. case_decide; [lia|done]. }
  destruct (Z.ltb_spec load (hex s + 64 + Z.of_nat (length d))), (Z.ltb_spec (hex s) (load + Z.of_nat (length d))); cbn [andb mbind option_bind];
    rewrite ?Ht; cbn [mbind option_bind]; (split; [split; [done || lia|done || lia]|intros Hor]); try lia; by exists m'.
Qed.

(** A device tree in a legacy image whose load address is where the image
    is: the image passes every check, but [boot_get_fdt] gives the address of
    the image's header as the tree and the header's checksum as its size, and
    [boot_relocate_fdt] then refuses to boot, unless that checksum is zero. *)
Theorem boot_get_fdt_in_place m s h d load total images hcrc e l :
  legacy_fdt m (hex s) h d load total -> load = hex s \/ load = hex s + 64 -> image_get_hcrc m (hex s) = Some hcrc ->
  boot_get_fdt m (Some s) images = Some (0, hex s, hcrc, m) /\
  (hcrc <> 0 -> boot_relocate_fdt e l (hex s) hcrc m = Some (1, hex s, hcrc, l, m)).
Proof.
  intros H Hload Hcrc. rewrite (lf_boot _ _ _ _ _ _ _ H), (lf_from _ _ _ _ _ _ H).
  replace ((load =? hex s) || (load =? hex s + 64)) with true
    by (symmetry; apply orb_true_iff; rewrite !Z.eqb_eq; done). cbn [mbind option_bind].
  assert (mapped m (hex s) 8) as Hmap.
  { intros b Hb. apply (bytes_at_mapped _ _ _ (lf_bytes _ _ _ _ _ _ H)). rewrite length_app, (lf_header _ _ _ _ _ _ H). lia. }
  unfold fdt_totalsize. rewrite (get_l_blob m _ 4 hcrc Hmap) by (done || lia). cbn [mbind option_bind]. split; [done|]. intros Hne.
  unfold boot_relocate_fdt. rewrite (proj2 (Z.eqb_neq _ _) Hne).
  pose proof (lf_magic _ _ _ _ _ _ H) as Hmag. unfold image_check_magic, image_get_magic in Hmag.
  destruct (get_l m (hex s)) as [v|] eqn:Ev; [|done]. cbn [mbind option_bind] in Hmag. injection Hmag as Hv. apply Z.eqb_eq in Hv as ->.
  unfold fdt_check_header, fdt_magic. rewrite (get_l_blob m _ 0 IH_MAGIC Hmap) by (rewrite ?Z.add_0_r; done || lia). done.
Qed.

(** ** Examples *)

(** The tree of [FdtTree] that fills its 200 bytes, behind a bank of 16 KiB. *)
Definition ex_tree : list Z := image ex_frame (encs ex_toks) (replicate 76 0).
Definition ex_banks : list lmb_property := [Prop_ 0x200000 0x4000].
Definition ex_boot_lmb : lmb := Lmb (Rgn 1 0 (ex_banks ++ replicate 8 (Prop_ 0 0))) (reserved ex_lmb).
Definition ex_boot_mem : mem := mem_of 0x200000 (replicate (Z.to_nat 0x4000) 0 ++ ex_tree).
Definition ex_fdt_env : boot_env := BootEnv None None None None None 0 0x300000.

Lemma ex_banks_rep : rep (memory ex_boot_lmb) ex_banks.
Proof.
  apply (rep_live _ _ (replicate 8 (Prop_ 0 0))); [done|done|done|cbn; lia|done|].
  by apply (bool_decide_unpack _).
Qed.

Lemma ex_boot_bytes : bytes_at ex_boot_mem 0x200000 (replicate (Z.to_nat 0x4000) 0 ++ ex_tree).
Proof. apply mem_of_bytes. Qed.

Lemma ex_tree_at : bytes_at ex_boot_mem 0x204000 ex_tree.
Proof.
  pose proof ex_boot_bytes as H. apply bytes_at_app in H as [_ H]. rewrite length_replicate, Z2Nat.id in H by lia. exact H.
Qed.

Lemma mem_of_end a l : mem_of a l !! (a + Z.of_nat (length l)) = None.
Proof.
  revert a. induction l as [|c l IH]; intros a; [done|]. cbn [mem_of length]. rewrite lookup_insert_ne by lia.
  rewrite <-(IH (a + 1)). f_equal. lia.
Qed.

Lemma ex_boot_blob : blob_at ex_boot_mem 0x204000 = ex_tree.
Proof.
  apply blob_at_char; [exact ex_tree_at|]. unfold ex_boot_mem.
  pose proof (mem_of_end 0x200000 (replicate (Z.to_nat 0x4000) 0 ++ ex_tree)) as H.
  rewrite length_app, length_replicate, Nat2Z.inj_add, Z2Nat.id, Z.add_assoc in H by lia. exact H.
Qed.

Example ex_fdt_place : (λ '(a, p, _), (a, p)) <$> fdt_place ex_fdt_env ex_boot_lmb 0x204000 12488 = Some (0x200000, false).
Proof. vm_compute. reflexivity. Qed.


(** The same tree with a page reserved at 1 MiB. *)
Definition ex_rsv : list lmb_property := [Prop_ 0x100000 0x1000].
Definition ex_rsv_tree : list Z :=
  image (Frame 216 40 16 0 (replicate 5 0 ++ [16; 0; 0] ++ replicate 6 0 ++ [16; 0] ++ replicate 16 0) [] [97; 0; 98; 0])
    (encs ex_toks) (replicate 76 0).


(** The tree in a legacy image at 4096, to be loaded at [load]. *)
Definition ex_fdt_header (load hcrc : Z) : list Z :=
  words [IH_MAGIC; hcrc; 0; 200; load; 0; crc32 0 0 ex_tree] ++ [IH_OS_LINUX; 22; IH_TYPE_FLATDT; IH_COMP_NONE] ++ replicate 32 0.
Definition ex_hcrc_for (load : Z) : Z := crc32 0 0 (ex_fdt_header load 0).
Definition ex_legacy_fdt (load : Z) : list Z := ex_fdt_header load (ex_hcrc_for load) ++ ex_tree.
Definition ex_legacy_mem (load : Z) : mem := mem_of 4096 (ex_legacy_fdt load ++ replicate 4200 0).
Definition ex_headers : bootm_headers := Headers 0 [] false true.

Lemma ex_legacy load :
  image_check_magic (ex_legacy_mem load) 4096 = Some true -> image_get_fdt (ex_legacy_mem load) 4096 = Some true ->
  image_get_size (ex_legacy_mem load) 4096 = Some 200 -> image_get_load (ex_legacy_mem load) 4096 = Some load -> 0 <= load < 2 ^ 32 ->
  legacy_fdt (ex_legacy_mem load) 4096 (ex_fdt_header load (ex_hcrc_for load)) ex_tree load 200.
Proof.
  intros. pose proof (mem_of_bytes 4096 (ex_legacy_fdt load ++ replicate 4200 0)) as Hb. apply bytes_at_app in Hb as [Hb _].
  split; [exact Hb|reflexivity| |assumption|assumption|assumption| |assumption|assumption|vm_compute; reflexivity];
    change (length ex_tree) with 200%nat; lia.
Qed.

Lemma boot_get_fdt_loads_witness :
  ∃ m', boot_get_fdt (ex_legacy_mem 8192) (Some (text "1000")) ex_headers = Some (0, 8192, 200, m') /\ bytes_at m' 8192 ex_tree /\
    same_outside (ex_legacy_mem 8192) m' 8192 200.
Proof.
  apply (boot_get_fdt_loads (ex_legacy_mem 8192) (text "1000") (ex_fdt_header 8192 (ex_hcrc_for 8192)) ex_tree 8192 200 ex_headers).
  - apply ex_legacy; [vm_compute; reflexivity..|lia].
  - vm_compute. discriminate.
  - vm_compute. discriminate.
  - vm_compute. discriminate.
  - pose proof (mem_of_bytes 4096 (ex_legacy_fdt 8192 ++ replicate 4200 0)) as Hb. apply bytes_at_mapped in Hb.
    intros b Hin. apply Hb. rewrite length_app, length_replicate. change (length (ex_legacy_fdt 8192)) with 264%nat.
    change (length ex_tree) with 200%nat in Hin. lia.
  - right. vm_compute. discriminate.
Defined.

Lemma boot_get_fdt_in_place_witness :
  boot_get_fdt (ex_legacy_mem 4096) (Some (text "1000")) ex_headers = Some (0, 4096, ex_hcrc_for 4096, ex_legacy_mem 4096) /\
  (ex_hcrc_for 4096 <> 0 -> boot_relocate_fdt ex_fdt_env ex_lmb 4096 (ex_hcrc_for 4096) (ex_legacy_mem 4096) =
    Some (1, 4096, ex_hcrc_for 4096, ex_lmb, ex_legacy_mem 4096)).
Proof.
  apply (boot_get_fdt_in_place (ex_legacy_mem 4096) (text "1000") (ex_fdt_header 4096 (ex_hcrc_for 4096)) ex_tree 4096 200).
  - apply ex_legacy; [vm_compute; reflexivity..|lia].
  - left. reflexivity.
  - vm_compute. reflexivity.
Defined.
