(* ===== verification/Uuid.v ===== *)
(** * UUIDs and GUIDs as text

    [lib/uuid.c] without [CONFIG_PARTITION_TYPE_GUID].  Strings are the
    characters before the NUL. *)

From S2P Require Import Prelude Mem Ctype Cstring Crc Strtoul Vsprintf RkParam Bytes.

Definition UUID_STR_LEN : Z := 36.

Inductive uuid_format := UUID_STR_FORMAT_STD | UUID_STR_FORMAT_GUID.

(** [i] and [valid] after the loop. *)
Fixpoint valid_loop (s : list Z) (i : Z) (valid : bool) : Z * bool :=
  match s with
  | [] => (i, valid)
  | c :: s =>
      if valid then
        valid_loop s (i + 1)
          (if (i =? 8) || (i =? 13) || (i =? 18) || (i =? 23) then c =? 45 else isxdigit c)
      else (i, valid)
  end.

Definition uuid_str_valid (uuid : option (list Z)) : bool :=
  match uuid with
  | None => false
  | Some s => let '(i, valid) := valid_loop s 0 true in (i =? UUID_STR_LEN) && valid
  end.

(** [n] bytes, the least significant one first or last; the C types cut the
    number. *)
Definition le_enc (n : nat) (v : Z) : list Z := le_bytes n v.
Definition be_enc (n : nat) (v : Z) : list Z := rev (le_bytes n v).

Definition hex_field (s : list Z) (at_ : nat) : Z := (simple_strtoul (drop at_ s) 16).1.

(** The binary form, or [-EINVAL]. *)
Definition uuid_str_to_bin (s : list Z) (str_format : uuid_format) : Z + list Z :=
  if negb (uuid_str_valid (Some s)) then inl (- EINVAL)
  else
    let enc := match str_format with UUID_STR_FORMAT_STD => be_enc | UUID_STR_FORMAT_GUID => le_enc end in
    let tmp64 := be_enc 8 (simple_strtoull (drop 24 s) 16).1 in
    inr (enc 4%nat (hex_field s 0) ++ enc 2%nat (hex_field s 9) ++ enc 2%nat (hex_field s 14) ++ be_enc 2 (hex_field s 19) ++ drop 2 tmp64).

Definition uuid_char_order : list nat := [0; 1; 2; 3; 4; 5; 6; 7; 8; 9; 10; 11; 12; 13; 14; 15]%nat.
Definition guid_char_order : list nat := [3; 2; 1; 0; 5; 4; 7; 6; 8; 9; 10; 11; 12; 13; 14; 15]%nat.

(** ["%02x"] *)
Definition fmt_02x : list Z := [37; 48; 50; 120].

(** [uuid_str] points to [pos] in the buffer [buf], which is at [addr]. *)
Fixpoint str_loop (order : list nat) (i : Z) (uuid_bin : list Z) (addr : Z) (buf : list Z) (pos : Z) : option (list Z) :=
  match order with
  | [] => Some buf
  | o :: order =>
      b ← uuid_bin !! o;
      '(_, out, _) ← sprintf (addr + pos) (drop (Z.to_nat pos) buf) fmt_02x [VInt b];
      let buf := take (Z.to_nat pos) buf ++ out in
      let pos := pos + 2 in
      if (i =? 3) || (i =? 5) || (i =? 7) || (i =? 9) then
        buf ← aset buf pos 45; str_loop order (i + 1) uuid_bin addr buf (pos + 1)
      else str_loop order (i + 1) uuid_bin addr buf pos
  end.

(** The buffer afterwards. *)
Definition uuid_bin_to_str (uuid_bin : list Z) (addr : Z) (buf : list Z) (str_format : uuid_format) : option (list Z) :=
  str_loop match str_format with UUID_STR_FORMAT_STD => uuid_char_order | UUID_STR_FORMAT_GUID => guid_char_order end
    0 uuid_bin addr buf 0.

(** ** Printing *)

Definition hex2 (b : Z) : list Z := [digit_char 97 (b / 16); digit_char 97 (b mod 16)].

Lemma directive_02x b : 0 <= b < 256 -> directive [48; 50; 120] 0 [VInt b] = Some (hex2 b, [], [], []).
Proof.
  intros Hb. pose (chk b := match directive [48; 50; 120] 0 [VInt b] with
    | Some (cs, [], [], []) => bool_decide (cs = hex2 b) | _ => false end).
  assert (chk b = true) as H by (revert b Hb; apply forall_byte; vm_compute; reflexivity). unfold chk in H.
  destruct (directive _ _ _) as [[[[? [|]] [|]] [|]]|]; try discriminate. by apply bool_decide_eq_true in H as ->.
Qed.

Lemma sprintf_02x addr b x y z buf :
  0 <= addr -> addr + INT_MAX < 2 ^ 64 -> 0 <= b < 256 ->
  sprintf addr (x :: y :: z :: buf) fmt_02x [VInt b] = Some (2, hex2 b ++ 0 :: buf, []).
Proof.
  intros Ha Hs Hb. unfold sprintf, vsprintf, vsnprintf_internal. change (2 ^ 64) with 18446744073709551616 in Hs.
  unfold INT_MAX in *. rewrite u64_small, (proj2 (Z.ltb_ge (addr + 2147483647) addr)) by lia. unfold fmt_02x. cbn [length format_loop Z.eqb Pos.eqb negb str].
  rewrite directive_02x by done. unfold hex2. generalize (digit_char 97 (b / 16)), (digit_char 97 (b mod 16)). intros c d.
  cbn [mbind option_bind addchs]. unfold ADDCH. cbn [str oend obuf nstores Z.add]. change (0 <? 2147483647) with true.
  rewrite !aset_Some by (rewrite ?length_insert; cbn [length]; lia). cbn [mbind option_bind str oend obuf nstores].
  change (0 + 1 <? 2147483647) with true. rewrite !aset_Some by (rewrite ?length_insert; cbn [length]; lia).
  cbn [mbind option_bind str oend obuf nstores app]. change (0 + 1 + 1 <? 2147483647) with true.
  rewrite !aset_Some by (rewrite ?length_insert; cbn [length]; lia). reflexivity.
Qed.

(** The text of sixteen bytes in the order of the groups. *)
Definition uuid_text (bs : list Z) : list Z :=
  mjoin (hex2 <$> take 4 bs) ++ [45] ++ mjoin (hex2 <$> take 2 (drop 4 bs)) ++ [45] ++
  mjoin (hex2 <$> take 2 (drop 6 bs)) ++ [45] ++ mjoin (hex2 <$> take 2 (drop 8 bs)) ++ [45] ++
  mjoin (hex2 <$> take 6 (drop 10 bs)).

(** The order in which the bytes are printed. *)
Definition ordered (str_format : uuid_format) (bs : list Z) : list Z :=
  match str_format with
  | UUID_STR_FORMAT_STD => bs
  | UUID_STR_FORMAT_GUID => rev (take 4 bs) ++ rev (take 2 (drop 4 bs)) ++ rev (take 2 (drop 6 bs)) ++ drop 8 bs
  end.

Definition dash (i : Z) : bool := (i =? 3) || (i =? 5) || (i =? 7) || (i =? 9).

Fixpoint groups (i : Z) (bs : list Z) : list Z :=
  match bs with
  | [] => []
  | b :: bs => hex2 b ++ (if dash i then [45] else []) ++ groups (i + 1) bs
  end.

Lemma str_loop_step o order i bin addr a x y z r b :
  bin !! o = Some b -> byte b -> 0 <= addr -> addr + Z.of_nat (length a) + INT_MAX < 2 ^ 64 ->
  str_loop (o :: order) i bin addr (a ++ x :: y :: z :: r) (Z.of_nat (length a)) =
  let a' := a ++ hex2 b ++ (if dash i then [45] else []) in
  str_loop order (i + 1) bin addr (a' ++ (if dash i then [] else [0]) ++ r) (Z.of_nat (length a')).
Proof.
  intros Hb Hr Ha Hs. cbn [str_loop]. rewrite Hb. cbn [mbind option_bind]. rewrite Nat2Z.id, drop_app_length, take_app_length.
  rewrite sprintf_02x by (unfold byte in *; lia). cbn [mbind option_bind]. fold (dash i).
  assert (a ++ hex2 b ++ 0 :: r = (a ++ hex2 b) ++ 0 :: r) as -> by (by rewrite <-app_assoc).
  assert (Z.of_nat (length a) + 2 = Z.of_nat (length (a ++ hex2 b))) as -> by (rewrite length_app; cbn; lia).
  destruct (dash i); cbn zeta.
  - rewrite aset_mid. cbn [mbind option_bind app]. rewrite <-!app_assoc. cbn [app hex2]. f_equal. rewrite !length_app. cbn. lia.
  - by rewrite app_nil_r.
Qed.

Lemma str_loop_groups order i bin addr a r bs :
  mapM (λ o, bin !! o) order = Some bs -> Forall byte bs -> order <> [] -> dash (i + Z.of_nat (length order) - 1) = false ->
  length r = S (length (groups i bs)) -> 0 <= addr -> addr + Z.of_nat (length a + length r) + INT_MAX < 2 ^ 64 ->
  str_loop order i bin addr (a ++ r) (Z.of_nat (length a)) = Some (a ++ groups i bs ++ [0]).
Proof.
  revert i a r bs. induction order as [|o order IH]; intros i a r bs Hm Hb Hne Hd Hl Ha Hs; [done|].
  cbn [mapM] in Hm. destruct (bin !! o) as [b|] eqn:Hbo; [|done]. cbn [mbind option_bind] in Hm.
  destruct (mapM _ order) as [bs'|] eqn:Hm'; [|done]. cbn [mbind option_bind mret option_ret] in Hm. injection Hm as <-.
  apply Forall_cons in Hb as [Hb Hb']. cbn [groups length] in *. rewrite !length_app in Hl. cbn [hex2 length] in Hl.
  do 3 (destruct r as [|? r]; [cbn [length] in Hl; lia|]). cbn [length] in Hl, Hs.
  rewrite (str_loop_step _ _ _ _ _ _ _ _ _ _ b) by (done || lia). cbn zeta.
  destruct order as [|o' order'].
  - cbn [mapM mret option_ret] in Hm'. injection Hm' as <-. cbn [length] in Hd. replace (i + Z.of_nat 1 - 1) with i in Hd by lia.
    rewrite Hd in Hl |- *. cbn [length groups app] in *. destruct r; [|cbn in Hl; lia]. cbn [str_loop]. rewrite !app_nil_r. by rewrite <-app_assoc.
  - rewrite (IH _ _ _ bs'); [by rewrite <-!app_assoc|done|done|done| | |done|].
    + rewrite <-Hd. f_equal. cbn [length]. lia.
    + destruct (dash i); cbn [length app] in *; lia.
    + rewrite !length_app. destruct (dash i); cbn [length hex2] in *; lia.
Qed.

Lemma uuid_bin_to_str_spec bs addr buf str_format :
  length bs = 16%nat -> Forall byte bs -> length buf = 37%nat -> 0 <= addr -> addr + 37 + INT_MAX < 2 ^ 64 ->
  uuid_bin_to_str bs addr buf str_format = Some (uuid_text (ordered str_format bs) ++ [0]).
Proof.
  intros Hl Hb Hbuf Ha Hs. do 16 (destruct bs as [|? bs]; [discriminate|]). destruct bs; [|discriminate].
  pose proof Hb as Hb'. repeat (apply Forall_cons in Hb' as [? Hb']). unfold uuid_bin_to_str.
  destruct str_format;
    (match goal with |- _ = Some (uuid_text ?o ++ _) => rewrite (str_loop_groups _ 0 _ addr [] buf o) end;
     [reflexivity|reflexivity|cbn; repeat (constructor; [assumption|]); constructor|done|done|by rewrite Hbuf|done|cbn [length]; lia]).
Qed.

(** ** Reading *)

Lemma valid_loop_spec s i j :
  valid_loop s i true = (j, true) ->
  j = i + Z.of_nat (length s) /\ ∀ k c, s !! k = Some c ->
    (let p := i + Z.of_nat k in if (p =? 8) || (p =? 13) || (p =? 18) || (p =? 23) then c =? 45 else isxdigit c) = true.
Proof.
  revert i. induction s as [|c s IH]; intros i H; [cbn in *; split; [injection H as <-; lia|done]|].
  cbn [valid_loop] in H. destruct (if (i =? 8) || (i =? 13) || (i =? 18) || (i =? 23) then c =? 45 else isxdigit c) eqn:Hc.
  - apply IH in H as [-> H]. cbn [length]. split; [lia|]. intros [|k] d Hk.
    + cbn in Hk. injection Hk as <-. cbn zeta. rewrite Z.add_0_r. done.
    + cbn zeta. specialize (H k d Hk). cbn zeta in H. by replace (i + Z.of_nat (S k)) with (i + 1 + Z.of_nat k) by lia.
  - destruct s as [|d s]; cbn in H; discriminate.
Qed.

Definition hexdigit (c : Z) : Prop := byte c /\ isxdigit c = true.

Lemma hexdigit_value c : hexdigit c -> 0 <= digit_value c < 16 /\ digit_char 97 (digit_value c) = tolower c.
Proof.
  intros [Hb Hx]. cut (negb (isxdigit c) || ((0 <=? digit_value c) && (digit_value c <? 16) && (digit_char 97 (digit_value c) =? tolower c)) = true).
  { rewrite Hx. cbn [negb orb]. rewrite !andb_true_iff, Z.leb_le, Z.ltb_lt, Z.eqb_eq. tauto. }
  clear Hx. revert c Hb. apply (forall_byte (λ c, negb (isxdigit c) || _)). vm_compute. reflexivity.
Qed.

Lemma digits_loop_hex cs rest r :
  Forall hexdigit cs -> isxdigit (ch rest) = false -> 0 <= r ->
  digits_loop (cs ++ rest) 16 (u64 r) = (u64 (foldl (λ r c, r * 16 + digit_value c) r cs), rest).
Proof.
  intros Hcs Hr. revert r. induction cs as [|c cs IH]; intros r H0.
  - cbn [app foldl]. destruct rest as [|c rest]; [done|]. cbn [digits_loop]. change (ch (c :: rest)) with c in Hr. by rewrite Hr.
  - apply Forall_cons in Hcs as [Hc Hcs]. destruct (hexdigit_value c Hc) as [Hv _]. destruct Hc as [_ Hx].
    cbn [app digits_loop foldl]. rewrite Hx, (proj2 (Z.ltb_lt _ _)) by lia. cbn [andb]. rewrite u64_fold. apply IH; [done|lia].
Qed.

(** A field of at least two digits. *)
Lemma field_hex c d cs rest :
  Forall hexdigit (c :: d :: cs) -> isxdigit (ch rest) = false ->
  simple_strtoul ((c :: d :: cs) ++ rest) 16 = (u64 (of_digits 16 (digit_value <$> c :: d :: cs)), rest).
Proof.
  intros Hcs Hr. unfold of_digits. rewrite foldl_fmap. rewrite <-(digits_loop_hex _ rest 0 Hcs Hr) by lia.
  apply Forall_cons in Hcs as Hcs'. destruct Hcs' as [Hc Hcs']. apply Forall_cons in Hcs' as [Hd _].
  unfold simple_strtoul, radix. change (ch ((c :: d :: cs) ++ rest)) with c. change (tail ((c :: d :: cs) ++ rest)) with ((d :: cs) ++ rest).
  destruct (Z.eqb_spec c 48) as [->|]; [|done]. change (ch ((d :: cs) ++ rest)) with d.
  destruct (Z.eqb_spec d 120) as [->|]; [by destruct Hd as [_ Hd]|]. cbn [andb Z.eqb app]. done.
Qed.

Lemma le_bytes_digits bs :
  Forall byte bs -> le_bytes (length bs) (of_digits 256 bs) = rev bs.
Proof.
  induction bs as [|b bs IH] using rev_ind; intros Hb; [done|]. apply Forall_app in Hb as [Hbs Hb]. apply Forall_cons in Hb as [Hb _].
  unfold byte in Hb. rewrite of_digits_snoc, length_app, Nat.add_1_r. cbn [le_bytes]. rewrite rev_app_distr. cbn [rev app].
  assert (u8 (of_digits 256 bs * 256 + b) = b) as ->.
  { unfold u8, wrap. change (2 ^ 8) with 256. rewrite Z.add_comm, Z.mod_add, Z.mod_small by lia. done. }
  rewrite Z.shiftr_div_pow2 by lia. change (2 ^ 8) with 256. rewrite Z.add_comm, Z.div_add, Z.div_small by lia. by rewrite Z.add_0_l, IH.
Qed.

(** The byte of two digits. *)
Definition byte_of (c d : Z) : Z := digit_value c * 16 + digit_value d.

Fixpoint pairs (cs : list Z) : list Z :=
  match cs with c :: d :: cs => byte_of c d :: pairs cs | _ => [] end.

Lemma byte_of_spec c d : hexdigit c -> hexdigit d -> byte (byte_of c d) /\ hex2 (byte_of c d) = [tolower c; tolower d].
Proof.
  intros Hc Hd. destruct (hexdigit_value c Hc) as [? Ec], (hexdigit_value d Hd) as [? Ed]. unfold byte, byte_of, hex2. split; [lia|].
  assert ((digit_value c * 16 + digit_value d) / 16 = digit_value c) as -> by (rewrite Z.div_add_l, Z.div_small by lia; lia).
  assert ((digit_value c * 16 + digit_value d) mod 16 = digit_value d) as -> by (rewrite Z.add_comm, Z.mod_add, Z.mod_small by lia; lia).
  by rewrite Ec, Ed.
Qed.

Lemma pairs_spec m cs :
  length cs = (2 * m)%nat -> Forall hexdigit cs ->
  length (pairs cs) = m /\ Forall byte (pairs cs) /\ mjoin (hex2 <$> pairs cs) = tolower <$> cs /\
  ∀ r, foldl (λ r d, r * 16 + d) r (digit_value <$> cs) = foldl (λ r b, r * 256 + b) r (pairs cs).
Proof.
  revert cs. induction m as [|m IH]; intros cs Hl Hcs; [by destruct cs|].
  destruct cs as [|c [|d cs]]; [cbn in Hl; lia..|]. apply Forall_cons in Hcs as [Hc Hcs]. apply Forall_cons in Hcs as [Hd Hcs].
  destruct (IH cs) as (H1 & H2 & H3 & H4); [cbn in Hl; lia|done|]. destruct (byte_of_spec c d Hc Hd) as [Hb Hh].
  cbn [pairs length]. split_and!; [lia|by constructor| |].
  - change (hex2 (byte_of c d) ++ mjoin (hex2 <$> pairs cs) = tolower <$> c :: d :: cs). by rewrite Hh, H3.
  - intros r. rewrite !fmap_cons. cbn [foldl]. rewrite H4. f_equal. unfold byte_of. lia.
Qed.

(** A field of the string, as bytes: [2 * n] digits and something else. *)
Lemma field_bytes n cs rest :
  length cs = (2 * n)%nat -> (1 <= n <= 8)%nat -> Forall hexdigit cs -> isxdigit (ch rest) = false ->
  le_bytes n (simple_strtoul (cs ++ rest) 16).1 = rev (pairs cs).
Proof.
  intros Hl Hn Hcs Hr. destruct (pairs_spec n cs Hl Hcs) as (H1 & H2 & _ & H4). specialize (H4 0).
  destruct cs as [|c [|d cs]]; [cbn in Hl; lia..|]. rewrite field_hex by done. cbn [fst].
  change (foldl (λ r d, r * 16 + d) 0 (digit_value <$> c :: d :: cs)) with (of_digits 16 (digit_value <$> c :: d :: cs)) in H4.
  change (foldl (λ r d, r * 256 + d) 0 (pairs (c :: d :: cs))) with (of_digits 256 (pairs (c :: d :: cs))) in H4.
  rewrite H4, u64_small; [rewrite <-H1 at 1; by apply le_bytes_digits|].
  pose proof (of_digits_range 256 (pairs (c :: d :: cs))) as Hrng. rewrite H1 in Hrng.
  assert (256 ^ Z.of_nat n <= 256 ^ 8) by (apply Z.pow_le_mono_r; lia). change (256 ^ 8) with 18446744073709551616 in *.
  apply Hrng in H2; [lia|done].
Qed.

(** The groups of a valid string. *)
Record uuid_groups (s a b c d e : list Z) : Prop := UuidGroups {
  ug_string : s = a ++ 45 :: b ++ 45 :: c ++ 45 :: d ++ 45 :: e;
  ug_lengths : length a = 8%nat /\ length b = 4%nat /\ length c = 4%nat /\ length d = 4%nat /\ length e = 12%nat;
  ug_digits : Forall hexdigit a /\ Forall hexdigit b /\ Forall hexdigit c /\ Forall hexdigit d /\ Forall hexdigit e
}.

Lemma uuid_str_valid_groups s :
  Forall byte s -> uuid_str_valid (Some s) = true -> ∃ a b c d e, uuid_groups s a b c d e.
Proof.
  intros Hb H. unfold uuid_str_valid in H. destruct (valid_loop s 0 true) as [j v] eqn:E.
  apply andb_true_iff in H as [->%Z.eqb_eq ->]. apply valid_loop_spec in E as [Hl Hc]. unfold UUID_STR_LEN in Hl.
  assert (∀ k, (k = 8 \/ k = 13 \/ k = 18 \/ k = 23)%nat -> drop k s = 45 :: drop (S k) s) as Hd.
  { intros k Hk. destruct (lookup_lt_is_Some_2 s k) as [x Hx]; [lia|]. rewrite (drop_S _ x k Hx). f_equal. apply Hc in Hx. cbn zeta in Hx.
    apply Z.eqb_eq. destruct Hk as [->|[->|[->| ->]]]; exact Hx. }
  assert (∀ k n, (∀ i, (k <= i < k + n)%nat -> (i <> 8 /\ i <> 13 /\ i <> 18 /\ i <> 23)%nat) -> Forall hexdigit (take n (drop k s))) as Hx.
  { intros k n Hk. apply Forall_lookup_2. intros i x Hi. pose proof (lookup_lt_Some _ _ _ Hi) as Hlt. rewrite length_take in Hlt.
    rewrite lookup_take_lt, lookup_drop in Hi by lia. split; [by eapply Forall_lookup_1|]. apply Hc in Hi. cbn zeta in Hi.
    specialize (Hk (k + i)%nat ltac:(lia)). repeat (rewrite (proj2 (Z.eqb_neq _ _)) in Hi by lia). exact Hi. }
  exists (take 8 s), (take 4 (drop 9 s)), (take 4 (drop 14 s)), (take 4 (drop 19 s)), (take 12 (drop 24 s)).
  assert (∀ k n r, drop (n + k) s = r -> drop k s = take n (drop k s) ++ r) as Hs.
  { intros k n r <-. rewrite <-(take_drop n (drop k s)) at 1. by rewrite drop_drop, Nat.add_comm. }
  split.
  - rewrite <-(drop_0 s) at 1. rewrite (Hs 0%nat 8%nat _ (Hd 8%nat ltac:(lia))), drop_0. do 2 f_equal.
    rewrite (Hs 9%nat 4%nat _ (Hd 13%nat ltac:(lia))) at 1. do 2 f_equal.
    rewrite (Hs 14%nat 4%nat _ (Hd 18%nat ltac:(lia))) at 1. do 2 f_equal.
    rewrite (Hs 19%nat 4%nat _ (Hd 23%nat ltac:(lia))) at 1. do 2 f_equal. rewrite take_ge; [done|]. rewrite length_drop. lia.
  - rewrite !length_take, !length_drop. lia.
  - rewrite <-(drop_0 s) at 1. split_and!; apply Hx; lia.
Qed.

(** The bytes of the groups, as they are written. *)
Definition group_bytes (a b c d e : list Z) : list Z := pairs a ++ pairs b ++ pairs c ++ pairs d ++ pairs e.

Lemma uuid_str_to_bin_groups s a b c d e str_format :
  Forall byte s -> uuid_groups s a b c d e -> uuid_str_valid (Some s) = true ->
  uuid_str_to_bin s str_format = inr (ordered str_format (group_bytes a b c d e)).
Proof.
  intros Hb [Hs (La & Lb & Lc & Ld & Le) (Ha & Hbb & Hc & Hd & He)] Hv. unfold uuid_str_to_bin. rewrite Hv. cbn [negb].
  assert (∀ (x y : list Z) z k n, length x = k -> drop (S k + n) (x ++ z :: y) = drop n y) as Hdrop.
  { intros x y z k n <-. rewrite <-Nat.add_1_r, <-Nat.add_assoc, <-drop_drop, drop_app_length. done. }
  assert (drop 9 s = b ++ 45 :: c ++ 45 :: d ++ 45 :: e) as H9 by (rewrite Hs; apply (Hdrop _ _ _ 8%nat 0%nat La)).
  assert (drop 14 s = c ++ 45 :: d ++ 45 :: e) as H14.
  { change 14%nat with (9 + 5)%nat. rewrite <-drop_drop, H9. apply (Hdrop _ _ _ 4%nat 0%nat Lb). }
  assert (drop 19 s = d ++ 45 :: e) as H19.
  { change 19%nat with (14 + 5)%nat. rewrite <-drop_drop, H14. apply (Hdrop _ _ _ 4%nat 0%nat Lc). }
  assert (drop 24 s = e ++ []) as H24.
  { change 24%nat with (19 + 5)%nat. rewrite <-drop_drop, H19, app_nil_r. apply (Hdrop _ _ _ 4%nat 0%nat Ld). }
  assert (drop 0 s = a ++ 45 :: b ++ 45 :: c ++ 45 :: d ++ 45 :: e) as H0 by done.
  assert (drop 2 (be_enc 8 (simple_strtoull (drop 24 s) 16).1) = pairs e) as ->.
  { rewrite H24. change (simple_strtoull (e ++ []) 16) with (simple_strtoul (e ++ []) 16).
    destruct (pairs_spec 6 e Le He) as (L & Hbe & _ & Hv6). pose proof (field_bytes 6 e [] Le ltac:(lia) He eq_refl) as F.
    destruct e as [|x [|y e']]; [discriminate..|]. rewrite (field_hex x y e' [] He eq_refl) in *. cbn [fst] in *.
    unfold of_digits in *. rewrite Hv6 in *. rewrite u64_small.
    - unfold be_enc. change (foldl (λ r b, r * 256 + b) 0 (pairs (x :: y :: e'))) with (of_digits 256 (0 :: 0 :: pairs (x :: y :: e'))).
      replace 8%nat with (length (0 :: 0 :: pairs (x :: y :: e'))) by (cbn [length]; lia).
      rewrite le_bytes_digits, rev_involutive; [done|]. apply Forall_cons; split; [unfold byte; lia|]. apply Forall_cons. split; [unfold byte; lia|done].
    - pose proof (of_digits_range 256 (pairs (x :: y :: e')) ltac:(lia) Hbe) as Hr. rewrite L in Hr.
      change (256 ^ Z.of_nat 6) with 281474976710656 in Hr. unfold of_digits in Hr. lia. }
  unfold hex_field. rewrite H0, H9, H14, H19. unfold group_bytes.
  destruct (pairs_spec 4 a La Ha) as (Pa & _), (pairs_spec 2 b Lb Hbb) as (Pb & _), (pairs_spec 2 c Lc Hc) as (Pc & _).
  unfold be_enc, le_enc. destruct str_format; rewrite !field_bytes by (done || lia); rewrite ?rev_involutive; [done|]. unfold ordered.
  rewrite !take_app_length' by done. rewrite (drop_app_length' (pairs a)), take_app_length' by done.
  change 6%nat with (4 + 2)%nat at 1. change 8%nat with (4 + 2 + 2)%nat. rewrite <-!drop_drop.
  rewrite (drop_app_length' (pairs a)), (drop_app_length' (pairs b)), take_app_length', (drop_app_length' (pairs c)) by done. done.
Qed.

Lemma ordered_involutive str_format bs : length bs = 16%nat -> ordered str_format (ordered str_format bs) = bs.
Proof. intros H. do 16 (destruct bs as [|? bs]; [discriminate|]). destruct bs; [|discriminate]. by destruct str_format. Qed.

Lemma ordered_bytes str_format bs :
  length bs = 16%nat -> Forall byte bs -> length (ordered str_format bs) = 16%nat /\ Forall byte (ordered str_format bs).
Proof.
  intros H Hb. do 16 (destruct bs as [|? bs]; [discriminate|]). destruct bs; [|discriminate].
  repeat (apply Forall_cons in Hb as [? Hb]). destruct str_format; (split; [done|]); cbn; repeat (constructor; [assumption|]); constructor.
Qed.

Lemma group_bytes_spec s a b c d e :
  uuid_groups s a b c d e ->
  length (group_bytes a b c d e) = 16%nat /\ Forall byte (group_bytes a b c d e) /\ uuid_text (group_bytes a b c d e) = tolower <$> s.
Proof.
  intros [-> (La & Lb & Lc & Ld & Le) (Ha & Hb & Hc & Hd & He)]. unfold group_bytes.
  destruct (pairs_spec 4 a La Ha) as (Pa & Ba & Ta & _), (pairs_spec 2 b Lb Hb) as (Pb & Bb & Tb & _), (pairs_spec 2 c Lc Hc) as (Pc & Bc & Tc & _),
    (pairs_spec 2 d Ld Hd) as (Pd & Bd & Td & _), (pairs_spec 6 e Le He) as (Pe & Be & Te & _).
  rewrite !length_app, !Forall_app. split; [lia|]. split; [tauto|]. unfold uuid_text.
  change 10%nat with (4 + 2 + 2 + 2)%nat at 1. change 8%nat with (4 + 2 + 2)%nat at 1. change 6%nat with (4 + 2)%nat at 1. rewrite <-!drop_drop.
  rewrite take_app_length' by done. rewrite !(drop_app_length' (pairs a)) by done. rewrite take_app_length' by done.
  rewrite !(drop_app_length' (pairs b)) by done. rewrite take_app_length' by done. rewrite !(drop_app_length' (pairs c)) by done.
  rewrite take_app_length' by done. rewrite !(drop_app_length' (pairs d)) by done. rewrite take_ge by lia.
  rewrite Ta, Tb, Tc, Td, Te, fmap_app, fmap_cons, fmap_app, fmap_cons, fmap_app, fmap_cons, fmap_app, fmap_cons. done.
Qed.

(** A valid UUID or GUID string is read and printed back in lower case, in
    the same format. *)
Theorem uuid_string_roundtrip s addr buf str_format :
  Forall byte s -> uuid_str_valid (Some s) = true -> length buf = 37%nat -> 0 <= addr -> addr + 37 + INT_MAX < 2 ^ 64 ->
  ∃ b, uuid_str_to_bin s str_format = inr b /\ length b = 16%nat /\ Forall byte b /\
    uuid_bin_to_str b addr buf str_format = Some ((tolower <$> s) ++ [0]).
Proof.
  intros Hb Hv Hl Ha Hs. destruct (uuid_str_valid_groups s Hb Hv) as (a & b & c & d & e & Hg).
  destruct (group_bytes_spec _ _ _ _ _ _ Hg) as (L & B & T). destruct (ordered_bytes str_format _ L B) as [L' B'].
  eexists. split; [by apply (uuid_str_to_bin_groups s a b c d e)|]. split; [done|]. split; [done|].
  rewrite uuid_bin_to_str_spec by done. by rewrite ordered_involutive, T.
Qed.

Definition ex_uuid : list Z := text "00112233-4455-6677-8899-AABBCCDDEEFF".

Lemma uuid_string_roundtrip_witness :
  ∃ b, uuid_str_to_bin ex_uuid UUID_STR_FORMAT_GUID = inr b /\ length b = 16%nat /\ Forall byte b /\
    uuid_bin_to_str b 4096 (replicate 37 0) UUID_STR_FORMAT_GUID = Some ((tolower <$> ex_uuid) ++ [0]).
Proof.
  apply (uuid_string_roundtrip ex_uuid 4096 (replicate 37 0) UUID_STR_FORMAT_GUID);
    [apply all_bytes; vm_compute; reflexivity|vm_compute; reflexivity|reflexivity|lia|unfold INT_MAX; lia].
Defined.
