(* ===== verification/PartEfi.v ===== *)
(** * GUID partition tables

    [disk/part_efi.c] and [include/part_efi.h], with [CONFIG_PARTITION_UUIDS] and
    without [CONFIG_PARTITION_TYPE_GUID], on a little-endian CPU whose [ulong]
    has 64 bits.  [None] is an access outside of a buffer. *)

From S2P Require Import Prelude Mem Ctype Cstring Crc Strtoul Vsprintf RkParam Bytes Uuid.

(** ** The structures *)

Definition MSDOS_MBR_SIGNATURE : Z := 0xAA55.
Definition EFI_PMBR_OSTYPE_EFI_GPT : Z := 0xEE.
Definition GPT_HEADER_SIGNATURE : Z := 0x5452415020494645.
Definition GPT_HEADER_REVISION_V1 : Z := 0x00010000.
Definition GPT_PRIMARY_PARTITION_TABLE_LBA : Z := 1.
Definition GPT_ENTRY_NUMBERS : Z := 128.
Definition PARTNAME_SZ : nat := 36.

Definition EFI_GUID (a b c : Z) (d : list Z) : list Z := le_bytes 4 a ++ le_bytes 2 b ++ le_bytes 2 c ++ d.
Definition PARTITION_SYSTEM_GUID : list Z :=
  EFI_GUID 0xC12A7328 0xF81F 0x11d2 [0xBA; 0x4B; 0x00; 0xA0; 0xC9; 0x3E; 0xC9; 0x3B].
Definition PARTITION_BASIC_DATA_GUID : list Z :=
  EFI_GUID 0xEBD0A0A2 0xB9E5 0x4433 [0x87; 0xC0; 0x68; 0xB6; 0xB7; 0x26; 0x99; 0xC7].

(** [n] bytes at [off], the least significant one first. *)
Definition lev (b : list Z) : Z := foldr (λ x v, v * 256 + x) 0 b.
Definition fld (off n : nat) (b : list Z) : Z := lev (take n (drop off b)).
Definition sub (off n : nat) (b : list Z) : list Z := take n (drop off b).

Record gpt_header := GptHeader {
  signature : Z;
  revision : Z;
  header_size : Z;
  header_crc32 : Z;
  reserved1 : Z;
  my_lba : Z;
  alternate_lba : Z;
  first_usable_lba : Z;
  last_usable_lba : Z;
  disk_guid : list Z;
  partition_entry_lba : Z;
  num_partition_entries : Z;
  sizeof_partition_entry : Z;
  partition_entry_array_crc32 : Z
}.

Definition header_bytes (h : gpt_header) : list Z :=
  le_bytes 8 (signature h) ++ le_bytes 4 (revision h) ++ le_bytes 4 (header_size h) ++ le_bytes 4 (header_crc32 h) ++
  le_bytes 4 (reserved1 h) ++ le_bytes 8 (my_lba h) ++ le_bytes 8 (alternate_lba h) ++ le_bytes 8 (first_usable_lba h) ++
  le_bytes 8 (last_usable_lba h) ++ disk_guid h ++ le_bytes 8 (partition_entry_lba h) ++ le_bytes 4 (num_partition_entries h) ++
  le_bytes 4 (sizeof_partition_entry h) ++ le_bytes 4 (partition_entry_array_crc32 h).

Definition header_of (b : list Z) : gpt_header :=
  GptHeader (fld 0 8 b) (fld 8 4 b) (fld 12 4 b) (fld 16 4 b) (fld 20 4 b) (fld 24 8 b) (fld 32 8 b) (fld 40 8 b) (fld 48 8 b)
    (sub 56 16 b) (fld 72 8 b) (fld 80 4 b) (fld 84 4 b) (fld 88 4 b).

(** The attributes are the 64 bits of the union. *)
Record gpt_entry := GptEntry {
  partition_type_guid : list Z;
  unique_partition_guid : list Z;
  starting_lba : Z;
  ending_lba : Z;
  attributes : Z;
  partition_name : list Z
}.

Definition entry_bytes (e : gpt_entry) : list Z :=
  partition_type_guid e ++ unique_partition_guid e ++ le_bytes 8 (starting_lba e) ++ le_bytes 8 (ending_lba e) ++
  le_bytes 8 (attributes e) ++ mjoin (le_bytes 2 <$> partition_name e).

Definition entry_of (b : list Z) : gpt_entry :=
  GptEntry (sub 0 16 b) (sub 16 16 b) (fld 32 8 b) (fld 40 8 b) (fld 48 8 b)
    ((λ k, fld (56 + 2 * k) 2 b) <$> seq 0 PARTNAME_SZ).

(** [gpt_pte[i]] in a buffer *)
Definition pte_at (pte : list Z) (i : Z) : option gpt_entry :=
  if decide (0 <= i /\ 128 * i + 128 <= Z.of_nat (length pte)) then Some (entry_of (drop (Z.to_nat (128 * i)) pte)) else None.

(** The text of [name] and [type] is one array: 32 bytes each. *)
Record disk_partition_t := DiskPartition {
  start : Z;
  psize : Z;
  pblksz : Z;
  name_type : list Z;
  bootable : Z;
  uuid : list Z
}.

(** The characters of an array before its NUL. *)
Fixpoint cstring (l : list Z) : list Z :=
  match l with
  | [] => []
  | c :: l => if c =? 0 then [] else c :: cstring l
  end.

(** ** The device *)

(** The blocks read or written, and the data. *)
Class BlockDev (D : Type) := {
  block_read : D -> Z -> Z -> Z * list Z;
  block_write : D -> Z -> Z -> list Z -> Z * D
}.

(** The geometry of [block_dev_desc_t]. *)
Record block_dev_desc := BlockDesc { lba : Z; blksz : Z }.

Definition PAD_COUNT (s pad : Z) : Z := u64 (s - 1) / pad + 1.
Definition BLOCK_CNT (size : Z) (dev : block_dev_desc) : Z := PAD_COUNT size (blksz dev).
Definition PAD_TO_BLOCKSIZE (size : Z) (dev : block_dev_desc) : Z := PAD_COUNT size (blksz dev) * blksz dev.

(** ** Checks *)

Definition efi_crc32 (buf : list Z) : Z := crc32 0 0 buf.

(** The first [n] bytes of a buffer; [None] when it is shorter. *)
Definition prefix_of (n : Z) (buf : list Z) : option (list Z) :=
  if n <=? Z.of_nat (length buf) then Some (take (Z.to_nat n) buf) else None.

(** The header is in a buffer of one block, as it was read. *)
Definition validate_gpt_header (buf : list Z) (lba lastlba : Z) : option Z :=
  let gpt_h := header_of buf in
  if negb (signature gpt_h =? GPT_HEADER_SIGNATURE) then Some (-1)
  else
    let crc32_backup := header_crc32 gpt_h in
    covered ← prefix_of (header_size gpt_h) (take 16 buf ++ le_bytes 4 0 ++ drop 20 buf);
    if negb (efi_crc32 covered =? crc32_backup) then Some (-1)
    else if negb (my_lba gpt_h =? lba) then Some (-1)
    else if lastlba <? first_usable_lba gpt_h then Some (-1)
    else if lastlba <? last_usable_lba gpt_h then Some (-1)
    else Some 0.

Definition validate_gpt_entries (gpt_h : gpt_header) (gpt_e : list Z) : option Z :=
  covered ← prefix_of (u32 (num_partition_entries gpt_h * sizeof_partition_entry gpt_h)) gpt_e;
  if negb (efi_crc32 covered =? partition_entry_array_crc32 gpt_h) then Some (-1) else Some 0.

Definition is_pte_valid (pte : gpt_entry) : bool := negb (bool_decide (partition_type_guid pte = replicate 16 0)).

Definition is_bootable (p : gpt_entry) : Z :=
  if Z.testbit (attributes p) 2 || bool_decide (partition_type_guid p = PARTITION_SYSTEM_GUID) then 1 else 0.

(** [partition_record[i]], behind the boot code, a signature and two bytes *)
Definition pmbr_part_valid (mbr : list Z) (i : nat) : bool :=
  (fld (446 + 16 * i + 4) 1 mbr =? EFI_PMBR_OSTYPE_EFI_GPT) && (fld (446 + 16 * i + 8) 4 mbr =? 1).

Definition is_pmbr_valid (mbr : list Z) : bool :=
  if negb (fld 510 2 mbr =? MSDOS_MBR_SIGNATURE) then false
  else pmbr_part_valid mbr 0 || pmbr_part_valid mbr 1 || pmbr_part_valid mbr 2 || pmbr_part_valid mbr 3.

Definition isprint (c : Z) : bool := has_class c (_P .| _U .| _L .| _D .| _SP).

(** The 36 characters, with what is not printable replaced, and a NUL. *)
Definition print_efiname (pte : gpt_entry) : list Z :=
  cstring ((λ w, let c := w .& 0xff in if negb (c =? 0) && negb (isprint c) then 46 else c) <$> partition_name pte).

Section device.
Context {D : Type} `{!BlockDev D} (dev : block_dev_desc).

(** What [memalign] and [calloc] have memory for. *)
Context (can_alloc : Z -> bool).

(** ** Reading *)

(** The buffer, or [NULL]. *)
Definition alloc_read_gpt_entries (d : D) (pgpt_head : gpt_header) : option (list Z) :=
  let count := u32 (num_partition_entries pgpt_head * sizeof_partition_entry pgpt_head) in
  if (count =? 0) || negb (can_alloc (PAD_TO_BLOCKSIZE count dev)) then None
  else
    let blk_cnt := BLOCK_CNT count dev in
    let '(r, pte) := block_read d (partition_entry_lba pgpt_head) blk_cnt in
    if negb (r =? blk_cnt) then None else Some pte.

(** The block of the header and the entries, when it returns 1. *)
Definition is_gpt_valid (d : D) (lba_ : Z) : option (option (list Z * list Z)) :=
  let '(r, pgpt_head) := block_read d lba_ 1 in
  if negb (r =? 1) then Some None
  else
    err ← validate_gpt_header pgpt_head lba_ (lba dev);
    if negb (err =? 0) then Some None
    else
      match alloc_read_gpt_entries d (header_of pgpt_head) with
      | None => Some None
      | Some pgpt_pte =>
          err ← validate_gpt_entries (header_of pgpt_head) pgpt_pte;
          if negb (err =? 0) then Some None else Some (Some (pgpt_head, pgpt_pte))
      end.

(** The primary table, or the backup in the last block. *)
Definition find_gpt (d : D) : option (option (list Z * list Z)) :=
  r ← is_gpt_valid d GPT_PRIMARY_PARTITION_TABLE_LBA;
  match r with
  | Some t => Some (Some t)
  | None => is_gpt_valid d (u64 (lba dev - 1))
  end.

(** The result and [*info], which is at [addr]. *)
Definition get_partition_info_efi (d : D) (part : Z) (addr : Z) (info : disk_partition_t) : option (Z * disk_partition_t) :=
  if part <? 1 then Some (-1, info)
  else
    t ← find_gpt d;
    match t with
    | None => Some (-1, info)
    | Some (gpt_head, gpt_pte) =>
        if num_partition_entries (header_of gpt_head) <? part then Some (-1, info)
        else
          pte ← pte_at gpt_pte (part - 1);
          if negb (is_pte_valid pte) then Some (-1, info)
          else
            let s := starting_lba pte in
            '(_, text1, _) ← sprintf (addr + 24) (name_type info) [37; 115] [VStr (Some (print_efiname pte))];
            '(_, text2, _) ← sprintf (addr + 56) (drop 32 text1) (text "U-Boot") [];
            id ← uuid_bin_to_str (unique_partition_guid pte) (addr + 92) (uuid info) UUID_STR_FORMAT_GUID;
            Some (0, DiskPartition s (u64 (ending_lba pte + 1 - s)) (blksz dev) (take 32 text1 ++ text2) (is_bootable pte) id)
    end.

(** [for (i = 1; i < GPT_ENTRY_NUMBERS; i++)]; [n] more turns *)
Fixpoint by_name_loop (n : nat) (d : D) (i : Z) (name : list Z) (addr : Z) (info : disk_partition_t) : option (Z * disk_partition_t) :=
  match n with
  | O => Some (-2, info)
  | S n =>
      '(ret, info) ← get_partition_info_efi d i addr info;
      if negb (ret =? 0) then Some (-1, info)
      else if bool_decide (name = cstring (name_type info)) then Some (0, info)
      else by_name_loop n d (i + 1) name addr info
  end.

Definition get_partition_info_efi_by_name (d : D) (name : list Z) (addr : Z) (info : disk_partition_t) : option (Z * disk_partition_t) :=
  by_name_loop (Z.to_nat (GPT_ENTRY_NUMBERS - 1)) d 1 name addr info.

Definition test_part_efi (d : D) : Z :=
  let '(r, legacymbr) := block_read d 0 1 in
  if negb (r =? 1) || negb (is_pmbr_valid legacymbr) then -1 else 0.

(** ** Writing *)

(** The protective MBR. *)
Definition protective_mbr : list Z :=
  replicate 446 0 ++
  [0; 0; 0; 0; EFI_PMBR_OSTYPE_EFI_GPT; 0; 0; 0] ++ le_bytes 4 1 ++ le_bytes 4 (u32 (u32 (lba dev) - 1)) ++
  replicate 48 0 ++ le_bytes 2 MSDOS_MBR_SIGNATURE.

Definition set_protective_mbr (d : D) : Z * D :=
  let '(r, d) := block_write d 0 1 protective_mbr in
  (if negb (r =? 1) then -1 else 0, d).

(** The header is followed by [pad] in its buffer. *)
Definition crc_header (gpt_h : gpt_header) (pad : list Z) : option Z :=
  covered ← prefix_of (header_size gpt_h) (header_bytes gpt_h ++ pad); Some (efi_crc32 covered).

Definition with_array_crc (c : Z) (h : gpt_header) : gpt_header :=
  GptHeader (signature h) (revision h) (header_size h) (header_crc32 h) (reserved1 h) (my_lba h) (alternate_lba h) (first_usable_lba h)
    (last_usable_lba h) (disk_guid h) (partition_entry_lba h) (num_partition_entries h) (sizeof_partition_entry h) c.
Definition with_crc (c : Z) (h : gpt_header) : gpt_header :=
  GptHeader (signature h) (revision h) (header_size h) c (reserved1 h) (my_lba h) (alternate_lba h) (first_usable_lba h)
    (last_usable_lba h) (disk_guid h) (partition_entry_lba h) (num_partition_entries h) (sizeof_partition_entry h) (partition_entry_array_crc32 h).
Definition swap_lba (h : gpt_header) : gpt_header :=
  GptHeader (signature h) (revision h) (header_size h) 0 (reserved1 h) (alternate_lba h) (my_lba h) (first_usable_lba h)
    (last_usable_lba h) (disk_guid h) (u64 (last_usable_lba h + 1)) (num_partition_entries h) (sizeof_partition_entry h)
    (partition_entry_array_crc32 h).

Definition prepare_backup_gpt_header (gpt_h : gpt_header) (pad : list Z) : option gpt_header :=
  let gpt_h := swap_lba gpt_h in
  c ← crc_header gpt_h pad; Some (with_crc c gpt_h).

(** Each [block_write] of the table; the first that is short ends it. *)
Definition and_write (cnt : Z) (at_ : Z) (buf : list Z) (k : D -> option (Z * D)) (d : D) : option (Z * D) :=
  let '(r, d) := block_write d at_ cnt buf in
  if negb (r =? cnt) then Some (-1, d) else k d.

(** [gpt_e] is the buffer of the entries. *)
Definition write_gpt_table (d : D) (gpt_h : gpt_header) (pad gpt_e : list Z) : option (Z * D) :=
  let pte_blk_cnt := s32 (BLOCK_CNT (num_partition_entries gpt_h * 128) dev) in
  let '(r, d) := set_protective_mbr d in
  if r <? 0 then Some (-1, d)
  else
    covered ← prefix_of (u32 (num_partition_entries gpt_h * sizeof_partition_entry gpt_h)) gpt_e;
    let gpt_h := with_array_crc (efi_crc32 covered) gpt_h in
    c ← crc_header gpt_h pad;
    let gpt_h := with_crc c gpt_h in
    backup ← prepare_backup_gpt_header gpt_h pad;
    and_write 1 1 (header_bytes gpt_h ++ pad)
      (and_write pte_blk_cnt 2 gpt_e
        (and_write pte_blk_cnt (u64 (last_usable_lba backup + 1)) gpt_e
          (and_write 1 (my_lba backup) (header_bytes backup ++ pad) (λ d, Some (0, d))))) d.

(** One entry; the name is the 32 bytes of the array. *)
Definition fill_entry (p : disk_partition_t) (first last : Z) (id : list Z) : gpt_entry :=
  GptEntry PARTITION_BASIC_DATA_GUID id first last (if bootable p =? 0 then 0 else 4) (take 32 (name_type p) ++ replicate 4 0).

(** The partitions from number [i] on: [-1], or the entries. *)
Fixpoint fill_loop (gpt_h : gpt_header) (gpt_e : list gpt_entry) (partitions : list disk_partition_t) (i offset : Z)
    : option (option (list gpt_entry)) :=
  match partitions with
  | [] => Some (Some gpt_e)
  | p :: rest =>
      if negb (start p =? 0) && (start p <? offset) then Some None
      else
        let first := if start p =? 0 then offset else start p in
        let offset := u64 (first + psize p) in
        if last_usable_lba gpt_h <=? offset then Some None
        else
          let last := if bool_decide (rest = []) && (psize p =? 0) then last_usable_lba gpt_h else u64 (offset - 1) in
          match uuid_str_to_bin (cstring (uuid p)) UUID_STR_FORMAT_STD with
          | inl _ => Some None
          | inr id => gpt_e ← aset gpt_e i (fill_entry p first last id); fill_loop gpt_h gpt_e rest (i + 1) offset
          end
  end.

Definition gpt_fill_pte (gpt_h : gpt_header) (gpt_e : list gpt_entry) (partitions : list disk_partition_t) : option (option (list gpt_entry)) :=
  fill_loop gpt_h gpt_e partitions 0 (first_usable_lba gpt_h).

(** The header after [calloc], or [-1]. *)
Definition gpt_fill_header (str_guid : list Z) : option gpt_header :=
  match uuid_str_to_bin str_guid UUID_STR_FORMAT_GUID with
  | inl _ => None
  | inr id =>
      Some (GptHeader GPT_HEADER_SIGNATURE GPT_HEADER_REVISION_V1 92 0 0 1 (u64 (lba dev - 1)) 34 (u64 (lba dev - 34)) id 2
              GPT_ENTRY_NUMBERS 128 0)
  end.

Definition empty_entry : gpt_entry := GptEntry (replicate 16 0) (replicate 16 0) 0 0 0 (replicate PARTNAME_SZ 0).
Definition entries_bytes (es : list gpt_entry) : list Z := mjoin (entry_bytes <$> es).

(** What [calloc] gives behind a structure of [n] bytes. *)
Definition padding (n : Z) : list Z := replicate (Z.to_nat (PAD_TO_BLOCKSIZE n dev - n)) 0.

Definition gpt_restore (d : D) (str_disk_guid : list Z) (partitions : list disk_partition_t) : option (Z * D) :=
  if negb (can_alloc (PAD_TO_BLOCKSIZE 92 dev)) then Some (-1, d)
  else if negb (can_alloc (PAD_TO_BLOCKSIZE (GPT_ENTRY_NUMBERS * 128) dev)) then Some (-1, d)
  else
    match gpt_fill_header str_disk_guid with
    | None => Some (-1, d)
    | Some gpt_h =>
        es ← gpt_fill_pte gpt_h (replicate (Z.to_nat GPT_ENTRY_NUMBERS) empty_entry) partitions;
        match es with
        | None => Some (-1, d)
        | Some es => write_gpt_table d gpt_h (padding 92) (entries_bytes es ++ padding (GPT_ENTRY_NUMBERS * 128))
        end
    end.

(** ** Verifying *)

(** [ess] are the bytes from the name on; [s] gets [n] characters. *)
Fixpoint convert_loop (n : nat) (ess : list Z) (i : nat) : option (list Z) :=
  match n with
  | O => Some []
  | S n =>
      c ← ess !! i;
      if c =? 0 then Some (replicate (S n) 0) else s ← convert_loop n ess (i + 2); Some (c :: s)
  end.

Definition gpt_convert_efi_name_to_char (ess : list Z) (n : nat) : option (list Z) := convert_loop n ess 0.

(** The backup header and its entries, when it returns 0. *)
Definition gpt_verify_headers (d : D) : option (option (list Z * list Z)) :=
  r ← is_gpt_valid d GPT_PRIMARY_PARTITION_TABLE_LBA;
  match r with
  | None => Some None
  | Some _ => is_gpt_valid d (u64 (lba dev - 1))
  end.

(** [strncmp] of two arrays, when it is 0 *)
Fixpoint same_name (n : nat) (s t : list Z) : option bool :=
  match n with
  | O => Some true
  | S n =>
      a ← head s; b ← head t;
      if negb (a =? b) then Some false else if a =? 0 then Some true else same_name n (tail s) (tail t)
  end.

Fixpoint verify_loop (gpt_head : gpt_header) (gpt_e : list Z) (partitions : list disk_partition_t) (i : Z) : option Z :=
  match partitions with
  | [] => Some 0
  | p :: rest =>
      if i =? num_partition_entries gpt_head then Some (-1)
      else
        efi_str ← gpt_convert_efi_name_to_char (drop (Z.to_nat (128 * i + 56)) gpt_e) (PARTNAME_SZ + 1);
        same ← same_name 32 efi_str (name_type p);
        if negb same then Some (-1)
        else
          e ← pte_at gpt_e i;
          let gpt_part_size := u64 (ending_lba e - starting_lba e + 1) in
          if negb (gpt_part_size =? psize p) then Some (-1)
          else if negb (start p =? 0) && negb (starting_lba e =? start p) then Some (-1)
          else verify_loop gpt_head gpt_e rest (i + 1)
  end.

Definition gpt_verify_partitions (d : D) (partitions : list disk_partition_t) : option Z :=
  t ← gpt_verify_headers d;
  match t with
  | None => Some (-1)
  | Some (gpt_head, gpt_pte) => verify_loop (header_of gpt_head) gpt_pte partitions 0
  end.

(** ** Tables that are given as an image *)

(** The buffer from an offset on. *)
Definition at_offset (off : Z) (buf : list Z) : option (list Z) :=
  if decide (0 <= off <= Z.of_nat (length buf)) then Some (drop (Z.to_nat off) buf) else None.

(** A structure of [n] bytes is read from the buffer. *)
Definition header_at (buf : list Z) : option (list Z) :=
  h ← at_offset (GPT_PRIMARY_PARTITION_TABLE_LBA * blksz dev) buf;
  if decide (92 <= length h)%nat then Some h else None.

Definition is_valid_gpt_buf (buf : list Z) : option Z :=
  gpt_h ← header_at buf;
  err ← validate_gpt_header gpt_h GPT_PRIMARY_PARTITION_TABLE_LBA (lba dev);
  if negb (err =? 0) then Some (-1)
  else
    gpt_e ← at_offset (u64 (partition_entry_lba (header_of gpt_h) * blksz dev)) buf;
    err ← validate_gpt_entries (header_of gpt_h) gpt_e;
    if negb (err =? 0) then Some (-1) else Some 0.

(** As [and_write], with another result. *)
Definition or_one (cnt at_ : Z) (buf : list Z) (k : D -> option (Z * D)) (d : D) : option (Z * D) :=
  let '(r, d) := block_write d at_ cnt buf in
  if negb (r =? cnt) then Some (1, d) else k d.

(** The backup header is made in place, in the buffer.  The number of bytes of
    the entries has 32 bits here. *)
Definition write_mbr_and_gpt_partitions (d : D) (buf : list Z) : option (Z * D) :=
  err ← is_valid_gpt_buf buf;
  if negb (err =? 0) then Some (-1, d)
  else
    hbuf ← header_at buf;
    let gpt_h := header_of hbuf in
    gpt_e ← at_offset (u64 (partition_entry_lba gpt_h * blksz dev)) buf;
    let gpt_e_blk_cnt := s32 (u32 (u32 (num_partition_entries gpt_h * sizeof_partition_entry gpt_h) - 1) / blksz dev + 1) in
    backup ← prepare_backup_gpt_header gpt_h (drop 92 hbuf);
    let hbuf' := header_bytes backup ++ drop 92 hbuf in
    gpt_e' ← at_offset (u64 (partition_entry_lba gpt_h * blksz dev)) (take (Z.to_nat (blksz dev)) buf ++ hbuf');
    or_one 1 0 buf
      (or_one 1 GPT_PRIMARY_PARTITION_TABLE_LBA hbuf
        (or_one gpt_e_blk_cnt (partition_entry_lba gpt_h) gpt_e
          (or_one gpt_e_blk_cnt (partition_entry_lba backup) gpt_e'
            (or_one 1 (my_lba backup) hbuf' (λ d, Some (0, d)))))) d.

End device.
