(* ===== verification/PartEfiTable.v ===== *)
(** * Partition tables on a disk

    What [PartEfi] writes is what it reads, and what a failing disk leaves. *)

From S2P Require Import Prelude Mem Ctype Cstring Crc Strtoul Vsprintf RkParam RkLoader Bytes Uuid PartEfi.

(** ** Bytes *)

Lemma le_bytes_length n v : length (le_bytes n v) = n.
Proof. revert v. induction n as [|n IH]; intros v; [done|]. cbn. by rewrite IH. Qed.

Lemma le_bytes_byte n v : Forall byte (le_bytes n v).
Proof. revert v. induction n as [|n IH]; intros v; [constructor|]. constructor; [apply u8_range|apply IH]. Qed.

Lemma lev_le_bytes n v : 0 <= v < 256 ^ Z.of_nat n -> lev (le_bytes n v) = v.
Proof.
  revert v. induction n as [|n IH]; intros v Hv; [cbn in *; lia|].
  rewrite Nat2Z.inj_succ, Z.pow_succ_r in Hv by lia. cbn [le_bytes lev foldr]. fold (lev (le_bytes n (v ≫ 8))).
  rewrite Z.shiftr_div_pow2 by lia. change (2 ^ 8) with 256. rewrite IH.
  - unfold u8, wrap. change (2 ^ 8) with 256. rewrite (Z.div_mod v 256) at 3 by lia. lia.
  - split; [apply Z.div_pos; lia|]. apply Z.div_lt_upper_bound; lia.
Qed.

(** A field behind what is in front of it. *)
Lemma drop_skip (a b : list Z) off : (length a <= off)%nat -> drop off (a ++ b) = drop (off - length a) b.
Proof. intros H. rewrite drop_app_ge by done. done. Qed.

Lemma fld_skip n k a b off : length a = k -> (k <= off)%nat -> fld off n (a ++ b) = fld (off - k) n b.
Proof. intros <- H. unfold fld. by rewrite drop_skip. Qed.

Lemma sub_skip n k a b off : length a = k -> (k <= off)%nat -> sub off n (a ++ b) = sub (off - k) n b.
Proof. intros <- H. unfold sub. by rewrite drop_skip. Qed.

Lemma fld_here n v rest : 0 <= v < 256 ^ Z.of_nat n -> fld 0 n (le_bytes n v ++ rest) = v.
Proof.
  intros Hv. unfold fld. rewrite drop_0, take_app_length' by (by rewrite le_bytes_length). by apply lev_le_bytes.
Qed.

Lemma sub_here n s rest : length s = n -> sub 0 n (s ++ rest) = s.
Proof. intros <-. unfold sub. by rewrite drop_0, take_app_length. Qed.

(** Reads a field of a concatenation of [le_bytes] and lists of known length. *)
Ltac skip_one := first
  [ match goal with |- context [fld ?o ?n (le_bytes ?k ?v ++ ?b)] => rewrite (fld_skip n k (le_bytes k v) b o (le_bytes_length k v)) by lia end
  | match goal with |- context [sub ?o ?n (le_bytes ?k ?v ++ ?b)] => rewrite (sub_skip n k (le_bytes k v) b o (le_bytes_length k v)) by lia end
  | match goal with H : length ?a = ?k |- context [fld ?o ?n (?a ++ ?b)] => rewrite (fld_skip n k a b o H) by lia end
  | match goal with H : length ?a = ?k |- context [sub ?o ?n (?a ++ ?b)] => rewrite (sub_skip n k a b o H) by lia end ];
  cbn [Nat.sub].
Ltac read_field :=
  rewrite <-?app_assoc;
  first [ apply fld_here; assumption | apply sub_here; assumption | skip_one; read_field ].

Definition word8 (v : Z) : Prop := 0 <= v < 2 ^ 64.
Definition word4 (v : Z) : Prop := 0 <= v < 2 ^ 32.

Record header_ok (h : gpt_header) : Prop := HeaderOk {
  ho_signature : word8 (signature h);
  ho_words : word4 (revision h) /\ word4 (header_size h) /\ word4 (header_crc32 h) /\ word4 (reserved1 h) /\
    word4 (num_partition_entries h) /\ word4 (sizeof_partition_entry h) /\ word4 (partition_entry_array_crc32 h);
  ho_lbas : word8 (my_lba h) /\ word8 (alternate_lba h) /\ word8 (first_usable_lba h) /\ word8 (last_usable_lba h) /\
    word8 (partition_entry_lba h);
  ho_guid : length (disk_guid h) = 16%nat /\ Forall byte (disk_guid h)
}.

Lemma header_bytes_length h : header_ok h -> length (header_bytes h) = 92%nat.
Proof. intros [_ _ _ [Hg _]]. unfold header_bytes. rewrite !length_app, !le_bytes_length, Hg. done. Qed.

Lemma header_bytes_byte h : header_ok h -> Forall byte (header_bytes h).
Proof.
  intros [_ _ _ [_ Hg]]. unfold header_bytes. repeat (apply Forall_app; split); try apply le_bytes_byte. done.
Qed.

(** The fields of a header that is in front of anything. *)
Lemma header_of_bytes h rest : header_ok h -> header_of (header_bytes h ++ rest) = h.
Proof.
  intros [H8 (? & ? & ? & ? & ? & ? & ?) (? & ? & ? & ? & ?) [Hg _]]. unfold word8, word4 in *. destruct h as [h1 h2 h3 h4 h5 h6 h7 h8 h9 h10 h11 h12 h13 h14].
  cbn [signature revision header_size header_crc32 reserved1 my_lba alternate_lba first_usable_lba last_usable_lba disk_guid partition_entry_lba
       num_partition_entries sizeof_partition_entry partition_entry_array_crc32] in *.
  unfold header_of, header_bytes. cbn [signature revision header_size header_crc32 reserved1 my_lba alternate_lba first_usable_lba last_usable_lba
       disk_guid partition_entry_lba num_partition_entries sizeof_partition_entry partition_entry_array_crc32].
  change (2 ^ 64) with (256 ^ Z.of_nat 8) in *. change (2 ^ 32) with (256 ^ Z.of_nat 4) in *.
  f_equal; read_field.
Qed.

Record entry_ok (e : gpt_entry) : Prop := EntryOk {
  eo_type : length (partition_type_guid e) = 16%nat /\ Forall byte (partition_type_guid e);
  eo_unique : length (unique_partition_guid e) = 16%nat /\ Forall byte (unique_partition_guid e);
  eo_words : word8 (starting_lba e) /\ word8 (ending_lba e) /\ word8 (attributes e);
  eo_name : length (partition_name e) = PARTNAME_SZ /\ Forall (λ w, 0 <= w < 2 ^ 16) (partition_name e)
}.

Lemma join_cons {A} (x : list A) l : mjoin (x :: l) = x ++ mjoin l.
Proof. done. Qed.

Lemma names_length ws : length (mjoin (le_bytes 2 <$> ws)) = (2 * length ws)%nat.
Proof. induction ws as [|w ws IH]; [done|]. rewrite fmap_cons, join_cons, length_app, IH, le_bytes_length. cbn [length]. lia. Qed.

Lemma names_fields ws a rest off :
  length a = off -> Forall (λ w, 0 <= w < 2 ^ 16) ws ->
  (λ k, fld (off + 2 * k) 2 (a ++ mjoin (le_bytes 2 <$> ws) ++ rest)) <$> seq 0 (length ws) = ws.
Proof.
  intros Ha Hws. apply list_eq. intros i. rewrite list_lookup_fmap. destruct (decide (i < length ws)%nat) as [Hi|Hi].
  2:{ rewrite lookup_seq_ge by lia. symmetry. apply lookup_ge_None. lia. }
  rewrite lookup_seq_lt by done. cbn [fmap option_fmap option_map Nat.add]. destruct (lookup_lt_is_Some_2 ws i Hi) as [w Hw]. rewrite Hw. f_equal.
  rewrite (fld_skip _ off) by (done || lia). replace (off + 2 * i - off)%nat with (2 * i)%nat by lia. clear Hi Ha a.
  revert i Hw. induction ws as [|v ws IH]; intros i Hw; [done|]. apply Forall_cons in Hws as [Hv Hws]. rewrite fmap_cons, join_cons, <-app_assoc.
  destruct i as [|i]; cbn in Hw.
  - injection Hw as ->. apply fld_here. exact Hv.
  - rewrite (fld_skip _ 2) by (apply le_bytes_length || lia). replace (2 * S i - 2)%nat with (2 * i)%nat by lia. by apply IH.
Qed.

Lemma entry_bytes_length e : entry_ok e -> length (entry_bytes e) = 128%nat.
Proof.
  intros [[H1 _] [H2 _] _ [H3 _]]. unfold entry_bytes. rewrite !length_app, !le_bytes_length, names_length, H1, H2, H3. done.
Qed.

Lemma entry_bytes_byte e : entry_ok e -> Forall byte (entry_bytes e).
Proof.
  intros [[_ H1] [_ H2] _ _]. unfold entry_bytes. repeat (apply Forall_app; split); try apply le_bytes_byte; try done.
  induction (partition_name e) as [|w ws IH]; [constructor|]. rewrite fmap_cons, join_cons. apply Forall_app. split; [apply le_bytes_byte|done].
Qed.

Lemma entry_of_bytes e rest : entry_ok e -> entry_of (entry_bytes e ++ rest) = e.
Proof.
  intros [[H1 _] [H2 _] (W1 & W2 & W3) [H3 H4]]. unfold word8 in *. destruct e as [e1 e2 e3 e4 e5 e6].
  cbn [partition_type_guid unique_partition_guid starting_lba ending_lba attributes partition_name] in *.
  unfold entry_of, entry_bytes. cbn [partition_type_guid unique_partition_guid starting_lba ending_lba attributes partition_name].
  change (2 ^ 64) with (256 ^ Z.of_nat 8) in *. f_equal; [read_field..|].
  pose proof (names_fields e6 (e1 ++ e2 ++ le_bytes 8 e3 ++ le_bytes 8 e4 ++ le_bytes 8 e5) rest 56) as E.
  rewrite <-!app_assoc in E. rewrite H3 in E. rewrite <-!app_assoc. apply E; [|done]. rewrite !length_app, !le_bytes_length. lia.
Qed.

Lemma entries_length es : Forall entry_ok es -> length (entries_bytes es) = (128 * length es)%nat.
Proof.
  unfold entries_bytes. induction es as [|e es IH]; intros H; [done|]. apply Forall_cons in H as [He Hes].
  rewrite fmap_cons, join_cons, length_app, IH, entry_bytes_length by done. cbn [length]. lia.
Qed.

Lemma entries_byte es : Forall entry_ok es -> Forall byte (entries_bytes es).
Proof.
  unfold entries_bytes. induction es as [|e es IH]; intros H; [constructor|]. apply Forall_cons in H as [He Hes].
  rewrite fmap_cons, join_cons. apply Forall_app. split; [by apply entry_bytes_byte|by apply IH].
Qed.

Lemma entries_drop es i e rest :
  Forall entry_ok es -> es !! i = Some e -> drop (128 * i) (entries_bytes es ++ rest) = entry_bytes e ++ entries_bytes (drop (S i) es) ++ rest.
Proof.
  intros Hok Hi. rewrite <-(take_drop_middle es i e Hi) at 1. pose proof (lookup_lt_Some _ _ _ Hi).
  unfold entries_bytes. rewrite fmap_app, join_app, fmap_cons, join_cons, <-!app_assoc. apply drop_app_length'.
  change (mjoin (entry_bytes <$> take i es)) with (entries_bytes (take i es)). rewrite entries_length by (by apply Forall_take).
  rewrite length_take. lia.
Qed.

(** [gpt_pte[i]] of entries in memory *)
Lemma pte_at_entries es i e rest :
  Forall entry_ok es -> es !! i = Some e -> pte_at (entries_bytes es ++ rest) (Z.of_nat i) = Some e.
Proof.
  intros Hok Hi. unfold pte_at. pose proof (lookup_lt_Some _ _ _ Hi). rewrite decide_True.
  - replace (Z.to_nat (128 * Z.of_nat i)) with (128 * i)%nat by lia. rewrite (entries_drop _ _ e) by done.
    by rewrite entry_of_bytes by (by eapply Forall_lookup_1).
  - rewrite length_app, entries_length by done. lia.
Qed.

(** ** Headers that pass the checks *)

Record header_good (h : gpt_header) : Prop := HeaderGood {
  hg_ok : header_ok h;
  hg_signature : signature h = GPT_HEADER_SIGNATURE;
  hg_size : header_size h = 92;
  hg_crc : header_crc32 h = efi_crc32 (header_bytes (with_crc 0 h))
}.

Lemma with_crc_ok c h : header_ok h -> word4 c -> header_ok (with_crc c h).
Proof. intros [? (? & ? & ? & ? & ? & ? & ?) ? ?] Hc. split; cbn; tauto. Qed.

Lemma blank_crc h pad :
  header_ok h -> take 16 (header_bytes h ++ pad) ++ le_bytes 4 0 ++ drop 20 (header_bytes h ++ pad) = header_bytes (with_crc 0 h) ++ pad.
Proof. intros H. unfold header_bytes. rewrite <-!app_assoc. reflexivity. Qed.

Lemma prefix_of_app n a b : n = Z.of_nat (length a) -> prefix_of n (a ++ b) = Some a.
Proof.
  intros ->. unfold prefix_of. rewrite (proj2 (Z.leb_le _ _)) by (rewrite length_app; lia). by rewrite Nat2Z.id, take_app_length.
Qed.

Lemma validate_good h pad lba last :
  header_good h -> my_lba h = lba -> first_usable_lba h <= last -> last_usable_lba h <= last ->
  validate_gpt_header (header_bytes h ++ pad) lba last = Some 0.
Proof.
  intros [Hok Hs Hz Hc] Hl Hf Hu. unfold validate_gpt_header. rewrite header_of_bytes by done. rewrite Hs, Z.eqb_refl. cbn [negb].
  rewrite blank_crc by done. rewrite prefix_of_app.
  - cbn [mbind option_bind]. rewrite <-Hc, Z.eqb_refl, Hl, Z.eqb_refl. cbn [negb]. by rewrite !(proj2 (Z.ltb_ge _ _)) by lia.
  - rewrite Hz, header_bytes_length by (by apply with_crc_ok; [|unfold word4; lia]). done.
Qed.

(** ** A disk *)

(** A disk of 512-byte blocks.  Reads inside of it succeed; a write may fail or be
    cut off after any number of blocks, and when it reports all blocks they are
    written. *)
Class BlockDevLaws (D : Type) `{!BlockDev D} (dev : block_dev_desc) := {
  dev_blksz : blksz dev = 512;
  block : D -> Z -> list Z;
  block_length : ∀ d k, length (block d k) = 512%nat;
  bread_law : ∀ d a (n : nat), 0 <= a -> a + Z.of_nat n <= lba dev -> block_read d a (Z.of_nat n) = (Z.of_nat n, sectors (block d) a n);
  bwrite_law : ∀ d a (n : nat) buf, 0 <= a -> a + Z.of_nat n <= lba dev -> (512 * n <= length buf)%nat ->
    ∃ r d' k, block_write d a (Z.of_nat n) buf = (r, d') /\ (k <= n)%nat /\ (r = Z.of_nat n -> k = n) /\
      ∀ j, block d' j = overlay (block d) a (Some <$> chop k buf) j
}.

(** ** The writer *)

Section disk.
Context {D : Type} `{!BlockDev D} (dev : block_dev_desc) `{!BlockDevLaws D dev} (can_alloc : Z -> bool).
Hypothesis Halloc : can_alloc 16384 = true.
Hypothesis Hlba : 68 <= lba dev < 2 ^ 64.

Lemma bsectors_length (d : D) a n : length (sectors (block d) a n) = (512 * n)%nat.
Proof. revert a. induction n as [|n IH]; intros a; [done|]. cbn [sectors]. rewrite length_app, block_length, IH. lia. Qed.

(** A table of 128 entries of 128 bytes, whose bytes [eb] have the checksum of the header. *)
Record shape (h : gpt_header) (at_ entries : Z) : Prop := Shape {
  sh_good : header_good h;
  sh_lba : my_lba h = at_;
  sh_num : num_partition_entries h = 128;
  sh_entry : sizeof_partition_entry h = 128;
  sh_entries : partition_entry_lba h = entries;
  sh_first : first_usable_lba h <= lba dev;
  sh_last : last_usable_lba h <= lba dev
}.

Lemma is_gpt_valid_shape (d : D) h pad at_ entries eb :
  shape h at_ entries -> 0 <= at_ < lba dev -> 0 <= entries -> entries + 32 <= lba dev ->
  block d at_ = header_bytes h ++ pad -> sectors (block d) entries 32 = eb ->
  is_gpt_valid dev can_alloc d at_ =
  Some (if efi_crc32 eb =? partition_entry_array_crc32 h then Some (header_bytes h ++ pad, eb) else None).
Proof.
  intros [Hg Hl Hn Hs He Hf Hu] Ha H0 H32 Hb Heb. unfold is_gpt_valid.
  pose proof (bread_law d at_ 1 ltac:(lia) ltac:(lia)) as Hr. change (Z.of_nat 1) with 1 in Hr. rewrite Hr. cbn [sectors negb Z.eqb Pos.eqb].
  rewrite Hb, app_nil_r. rewrite validate_good by done. cbn [mbind option_bind negb Z.eqb].
  rewrite header_of_bytes by apply Hg. unfold alloc_read_gpt_entries. rewrite Hn, Hs, He. change (u32 (128 * 128)) with 16384.
  unfold PAD_TO_BLOCKSIZE, BLOCK_CNT. rewrite dev_blksz. change (PAD_COUNT 16384 512) with 32. change (32 * 512) with 16384. rewrite Halloc.
  cbn [Z.eqb orb negb]. pose proof (bread_law d entries 32 ltac:(lia) ltac:(lia)) as Hr2. change (Z.of_nat 32) with 32 in Hr2. rewrite Hr2.
  rewrite Z.eqb_refl, Heb. cbn [negb]. unfold validate_gpt_entries. rewrite Hn, Hs. change (u32 (128 * 128)) with 16384.
  assert (length eb = Z.to_nat 16384) as Hlen.
  { rewrite <-Heb, bsectors_length. lia. }
  unfold prefix_of. rewrite (proj2 (Z.leb_le _ _)) by lia. rewrite take_ge by lia. cbn [mbind option_bind].
  by destruct (efi_crc32 eb =? _).
Qed.

Lemma efi_crc32_word buf : Forall byte buf -> word4 (efi_crc32 buf).
Proof.
  intros Hb. unfold efi_crc32, crc32. rewrite crc32_no_comp_spec by done.
  apply (lxor_in_word 32); [lia|apply crc_lsb_range; try done; unfold in_word, poly32; lia|unfold in_word; lia].
Qed.

(** The headers that are written for the entries [eb]. *)
Definition first_header (id : list Z) : gpt_header :=
  GptHeader GPT_HEADER_SIGNATURE GPT_HEADER_REVISION_V1 92 0 0 1 (u64 (lba dev - 1)) 34 (u64 (lba dev - 34)) id 2 GPT_ENTRY_NUMBERS 128 0.
Definition sealed (h : gpt_header) : gpt_header := with_crc (efi_crc32 (header_bytes h)) h.
Definition primary (id eb : list Z) : gpt_header := sealed (with_array_crc (efi_crc32 eb) (first_header id)).
Definition backup (id eb : list Z) : gpt_header := sealed (swap_lba (primary id eb)).
Definition zeros : list Z := replicate 420 0.

Section headers.
Context (id eb : list Z).
Hypothesis Hid : length id = 16%nat /\ Forall byte id.
Hypothesis Heb : Forall byte eb.

Lemma first_header_ok : header_ok (with_array_crc (efi_crc32 eb) (first_header id)).
Proof.
  pose proof (efi_crc32_word eb Heb). pose proof (u64_range (lba dev - 1)). pose proof (u64_range (lba dev - 34)).
  split; cbn; unfold word4, word8, GPT_HEADER_SIGNATURE, GPT_HEADER_REVISION_V1, GPT_ENTRY_NUMBERS in *; [lia|lia|lia|done].
Qed.

Lemma sealed_ok h : header_ok h -> header_crc32 h = 0 -> header_ok (sealed h) /\ header_crc32 (sealed h) = efi_crc32 (header_bytes (with_crc 0 (sealed h))).
Proof.
  intros Hh Hc. split; [apply with_crc_ok; [done|]; by apply efi_crc32_word, header_bytes_byte|].
  destruct h. cbn in Hc. by subst.
Qed.

Lemma primary_shape : shape (primary id eb) 1 2.
Proof.
  destruct (sealed_ok _ first_header_ok eq_refl) as [Hok Hc]. split; try done; cbn; unfold first_header; cbn.
  - lia.
  - change (2 ^ 64) with 18446744073709551616 in Hlba. rewrite u64_small; lia.
Qed.

Lemma backup_shape : shape (backup id eb) (lba dev - 1) (lba dev - 33).
Proof.
  change (2 ^ 64) with 18446744073709551616 in Hlba.
  assert (header_ok (swap_lba (primary id eb))) as H.
  { pose proof (efi_crc32_word eb Heb). split; cbn; unfold word4, word8, GPT_HEADER_SIGNATURE, GPT_HEADER_REVISION_V1, GPT_ENTRY_NUMBERS in *;
      rewrite ?(u64_small (lba dev - 1)), ?(u64_small (lba dev - 34)), ?u64_small by lia; [lia|lia|lia|done]. }
  destruct (sealed_ok _ H eq_refl) as [Hok Hc]. split; try done; cbn; rewrite ?(u64_small (lba dev - 34)), ?u64_small by lia; lia.
Qed.
End headers.

(** One write, which may be cut off. *)
Lemma and_write_law (n : nat) a buf (k : D -> option (Z * D)) (d : D) :
  0 <= a -> a + Z.of_nat n <= lba dev -> (512 * n <= length buf)%nat ->
  ∃ d' j, (j <= n)%nat /\ (∀ i, block d' i = overlay (block d) a (Some <$> chop j buf) i) /\
    (and_write (Z.of_nat n) a buf k d = Some (-1, d') \/ j = n /\ and_write (Z.of_nat n) a buf k d = k d').
Proof.
  intros Ha Hn Hl. destruct (bwrite_law d a n buf Ha Hn Hl) as (r & d' & j & E & Hj & Hr & Hb). exists d', j. split; [done|]. split; [done|].
  unfold and_write. rewrite E. destruct (Z.eqb_spec r (Z.of_nat n)) as [->|]; cbn [negb]; [right|by left]. split; [by apply Hr|done].
Qed.

Lemma overlay_out f a (l : list (list Z)) i : i < a \/ a + Z.of_nat (length l) <= i -> overlay f a (Some <$> l) i = f i.
Proof.
  intros H. unfold overlay. destruct (Z.leb_spec a i); [|done]. rewrite list_lookup_fmap, lookup_ge_None_2 by lia. done.
Qed.

(** The table of the first [j] blocks of [new] over [old]. *)
Definition torn (j : nat) (new old : list Z) : list Z := take (512 * j) new ++ drop (512 * j) old.

Lemma sectors_torn f a (n j : nat) new :
  (j <= n)%nat -> (512 * n <= length new)%nat -> (∀ k, length (f k) = 512%nat) ->
  sectors (overlay f a (Some <$> chop j new)) a n = torn j new (sectors f a n).
Proof.
  intros Hj Hl Hf. replace n with (j + (n - j))%nat at 1 by lia. rewrite sectors_add, sectors_overlay by lia. unfold torn. f_equal.
  replace n with (j + (n - j))%nat at 2 by lia. rewrite sectors_add, drop_app_length'.
  - apply sectors_ext. intros k Hk. apply overlay_out. rewrite chop_length. lia.
  - clear -Hf. revert a. induction j as [|j IH]; intros a; [done|]. cbn [sectors]. rewrite length_app, Hf, <-IH. lia.
Qed.
End disk.

(** ** The entries *)

Record part_ok (limit : Z) (p : disk_partition_t) : Prop := PartOk {
  po_start : 0 <= start p;
  po_size : 0 <= psize p;
  po_wrap : start p + psize p + limit < 2 ^ 64;
  po_text : length (name_type p) = 64%nat /\ Forall byte (name_type p);
  po_uuid : Forall byte (uuid p)
}.

(** Consecutive ranges of blocks from [o] on that end at [limit] or before. *)
Fixpoint laid (limit o : Z) (es : list gpt_entry) : Prop :=
  match es with
  | [] => True
  | e :: es => o <= starting_lba e /\ starting_lba e <= ending_lba e + 1 /\ ending_lba e <= limit /\ laid limit (ending_lba e + 1) es
  end.

(** What an entry has of its partition; [last] when it is the last one. *)
Record entry_for (limit : Z) (last : bool) (p : disk_partition_t) (e : gpt_entry) : Prop := EntryFor {
  ef_fill : e = fill_entry p (starting_lba e) (ending_lba e) (unique_partition_guid e);
  ef_uuid : uuid_str_to_bin (cstring (uuid p)) UUID_STR_FORMAT_STD = inr (unique_partition_guid e);
  ef_start : start p <> 0 -> starting_lba e = start p;
  ef_room : starting_lba e + psize p < limit;
  ef_size : ending_lba e = if last && (psize p =? 0) then limit else starting_lba e + psize p - 1
}.

Inductive entries_for (limit : Z) : list disk_partition_t -> list gpt_entry -> Prop :=
  | entries_nil : entries_for limit [] []
  | entries_cons p ps e es :
      entry_for limit (bool_decide (ps = [])) p e -> entries_for limit ps es -> entries_for limit (p :: ps) (e :: es).

Lemma cstring_bytes l : Forall byte l -> Forall byte (cstring l).
Proof. induction 1 as [|c l Hc Hl IH]; [constructor|]. cbn. destruct (c =? 0); [constructor|by constructor]. Qed.

Lemma uuid_str_to_bin_bytes s f b : Forall byte s -> uuid_str_to_bin s f = inr b -> length b = 16%nat /\ Forall byte b.
Proof.
  intros Hs H. destruct (uuid_str_valid (Some s)) eqn:Hv; [|unfold uuid_str_to_bin in H; rewrite Hv in H; discriminate].
  destruct (uuid_str_valid_groups s Hs Hv) as (g1 & g2 & g3 & g4 & g5 & Hg). rewrite (uuid_str_to_bin_groups _ _ _ _ _ _ f Hs Hg Hv) in H. injection H as <-.
  destruct (group_bytes_spec _ _ _ _ _ _ Hg) as (L & B & _). by apply ordered_bytes.
Qed.

Lemma fill_entry_ok limit p first last id :
  part_ok limit p -> word8 first -> word8 last -> length id = 16%nat -> Forall byte id -> entry_ok (fill_entry p first last id).
Proof.
  intros [_ _ _ [Hl Hb] _] Hf Hla Hi Hib. split; cbn.
  - split; [done|]. apply all_bytes. vm_compute. reflexivity.
  - done.
  - split; [done|]. split; [done|]. unfold word8. destruct (bootable p =? 0); lia.
  - split; [rewrite length_app, length_take, Hl; done|]. apply Forall_app. split; [|repeat constructor; lia].
    apply Forall_take. eapply Forall_impl; [exact Hb|]. unfold byte. intros; lia.
Qed.

Lemma fill_loop_spec limit h es parts i o es' :
  last_usable_lba h = limit -> 0 < o <= limit -> limit < 2 ^ 63 -> Forall (part_ok limit) parts ->
  fill_loop h es parts (Z.of_nat i) o = Some (Some es') ->
  ∃ new, es' = take i es ++ new ++ drop (i + length parts) es /\ entries_for limit parts new /\ laid limit o new /\
    Forall entry_ok new /\ length new = length parts /\ (parts <> [] -> i + length parts <= length es)%nat.
Proof.
  intros Hlim. revert es i o. induction parts as [|p parts IH]; intros es i o Ho Hl63 Hok H.
  { cbn in H. injection H as <-. exists []. cbn. rewrite Nat.add_0_r, take_drop. split_and!; (done || constructor). }
  apply Forall_cons in Hok as [Hp Hok]. pose proof Hp as [Hs0 Hz0 Hwrap _ Hub]. cbn [fill_loop] in H. rewrite Hlim in H.
  destruct (negb (start p =? 0) && (start p <? o)) eqn:Hov; [done|].
  set (first := if start p =? 0 then o else start p) in *.
  assert (o <= first < 2 ^ 64 /\ (start p <> 0 -> first = start p) /\ first + psize p < 2 ^ 64) as (Hfirst & Hfs & Hfw).
  { unfold first. destruct (Z.eqb_spec (start p) 0) as [E|E]; cbn [negb andb] in Hov; [lia|]. apply Z.ltb_ge in Hov. lia. }
  change (2 ^ 64) with 18446744073709551616 in *. rewrite u64_small in H by lia.
  destruct (Z.leb_spec limit (first + psize p)) as [|Hlt]; [done|].
  destruct (uuid_str_to_bin (cstring (uuid p)) UUID_STR_FORMAT_STD) as [|id] eqn:Hid; [done|].
  destruct (uuid_str_to_bin_bytes _ _ _ (cstring_bytes _ Hub) Hid) as [Hidl Hidb].
  rewrite u64_small in H by lia. set (last := if bool_decide (parts = []) && (psize p =? 0) then limit else first + psize p - 1) in *.
  assert (first <= last + 1 /\ first + psize p - 1 <= last <= limit) as [Hl1 Hl2] by (unfold last; destruct (bool_decide (parts = []) && (psize p =? 0)); lia).
  unfold aset in H. destruct (decide _) as [Hi|]; [|done]. cbn [mbind option_bind] in H.
  replace (Z.of_nat i + 1) with (Z.of_nat (S i)) in H by lia. rewrite Nat2Z.id in H.
  destruct (IH (<[i := fill_entry p first last id]> es) (S i) (first + psize p)) as (new & -> & Hef & Hla & Heo & Hln & Hroom);
    [lia|done|done|exact H|].
  set (e := fill_entry p first last id). exists (e :: new). split_and!.
  - rewrite (take_S_r _ i e) by (apply list_lookup_insert_eq; lia). rewrite take_insert_ge, drop_insert_lt by lia. cbn [length].
    rewrite <-app_assoc. cbn [app]. by replace (i + S (length parts))%nat with (S i + length parts)%nat by lia.
  - by constructor.
  - cbn [laid]. cbn. split; [lia|]. split; [lia|]. split; [lia|]. destruct parts as [|p' parts']; [by destruct new|].
    replace (last + 1) with (first + psize p); [done|]. unfold last. cbn. lia.
  - constructor; [|done]. apply (fill_entry_ok limit); try done; unfold word8; lia.
  - cbn. lia.
  - intros _. rewrite length_insert in Hroom. cbn [length]. destruct parts as [|p' parts']; [cbn [length]; lia|].
    specialize (Hroom ltac:(done)). lia.
Qed.

(** ** Updates and power failures *)

Section update.
Context {D : Type} `{!BlockDev D} (dev : block_dev_desc) `{!BlockDevLaws D dev} (can_alloc : Z -> bool).
Hypothesis Halloc : can_alloc 16384 = true.
Hypothesis Hlba : 68 <= lba dev < 2 ^ 63.

(** A valid copy of the entries [eb]. *)
Definition copy_at (d : D) (at_ entries : Z) (eb : list Z) : Prop :=
  ∃ h pad, shape dev h at_ entries /\ block d at_ = header_bytes h ++ pad /\ sectors (block d) entries 32 = eb /\
    partition_entry_array_crc32 h = efi_crc32 eb.

(** Both copies. *)
Definition intact (d : D) (eb : list Z) : Prop := copy_at d 1 2 eb /\ copy_at d (lba dev - 1) (lba dev - 33) eb.

(** The readers use these entries. *)
Definition reads (d : D) (eb : list Z) : Prop :=
  ∃ hb, find_gpt dev can_alloc d = Some (Some (hb, eb)) /\ num_partition_entries (header_of hb) = 128.

Lemma copy_at_valid d at_ entries eb :
  0 <= at_ < lba dev -> 0 <= entries -> entries + 32 <= lba dev -> copy_at d at_ entries eb ->
  ∃ hb, is_gpt_valid dev can_alloc d at_ = Some (Some (hb, eb)) /\ num_partition_entries (header_of hb) = 128.
Proof.
  intros Ha He H32 (h & pad & Hs & Hb & Hsec & Hc). exists (header_bytes h ++ pad).
  rewrite (is_gpt_valid_shape dev can_alloc Halloc d h pad at_ entries eb) by done. rewrite Hc, Z.eqb_refl. split; [done|].
  rewrite header_of_bytes by apply Hs. apply Hs.
Qed.

Lemma copy_at_frame d d' at_ entries eb :
  block d' at_ = block d at_ -> (∀ k, entries <= k < entries + 32 -> block d' k = block d k) ->
  copy_at d at_ entries eb -> copy_at d' at_ entries eb.
Proof.
  intros Hb He (h & pad & Hs & Hb' & Hsec & Hc). exists h, pad. split; [done|]. split; [by rewrite Hb|]. split; [|done].
  rewrite <-Hsec. by apply sectors_ext.
Qed.

Lemma primary_reads d eb : copy_at d 1 2 eb -> reads d eb.
Proof.
  intros H. apply copy_at_valid in H as (hb & E & Hn); [|lia..]. exists hb. split; [|done]. unfold find_gpt.
  change GPT_PRIMARY_PARTITION_TABLE_LBA with 1. by rewrite E.
Qed.

(** A primary header with entries that may not be its own: then the backup is used. *)
Lemma mixed_reads d h pad mix eb new :
  shape dev h 1 2 -> block d 1 = header_bytes h ++ pad -> sectors (block d) 2 32 = mix ->
  copy_at d (lba dev - 1) (lba dev - 33) eb ->
  (efi_crc32 mix = partition_entry_array_crc32 h -> mix = eb \/ mix = new) -> reads d eb \/ reads d new.
Proof.
  intros Hs Hb Hm Hc Heq. pose proof (is_gpt_valid_shape dev can_alloc Halloc d h pad 1 2 mix Hs ltac:(lia) ltac:(lia) ltac:(lia) Hb Hm) as E.
  destruct (Z.eqb_spec (efi_crc32 mix) (partition_entry_array_crc32 h)) as [Hx|Hx].
  - assert (reads d mix) as Hr by (apply primary_reads; by exists h, pad). destruct (Heq Hx) as [->| ->]; [by left|by right].
  - left. apply copy_at_valid in Hc as (hb & E' & Hn); [|lia..]. exists hb. split; [|done]. unfold find_gpt.
    change GPT_PRIMARY_PARTITION_TABLE_LBA with 1. rewrite E. cbn [mbind option_bind]. change (2 ^ 63) with 9223372036854775808 in Hlba.
    by rewrite u64_small by lia.
Qed.

Context (id new : list Z).
Hypothesis Hid : length id = 16%nat /\ Forall byte id.
Hypothesis Hnew : Z.of_nat (length new) = 16384 /\ Forall byte new.

Lemma write_gpt_table_steps d :
  write_gpt_table dev d (first_header dev id) (padding dev 92) (new ++ padding dev 16384) =
  let '(r, d) := set_protective_mbr dev d in
  if r <? 0 then Some (-1, d)
  else
    and_write (Z.of_nat 1) 1 (header_bytes (primary dev id new) ++ zeros)
      (and_write (Z.of_nat 32) 2 new
        (and_write (Z.of_nat 32) (lba dev - 33) new
          (and_write (Z.of_nat 1) (lba dev - 1) (header_bytes (backup dev id new) ++ zeros) (λ d, Some (0, d))))) d.
Proof.
  destruct Hnew as [Hl Hb]. change (2 ^ 63) with 9223372036854775808 in Hlba. unfold padding, PAD_TO_BLOCKSIZE. rewrite dev_blksz.
  change (Z.to_nat (PAD_COUNT 92 512 * 512 - 92)) with 420%nat. change (Z.to_nat (PAD_COUNT 16384 512 * 512 - 16384)) with 0%nat.
  fold zeros. change (replicate 0 0) with (@nil Z). rewrite app_nil_r. unfold write_gpt_table.
  cbn [first_header num_partition_entries sizeof_partition_entry]. unfold BLOCK_CNT. rewrite dev_blksz.
  change (s32 (PAD_COUNT (GPT_ENTRY_NUMBERS * 128) 512)) with 32. change (u32 (GPT_ENTRY_NUMBERS * 128)) with 16384.
  destruct (set_protective_mbr dev d) as [r d']. destruct (r <? 0); [done|].
  rewrite <-(app_nil_r new) at 1. rewrite prefix_of_app by done. cbn [mbind option_bind].
  unfold crc_header. cbn [header_size with_array_crc first_header].
  rewrite prefix_of_app by (rewrite header_bytes_length by (apply first_header_ok; done); done). cbn [mbind option_bind].
  unfold prepare_backup_gpt_header, crc_header. cbn [header_size swap_lba with_crc].
  pose proof (backup_shape dev ltac:(lia) id new Hid Hb) as Hbs.
  rewrite prefix_of_app by (symmetry; change (header_size _) with 92;
    rewrite header_bytes_length; [done|]; exact (with_crc_ok 0 _ (hg_ok _ (sh_good _ _ _ _ Hbs)) ltac:(unfold word4; lia))).
  cbn [mbind option_bind].
  match goal with |- and_write 1 1 _ (and_write 32 2 new (and_write 32 _ new (and_write 1 _ (header_bytes ?b ++ _) _))) _ = _ =>
    change b with (backup dev id new) end.
  change (with_crc _ (with_array_crc (efi_crc32 new) (first_header dev id))) with (primary dev id new).
  pose proof (sh_entries _ _ _ _ Hbs) as He. change (partition_entry_lba (backup dev id new)) with (u64 (last_usable_lba (backup dev id new) + 1)) in He.
  by rewrite He, (sh_lba _ _ _ _ Hbs).
Qed.

Lemma set_protective_mbr_law d :
  ∃ r d', set_protective_mbr dev d = (r, d') /\ ∀ k, k <> 0 -> block d' k = block d k.
Proof.
  unfold set_protective_mbr. destruct (bwrite_law d 0 1 (protective_mbr dev)) as (r & d' & j & E & Hj & _ & Hb); [lia|lia|done|].
  change (Z.of_nat 1) with 1 in E. rewrite E. eexists _, d'. split; [done|]. intros k Hk. rewrite Hb. apply overlay_out. rewrite chop_length. lia.
Qed.

(** One block that is written, or not. *)
Lemma one_block f a buf (j : nat) :
  (j <= 1)%nat -> length buf = 512%nat ->
  (∀ k, k <> a -> overlay f a (Some <$> chop j buf) k = f k) /\ (j = 1%nat -> overlay f a (Some <$> chop j buf) a = buf) /\
  (j = 0%nat -> overlay f a (Some <$> chop j buf) a = f a).
Proof.
  intros Hj Hl. split_and!.
  - intros k Hk. apply overlay_out. rewrite chop_length. lia.
  - intros ->. unfold overlay. rewrite Z.leb_refl, Z.sub_diag. cbn. by rewrite take_ge by lia.
  - intros ->. apply overlay_nil.
Qed.

Definition hdr1 : list Z := header_bytes (primary dev id new) ++ zeros.
Definition hdr2 : list Z := header_bytes (backup dev id new) ++ zeros.

Lemma hdr_lengths : length hdr1 = 512%nat /\ length hdr2 = 512%nat.
Proof.
  destruct Hnew as [_ Hb]. unfold hdr1, hdr2, zeros. rewrite !length_app, !header_bytes_length, length_replicate; [done|..].
  - apply (hg_ok _ (sh_good _ _ _ _ (backup_shape dev ltac:(lia) id new Hid Hb))).
  - apply (hg_ok _ (sh_good _ _ _ _ (primary_shape dev ltac:(lia) id new Hid Hb))).
Qed.

(** The area of the partitions. *)
Definition usable_kept (d d' : D) : Prop := ∀ k, 34 <= k <= lba dev - 34 -> block d' k = block d k.

Definition outcome (old : list Z) (d : D) (res : option (Z * D)) : Prop :=
  ∃ r d', res = Some (r, d') /\ (r = 0 \/ r = -1) /\ (reads d' old \/ reads d' new) /\ (r = 0 -> intact d' new) /\ usable_kept d d'.

Lemma outcome_kept old d d' res : usable_kept d d' -> outcome old d' res -> outcome old d res.
Proof.
  intros Hk (r & d2 & H1 & H2 & H3 & H4 & H5). exists r, d2. split_and!; try done. intros k Hr. rewrite H5 by done. by apply Hk.
Qed.

(** The backup, behind a primary table that is in place. *)
Lemma write_backup_outcome old d :
  copy_at d 1 2 new ->
  outcome old d (and_write (Z.of_nat 32) (lba dev - 33) new (and_write (Z.of_nat 1) (lba dev - 1) hdr2 (λ d, Some (0, d))) d).
Proof.
  intros Hp. destruct hdr_lengths as [_ Hl2]. destruct Hnew as [Hl Hb].
  destruct (and_write_law dev 32 (lba dev - 33) new (and_write (Z.of_nat 1) (lba dev - 1) hdr2 (λ d, Some (0, d))) d)
    as (d3 & j3 & Hj3 & Hb3 & Hr3); [lia|lia|lia|].
  assert (∀ k, k < lba dev - 33 -> block d3 k = block d k) as Hlow3.
  { intros k Hk. rewrite Hb3. apply overlay_out. lia. }
  assert (copy_at d3 1 2 new) as Hp3 by (apply (copy_at_frame d); [apply Hlow3; lia|intros; apply Hlow3; lia|done]).
  assert (usable_kept d d3) as Hk3 by (intros k Hk; apply Hlow3; lia).
  destruct Hr3 as [->|[-> ->]].
  { exists (-1), d3. split_and!; [done|by right|right; by apply primary_reads|done|done]. }
  apply (outcome_kept _ _ d3 _ Hk3).
  destruct (and_write_law dev 1 (lba dev - 1) hdr2 (λ d, Some (0, d)) d3) as (d4 & j4 & Hj4 & Hb4 & Hr4); [lia|lia|lia|].
  destruct (one_block (block d3) (lba dev - 1) hdr2 j4 Hj4 Hl2) as (Ho4 & H14 & _).
  assert (∀ k, k <> lba dev - 1 -> block d4 k = block d3 k) as Hs4 by (intros k Hk; rewrite Hb4; by apply Ho4).
  assert (copy_at d4 1 2 new) as Hp4 by (apply (copy_at_frame d3); [apply Hs4; lia|intros; apply Hs4; lia|done]).
  assert (usable_kept d3 d4) as Hk4 by (intros k Hk; apply Hs4; lia).
  destruct Hr4 as [->|[-> ->]].
  { exists (-1), d4. split_and!; [done|by right|right; by apply primary_reads|done|done]. }
  exists 0, d4. split_and!; [done|by left|right; by apply primary_reads| |done]. intros _. split; [done|].
  exists (backup dev id new), zeros. split; [by apply backup_shape; [lia|..]|]. split; [rewrite Hb4; by apply H14|]. split; [|done].
  rewrite (sectors_ext _ (overlay (block d) (lba dev - 33) (Some <$> chop 32 new))).
  - rewrite sectors_overlay by lia. apply take_ge. lia.
  - intros k Hk. rewrite Hs4 by lia. apply Hb3.
Qed.

(** The entries, behind the new header. *)
Lemma write_entries_outcome old d :
  block d 1 = hdr1 -> sectors (block d) 2 32 = old -> copy_at d (lba dev - 1) (lba dev - 33) old ->
  (∀ j, (j <= 32)%nat -> efi_crc32 (torn j new old) = efi_crc32 new -> torn j new old = old \/ torn j new old = new) ->
  outcome old d (and_write (Z.of_nat 32) 2 new
    (and_write (Z.of_nat 32) (lba dev - 33) new (and_write (Z.of_nat 1) (lba dev - 1) hdr2 (λ d, Some (0, d)))) d).
Proof.
  intros Hh Hold Hbk Hmix. destruct Hnew as [Hl Hb]. pose proof (primary_shape dev ltac:(lia) id new Hid Hb) as Hps.
  match goal with |- outcome _ _ (and_write _ _ _ ?k _) => destruct (and_write_law dev 32 2 new k d) as (d2 & j2 & Hj2 & Hb2 & Hr2) end; [lia|lia|lia|].
  assert (∀ k, k < 2 \/ 34 <= k -> block d2 k = block d k) as Hs2 by (intros k Hk; rewrite Hb2; apply overlay_out; rewrite chop_length; lia).
  assert (sectors (block d2) 2 32 = torn j2 new old) as Hsec2.
  { rewrite (sectors_ext _ _ _ _ (λ k _, Hb2 k)). rewrite sectors_torn by (apply block_length || lia). by rewrite Hold. }
  assert (block d2 1 = hdr1) as Hh2 by (by rewrite Hs2 by lia).
  assert (usable_kept d d2) as Hk2 by (intros k Hk; apply Hs2; lia).
  destruct Hr2 as [->|[-> ->]].
  - exists (-1), d2. split_and!; [done|by right| |done|done].
    apply (mixed_reads d2 (primary dev id new) zeros (torn j2 new old)); try done; [|by apply Hmix].
    apply (copy_at_frame d); [apply Hs2; lia|intros; apply Hs2; lia|done].
  - apply (outcome_kept _ _ d2 _ Hk2). apply write_backup_outcome. exists (primary dev id new), zeros. split; [done|]. split; [done|].
    split; [|done]. rewrite Hsec2. unfold torn. rewrite take_ge, drop_ge; [by rewrite app_nil_r| |lia].
    by rewrite <-Hold, bsectors_length.
Qed.

(** Whatever fails, the readers see the old entries or the new ones, unless part
    of the new entries over the old ones has the checksum of the new ones. *)
Lemma write_gpt_table_outcome old d :
  intact d old ->
  (∀ j, (j <= 32)%nat -> efi_crc32 (torn j new old) = efi_crc32 new -> torn j new old = old \/ torn j new old = new) ->
  outcome old d (write_gpt_table dev d (first_header dev id) (padding dev 92) (new ++ padding dev 16384)).
Proof.
  intros [Hp Hbk] Hmix. destruct hdr_lengths as [Hl1 _]. rewrite write_gpt_table_steps.
  destruct (set_protective_mbr_law d) as (r0 & d0 & -> & Hs0). assert (usable_kept d d0) as Hk0 by (intros k Hk; apply Hs0; lia).
  assert (copy_at d0 1 2 old) as Hp0 by (apply (copy_at_frame d); [apply Hs0; lia|intros; apply Hs0; lia|done]).
  assert (copy_at d0 (lba dev - 1) (lba dev - 33) old) as Hbk0 by (apply (copy_at_frame d); [apply Hs0; lia|intros; apply Hs0; lia|done]).
  apply (outcome_kept _ _ d0 _ Hk0). destruct (r0 <? 0).
  { exists (-1), d0. split_and!; [done|by right|left; by apply primary_reads|done|done]. }
  fold hdr1 hdr2. match goal with |- outcome _ _ (and_write _ _ _ ?k _) => destruct (and_write_law dev 1 1 hdr1 k d0) as (d1 & j1 & Hj1 & Hb1 & Hr1) end;
    [lia|lia|lia|].
  destruct (one_block (block d0) 1 hdr1 j1 Hj1 Hl1) as (Ho1 & H11 & H10).
  assert (∀ k, k <> 1 -> block d1 k = block d0 k) as Hs1 by (intros k Hk; rewrite Hb1; by apply Ho1).
  assert (usable_kept d0 d1) as Hk1 by (intros k Hk; apply Hs1; lia).
  assert (copy_at d1 (lba dev - 1) (lba dev - 33) old) as Hbk1 by (apply (copy_at_frame d0); [apply Hs1; lia|intros; apply Hs1; lia|done]).
  destruct (decide (j1 = 0)%nat) as [->|Hj1'].
  { destruct Hr1 as [->|[? _]]; [|done]. exists (-1), d1. split_and!; [done|by right| |done|done]. left. apply primary_reads.
    apply (copy_at_frame d0); [rewrite Hb1; by apply H10|intros; apply Hs1; lia|done]. }
  assert (sectors (block d1) 2 32 = old) as Hold.
  { destruct Hp0 as (h & pad & _ & _ & Hsec & _). rewrite <-Hsec. apply sectors_ext. intros k Hk. apply Hs1. lia. }
  assert (block d1 1 = hdr1) as Hh1 by (rewrite Hb1; apply H11; lia).
  destruct Hr1 as [->|[_ ->]]; [|by apply (outcome_kept _ _ d1 _ Hk1), write_entries_outcome].
  exists (-1), d1. split_and!; [done|by right| |done|done]. apply (mixed_reads d1 (primary dev id new) zeros old); try done; [|tauto].
  apply primary_shape; [lia|done|apply Hnew].
Qed.

(** A table that was written without an error, over whatever was there. *)
Lemma write_gpt_table_done d d' :
  write_gpt_table dev d (first_header dev id) (padding dev 92) (new ++ padding dev 16384) = Some (0, d') -> intact d' new.
Proof.
  destruct hdr_lengths as [Hl1 Hl2]. destruct Hnew as [Hl Hb]. rewrite write_gpt_table_steps. fold hdr1 hdr2.
  destruct (set_protective_mbr dev d) as [r0 d0]. destruct (r0 <? 0); [done|].
  match goal with |- and_write _ _ _ ?k _ = _ -> _ => destruct (and_write_law dev 1 1 hdr1 k d0) as (d1 & j1 & Hj1 & Hb1 & [->|[-> ->]]) end;
    [lia|lia|lia|done|].
  destruct (one_block (block d0) 1 hdr1 1 Hj1 Hl1) as (_ & H11 & _).
  match goal with |- and_write _ _ _ ?k _ = _ -> _ => destruct (and_write_law dev 32 2 new k d1) as (d2 & j2 & Hj2 & Hb2 & [->|[-> ->]]) end;
    [lia|lia|lia|done|].
  intros E. destruct (write_backup_outcome new d2) as (r & d'' & E' & _ & _ & Hi & _); [|rewrite E in E'; injection E' as <- <-; by apply Hi].
  exists (primary dev id new), zeros. split; [by apply primary_shape; [lia|..]|]. split; [|split; [|done]].
  - rewrite Hb2, overlay_out by (rewrite chop_length; lia). rewrite Hb1. by apply H11.
  - rewrite (sectors_ext _ _ _ _ (λ k _, Hb2 k)), sectors_overlay by lia. apply take_ge. lia.
Qed.
End update.

(** ** Writing a table of partitions *)

(** The entries that [gpt_restore] makes. *)
Definition new_entries (dev : block_dev_desc) (guid : list Z) (parts : list disk_partition_t) : option (list gpt_entry) :=
  h ← gpt_fill_header dev guid;
  es ← gpt_fill_pte h (replicate (Z.to_nat GPT_ENTRY_NUMBERS) empty_entry) parts; es.

Lemma fill_loop_total h es parts (i : nat) o :
  (i + length parts <= length es)%nat -> ∃ r, fill_loop h es parts (Z.of_nat i) o = Some r.
Proof.
  revert es i o. induction parts as [|p parts IH]; intros es i o Hi; [by eexists|]. cbn [fill_loop length] in *.
  destruct (_ && _); [by eexists|]. destruct (_ <=? _); [by eexists|]. destruct (uuid_str_to_bin _ _); [by eexists|].
  rewrite aset_nat by lia. cbn [mbind option_bind]. replace (Z.of_nat i + 1) with (Z.of_nat (S i)) by lia. apply IH. rewrite length_insert. lia.
Qed.

Lemma empty_entry_ok : entry_ok empty_entry.
Proof. split; cbn; [by split; [|apply all_bytes]|by split; [|apply all_bytes]|unfold word8; lia|split; [done|]; repeat constructor; lia]. Qed.

Lemma new_entries_spec dev guid parts es :
  68 <= lba dev < 2 ^ 63 -> Forall (part_ok (lba dev - 34)) parts -> new_entries dev guid parts = Some es ->
  ∃ new, es = new ++ replicate (128 - length parts) empty_entry /\ (length parts <= 128)%nat /\
    entries_for (lba dev - 34) parts new /\ laid (lba dev - 34) 34 new /\ Forall entry_ok new /\ length new = length parts.
Proof.
  intros Hlba Hok H. change (2 ^ 63) with 9223372036854775808 in Hlba. unfold new_entries, gpt_fill_header in H.
  destruct (uuid_str_to_bin guid _) as [|id]; [done|]. cbn [mbind option_bind] in H. fold (first_header dev id) in H. unfold gpt_fill_pte in H.
  destruct (fill_loop (first_header dev id) _ parts 0 _) as [[es'|]|] eqn:E; try done.
  cbn [mbind option_bind] in H. injection H as ->.
  assert (last_usable_lba (first_header dev id) = lba dev - 34) as Hlu by (cbn; apply u64_small; lia).
  destruct (fill_loop_spec _ _ _ parts 0 34 es Hlu ltac:(lia) ltac:(lia) Hok E) as (new & -> & Hef & Hla & Heo & Hln & Hroom).
  exists new. rewrite length_replicate in Hroom. change (Z.to_nat GPT_ENTRY_NUMBERS) with 128%nat in *.
  assert (length parts <= 128)%nat as Hle by (destruct parts; [cbn; lia|apply Hroom; done]). split; [|done].
  rewrite take_0. cbn [app]. f_equal. rewrite drop_replicate. done.
Qed.

(** C32. The partitions of a new table: they are where they were asked for, in
    order and disjoint, inside of the usable blocks, each with its size, or for a
    last one without a size to the end; the rest of the 128 entries is unused. *)
Theorem gpt_partitions_laid dev guid parts es :
  68 <= lba dev < 2 ^ 63 -> Forall (part_ok (lba dev - 34)) parts -> new_entries dev guid parts = Some es ->
  ∃ new, es = new ++ replicate (128 - length parts) empty_entry /\ (length parts <= 128)%nat /\
    entries_for (lba dev - 34) parts new /\ laid (lba dev - 34) 34 new.
Proof. intros Hl Hok H. destruct (new_entries_spec dev guid parts es Hl Hok H) as (new & ? & ? & ? & ? & _). by exists new. Qed.

Lemma new_entries_bytes dev guid parts es :
  68 <= lba dev < 2 ^ 63 -> Forall (part_ok (lba dev - 34)) parts -> new_entries dev guid parts = Some es ->
  Forall entry_ok es /\ length es = 128%nat /\ Z.of_nat (length (entries_bytes es)) = 16384 /\ Forall byte (entries_bytes es).
Proof.
  intros Hl Hok H. destruct (new_entries_spec dev guid parts es Hl Hok H) as (new & -> & Hle & _ & _ & Heo & Hln).
  assert (Forall entry_ok (new ++ replicate (128 - length parts) empty_entry)) as Hall.
  { apply Forall_app. split; [done|]. apply Forall_replicate, empty_entry_ok. }
  assert (length (new ++ replicate (128 - length parts) empty_entry) = 128%nat) as H128 by (rewrite length_app, length_replicate; lia).
  split; [done|]. split; [done|]. rewrite entries_length by done. split; [rewrite H128; done|by apply entries_byte].
Qed.

(** C30. Updates of the partition table survive failures: wherever a write fails
    or power is lost, the table that is read afterwards is the old one or the new
    one as a whole, and the blocks of the partitions are untouched; when
    [gpt_restore] succeeds both copies of the new table are in place.  It is
    assumed that the checksum tells a torn table from the new one. *)
Theorem gpt_restore_atomic {D : Type} `{!BlockDev D} (dev : block_dev_desc) `{!BlockDevLaws D dev} can_alloc (d : D) old guid parts :
  can_alloc 512 = true -> can_alloc 16384 = true -> 68 <= lba dev < 2 ^ 63 ->
  intact dev d old -> Forall byte guid -> Forall (part_ok (lba dev - 34)) parts -> (length parts <= 128)%nat ->
  (∀ es j, new_entries dev guid parts = Some es -> (j <= 32)%nat -> let new := entries_bytes es in
     efi_crc32 (torn j new old) = efi_crc32 new -> torn j new old = old \/ torn j new old = new) ->
  ∃ r d', gpt_restore dev can_alloc d guid parts = Some (r, d') /\ usable_kept dev d d' /\
    (reads dev can_alloc d' old \/ ∃ es, new_entries dev guid parts = Some es /\ reads dev can_alloc d' (entries_bytes es)) /\
    (r = 0 -> ∃ es, new_entries dev guid parts = Some es /\ intact dev d' (entries_bytes es)).
Proof.
  intros Ha1 Ha2 Hlba Hold Hg Hok Hle Hmix. unfold gpt_restore, PAD_TO_BLOCKSIZE. rewrite dev_blksz.
  change (PAD_COUNT 92 512 * 512) with 512. change (PAD_COUNT (GPT_ENTRY_NUMBERS * 128) 512 * 512) with 16384. rewrite Ha1, Ha2. cbn [negb].
  assert (∃ r d', Some (-1, d) = Some (r, d') /\ usable_kept dev d d' /\
    (reads dev can_alloc d' old \/ ∃ es, new_entries dev guid parts = Some es /\ reads dev can_alloc d' (entries_bytes es)) /\
    (r = 0 -> ∃ es, new_entries dev guid parts = Some es /\ intact dev d' (entries_bytes es))) as Hfail.
  { exists (-1), d. split_and!; [done|done|left; apply (primary_reads dev can_alloc Ha2 Hlba), Hold|done]. }
  unfold new_entries in *. destruct (gpt_fill_header dev guid) as [h|] eqn:Eh; [|exact Hfail]. cbn [mbind option_bind] in *.
  destruct (fill_loop_total h (replicate (Z.to_nat GPT_ENTRY_NUMBERS) empty_entry) parts 0 (first_usable_lba h)) as [res Er]; [done|].
  unfold gpt_fill_pte in *. change (Z.of_nat 0) with 0 in Er. rewrite Er in *. cbn [mbind option_bind] in *. destruct res as [es|]; [|exact Hfail].
  assert (new_entries dev guid parts = Some es) as Hes by (unfold new_entries; rewrite Eh; cbn [mbind option_bind]; unfold gpt_fill_pte; by rewrite Er).
  destruct (new_entries_bytes dev guid parts es Hlba Hok Hes) as (_ & _ & Hel & Heb).
  unfold gpt_fill_header in Eh. destruct (uuid_str_to_bin guid UUID_STR_FORMAT_GUID) as [|id] eqn:Eid; [done|]. injection Eh as <-.
  destruct (write_gpt_table_outcome dev can_alloc Ha2 Hlba id (entries_bytes es) (uuid_str_to_bin_bytes _ _ _ Hg Eid) (conj Hel Heb) old d Hold)
    as (r & d' & E & _ & Hreads & Hdone & Hkept); [by intros; apply (Hmix es)|].
  exists r, d'. split; [exact E|]. split; [done|]. split; [destruct Hreads; [by left|right; by exists es]|]. intros Hr. exists es. by split; [|apply Hdone].
Qed.

(** Success, over whatever was on the disk. *)
Lemma gpt_restore_done {D : Type} `{!BlockDev D} (dev : block_dev_desc) `{!BlockDevLaws D dev} can_alloc (d d' : D) guid parts :
  can_alloc 16384 = true -> 68 <= lba dev < 2 ^ 63 -> Forall byte guid -> Forall (part_ok (lba dev - 34)) parts ->
  gpt_restore dev can_alloc d guid parts = Some (0, d') ->
  ∃ es, new_entries dev guid parts = Some es /\ intact dev d' (entries_bytes es).
Proof.
  intros Ha Hlba Hg Hok. unfold gpt_restore. destruct (negb _); [done|]. destruct (negb _); [done|].
  destruct (gpt_fill_header dev guid) as [h|] eqn:Eh; [|done].
  destruct (gpt_fill_pte h _ parts) as [[es|]|] eqn:Ef; try done. cbn [mbind option_bind]. intros E.
  assert (new_entries dev guid parts = Some es) as Hes by (unfold new_entries; rewrite Eh; cbn [mbind option_bind]; by rewrite Ef).
  exists es. split; [done|]. destruct (new_entries_bytes dev guid parts es Hlba Hok Hes) as (_ & _ & Hel & Heb).
  unfold gpt_fill_header in Eh. destruct (uuid_str_to_bin guid UUID_STR_FORMAT_GUID) as [|id] eqn:Eid; [done|]. injection Eh as <-.
  by apply (write_gpt_table_done dev can_alloc Ha Hlba id (entries_bytes es) (uuid_str_to_bin_bytes _ _ _ Hg Eid) (conj Hel Heb) d d').
Qed.
