(* ===== verification/PartEfiRead.v ===== *)
(** * Reading partition tables

    What [get_partition_info_efi] and [gpt_verify_partitions] say about a table
    that [gpt_restore] has written. *)

From S2P Require Import Prelude Mem Ctype Cstring Crc Strtoul Vsprintf RkParam RkLoader Bytes Uuid PartEfi PartEfiTable.

(** ** [sprintf] of texts *)

Lemma addchs_fits cs o :
  0 <= str o -> str o + Z.of_nat (length cs) <= Z.of_nat (length (obuf o)) -> str o + Z.of_nat (length cs) <= oend o ->
  addchs o cs = Some (Out (take (Z.to_nat (str o)) (obuf o) ++ cs ++ drop (Z.to_nat (str o) + length cs) (obuf o))
                        (str o + Z.of_nat (length cs)) (oend o) (nstores o)).
Proof.
  revert o. induction cs as [|c cs IH]; intros [buf p e ns] Hp Hl He; cbn [str obuf oend nstores length] in *; cbn [addchs].
  { rewrite Nat.add_0_r, Z.add_0_r. cbn [app]. by rewrite take_drop. }
  unfold ADDCH. cbn [str obuf oend nstores]. rewrite (proj2 (Z.ltb_lt _ _)) by lia. rewrite aset_Some by lia. cbn [mbind option_bind].
  rewrite IH; cbn [str obuf oend nstores]; rewrite ?length_insert; try lia. do 2 f_equal; [|lia].
  replace (Z.to_nat (p + 1)) with (S (Z.to_nat p)) by lia. rewrite (take_S_r _ _ c) by (apply list_lookup_insert_eq; lia).
  rewrite take_insert_ge, drop_insert_lt by lia. rewrite <-app_assoc. cbn [app]. do 3 f_equal. f_equal. lia.
Qed.

(** A format that gives the text [cs] into a buffer with room for it. *)
Lemma sprintf_fits addr buf fmt args cs :
  0 <= addr -> addr + INT_MAX < 2 ^ 64 -> (length cs < length buf)%nat -> Z.of_nat (length buf) < INT_MAX ->
  (∀ o, str o = 0 -> nstores o = [] -> format_loop (length fmt) fmt args o = addchs o cs) ->
  sprintf addr buf fmt args = Some (Z.of_nat (length cs), cs ++ 0 :: drop (S (length cs)) buf, []).
Proof.
  intros Ha H64 Hl Hb Hf. unfold sprintf, vsprintf, vsnprintf_internal. unfold INT_MAX in *. change (2 ^ 64) with 18446744073709551616 in *.
  rewrite u64_small, (proj2 (Z.ltb_ge (addr + 2147483647) addr)) by lia. rewrite Hf by done. rewrite addchs_fits by (cbn; lia).
  cbn [mbind option_bind str obuf oend nstores Z.add]. change (0 <? 2147483647) with true. cbv iota. unfold ADDCH. cbn [str obuf oend nstores].
  rewrite (proj2 (Z.ltb_lt _ _)) by lia. change (Z.to_nat 0) with 0%nat. rewrite take_0. cbn [app Nat.add].
  assert (length (cs ++ drop (length cs) buf) = length buf) as Hlen by (rewrite length_app, length_drop; lia).
  rewrite aset_Some by lia. cbn [mbind option_bind str obuf oend nstores].
  rewrite (proj2 (Z.ltb_ge _ _)) by lia. cbn [mbind option_bind].
  rewrite Z.add_0_l, Nat2Z.id, s32_small by lia. do 3 f_equal; [lia|].
  destruct (drop (length cs) buf) as [|x r] eqn:E; [apply (f_equal length) in E; rewrite length_drop in E; cbn in E; lia|].
  rewrite insert_app_r_alt, Nat.sub_diag by lia. cbn. f_equal. f_equal. rewrite <-Nat.add_1_r, <-drop_drop, E. done.
Qed.

Lemma sprintf_s addr buf s :
  0 <= addr -> addr + INT_MAX < 2 ^ 64 -> (length s < length buf)%nat -> Z.of_nat (length buf) < INT_MAX ->
  sprintf addr buf [37; 115] [VStr (Some s)] = Some (Z.of_nat (length s), s ++ 0 :: drop (S (length s)) buf, []).
Proof.
  intros. apply sprintf_fits; try done. intros [b p e ns] Hs Hn. cbn [str nstores] in *. subst. cbn [length format_loop Z.eqb Pos.eqb negb str].
  change (directive [115] 0 [VStr (Some s)]) with (Some (string (Some s) (-1) (-1) 0, @nil Z, @nil Z, @nil va)). rewrite string_plain.
  cbn [mbind option_bind]. destruct (addchs _ s) as [[b' p' e' ns']|]; [|done]. cbn [mbind option_bind nstores]. by rewrite app_nil_r.
Qed.

Lemma sprintf_plain addr buf fmt :
  0 <= addr -> addr + INT_MAX < 2 ^ 64 -> (length fmt < length buf)%nat -> Z.of_nat (length buf) < INT_MAX -> Forall (λ c, c <> 37) fmt ->
  sprintf addr buf fmt [] = Some (Z.of_nat (length fmt), fmt ++ 0 :: drop (S (length fmt)) buf, []).
Proof.
  intros H1 H2 H3 H4 Hf. apply sprintf_fits; try done. intros o _ _. clear -Hf. revert o. induction Hf as [|c fmt Hc Hf IH]; intros o; [done|].
  cbn [length format_loop addchs]. rewrite (proj2 (Z.eqb_neq _ _) Hc). cbn [negb]. destruct (ADDCH o c) as [o'|]; [|done]. cbn [mbind option_bind]. apply IH.
Qed.

Definition type_text : list Z := Eval vm_compute in text "U-Boot".

Lemma sprintf_type addr buf :
  0 <= addr -> addr + INT_MAX < 2 ^ 64 -> (6 < length buf)%nat -> Z.of_nat (length buf) < INT_MAX ->
  sprintf addr buf (text "U-Boot") [] = Some (6, type_text ++ 0 :: drop 7 buf, []).
Proof.
  intros. change (text "U-Boot") with type_text. apply sprintf_plain; try done. unfold type_text. repeat (apply Forall_cons; split; [lia|]). by apply Forall_nil.
Qed.

(** ** Names *)

Definition shown (c : Z) : Z := if negb (c =? 0) && negb (isprint c) then 46 else c.

Lemma shown_zero c : shown c = 0 <-> c = 0.
Proof. unfold shown. destruct (Z.eqb_spec c 0); cbn [negb andb]; [done|]. destruct (isprint c); cbn [negb]; [done|]. split; [lia|done]. Qed.

Lemma cstring_zero l r : cstring (l ++ 0 :: r) = cstring l.
Proof. induction l as [|c l IH]; [done|]. cbn. destruct (c =? 0); [done|]. by rewrite IH. Qed.

Lemma cstring_shown l : cstring (shown <$> l) = shown <$> cstring l.
Proof.
  induction l as [|c l IH]; [done|]. rewrite fmap_cons. cbn [cstring]. pose proof (shown_zero c).
  destruct (Z.eqb_spec c 0) as [->|Hc]; [done|]. rewrite (proj2 (Z.eqb_neq _ _)) by tauto. rewrite fmap_cons. by rewrite IH.
Qed.

Lemma cstring_length l : (length (cstring l) <= length l)%nat.
Proof. induction l as [|c l IH]; [done|]. cbn. destruct (c =? 0); cbn; lia. Qed.

(** A string that is shorter than its array has a NUL. *)
Lemma cstring_split l : (length (cstring l) < length l)%nat -> ∃ r, l = cstring l ++ 0 :: r.
Proof.
  induction l as [|c l IH]; intros H; [cbn in H; lia|]. cbn in *. destruct (Z.eqb_spec c 0) as [->|Hc]; [by exists l|].
  cbn [length] in H. destruct IH as [r E]; [lia|]. exists r. cbn. by rewrite <-E.
Qed.

Lemma cstring_nonzero l : Forall (λ c, c <> 0) (cstring l).
Proof. induction l as [|c l IH]; [constructor|]. cbn. destruct (Z.eqb_spec c 0); [constructor|by constructor]. Qed.

Lemma cstring_text s r : Forall (λ c, c <> 0) s -> cstring (s ++ 0 :: r) = s.
Proof. intros H. rewrite cstring_zero. induction H as [|c s Hc Hs IH]; [done|]. cbn. rewrite (proj2 (Z.eqb_neq _ _) Hc). by rewrite IH. Qed.

Lemma cstring_app l r : (length (cstring l) < length l)%nat -> cstring (l ++ r) = cstring l.
Proof. intros H. destruct (cstring_split l H) as [x E]. rewrite E, <-app_assoc. cbn [app]. rewrite !cstring_zero. done. Qed.

(** The name of a partition, as it is asked for. *)
Definition part_name (p : disk_partition_t) : list Z := cstring (take 32 (name_type p)).

Lemma print_efiname_fill limit p a b id :
  part_ok limit p -> print_efiname (fill_entry p a b id) = shown <$> part_name p.
Proof.
  intros [_ _ _ [Hl Hb] _]. unfold print_efiname, part_name. cbn [fill_entry partition_name]. rewrite <-cstring_shown.
  rewrite fmap_app. transitivity (cstring ((shown <$> take 32 (name_type p)) ++ replicate 4 0)).
  - f_equal. f_equal. apply list_fmap_ext. intros i w Hw. assert (0 <= w < 256) as Hr.
    { apply (Forall_lookup_1 byte (take 32 (name_type p)) i); [by apply Forall_take|done]. }
    replace (w .& 255) with w; [done|]. change 255 with (Z.ones 8). rewrite Z.land_ones by lia. symmetry. apply Z.mod_small. lia.
  - apply cstring_zero.
Qed.

(** ** What is reported *)

Record info_ok (addr : Z) (info : disk_partition_t) : Prop := InfoOk {
  io_addr : 0 <= addr /\ addr + 129 + INT_MAX < 2 ^ 64;
  io_text : length (name_type info) = 64%nat;
  io_uuid : length (uuid info) = 37%nat
}.

Lemma system_guid_differs : bool_decide (PARTITION_BASIC_DATA_GUID = PARTITION_SYSTEM_GUID) = false.
Proof. vm_compute. reflexivity. Qed.

Section reading.
Context {D : Type} `{!BlockDev D} (dev : block_dev_desc) `{!BlockDevLaws D dev} (can_alloc : Z -> bool).

Lemma print_efiname_length e : entry_ok e -> (length (print_efiname e) <= 36)%nat.
Proof. intros [_ _ _ [Hn _]]. unfold print_efiname. etransitivity; [apply cstring_length|]. by rewrite length_fmap, Hn. Qed.

(** [name_type] after the name was printed into it *)
Definition name_put (s : list Z) (info : disk_partition_t) : list Z := s ++ 0 :: drop (S (length s)) (name_type info).

Lemma name_put_length s info : (length s <= 36)%nat -> length (name_type info) = 64%nat -> length (name_put s info) = 64%nat.
Proof. intros Hs Ht. unfold name_put. rewrite length_app. cbn [length]. rewrite length_drop. lia. Qed.

(** The answer for an entry that is in use. *)
Lemma get_info_valid (d : D) es i e addr info :
  reads dev can_alloc d (entries_bytes es) -> Forall entry_ok es -> length es = 128%nat -> es !! i = Some e ->
  is_pte_valid e = true -> info_ok addr info ->
  get_partition_info_efi dev can_alloc d (Z.of_nat i + 1) addr info =
  Some (0, DiskPartition (starting_lba e) (u64 (ending_lba e + 1 - starting_lba e)) (blksz dev)
    (take 32 (name_put (print_efiname e) info) ++ type_text ++ 0 :: drop 7 (drop 32 (name_put (print_efiname e) info))) (is_bootable e)
    (uuid_text (ordered UUID_STR_FORMAT_GUID (unique_partition_guid e)) ++ [0])).
Proof.
  intros (hb & Hf & Hn) Hok H128 Hi Hv [[Ha Ha'] Ht Hu]. pose proof (lookup_lt_Some _ _ _ Hi) as Hlt.
  pose proof (Forall_lookup_1 _ _ _ _ Hok Hi) as He. pose proof (print_efiname_length e He) as Hle.
  pose proof (pte_at_entries es i e [] Hok Hi) as Hpte. rewrite app_nil_r in Hpte. destruct He as [_ [Hul Hub] _ _].
  unfold get_partition_info_efi. rewrite (proj2 (Z.ltb_ge (Z.of_nat i + 1) 1)) by lia. rewrite Hf.
  cbn [mbind option_bind]. rewrite Hn, (proj2 (Z.ltb_ge 128 (Z.of_nat i + 1))) by lia. replace (Z.of_nat i + 1 - 1) with (Z.of_nat i) by lia.
  rewrite Hpte. cbn [mbind option_bind]. rewrite Hv. cbn [negb].
  rewrite sprintf_s by (rewrite ?Ht; unfold INT_MAX in *; lia). cbn [mbind option_bind]. fold (name_put (print_efiname e) info).
  rewrite sprintf_type by (rewrite ?length_drop, ?name_put_length by done; unfold INT_MAX in *; lia). cbn [mbind option_bind].
  rewrite uuid_bin_to_str_spec by (done || unfold INT_MAX in *; lia). reflexivity.
Qed.

(** The answer for an entry of [gpt_restore]. *)
Lemma get_info_entry (d : D) es i e limit p addr info :
  reads dev can_alloc d (entries_bytes es) -> Forall entry_ok es -> length es = 128%nat -> es !! i = Some e ->
  part_ok limit p -> e = fill_entry p (starting_lba e) (ending_lba e) (unique_partition_guid e) ->
  (length (part_name p) < 32)%nat -> info_ok addr info ->
  ∃ text, get_partition_info_efi dev can_alloc d (Z.of_nat i + 1) addr info =
    Some (0, DiskPartition (starting_lba e) (u64 (ending_lba e + 1 - starting_lba e)) (blksz dev) text (if bootable p =? 0 then 0 else 1)
      (uuid_text (ordered UUID_STR_FORMAT_GUID (unique_partition_guid e)) ++ [0])) /\
    cstring text = shown <$> part_name p.
Proof.
  intros Hr Hok H128 Hi Hp Hfill Hname Hio. assert (is_pte_valid e = true) as Hv by (rewrite Hfill; done).
  rewrite (get_info_valid d es i e addr info) by done.
  assert (print_efiname e = shown <$> part_name p) as -> by (rewrite Hfill; by apply (print_efiname_fill limit)).
  assert (is_bootable e = if bootable p =? 0 then 0 else 1) as ->.
  { rewrite Hfill. unfold is_bootable. cbn [fill_entry attributes partition_type_guid]. rewrite system_guid_differs, orb_false_r. by destruct (bootable p =? 0). }
  eexists. split; [reflexivity|]. set (s := shown <$> part_name p). assert (length s < 32)%nat as Hs by (unfold s; by rewrite length_fmap).
  assert (take 32 (name_put s info) = s ++ 0 :: take (31 - length s) (drop (S (length s)) (name_type info))) as ->.
  { unfold name_put. rewrite take_app, take_ge by lia. f_equal. by replace (32 - length s)%nat with (S (31 - length s)) by lia. }
  rewrite <-app_assoc. cbn [app]. apply cstring_text. apply Forall_fmap. eapply Forall_impl; [apply cstring_nonzero|].
  intros c Hc. cbn. by rewrite shown_zero.
Qed.
End reading.

Lemma entries_for_lookup limit ps es i p e :
  entries_for limit ps es -> ps !! i = Some p -> es !! i = Some e -> entry_for limit (bool_decide (S i = length ps)) p e.
Proof.
  intros H. revert i. induction H as [|p' ps e' es Hef H IH]; intros i Hp He; [done|]. destruct i as [|i]; cbn in Hp, He.
  - injection Hp as ->. injection He as ->. destruct ps; cbn [length]; [done|]. rewrite bool_decide_eq_false_2 in * by (done || lia). done.
  - specialize (IH i Hp He). cbn [length]. rewrite (bool_decide_ext (S (S i) = S (length ps)) (S i = length ps)); [done|]. lia.
Qed.

Lemma entries_for_length limit ps es : entries_for limit ps es -> length es = length ps.
Proof. induction 1; cbn; lia. Qed.

Lemma laid_at limit o es i e :
  laid limit o es -> es !! i = Some e -> o <= starting_lba e /\ starting_lba e <= ending_lba e + 1 /\ ending_lba e <= limit.
Proof.
  revert o i. induction es as [|e' es IH]; intros o i H He; [done|]. cbn [laid] in H. destruct H as (H1 & H2 & H3 & H4).
  destruct i as [|i]; cbn in He; [injection He as ->; lia|]. specialize (IH _ i H4 He). lia.
Qed.

Lemma ordered_groups s a b c d e :
  uuid_groups s a b c d e ->
  ordered UUID_STR_FORMAT_GUID (group_bytes a b c d e) = rev (pairs a) ++ rev (pairs b) ++ rev (pairs c) ++ pairs d ++ pairs e.
Proof.
  intros [_ (La & Lb & Lc & Ld & Le) (Ha & Hb & Hc & Hd & He)]. unfold ordered, group_bytes.
  destruct (pairs_spec 4 a La Ha) as (Pa & _), (pairs_spec 2 b Lb Hb) as (Pb & _), (pairs_spec 2 c Lc Hc) as (Pc & _).
  rewrite take_app_length' by done. change 6%nat with (4 + 2)%nat at 1. change 8%nat with (4 + 2 + 2)%nat. rewrite <-!drop_drop.
  rewrite !(drop_app_length' (pairs a)), !(drop_app_length' (pairs b)), (drop_app_length' (pairs c)), !take_app_length' by done. done.
Qed.

(** What a partition of the table is asked to be. *)
Lemma new_entry_at dev guid parts es i p :
  68 <= lba dev < 2 ^ 63 -> Forall (part_ok (lba dev - 34)) parts -> new_entries dev guid parts = Some es -> parts !! i = Some p ->
  ∃ e, es !! i = Some e /\ entry_for (lba dev - 34) (bool_decide (S i = length parts)) p e /\ 34 <= starting_lba e /\
    starting_lba e <= ending_lba e + 1 /\ ending_lba e <= lba dev - 34.
Proof.
  intros Hl Hok H Hp. destruct (new_entries_spec dev guid parts es Hl Hok H) as (new & -> & _ & Hef & Hla & _ & Hln).
  pose proof (lookup_lt_Some _ _ _ Hp). destruct (lookup_lt_is_Some_2 new i) as [e He]; [lia|]. exists e. rewrite lookup_app_l by lia.
  split; [done|]. split; [by eapply entries_for_lookup|]. by apply (laid_at _ _ new i).
Qed.

(** A partition table that was written is read back: for every partition
    [get_partition_info_efi] reports the start and the size that were asked for
    (the next free block and the rest of the disk where they were left open), the
    name and the boot flag, whatever was on the disk before. *)
Theorem gpt_restore_read_back {D : Type} `{!BlockDev D} (dev : block_dev_desc) `{!BlockDevLaws D dev} can_alloc (d d' : D) guid parts i p addr info :
  can_alloc 16384 = true -> 68 <= lba dev < 2 ^ 63 -> Forall byte guid -> Forall (part_ok (lba dev - 34)) parts ->
  gpt_restore dev can_alloc d guid parts = Some (0, d') ->
  parts !! i = Some p -> (length (part_name p) < 32)%nat -> info_ok addr info ->
  ∃ info', get_partition_info_efi dev can_alloc d' (Z.of_nat i + 1) addr info = Some (0, info') /\
    (start p <> 0 -> start info' = start p) /\
    (psize info' = psize p \/ S i = length parts /\ psize p = 0 /\ start info' + psize info' = lba dev - 33) /\
    34 <= start info' /\ start info' + psize info' <= lba dev - 33 /\
    cstring (name_type info') = shown <$> part_name p /\ bootable info' = (if bootable p =? 0 then 0 else 1).
Proof.
  intros Ha Hl Hg Hok Hr Hp Hn Hi. destruct (gpt_restore_done dev can_alloc d d' guid parts Ha Hl Hg Hok Hr) as (es & Hes & Hint).
  destruct (new_entries_bytes dev guid parts es Hl Hok Hes) as (Heo & H128 & _).
  destruct (new_entry_at dev guid parts es i p Hl Hok Hes Hp) as (e & He & [Hfill Hu Hst Hroom Hsz] & H34 & Hse & Hend).
  pose proof (primary_reads dev can_alloc Ha Hl d' _ (proj1 Hint)) as Hreads. pose proof (Forall_lookup_1 _ _ _ _ Hok Hp) as Hpok.
  destruct (get_info_entry dev can_alloc d' es i e _ p addr info Hreads Heo H128 He Hpok Hfill Hn Hi) as (text & -> & Ht).
  eexists. split; [done|]. cbn [start psize name_type bootable]. change (2 ^ 63) with 9223372036854775808 in Hl.
  rewrite u64_small by lia. split; [done|]. split.
  - destruct (bool_decide (S i = length parts)) eqn:Hb, (Z.eqb_spec (psize p) 0) as [Hz|Hz]; cbn [andb] in Hsz; try (left; lia).
    apply bool_decide_eq_true in Hb. right. split; [done|]. split; [done|lia].
  - split; [lia|]. split; [lia|]. by split.
Qed.

(** C34. The UUID of a partition does not survive: it is written in the order of a
    UUID and read in the order of a GUID, so that the bytes of its first three
    groups are reported in reverse. *)
Theorem gpt_uuid_swapped {D : Type} `{!BlockDev D} (dev : block_dev_desc) `{!BlockDevLaws D dev} can_alloc (d d' : D) guid parts i p addr info
    g1 g2 g3 g4 g5 :
  can_alloc 16384 = true -> 68 <= lba dev < 2 ^ 63 -> Forall byte guid -> Forall (part_ok (lba dev - 34)) parts ->
  gpt_restore dev can_alloc d guid parts = Some (0, d') ->
  parts !! i = Some p -> (length (part_name p) < 32)%nat -> info_ok addr info ->
  uuid_groups (cstring (uuid p)) g1 g2 g3 g4 g5 ->
  ∃ info', get_partition_info_efi dev can_alloc d' (Z.of_nat i + 1) addr info = Some (0, info') /\
    uuid info' = uuid_text (rev (pairs g1) ++ rev (pairs g2) ++ rev (pairs g3) ++ pairs g4 ++ pairs g5) ++ [0].
Proof.
  intros Ha Hl Hg Hok Hr Hp Hn Hi Hgr. destruct (gpt_restore_done dev can_alloc d d' guid parts Ha Hl Hg Hok Hr) as (es & Hes & Hint).
  destruct (new_entries_bytes dev guid parts es Hl Hok Hes) as (Heo & H128 & _).
  destruct (new_entry_at dev guid parts es i p Hl Hok Hes Hp) as (e & He & [Hfill Hu Hst Hroom Hsz] & _).
  pose proof (primary_reads dev can_alloc Ha Hl d' _ (proj1 Hint)) as Hreads. pose proof (Forall_lookup_1 _ _ _ _ Hok Hp) as Hpok.
  destruct (get_info_entry dev can_alloc d' es i e _ p addr info Hreads Heo H128 He Hpok Hfill Hn Hi) as (text & -> & Ht).
  eexists. split; [done|]. cbn [uuid]. f_equal. f_equal.
  assert (Forall byte (cstring (uuid p))) as Hb by (apply cstring_bytes, Hpok).
  destruct (uuid_str_valid (Some (cstring (uuid p)))) eqn:Hv; [|unfold uuid_str_to_bin in Hu; rewrite Hv in Hu; discriminate].
  rewrite (uuid_str_to_bin_groups _ _ _ _ _ _ _ Hb Hgr Hv) in Hu. injection Hu as <-. by apply (ordered_groups _ _ _ _ _ _ Hgr).
Qed.

(** ** Verifying *)

Lemma convert_loop_shift n a ess i : convert_loop n (a ++ ess) (length a + i) = convert_loop n ess i.
Proof.
  revert i. induction n as [|n IH]; intros i; [done|]. cbn [convert_loop]. rewrite lookup_app_r by lia.
  replace (length a + i - length a)%nat with i by lia. destruct (ess !! i) as [c|]; [|done]. cbn [mbind option_bind].
  destruct (c =? 0); [done|]. rewrite <-Nat.add_assoc, IH. done.
Qed.

Lemma convert_loop_name n cs r rest :
  (length cs < n)%nat -> Forall (λ c, c <> 0) cs -> Forall byte cs ->
  convert_loop n (mjoin (le_bytes 2 <$> cs ++ 0 :: r) ++ rest) 0 = Some (cs ++ replicate (n - length cs) 0).
Proof.
  intros Hl Hz Hb. revert n Hl. induction cs as [|c cs IH]; intros n Hl; (destruct n as [|n]; [cbn in Hl; lia|]); [done|].
  apply Forall_cons in Hz as [Hz0 Hz], Hb as [Hb0 Hb]. cbn [length] in Hl. cbn [app]. rewrite fmap_cons, join_cons.
  assert (le_bytes 2 c = [c; 0]) as ->
    by (cbn; unfold byte in Hb0; rewrite u8_small, Z.shiftr_div_pow2 by lia; change (2 ^ 8) with 256; by rewrite Z.div_small by lia).
  rewrite <-app_assoc. cbn [convert_loop]. change (([c; 0] ++ ?x) !! 0%nat) with (Some c). cbn [mbind option_bind]. rewrite (proj2 (Z.eqb_neq _ _) Hz0).
  pose proof (convert_loop_shift n [c; 0] (mjoin (le_bytes 2 <$> cs ++ 0 :: r) ++ rest) 0) as E. cbn [length Nat.add] in E. cbn [Nat.add].
  rewrite E, IH by (done || lia). done.
Qed.

Lemma same_name_refl n cs r r' : (length cs < n)%nat -> Forall (λ c, c <> 0) cs -> same_name n (cs ++ 0 :: r) (cs ++ 0 :: r') = Some true.
Proof.
  intros Hl Hz. revert n Hl. induction Hz as [|c cs Hc Hz IH]; intros n Hl; (destruct n as [|n]; [cbn in Hl; lia|]); [done|].
  cbn [length] in Hl. cbn [app same_name head tail mbind option_bind]. rewrite Z.eqb_refl, (proj2 (Z.eqb_neq _ _) Hc). cbn [negb]. apply IH. lia.
Qed.

(** The name of the entry, against the name of the partition. *)
Lemma name_matches limit p es i e :
  Forall entry_ok es -> es !! i = Some e -> part_ok limit p -> (length (part_name p) < 32)%nat ->
  e = fill_entry p (starting_lba e) (ending_lba e) (unique_partition_guid e) ->
  ∃ s, gpt_convert_efi_name_to_char (drop (Z.to_nat (128 * Z.of_nat i + 56)) (entries_bytes es)) (PARTNAME_SZ + 1) = Some s /\
    same_name 32 s (name_type p) = Some true.
Proof.
  intros Hok Hi [_ _ _ [Hl Hb] _] Hn Hfill. pose proof (Forall_lookup_1 _ _ _ _ Hok Hi) as [[H1 _] [H2 _] _ _].
  pose proof (entries_drop es i e [] Hok Hi) as Hd. rewrite !app_nil_r in Hd.
  replace (Z.to_nat (128 * Z.of_nat i + 56)) with (128 * i + 56)%nat by lia. rewrite <-drop_drop, Hd.
  unfold entry_bytes. rewrite !app_assoc, <-app_assoc. rewrite drop_app_length' by (rewrite !length_app, !le_bytes_length, H1, H2; lia).
  assert (length (cstring (take 32 (name_type p))) < length (take 32 (name_type p)))%nat as Hlt by (rewrite length_take, Hl; exact Hn).
  destruct (cstring_split _ Hlt) as [r Er]. rewrite Hfill. cbn [fill_entry partition_name]. rewrite Er, <-app_assoc. cbn [app].
  unfold gpt_convert_efi_name_to_char. rewrite convert_loop_name.
  - eexists. split; [done|]. fold (part_name p) in *. rewrite <-(take_drop 32 (name_type p)), Er, <-app_assoc. cbn [app].
    replace (PARTNAME_SZ + 1 - length (part_name p))%nat with (S (PARTNAME_SZ - length (part_name p))) by (unfold PARTNAME_SZ; lia).
    cbn [replicate]. apply same_name_refl; [done|apply cstring_nonzero].
  - fold (part_name p). unfold PARTNAME_SZ. lia.
  - apply cstring_nonzero.
  - by apply cstring_bytes, Forall_take.
Qed.

(** The last partition has no size of its own. *)
Definition open_end (ps : list disk_partition_t) : bool := match last ps with Some p => psize p =? 0 | None => false end.

Section verify.
Context (dev : block_dev_desc) (guid : list Z) (parts : list disk_partition_t) (es : list gpt_entry).
Hypothesis Hl : 68 <= lba dev < 2 ^ 63.
Hypothesis Hok : Forall (part_ok (lba dev - 34)) parts.
Hypothesis Hes : new_entries dev guid parts = Some es.
Hypothesis Hn : Forall (λ p, (length (part_name p) < 32)%nat) parts.

Lemma verify_step h ps i p :
  num_partition_entries h = 128 -> parts !! i = Some p ->
  verify_loop h (entries_bytes es) (p :: ps) (Z.of_nat i) =
  if bool_decide (S i = length parts) && (psize p =? 0) then Some (-1) else verify_loop h (entries_bytes es) ps (Z.of_nat (S i)).
Proof.
  intros Hh Hp. destruct (new_entries_bytes dev guid parts es Hl Hok Hes) as (Heo & H128 & _).
  destruct (new_entry_at dev guid parts es i p Hl Hok Hes Hp) as (e & He & [Hfill Hu Hst Hroom Hsz] & H34 & Hse & Hend).
  pose proof (Forall_lookup_1 _ _ _ _ Hok Hp) as Hpok. pose proof (Forall_lookup_1 _ _ _ _ Hn Hp) as Hpn. cbn in Hpn.
  pose proof (lookup_lt_Some _ _ _ He). destruct (name_matches _ p es i e Heo He Hpok Hpn Hfill) as (s & Es & Hs).
  cbn [verify_loop]. rewrite Hh, (proj2 (Z.eqb_neq _ _)) by lia. rewrite Es. cbn [mbind option_bind]. rewrite Hs. cbn [mbind option_bind negb].
  pose proof (pte_at_entries es i e [] Heo He) as Hpte. rewrite app_nil_r in Hpte. rewrite Hpte. cbn [mbind option_bind].
  change (2 ^ 63) with 9223372036854775808 in Hl. rewrite u64_small by lia. replace (Z.of_nat i + 1) with (Z.of_nat (S i)) by lia.
  assert (negb (start p =? 0) && negb (starting_lba e =? start p) = false) as Hstart.
  { destruct (Z.eqb_spec (start p) 0); [done|]. cbn [negb andb]. by rewrite Hst, Z.eqb_refl. }
  rewrite Hstart, Hsz. destruct (bool_decide (S i = length parts) && (psize p =? 0)) eqn:Hopen.
  - apply andb_true_iff in Hopen as [_ Hz%Z.eqb_eq]. by rewrite (proj2 (Z.eqb_neq _ _)) by lia.
  - by rewrite (proj2 (Z.eqb_eq _ _)) by lia.
Qed.

Lemma verify_loop_spec h ps i :
  num_partition_entries h = 128 -> parts = take i parts ++ ps -> (i <= length parts)%nat ->
  verify_loop h (entries_bytes es) ps (Z.of_nat i) = Some (if open_end ps then -1 else 0).
Proof.
  intros Hh. revert i. induction ps as [|p ps IH]; intros i Hp Hi; [done|].
  assert (parts !! i = Some p) as Hpi.
  { rewrite Hp, lookup_app_r; rewrite length_take, Nat.min_l by lia; [|done]. by rewrite Nat.sub_diag. }
  assert (length parts = (i + S (length ps))%nat) as Hlen.
  { rewrite Hp at 1. rewrite length_app, length_take. cbn [length]. lia. }
  rewrite (verify_step h ps i p Hh Hpi). destruct ps as [|p' ps].
  - cbn [length] in Hlen. rewrite bool_decide_eq_true_2 by lia. cbn [andb]. unfold open_end. cbn [last]. by destruct (psize p =? 0).
  - cbn [length] in Hlen. rewrite bool_decide_eq_false_2 by lia. cbn [andb]. rewrite IH; [done| |lia].
    rewrite (take_S_r _ _ p Hpi), <-app_assoc. exact Hp.
Qed.
End verify.

(** [gpt verify] accepts what [gpt write] has written, with the same list of
    partitions, unless the last one was left without a size: then it refuses. *)
Theorem gpt_verify_written {D : Type} `{!BlockDev D} (dev : block_dev_desc) `{!BlockDevLaws D dev} can_alloc (d d' : D) guid parts :
  can_alloc 16384 = true -> 68 <= lba dev < 2 ^ 63 -> Forall byte guid -> Forall (part_ok (lba dev - 34)) parts ->
  Forall (λ p, (length (part_name p) < 32)%nat) parts ->
  gpt_restore dev can_alloc d guid parts = Some (0, d') ->
  gpt_verify_partitions dev can_alloc d' parts = Some (if open_end parts then -1 else 0).
Proof.
  intros Ha Hl Hg Hok Hn Hr. destruct (gpt_restore_done dev can_alloc d d' guid parts Ha Hl Hg Hok Hr) as (es & Hes & Hp & Hb).
  unfold gpt_verify_partitions, gpt_verify_headers. change GPT_PRIMARY_PARTITION_TABLE_LBA with 1. change (2 ^ 63) with 9223372036854775808 in Hl.
  destruct (copy_at_valid dev can_alloc Ha d' 1 2 _ ltac:(lia) ltac:(lia) ltac:(lia) Hp) as (hb1 & -> & _). cbn [mbind option_bind].
  rewrite u64_small by lia. destruct (copy_at_valid dev can_alloc Ha d' (lba dev - 1) (lba dev - 33) _ ltac:(lia) ltac:(lia) ltac:(lia) Hb) as (hb2 & -> & H128).
  cbn [mbind option_bind]. apply (verify_loop_spec dev guid parts es Hl Hok Hes Hn (header_of hb2) parts 0 H128 eq_refl). lia.
Qed.

(** A name of 32 characters or more does not fit: it runs into the type, so
    that the reported name is its first 32 characters and [U-Boot]. *)
Theorem gpt_long_name {D : Type} `{!BlockDev D} (dev : block_dev_desc) can_alloc (d : D) es i e addr info :
  reads dev can_alloc d (entries_bytes es) -> Forall entry_ok es -> length es = 128%nat -> es !! i = Some e -> is_pte_valid e = true ->
  (32 <= length (print_efiname e))%nat -> info_ok addr info ->
  ∃ info', get_partition_info_efi dev can_alloc d (Z.of_nat i + 1) addr info = Some (0, info') /\
    cstring (name_type info') = take 32 (print_efiname e) ++ type_text.
Proof.
  intros Hr Hok H128 Hi Hv Hname Hio. eexists. split; [by apply (get_info_valid dev can_alloc d es i e addr info)|].
  cbn [name_type]. unfold name_put. rewrite take_app_le by done. rewrite app_assoc. apply cstring_text. apply Forall_app.
  split; [apply Forall_take, cstring_nonzero|]. unfold type_text. repeat (apply Forall_cons; split; [lia|]). by apply Forall_nil.
Qed.

(** ** A disk with a budget of blocks *)

(** The blocks, and how many more are written before the power is lost. *)
Definition fdisk : Type := (Z -> list Z) * nat.
Definition norm (l : list Z) : list Z := take 512 (l ++ replicate 512 0).
Definition fblock (d : fdisk) (k : Z) : list Z := norm (d.1 k).

#[local] Instance fdisk_dev : BlockDev fdisk := {
  block_read d a n := (n, sectors (fblock d) a (Z.to_nat n));
  block_write d a n buf :=
    let k := Nat.min (Z.to_nat n) d.2 in
    (Z.of_nat k, (overlay (fblock d) a (Some <$> chop k buf), d.2 - k)%nat)
}.

Lemma norm_length l : length (norm l) = 512%nat.
Proof. unfold norm. rewrite length_take, length_app, length_replicate. lia. Qed.

Lemma norm_id l : length l = 512%nat -> norm l = l.
Proof. intros H. unfold norm. by apply take_app_length'. Qed.

Definition ex_dev : block_dev_desc := BlockDesc 100 512.

#[local] Instance fdisk_laws : BlockDevLaws fdisk ex_dev.
Proof.
  refine (Build_BlockDevLaws fdisk fdisk_dev ex_dev eq_refl fblock (λ d k, norm_length _) _ _).
  - intros d a n _ _. cbn. by rewrite Nat2Z.id.
  - intros [f b] a n buf _ _ Hl. cbn [block_write fdisk_dev snd]. rewrite Nat2Z.id. eexists _, _, (Nat.min n b). split; [done|].
    split; [lia|]. split; [lia|]. intros j. unfold fblock at 1. cbn [fst]. apply norm_id. unfold overlay.
    destruct (a <=? j); [|apply norm_length]. rewrite list_lookup_fmap.
    destruct (chop (Nat.min n b) buf !! Z.to_nat (j - a)) as [s|] eqn:E; [|apply norm_length]. cbn.
    assert (∀ m i c, (512 * m <= length c)%nat -> ∀ s, chop m c !! i = Some s -> length s = 512%nat) as Hc.
    { clear. induction m as [|m IH]; intros i c Hc s Hs; [done|]. cbn [chop] in Hs. destruct i as [|i]; cbn in Hs.
      - injection Hs as <-. rewrite length_take. lia.
      - apply (IH i (drop 512 c)); [rewrite length_drop; lia|done]. }
    apply (Hc (Nat.min n b) (Z.to_nat (j - a)) buf); [lia|done].
Defined.

(** ** Examples *)

Definition ex_alloc (n : Z) : bool := n <=? 65536.
Definition ex_guid : list Z := text "00112233-4455-6677-8899-aabbccddeeff".
Definition ex_name (s : list Z) : list Z := s ++ replicate (64 - length s) 0.
Definition ex_part (first size : Z) (name : list Z) : disk_partition_t := DiskPartition first size 0 (ex_name name) 1 (ex_guid ++ [0]).
Definition ex_parts1 : list disk_partition_t := [ex_part 0 10 (text "uboot")].
Definition ex_parts2 : list disk_partition_t := [ex_part 0 8 (text "uboot"); ex_part 45 4 (text "boot")].
Definition ex_disk (budget : nat) : fdisk := (λ _, replicate 512 0, budget).
Definition ex_info : disk_partition_t := DiskPartition 0 0 0 (replicate 64 0) 0 (replicate 37 0).

Lemma ex_guid_bytes : Forall byte ex_guid.
Proof. apply all_bytes. vm_compute. reflexivity. Qed.

Lemma ex_part_ok first size name :
  0 <= first < 100 -> 0 <= size < 100 -> (length name <= 64)%nat -> Forall byte name -> part_ok (lba ex_dev - 34) (ex_part first size name).
Proof.
  intros Hf Hs Hn Hb. split; cbn [ex_part start psize name_type uuid lba ex_dev]; [lia|lia|lia| |].
  - unfold ex_name. split; [rewrite length_app, length_replicate; lia|]. apply Forall_app. split; [done|]. apply Forall_replicate. unfold byte. lia.
  - apply all_bytes. vm_compute. reflexivity.
Qed.

Lemma ex_parts_ok : Forall (part_ok (lba ex_dev - 34)) ex_parts1 /\ Forall (part_ok (lba ex_dev - 34)) ex_parts2.
Proof.
  split; repeat (apply Forall_cons; split; [apply ex_part_ok; [lia|lia|cbn; lia|apply all_bytes; vm_compute; reflexivity]|]); by apply Forall_nil.
Qed.

Lemma ex_info_ok : info_ok 4096 ex_info.
Proof. split; [unfold INT_MAX; lia|done|done]. Qed.

Lemma gpt_partitions_laid_witness :
  ∃ es new, new_entries ex_dev ex_guid ex_parts2 = Some es /\ es = new ++ replicate 126 empty_entry /\ (2 <= 128)%nat /\
    entries_for 66 ex_parts2 new /\ laid 66 34 new.
Proof.
  destruct (new_entries ex_dev ex_guid ex_parts2) as [es|] eqn:E; [|vm_compute in E; discriminate].
  destruct (gpt_partitions_laid ex_dev ex_guid ex_parts2 es ltac:(cbn; lia) (proj2 ex_parts_ok) E) as (new & H). exists es, new. split; [reflexivity|exact H].
Defined.

Lemma gpt_restore_read_back_witness :
  ∃ d' info', gpt_restore ex_dev ex_alloc (ex_disk 1000) ex_guid ex_parts2 = Some (0, d') /\
    get_partition_info_efi ex_dev ex_alloc d' 2 4096 ex_info = Some (0, info') /\ start info' = 45.
Proof.
  assert (fst <$> gpt_restore ex_dev ex_alloc (ex_disk 1000) ex_guid ex_parts2 = Some 0) as H0 by (vm_compute; reflexivity).
  destruct (gpt_restore ex_dev ex_alloc (ex_disk 1000) ex_guid ex_parts2) as [[r d']|] eqn:E; [|discriminate]. injection H0 as ->.
  destruct (gpt_restore_read_back ex_dev ex_alloc (ex_disk 1000) d' ex_guid ex_parts2 1 (ex_part 45 4 (text "boot")) 4096 ex_info)
    as (info' & H & Hs & _); [reflexivity|cbn; lia|exact ex_guid_bytes|exact (proj2 ex_parts_ok)|exact E|reflexivity|vm_compute; lia|exact ex_info_ok|].
  exists d', info'. split; [reflexivity|]. split; [exact H|]. apply Hs. discriminate.
Defined.

Lemma hexdigits s : forallb (λ c, (0 <=? c) && (c <? 256) && isxdigit c) s = true -> Forall hexdigit s.
Proof.
  intros H. apply Forall_forall. intros c Hc. rewrite forallb_forall in H. apply list_elem_of_In, H in Hc.
  rewrite !andb_true_iff, Z.leb_le, Z.ltb_lt in Hc. unfold hexdigit, byte. tauto.
Qed.

Lemma ex_uuid_groups : uuid_groups (cstring (ex_guid ++ [0])) (text "00112233") (text "4455") (text "6677") (text "8899") (text "aabbccddeeff").
Proof.
  split; [vm_compute; reflexivity|vm_compute; tauto|]. split_and!; apply hexdigits; vm_compute; reflexivity.
Qed.

Lemma gpt_uuid_swapped_witness :
  ∃ d' info', gpt_restore ex_dev ex_alloc (ex_disk 1000) ex_guid ex_parts2 = Some (0, d') /\
    get_partition_info_efi ex_dev ex_alloc d' 1 4096 ex_info = Some (0, info') /\
    uuid info' = text "33221100-5544-7766-8899-aabbccddeeff" ++ [0].
Proof.
  assert (fst <$> gpt_restore ex_dev ex_alloc (ex_disk 1000) ex_guid ex_parts2 = Some 0) as H0 by (vm_compute; reflexivity).
  destruct (gpt_restore ex_dev ex_alloc (ex_disk 1000) ex_guid ex_parts2) as [[r d']|] eqn:E; [|discriminate]. injection H0 as ->.
  destruct (gpt_uuid_swapped ex_dev ex_alloc (ex_disk 1000) d' ex_guid ex_parts2 0 (ex_part 0 8 (text "uboot")) 4096 ex_info
    (text "00112233") (text "4455") (text "6677") (text "8899") (text "aabbccddeeff"))
    as (info' & H & Hs); [reflexivity|cbn; lia|exact ex_guid_bytes|exact (proj2 ex_parts_ok)|exact E|reflexivity|vm_compute; lia|exact ex_info_ok|exact ex_uuid_groups|].
  exists d', info'. split; [reflexivity|]. split; [exact H|]. rewrite Hs. vm_compute. reflexivity.
Defined.

Lemma gpt_verify_written_witness :
  ∃ d', gpt_restore ex_dev ex_alloc (ex_disk 1000) ex_guid ex_parts2 = Some (0, d') /\ gpt_verify_partitions ex_dev ex_alloc d' ex_parts2 = Some 0.
Proof.
  assert (fst <$> gpt_restore ex_dev ex_alloc (ex_disk 1000) ex_guid ex_parts2 = Some 0) as H0 by (vm_compute; reflexivity).
  destruct (gpt_restore ex_dev ex_alloc (ex_disk 1000) ex_guid ex_parts2) as [[r d']|] eqn:E; [|discriminate]. injection H0 as ->.
  exists d'. split; [reflexivity|].
  apply (gpt_verify_written ex_dev ex_alloc (ex_disk 1000) d' ex_guid ex_parts2);
    [reflexivity|cbn; lia|exact ex_guid_bytes|exact (proj2 ex_parts_ok)| |exact E].
  repeat (apply Forall_cons; split; [vm_compute; lia|]). by apply Forall_nil.
Defined.

(** A name that fills its array. *)
Definition ex_long : list disk_partition_t := [ex_part 0 10 (text "abcdefghijklmnopqrstuvwxyzabcdef")].

Lemma ex_long_ok : Forall (part_ok (lba ex_dev - 34)) ex_long.
Proof. apply Forall_cons. split; [apply ex_part_ok; [lia|lia|cbn; lia|apply all_bytes; vm_compute; reflexivity]|by apply Forall_nil]. Qed.

Lemma gpt_long_name_witness :
  ∃ d' info', gpt_restore ex_dev ex_alloc (ex_disk 1000) ex_guid ex_long = Some (0, d') /\
    get_partition_info_efi ex_dev ex_alloc d' 1 4096 ex_info = Some (0, info') /\
    cstring (name_type info') = text "abcdefghijklmnopqrstuvwxyzabcdefU-Boot".
Proof.
  assert (fst <$> gpt_restore ex_dev ex_alloc (ex_disk 1000) ex_guid ex_long = Some 0) as H0 by (vm_compute; reflexivity).
  destruct (gpt_restore ex_dev ex_alloc (ex_disk 1000) ex_guid ex_long) as [[r d']|] eqn:E; [|discriminate]. injection H0 as ->.
  destruct (gpt_restore_done ex_dev ex_alloc (ex_disk 1000) d' ex_guid ex_long) as (es & Hes & Hint);
    [reflexivity|cbn; lia|exact ex_guid_bytes|exact ex_long_ok|exact E|].
  destruct (new_entries_bytes ex_dev ex_guid ex_long es ltac:(cbn; lia) ex_long_ok Hes) as (Heo & H128 & _).
  assert (match new_entries ex_dev ex_guid ex_long with Some (e :: _) => is_pte_valid e && (32 <=? length (print_efiname e))%nat &&
    bool_decide (take 32 (print_efiname e) ++ type_text = text "abcdefghijklmnopqrstuvwxyzabcdefU-Boot") | _ => false end = true) as Hc by (vm_compute; reflexivity).
  rewrite Hes in Hc. destruct es as [|e es]; [discriminate|]. apply andb_true_iff in Hc as [Hc Ht%bool_decide_eq_true]. apply andb_true_iff in Hc as [Hv Hl%Nat.leb_le].
  destruct (gpt_long_name ex_dev ex_alloc d' (e :: es) 0 e 4096 ex_info) as (info' & H & Hs);
    [exact (primary_reads ex_dev ex_alloc eq_refl ltac:(cbn; lia) d' _ (proj1 Hint))|exact Heo|exact H128|reflexivity|exact Hv|exact Hl|exact ex_info_ok|].
  exists d', info'. split; [reflexivity|]. split; [exact H|]. by rewrite Hs.
Defined.

(** The power fails while the entries of the second table are written. *)
Definition ex_torn (old new : list Z) : bool :=
  forallb (λ j, negb (efi_crc32 (torn j new old) =? efi_crc32 new) || bool_decide (torn j new old = old) || bool_decide (torn j new old = new)) (seq 0 33).

Lemma gpt_restore_atomic_witness :
  ∃ d1 old r d', gpt_restore ex_dev ex_alloc (ex_disk 77) ex_guid ex_parts1 = Some (0, d1) /\ intact ex_dev d1 old /\
    gpt_restore ex_dev ex_alloc d1 ex_guid ex_parts2 = Some (r, d') /\ usable_kept ex_dev d1 d' /\
    (reads ex_dev ex_alloc d' old \/ ∃ es, new_entries ex_dev ex_guid ex_parts2 = Some es /\ reads ex_dev ex_alloc d' (entries_bytes es)).
Proof.
  assert (fst <$> gpt_restore ex_dev ex_alloc (ex_disk 77) ex_guid ex_parts1 = Some 0) as H0 by (vm_compute; reflexivity).
  destruct (gpt_restore ex_dev ex_alloc (ex_disk 77) ex_guid ex_parts1) as [[r d1]|] eqn:E; [|discriminate]. injection H0 as ->.
  destruct (gpt_restore_done ex_dev ex_alloc (ex_disk 77) d1 ex_guid ex_parts1) as (es1 & Hes1 & Hint);
    [reflexivity|cbn; lia|exact ex_guid_bytes|exact (proj1 ex_parts_ok)|exact E|].
  assert (match new_entries ex_dev ex_guid ex_parts1, new_entries ex_dev ex_guid ex_parts2 with
    | Some es1, Some es => ex_torn (entries_bytes es1) (entries_bytes es) | _, _ => false end = true) as Hc by (vm_compute; reflexivity).
  rewrite Hes1 in Hc.
  destruct (gpt_restore_atomic ex_dev ex_alloc d1 (entries_bytes es1) ex_guid ex_parts2) as (r & d' & Hr & Hk & Hreads & _);
    [reflexivity|reflexivity|cbn; lia|exact Hint|exact ex_guid_bytes|exact (proj2 ex_parts_ok)|cbn; lia| |].
  - intros es j Hes Hj new Hcrc. rewrite Hes in Hc. unfold ex_torn in Hc. rewrite forallb_forall in Hc.
    specialize (Hc j (proj2 (in_seq 33 0 j) ltac:(lia))). fold new in Hc. rewrite Hcrc, Z.eqb_refl in Hc. cbn [negb orb] in Hc.
    apply orb_true_iff in Hc as [H%bool_decide_eq_true|H%bool_decide_eq_true]; [left|right]; exact H.
  - exists d1, (entries_bytes es1), r, d'. split; [reflexivity|]. split; [exact Hint|]. split; [exact Hr|]. split; [exact Hk|exact Hreads].
Defined.
