(* ===== verification/PartDos.v ===== *)
(** * MS-DOS partition tables

    [disk/part_dos.c], with [CONFIG_PARTITION_UUIDS]: the four entries of the
    master boot record, and the logical partitions in a chain of extended tables.
    The functions that print are left out. *)

From S2P Require Import Prelude Mem Ctype Cstring Crc Strtoul Vsprintf RkParam Bytes RkLoader Uuid PartEfi PartEfiTable PartEfiRead.

Definition DOS_PART_DEFAULT_SECTOR : Z := 512.
Definition DOS_PART_DISKSIG_OFFSET : nat := 0x1b8.
Definition DOS_PART_TBL_OFFSET : nat := 0x1be.
Definition DOS_PART_MAGIC_OFFSET : nat := 0x1fe.
Definition DOS_PBR_FSTYPE_OFFSET : nat := 0x36.
Definition DOS_PBR32_FSTYPE_OFFSET : nat := 0x52.
Definition DOS_MBR : Z := 0.
Definition DOS_PBR : Z := 1.

Inductive if_type_t :=
  IF_TYPE_UNKNOWN | IF_TYPE_IDE | IF_TYPE_SCSI | IF_TYPE_ATAPI | IF_TYPE_USB | IF_TYPE_DOC | IF_TYPE_MMC | IF_TYPE_SD | IF_TYPE_SATA | IF_TYPE_HOST.

(** The interface and the number of [block_dev_desc_t]. *)
Record block_dev_id := BlockId { if_type : if_type_t; dev_num : Z }.

Record dos_partition_t := DosPartition {
  boot_ind : Z;
  head_ : Z;
  sector : Z;
  cyl : Z;
  sys_ind : Z;
  end_head : Z;
  end_sector : Z;
  end_cyl : Z;
  start4 : list Z;
  size4 : list Z
}.

(** The entry at the beginning of [b]. *)
Definition dos_partition_of (b : list Z) : dos_partition_t :=
  DosPartition (fld 0 1 b) (fld 1 1 b) (fld 2 1 b) (fld 3 1 b) (fld 4 1 b) (fld 5 1 b) (fld 6 1 b) (fld 7 1 b) (sub 8 4 b) (sub 12 4 b).

(** [pt[i]] in a block *)
Definition pt_at (buffer : list Z) (i : nat) : dos_partition_t := dos_partition_of (drop (DOS_PART_TBL_OFFSET + 16 * i) buffer).

(** The sum of an [int]. *)
Definition le32_to_int (le32 : list Z) : Z := s32 (lev le32).

Definition is_extended (part_type : Z) : bool := (part_type =? 0x5) || (part_type =? 0xf) || (part_type =? 0x85).

Definition is_bootable_dos (p : dos_partition_t) : Z := if boot_ind p =? 0x80 then 1 else 0.

Definition has_magic (buffer : list Z) : bool :=
  (fld DOS_PART_MAGIC_OFFSET 1 buffer =? 0x55) && (fld (DOS_PART_MAGIC_OFFSET + 1) 1 buffer =? 0xaa).

(** [slot] is counted but [p] stays at the first entry. *)
Fixpoint slots_loop (n : nat) (slot : nat) (p : dos_partition_t) (buffer : list Z) : Z :=
  match n with
  | O => DOS_MBR
  | S n =>
      if negb (boot_ind p =? 0) && negb (boot_ind p =? 0x80) then
        if (slot =? 0)%nat && (bool_decide (sub DOS_PBR_FSTYPE_OFFSET 3 buffer = text "FAT") || bool_decide (sub DOS_PBR32_FSTYPE_OFFSET 5 buffer = text "FAT32"))
        then DOS_PBR else -1
      else slots_loop n (S slot) p buffer
  end.

Definition test_block_type (buffer : list Z) : Z :=
  if negb (has_magic buffer) then -1 else slots_loop 3 0 (pt_at buffer 0) buffer.

(** The entry with the number [which_part], or the number after the table. *)
Fixpoint entries_loop (pts : list dos_partition_t) (ext_part_sector part_num which_part : Z) : dos_partition_t + Z :=
  match pts with
  | [] => inr part_num
  | pt :: pts =>
      if (boot_ind pt .& Z.lnot 0x80 =? 0) && negb (sys_ind pt =? 0) && (part_num =? which_part) && negb (is_extended (sys_ind pt)) then inl pt
      else
        entries_loop pts ext_part_sector
          (if (ext_part_sector =? 0) || (negb (sys_ind pt =? 0) && negb (is_extended (sys_ind pt))) then s32 (part_num + 1) else part_num) which_part
  end.

Definition entries (buffer : list Z) : list dos_partition_t := pt_at buffer <$> [0; 1; 2; 3]%nat.

(** The name of a partition. *)
Definition name_format (t : if_type_t) : list Z :=
  match t with
  | IF_TYPE_IDE | IF_TYPE_SATA | IF_TYPE_ATAPI => text "hd%c%d"
  | IF_TYPE_SCSI => text "sd%c%d"
  | IF_TYPE_USB => text "usbd%c%d"
  | IF_TYPE_DOC => text "docd%c%d"
  | _ => text "xx%c%d"
  end.

(** [*info], which is at [addr], for an entry. *)
Definition dos_info (id : block_dev_id) (pt : dos_partition_t) (ext_part_sector part_num disksig addr : Z) (info : disk_partition_t)
    : option disk_partition_t :=
  '(_, text1, _) ← sprintf (addr + 24) (name_type info) (name_format (if_type id)) [VInt (97 + dev_num id); VInt part_num];
  '(_, text2, _) ← sprintf (addr + 56) (drop 32 text1) (text "U-Boot") [];
  '(_, uuid', _) ← sprintf (addr + 92) (uuid info) (text "%08x-%02x") [VInt disksig; VInt part_num];
  Some (DiskPartition (u64 (s32 (ext_part_sector + le32_to_int (start4 pt)))) (u64 (le32_to_int (size4 pt))) DOS_PART_DEFAULT_SECTOR
          (take 32 text1 ++ text2) (is_bootable_dos pt) uuid').

(** A block that is the boot sector of a file system. *)
Definition pbr_info (dev : block_dev_desc) (addr : Z) (info : disk_partition_t) : option disk_partition_t :=
  '(_, text2, _) ← sprintf (addr + 56) (drop 32 (name_type info)) (text "U-Boot") [];
  uuid' ← aset (uuid info) 0 0;
  Some (DiskPartition 0 (lba dev) DOS_PART_DEFAULT_SECTOR (take 32 (name_type info) ++ text2) 0 uuid').

Section device.
Context {D : Type} `{!BlockDev D} (dev : block_dev_desc) (id : block_dev_id).

Definition test_part_dos (d : D) : Z :=
  let '(r, buffer) := block_read d 0 1 in
  if negb (r =? 1) then -1 else if negb (test_block_type buffer =? DOS_MBR) then -1 else 0.

(** The first [None] is a recursion that is deeper than [fuel], the second one an
    access outside of [*info]. *)
Fixpoint get_partition_info_extended (fuel : nat) (d : D) (ext_part_sector relative part_num which_part addr : Z) (info : disk_partition_t) (disksig : Z)
    : option (option (Z * disk_partition_t)) :=
  match fuel with
  | O => None
  | S fuel =>
      let '(r, buffer) := block_read d (u64 ext_part_sector) 1 in
      if negb (r =? 1) then Some (Some (-1, info))
      else if negb (has_magic buffer) then Some (Some (-1, info))
      else
        let disksig := if ext_part_sector =? 0 then u32 (lev (sub DOS_PART_DISKSIG_OFFSET 4 buffer)) else disksig in
        match entries_loop (entries buffer) ext_part_sector part_num which_part with
        | inl pt => Some (info ← dos_info id pt ext_part_sector which_part disksig addr info; Some (0, info))
        | inr part_num =>
            match find (λ pt, is_extended (sys_ind pt)) (entries buffer) with
            | Some pt =>
                let lba_start := s32 (le32_to_int (start4 pt) + relative) in
                get_partition_info_extended fuel d lba_start (if ext_part_sector =? 0 then lba_start else relative) part_num which_part addr info disksig
            | None =>
                if test_block_type buffer =? DOS_PBR then Some (info ← pbr_info dev addr info; Some (0, info)) else Some (Some (-1, info))
            end
        end
  end.

Definition get_partition_info_dos (fuel : nat) (d : D) (part addr : Z) (info : disk_partition_t) : option (option (Z * disk_partition_t)) :=
  get_partition_info_extended fuel d 0 0 1 part addr info 0.

End device.

(** ** The texts of [*info] *)

Lemma put_pow2_length fuel num locase tmp (k : nat) :
  put_pow2 fuel num 15 4 locase = Some tmp -> 0 <= num < 16 ^ Z.of_nat k -> (0 < k)%nat -> (length tmp <= k)%nat.
Proof.
  revert num tmp k. induction fuel as [|fuel IH]; intros num tmp k H Hn Hk; [done|]. cbn [put_pow2] in H.
  apply bind_Some in H as (c & _ & H). rewrite Z.shiftr_div_pow2 in H by lia. change (2 ^ 4) with 16 in H. destruct (Z.eqb_spec (num / 16) 0) as [E|E].
  { injection H as <-. cbn. lia. }
  apply bind_Some in H as (rest & Hr & H). injection H as <-. cbn [length]. destruct k as [|k]; [lia|].
  rewrite Nat2Z.inj_succ, Z.pow_succ_r in Hn by lia. assert (0 <= num / 16 < 16 ^ Z.of_nat k) as Hd.
  { split; [apply Z.div_pos; lia|]. apply Z.div_lt_upper_bound; lia. }
  destruct k as [|k]; [|apply (IH _ _ (S k)) in Hr; lia]. cbn in Hd. lia.
Qed.

Lemma itoa_length fuel i (k : nat) : 0 <= i < 10 ^ Z.of_nat k -> (0 < k)%nat -> (length (itoa_loop fuel i) <= k)%nat.
Proof.
  revert i k. induction fuel as [|fuel IH]; intros i k Hi Hk; [cbn; lia|]. cbn [itoa_loop length]. destruct (Z.eqb_spec (i / 10) 0); [cbn; lia|].
  destruct k as [|k]; [lia|]. rewrite Nat2Z.inj_succ, Z.pow_succ_r in Hi by lia. assert (0 <= i / 10 < 10 ^ Z.of_nat k) as Hd.
  { split; [apply Z.div_pos; lia|]. apply Z.div_lt_upper_bound; lia. }
  destruct k as [|k]; [|specialize (IH (i / 10) (S k) Hd ltac:(lia)); lia]. cbn in Hd. lia.
Qed.

(** [%d] of a number that is not negative. *)
Lemma number_d num : 0 <= num < 2 ^ 31 -> ∃ cs, number num 10 (-1) (-1) 2 = Some cs /\ (length cs <= 10)%nat.
Proof.
  intros Hn. destruct (number_digits_spec num 10 0 ltac:(lia) ltac:(auto) ltac:(auto)) as (tmp & Ht & _ & Hi).
  exists (simple_itoa num). split.
  - rewrite <-Hi by done. rewrite (number_plain num 10 2 0 num tmp); [done| |done].
    cbn. unfold number_sign. cbn. unfold s64, swrap. rewrite Z.mod_small by (change (2 ^ 64) with 18446744073709551616; lia).
    rewrite (proj2 (Z.ltb_ge _ _)) by lia. done.
  - unfold simple_itoa. rewrite length_reverse. apply itoa_length; [change (10 ^ Z.of_nat 10) with 10000000000; lia|lia].
Qed.

(** [%08x] and [%02x] *)
Lemma number_0x num size : 0 <= num < 2 ^ 32 -> 0 <= size <= 8 -> ∃ cs, number num 16 size (-1) 33 = Some cs /\ (length cs <= 8)%nat.
Proof.
  intros Hn Hs. destruct (number_digits_spec num 16 32 ltac:(lia) ltac:(auto) ltac:(auto)) as (tmp & Ht & _).
  assert (length tmp <= 8)%nat as Hl.
  { unfold number_digits in Ht. destruct (num =? 0); [injection Ht as <-; cbn; lia|]. apply (put_pow2_length 23 num 32 tmp 8); [exact Ht|cbn; lia|lia]. }
  unfold number. change (has 33 SPECIAL) with false. change (has 33 LEFT) with false. change (33 .& SMALL) with 32.
  unfold number_sign. change (has 33 SIGN) with false. cbn [andb]. cbv iota beta. rewrite Ht. cbn [mbind option_bind].
  change (has 33 (ZEROPAD + LEFT)) with true. change (has 33 ZEROPAD) with true. cbv iota beta. change (0 =? 0) with true.
  rewrite (proj2 (Z.ltb_lt (-1) _)) by lia. unfold pad. eexists. split; [reflexivity|]. rewrite Z.sub_diag. cbn [app Z.to_nat replicate].
  rewrite !length_app, !length_replicate, length_reverse. lia.
Qed.

Lemma addchs_app o cs1 cs2 : addchs o (cs1 ++ cs2) = addchs o cs1 ≫= λ o, addchs o cs2.
Proof. revert o. induction cs1 as [|c cs1 IH]; intros o; [done|]. cbn [app addchs]. destruct (ADDCH o c); [apply IH|done]. Qed.

Lemma addchs_nstores cs o o' : addchs o cs = Some o' -> nstores o' = nstores o.
Proof.
  revert o. induction cs as [|c cs IH]; intros o; cbn [addchs]; [by intros [= <-]|]. unfold ADDCH at 1.
  destruct (if str o <? oend o then _ else _) as [b|]; [|done]. cbn [mbind option_bind]. intros H. by rewrite (IH _ H).
Qed.

(** A format prints [cs], with whatever fuel covers it. *)
Definition formats (fmt : list Z) (args : list va) (cs : list Z) : Prop :=
  ∀ f o, (length fmt <= f)%nat -> format_loop f fmt args o = addchs o cs.

Lemma formats_nil args : formats [] args [].
Proof. intros [|f] o _; done. Qed.

Lemma formats_char c fmt args cs : c <> 37 -> formats fmt args cs -> formats (c :: fmt) args (c :: cs).
Proof.
  intros Hc H [|f] o Hf; cbn [length] in Hf; [lia|]. cbn [format_loop addchs]. rewrite (proj2 (Z.eqb_neq c 37)) by done. cbn [negb].
  destruct (ADDCH o c) as [o'|]; [|done]. apply H. lia.
Qed.

Lemma formats_directive fmt args cs fmt' args' cs' :
  (∀ pos, directive fmt pos args = Some (cs, [], fmt', args')) -> (length fmt' <= length fmt)%nat -> formats fmt' args' cs' ->
  formats (37 :: fmt) args (cs ++ cs').
Proof.
  intros Hd Hl H [|f] o Hf; cbn [length] in Hf; [lia|]. cbn [format_loop Z.eqb Pos.eqb negb]. rewrite Hd. cbn [mbind option_bind]. rewrite addchs_app.
  destruct (addchs o cs) as [o'|]; [|done]. cbn [mbind option_bind]. rewrite app_nil_r. destruct o' as [b p e ns]. apply H. lia.
Qed.

Lemma sprintf_formats addr buf fmt args cs :
  0 <= addr -> addr + INT_MAX < 2 ^ 64 -> (length cs < length buf)%nat -> Z.of_nat (length buf) < INT_MAX -> formats fmt args cs ->
  sprintf addr buf fmt args = Some (Z.of_nat (length cs), cs ++ 0 :: drop (S (length cs)) buf, []).
Proof. intros H1 H2 H3 H4 Hf. apply sprintf_fits; try done. intros o _ _. by apply Hf. Qed.

Lemma directive_d (n : Z) : 0 <= n < 2 ^ 31 -> ∃ cs, (∀ pos, directive [100] pos [VInt n] = Some (cs, [], [], [])) /\ (length cs <= 10)%nat.
Proof.
  intros Hn. destruct (number_d n Hn) as (cs & Hc & Hl). exists cs. split; [|done]. intros pos.
  transitivity ('(cs, a) ← (cs ← number (u64 (s32 n)) 10 (-1) (-1) 2; Some (cs, @nil va)); Some (cs, @nil Z, @nil Z, a)); [reflexivity|].
  rewrite s32_small, u64_small by lia. by rewrite Hc.
Qed.

Lemma name_prints t c n : 0 <= n < 2 ^ 31 -> ∃ cs, formats (name_format t) [VInt c; VInt n] cs /\ (length cs <= 15)%nat.
Proof.
  intros Hn. destruct (directive_d n Hn) as (cs & Hd & Hl).
  assert (formats [37; 99; 37; 100] [VInt c; VInt n] (u8 c :: cs)) as H.
  { apply (formats_directive _ _ [u8 c] [37; 100] [VInt n] cs); [done|cbn; lia|].
    rewrite <-(app_nil_r cs). apply (formats_directive _ _ _ [] []); [done|cbn; lia|apply formats_nil]. }
  destruct t; cbv [name_format text Ascii.N_of_ascii Ascii.N_of_digits N.add N.mul Z.of_N Pos.add Pos.mul Pos.succ];
    (eexists; split; [repeat (apply formats_char; [done|]); exact H|cbn [length]; lia]).
Qed.

Lemma directive_0x w (n : Z) fmt args size :
  0 <= n < 2 ^ 32 -> (w = 56 /\ size = 8 \/ w = 50 /\ size = 2) ->
  ∃ cs, (∀ pos, directive (48 :: w :: 120 :: fmt) pos (VInt n :: args) = Some (cs, [], fmt, args)) /\ (length cs <= 8)%nat.
Proof.
  intros Hn Hw. destruct (number_0x n size Hn ltac:(lia)) as (cs & Hc & Hl). exists cs. split; [|done]. intros pos.
  transitivity ('(cs, a) ← (cs ← number n 16 size (-1) 33; Some (cs, args)); Some (cs, @nil Z, fmt, a)); [|by rewrite Hc].
  destruct Hw as [[-> ->]|[-> ->]]; reflexivity.
Qed.

Lemma uuid_prints sig n : 0 <= sig < 2 ^ 32 -> 0 <= n < 2 ^ 32 -> ∃ cs, formats (text "%08x-%02x") [VInt sig; VInt n] cs /\ (length cs <= 17)%nat.
Proof.
  intros Hs Hn. destruct (directive_0x 56 sig [45; 37; 48; 50; 120] [VInt n] 8 Hs ltac:(auto)) as (cs1 & H1 & L1).
  destruct (directive_0x 50 n [] [] 2 Hn ltac:(auto)) as (cs2 & H2 & L2). exists (cs1 ++ 45 :: cs2). split; [|rewrite length_app; cbn [length]; lia].
  change (text "%08x-%02x") with [37; 48; 56; 120; 45; 37; 48; 50; 120]. apply (formats_directive _ _ _ _ _ _ H1); [cbn; lia|].
  apply formats_char; [done|]. rewrite <-(app_nil_r cs2). apply (formats_directive _ _ _ _ _ _ H2); [cbn; lia|apply formats_nil].
Qed.

(** The information is complete: nothing is written outside of it. *)
Lemma dos_info_spec id pt ext n sig addr info :
  0 <= n < 2 ^ 31 -> 0 <= sig < 2 ^ 32 -> info_ok addr info ->
  ∃ info', dos_info id pt ext n sig addr info = Some info' /\ info_ok addr info' /\
    start info' = u64 (s32 (ext + le32_to_int (start4 pt))) /\ psize info' = u64 (le32_to_int (size4 pt)) /\ pblksz info' = 512 /\
    bootable info' = is_bootable_dos pt /\ cstring (drop 32 (name_type info')) = type_text.
Proof.
  intros Hn Hs [[Ha0 Ha] Ht Hu]. destruct (name_prints (if_type id) (97 + dev_num id) n Hn) as (name & Hname & Hnl).
  destruct (uuid_prints sig n Hs ltac:(lia)) as (cs & Hcs & Hcl). unfold dos_info. unfold INT_MAX in *.
  rewrite (sprintf_formats (addr + 24) (name_type info) _ _ name) by (try done; unfold INT_MAX; lia). cbn [mbind option_bind].
  assert (length (name ++ 0 :: drop (S (length name)) (name_type info)) = 64%nat) as H64 by (rewrite length_app; cbn [length]; rewrite length_drop; lia).
  rewrite (sprintf_type (addr + 56) (drop 32 (name ++ 0 :: drop (S (length name)) (name_type info)))) by (unfold INT_MAX; rewrite ?length_drop; lia).
  cbn [mbind option_bind]. rewrite (sprintf_formats (addr + 92) (uuid info) _ _ cs) by (try done; unfold INT_MAX; lia). cbn [mbind option_bind].
  eexists. split; [done|]. split.
  { split; cbn [name_type uuid]; [unfold INT_MAX; lia| |].
    - rewrite !length_app, length_take, H64. unfold type_text. cbn [length]. rewrite !length_drop, H64. lia.
    - rewrite length_app. cbn [length]. rewrite length_drop. lia. }
  cbn [start psize pblksz bootable name_type]. split_and!; [done..|].
  rewrite drop_app_length' by (rewrite length_take, H64; lia). apply cstring_text. unfold type_text. repeat (constructor; [lia|]). constructor.
Qed.

(** ** Tables and their numbers *)

Definition usable (pt : dos_partition_t) : bool := negb (sys_ind pt =? 0) && negb (is_extended (sys_ind pt)).
Definition links (pts : list dos_partition_t) : option dos_partition_t := find (λ pt, is_extended (sys_ind pt)) pts.

Section tables.
Context {D : Type} `{!BlockDev D} (dev : block_dev_desc) (id : block_dev_id).

(** A block with a table: the signature, and boot indicators as they should be. *)
Record table_at (d : D) (a : Z) (buf : list Z) : Prop := TableAt {
  ta_read : block_read d (u64 a) 1 = (1, buf);
  ta_magic : has_magic buf = true;
  ta_boot : Forall (λ pt, boot_ind pt = 0 \/ boot_ind pt = 0x80) (entries buf)
}.

(** The logical partitions from the extended table at [a] on, each with the
    address of its table: the used entries of the table, then those of the tables
    behind its first extended entry, [n] tables in all. *)
Inductive chain (d : D) (relative : Z) : Z -> nat -> list (Z * dos_partition_t) -> Prop :=
  | chain_last a buf : a <> 0 -> table_at d a buf -> links (entries buf) = None -> chain d relative a 1 (pair a <$> filter usable (entries buf))
  | chain_next a buf e n l :
      a <> 0 -> table_at d a buf -> links (entries buf) = Some e -> chain d relative (s32 (le32_to_int (start4 e) + relative)) n l ->
      chain d relative a (S n) ((pair a <$> filter usable (entries buf)) ++ l).

(** The tables of a disk. *)
Definition tables (d : D) (mbr : list Z) (n : nat) (logical : list (Z * dos_partition_t)) : Prop :=
  table_at d 0 mbr /\
  match links (entries mbr) with
  | None => n = 0%nat /\ logical = []
  | Some e => let a := s32 (le32_to_int (start4 e) + 0) in chain d a a n logical
  end.

(** The partition with a number: 1 to 4 are the entries of the master boot record,
    and the logical partitions follow. *)
Definition numbered (mbr : list Z) (logical : list (Z * dos_partition_t)) (which : Z) : option (Z * dos_partition_t) :=
  if which <=? 4 then pt ← entries mbr !! Z.to_nat (which - 1); if usable pt then Some (0, pt) else None
  else logical !! Z.to_nat (which - 5).

Lemma boot_masked pt : boot_ind pt = 0 \/ boot_ind pt = 0x80 -> (boot_ind pt .& Z.lnot 0x80 =? 0) = true.
Proof. by intros [-> | ->]. Qed.

(** In the master boot record every entry has a number. *)
Lemma entries_loop_mbr pts k which :
  Forall (λ pt, boot_ind pt = 0 \/ boot_ind pt = 0x80) pts -> 1 <= k -> k + Z.of_nat (length pts) < 2 ^ 31 ->
  entries_loop pts 0 k which =
    match (if k <=? which then pts !! Z.to_nat (which - k) else None) with
    | Some pt => if usable pt then inl pt else inr (k + Z.of_nat (length pts))
    | None => inr (k + Z.of_nat (length pts))
    end.
Proof.
  intros H. revert k. induction H as [|pt pts Hb H IH]; intros k Hk Hl; cbn [entries_loop length].
  { rewrite Z.add_0_r. by destruct (k <=? which). }
  rewrite boot_masked by done. cbn [andb orb Z.eqb length] in *. rewrite s32_small by lia. rewrite IH by lia.
  replace (k + 1 + Z.of_nat (length pts)) with (k + Z.of_nat (S (length pts))) by lia.
  destruct (Z.leb_spec k which) as [Hle|Hlt].
  - destruct (Z.eqb_spec k which) as [<-|Hne].
    + rewrite Z.sub_diag. change (Z.to_nat 0) with 0%nat. cbn [lookup list_lookup]. unfold usable.
      rewrite (proj2 (Z.leb_gt (k + 1) k)) by lia. rewrite andb_true_r. by destruct (negb (sys_ind pt =? 0) && negb (is_extended (sys_ind pt))).
    + rewrite andb_false_r. cbn [andb]. rewrite (proj2 (Z.leb_le (k + 1) which)) by lia.
      replace (Z.to_nat (which - k)) with (S (Z.to_nat (which - (k + 1)))) by lia. done.
  - rewrite (proj2 (Z.eqb_neq k which)) by lia. rewrite andb_false_r. cbn [andb]. by rewrite (proj2 (Z.leb_gt (k + 1) which)) by lia.
Qed.

(** In an extended table only the used entries have one. *)
Lemma entries_loop_ext pts a k which :
  a <> 0 -> Forall (λ pt, boot_ind pt = 0 \/ boot_ind pt = 0x80) pts -> 1 <= k -> k + Z.of_nat (length (filter usable pts)) < 2 ^ 31 ->
  entries_loop pts a k which =
    match (if k <=? which then filter usable pts !! Z.to_nat (which - k) else None) with
    | Some pt => inl pt
    | None => inr (k + Z.of_nat (length (filter usable pts)))
    end.
Proof.
  intros Ha H. revert k. induction H as [|pt pts Hb H IH]; intros k Hk Hl; cbn [entries_loop].
  { cbn. rewrite Z.add_0_r. by destruct (k <=? which). }
  rewrite boot_masked by done. rewrite (proj2 (Z.eqb_neq a 0)) by done. cbn [andb orb]. rewrite filter_cons in Hl |- *. fold (usable pt).
  destruct (decide (usable pt)) as [Hu|Hu]; cbn [length] in *.
  - assert (usable pt = true) as Hut by (by destruct (usable pt)). rewrite Hut. rewrite s32_small by lia. rewrite IH by lia.
    replace (k + 1 + Z.of_nat (length (filter usable pts))) with (k + Z.of_nat (S (length (filter usable pts)))) by lia.
    unfold usable in Hut. apply andb_true_iff in Hut as [-> ->].
    destruct (Z.leb_spec k which) as [Hle|Hlt].
    + destruct (Z.eqb_spec k which) as [<-|Hne].
      * rewrite Z.sub_diag. done.
      * cbn [andb]. rewrite (proj2 (Z.leb_le (k + 1) which)) by lia.
        replace (Z.to_nat (which - k)) with (S (Z.to_nat (which - (k + 1)))) by lia. done.
    + rewrite (proj2 (Z.eqb_neq k which)) by lia. cbn [andb]. by rewrite (proj2 (Z.leb_gt (k + 1) which)) by lia.
  - assert (usable pt = false) as Huf by (by destruct (usable pt)). rewrite Huf.
    replace (negb (sys_ind pt =? 0) && (k =? which) && negb (is_extended (sys_ind pt))) with false; [by apply IH|].
    unfold usable in Huf. destruct (negb (sys_ind pt =? 0)), (negb (is_extended (sys_ind pt))), (k =? which); done.
Qed.

Lemma not_pbr d a buf : table_at d a buf -> (test_block_type buf =? DOS_PBR) = false.
Proof.
  intros [_ Hm Hb]. unfold test_block_type. rewrite Hm. cbn [negb slots_loop]. unfold entries in Hb. cbn [fmap list_fmap] in Hb.
  apply Forall_cons in Hb as [[-> | ->] _]; done.
Qed.

(** What is reported of the entry [pt] of the table at [ext]. *)
Definition reported (ext : Z) (pt : dos_partition_t) (info : disk_partition_t) : Prop :=
  start info = u64 (s32 (ext + le32_to_int (start4 pt))) /\ psize info = u64 (le32_to_int (size4 pt)) /\ pblksz info = 512 /\
  bootable info = is_bootable_dos pt /\ cstring (drop 32 (name_type info)) = type_text.

(** The answer for the partition with a number. *)
Definition answer (addr : Z) (info : disk_partition_t) (p : option (Z * dos_partition_t)) (r : option (option (Z * disk_partition_t))) : Prop :=
  match p with
  | Some (ext, pt) => ∃ info', r = Some (Some (0, info')) /\ info_ok addr info' /\ reported ext pt info'
  | None => r = Some (Some (-1, info))
  end.

Lemma chain_answer d relative a n l :
  chain d relative a n l -> ∀ fuel k which addr info sig,
  (n <= fuel)%nat -> 1 <= k -> k + Z.of_nat (length l) < 2 ^ 31 -> 0 <= which < 2 ^ 31 -> info_ok addr info -> 0 <= sig < 2 ^ 32 ->
  answer addr info (if k <=? which then l !! Z.to_nat (which - k) else None) (get_partition_info_extended dev id fuel d a relative k which addr info sig).
Proof.
  induction 1 as [a buf Ha Ht Hno|a buf e n l Ha Ht He Hch IH]; intros fuel k which addr info sig Hf Hk Hl Hw Hi Hs;
    (destruct fuel as [|fuel]; [lia|]); cbn [get_partition_info_extended]; rewrite (ta_read _ _ _ Ht), (ta_magic _ _ _ Ht); cbn [negb Z.eqb Pos.eqb];
    rewrite (proj2 (Z.eqb_neq a 0)) by done; fold (links (entries buf)).
  - rewrite length_fmap in Hl. rewrite entries_loop_ext by (try done; apply Ht). rewrite list_lookup_fmap.
    destruct (if k <=? which then filter usable (entries buf) !! Z.to_nat (which - k) else None) as [pt|] eqn:E.
    + destruct (k <=? which); [|done]. rewrite E. cbn [fmap option_fmap option_map answer].
      destruct (dos_info_spec id pt a which sig addr info Hw Hs Hi) as (info' & -> & Hio & Hrep). by exists info'.
    + rewrite Hno, (not_pbr d a buf Ht). destruct (k <=? which); [rewrite E|]; done.
  - rewrite length_app, length_fmap in Hl. rewrite entries_loop_ext by (try done; try apply Ht; lia).
    destruct (if k <=? which then filter usable (entries buf) !! Z.to_nat (which - k) else None) as [pt|] eqn:E.
    + destruct (k <=? which); [|done]. rewrite lookup_app_l by (rewrite length_fmap; by eapply lookup_lt_Some).
      rewrite list_lookup_fmap, E. cbn [fmap option_fmap option_map answer].
      destruct (dos_info_spec id pt a which sig addr info Hw Hs Hi) as (info' & -> & Hio & Hrep). by exists info'.
    + rewrite He. set (m := length (filter usable (entries buf))) in *.
      specialize (IH fuel (k + Z.of_nat m) which addr info sig ltac:(lia) ltac:(lia) ltac:(lia) Hw Hi Hs). cbn zeta. revert IH.
      destruct (Z.leb_spec k which) as [Hle|Hlt]; [|by rewrite (proj2 (Z.leb_gt _ _)) by lia].
      apply lookup_ge_None in E. rewrite (proj2 (Z.leb_le _ _)) by lia. rewrite lookup_app_r by (rewrite length_fmap; lia).
      rewrite length_fmap. fold m. by replace (Z.to_nat (which - k) - m)%nat with (Z.to_nat (which - (k + Z.of_nat m))) by lia.
Qed.

Lemma dos_answer d mbr n logical fuel which addr info :
  tables d mbr n logical -> (n < fuel)%nat -> Z.of_nat (length logical) < 2 ^ 30 -> 1 <= which < 2 ^ 31 -> info_ok addr info ->
  answer addr info (numbered mbr logical which) (get_partition_info_dos dev id fuel d which addr info).
Proof.
  intros [Ht Hl] Hf Hlen Hw Hi. unfold get_partition_info_dos. destruct fuel as [|fuel]; [lia|]. cbn [get_partition_info_extended].
  rewrite (ta_read _ _ _ Ht), (ta_magic _ _ _ Ht). cbn [negb Z.eqb Pos.eqb]. fold (links (entries mbr)).
  assert (0 <= u32 (lev (sub DOS_PART_DISKSIG_OFFSET 4 mbr)) < 2 ^ 32) as Hs by (apply Z.mod_pos_bound; lia).
  rewrite entries_loop_mbr by (try lia; try apply Ht; cbn; lia). rewrite (proj2 (Z.leb_le 1 which)) by lia. unfold numbered.
  change (1 + Z.of_nat (length (entries mbr))) with 5.
  assert (answer addr info (if 5 <=? which then logical !! Z.to_nat (which - 5) else None)
    (match links (entries mbr) with
     | Some pt => let lba_start := s32 (le32_to_int (start4 pt) + 0) in
         get_partition_info_extended dev id fuel d lba_start lba_start 5 which addr info (u32 (lev (sub DOS_PART_DISKSIG_OFFSET 4 mbr)))
     | None => if test_block_type mbr =? DOS_PBR then Some (info ← pbr_info dev addr info; Some (0, info)) else Some (Some (-1, info))
     end)) as Hrest.
  { destruct (links (entries mbr)) as [e|]; [apply (chain_answer _ _ _ _ _ Hl); try lia; done|].
    destruct Hl as [-> ->]. rewrite (not_pbr d 0 mbr Ht). by destruct (5 <=? which). }
  destruct (Z.leb_spec which 4) as [H4|H4].
  - rewrite (proj2 (Z.leb_gt 5 which)) in Hrest by lia.
    destruct (entries mbr !! Z.to_nat (which - 1)) as [pt|]; [|done]. cbn [mbind option_bind]. destruct (usable pt); [|done].
    destruct (dos_info_spec id pt 0 which _ addr info ltac:(lia) Hs Hi) as (info' & -> & Hio & Hrep). cbn [mbind option_bind answer]. by exists info'.
  - rewrite (proj2 (Z.leb_le 5 which)) in Hrest by lia.
    assert (entries mbr !! Z.to_nat (which - 1) = None) as -> by (apply lookup_ge_None; change (length (entries mbr)) with 4%nat; lia). done.
Qed.

(** C35. Partitions of an MS-DOS table have the numbers that fdisk gives them: 1 to 4
    are the entries of the master boot record, and from 5 on the logical ones in
    the order of the chain of extended tables, whatever is in between; each is
    reported with its own start and size, numbers without a partition are refused,
    and the recursion is as deep as the chain is long. *)
Theorem dos_partition_numbers d mbr n logical fuel which addr info :
  tables d mbr n logical -> (n < fuel)%nat -> Z.of_nat (length logical) < 2 ^ 30 -> 1 <= which < 2 ^ 31 -> info_ok addr info ->
  answer addr info (numbered mbr logical which) (get_partition_info_dos dev id fuel d which addr info).
Proof. apply dos_answer. Qed.

(** An extended table whose extended entry leads back to it is read forever when the partition is not
    found before: no depth of the recursion is enough. *)
Lemma dos_cycle_diverges d a relative buf e fuel k which addr info sig :
  a <> 0 -> table_at d a buf -> links (entries buf) = Some e -> s32 (le32_to_int (start4 e) + relative) = a -> filter usable (entries buf) = [] ->
  1 <= k < 2 ^ 31 -> get_partition_info_extended dev id fuel d a relative k which addr info sig = None.
Proof.
  intros Ha Ht He Hc Hu Hk. induction fuel as [|fuel IH]; [done|]. cbn [get_partition_info_extended].
  rewrite (ta_read _ _ _ Ht), (ta_magic _ _ _ Ht). cbn [negb Z.eqb Pos.eqb]. rewrite (proj2 (Z.eqb_neq a 0)) by done.
  rewrite entries_loop_ext by first [done|apply Ht|rewrite Hu; cbn; lia|lia]. rewrite Hu. cbn [length].
  replace (if k <=? which then [] !! Z.to_nat (which - k) else None) with (@None dos_partition_t) by (by destruct (k <=? which)).
  fold (links (entries buf)). rewrite He, Hc, Z.add_0_r. exact IH.
Qed.
End tables.

(** A partition behind the first 2^31 blocks: its start is sign-extended. *)
Lemma dos_start_sign (id : block_dev_id) pt n sig addr info :
  2 ^ 31 <= lev (start4 pt) < 2 ^ 32 -> 0 <= n < 2 ^ 31 -> 0 <= sig < 2 ^ 32 -> info_ok addr info ->
  ∃ info', dos_info id pt 0 n sig addr info = Some info' /\ start info' = lev (start4 pt) + (2 ^ 64 - 2 ^ 32).
Proof.
  intros Hst Hn Hs Hi. destruct (dos_info_spec id pt 0 n sig addr info Hn Hs Hi) as (info' & E & _ & Hs' & _). exists info'. split; [done|].
  rewrite Hs'. unfold le32_to_int. cbn [Z.add]. change (2 ^ 31) with 2147483648 in *. change (2 ^ 32) with 4294967296 in *.
  assert (s32 (lev (start4 pt)) = lev (start4 pt) - 4294967296) as ->.
  { unfold s32, swrap. change (2 ^ 32) with 4294967296. change (2 ^ (32 - 1)) with 2147483648.
    rewrite (Z.mod_eq _ 4294967296) by lia. replace ((lev (start4 pt) + 2147483648) / 4294967296) with 1; [lia|].
    apply (Z.div_unique _ _ 1 (lev (start4 pt) + 2147483648 - 4294967296)); lia. }
  rewrite s32_small by lia. unfold u64, wrap. change (2 ^ 64) with 18446744073709551616.
  rewrite <-(Z_mod_plus_full _ 1). rewrite Z.mod_small by lia. lia.
Qed.

(** ** Examples *)

Definition ex_pt (boot sys first size : Z) : list Z := [boot; 0; 0; 0; sys; 0; 0; 0] ++ le_bytes 4 first ++ le_bytes 4 size.
Definition ex_table (pts : list (list Z)) : list Z := replicate 446 0 ++ mjoin pts ++ replicate (64 - 16 * length pts) 0 ++ [0x55; 0xaa].
Definition ex_mbr : list Z := ex_table [ex_pt 128 0x83 1 20; ex_pt 0 5 30 60].
Definition ex_ebr1 : list Z := ex_table [ex_pt 0 0x83 1 8; ex_pt 0 5 20 10].
Definition ex_ebr2 : list Z := ex_table [ex_pt 0 0x83 2 6].
Definition ex_dos_disk : fdisk := (λ k, if k =? 0 then ex_mbr else if k =? 30 then ex_ebr1 else if k =? 50 then ex_ebr2 else [], 0%nat).

#[local] Existing Instance PartEfiRead.fdisk_dev.

Lemma ex_tables : tables ex_dos_disk ex_mbr 2 [(30, pt_at ex_ebr1 0); (50, pt_at ex_ebr2 0)].
Proof.
  assert (∀ k b, fblock ex_dos_disk k = b -> forallb (λ pt, (boot_ind pt =? 0) || (boot_ind pt =? 128)) (entries b) && has_magic b = true ->
    0 <= k < 100 -> table_at ex_dos_disk k b) as Ht.
  { intros k b Hb [Hf Hm]%andb_true_iff Hk. split; [|done|].
    - rewrite u64_small by lia. cbn [block_read PartEfiRead.fdisk_dev]. change (Z.to_nat 1) with 1%nat. cbn [sectors]. by rewrite Hb, app_nil_r.
    - apply Forall_forall. intros pt Hpt. rewrite forallb_forall in Hf. apply list_elem_of_In, Hf in Hpt. lia. }
  split; [apply Ht; [vm_compute; reflexivity|vm_compute; reflexivity|lia]|].
  change (links (entries ex_mbr)) with (Some (pt_at ex_mbr 1)). cbn zeta. change (s32 (le32_to_int (start4 (pt_at ex_mbr 1)) + 0)) with 30.
  apply (chain_next ex_dos_disk 30 30 ex_ebr1 (pt_at ex_ebr1 1) 1 [(50, pt_at ex_ebr2 0)]);
    [done|apply Ht; [vm_compute; reflexivity|vm_compute; reflexivity|lia]|reflexivity|].
  change (s32 (le32_to_int (start4 (pt_at ex_ebr1 1)) + 30)) with 50.
  apply (chain_last ex_dos_disk 30 50 ex_ebr2); [done|apply Ht; [vm_compute; reflexivity|vm_compute; reflexivity|lia]|reflexivity].
Qed.

Lemma dos_partition_numbers_witness :
  ∃ info', get_partition_info_dos ex_dev (BlockId IF_TYPE_MMC 0) 3 ex_dos_disk 6 4096 ex_info = Some (Some (0, info')) /\ start info' = 52 /\ psize info' = 6.
Proof.
  pose proof (dos_partition_numbers ex_dev (BlockId IF_TYPE_MMC 0) ex_dos_disk ex_mbr 2 _ 3 6 4096 ex_info ex_tables
    ltac:(lia) ltac:(cbn; lia) ltac:(lia) ex_info_ok) as H.
  change (numbered _ _ _) with (Some (50, pt_at ex_ebr2 0)) in H. cbn [answer] in H. destruct H as (info' & H & _ & Hs & Hp & _).
  exists info'. split; [exact H|]. rewrite Hs, Hp. split; vm_compute; reflexivity.
Defined.
