(* ===== verification/Part.v ===== *)
(** * Devices and partitions

    [disk/part.c] with EFI and MS-DOS partition tables: the kind of table of a
    device, the reader for it, and the choice of a device and a partition by a
    text such as [0:1] or [0:auto].  A first [None] is a chain of MS-DOS tables
    that is longer than [fuel], a second one an access outside of an object. *)

From S2P Require Import Prelude Mem Ctype Cstring Crc Strtoul Div64 Vsprintf RkParam Bytes RkLoader Uuid PartEfi PartEfiTable PartEfiRead PartDos.

(** ** Strings *)

(** [strsep]: the token, and what follows its delimiter. *)
Fixpoint strsep_str (c : Z) (s : list Z) : list Z * option (list Z) :=
  match s with
  | [] => ([], None)
  | x :: s => if x =? c then ([], Some s) else let '(tok, rest) := strsep_str c s in (x :: tok, rest)
  end.

(** ** Devices *)

Inductive part_type_t := PART_TYPE_UNKNOWN | PART_TYPE_MAC | PART_TYPE_DOS | PART_TYPE_ISO | PART_TYPE_AMIGA | PART_TYPE_EFI.
#[export] Instance part_type_eq : EqDecision part_type_t.
Proof. solve_decision. Defined.

Definition DEV_TYPE_UNKNOWN : Z := 0xff.
Definition PART_UNSPECIFIED : Z := -2.
Definition PART_AUTO : Z := -1.
Definition MAX_SEARCH_PARTITIONS : nat := 16.
Definition BOOT_PART_TYPE : list Z := text "U-Boot".

Record block_dev := BlockDevice {
  geometry : block_dev_desc;
  identity : block_dev_id;
  part_type : part_type_t;
  dev_type : Z;
  log2blksz : Z
}.

Definition LOG2 (x : Z) : Z :=
  (if negb (x .& 0xaaaaaaaa =? 0) then 1 else 0) + (if negb (x .& 0xcccccccc =? 0) then 2 else 0) + (if negb (x .& 0xf0f0f0f0 =? 0) then 4 else 0) +
  (if negb (x .& 0xff00ff00 =? 0) then 8 else 0) + (if negb (x .& 0xffff0000 =? 0) then 16 else 0).

Definition set_log2blksz (b : block_dev) : block_dev :=
  BlockDevice (geometry b) (identity b) (part_type b) (dev_type b) (LOG2 (blksz (geometry b))).

(** [struct block_drvr]: what a driver has. *)
Record block_drvr := BlockDrvr {
  drvr_name : list Z;
  drvr_get_dev : Z -> option block_dev;
  select_hwpart : option (Z -> Z -> Z)
}.

(** [strcpy] into an array at [off]. *)
Definition put_str (off : nat) (s l : list Z) : list Z := take off l ++ s ++ 0 :: drop (off + length s + 1) l.

Definition clear_uuid (info : disk_partition_t) : option (list Z) := aset (uuid info) 0 0.

(** Both failures of a computation. *)
Definition bind2 {A B : Type} (r : option (option A)) (k : A -> option (option B)) : option (option B) :=
  match r with Some (Some x) => k x | Some None => Some None | None => None end.

Section parts.
Context {D : Type} `{!BlockDev D} (can_alloc : Z -> bool) (getenv : list Z -> option (list Z)) (block_drvr_table : list block_drvr) (fuel : nat).

Fixpoint get_dev_hwpart (drvr : list block_drvr) (ifname : list Z) (dev hwpart : Z) : option block_dev :=
  match drvr with
  | [] => None
  | dr :: drvr =>
      if bool_decide (take (length (drvr_name dr)) ifname = drvr_name dr) then
        match drvr_get_dev dr dev with
        | None => None
        | Some dev_desc =>
            match select_hwpart dr with
            | None => if hwpart =? 0 then Some dev_desc else None
            | Some select => if select (dev_num (identity dev_desc)) hwpart <? 0 then None else Some dev_desc
            end
        end
      else get_dev_hwpart drvr ifname dev hwpart
  end.

Definition get_dev (ifname : list Z) (dev : Z) : option block_dev := get_dev_hwpart block_drvr_table ifname dev 0.

Definition init_part (b : block_dev) (d : D) : block_dev :=
  let t := if test_part_efi d =? 0 then PART_TYPE_EFI else if test_part_dos d =? 0 then PART_TYPE_DOS else PART_TYPE_UNKNOWN in
  BlockDevice (geometry b) (identity b) t (dev_type b) (log2blksz b).

Definition get_partition_info (b : block_dev) (d : D) (part addr : Z) (info : disk_partition_t) : option (option (Z * disk_partition_t)) :=
  match clear_uuid info with
  | None => Some None
  | Some uuid' =>
      let info := DiskPartition (start info) (psize info) (pblksz info) (name_type info) (bootable info) uuid' in
      match part_type b with
      | PART_TYPE_DOS =>
          bind2 (get_partition_info_dos (geometry b) (identity b) fuel d part addr info) (λ '(r, info), Some (Some (if r =? 0 then 0 else -1, info)))
      | PART_TYPE_EFI =>
          bind2 (Some (get_partition_info_efi (geometry b) can_alloc d part addr info)) (λ '(r, info), Some (Some (if r =? 0 then 0 else -1, info)))
      | _ => Some (Some (-1, info))
      end
  end.

(** The number of the device, or -1; [None] when there is no memory. *)
Definition get_device (ifname dev_hwpart_str : list Z) : option (Z * option block_dev) :=
  let '(dev_str, hwpart_str) := strsep_str 46 dev_hwpart_str in
  if bool_decide (is_Some hwpart_str) && negb (can_alloc (Z.of_nat (length dev_hwpart_str) + 1)) then None
  else
    let '(dev, ep) := simple_strtoul dev_str 16 in
    if negb (bool_decide (ep = [])) then Some (-1, None)
    else
      let '(hwpart, ep) := match hwpart_str with Some s => simple_strtoul s 16 | None => (0, []) end in
      if negb (bool_decide (ep = [])) then Some (-1, None)
      else
        match get_dev_hwpart block_drvr_table ifname (s32 dev) (s32 hwpart) with
        | None => Some (-1, None)
        | Some b => if dev_type b =? DEV_TYPE_UNKNOWN then Some (-1, Some b) else Some (s32 dev, Some b)
        end.

(** The search for a bootable partition: [n] more numbers from [p] on.  The
    number that was chosen, [p] at the end, and the two structures. *)
Fixpoint auto_loop (read : Z -> disk_partition_t -> option (option (Z * disk_partition_t))) (n : nat) (p part : Z) (info tmpinfo : disk_partition_t)
    : option (option (Z * Z * disk_partition_t * disk_partition_t)) :=
  match n with
  | O => Some (Some (part, p, info, tmpinfo))
  | S n =>
      bind2 (read p info) (λ '(ret, info),
        if negb (ret =? 0) then auto_loop read n (p + 1) part info tmpinfo
        else
          let part := if (part =? 0) || negb (bootable info =? 0) then p else part in
          if negb (bootable info =? 0) then Some (Some (part, p, info, tmpinfo))
          else auto_loop read n (p + 1) part info (if part =? p then info else tmpinfo))
  end.

(** The partition [part] of a device with a table, or the one that is chosen. *)
Definition select_partition (read : Z -> disk_partition_t -> option (option (Z * disk_partition_t))) (part : Z) (info tmpinfo : disk_partition_t)
    : option (option (Z * disk_partition_t)) :=
  let checked (part : Z) (info : disk_partition_t) :=
    if bool_decide (cstring (take 32 (drop 32 (name_type info))) = BOOT_PART_TYPE) then Some (Some (part, info)) else Some (Some (-1, info)) in
  let part := if part =? PART_UNSPECIFIED then 1 else part in
  if negb (part =? PART_AUTO) then
    bind2 (read part info) (λ '(ret, info), if negb (ret =? 0) then Some (Some (ret, info)) else checked part info)
  else
    bind2 (auto_loop read MAX_SEARCH_PARTITIONS 1 0 info tmpinfo) (λ '(part, p, info, tmpinfo),
      if negb (part =? 0) then checked part (if p =? Z.of_nat MAX_SEARCH_PARTITIONS + 1 then tmpinfo else info)
      else Some (Some (-1, info))).

Definition whole_disk (b : block_dev) (info : disk_partition_t) : option disk_partition_t :=
  uuid' ← clear_uuid info;
  Some (DiskPartition 0 (lba (geometry b)) (blksz (geometry b)) (put_str 0 (text "Whole Disk") (put_str 32 BOOT_PART_TYPE (name_type info))) 0 uuid').

Definition hostfs_info (info : disk_partition_t) : option disk_partition_t :=
  uuid' ← clear_uuid info;
  Some (DiskPartition 0 0 0 (put_str 0 (text "Sandbox host") (put_str 32 BOOT_PART_TYPE (name_type info))) 0 uuid').

(** The number in the text behind the colon, or [None]. *)
Definition part_number (part_str : option (list Z)) (allow_whole_dev : bool) : option Z :=
  match part_str with
  | None | Some [] => Some PART_UNSPECIFIED
  | Some s =>
      if bool_decide (s = text "auto") then Some PART_AUTO
      else
        let '(v, ep) := simple_strtoul s 16 in
        if negb (bool_decide (ep = [])) || ((s32 v =? 0) && negb allow_whole_dev) then None else Some (s32 v)
  end.

(** The result, [*info] and [*dev_desc]; [tmpinfo] is what the stack holds. *)
Definition get_device_and_partition (d : D) (ifname : list Z) (dev_part_str : option (list Z)) (addr : Z) (info tmpinfo : disk_partition_t)
    (allow_whole_dev : bool) : option (option (Z * disk_partition_t * option block_dev)) :=
  if bool_decide (ifname = text "hostfs") then Some (info ← hostfs_info info; Some (0, info, None))
  else
    let str := match dev_part_str with None => getenv (text "bootdevice") | Some s => if bool_decide (s = []) || bool_decide (s = text "-") then getenv (text "bootdevice") else Some s end in
    match str with
    | None => Some (Some (-1, info, None))
    | Some str =>
        let '(dev_str, part_str) := strsep_str 58 str in
        if bool_decide (is_Some part_str) && negb (can_alloc (Z.of_nat (length str) + 1)) then Some None
        else
          match get_device ifname dev_str with
          | None => Some None
          | Some (dev, b) =>
              if dev <? 0 then Some (Some (-1, info, b))
              else
                match b with
                | None => Some (Some (-1, info, b))
                | Some b =>
                    match part_number part_str allow_whole_dev with
                    | None => Some (Some (-1, info, Some b))
                    | Some part =>
                        if bool_decide (part_type b = PART_TYPE_UNKNOWN) || (part =? 0) then
                          if lba (geometry b) =? 0 then Some (Some (-1, info, Some b))
                          else if (0 <? part) || negb allow_whole_dev then Some (Some (-1, info, Some b))
                          else Some (info ← whole_disk b info; Some (0, info, Some (set_log2blksz b)))
                        else
                          bind2 (select_partition (λ part info, get_partition_info b d part addr info) part info tmpinfo) (λ '(ret, info),
                            Some (Some (ret, info, Some (if ret <? 0 then b else set_log2blksz b))))
                    end
                end
          end
    end.

End parts.

(** ** Cutting strings *)

(** [strsep] of [lib/string.c] does this to a string in memory. *)
Lemma strsep_str_refines (m : mem) p a s c :
  0 < p -> cstr_at m p s -> cstr_at m a [c] -> (a + 1 < p \/ p + Z.of_nat (length s) < a) ->
  ∃ m', let '(tok, rest) := strsep_str c s in
    strsep m p a = Some (m', p, match rest with None => NULL | Some _ => p + Z.of_nat (length tok) + 1 end) /\
    cstr_at m' p tok /\ (∀ r, rest = Some r -> cstr_at m' (p + Z.of_nat (length tok) + 1) r).
Proof.
  intros Hp Hs Ha Hd.
  assert (∀ tok, Forall (λ x, x ∉ [c]) tok -> strsep_str c tok = (tok, None) /\ ∀ rest, strsep_str c (tok ++ c :: rest) = (tok, Some rest)) as Hcut.
  { induction 1 as [|x tok Hx _ [IH1 IH2]]; cbn [strsep_str app].
    - split; [done|]. intros rest. by rewrite Z.eqb_refl.
    - assert (x <> c) by (intros ->; apply Hx, list_elem_of_here). rewrite (proj2 (Z.eqb_neq x c)) by done.
      split; [by rewrite IH1|]. intros rest. by rewrite IH2. }
  destruct (strsep_correct m p a s [c] Hp Hs Ha ltac:(cbn [length]; lia)) as [[E Hn]|(tok & d & rest & m' & -> & Hin & Hn & E & H1 & H2 & _)].
  - exists m. rewrite (proj1 (Hcut s Hn)). split_and!; [done|done|]. by intros r [=].
  - apply list_elem_of_singleton in Hin as ->. exists m'. rewrite (proj2 (Hcut tok Hn)). split_and!; [done|done|]. by intros r [= <-].
Qed.

Definition without (c : Z) (s : list Z) : Prop := Forall (λ x, x <> c) s.

Lemma strsep_plain c s : without c s -> strsep_str c s = (s, None).
Proof. induction 1 as [|x s Hx _ IH]; [done|]. cbn [strsep_str]. rewrite (proj2 (Z.eqb_neq x c)) by done. by rewrite IH. Qed.

Lemma strsep_cut c s r : without c s -> strsep_str c (s ++ c :: r) = (s, Some r).
Proof.
  induction 1 as [|x s Hx _ IH]; cbn [strsep_str app]; [by rewrite Z.eqb_refl|].
  rewrite (proj2 (Z.eqb_neq x c)) by done. by rewrite IH.
Qed.

(** ** Tables of partitions *)

(** What a table promises to its reader: for the numbers that are searched, which
    are valid, which boot, and what is reported of them. *)
Class PartTable (read : Z -> disk_partition_t -> option (option (Z * disk_partition_t))) (room : disk_partition_t -> Prop) := {
  valid : Z -> bool;
  boots : Z -> bool;
  shows : Z -> disk_partition_t -> Prop;
  read_valid : ∀ p info, 1 <= p <= Z.of_nat MAX_SEARCH_PARTITIONS -> room info -> valid p = true ->
    ∃ info', read p info = Some (Some (0, info')) /\ room info' /\ shows p info';
  read_invalid : ∀ p info, 1 <= p <= Z.of_nat MAX_SEARCH_PARTITIONS -> room info -> valid p = false ->
    ∃ r info', read p info = Some (Some (r, info')) /\ r <> 0 /\ room info';
  shows_boots : ∀ p info, shows p info -> (bootable info =? 0) = negb (boots p);
  shows_type : ∀ p info, shows p info -> cstring (take 32 (drop 32 (name_type info))) = BOOT_PART_TYPE
}.

Fixpoint numbers (n : nat) (p : Z) : list Z := match n with O => [] | S n => p :: numbers n (p + 1) end.

Section choice.
Context {read : Z -> disk_partition_t -> option (option (Z * disk_partition_t))} {room : disk_partition_t -> Prop} `{!PartTable read room}.

(** The first bootable partition, or else the first one. *)
Definition first_boot (ps : list Z) : option Z := find (λ p, valid p && boots p) ps.
Definition chosen : option Z :=
  let ps := numbers MAX_SEARCH_PARTITIONS 1 in match first_boot ps with Some p => Some p | None => find valid ps end.

Lemma auto_loop_spec n p part info tmpinfo :
  1 <= p -> p + Z.of_nat n = 17 -> room info -> (part = 0 \/ 1 <= part < p /\ shows part tmpinfo) ->
  ∃ info' tmp', room info' /\
    match first_boot (numbers n p) with
    | Some q => auto_loop read n p part info tmpinfo = Some (Some (q, q, info', tmp')) /\ 1 <= q <= 16 /\ shows q info'
    | None =>
        let part' := if part =? 0 then default 0 (find valid (numbers n p)) else part in
        auto_loop read n p part info tmpinfo = Some (Some (part', 17, info', tmp')) /\ (part' = 0 \/ 1 <= part' /\ shows part' tmp')
    end.
Proof.
  revert p part info tmpinfo. induction n as [|n IH]; intros p part info tmpinfo Hp Hn Hr Hpart.
  { exists info, tmpinfo. split; [done|]. cbn. replace p with 17 by lia. destruct (Z.eqb_spec part 0) as [->|]; [by split; [|left]|]. split; [done|].
    destruct Hpart as [|[? ?]]; [done|]. right. split; [lia|done]. }
  cbn [numbers first_boot find auto_loop]. fold (first_boot (numbers n (p + 1))). destruct (valid p) eqn:Hv; cbn [andb].
  - destruct (read_valid p info ltac:(change (Z.of_nat MAX_SEARCH_PARTITIONS) with 16; lia) Hr Hv) as (i1 & -> & Hr1 & Hs1). cbn [bind2].
    change (0 =? 0) with true. cbn [negb]. rewrite (shows_boots p i1 Hs1), negb_involutive. destruct (boots p); cbn [orb].
    { exists i1, tmpinfo. rewrite orb_true_r. split; [done|]. split; [done|]. split; [lia|done]. }
    rewrite orb_false_r. destruct (Z.eqb_spec part 0) as [->|Hne].
    + rewrite Z.eqb_refl. destruct (IH (p + 1) p i1 i1 ltac:(lia) ltac:(lia) Hr1 ltac:(right; split; [lia|done])) as (i' & t' & Hr' & H). exists i', t'.
      split; [done|]. destruct (first_boot (numbers n (p + 1))); [done|]. cbn zeta in H. by rewrite (proj2 (Z.eqb_neq p 0)) in H by lia.
    + destruct Hpart as [|[Hlt Hs]]; [done|]. rewrite (proj2 (Z.eqb_neq part p)) by lia.
      destruct (IH (p + 1) part i1 tmpinfo ltac:(lia) ltac:(lia) Hr1 ltac:(right; split; [lia|done])) as (i' & t' & Hr' & H). exists i', t'.
      split; [done|]. destruct (first_boot (numbers n (p + 1))); [done|]. cbn zeta in H. by rewrite (proj2 (Z.eqb_neq part 0)) in H by lia.
  - destruct (read_invalid p info ltac:(change (Z.of_nat MAX_SEARCH_PARTITIONS) with 16; lia) Hr Hv) as (r & i1 & -> & Hne & Hr1). cbn [bind2].
    rewrite (proj2 (Z.eqb_neq r 0)) by done. cbn [negb].
    destruct (IH (p + 1) part i1 tmpinfo ltac:(lia) ltac:(lia) Hr1 ltac:(destruct Hpart as [|[? ?]]; [by left|right; split; [lia|done]])) as (i' & t' & Hr' & H).
    by exists i', t'.
Qed.

Lemma find_numbers_range (f : Z -> bool) n p q : find f (numbers n p) = Some q -> p <= q < p + Z.of_nat n.
Proof. revert p. induction n as [|n IH]; intros p; [done|]. cbn [numbers find]. destruct (f p); [intros [= <-]; lia|]. intros H%IH. lia. Qed.

Lemma select_auto info tmpinfo :
  room info ->
  match chosen with
  | Some p => ∃ info', select_partition read PART_AUTO info tmpinfo = Some (Some (p, info')) /\ 1 <= p /\ shows p info'
  | None => ∃ info', select_partition read PART_AUTO info tmpinfo = Some (Some (-1, info'))
  end.
Proof.
  intros Hr. destruct (auto_loop_spec MAX_SEARCH_PARTITIONS 1 0 info tmpinfo ltac:(lia) eq_refl Hr (or_introl eq_refl)) as (i & t & _ & H).
  unfold chosen, select_partition. change (PART_AUTO =? PART_UNSPECIFIED) with false. cbv iota. change (PART_AUTO =? PART_AUTO) with true. cbn [negb].
  destruct (first_boot (numbers MAX_SEARCH_PARTITIONS 1)) as [q|].
  - destruct H as (-> & Hq & Hs). cbn [bind2]. rewrite (proj2 (Z.eqb_neq q 0)) by lia. cbn [negb]. exists i.
    change (Z.of_nat MAX_SEARCH_PARTITIONS + 1) with 17. rewrite (proj2 (Z.eqb_neq q 17)) by lia.
    rewrite bool_decide_eq_true_2 by (by eapply shows_type). split; [done|]. split; [lia|done].
  - cbn zeta in H. change (0 =? 0) with true in H. cbv iota in H. destruct H as (-> & Hp). cbn [bind2].
    destruct (find valid (numbers MAX_SEARCH_PARTITIONS 1)) as [p|] eqn:E; cbn [default from_option id] in *.
    + apply find_numbers_range in E. destruct Hp as [->|[_ Hs]]; [lia|]. rewrite (proj2 (Z.eqb_neq p 0)) by lia. cbn [negb]. exists t.
      change (17 =? Z.of_nat MAX_SEARCH_PARTITIONS + 1) with true. cbv iota. rewrite bool_decide_eq_true_2 by (by eapply shows_type).
      split; [done|]. split; [lia|done].
    + change (0 =? 0) with true. cbn [negb]. by exists i.
Qed.
End choice.

(** ** Choosing a partition *)

Section command.
Context {D : Type} `{!BlockDev D} (can_alloc : Z -> bool) (getenv : list Z -> option (list Z)) (block_drvr_table : list block_drvr) (fuel : nat).

(** C36. [dev:auto] gives the first bootable partition of the device among the
    numbers 1 to 16, or its first partition when none is bootable, with the
    information of just this one; a device without any is an error.  This holds
    for every table that keeps the promises of [PartTable]. *)
Theorem auto_partition (d : D) (b : block_dev) n ifname dev_str addr info tmpinfo allow_whole_dev (room : disk_partition_t -> Prop)
    `{!PartTable (λ part info, get_partition_info can_alloc fuel b d part addr info) room} :
  (∀ n, can_alloc n = true) -> ifname <> text "hostfs" -> without 58 dev_str ->
  get_device can_alloc block_drvr_table ifname dev_str = Some (n, Some b) -> 0 <= n -> part_type b <> PART_TYPE_UNKNOWN -> room info ->
  let r := get_device_and_partition can_alloc getenv block_drvr_table fuel d ifname (Some (dev_str ++ 58 :: text "auto")) addr info tmpinfo allow_whole_dev in
  match chosen with
  | Some p => ∃ info', r = Some (Some (p, info', Some (set_log2blksz b))) /\ shows p info'
  | None => ∃ info', r = Some (Some (-1, info', Some b))
  end.
Proof.
  intros Ha Hif Hs Hdev Hn Ht Hr r. unfold r, get_device_and_partition. clear r. rewrite bool_decide_eq_false_2 by done.
  rewrite (bool_decide_eq_false_2 (dev_str ++ 58 :: text "auto" = [])) by (by destruct dev_str).
  rewrite (bool_decide_eq_false_2 (dev_str ++ 58 :: text "auto" = text "-")).
  2: { intros E%(f_equal length). rewrite length_app in E. cbn in E. lia. }
  cbn [orb]. rewrite strsep_cut by done. rewrite Ha, andb_false_r, Hdev. rewrite (proj2 (Z.ltb_ge n 0)) by lia.
  change (part_number (Some (text "auto")) allow_whole_dev) with (Some PART_AUTO). rewrite (bool_decide_eq_false_2 (part_type b = _)) by done.
  change (PART_AUTO =? 0) with false. cbn [orb]. pose proof (select_auto info tmpinfo Hr) as H. destruct chosen as [p|].
  - destruct H as (i & -> & Hp & Hsh). cbn [bind2]. rewrite (proj2 (Z.ltb_ge p 0)) by lia. by exists i.
  - destruct H as (i & ->). cbn [bind2]. by exists i.
Qed.

(** An MS-DOS table keeps the promises. *)
Section dos.
Context (d : D) (b : block_dev) (addr : Z) (mbr : list Z) (depth : nat) (logical : list (Z * dos_partition_t)).
Hypothesis Hdos : part_type b = PART_TYPE_DOS.
Hypothesis Htables : tables d mbr depth logical.
Hypothesis Hfuel : (depth < fuel)%nat.
Hypothesis Hlogical : Z.of_nat (length logical) < 2 ^ 30.

Definition dos_boots (p : Z) : bool := match numbered mbr logical p with Some (_, pt) => boot_ind pt =? 0x80 | None => false end.
Definition dos_shows (p : Z) (info : disk_partition_t) : Prop :=
  info_ok addr info /\ ∃ ext pt, numbered mbr logical p = Some (ext, pt) /\ reported ext pt info.

Lemma dos_read p info : 1 <= p < 2 ^ 31 -> info_ok addr info ->
  ∃ info1, info_ok addr info1 /\
    answer addr info1 (numbered mbr logical p) (get_partition_info_dos (geometry b) (identity b) fuel d p addr info1) /\
    get_partition_info can_alloc fuel b d p addr info =
      bind2 (get_partition_info_dos (geometry b) (identity b) fuel d p addr info1) (λ '(r, info), Some (Some (if r =? 0 then 0 else -1, info))).
Proof.
  intros Hp [Ha Hn Hu]. unfold get_partition_info, clear_uuid. rewrite aset_Some by lia. rewrite Hdos.
  eexists. split; [|split; [|done]]; [|apply (dos_answer _ _ d mbr depth logical); [done|done|done|done|]];
    (split; cbn [name_type uuid]; [done|done|by rewrite length_insert]).
Qed.

Lemma dos_table_promises : PartTable (λ part info, get_partition_info can_alloc fuel b d part addr info) (info_ok addr).
Proof.
  refine (Build_PartTable _ (info_ok addr) (λ p, bool_decide (is_Some (numbered mbr logical p))) dos_boots dos_shows _ _ _ _).
  - intros p info Hp Hi Hv%bool_decide_eq_true. change (Z.of_nat MAX_SEARCH_PARTITIONS) with 16 in Hp.
    destruct (dos_read p info ltac:(lia) Hi) as (i1 & Hi1 & Hans & ->). destruct Hv as [[ext pt] Hv]. rewrite Hv in Hans.
    destruct Hans as (i' & -> & Hi' & Hrep). cbn [bind2]. exists i'. split; [done|]. split; [done|]. split; [done|]. by exists ext, pt.
  - intros p info Hp Hi Hv%bool_decide_eq_false. change (Z.of_nat MAX_SEARCH_PARTITIONS) with 16 in Hp.
    destruct (dos_read p info ltac:(lia) Hi) as (i1 & Hi1 & Hans & ->). apply eq_None_not_Some in Hv. rewrite Hv in Hans. cbn [answer] in Hans.
    rewrite Hans. cbn [bind2]. by exists (-1), i1.
  - intros p info (_ & ext & pt & Hn & (_ & _ & _ & Hb & _)). rewrite Hb. unfold dos_boots. rewrite Hn. unfold is_bootable_dos.
    by destruct (boot_ind pt =? 0x80).
  - intros p info ([_ Hl _] & ext & pt & _ & (_ & _ & _ & _ & Hty)). rewrite take_ge by (rewrite length_drop; lia). done.
Defined.
End dos.
End command.

(** A number that does not fit an [int] is taken for [auto]. *)
Lemma part_number_overflow allow : part_number (Some (text "ffffffff")) allow = Some PART_AUTO.
Proof. destruct allow; vm_compute; reflexivity. Qed.

(** ** Examples *)

#[local] Existing Instance PartEfiRead.fdisk_dev.

Definition ex_env (k : list Z) : option (list Z) := if bool_decide (k = text "id") then Some ex_guid else None.
Definition ex_all (n : Z) : bool := true.
Definition ex_block_dev : block_dev := BlockDevice ex_dev (BlockId IF_TYPE_MMC 0) PART_TYPE_DOS 0 0.
Definition ex_drivers : list block_drvr := [BlockDrvr (text "mmc") (λ n, if n =? 0 then Some ex_block_dev else None) None].

Lemma auto_partition_witness :
  ∃ info', get_device_and_partition ex_all ex_env ex_drivers 3 ex_dos_disk (text "mmc") (Some (text "0:auto")) 4096 ex_info ex_info false =
    Some (Some (1, info', Some (set_log2blksz ex_block_dev))) /\ start info' = 1 /\ psize info' = 20.
Proof.
  pose (T := dos_table_promises ex_all 3 ex_dos_disk ex_block_dev 4096 ex_mbr 2 _ eq_refl ex_tables ltac:(lia) ltac:(cbn; lia)).
  pose proof (auto_partition (D := fdisk) ex_all ex_env ex_drivers 3 ex_dos_disk ex_block_dev 0 (text "mmc") (text "0") 4096 ex_info ex_info false
    (info_ok 4096) (PartTable0 := T) (λ _, eq_refl) ltac:(discriminate) ltac:(repeat constructor; discriminate) ltac:(reflexivity) ltac:(lia)
    ltac:(discriminate) ex_info_ok) as H. cbn zeta in H.
  assert (chosen (PartTable0 := T) = Some 1) as Hc by (vm_compute; reflexivity). rewrite Hc in H.
  destruct H as (info' & H & _ & ext & pt & Hn & Hs & Hp & _). exists info'. split; [exact H|].
  vm_compute in Hn. injection Hn as <- <-. rewrite Hs, Hp. split; vm_compute; reflexivity.
Defined.
