(* ===== verification/CmdGpt.v ===== *)
(** * The [gpt] command

    [common/cmd_gpt.c], without [CONFIG_RANDOM_UUID] and
    [CONFIG_PARTITION_TYPE_GUID]: a list of partitions as a text
    [uuid_disk=..;name=..,size=..,uuid=..,start=..,bootable;..] that is written
    as a GUID partition table, or compared with the one on the device.  The
    strings are the lists of their characters, as every function works on copies
    of its own; [None] is an access through a null pointer. *)

From S2P Require Import Prelude Mem Ctype Cstring Crc Strtoul Div64 Vsprintf RkParam Bytes Uuid PartEfi PartEfiTable PartEfiRead PartDos Part.

(** ** Strings *)

(** The tokens that repeated calls give. *)
Fixpoint tokens (c : Z) (s : list Z) : list (list Z) :=
  match s with
  | [] => [[]]
  | x :: s =>
      if x =? c then [] :: tokens c s
      else match tokens c s with [] => [[x]] | tok :: toks => (x :: tok) :: toks end
  end.

Definition comma : Z := 44.
Definition semicolon : Z := 59.
Definition equals : Z := 61.

Inductive command_ret_t := CMD_RET_SUCCESS | CMD_RET_FAILURE | CMD_RET_USAGE.

(** An element of the array after [calloc]. *)
Definition blank : disk_partition_t := DiskPartition 0 0 0 (replicate 64 0) 0 (replicate 37 0).

(** A string that was copied to the beginning of an array of zeros. *)
Definition in_array (n : nat) (s : list Z) : list Z := s ++ replicate (n - length s) 0.

Section command.

(** The environment, and what [malloc] and the like have memory for. *)
Context (getenv : list Z -> option (list Z)) (can_alloc : Z -> bool).

Definition strdup (s : option (list Z)) : option (list Z) :=
  s ← s; if can_alloc (Z.of_nat (length s) + 1) then Some s else None.

(** The value of a variable that is set, when 0 is returned. *)
Definition extract_env (str : list Z) : option (list Z) :=
  if (length str <? 4)%nat then None
  else if negb (bool_decide (take 2 str = text "${") && bool_decide (last str = Some 125)) then None
  else s ← strdup (Some str); getenv (drop 2 (removelast s)).

(** [if (extract_env(val, &p)) p = val;] *)
Definition expand (val : list Z) : list Z := default val (extract_env val).

(** The tokens of [s] are looked at one after the other. *)
Fixpoint val_loop (s : list (list Z)) (key : list Z) : option (list Z) :=
  match s with
  | [] => None
  | v :: s => let '(k, v) := strsep_str equals v in if bool_decide (k = key) then strdup v else val_loop s key
  end.

(** The value, or [NULL]. *)
Definition extract_val (str : option (list Z)) (key : list Z) : option (list Z) :=
  strcopy ← strdup str; val_loop (tokens comma strcopy) key.

Definition found_key (str key : list Z) : bool :=
  match strdup (Some str) with
  | None => false
  | Some strcopy => existsb (λ k, bool_decide (k = key)) (tokens comma strcopy)
  end.

(** One turn of the loop, for an element of [parts] when it is allocated: the
    error, or the partition. *)
Definition set_part (dev : block_dev_desc) (allocated : bool) (tok : list Z) : option (Z + disk_partition_t) :=
  match extract_val (Some tok) (text "uuid") with
  | None => Some (inl (-4))
  | Some val =>
      let id := expand val in
      if (37 <=? length id)%nat then Some (inl (-4))
      else if negb allocated then None
      else
        match extract_val (Some tok) (text "name") with
        | None => Some (inl (-4))
        | Some val =>
            let name := expand val in
            if (32 <=? length name)%nat then Some (inl (-4))
            else
              match extract_val (Some tok) (text "size") with
              | None => Some (inl (-4))
              | Some val =>
                  size ← lldiv (ustrtoull (expand val) 0).1 (u32 (blksz dev));
                  first ←
                    match extract_val (Some tok) (text "start") with
                    | None => Some 0
                    | Some val => lldiv (ustrtoull (expand val) 0).1 (u32 (blksz dev))
                    end;
                  Some (inr (DiskPartition first size 0 (in_array 64 name) (if found_key tok (text "bootable") then 1 else 0) (in_array 37 id)))
              end
        end
  end.

(** [n] more elements *)
Fixpoint parts_loop (dev : block_dev_desc) (allocated : bool) (n : nat) (toks : list (list Z)) : option (Z + list disk_partition_t) :=
  match n, toks with
  | O, _ => Some (inr [])
  | S n, [] => Some (inr (replicate (S n) blank))
  | S n, tok :: toks =>
      r ← set_part dev allocated tok;
      match r with
      | inl errno => Some (inl errno)
      | inr p =>
          r ← parts_loop dev allocated n toks;
          Some (match r with inl errno => inl errno | inr ps => inr (p :: ps) end)
      end
  end.

(** The disk GUID, which may be [NULL], the partitions, and their number. *)
Definition set_gpt_info (dev : block_dev_desc) (str_part : option (list Z)) : option (Z + option (list Z) * list disk_partition_t * Z) :=
  match str_part with
  | None => Some (inl (-1))
  | Some str_part =>
      let str := strdup (Some str_part) in
      match extract_val str (text "uuid_disk") with
      | None => Some (inl (-2))
      | Some val =>
          let val := (strsep_str semicolon val).1 in
          let str_disk_guid := strdup (Some (expand val)) in
          str ← str;
          s ← (strsep_str semicolon str).2;
          if (length s =? 0)%nat then Some (inl (-3))
          else
            let s := if bool_decide (last s = Some semicolon) then removelast s else s in
            let p_count := S (count_occ Z.eq_dec s semicolon) in
            let allocated := can_alloc (136 * Z.of_nat p_count) in
            r ← parts_loop dev allocated p_count (tokens semicolon s);
            Some (match r with inl errno => inl errno | inr parts => inr (str_disk_guid, parts, u8 (Z.of_nat p_count)) end)
      end
  end.

Context {D : Type} `{!BlockDev D}.

(** A GUID that is [NULL] is as little valid as an empty one. *)
Definition gpt_default (dev : block_dev_desc) (d : D) (str_part : option (list Z)) : option (Z * D) :=
  r ← set_gpt_info dev str_part;
  match r with
  | inl _ => Some (-1, d)
  | inr (str_disk_guid, partitions, part_count) => gpt_restore dev can_alloc d (default [] str_disk_guid) (take (Z.to_nat part_count) partitions)
  end.

Definition gpt_verify (dev : block_dev_desc) (d : D) (str_part : option (list Z)) : option Z :=
  r ← set_gpt_info dev str_part;
  match r with
  | inl ret =>
      if ret =? -1 then t ← gpt_verify_headers dev can_alloc d; Some (match t with Some _ => 0 | None => -1 end)
      else Some (-1)
  | inr (_, partitions, part_count) => gpt_verify_partitions dev can_alloc d (take (Z.to_nat part_count) partitions)
  end.

Context (block_drvr_table : list block_drvr).

Definition do_gpt (d : D) (argv : list (list Z)) : option (command_ret_t * D) :=
  match argv with
  | _ :: cmd :: ifname :: num :: rest =>
      if (1 <? length rest)%nat then Some (CMD_RET_USAGE, d)
      else
        let '(dev, ep) := simple_strtoul num 10 in
        if negb (bool_decide (ep = [])) then Some (CMD_RET_USAGE, d)
        else
          match get_dev block_drvr_table ifname (s32 dev) with
          | None => Some (CMD_RET_FAILURE, d)
          | Some b =>
              let blk_dev_desc := geometry b in
              let result (ret : Z) := if negb (ret =? 0) then CMD_RET_FAILURE else CMD_RET_SUCCESS in
              if bool_decide (cmd = text "write") && (length rest =? 1)%nat then
                '(ret, d) ← gpt_default blk_dev_desc d (head rest); Some (result ret, d)
              else if bool_decide (cmd = text "verify") then
                ret ← gpt_verify blk_dev_desc d (head rest); Some (result ret, d)
              else Some (CMD_RET_USAGE, d)
          end
  | _ => Some (CMD_RET_USAGE, d)
  end.

End command.

(** ** Tokens *)

Lemma tokens_strsep c s :
  tokens c s = let '(tok, rest) := strsep_str c s in tok :: match rest with None => [] | Some r => tokens c r end.
Proof.
  induction s as [|x s IH]; [done|]. cbn [tokens strsep_str]. destruct (x =? c); [done|].
  rewrite IH. by destruct (strsep_str c s) as [tok rest].
Qed.

Lemma tokens_length c s : length (tokens c s) = S (count_occ Z.eq_dec s c).
Proof.
  induction s as [|x s IH]; [done|]. cbn [tokens count_occ]. destruct (Z.eqb_spec x c) as [->|Hx].
  - destruct (Z.eq_dec c c); [|done]. cbn [length]. by rewrite IH.
  - destruct (Z.eq_dec x c); [done|]. rewrite <-IH. by destruct (tokens c s) as [|t ts].
Qed.

(** Tokens with a delimiter between them. *)
Fixpoint joined (c : Z) (l : list (list Z)) : list Z :=
  match l with
  | [] => []
  | [tok] => tok
  | tok :: l => tok ++ c :: joined c l
  end.

Lemma tokens_joined c l : l <> [] -> Forall (without c) l -> tokens c (joined c l) = l.
Proof.
  intros Hne H. induction H as [|tok l Ht Hl IH]; [done|]. destruct l as [|tok' l].
  - cbn [joined]. by rewrite tokens_strsep, strsep_plain.
  - change (joined c (tok :: tok' :: l)) with (tok ++ c :: joined c (tok' :: l)). rewrite tokens_strsep, strsep_cut by done. by rewrite IH.
Qed.

Lemma Forall_joined (P : Z -> Prop) c l : P c -> Forall (Forall P) l -> Forall P (joined c l).
Proof.
  intros Hc. induction 1 as [|tok l Ht Hl IH]; [constructor|]. destruct l as [|tok' l]; [done|].
  change (joined c (tok :: tok' :: l)) with (tok ++ c :: joined c (tok' :: l)). apply Forall_app. split; [done|]. by constructor.
Qed.

(** ** Descriptions of partitions *)

(** A key, with or without a value. *)
Definition field : Type := list Z * option (list Z).

Definition field_text (f : field) : list Z := f.1 ++ match f.2 with Some v => equals :: v | None => [] end.
Definition part_text (fs : list field) : list Z := joined comma (field_text <$> fs).
Definition list_text (guid : list Z) (fss : list (list field)) (closed : bool) : list Z :=
  text "uuid_disk=" ++ guid ++ semicolon :: joined semicolon (part_text <$> fss) ++ (if closed then [semicolon] else []).

(** No delimiters inside of keys and values, no zeros. *)
Definition plain (s : list Z) : Prop := Forall (λ x, byte x /\ x <> 0 /\ x <> comma /\ x <> semicolon) s.
Record field_ok (f : field) : Prop := FieldOk {
  fo_key : plain f.1 /\ without equals f.1;
  fo_val : ∀ v, f.2 = Some v -> plain v
}.
Definition part_text_ok (fs : list field) : Prop := Forall field_ok fs /\ part_text fs <> [].

(** The value of the first field with a key. *)
Definition field_val (fs : list field) (key : list Z) : option (list Z) :=
  f ← find (λ f, bool_decide (f.1 = key)) fs; f.2.

Lemma plain_without s : plain s -> without comma s /\ without semicolon s.
Proof. intros H. split; (eapply Forall_impl; [exact H|]; cbn; tauto). Qed.

Lemma field_text_plain f : field_ok f -> plain (field_text f).
Proof.
  intros [[Hk _] Hv]. unfold field_text. apply Forall_app. split; [done|]. destruct (f.2) as [v|]; [|constructor].
  constructor; [unfold byte, equals, comma, semicolon; lia|by apply Hv].
Qed.

Lemma field_texts_without fs : Forall field_ok fs -> Forall (without comma) (field_text <$> fs).
Proof. intros H. apply Forall_fmap. eapply Forall_impl; [exact H|]. intros f Hf. by apply plain_without, field_text_plain. Qed.

Lemma strsep_field f : field_ok f -> strsep_str equals (field_text f) = (f.1, f.2).
Proof.
  intros [[_ Hk] _]. unfold field_text. destruct f as [k [v|]]; cbn [fst snd] in *; [by apply strsep_cut|].
  rewrite app_nil_r. by apply strsep_plain.
Qed.

Lemma part_text_tokens fs : part_text_ok fs -> tokens comma (part_text fs) = field_text <$> fs.
Proof. intros [Hf Hne]. apply tokens_joined; [|by apply field_texts_without]. by destruct fs. Qed.

Lemma part_text_chars fs : part_text_ok fs -> Forall (λ x, byte x /\ x <> 0 /\ x <> semicolon) (part_text fs).
Proof.
  intros [Hf _]. apply Forall_joined; [unfold byte, comma, semicolon; lia|]. apply Forall_fmap. eapply Forall_impl; [exact Hf|].
  intros f Hok. cbn. eapply Forall_impl; [by apply field_text_plain|]. cbn. tauto.
Qed.

Section spec.
Context (getenv : list Z -> option (list Z)) (can_alloc : Z -> bool).
Hypothesis Halloc : ∀ n, can_alloc n = true.

(** The value of a key, with a variable replaced by what it is set to. *)
Definition value (fs : list field) (key : list Z) : option (list Z) := expand getenv can_alloc <$> field_val fs key.

(** A size or a position in bytes, as a number of blocks. *)
Definition blocks (dev : block_dev_desc) (s : list Z) : Z := (ustrtoull s 0).1 / blksz dev.

(** The partition that is described. *)
Definition asked (dev : block_dev_desc) (fs : list field) : option disk_partition_t :=
  id ← value fs (text "uuid"); name ← value fs (text "name"); size ← value fs (text "size");
  if decide (length id < 37 /\ length name < 32)%nat then
    Some (DiskPartition (match value fs (text "start") with Some s => blocks dev s | None => 0 end) (blocks dev size) 0 (in_array 64 name)
            (if bool_decide ((text "bootable", None) ∈ fs) then 1 else 0) (in_array 37 id))
  else None.

Lemma strdup_some s : strdup can_alloc s = s.
Proof. destruct s as [s|]; [|done]. cbn. by rewrite Halloc. Qed.

Lemma val_loop_spec fs key : Forall field_ok fs -> val_loop can_alloc (field_text <$> fs) key = field_val fs key.
Proof.
  unfold field_val. induction 1 as [|f fs Hf Hfs IH]; [done|]. cbn [fmap list_fmap val_loop find]. rewrite strsep_field by done.
  destruct (bool_decide (f.1 = key)); [by rewrite strdup_some|done].
Qed.

Lemma extract_val_spec fs key : part_text_ok fs -> extract_val can_alloc (Some (part_text fs)) key = field_val fs key.
Proof.
  intros H. unfold extract_val. rewrite strdup_some. cbn [mbind option_bind]. rewrite part_text_tokens by done. by apply val_loop_spec, H.
Qed.

Lemma found_key_spec fs key : part_text_ok fs -> without equals key -> found_key can_alloc (part_text fs) key = bool_decide ((key, None) ∈ fs).
Proof.
  intros H Hk. unfold found_key. rewrite strdup_some, part_text_tokens by done. destruct H as [Hfs _].
  apply eq_true_iff_eq. rewrite existsb_exists, bool_decide_eq_true. split.
  - intros (s & Hs & E%bool_decide_eq_true). apply list_elem_of_In, list_elem_of_fmap in Hs as (f & -> & Hf).
    destruct (proj1 (Forall_forall _ _) Hfs f Hf) as [[_ Hke] _]. unfold field_text in E. destruct f as [k [v|]]; cbn [fst snd] in E.
    + exfalso. subst key. apply Forall_app in Hk as [_ [Hk _]%Forall_cons]. done.
    + rewrite app_nil_r in E. by subst.
  - intros Hin. exists (field_text (key, None)). split; [apply list_elem_of_In, list_elem_of_fmap; by exists (key, None)|].
    apply bool_decide_eq_true. unfold field_text. cbn. apply app_nil_r.
Qed.

Lemma ustrtoull_range s base : 0 <= (ustrtoull s base).1 < 2 ^ 64.
Proof.
  unfold ustrtoull, simple_strtoull. destruct (radix s base) as [cp b].
  assert (∀ cp r, 0 <= r < 2 ^ 64 -> 0 <= (digits_loop cp b r).1 < 2 ^ 64) as Hd.
  { clear. induction cp as [|c cp IH]; intros r Hr; [done|]. cbn [digits_loop].
    destruct (isxdigit c && (digit_value c <? b)); [|done]. apply IH. apply Z.mod_pos_bound. lia. }
  specialize (Hd cp 0 ltac:(lia)). destruct (digits_loop cp b 0) as [r e]. cbn [fst] in Hd. unfold with_unit.
  assert (∀ x, 0 <= u64 x < 2 ^ 64) by (intros x; apply Z.mod_pos_bound; lia).
  destruct (ch e =? 71); [cbn [fst]; done|]. destruct (ch e =? 77); [cbn [fst]; done|].
  destruct ((ch e =? 75) || (ch e =? 107)); cbn [fst]; done.
Qed.

Lemma lldiv_blocks dev s : 0 < blksz dev < 2 ^ 32 -> lldiv (ustrtoull s 0).1 (u32 (blksz dev)) = Some (blocks dev s).
Proof.
  intros Hb. unfold lldiv. rewrite u32_small by lia. by rewrite (do_div_spec _ _ (ustrtoull_range s 0) Hb).
Qed.

Lemma set_part_spec dev fs :
  0 < blksz dev < 2 ^ 32 -> part_text_ok fs ->
  set_part getenv can_alloc dev true (part_text fs) = Some (match asked dev fs with Some p => inr p | None => inl (-4) end).
Proof.
  intros Hb Hfs. unfold set_part, asked, value. rewrite !extract_val_spec by done.
  rewrite (found_key_spec _ _ Hfs) by (repeat (constructor; [done|]); constructor).
  destruct (field_val fs (text "uuid")) as [id|]; [|done]. cbn [fmap option_fmap option_map mbind option_bind].
  destruct (Nat.leb_spec 37 (length (expand getenv can_alloc id))) as [Hi|Hi].
  { destruct (field_val fs (text "name")); [|done]. cbn [fmap option_fmap option_map mbind option_bind].
    destruct (field_val fs (text "size")); [|done]. cbn [fmap option_fmap option_map mbind option_bind]. rewrite decide_False by lia. done. }
  cbn [negb]. destruct (field_val fs (text "name")) as [name|]; [|done]. cbn [fmap option_fmap option_map mbind option_bind].
  destruct (Nat.leb_spec 32 (length (expand getenv can_alloc name))) as [Hn|Hn].
  { destruct (field_val fs (text "size")); [|done]. cbn [fmap option_fmap option_map mbind option_bind]. rewrite decide_False by lia. done. }
  destruct (field_val fs (text "size")) as [size|]; [|done]. cbn [fmap option_fmap option_map mbind option_bind].
  rewrite decide_True by lia. rewrite lldiv_blocks by done. cbn [mbind option_bind].
  destruct (field_val fs (text "start")) as [first|]; cbn [fmap option_fmap option_map]; [rewrite lldiv_blocks by done|]; done.
Qed.

Lemma parts_loop_spec dev fss :
  0 < blksz dev < 2 ^ 32 -> Forall part_text_ok fss ->
  parts_loop getenv can_alloc dev true (length fss) (part_text <$> fss) = Some (match mapM (asked dev) fss with Some ps => inr ps | None => inl (-4) end).
Proof.
  intros Hb. induction 1 as [|fs fss Hfs Hfss IH]; [done|]. cbn [length fmap list_fmap parts_loop mapM].
  rewrite set_part_spec by done. cbn [mbind option_bind]. destruct (asked dev fs) as [p|]; [|done].
  cbn [fmap list_fmap] in IH. rewrite IH. cbn [mbind option_bind]. by destruct (mapM (asked dev) fss).
Qed.

Lemma strsep_prefix c pre s : without c pre -> strsep_str c (pre ++ s) = (pre ++ (strsep_str c s).1, (strsep_str c s).2).
Proof.
  induction 1 as [|x pre Hx _ IH]; cbn [app strsep_str]; [by destruct (strsep_str c s)|].
  rewrite (proj2 (Z.eqb_neq x c)) by done. by rewrite IH.
Qed.

Lemma joined_last c l : l <> [] -> Forall (λ t, t <> [] /\ without c t) l -> joined c l <> [] /\ last (joined c l) <> Some c.
Proof.
  intros Hne. induction 1 as [|t l [Ht Hw] Hl IH]; [done|]. destruct l as [|t' l].
  - split; [done|]. cbn [joined]. intros (s' & E)%last_Some. subst t. apply Forall_app in Hw as [_ [Hw _]%Forall_cons]. done.
  - destruct (IH ltac:(done)) as [Hj Hlast]. change (joined c (t :: t' :: l)) with (t ++ c :: joined c (t' :: l)). split.
    + intros E%(f_equal length). rewrite length_app in E. cbn [length] in E. lia.
    + rewrite last_app. destruct (joined c (t' :: l)) as [|y ys]; [done|]. change (last (c :: y :: ys)) with (last (y :: ys)).
      destruct (last (y :: ys)) eqn:E; [done|]. by apply last_None in E.
Qed.

Lemma removelast_snoc {A} (l : list A) x : removelast (l ++ [x]) = l.
Proof. by rewrite removelast_last. Qed.

Definition key_text : list Z := Eval vm_compute in text "uuid_disk".

Lemma list_text_split guid fss closed :
  list_text guid fss closed = key_text ++ equals :: guid ++ semicolon :: joined semicolon (part_text <$> fss) ++ (if closed then [semicolon] else []).
Proof. reflexivity. Qed.

Lemma key_text_plain : plain key_text /\ without equals key_text.
Proof. split; unfold key_text; repeat (constructor; [unfold byte, comma, semicolon, equals; lia|]); constructor. Qed.

(** The disk GUID of a list. *)
Lemma disk_guid_spec guid fss closed :
  plain guid -> ∃ v, extract_val can_alloc (Some (list_text guid fss closed)) (text "uuid_disk") = Some v /\ (strsep_str semicolon v).1 = guid.
Proof.
  intros Hg. destruct key_text_plain as [Hk He]. destruct (plain_without _ Hg) as [Hgc Hgs]. destruct (plain_without _ Hk) as [Hkc Hks].
  unfold extract_val. rewrite strdup_some. cbn [mbind option_bind]. rewrite list_text_split, tokens_strsep.
  set (r := joined _ _ ++ _). replace (key_text ++ equals :: guid ++ semicolon :: r) with ((key_text ++ equals :: guid ++ [semicolon]) ++ r)
    by (rewrite <-app_assoc; cbn [app]; by rewrite <-app_assoc).
  rewrite strsep_prefix; [|apply Forall_app; split; [done|]; constructor; [done|]; apply Forall_app; split; [done|by repeat constructor]].
  cbn [val_loop]. rewrite <-app_assoc. cbn [app]. rewrite strsep_cut by done. change (text "uuid_disk") with key_text.
  rewrite bool_decide_eq_true_2 by done. rewrite strdup_some. eexists. split; [done|]. rewrite <-app_assoc. cbn [app]. by rewrite strsep_cut.
Qed.

(** The list of partitions is read as it is meant: a text of fields
    [key=value] in any order gives for every partition the values of its keys,
    variables expanded, with sizes and positions in blocks; a list with a
    description that is not complete or too long is refused. *)
Lemma set_gpt_info_spec dev guid fss closed :
  0 < blksz dev < 2 ^ 32 -> plain guid -> fss <> [] -> Forall part_text_ok fss ->
  set_gpt_info getenv can_alloc dev (Some (list_text guid fss closed)) =
    Some (match mapM (asked dev) fss with
          | Some ps => inr (Some (expand getenv can_alloc guid), ps, u8 (Z.of_nat (length ps)))
          | None => inl (-4)
          end).
Proof.
  intros Hb Hg Hne Hfss. unfold set_gpt_info. rewrite strdup_some. destruct (disk_guid_spec guid fss closed Hg) as (v & -> & ->).
  rewrite strdup_some. cbn [mbind option_bind]. destruct key_text_plain as [Hk _]. destruct (plain_without _ Hg) as [_ Hgs], (plain_without _ Hk) as [_ Hks].
  assert (Forall (λ t, t <> [] /\ without semicolon t) (part_text <$> fss)) as Hts.
  { apply Forall_fmap. eapply Forall_impl; [exact Hfss|]. intros fs Hfs. cbn. split; [apply Hfs|].
    eapply Forall_impl; [by apply part_text_chars|]. cbn. tauto. }
  destruct (joined_last semicolon (part_text <$> fss)) as [Hj Hl]; [by destruct fss|done|].
  rewrite list_text_split. replace (key_text ++ equals :: guid ++ semicolon :: joined semicolon (part_text <$> fss) ++ (if closed then [semicolon] else []))
    with ((key_text ++ equals :: guid) ++ semicolon :: joined semicolon (part_text <$> fss) ++ (if closed then [semicolon] else []))
    by (rewrite <-app_assoc; done).
  rewrite strsep_cut by (apply Forall_app; split; [done|]; by constructor). cbn [snd mbind option_bind].
  destruct (Nat.eqb_spec (length (joined semicolon (part_text <$> fss) ++ (if closed then [semicolon] else []))) 0) as [E|_].
  { rewrite length_app in E. destruct (joined semicolon (part_text <$> fss)); [done|]. cbn [length] in E. lia. }
  replace (if bool_decide (last (joined semicolon (part_text <$> fss) ++ (if closed then [semicolon] else [])) = Some semicolon)
           then removelast (joined semicolon (part_text <$> fss) ++ (if closed then [semicolon] else []))
           else joined semicolon (part_text <$> fss) ++ (if closed then [semicolon] else [])) with (joined semicolon (part_text <$> fss)).
  2:{ destruct closed; [rewrite last_snoc, bool_decide_eq_true_2 by done; by rewrite removelast_snoc|].
      rewrite app_nil_r. by rewrite bool_decide_eq_false_2. }
  rewrite <-tokens_length, Halloc. assert (tokens semicolon (joined semicolon (part_text <$> fss)) = part_text <$> fss) as ->.
  { apply tokens_joined; [by destruct fss|]. eapply Forall_impl; [exact Hts|]. cbn. tauto. }
  rewrite length_fmap, parts_loop_spec by done. cbn [mbind option_bind]. destruct (mapM (asked dev) fss) as [ps|] eqn:E; [|done].
  by rewrite (length_mapM _ _ _ E).
Qed.
End spec.

(** ** The command *)

Section run.
Context {D : Type} `{!BlockDev D} (dev : block_dev_desc) `{!BlockDevLaws D dev}.
Context (getenv : list Z -> option (list Z)) (can_alloc : Z -> bool) (block_drvr_table : list block_drvr).
Hypothesis Halloc : ∀ n, can_alloc n = true.
Hypothesis Hlba : 68 <= lba dev < 2 ^ 63.

(** Variables are strings. *)
Definition env_ok : Prop := ∀ k v, getenv k = Some v -> Forall (λ x, byte x /\ x <> 0) v.
Hypothesis Henv : env_ok.

(** The arguments name the device. *)
Record names_dev (ifname num : list Z) : Prop := NamesDev {
  nd_num : (simple_strtoul num 10).2 = [];
  nd_dev : geometry <$> get_dev block_drvr_table ifname (s32 (simple_strtoul num 10).1) = Some dev
}.

Lemma plain_chars s : plain s -> Forall (λ x, byte x /\ x <> 0) s.
Proof. intros H. eapply Forall_impl; [exact H|]. cbn. tauto. Qed.

Lemma expand_chars s : plain s -> Forall (λ x, byte x /\ x <> 0) (expand getenv can_alloc s).
Proof.
  intros H. pose proof (plain_chars s H). unfold expand, extract_env. repeat case_match; [done|done|].
  rewrite strdup_some by done. cbn [mbind option_bind]. destruct (getenv (drop 2 (removelast s))) as [v|] eqn:E; [|done].
  by apply Henv in E.
Qed.

Lemma value_chars fs key v : part_text_ok fs -> value getenv can_alloc fs key = Some v -> Forall (λ x, byte x /\ x <> 0) v.
Proof.
  intros [Hfs _]. unfold value, field_val. intros (w & Hw & ->)%fmap_Some. apply expand_chars.
  apply bind_Some in Hw as (f & [Hin%list_elem_of_In _]%find_some & Hw).
  by apply (fo_val f (proj1 (Forall_forall _ _) Hfs f Hin)).
Qed.

Lemma in_array_bytes n s : Forall (λ x, byte x /\ x <> 0) s -> Forall byte (in_array n s).
Proof.
  intros H. unfold in_array. apply Forall_app. split; [eapply Forall_impl; [exact H|]; cbn; tauto|].
  apply Forall_replicate. unfold byte. lia.
Qed.

Lemma blocks_range s : 0 <= blocks dev s < 2 ^ 55.
Proof.
  unfold blocks. rewrite dev_blksz. pose proof (ustrtoull_range s 0). split; [apply Z.div_pos; lia|].
  apply Z.div_lt_upper_bound; [lia|]. change (512 * 2 ^ 55) with (2 ^ 64). lia.
Qed.

Lemma asked_ok fs p : part_text_ok fs -> asked getenv can_alloc dev fs = Some p ->
  part_ok (lba dev - 34) p /\ ∃ name size, value getenv can_alloc fs (text "name") = Some name /\ value getenv can_alloc fs (text "size") = Some size /\
    part_name p = name /\ (length name < 32)%nat /\ psize p = blocks dev size /\
    start p = (match value getenv can_alloc fs (text "start") with Some s => blocks dev s | None => 0 end) /\
    bootable p = (if bool_decide ((text "bootable", None) ∈ fs) then 1 else 0).
Proof.
  intros Hfs. unfold asked. intros (id & Hid & H)%bind_Some. apply bind_Some in H as (name & Hname & H). apply bind_Some in H as (size & Hsize & H).
  case_decide as Hlen; [|done]. apply (inj Some) in H as <-. pose proof (value_chars _ _ _ Hfs Hname) as Hnc. split.
  - split; cbn [start psize name_type uuid].
    + destruct (value getenv can_alloc fs (text "start")); [apply blocks_range|lia].
    + apply blocks_range.
    + assert (match value getenv can_alloc fs (text "start") with Some s => blocks dev s | None => 0 end < 2 ^ 55).
      { destruct (value getenv can_alloc fs (text "start")); [apply blocks_range|lia]. }
      pose proof (blocks_range size). lia.
    + split; [unfold in_array; rewrite length_app, length_replicate; lia|by apply in_array_bytes].
    + by apply in_array_bytes, (value_chars _ _ _ Hfs Hid).
  - exists name, size. split_and!; [done|done| |lia|done|done|done]. unfold part_name. cbn [name_type]. unfold in_array.
    rewrite take_app_ge by lia. replace (take (32 - length name) (replicate (64 - length name) 0)) with (0 :: replicate (31 - length name) 0)
      by (rewrite take_replicate; replace (Nat.min _ _) with (S (31 - length name)) by lia; done).
    apply cstring_text. eapply Forall_impl; [exact Hnc|]. cbn. tauto.
Qed.

Lemma asked_all fss ps : Forall part_text_ok fss -> mapM (asked getenv can_alloc dev) fss = Some ps ->
  Forall (part_ok (lba dev - 34)) ps /\ Forall (λ p, (length (part_name p) < 32)%nat) ps.
Proof.
  intros Hf H. apply mapM_Some in H. induction H as [|fs p fss ps Hp Hps IH]; [by split|]. apply Forall_cons in Hf as [Hfs Hf].
  destruct (IH Hf) as [H1 H2]. destruct (asked_ok fs p Hfs Hp) as (Hok & name & size & _ & _ & Hn & Hl & _). split; constructor; try done. by rewrite Hn.
Qed.

(** The number of partitions is kept in 8 bits: of a list of 256 partitions or
    more only the remainder is written. *)
Lemma gpt_default_spec (d : D) guid fss closed :
  plain guid -> fss <> [] -> Forall part_text_ok fss ->
  gpt_default getenv can_alloc dev d (Some (list_text guid fss closed)) =
    match mapM (asked getenv can_alloc dev) fss with
    | Some ps => gpt_restore dev can_alloc d (expand getenv can_alloc guid) (take (Z.to_nat (Z.of_nat (length ps) mod 256)) ps)
    | None => Some (-1, d)
    end.
Proof.
  intros Hg Hne Hfss. unfold gpt_default. rewrite set_gpt_info_spec by (try done; rewrite dev_blksz; lia). cbn [mbind option_bind].
  by destruct (mapM (asked getenv can_alloc dev) fss).
Qed.

Lemma take_count {A} (l : list A) : (length l <= 255)%nat -> take (Z.to_nat (Z.of_nat (length l) mod 256)) l = l.
Proof. intros H. rewrite Z.mod_small by lia. rewrite Nat2Z.id. by apply take_ge. Qed.

(** The device of the arguments. *)
Lemma do_gpt_dev (d : D) cmd op ifname num part :
  names_dev ifname num -> op = text "write" \/ op = text "verify" ->
  do_gpt getenv can_alloc block_drvr_table d [cmd; op; ifname; num; part] =
    '(ret, d') ← (if bool_decide (op = text "write") then gpt_default getenv can_alloc dev d (Some part)
                  else ret ← gpt_verify getenv can_alloc dev d (Some part); Some (ret, d));
    Some (if negb (ret =? 0) then CMD_RET_FAILURE else CMD_RET_SUCCESS, d').
Proof.
  intros [Hn Hd] Hop. unfold do_gpt. cbn [length]. change (1 <? 1)%nat with false. cbn iota.
  destruct (simple_strtoul num 10) as [n ep]. cbn [fst snd] in *. subst ep. rewrite bool_decide_eq_true_2 by done. cbn [negb].
  apply fmap_Some in Hd as (b & -> & Hgeo). cbn zeta. rewrite <-Hgeo.
  change (1 =? 1)%nat with true. rewrite andb_true_r. cbn [head]. case_bool_decide as Hw; [done|].
  destruct Hop as [->| ->]; [done|]. rewrite bool_decide_eq_true_2 by done. by destruct (gpt_verify getenv can_alloc dev d (Some part)).
Qed.

(** What a command that succeeds has done. *)
Lemma do_gpt_write_inv (d d' : D) cmd ifname num guid fss closed :
  names_dev ifname num -> plain guid -> fss <> [] -> Forall part_text_ok fss -> (length fss <= 255)%nat ->
  do_gpt getenv can_alloc block_drvr_table d [cmd; text "write"; ifname; num; list_text guid fss closed] = Some (CMD_RET_SUCCESS, d') ->
  ∃ ps, mapM (asked getenv can_alloc dev) fss = Some ps /\ length ps = length fss /\
    gpt_restore dev can_alloc d (expand getenv can_alloc guid) ps = Some (0, d').
Proof.
  intros Hnd Hg Hne Hfss Hlen. rewrite do_gpt_dev by auto. rewrite bool_decide_eq_true_2 by done. rewrite gpt_default_spec by done.
  destruct (mapM (asked getenv can_alloc dev) fss) as [ps|] eqn:E; [|by intros [=]]. pose proof (length_mapM _ _ _ E) as Hl.
  rewrite take_count by lia. destruct (gpt_restore dev can_alloc d _ ps) as [[r d1]|] eqn:R; [|done]. cbn [mbind option_bind].
  destruct (Z.eqb_spec r 0) as [->|]; cbn [negb]; [|by intros [=]]. intros [= ->]. by exists ps.
Qed.

(** C31. [gpt write] does what its list says: when it succeeds, every partition
    of the list is reported with its name, its size and its start in blocks, and
    its boot flag; a start that was left out is the next free block, and a last
    partition without a size ends with the usable blocks. *)
Theorem gpt_write_read_back (d d' : D) cmd ifname num guid fss closed i fs addr info :
  names_dev ifname num -> plain guid -> Forall part_text_ok fss -> (length fss <= 255)%nat ->
  do_gpt getenv can_alloc block_drvr_table d [cmd; text "write"; ifname; num; list_text guid fss closed] = Some (CMD_RET_SUCCESS, d') ->
  fss !! i = Some fs -> info_ok addr info ->
  ∃ name size info', value getenv can_alloc fs (text "name") = Some name /\ value getenv can_alloc fs (text "size") = Some size /\
    get_partition_info_efi dev can_alloc d' (Z.of_nat i + 1) addr info = Some (0, info') /\
    cstring (name_type info') = shown <$> name /\
    (psize info' = blocks dev size \/ S i = length fss /\ blocks dev size = 0 /\ start info' + psize info' = lba dev - 33) /\
    (∀ s, value getenv can_alloc fs (text "start") = Some s -> blocks dev s <> 0 -> start info' = blocks dev s) /\
    34 <= start info' /\ start info' + psize info' <= lba dev - 33 /\
    bootable info' = (if bool_decide ((text "bootable", None) ∈ fs) then 1 else 0).
Proof.
  intros Hnd Hg Hfss Hlen Hrun Hi Hinfo. assert (fss <> []) as Hne by (by intros ->).
  destruct (do_gpt_write_inv d d' cmd ifname num guid fss closed Hnd Hg Hne Hfss Hlen Hrun) as (ps & Hps & Hl & Hr).
  destruct (asked_all fss ps Hfss Hps) as [Hok Hnames]. pose proof (proj1 (mapM_Some _ _ _) Hps) as H2.
  destruct (Forall2_lookup_l _ _ _ _ _ H2 Hi) as (p & Hp & Hask).
  destruct (asked_ok fs p (Forall_lookup_1 _ _ _ _ Hfss Hi) Hask) as (_ & name & size & Hname & Hsize & Hpn & Hln & Hpsz & Hst & Hbt).
  assert (Forall byte (expand getenv can_alloc guid)) as Hgb by (eapply Forall_impl; [by apply expand_chars|]; cbn; tauto).
  destruct (gpt_restore_read_back dev can_alloc d d' _ ps i p addr info (Halloc _) Hlba Hgb Hok Hr Hp (Forall_lookup_1 _ _ _ _ Hnames Hp) Hinfo)
    as (info' & Hget & H1 & Hsz & H34 & Hend & Hnm & Hbo).
  exists name, size, info'. rewrite Hpn in Hnm. rewrite Hpsz in Hsz. rewrite Hl in Hsz. split_and!; try done.
  - intros s Hs Hnz. rewrite Hs in Hst. rewrite <-Hst. apply H1. by rewrite Hst.
  - rewrite Hbo, Hbt. by case_bool_decide.
Qed.

(** C33. [gpt verify] accepts what [gpt write] has written for the same list,
    unless the last partition has no size: then it fails. *)
Theorem gpt_write_verify (d d' : D) cmd ifname num guid fss closed :
  names_dev ifname num -> plain guid -> fss <> [] -> Forall part_text_ok fss -> (length fss <= 255)%nat ->
  do_gpt getenv can_alloc block_drvr_table d [cmd; text "write"; ifname; num; list_text guid fss closed] = Some (CMD_RET_SUCCESS, d') ->
  ∃ ps, mapM (asked getenv can_alloc dev) fss = Some ps /\
    do_gpt getenv can_alloc block_drvr_table d' [cmd; text "verify"; ifname; num; list_text guid fss closed] =
      Some (if open_end ps then CMD_RET_FAILURE else CMD_RET_SUCCESS, d').
Proof.
  intros Hnd Hg Hne Hfss Hlen Hrun.
  destruct (do_gpt_write_inv d d' cmd ifname num guid fss closed Hnd Hg Hne Hfss Hlen Hrun) as (ps & Hps & Hl & Hr).
  exists ps. split; [done|]. destruct (asked_all fss ps Hfss Hps) as [Hok Hnames].
  assert (Forall byte (expand getenv can_alloc guid)) as Hgb by (eapply Forall_impl; [by apply expand_chars|]; cbn; tauto).
  rewrite do_gpt_dev by auto. rewrite bool_decide_eq_false_2 by done. unfold gpt_verify.
  rewrite set_gpt_info_spec by (try done; rewrite dev_blksz; lia). rewrite Hps. cbn [mbind option_bind]. unfold u8, wrap. change (2 ^ 8) with 256.
  rewrite take_count by lia. rewrite (gpt_verify_written dev can_alloc d d' _ ps (Halloc _) Hlba Hgb Hok Hnames Hr). cbn [mbind option_bind].
  by destruct (open_end ps).
Qed.
End run.

(** A list with a disk GUID only, and no partition behind it: the code goes on
    with a null pointer. *)
Lemma set_gpt_info_disk_only getenv can_alloc dev guid :
  (∀ n, can_alloc n = true) -> plain guid -> set_gpt_info getenv can_alloc dev (Some (key_text ++ equals :: guid)) = None.
Proof.
  intros Ha Hg. destruct key_text_plain as [Hk He]. destruct (plain_without _ Hg) as [Hgc Hgs], (plain_without _ Hk) as [Hkc Hks].
  unfold set_gpt_info, extract_val. rewrite !strdup_some by done. cbn [mbind option_bind].
  rewrite tokens_strsep, strsep_plain by (apply Forall_app; split; [done|]; by constructor). cbn [val_loop]. rewrite strsep_cut by done.
  rewrite bool_decide_eq_true_2 by done. rewrite strdup_some by done. rewrite (strsep_plain semicolon guid) by done.
  rewrite strsep_plain by (apply Forall_app; split; [done|]; by constructor). done.
Qed.

(** ** Examples *)

#[local] Existing Instance PartEfiRead.fdisk_dev.
#[local] Existing Instance PartEfiRead.fdisk_laws.

Definition ex_gpt_drivers : list block_drvr :=
  [BlockDrvr (text "mmc") (λ n, if n =? 0 then Some (BlockDevice ex_dev (BlockId IF_TYPE_MMC 0) PART_TYPE_EFI 0 0) else None) None].
Definition ex_fields : list (list field) :=
  [[(text "name", Some (text "uboot")); (text "size", Some (text "4KiB")); (text "uuid", Some ex_guid)];
   [(text "uuid", Some (text "${id}")); (text "bootable", None); (text "size", Some (text "2048")); (text "start", Some (text "0x5A00")); (text "name", Some (text "boot"))]].
Definition ex_argv (op : list Z) : list (list Z) := [text "gpt"; op; text "mmc"; text "0"; list_text (text "${id}") ex_fields true].

Definition plainb (s : list Z) : bool := forallb (λ x, (0 <? x) && (x <? 256) && negb (x =? comma) && negb (x =? semicolon)) s.

Lemma plain_check s : plainb s = true -> plain s.
Proof.
  intros H. apply Forall_forall. intros x Hx. unfold plainb in H. rewrite forallb_forall in H. apply list_elem_of_In, H in Hx.
  unfold byte. lia.
Qed.

Definition fieldb (f : field) : bool := plainb f.1 && forallb (λ x, negb (x =? equals)) f.1 && match f.2 with Some v => plainb v | None => true end.

Lemma part_check fs : forallb fieldb fs && negb (bool_decide (part_text fs = [])) = true -> part_text_ok fs.
Proof.
  intros [H Hne%negb_true_iff%bool_decide_eq_false]%andb_true_iff. split; [|done]. apply Forall_forall. intros f Hf. rewrite forallb_forall in H.
  apply list_elem_of_In, H in Hf. unfold fieldb in Hf. apply andb_true_iff in Hf as [[Hk He]%andb_true_iff Hv]. split.
  - split; [by apply plain_check|]. apply Forall_forall. intros x Hx. rewrite forallb_forall in He. apply list_elem_of_In, He in Hx. lia.
  - intros v E. rewrite E in Hv. by apply plain_check.
Qed.

Lemma ex_fields_ok : Forall part_text_ok ex_fields.
Proof. repeat (apply Forall_cons; split; [apply part_check; vm_compute; reflexivity|]). by apply Forall_nil. Qed.

Lemma ex_env_ok : env_ok ex_env.
Proof.
  intros k v. unfold ex_env. case_bool_decide; [|done]. intros [= <-]. eapply Forall_impl; [apply plain_check; vm_compute; reflexivity|].
  cbn. tauto.
Qed.

Lemma ex_names_dev : names_dev ex_dev ex_gpt_drivers (text "mmc") (text "0").
Proof. split; vm_compute; reflexivity. Qed.

Lemma gpt_write_read_back_witness :
  ∃ d' info', do_gpt ex_env ex_all ex_gpt_drivers (ex_disk 1000) (ex_argv (text "write")) = Some (CMD_RET_SUCCESS, d') /\
    get_partition_info_efi ex_dev ex_all d' 2 4096 ex_info = Some (0, info') /\ cstring (name_type info') = text "boot" /\
    start info' = 45 /\ psize info' = 4 /\ bootable info' = 1.
Proof.
  assert ((λ r, match r.1 with CMD_RET_SUCCESS => true | _ => false end) <$> do_gpt ex_env ex_all ex_gpt_drivers (ex_disk 1000) (ex_argv (text "write")) = Some true)
    as H0 by (vm_compute; reflexivity).
  destruct (do_gpt ex_env ex_all ex_gpt_drivers (ex_disk 1000) (ex_argv (text "write"))) as [[[] d']|] eqn:E; try discriminate.
  destruct (gpt_write_read_back ex_dev ex_env ex_all ex_gpt_drivers (λ _, eq_refl) ltac:(cbn; lia) ex_env_ok (ex_disk 1000) d' (text "gpt") (text "mmc")
    (text "0") (text "${id}") ex_fields true 1 [(text "uuid", Some (text "${id}")); (text "bootable", None); (text "size", Some (text "2048"));
      (text "start", Some (text "0x5A00")); (text "name", Some (text "boot"))] 4096 ex_info)
    as (name & size & info' & Hn & Hs & Hget & Hname & Hsize & Hstart & _ & _ & Hb);
    [exact ex_names_dev|apply plain_check; vm_compute; reflexivity|exact ex_fields_ok|cbn; lia|exact E|reflexivity|exact ex_info_ok|].
  vm_compute in Hn, Hs. injection Hn as <-. injection Hs as <-. exists d', info'. split; [reflexivity|]. split; [exact Hget|].
  split; [rewrite Hname; vm_compute; reflexivity|].
  split; [apply (Hstart (text "0x5A00")); [vm_compute; reflexivity|vm_compute; discriminate]|]. split; [|exact Hb].
  destruct Hsize as [H|(_ & H & _)]; [rewrite H; vm_compute; reflexivity|vm_compute in H; discriminate].
Defined.

Lemma gpt_write_verify_witness :
  ∃ d', do_gpt ex_env ex_all ex_gpt_drivers (ex_disk 1000) (ex_argv (text "write")) = Some (CMD_RET_SUCCESS, d') /\
    do_gpt ex_env ex_all ex_gpt_drivers d' (ex_argv (text "verify")) = Some (CMD_RET_SUCCESS, d').
Proof.
  assert ((λ r, match r.1 with CMD_RET_SUCCESS => true | _ => false end) <$> do_gpt ex_env ex_all ex_gpt_drivers (ex_disk 1000) (ex_argv (text "write")) = Some true)
    as H0 by (vm_compute; reflexivity).
  destruct (do_gpt ex_env ex_all ex_gpt_drivers (ex_disk 1000) (ex_argv (text "write"))) as [[[] d']|] eqn:E; try discriminate.
  destruct (gpt_write_verify ex_dev ex_env ex_all ex_gpt_drivers (λ _, eq_refl) ltac:(cbn; lia) ex_env_ok (ex_disk 1000) d' (text "gpt") (text "mmc")
    (text "0") (text "${id}") ex_fields true) as (ps & Hps & Hv);
    [exact ex_names_dev|apply plain_check; vm_compute; reflexivity|discriminate|exact ex_fields_ok|cbn; lia|exact E|].
  exists d'. split; [reflexivity|]. vm_compute in Hps. injection Hps as <-. exact Hv.
Defined.
